(* ===== verification/_CoqProject ===== *)
-Q . S2P
Prelude.v
Reader.v
IdbComparer.v
IdbOrder.v
SendBuffer.v
RunGroup.v
Json.v
IdbValues.v
IdbTotal.v
IdbCodec.v
KatcFirefox.v
KatcCodec.v
KatcWebkit.v
KatcWebkitCodec.v
IdbQuery.v
KVStore.v
Bbolt.v
ActionQueue.v
Control.v
Http.v
Strings.v
JsonRead.v
Flatten.v
Jsonc.v
Decoders.v
Dedup.v
Flags.v
Enrollment.v
Reset.v
Sqlite.v
StartupSettings.v
Publication.v
Extension.v
Publisher.v
Runner.v
Paths.v
Snake.v
KatcConstraints.v
KatcTable.v
KatcTableFacts.v
ExecParsers.v
ExecNested.v
ExecTable.v
TableWrapper.v
Backup.v
Krypto.v
Dt4a.v
Localserver.v
TufLibrary.v
Autoupdate.v
