(* ===== verification/Prelude.v ===== *)
(** * Verification library of the Kolide launcher

    The launcher is an agent that supervises osquery on an end user's machine.  This library
    models the parts of its own logic that run the same on every machine, and proves what
    they are for.  Definitions are pure functions named after the Go functions they translate;
    a doc comment in front of a theorem says what it states of the code.

    ** The program and how its parts interact

    - Storage.  Nearly every part keeps its state in key/value stores behind one interface
      (types.KVStore).  [KVStore] states that interface as type classes with laws ([KVLaws],
      and [KVLogLaws] for a store used as a log); [KVStore.InMemory] and [Bbolt] are its two
      implementations, and every client below is proved against the laws alone.  [Backup]
      is the rotation of copies of the bbolt database, [Sqlite] the store of startup
      settings, which has an interface of its own, and [Reset] wipes the stores when the
      hardware under the launcher has changed.
    - Control.  [Control] polls the control server for the version of each subsystem's data
      and hands new data to the subsystem's consumer; [ActionQueue] and the flag controller
      of [Flags] are two of these consumers.
    - Osquery.  [Extension] stands between osquery and the device server: enrollment,
      configuration, logs in batches ([Publication] sizes them) and distributed queries;
      [Enrollment] is the knapsack's record of enrollments that it reads and writes.
      [Publisher] sends the same logs, encrypted, to the ingester; [Runner] keeps one osquery
      process per enrollment running, restarts it and shuts it down.
    - Logs of the launcher itself pass through [Dedup] into [SendBuffer], which ships them.
    - Tables.  [IdbComparer], [IdbValues], [IdbQuery], [KatcFirefox] and [KatcWebkit] read what
      Chrome, Firefox and WebKit store; [Flatten], with [Jsonc] and [Decoders] in front of it,
      turns nested data into rows.  [KatcTable] puts them together: a table the server
      configures finds databases, queries copies of them, runs the rows through
      deserializers and other steps, and answers osquery.  [ExecParsers], [ExecNested] and
      [ExecTable] are the tables that run a command and parse what it prints; every table is
      called through [TableWrapper], which bounds the time and the number of its queries.
    - Updates.  [TufLibrary] downloads, verifies, installs and selects releases;
      [Autoupdate] decides when, and restarts what was updated.
    - The local server.  A page in the user's browser reaches the launcher over HTTP on the
      loopback interface: [Localserver] routes a request, [Krypto] checks the challenge of K2 in
      it (and keeps the queue of callbacks to K2), [Dt4a] the chain of trust of 1Password.
    - Supervision.  [RunGroup] runs the launcher's long-lived actors and shuts them all down
      when one returns; it also holds the retries of pkg/backoff.

    ** Which file models which code (paths under src/)

    - [Reader], [Json], [Strings], [Paths], [Http]: what the code uses of the Go standard library
      (bytes.Reader and encoding/binary, the output of encoding/json, strings and strconv,
      path/filepath on Unix, headers and base64).  [JsonRead] has parsers that invert the
      encoders of [Json].
    - [IdbComparer], [IdbOrder]: pkg/indexeddbcomparator/comparer.go.  [IdbOrder] has an
      encoder of well-formed keys and the order the comparator refines.
    - [IdbValues], [IdbTotal], [IdbCodec]: ee/indexeddb/values.go, its termination, and the
      round trip from V8's serialized form.  [IdbQuery]: keys.go, indexeddb.go and
      historical_comparer.go beside it.
    - [KatcFirefox], [KatcCodec]: ee/katc/deserialize_firefox.go and its round trip;
      [KatcWebkit], [KatcWebkitCodec]: deserialize_webkit.go and its own, over two pools.
    - [KatcConstraints]: the path constraints of ee/katc/table.go, against what SQLite's LIKE and GLOB
      accept; [KatcTable], [KatcTableFacts]: the rest of ee/katc, and what it uses of
      ee/tables/tablehelpers and dataflattentable; [Snake]: pkg/snake.
    - [ExecParsers], [ExecNested]: the parsers of ee/tables/execparsers; [ExecTable]: the tables on top of
      them and of files; [TableWrapper]: ee/tables/tablewrapper.
    - [SendBuffer]: pkg/sendbuffer/sendbuffer.go; a step is one critical section of its mutex.
    - [KVStore]: ee/agent/types/keyvalue_store.go, ee/agent/storage/inmemory;
      [Bbolt], [Backup]: ee/agent/storage/bbolt; [Sqlite]: ee/agent/storage/sqlite;
      [StartupSettings]: ee/agent/startupsettings.
    - [Enrollment]: ee/agent/storage (keys), ee/agent/knapsack, ee/agent/types/enrollment.go.
    - [Reset]: ee/agent/reset.go.
    - [ActionQueue], [Control]: ee/control.  [Flags]: ee/agent/flags.
    - [Publication], [Extension]: pkg/osquery/log_publication_state.go and extension.go.
      [Publisher]: ee/osquerypublisher/client.go.  [Runner]: pkg/osquery/runtime/runner.go.
    - [Flatten], [Jsonc], [Decoders]: ee/dataflatten.  [Dedup]: pkg/log/dedup.
    - [TufLibrary], [Autoupdate]: ee/tuf.
    - [Krypto]: ee/localserver/krypto-ec-middleware.go; [Dt4a]: dt4a*.go, jwk_keys.go and
      certs.go beside it; [Localserver]: server.go and the request-*.go beside it.
    - [RunGroup]: pkg/rungroup and pkg/backoff.

    ** Conventions

    - An operation that changes state takes the state and returns the new one with its error
      ([option err], [None] for nil); one that only computes returns a [res], where [Panic]
      is a run-time panic (slices are bounds-checked) and [NoFuel] an exhausted bound.  An
      [err] keeps the chain of wrapped errors that errors.Is looks through.
    - Bytes are [list byte]; integers of a fixed width are [Z] and wrap as Go's do where the
      code can overflow.  A map is a [gmap]; where the code ranges over one, the order is an
      argument, or the theorem is about every order.
    - Answers of the outside world (a server, the clock, system calls) are records passed to
      the operation ([world], [fetchEnv], [stageEnv] ...), and so the theorems hold for every
      behaviour they do not exclude.  A library that is not in the repository is a type
      class of functions ([GoLib], [BoltLib], [Semver] ...), and what its documentation promises
      is a second class of laws; the witnesses instantiate both with concrete functions.
    - Concurrency: a critical section is one step, and interleavings are sequences of steps
      ([SendBuffer], [RunGroup], [Runner], [TableWrapper], the callbacks of [Krypto], the requests and timers of
      [Autoupdate] and [Flags]).

    ** What the theorems show

    Each theorem names the conditions it holds under in the comment in front of it.

    - Nothing is lost or doubled: [exactly_once] and [size_invariant] of the send buffer, [logs_accounted]
      of the extension as long as its buffer is not full, [suppressed_accounted] of the
      deduplication, [at_most_once] of the action queue, [PublishLogs_delivers] of the batches for the ingester.
    - Updates are safe: [AddToLibrary_verified], [CheckOutLatest_chooses],
      [TidyLibrary_keeps], [no_early_restart], [deferred_restart_performed].
    - Requests are authenticated: [endpoints_guarded], [served_iff_authorised], [validate_iff]; and
      where they are not: [zta_serves_any_account], [account_spoofed], [rejected_still_prompts].
    - Actors start and stop as they should: [Run_result], [Run_returns], [Shutdown_stops] and
      [pending_restart_kept]; a race they lose is [Shutdown_misses_launch].
    - Implementations meet specifications: [Compare_refines] (the comparator), [Flatten_selects]
      (the query language), [jsoncToJson_tidy], [Fetch_delivers], [answers_agree] (bbolt
      against the in-memory store), [rpmParse_outcome], [flags_within_limits].
    - Readers invert writers, on the values they support, and come to an end: [DeserializeChrome_roundtrip],
      [deserializeFirefox_roundtrip], [deserializeWebkit_roundtrip], [deserializeWebkit_terminates].
      What they make of other values is in lemmas beside them ([dense_hole_misread], [negative_int32],
      [empty_string_rejected], [root_not_numbered] ...).
    - Parts compose: [query_finds_exactly] goes from a LevelDB database to the rows, [stored_objects_reported] from the
      buffers WebKit stored to the rows of a table; [generate_rows], [runSteps_rowwise], [accepted_paths_pass].
    - Failures end well, or it is shown how they do not: [config_survives_outage], [shipping_recovers],
      [remediation_wipes], [backup_recovers] on one side; [untar_escapes], [failed_backups_lose_all],
      [override_race_deadlocks], [AddToLibrary_stuck], [corrupt_value_loses_the_query],
      [shared_scanner_loses], [querySqliteDb_temps], [CamelToSnake_panics] on the other.

    ** Bounds and fuel

    The deserializers recurse on what they read.  Each nested call consumes at least one
    byte, so the number of unread bytes (with a constant factor) is enough fuel: the
    termination theorems of [IdbTotal], [KatcCodec] and [KatcWebkitCodec] show that the fuel the definitions
    supply is never exhausted.  [IdbQuery]'s scan and [Decoders]' protobuf loop are
    bounded by the entries and bytes left, likewise proved.  Loops that end on an event
    ([Drain], the ticks of [Execute], retries with a deadline) take the number of turns, and
    the theorems quantify over it.

    ** Not modelled

    - Processes, goroutines as such, sockets and user interface: the rest of pkg/osquery/runtime
      (osqueryinstance.go), ee/desktop, ee/watchdog, cmd/launcher.  Their logic is the handling of
      operating system interfaces that the repository does not contain.
    - The osquery tables that read one system interface (most of ee/tables and pkg/osquery/table), build
      tooling (pkg/packaging, pkg/make), transport middleware (pkg/service), metrics and
      traces (ee/observability).
    - In [KatcTable], reading files, SQL and LevelDB and the cancellation of queries: [Host] gives
      their outcomes; and only the temporary directories for SQLite are tracked.
    - Within the modelled parts: logging, spans and metrics, and file permissions. *)
From Corelib Require Export Init.Byte.
From Stdlib Require Export ZArith Lia Bool String.
From Stdlib Require Import Strings.Byte Decimal DecimalString DecimalZ.
From stdpp Require Export base list list_numbers numbers strings gmap fin_maps sorting.

#[global] Open Scope Z_scope.
Set Default Proof Using "Type".

(** ** Go values

    A Go [byte] is a [Byte.byte]; a Go [string] and a Go [[]byte] are both lists
    of bytes (Go strings are byte sequences, conversions between the two copy). *)
Abbreviation byte := Init.Byte.byte.
Abbreviation bytes := (list byte).

(** [uint64(b)], [int(b)] *)
Definition byte_Z (b : byte) : Z := Z.of_N (Byte.to_N b).

(** [byte(z)]: truncation to 8 bits *)
Definition Z_byte (z : Z) : byte :=
  match Byte.of_N (Z.to_N (z mod 256)) with Some b => b | None => x00 end.

#[export] Instance byte_eq_dec : EqDecision byte := Byte.byte_eq_dec.

(** String literals of the source *)
Definition bs (s : string) : bytes := list_byte_of_string s.
Arguments bs s%_string.

(** Machine widths *)
Definition two63 : Z := 2 ^ 63.
Definition two64 : Z := 2 ^ 64.

(** [uint64(z)] *)
Definition to_uint64 (z : Z) : Z := z mod two64.

(** [int64(z)], also [int(z)] on the 64-bit targets *)
Definition to_int64 (z : Z) : Z :=
  let u := z mod two64 in if u <? two63 then u else u - two64.

(** [cmp.Compare] on integers *)
Definition cmpZ (a b : Z) : Z :=
  match a ?= b with Lt => -1 | Eq => 0 | Gt => 1 end.

(** [len] *)
Definition len {A} (l : list A) : Z := Z.of_nat (length l).

(** [strconv.Itoa] *)
Definition itoa (z : Z) : bytes := bs (NilZero.string_of_int (Z.to_int z)).

(** ** Errors

    An error keeps the format string that builds it and the error it wraps; the
    arguments printed into the message are dropped.  [EOF] is the sentinel the
    source tests for. *)
Inductive err : Type :=
| EOF
| ErrUnexpectedEOF
| ErrOverflow
| Errorf (msg : string)
| Wrapf (msg : string) (cause : err).
Arguments Errorf msg%_string.
Arguments Wrapf msg%_string cause.

#[export] Instance err_eq_dec : EqDecision err.
Proof. solve_decision. Defined.

(** The outcome of a call: a value, a Go error, a run-time panic, or (only for the
    definitions that carry fuel) fuel exhausted. *)
Inductive res (A : Type) : Type :=
| Ok (a : A)
| Err (e : err)
| Panic
| NoFuel.
Arguments Ok {A} a.
Arguments Err {A} e.
Arguments Panic {A}.
Arguments NoFuel {A}.

#[export] Instance res_ret : MRet res := fun _ a => Ok a.
#[export] Instance res_bind : MBind res := fun _ _ f m =>
  match m with Ok a => f a | Err e => Err e | Panic => Panic | NoFuel => NoFuel end.

(** [fmt.Errorf("...: %w", err)] on the error path of a call *)
Definition wrap {A} (msg : string) (m : res A) : res A :=
  match m with Err e => Err (Wrapf msg e) | r => r end.
Arguments wrap {A} msg%_string m.

(** ** Bytewise order: [bytes.Compare] *)
Fixpoint bytes_compare (a b : bytes) : Z :=
  match a, b with
  | [], [] => 0
  | [], _ :: _ => -1
  | _ :: _, [] => 1
  | x :: a', y :: b' =>
      match byte_Z x ?= byte_Z y with
      | Lt => -1
      | Gt => 1
      | Eq => bytes_compare a' b'
      end
  end.

(** ** Slices

    [a[n:]] and [a[:n]], with the run-time bounds check (a slice of [bytes] has no
    spare capacity here, so the upper bound is its length). *)
Definition slice_from {A} (a : list A) (n : Z) : res (list A) :=
  if (0 <=? n) && (n <=? len a) then Ok (drop (Z.to_nat n) a) else Panic.

Definition slice_to {A} (a : list A) (n : Z) : res (list A) :=
  if (0 <=? n) && (n <=? len a) then Ok (take (Z.to_nat n) a) else Panic.

(** Equality of bytes, as a test *)
Notation "a =b b" := (Byte.eqb a b) (at level 70, no associativity).

(** [strings.HasPrefix], [strings.HasSuffix], [strings.Contains] *)
Fixpoint has_prefix (p s : bytes) : bool :=
  match p, s with
  | [], _ => true
  | _ :: _, [] => false
  | a :: p', b :: s' => (a =b b) && has_prefix p' s'
  end.

Definition has_suffix (p s : bytes) : bool := has_prefix (reverse p) (reverse s).

Fixpoint contains (p s : bytes) : bool :=
  has_prefix p s || match s with [] => false | _ :: s' => contains p s' end.

(** [strings.TrimPrefix], [strings.TrimSuffix] *)
Definition trim_prefix (p s : bytes) : bytes := if has_prefix p s then drop (length p) s else s.
Definition trim_suffix (p s : bytes) : bytes :=
  if has_suffix p s then take (length s - length p) s else s.

(** Little-endian value of a byte string: [binary.NativeEndian] on the amd64 and
    arm64 targets *)
Fixpoint le_value (l : bytes) : Z :=
  match l with [] => 0 | b :: l' => byte_Z b + 256 * le_value l' end.

Fixpoint le_bytes (n : nat) (z : Z) : bytes :=
  match n with O => [] | S n' => Z_byte z :: le_bytes n' (z / 256) end.

(** [len(a) == 0] *)
Definition is_empty {A} (l : list A) : bool := match l with [] => true | _ => false end.

(** A call that stopped normally: with a value or with a Go error, not by a panic
    and not by running out of fuel. *)
Definition returns {A} (m : res A) : Prop :=
  match m with Ok _ | Err _ => True | Panic | NoFuel => False end.

(** ** Tactics *)

(** Decide the boolean tests of the goal and the hypotheses into propositions. *)
Ltac zbool :=
  repeat match goal with
  | H : (_ && _)%bool = true |- _ => apply andb_true_iff in H as [? ?]
  | H : (_ || _)%bool = false |- _ => apply orb_false_iff in H as [? ?]
  | H : negb _ = true |- _ => apply negb_true_iff in H
  | H : negb _ = false |- _ => apply negb_false_iff in H
  | H : (_ =? _) = true |- _ => apply Z.eqb_eq in H
  | H : (_ =? _) = false |- _ => apply Z.eqb_neq in H
  | H : (_ <? _) = true |- _ => apply Z.ltb_lt in H
  | H : (_ <? _) = false |- _ => apply Z.ltb_ge in H
  | H : (_ <=? _) = true |- _ => apply Z.leb_le in H
  | H : (_ <=? _) = false |- _ => apply Z.leb_gt in H
  end.

(** Case analysis on the test of the first [if] of the goal. *)
Ltac case_if :=
  match goal with
  | |- context [if ?b then _ else _] => destruct b eqn:?; zbool
  end.

Ltac case_if_in H :=
  match type of H with
  | context [if ?b then _ else _] => destruct b eqn:?; zbool
  end.

(** Invert hypotheses [m ≫= f = Ok x]. *)
Ltac res_inv :=
  repeat match goal with
  | H : Ok _ = Ok _ |- _ => injection H as H; subst
  | H : Err _ = Ok _ |- _ => discriminate H
  | H : Panic = Ok _ |- _ => discriminate H
  | H : NoFuel = Ok _ |- _ => discriminate H
  | H : (?m ≫= _) = Ok _ |- _ =>
      let E := fresh "E" in destruct m eqn:E; unfold mbind, res_bind in H; try discriminate H
  | H : wrap _ ?m = Ok _ |- _ =>
      let E := fresh "E" in destruct m eqn:E; cbn [wrap] in H; try discriminate H
  end.

Create HintDb launcher.
Create Rewrite HintDb launcher.

(** ** Bytes *)
Lemma byte_Z_range b : 0 <= byte_Z b < 256.
Proof.
  unfold byte_Z. pose proof (Byte.to_N_bounded b). lia.
Qed.

Lemma byte_Z_inj a b : byte_Z a = byte_Z b → a = b.
Proof.
  unfold byte_Z. intros H%N2Z.inj.
  pose proof (Byte.of_to_N a). pose proof (Byte.of_to_N b). congruence.
Qed.

Lemma byte_Z_byte z : byte_Z (Z_byte z) = z mod 256.
Proof.
  unfold byte_Z, Z_byte.
  pose proof (Z.mod_pos_bound z 256 ltac:(lia)).
  destruct (Byte.of_N (Z.to_N (z mod 256))) as [b|] eqn:E.
  - apply Byte.to_of_N in E. rewrite E. lia.
  - apply Byte.of_N_None_iff in E. lia.
Qed.

Lemma Z_byte_Z b : Z_byte (byte_Z b) = b.
Proof.
  apply byte_Z_inj. rewrite byte_Z_byte. apply Z.mod_small, byte_Z_range.
Qed.

#[export] Instance byte_countable : Countable byte.
Proof.
  refine (inj_countable' byte_Z Z_byte Z_byte_Z).
Defined.

#[export] Hint Resolve byte_Z_range : launcher.
#[export] Hint Rewrite byte_Z_byte Z_byte_Z : launcher.

Lemma eqb_refl (b : byte) : (b =b b) = true.
Proof. by destruct b. Qed.

Lemma eqb_eq (a b : byte) : (a =b b) = true → a = b.
Proof. apply Byte.byte_dec_bl. Qed.

Lemma has_prefix_spec p s : has_prefix p s = true ↔ p `prefix_of` s.
Proof.
  revert s; induction p as [|a p IH]; intros s; cbn [has_prefix].
  { split; [|done]. intros _. apply prefix_nil. }
  destruct s as [|b s]; [split; [done|]; by intros ?%prefix_nil_inv|].
  rewrite andb_true_iff, IH. split.
  - intros [->%eqb_eq H]. by apply prefix_cons.
  - intros H. split; [rewrite (prefix_cons_inv_1 _ _ _ _ H); apply eqb_refl|].
    by eapply prefix_cons_inv_2.
Qed.

(** ** Lengths and slices *)
Lemma len_nonneg {A} (l : list A) : 0 <= len l.
Proof. unfold len. lia. Qed.

Lemma len_nil {A} : len (@nil A) = 0.
Proof. reflexivity. Qed.

Lemma len_cons {A} (x : A) l : len (x :: l) = 1 + len l.
Proof. unfold len. cbn [length]. lia. Qed.

Lemma len_app {A} (l k : list A) : len (l ++ k) = len l + len k.
Proof. unfold len. rewrite length_app. lia. Qed.

Lemma len_pos {A} (l : list A) : l ≠ [] → 0 < len l.
Proof. destruct l as [|x l]; [done|]. rewrite len_cons. pose proof (len_nonneg l). lia. Qed.

#[export] Hint Rewrite @len_nil @len_cons @len_app : launcher.
#[export] Hint Resolve len_nonneg : launcher.

Lemma slice_from_Ok {A} (a : list A) n :
  0 <= n <= len a → slice_from a n = Ok (drop (Z.to_nat n) a).
Proof. intros. unfold slice_from. case_if; [done|]. apply andb_false_iff in Heqb. lia. Qed.

Lemma slice_to_Ok {A} (a : list A) n :
  0 <= n <= len a → slice_to a n = Ok (take (Z.to_nat n) a).
Proof. intros. unfold slice_to. case_if; [done|]. apply andb_false_iff in Heqb. lia. Qed.

Lemma slice_from_app {A} (a r : list A) : slice_from (a ++ r) (len a) = Ok r.
Proof.
  rewrite slice_from_Ok.
  - unfold len. rewrite Nat2Z.id. by rewrite drop_app_length.
  - rewrite len_app. pose proof (len_nonneg a). pose proof (len_nonneg r). lia.
Qed.

Lemma slice_to_app {A} (a r : list A) : slice_to (a ++ r) (len a) = Ok a.
Proof.
  rewrite slice_to_Ok.
  - unfold len. rewrite Nat2Z.id. by rewrite take_app_length.
  - rewrite len_app. pose proof (len_nonneg a). pose proof (len_nonneg r). lia.
Qed.

Lemma filter_all {A} (P : A → Prop) `{!∀ x, Decision (P x)} (l : list A) : Forall P l → filter P l = l.
Proof. induction 1 as [|x l Hx _ IH]; [done|]. by rewrite filter_cons_True, IH. Qed.

Lemma flat_map_ext_in' {A B} (f g : A → list B) l :
  (∀ x, x ∈ l → f x = g x) → flat_map f l = flat_map g l.
Proof.
  induction l as [|x l IH]; intros H; [done|]. cbn [flat_map]. rewrite H by left.
  f_equal. apply IH. intros y Hy. apply H. by right.
Qed.

(** ** Comparisons *)
Lemma cmpZ_antisym a b : cmpZ b a = - cmpZ a b.
Proof. unfold cmpZ. rewrite (Z.compare_antisym a b). by destruct (a ?= b). Qed.

Lemma cmpZ_refl a : cmpZ a a = 0.
Proof. unfold cmpZ. by rewrite Z.compare_refl. Qed.

Lemma cmpZ_spec a b :
  (cmpZ a b = -1 ∧ a < b) ∨ (cmpZ a b = 0 ∧ a = b) ∨ (cmpZ a b = 1 ∧ b < a).
Proof. unfold cmpZ. destruct (Z.compare_spec a b); lia. Qed.

Lemma bytes_compare_antisym a b : bytes_compare b a = - bytes_compare a b.
Proof.
  revert b; induction a as [|x a IH]; intros [|y b]; cbn [bytes_compare]; try done.
  rewrite (Z.compare_antisym (byte_Z x) (byte_Z y)).
  destruct (byte_Z x ?= byte_Z y); cbn; auto.
Qed.

Lemma bytes_compare_refl a : bytes_compare a a = 0.
Proof. induction a; cbn [bytes_compare]; [done|]. by rewrite Z.compare_refl. Qed.

Lemma bytes_compare_eq a b : bytes_compare a b = 0 ↔ a = b.
Proof.
  split; [|intros ->; apply bytes_compare_refl].
  revert b; induction a as [|x a IH]; intros [|y b]; cbn [bytes_compare]; try done.
  destruct (Z.compare_spec (byte_Z x) (byte_Z y)) as [E|E|E]; try done.
  intros H%IH. apply byte_Z_inj in E. congruence.
Qed.

Lemma bytes_compare_range a b :
  bytes_compare a b = -1 ∨ bytes_compare a b = 0 ∨ bytes_compare a b = 1.
Proof.
  revert b; induction a as [|x a IH]; intros [|y b]; cbn [bytes_compare]; auto.
  destruct (byte_Z x ?= byte_Z y); auto.
Qed.

Lemma bytes_compare_trans a b c :
  bytes_compare a b <= 0 → bytes_compare b c <= 0 → bytes_compare a c <= 0.
Proof.
  revert b c; induction a as [|x a IH]; intros [|y b] [|z c]; cbn [bytes_compare]; try lia.
  destruct (Z.compare_spec (byte_Z x) (byte_Z y)), (Z.compare_spec (byte_Z y) (byte_Z z)),
    (Z.compare_spec (byte_Z x) (byte_Z z)); try lia. apply IH.
Qed.

(** ** Little-endian *)
Lemma le_value_range l : 0 <= le_value l < 256 ^ len l.
Proof.
  induction l as [|b l IH]; cbn [le_value]; [done|].
  rewrite len_cons, Z.pow_add_r by (pose proof (len_nonneg l); lia).
  pose proof (byte_Z_range b). lia.
Qed.

Lemma length_le_bytes n z : length (le_bytes n z) = n.
Proof. revert z; induction n; intros; cbn [le_bytes length]; auto. Qed.

Lemma le_value_bytes n z : 0 <= z < 256 ^ Z.of_nat n → le_value (le_bytes n z) = z.
Proof.
  revert z; induction n as [|n IH]; intros z Hz; cbn [le_bytes le_value].
  - change (256 ^ Z.of_nat 0) with 1 in Hz. lia.
  - rewrite byte_Z_byte, IH.
    + pose proof (Z.div_mod z 256). lia.
    + rewrite Nat2Z.inj_succ, Z.pow_succ_r in Hz by lia.
      split; [apply Z.div_pos; lia | apply Z.div_lt_upper_bound; lia].
Qed.

(** ** Bit operations as arithmetic *)
Lemma land_low_high v x n : 0 <= n → 0 <= v < 2 ^ n → Z.land v (x * 2 ^ n) = 0.
Proof.
  intros Hn Hv. apply Z.bits_inj'. intros i Hi. rewrite Z.land_spec, Z.bits_0.
  destruct (Z.lt_ge_cases i n).
  - rewrite Z.mul_pow2_bits_low by done. apply andb_false_r.
  - rewrite <- (Z.mod_small v (2 ^ n)) by done. by rewrite Z.mod_pow2_bits_high by lia.
Qed.

Lemma lor_shiftl_add v x n :
  0 <= n → 0 <= v < 2 ^ n → Z.lor v (Z.shiftl x n) = v + x * 2 ^ n.
Proof.
  intros Hn Hv. rewrite Z.shiftl_mul_pow2 by done.
  rewrite <- Z.lxor_lor by (by apply land_low_high).
  by rewrite <- Z.add_nocarry_lxor by (by apply land_low_high).
Qed.

Lemma land_ones_mod z n : 0 <= n → Z.land z (Z.ones n) = z mod 2 ^ n.
Proof. apply Z.land_ones. Qed.

(** [b & 0x7f] and the test [b & 0x80 == 0] of a varint digit *)
Lemma land_7f z : Z.land z 127 = z mod 128.
Proof. exact (land_ones_mod z 7 ltac:(lia)). Qed.

Lemma land_80_zero b : (Z.land (byte_Z b) 128 =? 0) = (byte_Z b <? 128).
Proof. by destruct b. Qed.

Lemma to_uint64_small z : 0 <= z < two64 → to_uint64 z = z.
Proof. apply Z.mod_small. Qed.

Lemma to_int64_small z : 0 <= z < two63 → to_int64 z = z.
Proof.
  intros H. unfold to_int64, two63, two64 in *.
  rewrite Z.mod_small by lia. case_if; [done|lia].
Qed.

Lemma to_int64_id z : - two63 <= z < two63 → to_int64 z = z.
Proof.
  intros H. unfold to_int64, two63, two64 in *.
  destruct (Z.lt_ge_cases z 0) as [Hn|Hn].
  - assert (z mod 2 ^ 64 = z + 2 ^ 64) as ->.
    { rewrite <- (Z.mod_small (z + 2 ^ 64) (2 ^ 64)) by lia.
      by rewrite <- (Z.mod_add z 1 (2 ^ 64)), Z.mul_1_l by lia. }
    case_if; lia.
  - rewrite Z.mod_small by lia. case_if; lia.
Qed.

Lemma to_int64_range z : - two63 <= to_int64 z < two63.
Proof.
  unfold to_int64. pose proof (Z.mod_pos_bound z two64 ltac:(done)).
  unfold two63, two64 in *. case_if; lia.
Qed.

(** ** The error monad *)
Lemma returns_bind {A B} (m : res A) (f : A → res B) :
  returns m → (∀ a, m = Ok a → returns (f a)) → returns (m ≫= f).
Proof. destruct m; unfold mbind, res_bind; cbn; auto. Qed.

Lemma returns_wrap {A} msg (m : res A) : returns m → returns (wrap msg m).
Proof. by destruct m. Qed.

Lemma wrap_Ok {A} msg (m : res A) a : wrap msg m = Ok a ↔ m = Ok a.
Proof. by destruct m. Qed.

Lemma is_empty_len {A} (l : list A) : is_empty l = (len l =? 0).
Proof. destruct l; [done|]. rewrite len_cons. pose proof (len_nonneg l). symmetry. apply Z.eqb_neq. lia. Qed.

Lemma length_slice_from {A} (a b : list A) n :
  slice_from a n = Ok b → (length b <= length a)%nat.
Proof. unfold slice_from. case_if; intros; simplify_eq. rewrite length_drop. lia. Qed.

#[export] Hint Resolve returns_bind returns_wrap : launcher.

Lemma le_value_app (l k : bytes) : le_value (l ++ k) = le_value l + 256 ^ len l * le_value k.
Proof.
  induction l as [|b l IH]; [cbn; by destruct (le_value k)|]. cbn [app le_value]. rewrite IH, len_cons.
  pose proof (len_nonneg l). rewrite Z.pow_add_r by lia. ring_simplify. lia.
Qed.

(** Byte strings of the same length compare as the big-endian numbers they stand for. *)
Lemma bytes_compare_be a b :
  length a = length b → bytes_compare a b = cmpZ (le_value (reverse a)) (le_value (reverse b)).
Proof.
  revert b; induction a as [|x a IH]; intros [|y b] E; try done. cbn [length bytes_compare] in *. injection E as E.
  rewrite !reverse_cons, !le_value_app. cbn [le_value].
  assert (El : len (reverse b) = len (reverse a)) by (unfold len; rewrite !length_reverse; lia).
  pose proof (le_value_range (reverse a)) as Ha. pose proof (le_value_range (reverse b)) as Hb.
  rewrite El in *. rewrite (IH b E).
  set (u := le_value (reverse a)) in *. set (w := le_value (reverse b)) in *. set (p := 256 ^ len (reverse a)) in *.
  set (x' := byte_Z x) in *. set (y' := byte_Z y) in *. rewrite !Z.mul_0_r, !Z.add_0_r.
  pose proof (cmpZ_spec u w). pose proof (cmpZ_spec (u + p * x') (w + p * y')) as Hc.
  destruct (Z.compare_spec x' y') as [Exy|Exy|Exy].
  - rewrite Exy in *. lia.
  - assert (p * x' + p <= p * y') by nia. lia.
  - assert (p * y' + p <= p * x') by nia. lia.
Qed.
