(* ===== verification/Reader.v ===== *)
(** * Byte readers and variable-length integers

    The parts of Go's [bytes.Reader] and [encoding/binary] the decoders are written
    with: a reader is the list of unread bytes, and an operation returns its outcome
    together with the unread bytes, also when it fails (callers may go on reading
    after an error). *)
From S2P Require Import Prelude.

(** ** The reader monad *)
Definition Reader (A : Type) : Type := bytes → res A * bytes.

#[export] Instance reader_ret : MRet Reader := fun _ a r => (Ok a, r).
#[export] Instance reader_bind : MBind Reader := fun _ _ f m r =>
  match m r with
  | (Ok a, r') => f a r'
  | (Err e, r') => (Err e, r')
  | (Panic, r') => (Panic, r')
  | (NoFuel, r') => (NoFuel, r')
  end.

Definition fail {A} (e : err) : Reader A := fun r => (Err e, r).
Definition panic {A} : Reader A := fun r => (Panic, r).
Definition no_fuel {A} : Reader A := fun r => (NoFuel, r).

(** [fmt.Errorf(msg + "%w", err)] on the error path *)
Definition ctx {A} (msg : string) (m : Reader A) : Reader A := fun r =>
  let '(o, r') := m r in (wrap msg o, r').
Arguments ctx {A} msg%_string m.

(** [v, err := m()] where the caller inspects [err] itself; panics are not caught *)
Definition attempt {A} (m : Reader A) : Reader (A + err) := fun r =>
  match m r with
  | (Ok a, r') => (Ok (inl a), r')
  | (Err e, r') => (Ok (inr e), r')
  | (Panic, r') => (Panic, r')
  | (NoFuel, r') => (NoFuel, r')
  end.

(** [_, _ = m()] *)
Definition ignore {A} (m : Reader A) : Reader unit := _ ← attempt m; mret tt.

(** ** bytes.Reader *)
Definition ReadByte : Reader byte := fun r =>
  match r with [] => (Err EOF, []) | b :: r' => (Ok b, r') end.

(** [r.Len()]: the number of unread bytes *)
Definition Len : Reader Z := fun r => (Ok (len r), r).

(** ** encoding/binary *)

(** [binary.ReadUvarint]: at most ten digits, the tenth at most 1 *)
Fixpoint readUvarint_loop (k : nat) (i s x : Z) : Reader Z := fun r =>
  match k with
  | O => (Err ErrOverflow, r)
  | S k' =>
      match r with
      | [] => (Err (if 0 <? i then ErrUnexpectedEOF else EOF), [])
      | b :: r' =>
          if byte_Z b <? 128 then
            if (i =? 9) && (1 <? byte_Z b) then (Err ErrOverflow, r')
            else (Ok (Z.lor x (to_uint64 (Z.shiftl (byte_Z b) s))), r')
          else
            readUvarint_loop k' (i + 1) (s + 7)
              (Z.lor x (to_uint64 (Z.shiftl (Z.land (byte_Z b) 127) s))) r'
      end
  end.

Definition ReadUvarint : Reader Z := readUvarint_loop 10 0 0 0.

(** [binary.ReadVarint]: zig-zag on top of [ReadUvarint] *)
Definition zigzag (ux : Z) : Z :=
  let x := to_int64 (Z.shiftr ux 1) in
  if Z.land ux 1 =? 0 then x else Z.lnot x.

#[global] Arguments ReadUvarint : simpl never.

Definition ReadVarint : Reader Z := ux ← ReadUvarint; mret (zigzag ux).

(** [binary.PutUvarint] into a buffer of [binary.MaxVarintLen64] bytes *)
Fixpoint putUvarint_loop (k : nat) (x : Z) : bytes :=
  match k with
  | O => []
  | S k' =>
      if x <? 128 then [Z_byte x]
      else Z_byte (Z.lor (x mod 256) 128) :: putUvarint_loop k' (Z.shiftr x 7)
  end.

Definition PutUvarint (x : Z) : bytes := putUvarint_loop 10 x.

(** [binary.Uvarint]: the value and the number of bytes read, [n <= 0] on failure *)
Fixpoint uvarint_loop (i s x : Z) (buf : bytes) : Z * Z :=
  match buf with
  | [] => (0, 0)
  | b :: buf' =>
      if i =? 10 then (0, - (i + 1))
      else if byte_Z b <? 128 then
        if (i =? 9) && (1 <? byte_Z b) then (0, - (i + 1))
        else (Z.lor x (to_uint64 (Z.shiftl (byte_Z b) s)), i + 1)
      else uvarint_loop (i + 1) (s + 7)
             (Z.lor x (to_uint64 (Z.shiftl (Z.land (byte_Z b) 127) s))) buf'
  end.

Definition Uvarint (buf : bytes) : Z * Z := uvarint_loop 0 0 0 buf.

(** [binary.Read(r, binary.NativeEndian, &v)] for an [n]-byte value: [io.ReadFull]
    consumes what there is, and reports [EOF] only when nothing was left. *)
Definition ReadFixed (n : nat) : Reader Z := fun r =>
  match r with
  | [] => (Err EOF, [])
  | _ => if Z.of_nat n <=? len r then (Ok (le_value (take n r)), drop n r)
         else (Err ErrUnexpectedEOF, [])
  end.

(** [for i := 0; i < n; i++ { b, err := r.ReadByte(); ...; buf[i] = b }] *)
Fixpoint ReadBytes (n : Z) (r : bytes) : res bytes * bytes :=
  if n <=? 0 then (Ok [], r)
  else match r with
       | [] => (Err EOF, [])
       | b :: r' =>
           let '(o, r'') := ReadBytes (n - 1) r' in
           (match o with Ok l => Ok (b :: l) | e => e end, r'')
       end.

(** ** Behaviour of reader operations

    [steady m r]: from [r], [m] does not run out of fuel and leaves a suffix of [r]
    unread. *)
Definition steady {A} (m : Reader A) (r : bytes) : Prop :=
  (m r).1 ≠ NoFuel ∧ (m r).2 `suffix_of` r.

(** [sure m r]: in addition, [m] does not panic. *)
Definition sure {A} (m : Reader A) (r : bytes) : Prop :=
  returns (m r).1 ∧ (m r).2 `suffix_of` r.

Lemma sure_steady {A} (m : Reader A) r : sure m r → steady m r.
Proof. intros [H ?]; split; [|done]. intros E. by rewrite E in H. Qed.

Lemma suffix_len (l k : bytes) : l `suffix_of` k → (length l <= length k)%nat.
Proof. intros [x ->]. rewrite length_app. lia. Qed.

Section Steady.
  Context {A B : Type}.
  Implicit Types (r : bytes).

Lemma steady_ret (a : A) r : steady (mret a) r.
  Proof. split; cbn; [done|reflexivity]. Qed.

Lemma steady_fail e r : steady (@fail A e) r.
  Proof. split; cbn; [done|reflexivity]. Qed.

Lemma steady_panic r : steady (@panic A) r.
  Proof. split; cbn; [done|reflexivity]. Qed.

Lemma steady_bind (m : Reader A) (f : A → Reader B) r :
    steady m r →
    (∀ a r', m r = (Ok a, r') → r' `suffix_of` r → steady (f a) r') →
    steady (m ≫= f) r.
  Proof.
    unfold steady, mbind, reader_bind. intros [Hm Hs] Hf.
    destruct (m r) as [o r'] eqn:E; cbn [fst snd] in *.
    destruct o as [a|e| |]; cbn [fst snd]; try (split; [done|done]).
    destruct (Hf a r' eq_refl Hs). split; [done|]. by trans r'.
  Qed.

Lemma steady_ctx msg (m : Reader A) r : steady m r → steady (ctx msg m) r.
  Proof.
    unfold steady, ctx. destruct (m r) as [o r']; cbn [fst snd]. intros [? ?].
    by destruct o.
  Qed.

Lemma steady_attempt (m : Reader A) r : steady m r → steady (attempt m) r.
  Proof.
    unfold steady, attempt. destruct (m r) as [o r']; cbn [fst snd]. intros [? ?].
    by destruct o.
  Qed.
End Steady.

Lemma steady_ignore {A} (m : Reader A) r : steady m r → steady (ignore m) r.
Proof.
  intros H. apply steady_bind; [by apply steady_attempt|]. intros. apply steady_ret.
Qed.

Lemma steady_ReadByte r : steady ReadByte r.
Proof. destruct r as [|b r]; split; cbn; try done. by apply suffix_cons_r. Qed.

Lemma steady_Len r : steady Len r.
Proof. split; cbn; [done|reflexivity]. Qed.

Lemma ReadByte_Ok r b r' : ReadByte r = (Ok b, r') → r = b :: r'.
Proof. destruct r; cbn; intros; by simplify_eq. Qed.

Lemma steady_uvarint_loop k i s x r : steady (readUvarint_loop k i s x) r.
Proof.
  revert i s x r; induction k as [|k IH]; intros i s x r; [split; cbn; [done|reflexivity]|].
  destruct r as [|b r]; [split; cbn; done|].
  unfold steady; cbn [readUvarint_loop].
  destruct (byte_Z b <? 128); [destruct ((i =? 9) && (1 <? byte_Z b))%bool|].
  1,2: split; cbn; [done|by apply suffix_cons_r].
  destruct (IH (i + 1) (s + 7) (Z.lor x (to_uint64 (Z.shiftl (Z.land (byte_Z b) 127) s))) r).
  split; [done|]. by apply suffix_cons_r.
Qed.

Lemma steady_ReadUvarint r : steady ReadUvarint r.
Proof. apply steady_uvarint_loop. Qed.

Lemma steady_ReadVarint r : steady ReadVarint r.
Proof. apply steady_bind; [apply steady_ReadUvarint|]. intros; apply steady_ret. Qed.

Lemma steady_ReadFixed n r : steady (ReadFixed n) r.
Proof.
  unfold steady, ReadFixed. destruct r as [|b r]; [split; cbn; done|].
  destruct (Z.of_nat n <=? len (b :: r)); cbn [fst snd].
  - split; [done|]. exists (take n (b :: r)). by rewrite take_drop.
  - split; [done|]. apply suffix_nil.
Qed.

Lemma steady_ReadBytes n r : steady (ReadBytes n) r.
Proof.
  revert n; induction r as [|b r IH]; intros n; unfold steady; cbn [ReadBytes];
    destruct (n <=? 0); try (split; cbn; [done|reflexivity]).
  destruct (IH (n - 1)) as [H1 H2]. destruct (ReadBytes (n - 1) r) as [o r'].
  cbn [fst snd] in *. split; [by destruct o|]. by apply suffix_cons_r.
Qed.

#[export] Hint Resolve steady_ret steady_fail steady_panic steady_ctx steady_attempt
  steady_ignore steady_ReadByte steady_Len steady_ReadUvarint steady_ReadVarint
  steady_ReadFixed steady_ReadBytes : launcher.

(** ** Readers that never panic *)
Lemma sure_ret {A} (a : A) r : sure (mret a) r.
Proof. split; cbn; [done|reflexivity]. Qed.

Lemma sure_fail {A} e r : sure (@fail A e) r.
Proof. split; cbn; [done|reflexivity]. Qed.

Lemma sure_bind {A B} (m : Reader A) (f : A → Reader B) r :
  sure m r → (∀ a r', m r = (Ok a, r') → r' `suffix_of` r → sure (f a) r') → sure (m ≫= f) r.
Proof.
  unfold sure, mbind, reader_bind. intros [Hm Hs] Hf.
  destruct (m r) as [o r'] eqn:E; cbn [fst snd] in *.
  destruct o as [a|e| |]; cbn [fst snd]; try (split; [done|done]).
  destruct (Hf a r' eq_refl Hs). split; [done|]. by trans r'.
Qed.

Lemma sure_ctx {A} msg (m : Reader A) r : sure m r → sure (ctx msg m) r.
Proof. unfold sure, ctx. destruct (m r) as [o r']; cbn [fst snd]. intros [? ?]. by destruct o. Qed.

Lemma sure_attempt {A} (m : Reader A) r : sure m r → sure (attempt m) r.
Proof. unfold sure, attempt. destruct (m r) as [o r']; cbn [fst snd]. intros [? ?]. by destruct o. Qed.

Lemma sure_ReadByte r : sure ReadByte r.
Proof. split; [by destruct r|apply steady_ReadByte]. Qed.

Lemma sure_Len r : sure Len r.
Proof. split; cbn; [done|reflexivity]. Qed.

Lemma sure_uvarint_loop k i s x r : returns (readUvarint_loop k i s x r).1.
Proof.
  revert i s x r; induction k as [|k IH]; intros i s x r; [done|].
  destruct r as [|b r]; [done|]. cbn [readUvarint_loop]. repeat case_if; first [done|apply IH].
Qed.

Lemma sure_ReadUvarint r : sure ReadUvarint r.
Proof. split; [apply sure_uvarint_loop|apply steady_ReadUvarint]. Qed.

Lemma sure_ReadBytes n r : sure (ReadBytes n) r.
Proof.
  split; [|apply steady_ReadBytes]. revert n; induction r as [|b r IH]; intros n; cbn [ReadBytes];
    destruct (n <=? 0); try done.
  specialize (IH (n - 1)). destruct (ReadBytes (n - 1) r) as [o r']. by destruct o.
Qed.

#[export] Hint Resolve sure_ret sure_fail sure_ctx sure_attempt sure_ReadByte sure_Len
  sure_ReadUvarint sure_ReadBytes : launcher.

(** ** Running readers *)
Lemma bind_Ok {A B} (m : Reader A) (f : A → Reader B) r a r' :
  m r = (Ok a, r') → (m ≫= f) r = f a r'.
Proof. intros E. unfold mbind, reader_bind. by rewrite E. Qed.

Lemma ctx_Ok {A} msg (m : Reader A) r a r' : m r = (Ok a, r') → ctx msg m r = (Ok a, r').
Proof. intros E. unfold ctx. by rewrite E. Qed.

Lemma bind_ctx_Ok {A B} msg (m : Reader A) (f : A → Reader B) r a r' :
  m r = (Ok a, r') → (ctx msg m ≫= f) r = f a r'.
Proof. intros E. by apply bind_Ok, ctx_Ok. Qed.

Lemma bind_ignore_Ok {A B} (m : Reader A) (f : unit → Reader B) r a r' :
  m r = (Ok a, r') → (ignore m ≫= f) r = f tt r'.
Proof.
  intros E. apply bind_Ok. unfold ignore, mbind, reader_bind, attempt. by rewrite E.
Qed.

(** Perform the first read of the goal with the equation [L]. *)
Ltac run L := first [erewrite bind_ctx_Ok by (apply L) | erewrite bind_ignore_Ok by (apply L)
  | erewrite bind_Ok by (apply L)]; cbv beta iota.

(** Decide the test of a concrete token. *)
Ltac tok b v := change b with v; cbv iota.
Ltac toks := cbv beta zeta iota; repeat match goal with
  | |- context [if ?b then _ else _] =>
      let v := eval vm_compute in b in
      lazymatch v with true => idtac | false => idtac end; change b with v; cbv iota
  end.

(** ** Round trips *)
Lemma lor_80 b : Z.lor (byte_Z b) 128 = byte_Z b mod 128 + 128.
Proof. by destruct b. Qed.

Lemma digit_cont x : byte_Z (Z_byte (Z.lor (x mod 256) 128)) = x mod 128 + 128.
Proof.
  pose proof (lor_80 (Z_byte x)) as E. rewrite byte_Z_byte in E.
  rewrite Z.mod_mod_divide in E by (by exists 2).
  rewrite byte_Z_byte, E. pose proof (Z.mod_pos_bound x 128 ltac:(lia)).
  apply Z.mod_small; lia.
Qed.

(** One varint digit [d < 2^7] shifted by [s] and or-ed into [x < 2^s] *)
Lemma digit_step x d s :
  0 <= s → 0 <= x < 2 ^ s → 0 <= d → d * 2 ^ s < two64 →
  Z.lor x (to_uint64 (Z.shiftl d s)) = x + d * 2 ^ s.
Proof.
  intros Hs Hx Hd Hb. rewrite to_uint64_small.
  - by apply lor_shiftl_add.
  - rewrite Z.shiftl_mul_pow2 by done. split; [|done]. pose proof (Z.pow_nonneg 2 s). nia.
Qed.

Lemma shiftr_7 z : Z.shiftr z 7 = z / 128.
Proof. by rewrite Z.shiftr_div_pow2 by lia. Qed.

Lemma pow7_succ i : 0 <= i → 2 ^ (7 * (i + 1)) = 128 * 2 ^ (7 * i).
Proof.
  intros. replace (7 * (i + 1)) with (7 + 7 * i) by lia. by rewrite Z.pow_add_r by lia.
Qed.

(** The arithmetic of one continuation digit, shared by the three decoders below *)
Lemma cont_digit i x z :
  0 <= i → 0 <= x < 2 ^ (7 * i) → 128 <= z → z * 2 ^ (7 * i) < two64 →
  let x' := x + z mod 128 * 2 ^ (7 * i) in
  Z.lor x (to_uint64 (Z.shiftl (Z.land (z mod 128 + 128) 127) (7 * i))) = x' ∧
  0 <= x' < 2 ^ (7 * (i + 1)) ∧ 0 <= z / 128 ∧ z / 128 * 2 ^ (7 * (i + 1)) < two64 ∧
  x' + z / 128 * 2 ^ (7 * (i + 1)) = x + z * 2 ^ (7 * i).
Proof.
  intros Hi Hx Hz Hb x'. pose proof (Z.mod_pos_bound z 128 ltac:(lia)).
  pose proof (Z.div_mod z 128 ltac:(lia)) as E.
  pose proof (Z.pow_pos_nonneg 2 (7 * i) ltac:(lia) ltac:(lia)).
  rewrite pow7_succ by done. subst x'. split_and!; try (apply Z.div_pos; lia); try nia.
  { rewrite land_7f. replace (z mod 128 + 128) with (z mod 128 + 1 * 128) by lia.
    rewrite Z.mod_add, Z.mod_mod by lia. apply digit_step; nia. }
Qed.

Lemma readUvarint_loop_put k i x z r :
  0 <= i → Z.of_nat k = 9 - i → 0 <= x < 2 ^ (7 * i) → 0 <= z → z * 2 ^ (7 * i) < two64 →
  readUvarint_loop (S k) i (7 * i) x (putUvarint_loop (S k) z ++ r) =
    (Ok (x + z * 2 ^ (7 * i)), r).
Proof.
  revert i x z; induction k as [|k IH]; intros i x z Hi Hk Hx Hz Hb;
    cbn [putUvarint_loop]; destruct (z <? 128) eqn:Hlt; zbool;
    try match goal with
    | H : 128 <= z, _ : Z.of_nat 0 = _ |- _ =>
        exfalso; assert (i = 9) as -> by lia; unfold two64 in Hb; lia
    end; cbn [app readUvarint_loop].
  1,2: rewrite byte_Z_byte, Z.mod_small by lia;
    assert ((z <? 128) = true) as -> by (apply Z.ltb_lt; lia);
    assert (((i =? 9) && (1 <? z))%bool = false) as ->
      by (destruct (i =? 9) eqn:?, (1 <? z) eqn:?; zbool; try done; subst; unfold two64 in Hb; lia);
    by rewrite digit_step by (done || lia).
  rewrite digit_cont. assert ((z mod 128 + 128 <? 128) = false) as ->
    by (apply Z.ltb_ge; pose proof (Z.mod_pos_bound z 128); lia).
  destruct (cont_digit i x z) as (E & Hx' & Hz' & Hb' & Ev); try lia.
  rewrite E, <- Ev, shiftr_7. replace (7 * i + 7) with (7 * (i + 1)) by lia.
  apply IH; lia.
Qed.

(** [binary.ReadUvarint] inverts [binary.PutUvarint] on every [uint64]. *)
Lemma ReadUvarint_Put z r : 0 <= z < two64 → ReadUvarint (PutUvarint z ++ r) = (Ok z, r).
Proof.
  intros Hz. unfold ReadUvarint, PutUvarint.
  pose proof (readUvarint_loop_put 9 0 0 z r) as H. change (7 * 0) with 0 in H.
  rewrite Z.mul_1_r in H. apply H; lia.
Qed.

Lemma length_putUvarint_loop k z :
  (0 < k)%nat → (1 <= length (putUvarint_loop k z) <= k)%nat.
Proof.
  revert z; induction k as [|k IH]; intros z Hk; [lia|]. cbn [putUvarint_loop].
  case_if; cbn [length]; [lia|]. destruct k as [|k]; [cbn; lia|]. specialize (IH (Z.shiftr z 7)). lia.
Qed.

Lemma ReadBytes_app l r : ReadBytes (len l) (l ++ r) = (Ok l, r).
Proof.
  induction l as [|b l IH].
  - change (len (@nil byte)) with 0. by destruct r.
  - rewrite len_cons. cbn [app ReadBytes].
    pose proof (len_nonneg l). case_if; [lia|].
    replace (1 + len l - 1) with (len l) by lia. by rewrite IH.
Qed.

Lemma ReadFixed_bytes n z r :
  (0 < n)%nat → 0 <= z < 256 ^ Z.of_nat n → ReadFixed n (le_bytes n z ++ r) = (Ok z, r).
Proof.
  intros Hn Hz. pose proof (length_le_bytes n z) as L.
  unfold ReadFixed. destruct (le_bytes n z ++ r) as [|b l] eqn:E.
  - apply app_eq_nil in E as [E _]. rewrite E in L. cbn in L. lia.
  - rewrite <- E, take_app_length', drop_app_length' by done.
    rewrite len_app. unfold len at 1. rewrite L. pose proof (len_nonneg r).
    case_if; [by rewrite le_value_bytes|lia].
Qed.
