(* ===== verification/IdbComparer.v ===== *)
(** * pkg/indexeddbcomparator: the [idb_cmp1] key comparator

    [comparer.go] orders the keys of Chrome's IndexedDB LevelDB databases.  The
    functions return an [error]; here they live in the error monad [res], slices
    are bounds-checked, and [Compare] turns a logged error into 0 as the code does. *)
From S2P Require Import Prelude Reader.

Module IdbComparer.

(** ** Constants (comparer.go 40-93) *)
Definition globalMetadata := 0.
Definition databaseMetadata := 1.
Definition objectStoreData := 2.
Definition existsEntry := 3.
Definition indexData := 4.
Definition invalidType := 5.
Definition blobEntry := 6.

Definition objectStoreDataIndexId := 1.
Definition existsEntryIndexId := 2.
Definition blobEntryIndexId := 3.
Definition minimumIndexId := 30.

Definition maxSimpleGlobalMetaDataTypeByte := 7.
Definition scopesPrefixByte := 50.
Definition databaseFreeListTypeByte := 100.
Definition databaseNameTypeByte := 201.

Definition maxSimpleDatabaseMetaDataTypeByte := 6.
Definition objectStoreMetaDataTypeByte := 50.
Definition indexMetaDataTypeByte := 100.
Definition objectStoreFreeListTypeByte := 150.
Definition indexFreeListTypeByte := 151.
Definition objectStoreNamesTypeByte := 200.
Definition indexNamesKeyTypeByte := 201.

Definition indexedDBKeyNullTypeByte := 0.
Definition indexedDBKeyStringTypeByte := 1.
Definition indexedDBKeyDateTypeByte := 2.
Definition indexedDBKeyNumberTypeByte := 3.
Definition indexedDBKeyArrayTypeByte := 4.
Definition indexedDBKeyMinKeyTypeByte := 5.
Definition indexedDBKeyBinaryTypeByte := 6.

Definition indexedDBInvalidKeyType := 0.
Definition indexedDBArrayKeyType := 1.
Definition indexedDBBinaryKeyType := 2.
Definition indexedDBStringKeyType := 3.
Definition indexedDBDateKeyType := 4.
Definition indexedDBNumberKeyType := 5.
Definition indexedDBNoneKeyType := 6.
Definition indexedDBMinKeyType := 7.

Record keyPrefix := KeyPrefix { DatabaseId : Z; ObjectStoreId : Z; IndexId : Z }.

#[export] Instance keyPrefix_eq_dec : EqDecision keyPrefix.
Proof. solve_decision. Defined.

Definition Type_ (prefix : keyPrefix) : Z :=
  if DatabaseId prefix =? 0 then globalMetadata
  else if ObjectStoreId prefix =? 0 then databaseMetadata
  else if IndexId prefix =? objectStoreDataIndexId then objectStoreData
  else if IndexId prefix =? existsEntryIndexId then existsEntry
  else if IndexId prefix =? blobEntryIndexId then blobEntry
  else if minimumIndexId <=? IndexId prefix then indexData
  else invalidType.

(** ** Decoding *)

(** The loop of [decodeVarInt]; [k] counts the digits still allowed (nine in all). *)
Fixpoint decodeVarInt_loop (k : nat) (i v : Z) (a : bytes) : res (bytes * Z) :=
  match k, a with
  | S k', b :: a' =>
      let v := Z.lor v (to_uint64 (Z.shiftl (Z.land (byte_Z b) 127) (7 * i))) in
      if Z.land (byte_Z b) 128 =? 0 then Ok (a', to_int64 v)
      else decodeVarInt_loop k' (i + 1) v a'
  | _, _ => Err (Errorf "invalid key provided for decodeVarInt: %x")
  end.

Definition decodeVarInt (a : bytes) : res (bytes * Z) := decodeVarInt_loop 9 0 0 a.

(** The loop of [decodeInt], from shift [8*i] *)
Fixpoint decodeInt_loop (i v : Z) (a : bytes) : Z :=
  match a with
  | [] => v
  | b :: a' => decodeInt_loop (i + 1) (Z.lor v (to_uint64 (Z.shiftl (byte_Z b) (8 * i)))) a'
  end.

Definition decodeInt (a : bytes) : res Z :=
  if is_empty a || (8 <? len a) then Err (Errorf "invalid byte length for decodeInt: len=%d")
  else Ok (to_int64 (decodeInt_loop 0 0 a)).

Definition decodeKeyPrefix (a : bytes) : res (bytes * keyPrefix) :=
  match a with
  | [] => Err (Errorf "invalid empty key provided to decodeKeyPrefix")
  | firstByte :: a =>
      let databaseIdBytes := Z.land (Z.shiftr (byte_Z firstByte) 5) 7 + 1 in
      let objectStoreIdBytes := Z.land (Z.shiftr (byte_Z firstByte) 2) 7 + 1 in
      let indexIdBytes := Z.land (byte_Z firstByte) 3 + 1 in
      if len a <? databaseIdBytes + objectStoreIdBytes + indexIdBytes then
        Err (Errorf "invalid key provided to decodeKeyPrefix (insufficient length for prefix bytes)")
      else
        s ← slice_to a databaseIdBytes;
        databaseId ← wrap "decoding database ID as int: %w" (decodeInt s);
        a ← slice_from a databaseIdBytes;
        s ← slice_to a objectStoreIdBytes;
        objectStoreId ← wrap "decoding object store ID as int: %w" (decodeInt s);
        a ← slice_from a objectStoreIdBytes;
        s ← slice_to a indexIdBytes;
        indexId ← wrap "decoding index ID as int: %w" (decodeInt s);
        a ← slice_from a indexIdBytes;
        Ok (a, KeyPrefix databaseId objectStoreId indexId)
  end.

Definition keyTypeByteToKeyType (b : Z) : Z :=
  if b =? indexedDBKeyNullTypeByte then indexedDBInvalidKeyType
  else if b =? indexedDBKeyArrayTypeByte then indexedDBArrayKeyType
  else if b =? indexedDBKeyBinaryTypeByte then indexedDBBinaryKeyType
  else if b =? indexedDBKeyStringTypeByte then indexedDBStringKeyType
  else if b =? indexedDBKeyDateTypeByte then indexedDBDateKeyType
  else if b =? indexedDBKeyNumberTypeByte then indexedDBNumberKeyType
  else if b =? indexedDBKeyMinKeyTypeByte then indexedDBMinKeyType
  else indexedDBInvalidKeyType.

(** ** Comparing *)

Definition compareKeyPrefix (a b : keyPrefix) : Z :=
  let ret := cmpZ (DatabaseId a) (DatabaseId b) in
  if negb (ret =? 0) then ret else
  let ret := cmpZ (ObjectStoreId a) (ObjectStoreId b) in
  if negb (ret =? 0) then ret else
  let ret := cmpZ (IndexId a) (IndexId b) in
  if negb (ret =? 0) then ret else 0.

(** A comparison of encoded values: what is left of both sides, and the sign. *)
Abbreviation cmp3 := (res (bytes * bytes * Z)).

Definition min4 (a b c d : Z) : Z := Z.min (Z.min a b) (Z.min c d).

Definition compareBinary (a b : bytes) : cmp3 :=
  '(a, lenA) ← decodeVarInt a;
  '(b, lenB) ← decodeVarInt b;
  if (len a <? to_uint64 lenA) || (len b <? to_uint64 lenB) then
    let minlen := min4 (to_uint64 lenA) (to_uint64 lenB) (len a) (len b) in
    a' ← slice_to a minlen;
    b' ← slice_to b minlen;
    let ret := bytes_compare a' b' in
    if negb (ret =? 0) then Ok ([], [], ret) else Ok ([], [], cmpZ lenA lenB)
  else
    ra ← slice_from a lenA;
    rb ← slice_from b lenB;
    a' ← slice_to a lenA;
    b' ← slice_to b lenB;
    Ok (ra, rb, bytes_compare a' b').

Definition compareStringWithLength (a b : bytes) : cmp3 :=
  '(a, v1) ← wrap "decoding key a (%x) as varInt: %w" (decodeVarInt a);
  let lenA := to_uint64 (2 * to_uint64 v1) in
  '(b, v2) ← wrap "decoding key b (%x) as varInt: %w" (decodeVarInt b);
  let lenB := to_uint64 (2 * to_uint64 v2) in
  if (len a <? lenA) || (len b <? lenB) then
    let minlen := min4 lenA lenB (len a) (len b) in
    a' ← slice_to a minlen;
    b' ← slice_to b minlen;
    let ret := bytes_compare a' b' in
    if negb (ret =? 0) then Ok ([], [], ret) else Ok ([], [], cmpZ v1 v2)
  else
    ra ← slice_from a lenA;
    rb ← slice_from b lenB;
    a' ← slice_to a lenA;
    b' ← slice_to b lenB;
    Ok (ra, rb, bytes_compare a' b').

(** [cmp.Compare] on two [float64]s given by their bits: NaN equals NaN and is below
    every other value; otherwise the IEEE order, where the two zeros are equal. *)
Definition float_nan (bits : Z) : bool := 0x7ff0000000000000 <? bits mod two63.
Definition float_mag (bits : Z) : Z :=
  if bits <? two63 then bits else - (bits mod two63).

Definition cmpFloat (x y : Z) : Z :=
  if float_nan x then (if float_nan y then 0 else -1)
  else if float_nan y then 1
  else cmpZ (float_mag x) (float_mag y).

Definition compareDouble (a b : bytes) : cmp3 :=
  if (len a <? 8) || (len b <? 8) then
    Err (Errorf "invalid keys provided for compareDouble (must be at least 8 bytes)")
  else
    ra ← slice_from a 8;
    rb ← slice_from b 8;
    Ok (ra, rb, cmpFloat (le_value (take 8 a)) (le_value (take 8 b))).

(** The loop [for range min(lenA, lenB)] over the elements of two arrays, followed by
    the comparison of the lengths; [rec] is the recursive call. *)
Fixpoint compareArrayLoop (rec : bytes → bytes → cmp3) (fuel : nat) (n lenA lenB : Z)
    (a b : bytes) : cmp3 :=
  if n <=? 0 then Ok (a, b, cmpZ lenA lenB)
  else if is_empty a || is_empty b then Ok (a, b, cmpZ lenA lenB)
  else
    match fuel with
    | O => NoFuel
    | S fuel' =>
        '(a, b, ret) ← wrap "recursively comparing encodedIdbKeys: %w" (rec a b);
        if negb (ret =? 0) then Ok (a, b, ret)
        else compareArrayLoop rec fuel' (n - 1) lenA lenB a b
    end.

(** [fuel] bounds the nesting of arrays; one more than the length of [a] is enough
    ([compareEncodedIDBKeys_returns]). *)
Fixpoint compareEncodedIDBKeys (fuel : nat) (a b : bytes) : cmp3 :=
  match fuel with
  | O => NoFuel
  | S fuel' =>
      match a, b with
      | ta :: a', tb :: b' =>
          let ret := cmpZ (keyTypeByteToKeyType (byte_Z ta)) (keyTypeByteToKeyType (byte_Z tb)) in
          if negb (ret =? 0) then Ok (a', b', ret)
          else
            let typeByte := byte_Z ta in
            let sized (k : cmp3) : cmp3 :=
              if is_empty a' || is_empty b' then Ok (a', b', cmpZ (len a') (len b')) else k in
            if (typeByte =? indexedDBKeyNullTypeByte) || (typeByte =? indexedDBKeyMinKeyTypeByte)
            then Ok (a', b', 0)
            else if typeByte =? indexedDBKeyArrayTypeByte then
              sized (
                '(a, lenA) ← wrap "decoding key a (%x) as varInt: %w" (decodeVarInt a');
                '(b, lenB) ← wrap "decoding key b (%x) as varInt: %w" (decodeVarInt b');
                compareArrayLoop (compareEncodedIDBKeys fuel') (S (length a))
                  (Z.min lenA lenB) lenA lenB a b)
            else if typeByte =? indexedDBKeyBinaryTypeByte then sized (compareBinary a' b')
            else if typeByte =? indexedDBKeyStringTypeByte then
              sized (compareStringWithLength a' b')
            else if (typeByte =? indexedDBKeyDateTypeByte) || (typeByte =? indexedDBKeyNumberTypeByte)
            then sized (compareDouble a' b')
            else Err (Errorf "invalid keyTypeByte provided for compareEncodedIDBKeys: %d")
      | _, _ => Ok (a, b, cmpZ (len a) (len b))
      end
  end.

(** [c.compareEncodedIDBKeys(a, b)] with the fuel it needs *)
Definition compareKeys (a b : bytes) : cmp3 := compareEncodedIDBKeys (S (length a)) a b.

(** The recurring guard [if len(a) == 0 || len(b) == 0 { return cmp.Compare(len(a), len(b)) }] *)
Definition nonEmpty (a b : bytes) (k : res Z) : res Z :=
  if is_empty a || is_empty b then Ok (cmpZ (len a) (len b)) else k.

(** [if ret := cmp.Compare(x, y); ret != 0 { return ret }] *)
Definition orElse (ret : Z) (k : res Z) : res Z := if negb (ret =? 0) then Ok ret else k.

(** The recurring pair of [decodeVarInt] calls *)
Definition decodeBoth (a b : bytes) (k : bytes → Z → bytes → Z → res Z) : res Z :=
  '(a', x) ← decodeVarInt a;
  '(b', y) ← decodeVarInt b;
  k a' x b' y.

(** [cmp.Compare(a[0], b[0])] *)
Definition compareHead (a b : bytes) : Z :=
  match a, b with
  | x :: _, y :: _ => cmpZ (byte_Z x) (byte_Z y)
  | _, _ => cmpZ (len a) (len b)
  end.

(** Both metadata cases compare the first bytes, and go on with the type byte of [a]:
    [typeByte := a[0]; a, b = a[1:], b[1:]] *)
Definition onTypeByte (a b : bytes) (k : Z → bytes → bytes → res Z) : res Z :=
  nonEmpty a b (orElse (compareHead a b) (k (byte_Z (hd x00 a)) (tl a) (tl b))).

(** Case [globalMetadata] of [Compare]; [Err] stands for the logged errors *)
Definition compareGlobalMetadata (a b : bytes) : res Z :=
  onTypeByte a b (λ typeByte a b,
    if typeByte <? maxSimpleGlobalMetaDataTypeByte then Ok 0
    else if typeByte =? scopesPrefixByte then Ok (bytes_compare a b)
    else if typeByte =? databaseFreeListTypeByte then
      nonEmpty a b (decodeBoth a b (λ _ databaseIdA _ databaseIdB,
        Ok (cmpZ databaseIdA databaseIdB)))
    else if typeByte =? databaseNameTypeByte then
      nonEmpty a b (
        '(aPostString, bPostString, ret) ← compareStringWithLength a b;
        orElse ret (nonEmpty aPostString bPostString (
          '(_, _, ret) ← compareStringWithLength aPostString bPostString;
          Ok ret)))
    else Err (Errorf "invalid key prefix type byte for prefix a")).

(** Case [databaseMetadata] of [Compare] *)
Definition compareDatabaseMetadata (a b : bytes) : res Z :=
  onTypeByte a b (λ typeByte a b,
    if typeByte <? maxSimpleDatabaseMetaDataTypeByte then Ok 0
    else if typeByte =? objectStoreMetaDataTypeByte then
      nonEmpty a b (decodeBoth a b (λ aPost objectStoreIdA bPost objectStoreIdB,
        orElse (cmpZ objectStoreIdA objectStoreIdB)
          (nonEmpty aPost bPost (Ok (compareHead aPost bPost)))))
    else if typeByte =? indexMetaDataTypeByte then
      nonEmpty a b (decodeBoth a b (λ a objectStoreIdA b objectStoreIdB,
        orElse (cmpZ objectStoreIdA objectStoreIdB)
          (nonEmpty a b (decodeBoth a b (λ a indexIdA b indexIdB,
             orElse (cmpZ indexIdA indexIdB)
               (nonEmpty a b (Ok (compareHead a b))))))))
    else if typeByte =? objectStoreFreeListTypeByte then
      nonEmpty a b (decodeBoth a b (λ _ objectStoreIdA _ objectStoreIdB,
        Ok (cmpZ objectStoreIdA objectStoreIdB)))
    else if typeByte =? indexFreeListTypeByte then
      nonEmpty a b (decodeBoth a b (λ a objectStoreIdA b objectStoreIdB,
        orElse (cmpZ objectStoreIdA objectStoreIdB)
          (nonEmpty a b (decodeBoth a b (λ _ indexIdA _ indexIdB,
             Ok (cmpZ indexIdA indexIdB))))))
    else if typeByte =? objectStoreNamesTypeByte then
      nonEmpty a b (
        '(_, _, ret) ← compareStringWithLength a b;
        Ok ret)
    else if typeByte =? indexNamesKeyTypeByte then
      nonEmpty a b (decodeBoth a b (λ a objectStoreIdA b objectStoreIdB,
        orElse (cmpZ objectStoreIdA objectStoreIdB)
          (nonEmpty a b (
             '(_, _, ret) ← compareStringWithLength a b;
             Ok ret))))
    else Err (Errorf "invalid key prefix type byte for databaseMetadata case")).

(** Cases [objectStoreData], [existsEntry] and [blobEntry] of [Compare] *)
Definition compareObjectStoreData (a b : bytes) : res Z :=
  '(_, _, ret) ← compareKeys a b;
  Ok ret.

(** An optional sequence number: -1 when the key ends before it *)
Definition sequenceNumber (a : bytes) : res (bytes * Z) :=
  if is_empty a then Ok (a, -1) else decodeVarInt a.

(** Case [indexData] of [Compare] *)
Definition compareIndexData (a b : bytes) : res Z :=
  '(a, b, ret) ← compareKeys a b;
  orElse ret (
    '(a, sequenceNumberA) ← sequenceNumber a;
    '(b, sequenceNumberB) ← sequenceNumber b;
    nonEmpty a b (
      '(_, _, ret) ← compareKeys a b;
      orElse ret (Ok (cmpZ sequenceNumberA sequenceNumberB)))).

(** [Compare] up to its error handling: [Err] where the code logs and returns 0 *)
Definition compareLogged (a b : bytes) : res Z :=
  '(aWithoutPrefix, prefixA) ← decodeKeyPrefix a;
  '(bWithoutPrefix, prefixB) ← decodeKeyPrefix b;
  orElse (compareKeyPrefix prefixA prefixB) (
    let t := Type_ prefixA in
    if t =? globalMetadata then compareGlobalMetadata aWithoutPrefix bWithoutPrefix
    else if t =? databaseMetadata then compareDatabaseMetadata aWithoutPrefix bWithoutPrefix
    else if (t =? objectStoreData) || (t =? existsEntry) || (t =? blobEntry) then
      compareObjectStoreData aWithoutPrefix bWithoutPrefix
    else if t =? indexData then compareIndexData aWithoutPrefix bWithoutPrefix
    else Err (Errorf "invalid key prefix type")).

(** [Compare]: every error has been logged and yields the default 0; a panic stays one *)
Definition Compare (a b : bytes) : res Z :=
  match compareLogged a b with Err _ => Ok 0 | r => r end.

Definition Name : bytes := bs "idb_cmp1".
Definition Separator (dst a b : bytes) : bytes := [].
Definition Successor (dst b : bytes) : bytes := [].

(** ** decodeVarInt *)
Lemma digit_bound i x z :
  0 <= i <= 9 → 0 <= x < 2 ^ (7 * i) → 0 <= z → z * 2 ^ (7 * i) < two63 →
  0 <= x + z * 2 ^ (7 * i) < two63.
Proof.
  intros Hi Hx Hz Hb. assert (E : two63 = 2 ^ (63 - 7 * i) * 2 ^ (7 * i)).
  { rewrite <- Z.pow_add_r by lia. by replace (63 - 7 * i + 7 * i) with 63 by lia. }
  rewrite E in *. pose proof (Z.pow_pos_nonneg 2 (7 * i) ltac:(lia) ltac:(lia)) as HP.
  apply Z.mul_lt_mono_pos_r in Hb; [|done].
  assert ((z + 1) * 2 ^ (7 * i) <= 2 ^ (63 - 7 * i) * 2 ^ (7 * i))
    by (apply Z.mul_le_mono_nonneg_r; lia).
  pose proof (Z.mul_nonneg_nonneg z (2 ^ (7 * i))). lia.
Qed.

Lemma decodeVarInt_loop_put k j i x z r :
  (k <= j)%nat → 0 <= i → Z.of_nat k = 8 - i →
  0 <= x < 2 ^ (7 * i) → 0 <= z → z * 2 ^ (7 * i) < two63 →
  decodeVarInt_loop (S k) i x (putUvarint_loop (S j) z ++ r) = Ok (r, x + z * 2 ^ (7 * i)).
Proof.
  assert (two63 < two64) by done.
  revert j i x z; induction k as [|k IH]; intros j i x z Hj Hi Hk Hx Hz Hb;
    cbn [putUvarint_loop]; destruct (z <? 128) eqn:Hlt; zbool;
    try match goal with
    | H : 128 <= z, _ : Z.of_nat 0 = _ |- _ =>
        exfalso; assert (i = 8) as -> by lia; unfold two63 in Hb; lia
    end; cbn [app decodeVarInt_loop]; rewrite land_80_zero.
  1,2: rewrite byte_Z_byte, Z.mod_small by lia;
    assert ((z <? 128) = true) as -> by (apply Z.ltb_lt; lia);
    rewrite land_7f, Z.mod_small, digit_step by lia;
    by rewrite to_int64_small by (apply digit_bound; lia).
  rewrite digit_cont. assert ((z mod 128 + 128 <? 128) = false) as ->
    by (apply Z.ltb_ge; pose proof (Z.mod_pos_bound z 128); lia).
  destruct (cont_digit i x z) as (E & Hx' & Hz' & Hb' & Ev); try lia.
  rewrite E, <- Ev, shiftr_7. destruct j as [|j]; [lia|]. apply IH; try lia.
  pose proof (Z.pow_pos_nonneg 2 (7 * i) ltac:(lia) ltac:(lia)).
  pose proof (Z.mod_pos_bound z 128 ltac:(lia)). nia.
Qed.

Lemma decodeVarInt_Put z r : 0 <= z < two63 → decodeVarInt (PutUvarint z ++ r) = Ok (r, z).
Proof.
  intros Hz. pose proof (decodeVarInt_loop_put 8 9 0 0 z r) as H.
  change (7 * 0) with 0 in H. rewrite Z.mul_1_r in H. apply H; lia.
Qed.

Lemma decodeVarInt_loop_range k i v a a' z :
  0 <= i → Z.of_nat k = 9 - i → 0 <= v < 2 ^ (7 * i) →
  decodeVarInt_loop k i v a = Ok (a', z) → 0 <= z < two63 ∧ (length a' < length a)%nat.
Proof.
  revert i v a; induction k as [|k IH]; intros i v a Hi Hk Hv; [done|].
  destruct a as [|b a]; [done|]. cbn [decodeVarInt_loop length].
  rewrite land_7f. pose proof (Z.mod_pos_bound (byte_Z b) 128 ltac:(lia)).
  set (d := byte_Z b mod 128) in *.
  assert (Hp : 2 ^ (7 * (i + 1)) <= two63) by (apply Z.pow_le_mono_r; lia).
  pose proof (pow7_succ i Hi). assert (two63 < two64) by done.
  rewrite digit_step by nia.
  case_if; intros E.
  - simplify_eq. rewrite to_int64_small by nia. split; [nia|lia].
  - apply IH in E; try lia. nia.
Qed.

Lemma decodeVarInt_range a a' z :
  decodeVarInt a = Ok (a', z) → 0 <= z < two63 ∧ (length a' < length a)%nat.
Proof. apply decodeVarInt_loop_range; lia. Qed.

Lemma decodeVarInt_loop_returns k i v a : returns (decodeVarInt_loop k i v a).
Proof.
  revert i v a; induction k as [|k IH]; intros i v [|b a]; cbn; auto.
  destruct (_ =? 0); cbn; auto.
Qed.

Lemma decodeVarInt_returns a : returns (decodeVarInt a).
Proof. apply decodeVarInt_loop_returns. Qed.

(** ** Termination and absence of panics *)

(** A comparison that stops normally and leaves at most [n] bytes of the left side. *)
Definition bounded (n : nat) (m : cmp3) : Prop :=
  returns m ∧ ∀ a b r, m = Ok (a, b, r) → (length a <= n)%nat.

Lemma bounded_Ok n a b r : (length a <= n)%nat → bounded n (Ok (a, b, r)).
Proof. split; [done|]. intros; by simplify_eq. Qed.

Lemma bounded_Err n e : bounded n (Err e).
Proof. split; [done|]. intros; by simplify_eq. Qed.

Lemma bounded_wrap n msg m : bounded n m → bounded n (wrap msg m).
Proof. intros [? ?]; split; [by apply returns_wrap|]. intros *. by rewrite wrap_Ok; eauto. Qed.

Lemma bounded_bind {A} n (m : res A) f :
  returns m → (∀ x, m = Ok x → bounded n (f x)) → bounded n (m ≫= f).
Proof.
  destruct m; unfold mbind, res_bind; cbn [returns]; intros H Hf; try done.
  by apply Hf.
Qed.

Lemma bounded_le n k m : (n <= k)%nat → bounded n m → bounded k m.
Proof. intros ? [? H]; split; [done|]. intros ??? E%H. lia. Qed.

Lemma bounded_returns n m : bounded n m → returns m.
Proof. by intros [? ?]. Qed.

#[local] Hint Resolve decodeVarInt_returns bounded_Err bounded_wrap : launcher.

(** The two length-delimited comparisons share their shape: both sides start with a
    varint, and the data is at least as long as announced, or is cut short. *)
Lemma bounded_delimited (a b : bytes) (la lb va vb : Z) n :
  0 <= la → 0 <= lb → (length a <= n)%nat →
  bounded n (
    if (len a <? la) || (len b <? lb) then
      let minlen := min4 la lb (len a) (len b) in
      a' ← slice_to a minlen;
      b' ← slice_to b minlen;
      let ret := bytes_compare a' b' in
      if negb (ret =? 0) then Ok ([], [], ret) else Ok ([], [], cmpZ va vb)
    else
      ra ← slice_from a la;
      rb ← slice_from b lb;
      a' ← slice_to a la;
      b' ← slice_to b lb;
      Ok (ra, rb, bytes_compare a' b')).
Proof.
  intros Ha Hb Hn. pose proof (len_nonneg a). pose proof (len_nonneg b).
  destruct (_ || _)%bool eqn:E; zbool.
  - unfold min4. rewrite !slice_to_Ok by lia. unfold mbind, res_bind; cbn zeta.
    case_if; apply bounded_Ok; cbn; lia.
  - rewrite !slice_to_Ok, !slice_from_Ok by lia. unfold mbind, res_bind.
    apply bounded_Ok. rewrite length_drop. lia.
Qed.

Lemma compareBinary_bounded a b : bounded (length a) (compareBinary a b).
Proof.
  unfold compareBinary. apply bounded_bind; [auto with launcher|]. intros [a' la] Ea.
  apply bounded_bind; [auto with launcher|]. intros [b' lb] Eb.
  apply decodeVarInt_range in Ea as [? ?], Eb as [? ?]. assert (two63 < two64) by done.
  rewrite !to_uint64_small by lia. apply bounded_delimited; lia.
Qed.

Lemma compareStringWithLength_bounded a b : bounded (length a) (compareStringWithLength a b).
Proof.
  unfold compareStringWithLength. apply bounded_bind; [auto with launcher|].
  intros [a' la] Ea. apply bounded_bind; [auto with launcher|]. intros [b' lb] Eb.
  rewrite wrap_Ok in *.
  apply decodeVarInt_range in Ea as [? ?], Eb as [? ?]. assert (2 * two63 = two64) by done.
  rewrite !to_uint64_small by (rewrite ?to_uint64_small; lia).
  apply bounded_delimited; lia.
Qed.

Lemma compareDouble_bounded a b : bounded (length a) (compareDouble a b).
Proof.
  unfold compareDouble. destruct (_ || _)%bool eqn:E; [auto with launcher|]; zbool.
  rewrite !slice_from_Ok by lia. unfold mbind, res_bind. apply bounded_Ok.
  rewrite length_drop. lia.
Qed.

Lemma compareArrayLoop_bounded rec fuel n lenA lenB a b N :
  (∀ a b, (length a <= N)%nat → ¬ (a = [] ∨ b = []) → bounded (length a - 1) (rec a b)) →
  (length a <= N)%nat → (length a < fuel)%nat →
  bounded (length a) (compareArrayLoop rec fuel n lenA lenB a b).
Proof.
  intros Hrec. revert n a b; induction fuel as [|fuel IH]; intros n a b HN Hf; [lia|].
  cbn [compareArrayLoop]. case_if; [by apply bounded_Ok|].
  destruct (is_empty a || is_empty b)%bool eqn:Ee; [by apply bounded_Ok|].
  destruct a as [|x a]; [done|]. destruct b as [|y b]; [done|].
  assert (Hb := Hrec (x :: a) (y :: b) HN ltac:(intuition done)). cbn [length] in *.
  apply bounded_bind; [apply returns_wrap; by eapply bounded_returns|].
  intros [[a' b'] ret]. rewrite wrap_Ok. intros E%Hb. case_if; [apply bounded_Ok; lia|].
  eapply bounded_le; [|apply IH]; lia.
Qed.

Lemma compareEncodedIDBKeys_bounded fuel a b :
  (length a < fuel)%nat →
  bounded (if is_empty a || is_empty b then length a else length a - 1)
    (compareEncodedIDBKeys fuel a b).
Proof.
  revert a b; induction fuel as [|fuel IH]; intros a b Hf; [lia|].
  destruct a as [|ta a], b as [|tb b]; cbn [compareEncodedIDBKeys is_empty orb length];
    try (apply bounded_Ok; cbn; lia).
  cbn [length] in Hf. replace (S (length a) - 1)%nat with (length a) by lia.
  assert (Hsized : ∀ k, bounded (length a) k → bounded (length a)
    (if is_empty a || is_empty b then Ok (a, b, cmpZ (len a) (len b)) else k)).
  { intros k Hk. case_if; [by apply bounded_Ok|done]. }
  repeat case_if; try (apply bounded_Ok; lia); try apply Hsized;
    auto using compareBinary_bounded, compareStringWithLength_bounded,
      compareDouble_bounded with launcher.
  apply bounded_bind; [auto with launcher|]. intros [a' la] Ea.
  apply bounded_bind; [auto with launcher|]. intros [b' lb] Eb.
  rewrite wrap_Ok in *. apply decodeVarInt_range in Ea as [? ?].
  eapply bounded_le; [|apply (compareArrayLoop_bounded _ _ _ _ _ _ _ (length a'))]; try lia.
  intros x y Hx Hne. specialize (IH x y). destruct x, y; cbn [is_empty orb] in IH;
    try (exfalso; tauto). apply IH. lia.
Qed.

Lemma compareKeys_returns a b : returns (compareKeys a b).
Proof. eapply bounded_returns, compareEncodedIDBKeys_bounded. lia. Qed.

(** ** decodeKeyPrefix *)
Lemma land_7 z : 0 <= Z.land z 7 < 8.
Proof. change 7 with (Z.ones 3). rewrite land_ones_mod by lia. apply Z.mod_pos_bound; lia. Qed.

Lemma land_3 z : 0 <= Z.land z 3 < 4.
Proof. change 3 with (Z.ones 2). rewrite land_ones_mod by lia. apply Z.mod_pos_bound; lia. Qed.

Lemma decodeInt_returns a : returns (decodeInt a).
Proof. unfold decodeInt. by destruct (_ || _)%bool. Qed.

Lemma len_drop {A} (a : list A) n : 0 <= n <= len a → len (drop (Z.to_nat n) a) = len a - n.
Proof. unfold len. rewrite length_drop. lia. Qed.

Lemma decodeKeyPrefix_returns a : returns (decodeKeyPrefix a).
Proof.
  destruct a as [|fb a]; [done|]. unfold decodeKeyPrefix.
  pose proof (land_7 (Z.shiftr (byte_Z fb) 5)). pose proof (land_7 (Z.shiftr (byte_Z fb) 2)).
  pose proof (land_3 (byte_Z fb)).
  set (d := Z.land (Z.shiftr _ 5) _ + 1) in *. set (o := Z.land (Z.shiftr _ 2) _ + 1) in *.
  set (i := Z.land (byte_Z fb) 3 + 1) in *. cbv zeta. case_if; [done|].
  rewrite slice_to_Ok, slice_from_Ok by lia. unfold mbind at 1, res_bind at 1.
  apply returns_bind; [apply returns_wrap, decodeInt_returns|]. intros ? _.
  unfold mbind at 1, res_bind at 1.
  rewrite slice_to_Ok, slice_from_Ok by (rewrite len_drop; lia).
  unfold mbind at 1, res_bind at 1.
  apply returns_bind; [apply returns_wrap, decodeInt_returns|]. intros ? _.
  unfold mbind at 1, res_bind at 1.
  rewrite slice_to_Ok, slice_from_Ok by (rewrite !len_drop; rewrite ?len_drop; lia).
  unfold mbind at 1, res_bind at 1.
  apply returns_bind; [apply returns_wrap, decodeInt_returns|]. by intros ? _.
Qed.

(** ** Compare always answers *)
Lemma nonEmpty_returns a b k : returns k → returns (nonEmpty a b k).
Proof. unfold nonEmpty. by destruct (_ || _)%bool. Qed.

Lemma orElse_returns r k : returns k → returns (orElse r k).
Proof. unfold orElse. by destruct (negb _). Qed.

Lemma decodeBoth_returns a b k :
  (∀ a x b y, returns (k a x b y)) → returns (decodeBoth a b k).
Proof.
  intros Hk. unfold decodeBoth.
  apply returns_bind; [apply decodeVarInt_returns|]. intros [? ?] _.
  apply returns_bind; [apply decodeVarInt_returns|]. by intros [? ?] _.
Qed.

Lemma compareStringWithLength_returns a b : returns (compareStringWithLength a b).
Proof. eapply bounded_returns, compareStringWithLength_bounded. Qed.

Create HintDb returns.
#[local] Hint Resolve compareStringWithLength_returns compareKeys_returns
  decodeVarInt_returns decodeKeyPrefix_returns : returns.

Ltac solve_returns :=
  repeat first
    [ exact I
    | progress intros
    | solve [auto 1 with returns nocore]
    | apply nonEmpty_returns | apply orElse_returns | apply decodeBoth_returns
    | apply returns_bind
    | match goal with
      | |- returns (match ?x with (_, _) => _ end) => destruct x
      | |- returns (if ?b then _ else _) => destruct b
      end ].

Lemma compareGlobalMetadata_returns a b : returns (compareGlobalMetadata a b).
Proof. unfold compareGlobalMetadata, onTypeByte. solve_returns. Qed.

Lemma compareDatabaseMetadata_returns a b : returns (compareDatabaseMetadata a b).
Proof. unfold compareDatabaseMetadata, onTypeByte. solve_returns. Qed.

Lemma compareIndexData_returns a b : returns (compareIndexData a b).
Proof. unfold compareIndexData, sequenceNumber. solve_returns. Qed.

#[local] Hint Resolve compareGlobalMetadata_returns compareDatabaseMetadata_returns
  compareIndexData_returns : returns.

Lemma compareLogged_returns a b : returns (compareLogged a b).
Proof. unfold compareLogged, compareObjectStoreData. solve_returns. Qed.

(** On every pair of byte strings, however malformed, [Compare] terminates without a
    run-time panic: all its slice expressions are in range and its recursion is bounded by
    the length of the left key. *)
Theorem Compare_total a b : ∃ r, Compare a b = Ok r.
Proof.
  pose proof (compareLogged_returns a b) as H. unfold Compare.
  destruct (compareLogged a b); cbn [returns] in H; try done; eauto.
Qed.

End IdbComparer.
