(* ===== verification/IdbOrder.v ===== *)
(** * The order of [idb_cmp1]

    Properties of [IdbComparer.Compare] as an order: antisymmetry on every pair of keys it
    can read, and a refinement theorem: on well-formed keys it is the lexicographic order of
    the decoded keys, which is a total preorder.  The well-formed keys are given by an
    encoder written from Chromium's coding scheme (the document comparer.go refers to). *)
From S2P Require Import Prelude Reader IdbComparer.
Import IdbComparer.

(** ** Abstract keys *)

(** A user key: what one encoded IDB key denotes.  Strings are UTF-16 code units, high byte
    first; doubles are their bits. *)
#[warnings="-register-all"]
Inductive IDBKey : Type :=
| KNull
| KArray (elems : list IDBKey)
| KBinary (data : bytes)
| KString (units : list (byte * byte))
| KDate (bits : Z)
| KNumber (bits : Z)
| KMin.

(** The induction principle with a hypothesis for each element of an array *)
Section IDBKeyInd.
  Variable P : IDBKey → Prop.
  Hypotheses (HNull : P KNull) (HArray : ∀ l, Forall P l → P (KArray l))
    (HBinary : ∀ d, P (KBinary d)) (HString : ∀ u, P (KString u))
    (HDate : ∀ b, P (KDate b)) (HNumber : ∀ b, P (KNumber b)) (HMin : P KMin).
Fixpoint IDBKey_nested_ind (k : IDBKey) : P k :=
    match k with
    | KNull => HNull
    | KArray l =>
        HArray l ((fix go l : Forall P l :=
          match l with
          | [] => Forall_nil_2 P
          | x :: l => Forall_cons_2 P x l (IDBKey_nested_ind x) (go l)
          end) l)
    | KBinary d => HBinary d
    | KString u => HString u
    | KDate b => HDate b
    | KNumber b => HNumber b
    | KMin => HMin
    end.
End IDBKeyInd.

Definition flat (units : list (byte * byte)) : bytes := flat_map (λ '(h, l), [h; l]) units.

(** The encoding of a key *)
Fixpoint encodeIDBKey (k : IDBKey) : bytes :=
  match k with
  | KNull => [x00]
  | KString u => x01 :: PutUvarint (len u) ++ flat u
  | KDate b => x02 :: le_bytes 8 b
  | KNumber b => x03 :: le_bytes 8 b
  | KArray l => x04 :: PutUvarint (len l) ++ flat_map encodeIDBKey l
  | KMin => [x05]
  | KBinary d => x06 :: PutUvarint (len d) ++ d
  end.

(** Lengths that fit the varint, doubles that fit eight bytes *)
Fixpoint wf_key (k : IDBKey) : Prop :=
  match k with
  | KNull | KMin => True
  | KArray l => len l < two63 ∧ (fix go l := match l with [] => True | x :: l => wf_key x ∧ go l end) l
  | KBinary d => len d < two63
  | KString u => len u < two63
  | KDate b | KNumber b => 0 <= b < two64
  end.

(** The type of a key, in the order of the types *)
Definition key_rank (k : IDBKey) : Z :=
  match k with
  | KNull => 0 | KArray _ => 1 | KBinary _ => 2 | KString _ => 3
  | KDate _ => 4 | KNumber _ => 5 | KMin => 7
  end.

(** Element by element, then by length *)
Section Lex.
  Context {A : Type} (c : A → A → Z).
Fixpoint lex (l k : list A) : Z :=
    match l, k with
    | [], [] => 0
    | [], _ :: _ => -1
    | _ :: _, [] => 1
    | x :: l, y :: k => if c x y =? 0 then lex l k else c x y
    end.
End Lex.

(** The abstract order of keys *)
Fixpoint idb_compare (x y : IDBKey) : Z :=
  match x, y with
  | KArray l, KArray k => lex idb_compare l k
  | KBinary d, KBinary e => bytes_compare d e
  | KString u, KString v => bytes_compare (flat u) (flat v)
  | KDate b, KDate c | KNumber b, KNumber c => cmpFloat b c
  | _, _ => cmpZ (key_rank x) (key_rank y)
  end.

(** ** Antisymmetry *)

(** Two outcomes that, when both are values, are opposite *)
Definition mirror (m n : res Z) : Prop := ∀ r r', m = Ok r → n = Ok r' → r' = - r.

Definition mirror3 (m n : cmp3) : Prop :=
  ∀ a b r a' b' r', m = Ok (a, b, r) → n = Ok (a', b', r') → a' = b ∧ b' = a ∧ r' = - r.

Lemma mirror_Ok r r' : r' = - r → mirror (Ok r) (Ok r').
Proof. unfold mirror; intros; by simplify_eq. Qed.

Lemma mirror3_Ok a b r a' b' r' : a' = b → b' = a → r' = - r → mirror3 (Ok (a, b, r)) (Ok (a', b', r')).
Proof. unfold mirror3; intros; by simplify_eq. Qed.

Lemma mirror3_wrap msg m n : mirror3 m n → mirror3 (wrap msg m) (wrap msg n).
Proof. intros H ??????. rewrite !wrap_Ok. eauto. Qed.

Lemma mirror_bind3 m n f g :
  mirror3 m n → (∀ a b r, mirror (f (a, b, r)) (g (b, a, - r))) → mirror (m ≫= f) (n ≫= g).
Proof.
  intros Hmn Hfg r r' E1 E2. res_inv.
  match goal with H1 : ?m = Ok ?x, H2 : ?n = Ok ?y |- _ =>
    destruct x as [[a b] s], y as [[a' b'] s'];
    destruct (Hmn _ _ _ _ _ _ eq_refl eq_refl) as (-> & -> & ->) end.
  by eapply Hfg.
Qed.

Lemma cmpFloat_antisym x y : cmpFloat y x = - cmpFloat x y.
Proof. unfold cmpFloat. destruct (float_nan x), (float_nan y); try done. apply cmpZ_antisym. Qed.

(** The shared tail of the length-delimited comparisons, on swapped arguments *)
Lemma mirror_delimited (a b : bytes) (la lb va vb : Z) :
  mirror3
   (if (len a <? la) || (len b <? lb) then
      let minlen := min4 la lb (len a) (len b) in
      a' ← slice_to a minlen;
      b' ← slice_to b minlen;
      let ret := bytes_compare a' b' in
      if negb (ret =? 0) then Ok ([], [], ret) else Ok ([], [], cmpZ va vb)
    else
      ra ← slice_from a la; rb ← slice_from b lb;
      a' ← slice_to a la; b' ← slice_to b lb;
      Ok (ra, rb, bytes_compare a' b'))
   (if (len b <? lb) || (len a <? la) then
      let minlen := min4 lb la (len b) (len a) in
      a' ← slice_to b minlen;
      b' ← slice_to a minlen;
      let ret := bytes_compare a' b' in
      if negb (ret =? 0) then Ok ([], [], ret) else Ok ([], [], cmpZ vb va)
    else
      ra ← slice_from b lb; rb ← slice_from a la;
      a' ← slice_to b lb; b' ← slice_to a la;
      Ok (ra, rb, bytes_compare a' b')).
Proof.
  rewrite orb_comm. case_if.
  - assert (min4 lb la (len b) (len a) = min4 la lb (len a) (len b)) as -> by (unfold min4; lia).
    cbv zeta. generalize (min4 la lb (len a) (len b)); intros n.
    destruct (slice_to a n) as [a'| | |], (slice_to b n) as [b'| | |];
      unfold mbind, res_bind; try (unfold mirror3; discriminate).
    rewrite (bytes_compare_antisym a' b').
    repeat case_if; try lia; apply mirror3_Ok; auto using cmpZ_antisym.
  - destruct (slice_from a la) as [ra| | |], (slice_from b lb) as [rb| | |],
      (slice_to a la) as [a'| | |], (slice_to b lb) as [b'| | |];
      unfold mbind, res_bind; try (unfold mirror3; discriminate).
    apply mirror3_Ok; auto using bytes_compare_antisym.
Qed.

Lemma mirror_compareBinary a b : mirror3 (compareBinary a b) (compareBinary b a).
Proof.
  unfold compareBinary. intros x y r x' y' r'.
  destruct (decodeVarInt a) as [[a' la]| | |] eqn:Ea, (decodeVarInt b) as [[b' lb]| | |] eqn:Eb;
    unfold mbind, res_bind; cbn [wrap]; try discriminate.
  apply decodeVarInt_range in Ea as [Ea _], Eb as [Eb _]. assert (two63 < two64) by done.
  rewrite !to_uint64_small by lia. apply mirror_delimited.
Qed.

Lemma mirror_compareString a b :
  mirror3 (compareStringWithLength a b) (compareStringWithLength b a).
Proof.
  unfold compareStringWithLength. intros x y r x' y' r'.
  destruct (decodeVarInt a) as [[a' la]| | |], (decodeVarInt b) as [[b' lb]| | |];
    unfold mbind, res_bind; cbn [wrap]; try discriminate.
  apply mirror_delimited.
Qed.

Lemma mirror_compareDouble a b : mirror3 (compareDouble a b) (compareDouble b a).
Proof.
  unfold compareDouble. rewrite orb_comm. case_if; [unfold mirror3; discriminate|].
  destruct (slice_from a 8) as [ra| | |], (slice_from b 8) as [rb| | |];
    unfold mbind, res_bind; try (unfold mirror3; discriminate).
  apply mirror3_Ok; auto using cmpFloat_antisym.
Qed.

Lemma mirror_compareArrayLoop rec rec' f g n lenA lenB a b :
  (∀ a b, mirror3 (rec a b) (rec' b a)) →
  mirror3 (compareArrayLoop rec f n lenA lenB a b) (compareArrayLoop rec' g n lenB lenA b a).
Proof.
  intros Hrec. revert g n a b; induction f as [|f IH]; intros g n a b;
    destruct g as [|g]; cbn [compareArrayLoop]; rewrite (orb_comm (is_empty b));
    repeat (case_if; try (apply mirror3_Ok; auto using cmpZ_antisym));
    try (unfold mirror3; discriminate).
  intros x y r x' y' r' E1 E2. specialize (Hrec a b).
  destruct (rec a b) as [[[p q] s]| | |], (rec' b a) as [[[q' p'] s']| | |];
    unfold mbind, res_bind in *; cbn [wrap] in *; try discriminate.
  destruct (Hrec _ _ _ _ _ _ eq_refl eq_refl) as (-> & -> & ->).
  repeat case_if_in E1; repeat case_if_in E2; try lia; res_inv; auto.
  by eapply (IH g).
Qed.

(** Types that agree come from the same byte, or from bytes that are no known type *)
Lemma keyType_eq x y :
  keyTypeByteToKeyType x = keyTypeByteToKeyType y →
  x = y ∨ (keyTypeByteToKeyType x = 0 ∧ keyTypeByteToKeyType y = 0).
Proof. unfold keyTypeByteToKeyType. repeat case_if; subst; auto; discriminate. Qed.

Lemma mirror_compareEncodedIDBKeys f g a b :
  mirror3 (compareEncodedIDBKeys f a b) (compareEncodedIDBKeys g b a).
Proof.
  revert g a b; induction f as [|f IH]; intros g a b; [unfold mirror3; discriminate|].
  destruct g as [|g]; [unfold mirror3; discriminate|].
  destruct a as [|ta a], b as [|tb b]; cbn [compareEncodedIDBKeys];
    try (apply mirror3_Ok; auto using cmpZ_antisym).
  rewrite (cmpZ_antisym (keyTypeByteToKeyType (byte_Z ta))).
  destruct (cmpZ_spec (keyTypeByteToKeyType (byte_Z ta)) (keyTypeByteToKeyType (byte_Z tb)))
    as [[E ?]|[[E Ht]|[E ?]]]; rewrite E; [by apply mirror3_Ok| |by apply mirror3_Ok].
  change (- 0) with 0. change (negb (0 =? 0)) with false. cbv iota.
  apply keyType_eq in Ht as [Ht|[H1 H2]].
  - apply byte_Z_inj in Ht as ->. rewrite (orb_comm (is_empty b)).
    repeat (case_if; try (apply mirror3_Ok; auto using cmpZ_antisym));
      auto using mirror_compareBinary, mirror_compareString, mirror_compareDouble;
      try (unfold mirror3; discriminate).
    intros x y r x' y' r'.
    destruct (decodeVarInt a) as [[a' la]| | |], (decodeVarInt b) as [[b' lb]| | |];
      unfold mbind, res_bind; cbn [wrap]; try discriminate.
    rewrite (Z.min_comm lb). apply mirror_compareArrayLoop. intros; apply IH.
  - unfold keyTypeByteToKeyType in H1, H2.
    repeat case_if_in H1; repeat case_if_in H2; try discriminate;
    repeat match goal with H : byte_Z _ = _ |- _ => rewrite H; clear H end;
    repeat match goal with H : byte_Z _ ≠ _ |- _ => apply Z.eqb_neq in H; rewrite ?H; revert H end;
    intros; cbn [Z.eqb orb]; try (apply mirror3_Ok; auto); unfold mirror3; discriminate.
Qed.

Lemma mirror_nonEmpty a b k k' : mirror k k' → mirror (nonEmpty a b k) (nonEmpty b a k').
Proof.
  unfold nonEmpty. rewrite orb_comm. case_if; [|done]. intros _. apply mirror_Ok, cmpZ_antisym.
Qed.

Lemma mirror_orElse r k k' : (r = 0 → mirror k k') → mirror (orElse r k) (orElse (- r) k').
Proof.
  unfold orElse. intros H. repeat case_if; try lia; [by apply mirror_Ok|by apply H].
Qed.

Lemma mirror_orElse_cmp x y k k' :
  (x = y → mirror k k') → mirror (orElse (cmpZ x y) k) (orElse (cmpZ y x) k').
Proof.
  intros H. rewrite (cmpZ_antisym x y). apply mirror_orElse. intros E. apply H.
  pose proof (cmpZ_spec x y). lia.
Qed.

Lemma mirror_decodeBoth a b k k' :
  (∀ a x b y, mirror (k a x b y) (k' b y a x)) → mirror (decodeBoth a b k) (decodeBoth b a k').
Proof.
  intros H r r'. unfold decodeBoth.
  destruct (decodeVarInt a) as [[a' la]| | |], (decodeVarInt b) as [[b' lb]| | |];
    unfold mbind, res_bind; try discriminate. apply H.
Qed.

Lemma mirror_cmp x y : mirror (Ok (cmpZ x y)) (Ok (cmpZ y x)).
Proof. apply mirror_Ok, cmpZ_antisym. Qed.

Lemma mirror_head a b : mirror (Ok (compareHead a b)) (Ok (compareHead b a)).
Proof. apply mirror_Ok. destruct a, b; apply cmpZ_antisym. Qed.

Lemma mirror_Err e m : mirror (Err e) m.
Proof. by unfold mirror. Qed.

Create HintDb mirror.
#[local] Hint Resolve mirror_cmp mirror_head mirror_Err mirror_compareString : mirror.
#[local] Hint Extern 1 (mirror (Ok _) (Ok _)) =>
  apply mirror_Ok; auto using bytes_compare_antisym; lia : mirror.

Ltac solve_mirror :=
  repeat first
    [ progress intros
    | solve [auto 2 with mirror]
    | apply mirror_nonEmpty | apply mirror_orElse_cmp | apply mirror_orElse
    | apply mirror_decodeBoth
    | eapply mirror_bind3
    | case_if ].

(** Both metadata cases read a type byte from each side, after comparing it. *)
Lemma mirror_typed a b (k : Z → bytes → bytes → res Z) :
  (∀ t a b, mirror (k t a b) (k t b a)) →
  mirror (onTypeByte a b k) (onTypeByte b a k).
Proof.
  intros Hk. destruct a as [|x a], b as [|y b]; unfold onTypeByte, nonEmpty;
    cbn [is_empty orb]; try apply mirror_cmp.
  cbn [compareHead hd tl]. apply mirror_orElse_cmp. intros ->%byte_Z_inj. apply Hk.
Qed.

Lemma mirror_compareGlobalMetadata a b :
  mirror (compareGlobalMetadata a b) (compareGlobalMetadata b a).
Proof. apply mirror_typed. intros t a' b'. solve_mirror. Qed.

Lemma mirror_compareDatabaseMetadata a b :
  mirror (compareDatabaseMetadata a b) (compareDatabaseMetadata b a).
Proof. apply mirror_typed. intros t a' b'. solve_mirror. Qed.

Lemma mirror_compareIndexData a b : mirror (compareIndexData a b) (compareIndexData b a).
Proof.
  unfold compareIndexData. eapply mirror_bind3; [apply mirror_compareEncodedIDBKeys|].
  intros a' b' s. apply mirror_orElse. intros _ r r'.
  destruct (sequenceNumber a') as [[p m]| | |], (sequenceNumber b') as [[q n]| | |];
    unfold mbind, res_bind; try discriminate.
  apply mirror_nonEmpty, mirror_bind3; [apply mirror_compareEncodedIDBKeys|].
  solve_mirror.
Qed.

Lemma compareKeyPrefix_antisym p q : compareKeyPrefix q p = - compareKeyPrefix p q.
Proof.
  unfold compareKeyPrefix. rewrite (cmpZ_antisym (DatabaseId p)),
    (cmpZ_antisym (ObjectStoreId p)), (cmpZ_antisym (IndexId p)).
  repeat case_if; lia.
Qed.

Lemma compareKeyPrefix_eq p q : compareKeyPrefix p q = 0 → p = q.
Proof.
  destruct p as [d o i], q as [d' o' i']; unfold compareKeyPrefix; cbn.
  pose proof (cmpZ_spec d d'). pose proof (cmpZ_spec o o'). pose proof (cmpZ_spec i i').
  repeat case_if; intros; try lia. f_equal; lia.
Qed.

Lemma mirror_compareLogged a b : mirror (compareLogged a b) (compareLogged b a).
Proof.
  intros r r'. unfold compareLogged.
  destruct (decodeKeyPrefix a) as [[a' p]| | |], (decodeKeyPrefix b) as [[b' q]| | |];
    unfold mbind, res_bind; try discriminate.
  rewrite (compareKeyPrefix_antisym p q). apply mirror_orElse. intros ->%compareKeyPrefix_eq.
  repeat case_if; auto using mirror_compareGlobalMetadata, mirror_compareDatabaseMetadata,
    mirror_compareIndexData, mirror_Err.
  eapply mirror_bind3; [apply mirror_compareEncodedIDBKeys|]. solve_mirror.
Qed.

(** The comparison of [a] with [b] logs no error. *)
Definition readable (a b : bytes) : Prop := ∃ r, compareLogged a b = Ok r.

(** Whenever [Compare] can read both keys in both orders, swapping its arguments negates
    its answer. *)
Theorem Compare_antisym a b :
  readable a b → readable b a → ∃ r, Compare a b = Ok r ∧ Compare b a = Ok (- r).
Proof.
  intros [r H] [r' H']. exists r. unfold Compare. rewrite H, H'. split; [done|].
  f_equal. by eapply mirror_compareLogged.
Qed.

Lemma Compare_antisym_witness :
  let a := [x00; x01; x01; x01; x03; x00; x00; x00; x00; x00; x00; xf0; x3f] in
  let b := [x00; x01; x01; x01; x01; x01; x00; x61] in
  ∃ r, Compare a b = Ok r ∧ Compare b a = Ok (- r).
Proof. apply Compare_antisym; eexists; vm_compute; reflexivity. Defined.

(** On malformed keys it is no order: the type byte of the key is read from the left
    argument only, so an unknown type byte on the left is an error (answer 0) while on the
    right it passes for the null key. *)
Theorem Compare_malformed :
  ∃ a b, Compare a b = Ok (-1) ∧ Compare b a = Ok 0 ∧ ¬ readable b a ∧ readable a b.
Proof.
  exists [x00; x01; x01; x1e; x00; x01; x00], [x00; x01; x01; x1e; x09; x02; x05].
  split_and!; try (vm_compute; reflexivity).
  - intros [r H]. by vm_compute in H.
  - eexists. vm_compute. reflexivity.
Qed.

(** ** Refinement: the order of encoded keys *)

(** The comparison [m] answers [c], and when the values are equal it leaves [r] and [s]. *)
Definition decided (m : cmp3) (c : Z) (r s : bytes) : Prop :=
  ∃ r' s', m = Ok (r', s', c) ∧ (c = 0 → r' = r ∧ s' = s).

Lemma decided_Ok c r s : decided (Ok (r, s, c)) c r s.
Proof. by exists r, s. Qed.

Lemma decided_differ c r' s' r s : c ≠ 0 → decided (Ok (r', s', c)) c r s.
Proof. intros. by exists r', s'. Qed.

#[local] Hint Resolve decided_Ok : launcher.

Lemma wf_array l : wf_key (KArray l) ↔ len l < two63 ∧ Forall wf_key l.
Proof.
  cbn [wf_key]. split; intros [H Hf]; split; try done; clear H;
    induction l as [|x l IH]; auto.
  - destruct Hf as [? ?]; auto.
  - by apply Forall_cons in Hf as [? ?%IH].
Qed.

Lemma PutUvarint_not_empty z r : is_empty (PutUvarint z ++ r) = false.
Proof. unfold PutUvarint; cbn [putUvarint_loop]. by case_if. Qed.

Lemma length_encode_pos k : (1 <= length (encodeIDBKey k))%nat.
Proof. destruct k; cbn; lia. Qed.

Lemma encode_not_empty k r : is_empty (encodeIDBKey k ++ r) = false.
Proof. by destruct k. Qed.

Lemma len_flat u : len (flat u) = 2 * len u.
Proof. induction u as [|[h l] u IH]; [done|].
  change (flat ((h, l) :: u)) with (h :: l :: flat u). rewrite !len_cons. lia. Qed.

(** Both sides hold the data announced by their length *)
Lemma decided_delimited (d e r s : bytes) (va vb : Z) :
  decided
    (if (len (d ++ r) <? len d) || (len (e ++ s) <? len e) then
       let minlen := min4 (len d) (len e) (len (d ++ r)) (len (e ++ s)) in
       a' ← slice_to (d ++ r) minlen;
       b' ← slice_to (e ++ s) minlen;
       let ret := bytes_compare a' b' in
       if negb (ret =? 0) then Ok ([], [], ret) else Ok ([], [], cmpZ va vb)
     else
       ra ← slice_from (d ++ r) (len d); rb ← slice_from (e ++ s) (len e);
       a' ← slice_to (d ++ r) (len d); b' ← slice_to (e ++ s) (len e);
       Ok (ra, rb, bytes_compare a' b'))
    (bytes_compare d e) r s.
Proof.
  rewrite !len_app. pose proof (len_nonneg r). pose proof (len_nonneg s).
  assert ((len d + len r <? len d) = false) as -> by (apply Z.ltb_ge; lia).
  assert ((len e + len s <? len e) = false) as -> by (apply Z.ltb_ge; lia).
  cbn [orb]. rewrite !slice_from_app, !slice_to_app. apply decided_Ok.
Qed.

Lemma decided_compareBinary d e r s :
  len d < two63 → len e < two63 →
  decided (compareBinary (PutUvarint (len d) ++ d ++ r) (PutUvarint (len e) ++ e ++ s))
    (bytes_compare d e) r s.
Proof.
  intros. pose proof (len_nonneg d). pose proof (len_nonneg e). assert (two63 < two64) by done.
  unfold compareBinary. rewrite !decodeVarInt_Put by lia. unfold mbind at 1 2, res_bind at 1 2.
  rewrite !to_uint64_small by lia. apply decided_delimited.
Qed.

Lemma decided_compareString u v r s :
  len u < two63 → len v < two63 →
  decided
    (compareStringWithLength (PutUvarint (len u) ++ flat u ++ r) (PutUvarint (len v) ++ flat v ++ s))
    (bytes_compare (flat u) (flat v)) r s.
Proof.
  intros. pose proof (len_nonneg u). pose proof (len_nonneg v). assert (2 * two63 = two64) by done.
  unfold compareStringWithLength. rewrite !decodeVarInt_Put by lia.
  unfold mbind at 1 2, res_bind at 1 2. cbn [wrap].
  rewrite (to_uint64_small (len u)), (to_uint64_small (len v)), !to_uint64_small by lia.
  rewrite <- !len_flat. apply decided_delimited.
Qed.

Lemma decided_compareDouble b c r s :
  0 <= b < two64 → 0 <= c < two64 →
  decided (compareDouble (le_bytes 8 b ++ r) (le_bytes 8 c ++ s)) (cmpFloat b c) r s.
Proof.
  intros Hb Hc. assert (L : ∀ z t, len (le_bytes 8 z ++ t) = 8 + len t).
  { intros. rewrite len_app. unfold len at 1. by rewrite length_le_bytes. }
  pose proof (len_nonneg r). pose proof (len_nonneg s).
  unfold compareDouble. rewrite !L. case_if; [zbool|].
  { destruct (8 + len r <? 8) eqn:?, (8 + len s <? 8) eqn:?; zbool; try done; lia. }
  rewrite !slice_from_Ok by (rewrite L; lia). unfold mbind, res_bind. change (Z.to_nat 8) with 8%nat.
  rewrite !take_app_length', !drop_app_length' by (by rewrite length_le_bytes).
  rewrite !le_value_bytes by done. apply decided_Ok.
Qed.

Section ArrayLoop.
  Variable rec : bytes → bytes → cmp3.

  (** The loop over two encoded arrays whose already compared prefixes have equal length *)
Lemma decided_compareArrayLoop l k fuel lenA lenB r s N :
    Forall (λ x, ∀ y r s, (length (encodeIDBKey x ++ r) <= N)%nat → wf_key y →
      decided (rec (encodeIDBKey x ++ r) (encodeIDBKey y ++ s)) (idb_compare x y) r s) l →
    Forall wf_key k →
    lenA - len l = lenB - len k →
    (length (flat_map encodeIDBKey l ++ r) <= N)%nat →
    (length (flat_map encodeIDBKey l ++ r) < fuel)%nat →
    decided
      (compareArrayLoop rec fuel (Z.min (len l) (len k)) lenA lenB
        (flat_map encodeIDBKey l ++ r) (flat_map encodeIDBKey k ++ s))
      (lex idb_compare l k) r s.
  Proof.
    intros Hl. revert k fuel r s; induction Hl as [|x l Hx Hl IH]; intros k fuel r s Hk Hlen HN Hf;
      (destruct fuel as [|fuel]; [lia|]); destruct k as [|y k]; cbn [flat_map lex app] in *;
      rewrite ?len_cons in *; change (len (@nil IDBKey)) with 0 in *;
      cbn [compareArrayLoop].
    1-3: try (pose proof (len_nonneg l)); try (pose proof (len_nonneg k));
      case_if; [|lia]; pose proof (cmpZ_spec lenA lenB);
      match goal with |- decided _ ?c _ _ => assert (cmpZ lenA lenB = c) as -> by lia end;
      by (apply decided_Ok || apply decided_differ).
    pose proof (len_nonneg l). pose proof (len_nonneg k). case_if; [lia|].
    rewrite <- !app_assoc, !encode_not_empty in *. cbn [orb].
    apply Forall_cons in Hk as [Hy Hk].
    destruct (Hx y (flat_map encodeIDBKey l ++ r) (flat_map encodeIDBKey k ++ s) HN Hy)
      as (r' & s' & E & Hrs).
    rewrite E. cbn [wrap]. unfold mbind, res_bind.
    destruct (idb_compare x y =? 0) eqn:Ec; zbool; cbn [negb].
    - destruct (Hrs Ec) as [-> ->]. pose proof (length_encode_pos x).
      rewrite length_app in *.
      replace (Z.min (1 + len l) (1 + len k) - 1) with (Z.min (len l) (len k)) by lia.
      apply IH; try lia; done.
    - by apply decided_differ.
  Qed.
End ArrayLoop.

Lemma decided_compareEncodedIDBKeys x : ∀ y fuel r s,
  wf_key x → wf_key y → (length (encodeIDBKey x ++ r) < fuel)%nat →
  decided (compareEncodedIDBKeys fuel (encodeIDBKey x ++ r) (encodeIDBKey y ++ s))
    (idb_compare x y) r s.
Proof.
  induction x as [|l IH|d|u|b|b|] using IDBKey_nested_ind; intros y fuel r s Hx Hy Hf;
    (destruct fuel as [|fuel]; [lia|]); destruct y as [|k|e|v|c|c|];
    cbn [encodeIDBKey app compareEncodedIDBKeys];
    try (by apply decided_differ); try (by apply decided_Ok).
  all: rewrite <- ?app_assoc; cbn -[compareBinary compareStringWithLength compareDouble idb_compare
    le_bytes PutUvarint compareArrayLoop app decodeVarInt flat].
  all: rewrite ?PutUvarint_not_empty; cbn [orb].
  - apply wf_array in Hx as [Hl Hwl], Hy as [Hk Hwk].
    pose proof (len_nonneg l). pose proof (len_nonneg k).
    rewrite !decodeVarInt_Put by lia. cbn [wrap]. unfold mbind, res_bind.
    change (idb_compare (KArray l) (KArray k)) with (lex idb_compare l k).
    cbn [encodeIDBKey app length] in Hf. rewrite <- app_assoc, length_app in Hf.
    apply (decided_compareArrayLoop _ _ _ _ _ _ _ _ (length (flat_map encodeIDBKey l ++ r)));
      try lia; try done.
    rewrite Forall_forall in *. intros; apply IH; auto; lia.
  - by apply decided_compareBinary.
  - by apply decided_compareString.
  - by apply decided_compareDouble.
  - by apply decided_compareDouble.
Qed.

(** ** The order of keys is a total preorder *)

Definition antisym_at {A} (c : A → A → Z) (x : A) : Prop := ∀ y, c y x = - c x y.

(** Transitivity, with equality exactly when both steps are equalities *)
Definition trans3 (xy yz xz : Z) : Prop :=
  xy <= 0 → yz <= 0 → xz <= 0 ∧ (xz = 0 ↔ xy = 0 ∧ yz = 0).
Definition trans_at {A} (c : A → A → Z) (x : A) : Prop := ∀ y z,
  trans3 (c x y) (c y z) (c x z).

(** It is preserved by breaking ties with another comparison. *)
Lemma trans3_seq a b c a' b' c' :
  trans3 a b c → (a = 0 → b = 0 → trans3 a' b' c') →
  trans3 (if a =? 0 then a' else a) (if b =? 0 then b' else b) (if c =? 0 then c' else c).
Proof. unfold trans3. intros H H'. repeat case_if; lia. Qed.

Lemma cmpZ_trans_at x : trans_at cmpZ x.
Proof.
  intros y z. unfold trans3. pose proof (cmpZ_spec x y). pose proof (cmpZ_spec y z). pose proof (cmpZ_spec x z).
  lia.
Qed.

Lemma bytes_compare_trans_at x : trans_at bytes_compare x.
Proof.
  induction x as [|x l IH]; intros [|y k] [|z m]; cbn [bytes_compare]; try (unfold trans3; lia).
  specialize (IH k m). unfold trans3 in *.
  destruct (Z.compare_spec (byte_Z x) (byte_Z y)), (Z.compare_spec (byte_Z y) (byte_Z z)),
    (Z.compare_spec (byte_Z x) (byte_Z z)); lia.
Qed.

Lemma cmpFloat_trans_at x : trans_at cmpFloat x.
Proof.
  intros y z. unfold cmpFloat.
  destruct (float_nan x), (float_nan y), (float_nan z); try (unfold trans3; lia). apply cmpZ_trans_at.
Qed.

Lemma lex_antisym {A} (c : A → A → Z) l : Forall (antisym_at c) l → antisym_at (lex c) l.
Proof.
  induction 1 as [|x l Hx Hl IH]; intros [|y k]; cbn [lex]; try done.
  rewrite (Hx y), (IH k). repeat case_if; lia.
Qed.

Lemma lex_trans {A} (c : A → A → Z) l : Forall (trans_at c) l → trans_at (lex c) l.
Proof.
  induction 1 as [|x l Hx Hl IH]; intros [|y k] [|z m]; cbn [lex]; try (unfold trans3; lia).
  apply trans3_seq; [apply Hx|]. intros; apply IH.
Qed.

Lemma idb_compare_antisym x : antisym_at idb_compare x.
Proof.
  induction x as [|l IH|d|u|b|b|] using IDBKey_nested_ind; intros [|k|e|v|c|c|]; try done;
    cbn [idb_compare]; auto using bytes_compare_antisym, cmpFloat_antisym.
  by apply lex_antisym.
Qed.

Lemma idb_compare_rank x y :
  key_rank x ≠ key_rank y → idb_compare x y = cmpZ (key_rank x) (key_rank y).
Proof. by destruct x, y. Qed.

Lemma idb_compare_le_rank x y : idb_compare x y <= 0 → key_rank x <= key_rank y.
Proof.
  destruct (decide (key_rank x = key_rank y)); [lia|]. rewrite idb_compare_rank by done.
  pose proof (cmpZ_spec (key_rank x) (key_rank y)). lia.
Qed.

Lemma idb_compare_trans x : trans_at idb_compare x.
Proof.
  revert x. assert (Hstep : ∀ x, (∀ l, x = KArray l → Forall (trans_at idb_compare) l) →
    trans_at idb_compare x); [|by induction x using IDBKey_nested_ind; apply Hstep; intros; simplify_eq].
  intros x Harr y z Hxy Hyz.
  pose proof (idb_compare_le_rank _ _ Hxy). pose proof (idb_compare_le_rank _ _ Hyz).
  destruct (decide (key_rank x = key_rank z)) as [E|E].
  - assert (Ey : key_rank x = key_rank y) by lia.
    destruct x as [|l|d|u|b|b|];
      (destruct y as [|k|e|v|c|c|]; try discriminate Ey);
      (destruct z as [|m|f|w|e'|e'|]; try discriminate E); cbn [idb_compare] in *;
      try done; revert Hxy Hyz;
      [| apply bytes_compare_trans_at | apply bytes_compare_trans_at
       | apply cmpFloat_trans_at | apply cmpFloat_trans_at].
    by apply lex_trans, Harr.
  - rewrite (idb_compare_rank x z) by done. pose proof (cmpZ_spec (key_rank x) (key_rank z)).
    split; [lia|]. split; [lia|]. intros [E1 E2].
    pose proof (idb_compare_le_rank y x). pose proof (idb_compare_le_rank z y).
    rewrite (idb_compare_antisym x y), (idb_compare_antisym y z) in *. lia.
Qed.

(** ** Whole keys *)

(** The number of bytes of an id: the least that hold it *)
Fixpoint nbytes_loop (k : nat) (z : Z) : nat :=
  match k with
  | O => 1
  | S k' => if z <? 256 then 1 else S (nbytes_loop k' (z / 256))
  end.
Definition nbytes (z : Z) : nat := nbytes_loop 7 z.

Definition encodeKeyPrefix (p : keyPrefix) : bytes :=
  let wd := nbytes (DatabaseId p) in
  let wo := nbytes (ObjectStoreId p) in
  let wi := nbytes (IndexId p) in
  Z_byte ((Z.of_nat wd - 1) * 32 + (Z.of_nat wo - 1) * 4 + (Z.of_nat wi - 1)) ::
    le_bytes wd (DatabaseId p) ++ le_bytes wo (ObjectStoreId p) ++ le_bytes wi (IndexId p).

(** The ids Chromium writes: database and object store ids below 2^63, index ids below 2^32 *)
Definition wf_prefix (p : keyPrefix) : Prop :=
  0 <= DatabaseId p < two63 ∧ 0 <= ObjectStoreId p < two63 ∧ 0 <= IndexId p < 2 ^ 32.

(** The keys of an object store: its records, exists and blob entries ([DataKey]), and its
    index entries, which hold the index key, a sequence number and the primary key *)
Inductive dbKey : Type :=
| DataKey (p : keyPrefix) (k : IDBKey)
| IndexKey (p : keyPrefix) (k : IDBKey) (seq : Z) (primary : IDBKey).

Definition key_prefix (x : dbKey) : keyPrefix :=
  match x with DataKey p _ | IndexKey p _ _ _ => p end.

Definition encode_dbKey (x : dbKey) : bytes :=
  match x with
  | DataKey p k => encodeKeyPrefix p ++ encodeIDBKey k
  | IndexKey p k seq primary =>
      encodeKeyPrefix p ++ encodeIDBKey k ++ PutUvarint seq ++ encodeIDBKey primary
  end.

Definition wf_dbKey (x : dbKey) : Prop :=
  wf_prefix (key_prefix x) ∧
  match x with
  | DataKey p k =>
      (Type_ p = objectStoreData ∨ Type_ p = existsEntry ∨ Type_ p = blobEntry) ∧ wf_key k
  | IndexKey p k seq primary =>
      Type_ p = indexData ∧ wf_key k ∧ 0 <= seq < two63 ∧ wf_key primary
  end.

(** First the prefix, then the key, then (index entries) primary key and sequence number *)
Definition db_compare (x y : dbKey) : Z :=
  if compareKeyPrefix (key_prefix x) (key_prefix y) =? 0 then
    match x, y with
    | DataKey _ k, DataKey _ l => idb_compare k l
    | IndexKey _ k m pk, IndexKey _ l n pl =>
        if idb_compare k l =? 0 then
          if idb_compare pk pl =? 0 then cmpZ m n else idb_compare pk pl
        else idb_compare k l
    | DataKey _ _, IndexKey _ _ _ _ => -1
    | IndexKey _ _ _ _, DataKey _ _ => 1
    end
  else compareKeyPrefix (key_prefix x) (key_prefix y).

Lemma nbytes_loop_spec k z :
  0 <= z < 256 ^ Z.of_nat (S k) →
  (1 <= nbytes_loop k z <= S k)%nat ∧ z < 256 ^ Z.of_nat (nbytes_loop k z).
Proof.
  revert z; induction k as [|k IH]; intros z Hz; cbn [nbytes_loop];
    [split; [lia|apply Hz]|].
  case_if; [split; [lia|done]|]. rewrite Nat2Z.inj_succ, Z.pow_succ_r in Hz by lia.
  destruct (IH (z / 256)) as [Hn Hlt].
  { split; [apply Z.div_pos; lia|apply Z.div_lt_upper_bound; lia]. }
  split; [lia|]. rewrite Nat2Z.inj_succ, Z.pow_succ_r by lia.
  pose proof (Z.div_mod z 256 ltac:(lia)). pose proof (Z.mod_pos_bound z 256 ltac:(lia)). lia.
Qed.

Lemma nbytes_loop_le k n z :
  (1 <= n)%nat → 0 <= z < 256 ^ Z.of_nat n → (nbytes_loop k z <= n)%nat.
Proof.
  revert n z; induction k as [|k IH]; intros n z Hn Hz; cbn [nbytes_loop]; [done|].
  case_if; [done|]. destruct n as [|[|n]]; [lia|change (256 ^ Z.of_nat 1) with 256 in Hz; lia|].
  rewrite Nat2Z.inj_succ, Z.pow_succ_r in Hz by lia. apply le_n_S, IH; [lia|].
  split; [apply Z.div_pos; lia|apply Z.div_lt_upper_bound; lia].
Qed.

Lemma nbytes_id z : 0 <= z < two63 → (1 <= nbytes z <= 8)%nat ∧ z < 256 ^ Z.of_nat (nbytes z).
Proof.
  intros Hz. apply nbytes_loop_spec. change (256 ^ Z.of_nat 8) with two64.
  assert (two63 < two64) by done. lia.
Qed.

Lemma decodeInt_loop_value i v a :
  0 <= i → i + len a <= 8 → 0 <= v < 2 ^ (8 * i) →
  decodeInt_loop i v a = v + le_value a * 2 ^ (8 * i).
Proof.
  revert i v; induction a as [|b a IH]; intros i v Hi Hl Hv; cbn [decodeInt_loop le_value]; [lia|].
  rewrite len_cons in Hl. pose proof (len_nonneg a). pose proof (byte_Z_range b).
  assert (E : 2 ^ (8 * (i + 1)) = 256 * 2 ^ (8 * i)).
  { replace (8 * (i + 1)) with (8 + 8 * i) by lia. by rewrite Z.pow_add_r by lia. }
  assert (2 ^ (8 * (i + 1)) <= two64) by (apply Z.pow_le_mono_r; lia).
  pose proof (Z.pow_pos_nonneg 2 (8 * i) ltac:(lia) ltac:(lia)).
  rewrite digit_step by nia. rewrite IH by nia. rewrite E. ring.
Qed.

Lemma decodeInt_bytes n z :
  (1 <= n <= 8)%nat → 0 <= z < two63 → z < 256 ^ Z.of_nat n → decodeInt (le_bytes n z) = Ok z.
Proof.
  intros Hn Hz Hb. assert (L : len (le_bytes n z) = Z.of_nat n)
    by (unfold len; by rewrite length_le_bytes).
  unfold decodeInt. rewrite is_empty_len, L.
  assert (((Z.of_nat n =? 0) || (8 <? Z.of_nat n))%bool = false) as ->.
  { apply orb_false_intro; [apply Z.eqb_neq|apply Z.ltb_ge]; lia. }
  rewrite decodeInt_loop_value by (rewrite ?L; lia).
  rewrite le_value_bytes by lia. change (2 ^ (8 * 0)) with 1. f_equal.
  rewrite to_int64_small; lia.
Qed.

(** The three length fields of the first byte *)
Lemma prefix_byte wd wo wi :
  (1 <= wd <= 8)%nat → (1 <= wo <= 8)%nat → (1 <= wi <= 4)%nat →
  let b := byte_Z (Z_byte ((Z.of_nat wd - 1) * 32 + (Z.of_nat wo - 1) * 4 + (Z.of_nat wi - 1))) in
  Z.land (Z.shiftr b 5) 7 + 1 = Z.of_nat wd ∧
  Z.land (Z.shiftr b 2) 7 + 1 = Z.of_nat wo ∧
  Z.land b 3 + 1 = Z.of_nat wi.
Proof.
  intros Hd Ho Hi b. subst b. rewrite byte_Z_byte, Z.mod_small by lia.
  rewrite !Z.shiftr_div_pow2 by lia. change (2 ^ 5) with 32. change (2 ^ 2) with 4.
  assert (E7 : ∀ z, Z.land z 7 = z mod 8) by (intros; apply (land_ones_mod z 3); lia).
  assert (E3 : ∀ z, Z.land z 3 = z mod 4) by (intros; apply (land_ones_mod z 2); lia).
  rewrite !E7, E3. Z.to_euclidean_division_equations. lia.
Qed.

Lemma decodeKeyPrefix_encode p r :
  wf_prefix p → decodeKeyPrefix (encodeKeyPrefix p ++ r) = Ok (r, p).
Proof.
  destruct p as [d o i]; unfold wf_prefix; cbn [DatabaseId ObjectStoreId IndexId].
  intros (Hd & Ho & Hi). assert (2 ^ 32 < two63) by done.
  destruct (nbytes_id d Hd) as [Hwd ?], (nbytes_id o Ho) as [Hwo ?].
  destruct (nbytes_id i) as [Hwi ?]; [lia|].
  assert (nbytes i <= 4)%nat by (apply nbytes_loop_le; [lia|exact Hi]).
  unfold encodeKeyPrefix; cbn [DatabaseId ObjectStoreId IndexId app].
  set (wd := nbytes d) in *. set (wo := nbytes o) in *. set (wi := nbytes i) in *.
  destruct (prefix_byte wd wo wi) as (Ed & Eo & Ei); try lia.
  unfold decodeKeyPrefix. rewrite Ed, Eo, Ei. rewrite <- !app_assoc.
  assert (L : ∀ n z, len (le_bytes n z) = Z.of_nat n)
    by (intros; unfold len; by rewrite length_le_bytes).
  rewrite !len_app, !L. pose proof (len_nonneg r). case_if; [lia|].
  assert (St : ∀ n z t, slice_to (le_bytes n z ++ t) (Z.of_nat n) = Ok (le_bytes n z))
    by (intros n z t; rewrite <- (slice_to_app (le_bytes n z) t); by rewrite L).
  assert (Sf : ∀ n z t, slice_from (le_bytes n z ++ t) (Z.of_nat n) = Ok t)
    by (intros n z t; rewrite <- (slice_from_app (le_bytes n z) t); by rewrite L).
  (* the last field is followed by nothing but the rest of the key *)
  unfold mbind, res_bind.
  repeat first [rewrite St | rewrite Sf | rewrite decodeInt_bytes by lia | progress cbn [wrap]].
  done.
Qed.

(** [Compare] on two well-formed keys is the abstract comparison. *)
Lemma decided_compareKeys x y r s :
  wf_key x → wf_key y →
  decided (compareKeys (encodeIDBKey x ++ r) (encodeIDBKey y ++ s)) (idb_compare x y) r s.
Proof. intros. apply decided_compareEncodedIDBKeys; [done..|lia]. Qed.

Lemma compareObjectStoreData_encode x y :
  wf_key x → wf_key y →
  compareObjectStoreData (encodeIDBKey x) (encodeIDBKey y) = Ok (idb_compare x y).
Proof.
  intros Hx Hy. destruct (decided_compareKeys x y [] [] Hx Hy) as (r & s & E & _).
  rewrite !app_nil_r in E. unfold compareObjectStoreData. by rewrite E.
Qed.

Lemma compareIndexData_encode k m pk l n pl :
  wf_key k → wf_key l → wf_key pk → wf_key pl → 0 <= m < two63 → 0 <= n < two63 →
  compareIndexData (encodeIDBKey k ++ PutUvarint m ++ encodeIDBKey pk)
    (encodeIDBKey l ++ PutUvarint n ++ encodeIDBKey pl) =
  Ok (if idb_compare k l =? 0 then
        if idb_compare pk pl =? 0 then cmpZ m n else idb_compare pk pl
      else idb_compare k l).
Proof.
  intros Hk Hl Hpk Hpl Hm Hn. unfold compareIndexData.
  destruct (decided_compareKeys k l (PutUvarint m ++ encodeIDBKey pk)
    (PutUvarint n ++ encodeIDBKey pl)) as (r & s & E & Hrs); try done.
  rewrite E. unfold mbind at 1, res_bind at 1, orElse.
  destruct (idb_compare k l =? 0) eqn:E0; zbool; cbn [negb]; [|done].
  destruct (Hrs ltac:(done)) as [-> ->]. unfold sequenceNumber.
  rewrite !PutUvarint_not_empty, !decodeVarInt_Put by done.
  unfold mbind, res_bind, nonEmpty. rewrite <- (app_nil_r (encodeIDBKey pk)),
    <- (app_nil_r (encodeIDBKey pl)), !encode_not_empty. cbn [orb].
  destruct (decided_compareKeys pk pl [] []) as (r' & s' & E' & _); try done.
  rewrite E'. by destruct (idb_compare pk pl =? 0).
Qed.

Lemma Compare_encode x y :
  wf_dbKey x → wf_dbKey y →
  Compare (encode_dbKey x) (encode_dbKey y) = Ok (db_compare x y).
Proof.
  intros [Hpx Hx] [Hpy Hy]. unfold Compare, compareLogged, db_compare.
  assert (E : ∀ z, wf_prefix (key_prefix z) → decodeKeyPrefix (encode_dbKey z) = Ok
    (match z with DataKey _ k => encodeIDBKey k
     | IndexKey _ k m pk => encodeIDBKey k ++ PutUvarint m ++ encodeIDBKey pk end, key_prefix z)).
  { by intros [p k|p k m pk] Hp; cbn [encode_dbKey]; rewrite decodeKeyPrefix_encode. }
  rewrite !E by done. unfold mbind at 1 2, res_bind at 1 2, orElse.
  destruct (compareKeyPrefix (key_prefix x) (key_prefix y) =? 0) eqn:Ep; zbool; cbn [negb]; [|done].
  apply compareKeyPrefix_eq in Ep. rewrite Ep in *.
  destruct x as [p k|p k m pk], y as [q l|q l n pl]; cbn [key_prefix] in *; subst.
  - destruct Hx as [Ht Hk], Hy as [_ Hl].
    assert (((Type_ q =? objectStoreData) || (Type_ q =? existsEntry) || (Type_ q =? blobEntry))%bool
      = true) as -> by (destruct Ht as [->|[->| ->]]; done).
    assert ((Type_ q =? globalMetadata) = false) as -> by (destruct Ht as [->|[->| ->]]; done).
    assert ((Type_ q =? databaseMetadata) = false) as -> by (destruct Ht as [->|[->| ->]]; done).
    by rewrite compareObjectStoreData_encode.
  - destruct Hx as [Ht _], Hy as [Ht' _]. rewrite Ht' in Ht. by destruct Ht as [?|[?|?]].
  - destruct Hx as [Ht' _], Hy as [Ht _]. rewrite Ht' in Ht. by destruct Ht as [?|[?|?]].
  - destruct Hx as (Ht & Hk & Hm & Hpk), Hy as (_ & Hl & Hn & Hpl). 
    rewrite compareIndexData_encode by done. by rewrite Ht.
Qed.

(** C13: On well-formed keys [Compare] is the lexicographic order Chromium documents: database,
    object store and index ids, then the user key (by type, then arrays element by element,
    strings and binaries bytewise, dates and numbers in the IEEE order), then for index entries
    the primary key and the sequence number. *)
Theorem Compare_refines x y :
  wf_dbKey x → wf_dbKey y →
  Compare (encode_dbKey x) (encode_dbKey y) = Ok (db_compare x y).
Proof. apply Compare_encode. Qed.

Definition key_a : dbKey := DataKey (KeyPrefix 1 2 1) (KArray [KNumber 4607182418800017408; KString [(x00, x61)]]).
Definition key_b : dbKey := DataKey (KeyPrefix 1 2 1) (KArray [KNumber 4607182418800017408; KBinary [x01]]).

Lemma Compare_refines_witness :
  Compare (encode_dbKey key_a) (encode_dbKey key_b) = Ok 1.
Proof.
  apply (Compare_refines key_a key_b); unfold wf_dbKey, wf_prefix; cbn; unfold two63, two64;
    intuition (vm_compute; congruence).
Defined.

Lemma compareKeyPrefix_lex p q : compareKeyPrefix p q =
  if cmpZ (DatabaseId p) (DatabaseId q) =? 0 then
    if cmpZ (ObjectStoreId p) (ObjectStoreId q) =? 0 then cmpZ (IndexId p) (IndexId q)
    else cmpZ (ObjectStoreId p) (ObjectStoreId q)
  else cmpZ (DatabaseId p) (DatabaseId q).
Proof. unfold compareKeyPrefix. repeat case_if; lia. Qed.

Lemma compareKeyPrefix_trans p : trans_at compareKeyPrefix p.
Proof.
  intros q s. rewrite !compareKeyPrefix_lex.
  apply trans3_seq; [apply cmpZ_trans_at|]. intros _ _.
  apply trans3_seq; [apply cmpZ_trans_at|]. intros _ _. apply cmpZ_trans_at.
Qed.

Lemma db_compare_antisym x : antisym_at db_compare x.
Proof.
  intros y. unfold db_compare. rewrite (compareKeyPrefix_antisym (key_prefix x)).
  destruct x as [p k|p k m pk], y as [q l|q l n pl]; cbn [key_prefix];
    rewrite ?(idb_compare_antisym k l), ?(idb_compare_antisym pk pl), ?(cmpZ_antisym m n);
    repeat case_if; lia.
Qed.

Lemma db_compare_trans x : trans_at db_compare x.
Proof.
  intros y z. apply trans3_seq; [apply compareKeyPrefix_trans|]. intros _ _.
  destruct x as [p k|p k m pk], y as [q l|q l n pl], z as [s j|s j o pj];
    try (unfold trans3; lia); try apply idb_compare_trans.
  apply trans3_seq; [apply idb_compare_trans|]. intros _ _.
  apply trans3_seq; [apply idb_compare_trans|]. intros _ _. apply cmpZ_trans_at.
Qed.

(** On well-formed keys [Compare] is a total preorder, as LevelDB requires of a comparator:
    reflexive, total and transitive. *)
Theorem Compare_preorder x y z :
  let le a b := ∃ r, Compare (encode_dbKey a) (encode_dbKey b) = Ok r ∧ r <= 0 in
  wf_dbKey x → wf_dbKey y → wf_dbKey z →
  le x x ∧ (le x y ∨ le y x) ∧ (le x y → le y z → le x z).
Proof.
  intros le Hx Hy Hz. assert (Hle : ∀ a b, wf_dbKey a → wf_dbKey b → le a b ↔ db_compare a b <= 0).
  { intros a b Ha Hb. unfold le. rewrite Compare_encode by done. split; [|by eauto].
    intros (r & E & ?). by simplify_eq. }
  rewrite !Hle by done. pose proof (db_compare_antisym x x). pose proof (db_compare_antisym x y).
  pose proof (db_compare_trans x y z) as Ht. unfold trans3 in Ht. lia.
Qed.

Lemma Compare_preorder_witness :
  ∃ r, Compare (encode_dbKey key_b) (encode_dbKey key_a) = Ok r ∧ r <= 0.
Proof.
  destruct (Compare_preorder key_a key_b key_a) as (_ & H & _);
    try (unfold wf_dbKey, wf_prefix; cbn; unfold two63, two64; intuition (vm_compute; congruence)).
  destruct H as [(r & E & Hr)|H]; [|exact H].
  exfalso. vm_compute in E. injection E as <-. by destruct Hr.
Defined.
