(* ===== verification/SendBuffer.v ===== *)
(** * pkg/sendbuffer: the buffer of logs waiting to be shipped

    [SendBuffer] holds log lines up to a storage limit; a ticker sends a prefix of them and
    deletes what was sent.  Writers and the sender run concurrently: every operation here is
    one critical section of [writeMutex], and [sendAndPurge], which gives the lock up while
    it waits for the network, is two ([beginSend] and [endSend]). *)
From S2P Require Import Prelude.

Module SendBuffer.

(** ** State *)
Definition defaultMaxSizeBytes : Z := 1024 * 1024.
Definition defaultSendSizeBytes : Z := 512 * 1024.
Definition maxWriteBytes : Z := 8 * 1024.
Definition defaultMaxDrainSends : Z := 5.

Record t := SB {
  logs : list bytes;
  size : Z;
  sendLocked : bool;          (* sendMutex is held *)
  isSending : bool;
  logsJustPurged : bool;
  maxStorageSizeBytes : Z;
  maxSendSizeBytes : Z;
  maxDrainSends : Z
}.

Definition with_logs (sb : t) (l : list bytes) (n : Z) : t :=
  SB l n (sendLocked sb) (isSending sb) (logsJustPurged sb)
    (maxStorageSizeBytes sb) (maxSendSizeBytes sb) (maxDrainSends sb).
Definition with_purged (sb : t) (p : bool) : t :=
  SB (logs sb) (size sb) (sendLocked sb) (isSending sb) p
    (maxStorageSizeBytes sb) (maxSendSizeBytes sb) (maxDrainSends sb).
Definition with_locked (sb : t) (l : bool) : t :=
  SB (logs sb) (size sb) l (isSending sb) (logsJustPurged sb)
    (maxStorageSizeBytes sb) (maxSendSizeBytes sb) (maxDrainSends sb).
Definition with_sending (sb : t) (s : bool) : t :=
  SB (logs sb) (size sb) (sendLocked sb) s (logsJustPurged sb)
    (maxStorageSizeBytes sb) (maxSendSizeBytes sb) (maxDrainSends sb).

(** The options that bear on the state *)
Inductive option_ : Type :=
| WithMaxStorageSizeBytes (maxSize : Z)
| WithMaxSendSizeBytes (sendSize : Z)
| WithMaxDrainSends (cnt : Z).

Definition apply_option (sb : t) (o : option_) : t :=
  match o with
  | WithMaxStorageSizeBytes n =>
      SB (logs sb) (size sb) (sendLocked sb) (isSending sb) (logsJustPurged sb)
        n (maxSendSizeBytes sb) (maxDrainSends sb)
  | WithMaxSendSizeBytes n =>
      SB (logs sb) (size sb) (sendLocked sb) (isSending sb) (logsJustPurged sb)
        (maxStorageSizeBytes sb) n (maxDrainSends sb)
  | WithMaxDrainSends n =>
      SB (logs sb) (size sb) (sendLocked sb) (isSending sb) (logsJustPurged sb)
        (maxStorageSizeBytes sb) (maxSendSizeBytes sb) n
  end.

Definition New (opts : list option_) : t :=
  foldl apply_option
    (SB [] 0 false false false defaultMaxSizeBytes defaultSendSizeBytes defaultMaxDrainSends) opts.

(** ** Operations *)

(** [for i := range toIndex { sizeDeleted += len(sb.logs[i]) }] *)
Fixpoint sum_lens (n : nat) (l : list bytes) : res Z :=
  match n, l with
  | O, _ => Ok 0
  | S _, [] => Panic
  | S n', x :: l' => s ← sum_lens n' l'; Ok (len x + s)
  end.

Definition deleteLogs (sb : t) (toIndex : Z) : res t :=
  sizeDeleted ← sum_lens (Z.to_nat toIndex) (logs sb);
  logs' ← slice_from (logs sb) toIndex;
  Ok (with_logs sb logs' (size sb - sizeDeleted)).

(** [Write] returns the number of bytes taken, always all of them *)
Definition Write (sb : t) (data : bytes) : res (t * Z) :=
  if len data =? 0 then Ok (sb, len data)
  else if maxWriteBytes <? len data then Ok (sb, len data)
  else if maxStorageSizeBytes sb <? len data + size sb then
    sb' ← deleteLogs sb (len (logs sb));
    Ok (with_purged sb' true, len data)
  else Ok (with_logs sb (logs sb ++ [data]) (size sb + len data), len data).

(** The first loop of [UpdateData] from index [i]: the update function [f] gives what it
    wrote, and whether it failed.  [idx] are the indexes marked for deletion. *)
Fixpoint UpdateData_loop (f : bytes → bytes * bool) (n : nat) (i : nat) (sb : t)
    (idx : list nat) : t * list nat :=
  match n with
  | O => (sb, idx)
  | S n' =>
      let old := nth i (logs sb) [] in
      match f old with
      | (_, false) => UpdateData_loop f n' (S i) sb idx
      | (out, true) =>
          let sb := with_logs sb (<[i := []]> (logs sb)) (size sb - len old) in
          let outLen := len out in
          if outLen =? 0 then UpdateData_loop f n' (S i) sb (idx ++ [i])
          else if maxSendSizeBytes sb <? outLen then UpdateData_loop f n' (S i) sb (idx ++ [i])
          else if maxStorageSizeBytes sb <? outLen + size sb then
            UpdateData_loop f n' (S i) sb (idx ++ [i])
          else
            UpdateData_loop f n' (S i)
              (with_logs sb (<[i := out]> (logs sb)) (size sb + outLen)) idx
      end
  end.

(** The second loop: the [j]-th deletion is shifted left by the [j] before it *)
Fixpoint delete_marked (j : nat) (idx : list nat) (l : list bytes) : list bytes :=
  match idx with
  | [] => l
  | i :: idx' =>
      let k := (i - j)%nat in
      delete_marked (S j) idx' (take k l ++ drop (S k) l)
  end.

Definition UpdateData (f : bytes → bytes * bool) (sb : t) : t :=
  let '(sb', idx) := UpdateData_loop f (length (logs sb)) 0 sb [] in
  with_logs sb' (delete_marked 0 idx (logs sb')) (size sb').

Definition DeleteAllData (sb : t) : t := with_logs sb [] 0.

(** [copyLogs]: what is written out, and the number of logs copied *)
Fixpoint copyLogs_loop (maxSizeBytes sz lastLogIndex : Z) (l : list bytes) : bytes * Z :=
  match l with
  | [] => ([], lastLogIndex)
  | x :: l' =>
      if maxSizeBytes <? len x + sz then ([], lastLogIndex)
      else
        let '(w, k) := copyLogs_loop maxSizeBytes (sz + len x) (lastLogIndex + 1) l' in
        (x ++ w, k)
  end.

Definition copyLogs (sb : t) (maxSizeBytes : Z) : bytes * Z :=
  copyLogs_loop maxSizeBytes 0 0 (logs sb).

(** [sendAndPurge] up to the call of [sender.Send]: either it returns at once (nothing sent),
    or it holds the send lock and hands the payload over, remembering [lastKey]. *)
Inductive begun : Type :=
| Return (cnt : Z)
| Sending (payload : bytes) (lastKey : Z).

Definition beginSend (sb : t) : t * begun :=
  if sendLocked sb then (sb, Return 0)
  else
    let '(toSendBuff, lastKey) := copyLogs sb (maxSendSizeBytes sb) in
    if len toSendBuff =? 0 then (sb, Return 0)
    else (with_locked sb true, Sending toSendBuff lastKey).

(** [sendAndPurge] after [sender.Send] returned [sendErr] *)
Definition endSend (sb : t) (lastKey : Z) (sendErr : option err) : res (t * (Z * option err)) :=
  let sb := with_locked sb false in
  match sendErr with
  | Some e => Ok (sb, (0, Some e))
  | None =>
      if logsJustPurged sb then Ok (with_purged sb false, (0, None))
      else
        sb' ← deleteLogs sb lastKey;
        Ok (sb', (lastKey, None))
  end.

(** [sendAndPurge] when nothing else runs while it waits for [send] *)
Definition sendAndPurge (send : bytes → option err) (sb : t) : res (t * (Z * option err)) :=
  match beginSend sb with
  | (sb, Return cnt) => Ok (sb, (cnt, None))
  | (sb, Sending payload lastKey) => endSend sb lastKey (send payload)
  end.

(** [Drain]; [send i] answers the [i]-th send, [done i] is [ctx.Err()] if the context
    is over when the [i]-th wait ends *)
Fixpoint Drain_loop (send : Z → bytes → option err) (done : Z → option err) (fuel : nat)
    (i linesRemaining : Z) (sb : t) : res (t * option err) :=
  let after i linesRemaining sb :=
    if maxDrainSends sb <=? i then
      Ok (sb, Some (Errorf "failed to drain sendbuffer after the maximum of %d sends"))
    else Ok (sb, None) in
  if (i <? maxDrainSends sb) && (0 <? linesRemaining) && (0 <? len (logs sb)) then
    match fuel with
    | O => NoFuel
    | S fuel' =>
        '(sb, (cnt, e)) ← sendAndPurge (send i) sb;
        let linesRemaining := linesRemaining - cnt in
        match e with
        | Some e => Ok (sb, Some (Wrapf "draining sendbuffer failed on send and purge: %w" e))
        | None =>
            if cnt =? 0 then Ok (sb, None)
            else if linesRemaining <=? 0 then Ok (sb, None)
            else
              match done i with
              | Some e => Ok (sb, Some e)
              | None => Drain_loop send done fuel' (i + 1) linesRemaining sb
              end
        end
    end
  else after i linesRemaining sb.

Definition Drain (send : Z → bytes → option err) (done : Z → option err) (sb : t) : res (t * option err) :=
  Drain_loop send done (Z.to_nat (maxDrainSends sb)) 0 (len (logs sb)) sb.

(** [Run]: one [sendAndPurge] per tick until the context is done; [ticks] is the number of
    ticks before that *)
Fixpoint Run_loop (send : nat → bytes → option err) (ticks : nat) (sb : t) : res t :=
  '(sb, _) ← sendAndPurge (send ticks) sb;
  match ticks with
  | O => Ok sb
  | S n => Run_loop send n sb
  end.

Definition Run (send : nat → bytes → option err) (ticks : nat) (sb : t) : res (t * option err) :=
  if isSending sb then Ok (sb, Some (Errorf "already running"))
  else
    sb ← Run_loop send ticks (with_sending sb true);
    Ok (with_sending sb false, None).

(** ** The concurrent system

    Interleavings of the critical sections: at most one send is in flight, with the payload
    and the number of logs it copied. *)
Record sys := Sys { buf : t; inflight : option (bytes * Z) }.

Inductive event : Type :=
| EWrite (data : bytes)
| EUpdate (f : bytes → bytes * bool)
| EDeleteAll
| EBegin
| EEnd (sendErr : option err).

Inductive step : sys → event → sys → Prop :=
| step_write sb fl data sb' n :
    Write sb data = Ok (sb', n) → step (Sys sb fl) (EWrite data) (Sys sb' fl)
| step_update sb fl f : step (Sys sb fl) (EUpdate f) (Sys (UpdateData f sb) fl)
| step_delete_all sb fl : step (Sys sb fl) EDeleteAll (Sys (DeleteAllData sb) fl)
| step_begin_return sb fl sb' n :
    beginSend sb = (sb', Return n) → step (Sys sb fl) EBegin (Sys sb' fl)
| step_begin_send sb fl sb' payload k :
    beginSend sb = (sb', Sending payload k) → step (Sys sb fl) EBegin (Sys sb' (Some (payload, k)))
| step_end sb payload k e sb' r :
    endSend sb k e = Ok (sb', r) → step (Sys sb (Some (payload, k))) (EEnd e) (Sys sb' None).

(** Runs in which only events accepted by [P] occur *)
Inductive run (P : event → Prop) : sys → sys → Prop :=
| run_refl s : run P s s
| run_step s1 s2 s3 e : run P s1 s2 → P e → step s2 e s3 → run P s1 s3.

(** What the log shipper does while a send may be in flight: it writes and sends *)
Definition shipping (e : event) : Prop :=
  match e with EWrite _ | EBegin | EEnd _ => True | EUpdate _ | EDeleteAll => False end.

(** Runs that also record what was accepted for shipping ([w], in order) and the payloads
    the sender confirmed ([d]); a write that overflows the buffer is not part of them. *)
Inductive ship_run : sys → list bytes → list bytes → sys → Prop :=
| ship_refl s : ship_run s [] [] s
| ship_write s w d sb fl data sb' n :
    ship_run s w d (Sys sb fl) →
    len data + size sb <= maxStorageSizeBytes sb →
    step (Sys sb fl) (EWrite data) (Sys sb' fl) → Write sb data = Ok (sb', n) →
    ship_run s (if (len data =? 0) || (maxWriteBytes <? len data) then w else w ++ [data]) d
      (Sys sb' fl)
| ship_begin s w d s1 s2 :
    ship_run s w d s1 → step s1 EBegin s2 → ship_run s w d s2
| ship_failed s w d s1 e s2 :
    ship_run s w d s1 → step s1 (EEnd (Some e)) s2 → ship_run s w d s2
| ship_sent s w d sb payload k s2 :
    ship_run s w d (Sys sb (Some (payload, k))) →
    step (Sys sb (Some (payload, k))) (EEnd None) s2 →
    ship_run s w (d ++ [payload]) s2.

(** ** Specifications *)
Fixpoint total (l : list bytes) : Z := match l with [] => 0 | x :: l' => len x + total l' end.

(** The well-formed buffers: the size is that of the stored logs, and within the limit *)
Record wf (sb : t) : Prop := {
  wf_size : size sb = total (logs sb);
  wf_bound : size sb <= maxStorageSizeBytes sb;
  wf_nonempty : Forall (λ x, 0 < len x) (logs sb)
}.

(** [UpdateData] as a function on the list of logs: the kept and updated logs, and the size *)
Fixpoint update_spec (f : bytes → bytes * bool) (maxSend maxStorage : Z) (l : list bytes) (n : Z)
    : list bytes * Z :=
  match l with
  | [] => ([], n)
  | x :: l' =>
      match f x with
      | (_, false) => let '(k, m) := update_spec f maxSend maxStorage l' n in (x :: k, m)
      | (out, true) =>
          let n := n - len x in
          if (len out =? 0) || (maxSend <? len out) || (maxStorage <? len out + n)
          then update_spec f maxSend maxStorage l' n
          else let '(k, m) := update_spec f maxSend maxStorage l' (n + len out) in (out :: k, m)
      end
  end.

(** ** Basic facts *)
Lemma total_app l k : total (l ++ k) = total l + total k.
Proof. induction l; cbn [total app]; lia. Qed.

Lemma total_nonneg l : 0 <= total l.
Proof. induction l; cbn [total]; [lia|]. pose proof (len_nonneg a). lia. Qed.

Lemma total_concat l : total l = len (concat l).
Proof. induction l as [|x l IH]; cbn [total concat]; [done|]. rewrite len_app. lia. Qed.

Lemma sum_lens_take n l : (n <= length l)%nat → sum_lens n l = Ok (total (take n l)).
Proof.
  revert l; induction n as [|n IH]; intros [|x l] Hn; cbn [sum_lens take total length] in *;
    try done; try lia. by rewrite IH by lia.
Qed.

Lemma deleteLogs_Ok sb k :
  0 <= k <= len (logs sb) →
  deleteLogs sb k = Ok (with_logs sb (drop (Z.to_nat k) (logs sb))
    (size sb - total (take (Z.to_nat k) (logs sb)))).
Proof.
  intros Hk. unfold deleteLogs. rewrite sum_lens_take by (unfold len in Hk; lia).
  by rewrite slice_from_Ok.
Qed.

Lemma deleteLogs_out_of_range sb k : len (logs sb) < k → deleteLogs sb k = Panic.
Proof.
  intros Hk. unfold deleteLogs. assert (H : ∀ n l, (length l < n)%nat → sum_lens n l = Panic).
  { induction n as [|n IH]; intros [|x l] Hl; cbn [sum_lens length] in *; try done; try lia.
    by rewrite IH by lia. }
  rewrite H; [done|]. unfold len in Hk. lia.
Qed.

Lemma with_logs_same sb : with_logs sb (logs sb) (size sb) = sb.
Proof. by destruct sb. Qed.

(** [copyLogs] copies the longest prefix whose size is within the limit. *)
Lemma copyLogs_loop_spec m sz k l :
  ∃ n, (n <= length l)%nat ∧
    copyLogs_loop m sz k l = (concat (take n l), k + Z.of_nat n) ∧
    (n ≠ 0%nat → sz + total (take n l) <= m) ∧
    (∀ x, l !! n = Some x → m < sz + total (take n l) + len x).
Proof.
  revert sz k; induction l as [|x l IH]; intros sz k; cbn [copyLogs_loop].
  { exists 0%nat. split_and!; try done. by rewrite Z.add_0_r. }
  case_if.
  { exists 0%nat. split_and!; [lia|by rewrite Z.add_0_r|done|].
    intros y [= <-]. cbn [take total]. lia. }
  destruct (IH (sz + len x) (k + 1)) as (n & Hn & E & Hfit & Hmax). rewrite E.
  exists (S n). cbn [length take concat total]. split_and!; [lia| | |].
  - by replace (k + 1 + Z.of_nat n) with (k + Z.of_nat (S n)) by lia.
  - intros _. destruct (decide (n = 0%nat)) as [->|Hne]; [rewrite take_0; cbn [total]; lia|].
    specialize (Hfit Hne). lia.
  - intros y Hy. specialize (Hmax y Hy). lia.
Qed.

Lemma copyLogs_spec sb m :
  ∃ n, (n <= length (logs sb))%nat ∧
    copyLogs sb m = (concat (take n (logs sb)), Z.of_nat n) ∧
    (n ≠ 0%nat → total (take n (logs sb)) <= m) ∧
    (∀ x, logs sb !! n = Some x → m < total (take n (logs sb)) + len x).
Proof. apply copyLogs_loop_spec. Qed.

(** ** UpdateData is its specification *)

(** Positions of the marked elements of a tagged list, counted from [p] *)
Fixpoint positions (p : nat) (ts : list (bool * bytes)) : list nat :=
  match ts with
  | [] => []
  | (true, _) :: ts' => p :: positions (S p) ts'
  | (false, _) :: ts' => positions (S p) ts'
  end.

Fixpoint unmarked (ts : list (bool * bytes)) : list bytes :=
  match ts with
  | [] => []
  | (true, _) :: ts' => unmarked ts'
  | (false, x) :: ts' => x :: unmarked ts'
  end.

Lemma delete_marked_spec ts : ∀ j k,
  delete_marked j (positions (j + length k) ts) (k ++ map snd ts) = k ++ unmarked ts.
Proof.
  induction ts as [|[[] x] ts IH]; intros j k; cbn [positions map snd unmarked delete_marked].
  - done.
  - replace (j + length k - j)%nat with (length k) by lia.
    rewrite take_app_length. replace (S (length k)) with (length k + 1)%nat by lia.
    rewrite drop_app_add. cbn [drop]. apply (IH (S j) k).
  - specialize (IH j (k ++ [x])). rewrite length_app, <- !app_assoc in IH. cbn in IH.
    by replace (S (j + length k)) with (j + (length k + 1))%nat by lia.
Qed.

Lemma positions_app p ts us : positions p (ts ++ us) = positions p ts ++ positions (p + length ts) us.
Proof.
  revert p; induction ts as [|[[] x] ts IH]; intros p; cbn [app positions length].
  - by rewrite Nat.add_0_r.
  - rewrite IH. by replace (S p + length ts)%nat with (p + S (length ts))%nat by lia.
  - rewrite IH. by replace (S p + length ts)%nat with (p + S (length ts))%nat by lia.
Qed.

Lemma unmarked_app ts us : unmarked (ts ++ us) = unmarked ts ++ unmarked us.
Proof. induction ts as [|[[] x] ts IH]; cbn; congruence. Qed.

Lemma UpdateData_loop_spec f suf : ∀ sb ts,
  logs sb = map snd ts ++ suf →
  ∃ us m,
    UpdateData_loop f (length suf) (length ts) sb (positions 0 ts) =
      (with_logs sb (map snd (ts ++ us)) m, positions 0 (ts ++ us)) ∧
    update_spec f (maxSendSizeBytes sb) (maxStorageSizeBytes sb) suf (size sb) = (unmarked us, m).
Proof.
  induction suf as [|x suf IH]; intros sb ts Hl; cbn [length UpdateData_loop update_spec].
  { exists [], (size sb). rewrite !app_nil_r in *. rewrite <- Hl. by rewrite with_logs_same. }
  assert (Hn : nth (length ts) (logs sb) [] = x).
  { rewrite Hl, app_nth2 by (rewrite length_map; lia).
    rewrite length_map. by rewrite Nat.sub_diag. }
  rewrite Hn. assert (Hins : ∀ y, <[length ts := y]> (logs sb) = map snd ts ++ y :: suf).
  { intros y. rewrite Hl, <- (length_map snd ts), <- (Nat.add_0_r (length _)). by rewrite insert_app_r. }
  (* processing [x] appends the tag [b] and the value [y] to what is done *)
  assert (Hgo : ∀ b y sb', logs sb' = map snd ts ++ y :: suf →
    maxSendSizeBytes sb' = maxSendSizeBytes sb → maxStorageSizeBytes sb' = maxStorageSizeBytes sb →
    (∀ l n, with_logs sb' l n = with_logs sb l n) →
    ∃ us m, UpdateData_loop f (length suf) (S (length ts)) sb' (positions 0 (ts ++ [(b, y)])) =
        (with_logs sb (map snd (ts ++ (b, y) :: us)) m, positions 0 (ts ++ (b, y) :: us)) ∧
      update_spec f (maxSendSizeBytes sb) (maxStorageSizeBytes sb) suf (size sb') = (unmarked us, m)).
  { intros b y sb' Hl' <- <- Hw. destruct (IH sb' (ts ++ [(b, y)])) as (us & m & E & Es).
    { rewrite Hl', map_app, <- app_assoc. done. }
    exists us, m. rewrite <- Hw. rewrite length_app, Nat.add_1_r, <- app_assoc in E. done. }
  assert (Hpt : ∀ y, positions 0 (ts ++ [(true, y)]) = positions 0 ts ++ [length ts]).
  { intros y. by rewrite positions_app. }
  assert (Hpf : ∀ y, positions 0 (ts ++ [(false, y)]) = positions 0 ts).
  { intros y. rewrite positions_app. apply app_nil_r. }
  destruct (f x) as [out []].
  - set (sb1 := with_logs sb (<[length ts := []]> (logs sb)) (size sb - len x)).
    assert (Hdrop : ∃ us m, UpdateData_loop f (length suf) (S (length ts)) sb1 (positions 0 ts ++ [length ts]) =
        (with_logs sb (map snd (ts ++ us)) m, positions 0 (ts ++ us)) ∧
      update_spec f (maxSendSizeBytes sb) (maxStorageSizeBytes sb) suf (size sb - len x) = (unmarked us, m)).
    { destruct (Hgo true [] sb1) as (us & m & E & Es); try done; [apply Hins|].
      rewrite Hpt in E. eexists _, _. split; [exact E|]. exact Es. }
    change (size sb1) with (size sb - len x). change (maxSendSizeBytes sb1) with (maxSendSizeBytes sb).
    change (maxStorageSizeBytes sb1) with (maxStorageSizeBytes sb).
    destruct (len out =? 0); [exact Hdrop|]. destruct (maxSendSizeBytes sb <? len out); [exact Hdrop|].
    destruct (maxStorageSizeBytes sb <? len out + (size sb - len x)); [exact Hdrop|]. cbn [orb].
    destruct (Hgo false out (with_logs sb1 (<[length ts := out]> (logs sb1)) (size sb - len x + len out)))
      as (us & m & E & Es); try done.
    { cbn [logs with_logs sb1]. rewrite list_insert_insert_eq. apply Hins. }
    rewrite Hpf in E. eexists _, _. split; [exact E|]. cbn [size with_logs] in Es. by rewrite Es.
  - destruct (Hgo false x sb) as (us & m & E & Es); try done. rewrite Hpf in E.
    eexists _, _. split; [exact E|]. by rewrite Es.
Qed.

(** [UpdateData], which edits the log slice in place and deletes by shifting indexes,
    computes its specification: logs whose update fails are kept as they are, the others are
    replaced or, when the result is empty, too large to send or overflows the buffer, dropped;
    the size follows. *)
Theorem UpdateData_refines f sb :
  let r := update_spec f (maxSendSizeBytes sb) (maxStorageSizeBytes sb) (logs sb) (size sb) in
  UpdateData f sb = with_logs sb r.1 r.2.
Proof.
  destruct (UpdateData_loop_spec f (logs sb) sb []) as (us & m & E & Es); [done|].
  unfold UpdateData. cbn [length positions app] in E. rewrite E. cbn zeta. rewrite Es.
  pose proof (delete_marked_spec us 0 []) as D. cbn [app length Nat.add] in D.
  cbn [fst snd logs with_logs size app]. by rewrite D.
Qed.

(** ** The well-formedness invariant *)
Lemma update_spec_wf f ms mx l : ∀ c n k m,
  n = c + total l → n <= mx → Forall (λ x, 0 < len x) l →
  update_spec f ms mx l n = (k, m) → m = c + total k ∧ m <= mx ∧ Forall (λ x, 0 < len x) k.
Proof.
  induction l as [|x l IH]; intros c n k m Hn Hmx Hf E; cbn [update_spec total] in *.
  { simplify_eq. cbn [total]. auto. }
  apply Forall_cons in Hf as [Hx Hf]. destruct (f x) as [out []].
  - case_if_in E.
    + eapply IH in E; try done; lia.
    + destruct (update_spec f ms mx l (n - len x + len out)) as [k' m'] eqn:E'. simplify_eq.
      apply (IH (c + len out)) in E' as (-> & Hm & Hk); try done; [|lia..].
      cbn [total]. split_and!; try done; [lia|]. constructor; [|done].
      pose proof (len_nonneg out). lia.
  - destruct (update_spec f ms mx l n) as [k' m'] eqn:E'. simplify_eq.
    apply (IH (c + len x)) in E' as (-> & Hm & Hk); try done; [|lia].
    cbn [total]. split_and!; [lia|done|by constructor].
Qed.

Lemma wf_New opts :
  0 <= maxStorageSizeBytes (New opts) → wf (New opts) ∧ sendLocked (New opts) = false ∧
    logsJustPurged (New opts) = false ∧ isSending (New opts) = false ∧ logs (New opts) = [].
Proof.
  assert (H : ∀ sb, logs sb = [] ∧ size sb = 0 ∧ sendLocked sb = false ∧ logsJustPurged sb = false
      ∧ isSending sb = false →
    let r := foldl apply_option sb opts in logs r = [] ∧ size r = 0 ∧ sendLocked r = false ∧
      logsJustPurged r = false ∧ isSending r = false).
  { induction opts as [|o opts IH]; intros sb Hsb; [done|]. apply IH. by destruct o. }
  intros Hm. destruct (H (SB [] 0 false false false defaultMaxSizeBytes defaultSendSizeBytes
    defaultMaxDrainSends)) as (Hl & Hs & Hk & Hp & Hi); [done|]. fold (New opts) in *.
  split_and!; try done. constructor; rewrite ?Hl, ?Hs; cbn [total]; auto.
Qed.

Lemma wf_drop sb k :
  wf sb → wf (with_logs sb (drop k (logs sb)) (size sb - total (take k (logs sb)))).
Proof.
  intros [Hs Hb Hf]. assert (E : total (logs sb) = total (take k (logs sb)) + total (drop k (logs sb))).
  { by rewrite <- total_app, take_drop. }
  pose proof (total_nonneg (take k (logs sb))).
  constructor; cbn [size logs with_logs maxStorageSizeBytes]; [lia|lia|by apply Forall_drop].
Qed.

(** Changing a flag does not matter to well-formedness. *)
Lemma wf_flags sb sb' :
  logs sb' = logs sb → size sb' = size sb → maxStorageSizeBytes sb' = maxStorageSizeBytes sb →
  wf sb → wf sb'.
Proof. intros El Es Em [Hs Hb Hf]. constructor; rewrite ?El, ?Es, ?Em; done. Qed.

Lemma Write_cases sb data :
  wf sb →
  ∃ sb', Write sb data = Ok (sb', len data) ∧ wf sb' ∧
    sendLocked sb' = sendLocked sb ∧
    ((len data = 0 ∨ maxWriteBytes < len data) ∧ sb' = sb ∨
     (0 < len data <= maxWriteBytes) ∧ maxStorageSizeBytes sb < len data + size sb ∧
       logs sb' = [] ∧ logsJustPurged sb' = true ∨
     (0 < len data <= maxWriteBytes) ∧ len data + size sb <= maxStorageSizeBytes sb ∧
       logs sb' = logs sb ++ [data] ∧ logsJustPurged sb' = logsJustPurged sb).
Proof.
  intros Hwf. pose proof (len_nonneg data) as Hd. unfold Write.
  repeat case_if; try (eexists; split; [done|]; split; [done|]; split; [done|]; left; split; [lia|done]).
  - rewrite deleteLogs_Ok by (pose proof (len_nonneg (logs sb)); lia).
    unfold mbind, res_bind. eexists; split; [done|]. split.
    { eapply wf_flags, wf_drop, Hwf; done. }
    split; [done|]. right; left. cbn [logs with_purged with_logs logsJustPurged].
    split_and!; try done; [lia|]. unfold len. rewrite Nat2Z.id. by rewrite drop_all.
  - destruct Hwf as [Hs Hb Hf]. eexists; split; [done|]. split.
    { constructor; cbn [size logs with_logs maxStorageSizeBytes];
        [rewrite total_app; cbn [total]; lia|lia|].
      apply Forall_app_2; [done|]. constructor; [lia|done]. }
    split; [done|]. right; right. cbn. split_and!; try done; lia.
Qed.

Lemma endSend_cases sb k e :
  wf sb →
  (e = None → logsJustPurged sb = false → 0 <= k <= len (logs sb)) →
  ∃ sb' r, endSend sb k e = Ok (sb', r) ∧ wf sb' ∧ sendLocked sb' = false ∧
    match e with
    | Some e => r = (0, Some e) ∧ logs sb' = logs sb ∧ logsJustPurged sb' = logsJustPurged sb
    | None =>
        logsJustPurged sb' = false ∧
        if logsJustPurged sb then r = (0, None) ∧ logs sb' = logs sb
        else r = (k, None) ∧ logs sb' = drop (Z.to_nat k) (logs sb)
    end.
Proof.
  intros Hwf Hk. unfold endSend. destruct e as [e|].
  { eexists _, _; split; [done|]. split_and!; try done. by eapply wf_flags, Hwf. }
  cbn [logsJustPurged with_locked]. destruct (logsJustPurged sb) eqn:Ep.
  { eexists _, _; split; [done|]. split_and!; try done. by eapply wf_flags, Hwf. }
  rewrite deleteLogs_Ok by (by apply Hk). unfold mbind, res_bind.
  eexists _, _; split; [done|]. split_and!; try done.
  by apply (wf_drop (with_locked sb false)), (wf_flags sb).
Qed.

Lemma beginSend_cases sb :
  (∃ n, beginSend sb = (sb, Return n)) ∨
  (∃ n, sendLocked sb = false ∧ (0 < n <= length (logs sb))%nat ∧
    beginSend sb = (with_locked sb true, Sending (concat (take n (logs sb))) (Z.of_nat n)) ∧
    total (take n (logs sb)) <= maxSendSizeBytes sb ∧
    (∀ x, logs sb !! n = Some x → maxSendSizeBytes sb < total (take n (logs sb)) + len x)).
Proof.
  unfold beginSend. destruct (sendLocked sb); [left; by eexists|].
  destruct (copyLogs_spec sb (maxSendSizeBytes sb)) as (n & Hn & E & Hfit & Hmax). rewrite E.
  destruct (len _ =? 0) eqn:El; [left; by eexists|right]. exists n. zbool.
  assert (n ≠ 0%nat) by (intros ->; by rewrite take_0 in El).
  split_and!; try done; try lia; auto.
Qed.

(** What holds of every state the shipper reaches *)
Record ship_inv (s : sys) : Prop := {
  inv_wf : wf (buf s);
  inv_lock : sendLocked (buf s) = bool_decide (is_Some (inflight s));
  inv_payload : ∀ payload k, inflight s = Some (payload, k) → logsJustPurged (buf s) = false →
    0 < k <= len (logs (buf s)) ∧ payload = concat (take (Z.to_nat k) (logs (buf s)))
}.

Lemma ship_inv_step s e s' : ship_inv s → shipping e → step s e s' → ship_inv s'.
Proof.
  intros [Hwf Hl Hp] He Hs. destruct Hs as [sb fl data sb' n E|?? f|??|sb fl sb' n E|sb fl sb' p k E|sb p k e sb' r E];
    cbn [buf inflight] in *; try done.
  - destruct (Write_cases sb data Hwf) as (sb'' & E' & Hwf' & Hl' & HC). rewrite E in E'. simplify_eq.
    constructor; cbn [buf inflight]; try done; [congruence|]. intros p k -> Hnp.
    destruct HC as [[_ ->]|[(_ & _ & _ & Hpt)|(_ & _ & Elg & Epg)]]; [by apply Hp|congruence|].
    rewrite Epg in Hnp. destruct (Hp p k eq_refl Hnp) as [Hk ->]. rewrite Elg. split.
    + rewrite len_app. pose proof (len_nonneg [data]). lia.
    + rewrite take_app_le by (unfold len in Hk; lia). done.
  - destruct (beginSend_cases sb) as [(n' & E')|(n' & _ & _ & E' & _)]; rewrite E in E'; simplify_eq.
    by constructor.
  - destruct (beginSend_cases sb) as [(n' & E')|(n' & _ & Hn & E' & _)]; rewrite E in E'; simplify_eq.
    constructor; cbn [buf inflight]; [by eapply wf_flags, Hwf|done|].
    intros p k [= <- <-] _. cbn [logs with_locked]. rewrite Nat2Z.id. unfold len. split; [lia|done].
  - destruct (endSend_cases sb k e Hwf) as (sb'' & r' & E' & Hwf' & Hl' & _).
    { intros _ Hnp. destruct (Hp p k eq_refl Hnp) as [Hk _]. lia. }
    rewrite E in E'. simplify_eq. by constructor.
Qed.

Lemma ship_inv_run s s' : ship_inv s → run shipping s s' → ship_inv s'.
Proof. intros H R. induction R; eauto using ship_inv_step. Qed.

Lemma ship_inv_New opts : 0 <= maxStorageSizeBytes (New opts) → ship_inv (Sys (New opts) None).
Proof.
  intros H. destruct (wf_New opts H) as (Hw & Hl & _). constructor; cbn [buf inflight]; try done.
Qed.

Lemma deleteLogs_inv sb k sb' : deleteLogs sb k = Ok sb' → 0 <= k <= len (logs sb).
Proof.
  unfold deleteLogs. intros H. res_inv. unfold slice_from in H. case_if_in H; [lia|done].
Qed.

Lemma wf_UpdateData f sb : wf sb → wf (UpdateData f sb).
Proof.
  intros [Hs Hb Hf]. destruct (UpdateData_loop_spec f (logs sb) sb []) as (us & m & E & Es); [done|].
  pose proof (delete_marked_spec us 0 []) as D. cbn [app length Nat.add] in D.
  unfold UpdateData. cbn [length positions app] in E. rewrite E. cbn [logs with_logs size]. rewrite D.
  apply (update_spec_wf _ _ _ _ 0) in Es as (-> & Hm & Hk); [|lia|done|done].
  constructor; cbn [size logs with_logs maxStorageSizeBytes]; [lia|lia|done].
Qed.

Lemma wf_step s e s' : wf (buf s) → step s e s' → wf (buf s').
Proof.
  intros Hwf Hs. destruct Hs as [sb fl data sb' n E|?? f|sb fl|sb fl sb' n E|sb fl sb' p k E|sb p k e sb' r E];
    cbn [buf] in *.
  - destruct (Write_cases sb data Hwf) as (sb'' & E' & Hwf' & _). rewrite E in E'. by simplify_eq.
  - by apply wf_UpdateData.
  - pose proof (total_nonneg (logs sb)). destruct Hwf as [Hs Hb Hf].
    constructor; cbn [size logs with_logs maxStorageSizeBytes DeleteAllData]; [done|lia|done].
  - destruct (beginSend_cases sb) as [(n' & E')|(n' & _ & _ & E' & _)]; rewrite E in E'; by simplify_eq.
  - destruct (beginSend_cases sb) as [(n' & E')|(n' & _ & _ & E' & _)]; rewrite E in E'; simplify_eq.
    by eapply wf_flags, Hwf.
  - destruct (endSend_cases sb k e Hwf) as (sb'' & r' & E' & Hwf' & _).
    { intros -> Hnp. unfold endSend in E. cbn [logsJustPurged with_locked] in E. rewrite Hnp in E.
      destruct (deleteLogs _ k) eqn:Ed; try done. by apply deleteLogs_inv in Ed. }
    rewrite E in E'. by simplify_eq.
Qed.

Lemma wf_run P s s' : wf (buf s) → run P s s' → wf (buf s').
Proof. intros H R. induction R; eauto using wf_step. Qed.

(** C5: In every interleaving of writes, updates, deletions and sends, the recorded size of
    the buffer is the number of bytes it stores, it is within the storage limit, and no
    stored log is empty. *)
Theorem size_invariant opts s :
  0 <= maxStorageSizeBytes (New opts) →
  run (λ _, True) (Sys (New opts) None) s →
  size (buf s) = len (concat (logs (buf s))) ∧ size (buf s) <= maxStorageSizeBytes (buf s) ∧
  Forall (λ x, x ≠ []) (logs (buf s)).
Proof.
  intros Hm R. destruct (wf_run _ (Sys (New opts) None) s (proj1 (wf_New opts Hm)) R) as [Hs Hb Hf]. rewrite <- total_concat. split_and!; try done.
  eapply Forall_impl; [done|]. by intros x Hx ->.
Qed.

(** While only writes and sends interleave (no [UpdateData] or [DeleteAllData]), nothing
    panics: a write is always accepted, and when a send succeeds the sender either deletes
    exactly the logs it sent (everything written meanwhile stays), or, when an overflow purged
    the buffer since the flag was last cleared, deletes nothing. *)
Theorem shipping_safe opts s data payload k :
  0 <= maxStorageSizeBytes (New opts) →
  run shipping (Sys (New opts) None) s →
  (∃ sb', Write (buf s) data = Ok (sb', len data)) ∧
  (inflight s = Some (payload, k) →
   ∃ sb' n, endSend (buf s) k None = Ok (sb', (n, None)) ∧
     if logsJustPurged (buf s) then n = 0 ∧ logs sb' = logs (buf s)
     else n = k ∧ concat (logs (buf s)) = payload ++ concat (logs sb')).
Proof.
  intros Hm R. pose proof (ship_inv_run _ _ (ship_inv_New opts Hm) R) as [Hwf _ Hp]. split.
  { destruct (Write_cases (buf s) data Hwf) as (sb' & E & _). by eexists. }
  intros Hi. destruct (endSend_cases (buf s) k None Hwf) as (sb' & r & E & _ & _ & _ & HC).
  { intros _ Hnp. destruct (Hp _ _ Hi Hnp). lia. }
  destruct (logsJustPurged (buf s)) eqn:Ep; destruct HC as [-> El]; eexists _, _; (split; [exact E|]).
  - done.
  - split; [done|]. destruct (Hp _ _ Hi eq_refl) as [Hk ->]. rewrite El, <- concat_app. by rewrite take_drop.
Qed.

Lemma ship_run_inv opts w d s :
  0 <= maxStorageSizeBytes (New opts) → ship_run (Sys (New opts) None) w d s →
  ship_inv s ∧ logsJustPurged (buf s) = false ∧ concat d ++ concat (logs (buf s)) = concat w.
Proof.
  intros Hm R. remember (Sys (New opts) None) as s0 eqn:E0.
  induction R as [s0|s0 w d sb fl data sb' n R IH Hfit Hs E|s0 w d s1 s2 R IH Hs|s0 w d s1 e s2 R IH Hs
    |s0 w d sb p k s2 R IH Hs]; subst s0.
  - split; [by apply ship_inv_New|]. destruct (wf_New opts Hm) as (_ & _ & Hp & _ & Hl).
    cbn [buf]. by rewrite Hl.
  - destruct (IH eq_refl) as (Hi & Hp & Hc). split; [by refine (ship_inv_step _ _ _ Hi _ Hs)|]. cbn [buf] in *.
    pose proof Hi as [Hwf _ _]. destruct (Write_cases sb data Hwf) as (sb'' & E' & _ & _ & HC).
    cbn [buf] in *. rewrite E in E'. simplify_eq.
    destruct HC as [[Hz ->]|[(_ & Hx & _)|(Hz & _ & El & Epg)]]; [|lia|].
    + split; [done|]. assert ((len data =? 0) || (maxWriteBytes <? len data) = true) as ->; [|done].
      apply orb_true_iff. destruct Hz; [left; by apply Z.eqb_eq|right; by apply Z.ltb_lt].
    + assert ((len data =? 0) || (maxWriteBytes <? len data) = false) as ->.
      { apply orb_false_iff. split; [apply Z.eqb_neq|apply Z.ltb_ge]; lia. }
      split; [congruence|]. rewrite El, !concat_app, <- Hc. cbn [concat].
      by rewrite !app_assoc.
  - destruct (IH eq_refl) as (Hi & Hp & Hc). split; [by refine (ship_inv_step _ _ _ Hi _ Hs)|].
    inversion Hs as [| | |sb fl sb' n E|sb fl sb' p k E|]; subst; cbn [buf] in *;
      destruct (beginSend_cases sb) as [(n' & E')|(n' & _ & _ & E' & _)]; rewrite E in E'; by simplify_eq.
  - destruct (IH eq_refl) as (Hi & Hp & Hc). split; [by refine (ship_inv_step _ _ _ Hi _ Hs)|].
    inversion Hs; subst; cbn [buf] in *. unfold endSend in *. by simplify_eq.
  - destruct (IH eq_refl) as (Hi & Hp & Hc). split; [by refine (ship_inv_step _ _ _ Hi _ Hs)|].
    inversion Hs as [| | | | |? ? ? ? sb' r E]; subst; cbn [buf] in *. pose proof Hi as [Hwf _ HP].
    destruct (HP p k eq_refl Hp) as [Hk Hpl].
    destruct (endSend_cases sb k None Hwf) as (sb'' & r' & E' & _ & _ & Hp' & HC); [intros; cbn in *; lia|].
    cbn [buf] in *. rewrite Hp in HC. rewrite E in E'. simplify_eq. destruct HC as [_ El].
    split; [done|]. rewrite El, concat_app, <- Hc. cbn [concat]. rewrite app_nil_r, <- app_assoc.
    by rewrite <- concat_app, take_drop.
Qed.

(** C1: As long as no write overflows the buffer, shipping delivers every accepted log exactly
    once and in order: the payloads the sender confirmed, followed by the logs still stored,
    are the logs accepted, whatever sends failed or were refused in between. *)
Theorem exactly_once opts w d s :
  0 <= maxStorageSizeBytes (New opts) →
  ship_run (Sys (New opts) None) w d s →
  concat d ++ concat (logs (buf s)) = concat w.
Proof. intros Hm R. by apply (ship_run_inv opts w d s Hm R). Qed.

(** ** One send without interference *)
Lemma sendAndPurge_cases send sb :
  wf sb → sendLocked sb = false →
  ∃ sb' cnt e, sendAndPurge send sb = Ok (sb', (cnt, e)) ∧ wf sb' ∧ sendLocked sb' = false ∧
    0 <= cnt <= len (logs sb) ∧ maxDrainSends sb' = maxDrainSends sb ∧
    maxSendSizeBytes sb' = maxSendSizeBytes sb ∧ maxStorageSizeBytes sb' = maxStorageSizeBytes sb ∧
    logs sb' = drop (Z.to_nat cnt) (logs sb) ∧ (logsJustPurged sb = false → logsJustPurged sb' = false).
Proof.
  intros Hwf Hl. unfold sendAndPurge.
  destruct (beginSend_cases sb) as [(n & E)|(n & _ & Hn & E & _)].
  - rewrite E. unfold beginSend in E. rewrite Hl in E. destruct (copyLogs _ _) as [p k].
    case_if_in E; simplify_eq. eexists _, _, _; split; [done|]. pose proof (len_nonneg (logs sb)).
    split_and!; done.
  - rewrite E. unfold endSend. destruct (send _) as [e|].
    { eexists _, _, _; split; [done|]. pose proof (len_nonneg (logs sb)). split_and!; try done.
      by eapply wf_flags, Hwf. }
    cbn [logsJustPurged with_locked]. destruct (logsJustPurged sb) eqn:Ep.
    { eexists _, _, _; split; [done|]. pose proof (len_nonneg (logs sb)). split_and!; try done.
      by eapply wf_flags, Hwf. }
    rewrite deleteLogs_Ok by (cbn [logs with_locked]; unfold len; lia).
    unfold mbind, res_bind. eexists _, _, _; split; [done|]. unfold len. split_and!; try done; try lia.
    by apply (wf_drop (with_locked sb false)), (wf_flags sb).
Qed.

(** An undisturbed send hands over the longest prefix of the logs that fits
    [maxSendSizeBytes].  When the sender succeeds just that prefix is removed from the buffer
    and counted; when it fails the buffer is unchanged and the error is returned. *)
Theorem sendAndPurge_prefix sb :
  wf sb → sendLocked sb = false → logsJustPurged sb = false →
  ∃ n, let payload := concat (take n (logs sb)) in
    (n <= length (logs sb))%nat ∧
    (n ≠ 0%nat → len payload <= maxSendSizeBytes sb) ∧
    (∀ x, logs sb !! n = Some x → maxSendSizeBytes sb < len (payload ++ x)) ∧
    (∀ send, send payload = None →
      ∃ sb', sendAndPurge send sb = Ok (sb', (Z.of_nat n, None)) ∧ logs sb' = drop n (logs sb)) ∧
    (∀ send e, n ≠ 0%nat → send payload = Some e → sendAndPurge send sb = Ok (sb, (0, Some e))).
Proof.
  intros Hwf Hl Hp. unfold sendAndPurge, beginSend. rewrite Hl.
  destruct (copyLogs_spec sb (maxSendSizeBytes sb)) as (n & Hn & E & Hfit & Hmax). rewrite E.
  exists n. cbn zeta. split; [done|]. split; [by rewrite <- total_concat|]. split.
  { intros x Hx. specialize (Hmax x Hx). by rewrite len_app, <- total_concat. }
  destruct (len _ =? 0) eqn:Ez; zbool.
  - assert (n = 0%nat) as ->; [|split; [intros; by eexists|done]].
    destruct n; [done|]. destruct (logs sb) as [|x l] eqn:El; [cbn in Hn; lia|].
    pose proof (wf_nonempty sb Hwf) as Hf. rewrite El in Hf. apply Forall_cons in Hf as [Hx _].
    cbn [take concat] in Ez. rewrite len_app in Ez. pose proof (len_nonneg (concat (take n l))). lia.
  - unfold endSend. split.
    + intros send ->. cbn [logsJustPurged with_locked]. rewrite Hp.
      rewrite deleteLogs_Ok by (cbn [logs with_locked]; unfold len; lia).
      unfold mbind, res_bind. rewrite Nat2Z.id. by eexists.
    + intros send e _ ->. do 3 f_equal. destruct sb. cbn in Hl. by subst.
Qed.

(** ** Draining *)
Lemma Drain_loop_total send done fuel : ∀ i lines sb,
  wf sb → sendLocked sb = false → maxDrainSends sb <= i + Z.of_nat fuel →
  ∃ sb' e, Drain_loop send done fuel i lines sb = Ok (sb', e) ∧ logs sb' `suffix_of` logs sb.
Proof.
  induction fuel as [|fuel IH]; intros i lines sb Hwf Hl Hi; cbn [Drain_loop].
  - assert ((i <? maxDrainSends sb) = false) as -> by (apply Z.ltb_ge; lia). cbn [andb].
    case_if; by eexists _, _.
  - destruct ((i <? maxDrainSends sb) && (0 <? lines) && (0 <? len (logs sb))) eqn:Ec.
    2: { case_if; by eexists _, _. }
    destruct (sendAndPurge_cases (send i) sb Hwf Hl)
      as (sb' & cnt & e & E & Hwf' & Hl' & Hc & Hd & _ & _ & Elg & _).
    rewrite E. unfold mbind, res_bind.
    assert (Hsuf : logs sb' `suffix_of` logs sb) by (rewrite Elg; apply suffix_drop).
    destruct e as [e|]; [by eexists _, _|]. destruct (cnt =? 0); [by eexists _, _|].
    destruct (lines - cnt <=? 0); [by eexists _, _|]. destruct (done i) as [e|]; [by eexists _, _|].
    destruct (IH (i + 1) (lines - cnt) sb') as (sb'' & e & E' & Hs'); [done|done|lia|].
    eexists _, _; split; [exact E'|]. by etrans.
Qed.

Lemma sendAndPurge_progress sb :
  wf sb → sendLocked sb = false → logsJustPurged sb = false → logs sb ≠ [] →
  Forall (λ x, len x <= maxSendSizeBytes sb) (logs sb) →
  ∃ sb' n, sendAndPurge (λ _, None) sb = Ok (sb', (Z.of_nat n, None)) ∧
    (0 < n <= length (logs sb))%nat.
Proof.
  intros Hwf Hl Hp Hne Hf. unfold sendAndPurge, beginSend. rewrite Hl.
  destruct (copyLogs_spec sb (maxSendSizeBytes sb)) as (n & Hn & E & Hfit & Hmax). rewrite E.
  assert (0 < n)%nat.
  { destruct (logs sb) as [|x l] eqn:El; [done|]. destruct n; [|lia].
    specialize (Hmax x eq_refl). apply Forall_cons in Hf as [Hx _]. rewrite take_0 in Hmax.
    cbn [total] in Hmax. lia. }
  assert ((len (concat (take n (logs sb))) =? 0) = false) as ->.
  { apply Z.eqb_neq. destruct (logs sb) as [|x l] eqn:El; [done|]. destruct n; [lia|].
    cbn [take concat]. rewrite len_app. pose proof (wf_nonempty sb Hwf) as Hx. rewrite El in Hx.
    apply Forall_cons in Hx as [Hx _]. pose proof (len_nonneg (concat (take n l))). lia. }
  unfold endSend. cbn [logsJustPurged with_locked]. rewrite Hp.
  rewrite deleteLogs_Ok by (cbn [logs with_locked]; unfold len; lia).
  unfold mbind, res_bind. by eexists _, n.
Qed.

Lemma Drain_loop_empties fuel : ∀ i sb,
  wf sb → sendLocked sb = false → logsJustPurged sb = false → logs sb ≠ [] →
  Forall (λ x, len x <= maxSendSizeBytes sb) (logs sb) →
  len (logs sb) <= maxDrainSends sb - i -> maxDrainSends sb <= i + Z.of_nat fuel →
  ∃ sb', Drain_loop (λ _ _, None) (λ _, None) fuel i (len (logs sb)) sb = Ok (sb', None) ∧ logs sb' = [].
Proof.
  induction fuel as [|fuel IH]; intros i sb Hwf Hl Hp Hne Hf Hi Hfu;
    pose proof (len_pos _ Hne); [lia|]. cbn [Drain_loop].
  assert ((i <? maxDrainSends sb) && (0 <? len (logs sb)) && (0 <? len (logs sb)) = true) as ->.
  { rewrite !andb_true_iff. repeat split; apply Z.ltb_lt; lia. }
  destruct (sendAndPurge_progress sb) as (sb1 & n & E1 & Hn); try done.
  destruct (sendAndPurge_cases (λ _, None) sb Hwf Hl)
    as (sb' & cnt & e & E & Hwf' & Hl' & Hc & Hd & Hms & _ & Elg & Hp').
  rewrite E1 in E. simplify_eq. rewrite E1. unfold mbind, res_bind. rewrite Nat2Z.id in Elg.
  assert ((Z.of_nat n =? 0) = false) as -> by (apply Z.eqb_neq; lia).
  assert (El : len (logs sb) - Z.of_nat n = len (logs sb')).
  { rewrite Elg. unfold len. rewrite length_drop. lia. }
  rewrite El. destruct (len (logs sb') <=? 0) eqn:Ez; zbool.
  - exists sb'. split; [done|]. destruct (logs sb') as [|x l]; [done|]. rewrite len_cons in Ez.
    pose proof (len_nonneg l). lia.
  - apply IH; try done; auto; [by intros E0; rewrite E0 in Ez| |lia|lia].
    rewrite Elg, Hms. by apply Forall_drop.
Qed.

(** [Drain] always comes to an end without panic, whatever the sender and the context do:
    it leaves a suffix of the logs. *)
Theorem Drain_total send done sb :
  wf sb → sendLocked sb = false →
  ∃ sb' e, Drain send done sb = Ok (sb', e) ∧ logs sb' `suffix_of` logs sb.
Proof. intros Hwf Hl. apply Drain_loop_total; [done|done|lia]. Qed.

(** When every send succeeds, every log fits one send, and the buffer holds between one
    and [maxDrainSends] logs, [Drain] reports success and leaves the buffer empty. *)
Theorem Drain_empties sb :
  wf sb → sendLocked sb = false → logsJustPurged sb = false →
  Forall (λ x, len x <= maxSendSizeBytes sb) (logs sb) →
  0 < len (logs sb) <= maxDrainSends sb →
  ∃ sb', Drain (λ _ _, None) (λ _, None) sb = Ok (sb', None) ∧ logs sb' = [].
Proof.
  intros Hwf Hl Hp Hf Hn. apply Drain_loop_empties; try done; [|lia|lia].
  intros E. rewrite E in Hn. by destruct Hn.
Qed.

(** ** Where shipping goes wrong *)
Lemma run_cons P s1 e s2 s3 : P e → step s1 e s2 → run P s2 s3 → run P s1 s3.
Proof.
  intros He Hs R. induction R; eauto using run_step.
  eapply run_step; [apply run_refl|done|done].
Qed.

(** Perform the next event of a concrete run. *)
Ltac next c := eapply run_cons; [|eapply c; reflexivity|]; [exact I|].
Ltac write d := eapply run_cons; [|eapply (step_write _ None d); reflexivity|]; [exact I|].

Definition small : t := New [WithMaxStorageSizeBytes 4; WithMaxSendSizeBytes 4].
Definition log1 : bytes := bs "aaa".

(** [DeleteAllData] does not cooperate with a send in flight: deleting the logs while
    their payload is on the wire leaves the sender with an index out of range, and its
    deletion panics after the send succeeded. *)
Theorem DeleteAllData_during_send_panics :
  ∃ sb payload k,
    run (λ _, True) (Sys small None) (Sys sb (Some (payload, k))) ∧ endSend sb k None = Panic.
Proof.
  eexists _, _, _. split.
  - write log1. next step_begin_send.
    eapply run_cons; [|apply step_delete_all|apply run_refl]. exact I.
  - reflexivity.
Qed.

(** The purge flag outlives the purge it reports.  When the buffer overflowed while no send
    was in flight, the next successful send deletes nothing, and the logs it shipped are
    shipped again by the one after it: the sender gets [log1] twice though it was accepted
    once after the overflow. *)
Theorem stale_purge_flag_duplicates :
  ∃ sb1 sb2 k1 k2 sb3,
    run shipping (Sys small None) (Sys sb1 None) ∧ logs sb1 = [log1] ∧
    beginSend sb1 = (sb2, Sending log1 k1) ∧
    endSend sb2 k1 None = Ok (sb3, (0, None)) ∧
    ∃ sb4, beginSend sb3 = (sb4, Sending log1 k2).
Proof.
  eexists _, _, _, _, _. split.
  - write log1. write log1.
    write log1. apply run_refl.
  - split_and!; try reflexivity. eexists. reflexivity.
Qed.

(** ** Witnesses *)
Definition stored : t := with_logs small [bs "ab"; bs "c"] 3.

Lemma stored_wf : wf stored.
Proof. constructor; [reflexivity|done|]. repeat constructor. Qed.

Lemma stored_run : run shipping (Sys small None) (Sys (with_locked stored true) (Some (bs "abc", 2))).
Proof.
  write (bs "ab"). write (bs "c").
  next step_begin_send. apply run_refl.
Qed.

Lemma run_mono (P Q : event → Prop) s s' : (∀ e, P e → Q e) → run P s s' → run Q s s'.
Proof. intros H R. induction R; [apply run_refl|]. eapply run_step; eauto. Qed.

Lemma size_invariant_witness :
  size stored = len (concat (logs stored)) ∧ size stored <= maxStorageSizeBytes stored ∧
  Forall (λ x, x ≠ []) (logs stored).
Proof.
  apply (size_invariant [WithMaxStorageSizeBytes 4; WithMaxSendSizeBytes 4]
    (Sys (with_locked stored true) (Some (bs "abc", 2)))); [done|].
  eapply run_mono; [|apply stored_run]. done.
Defined.

Lemma shipping_safe_witness :
  ∃ sb' n, endSend (with_locked stored true) 2 None = Ok (sb', (n, None)) ∧ n = 2 ∧
    concat (logs stored) = bs "abc" ++ concat (logs sb').
Proof.
  eapply (shipping_safe [WithMaxStorageSizeBytes 4; WithMaxSendSizeBytes 4]
    (Sys (with_locked stored true) (Some (bs "abc", 2))) []); [done|apply stored_run|done].
Defined.

Lemma exactly_once_witness :
  concat [bs "ab"] ++ concat (logs (buf (Sys small None))) = concat [bs "ab"].
Proof.
  apply (exactly_once [WithMaxStorageSizeBytes 4; WithMaxSendSizeBytes 4] [bs "ab"] [bs "ab"]);
    [done|].
  set (sb := with_logs small [bs "ab"] 2).
  apply (ship_sent _ _ [] (with_locked sb true) (bs "ab") 1).
  - apply ship_begin with (Sys sb None).
    + apply (ship_write _ [] [] small None (bs "ab") sb 2); [apply ship_refl|done| |reflexivity].
      by apply step_write with 2.
    + by apply (step_begin_send sb).
  - by apply (step_end (with_locked sb true) (bs "ab") 1 None small (1, None)).
Defined.

Lemma sendAndPurge_prefix_witness :
  ∃ n sb', sendAndPurge (λ _, None) stored = Ok (sb', (Z.of_nat n, None)) ∧
    logs sb' = drop n [bs "ab"; bs "c"].
Proof.
  destruct (sendAndPurge_prefix stored stored_wf eq_refl eq_refl) as (n & _ & _ & _ & Hok & _).
  exists n. exact (Hok (λ _, None) eq_refl).
Defined.

Lemma Drain_total_witness :
  ∃ sb' e, Drain (λ _ _, Some EOF) (λ _, None) stored = Ok (sb', e) ∧ logs sb' `suffix_of` logs stored.
Proof. apply Drain_total; [apply stored_wf|reflexivity]. Defined.

Lemma Drain_empties_witness :
  ∃ sb', Drain (λ _ _, None) (λ _, None) stored = Ok (sb', None) ∧ logs sb' = [].
Proof. apply Drain_empties; try reflexivity; [apply stored_wf|repeat constructor; done|done]. Defined.

End SendBuffer.
