(* ===== verification/RunGroup.v ===== *)
(** * pkg/rungroup and pkg/backoff: supervision of actors, and retries

    [RunGroup] is the group that runs the launcher's long-lived actors.  Its goroutines (one for
    each actor's [execute], one for each [interrupt], and [Run] itself) interleave freely; a
    state holds what they share, a step is one channel or semaphore operation, and time passes only
    when [Run] is blocked.  [Backoff] runs a function until it succeeds or its attempts are used up. *)
From S2P Require Import Prelude.

Definition second : Z := 10 ^ 9.

Module RunGroup.

Definition InterruptTimeout : Z := 10 * second.
Definition executeReturnTimeout : Z := 5 * second.

(** [actorError]: the index stands for the name of the actor; what [execute] returned, or the panic it ended in *)
Record actorError := ActorError { errorSource : nat; aerr : option err }.

(** Where the goroutine that interrupts an actor stands; it passes on the error of the first actor *)
Inductive signal : Type :=
| NotInterrupted
| Interrupting (e : option err)
| Interrupted (e : option err).

Record actorState := ActorState { running : bool; interrupt : signal }.

(** Where [Run] stands *)
Inductive phase : Type :=
| WaitingForFirst                                          (* initialActorErr := <-actorErrors *)
| Signalling (i : nat) (initial : actorError)              (* the loop over the actors *)
| AwaitingInterrupts (deadline : Z) (initial : actorError) (* interruptWait.Acquire(interruptCtx, numActors) *)
| Collecting (i : nat) (timer : Z) (initial : actorError)  (* the select *)
| Done (result : option err) (at_ : Z).

(** [actorErrors] is a channel with room for all actors; [held] is what is acquired of the semaphore.
    [exits] is history: what was sent on the channel, and when. *)
Record state := State {
  actors : list actorState;
  actorErrors : list actorError;
  held : Z;
  main : phase;
  now : Z;
  exits : list (Z * actorError)
}.

Definition numActors (s : state) : Z := len (actors s).

(** [Run] up to its first receive: without actors it returns at once *)
Definition start (n : nat) (at_ : Z) : state :=
  State (replicate n (ActorState true NotInterrupted)) [] 0
    (if bool_decide (n = 0%nat) then Done None at_ else WaitingForFirst) at_ [].

Definition with_main (s : state) (queue : list actorError) (h : Z) (p : phase) : state :=
  State (actors s) queue h p (now s) (exits s).

Definition with_actor (s : state) (i : nat) (a : actorState) (h : Z) (p : phase) : state :=
  State (<[i := a]> (actors s)) (actorErrors s) h p (now s) (exits s).

(** *** The moves of [Run]: all that it may do next; none when it is blocked *)
Definition run_moves (s : state) : list state :=
  match main s with
  | WaitingForFirst =>
      match actorErrors s with
      | e :: queue => [with_main s queue (held s) (Signalling 0 e)]
      | [] => []
      end
  | Signalling i initial =>
      match actors s !! i with
      | Some a =>
          (* interruptWait.Acquire(context.Background(), 1) *)
          if held s + 1 <=? numActors s
          then [with_actor s i (ActorState (running a) (Interrupting (aerr initial))) (held s + 1)
                  (Signalling (Datatypes.S i) initial)]
          else []
      | None => [with_main s (actorErrors s) (held s) (AwaitingInterrupts (now s + InterruptTimeout) initial)]
      end
  | AwaitingInterrupts deadline initial =>
      let next h := with_main s (actorErrors s) h (Collecting 1 (now s + executeReturnTimeout) initial) in
      (if held s + numActors s <=? numActors s then [next (held s + numActors s)] else []) ++
      (if deadline <=? now s then [next (held s)] else [])
  | Collecting i timer initial =>
      if Z.of_nat i <? numActors s then
        match actorErrors s with
        | _ :: queue => [with_main s queue (held s) (Collecting (Datatypes.S i) timer initial)]
        | [] => []
        end ++
        (if timer <=? now s then [with_main s (actorErrors s) (held s) (Done (aerr initial) (now s))] else [])
      else [with_main s (actorErrors s) (held s) (Done (aerr initial) (now s))]
  | Done _ _ => []
  end.

(** What may happen to an actor: its [execute] returns or panics, its [interrupt] returns or panics *)
Definition actor_exits (i : nat) (e : option err) (s : state) : option state :=
  match actors s !! i with
  | Some (ActorState true sig) =>
      Some (State (<[i := ActorState false sig]> (actors s)) (actorErrors s ++ [ActorError i e]) (held s) (main s)
              (now s) (exits s ++ [(now s, ActorError i e)]))
  | _ => None
  end.

Definition interrupt_returns (i : nat) (s : state) : option state :=
  match actors s !! i with
  | Some (ActorState r (Interrupting e)) => Some (with_actor s i (ActorState r (Interrupted e)) (held s - 1) (main s))
  | _ => None
  end.

(** A blocked [Run] wakes up at its deadline *)
Definition deadline_of (s : state) : option Z :=
  match main s with
  | AwaitingInterrupts deadline _ => Some deadline
  | Collecting _ timer _ => Some timer
  | _ => None
  end.

Definition passes (d : Z) (s : state) : option state :=
  if (0 <? d) && is_empty (run_moves s) && match deadline_of s with Some t => now s + d <=? t | None => true end
  then Some (State (actors s) (actorErrors s) (held s) (main s) (now s + d) (exits s))
  else None.

Inductive step : state → state → Prop :=
| step_run s s' : s' ∈ run_moves s → step s s'
| step_exit i e s s' : actor_exits i e s = Some s' → step s s'
| step_interrupted i s s' : interrupt_returns i s = Some s' → step s s'
| step_time d s s' : passes d s = Some s' → step s s'.

Inductive reachable (n : nat) (at_ : Z) : state → Prop :=
| reach_start : reachable n at_ (start n at_)
| reach_step s s' : reachable n at_ s → step s s' → reachable n at_ s'.

(** Whatever happens, [P] comes about: there is a next step, and after each one it still does *)
Inductive eventually (P : state → Prop) : state → Prop :=
| ev_now s : P s → eventually P s
| ev_next s : (∃ s', step s s') → (∀ s', step s s' → eventually P s') → eventually P s.

Definition done (s : state) : Prop := ∃ r t, main s = Done r t.

(** ** The invariant *)
Definition weight (f : actorState → nat) (s : state) : nat := sum_list_with f (actors s).
Definition is_running (a : actorState) : nat := if running a then 1 else 0.
Definition is_interrupting (a : actorState) : nat := match interrupt a with Interrupting _ => 1 | _ => 0 end.
Definition unfinished (a : actorState) : nat :=
  match interrupt a with NotInterrupted => 2 | Interrupting _ => 1 | Interrupted _ => 0 end.

Lemma sum_list_with_insert {A} (f : A → nat) l i x y :
  l !! i = Some x → (sum_list_with f (<[i := y]> l) + f x = sum_list_with f l + f y)%nat.
Proof.
  revert i. induction l as [|a l IH]; intros [|i] E; try discriminate E; cbn in *; [injection E as ->; lia|].
  specialize (IH i E). unfold insert in *. lia.
Qed.

Lemma sum_zero {A} (f : A → nat) l j x : sum_list_with f l = 0%nat → l !! j = Some x → f x = 0%nat.
Proof.
  revert j. induction l as [|a l IH]; intros [|j] Hs Hj; cbn in *; try done; [injection Hj as <-; lia|].
  apply (IH j); [lia|done].
Qed.

Lemma sum_list_with_bound {A} (f : A → nat) l : (∀ x, (f x <= 1)%nat) → (sum_list_with f l <= length l)%nat.
Proof. intros Hf. induction l as [|a l IH]; cbn; [lia|]. specialize (Hf a). lia. Qed.

(** An actor has been told of the error of the first one, or has not been told yet. *)
Definition told (e : option err) (a : actorState) : Prop := interrupt a = Interrupting e ∨ interrupt a = Interrupted e.

Definition all_actors (l : list actorState) (P : nat → actorState → Prop) : Prop := ∀ j a, l !! j = Some a → P j a.

Definition first_exit (x : actorError) (t : Z) (s : state) : Prop := ∃ rest, exits s = (t, x) :: rest.

(** [taken]: how much of the channel [Run] has received *)
Record invariant (n : nat) (taken : nat) (s : state) : Prop := {
  inv_actors : length (actors s) = n;
  inv_queue : drop taken (map snd (exits s)) = actorErrors s;
  inv_taken : (taken <= length (exits s))%nat;
  inv_exits : (weight is_running s + length (exits s) = n)%nat;
  inv_now : Forall (λ x, x.1 <= now s) (exits s);
  inv_main :
    match main s with
    | WaitingForFirst =>
        taken = 0%nat ∧ (0 < n)%nat ∧ held s = 0 ∧ all_actors (actors s) (λ _ a, interrupt a = NotInterrupted) ∧
        Forall (λ x, x.1 = now s) (take 1 (exits s))
    | Signalling i x =>
        taken = 1%nat ∧ (i <= n)%nat ∧ held s = Z.of_nat (weight is_interrupting s) ∧ first_exit x (now s) s ∧
        all_actors (actors s) (λ j a, if decide (j < i)%nat then told (aerr x) a else interrupt a = NotInterrupted)
    | AwaitingInterrupts d x =>
        taken = 1%nat ∧ held s = Z.of_nat (weight is_interrupting s) ∧ first_exit x (d - InterruptTimeout) s ∧
        all_actors (actors s) (λ _, told (aerr x)) ∧ now s <= d <= now s + InterruptTimeout
    | Collecting i t x =>
        taken = i ∧ ∃ t0, first_exit x t0 s ∧ t0 + executeReturnTimeout <= t <= t0 + InterruptTimeout + executeReturnTimeout ∧
        all_actors (actors s) (λ _, told (aerr x)) ∧ now s <= t
    | Done r t =>
        n = 0%nat ∧ r = None ∨
        ∃ x t0, first_exit x t0 s ∧ r = aerr x ∧ t <= t0 + InterruptTimeout + executeReturnTimeout ∧
        all_actors (actors s) (λ _, told (aerr x)) ∧ t <= now s ∧
        (weight is_running s = 0%nat ∨ t0 + executeReturnTimeout <= t)
    end
}.

Lemma start_invariant n t : invariant n 0 (start n t).
Proof.
  assert (Hw : weight is_running (start n t) = n).
  { unfold weight, start. cbn [actors]. clear. induction n as [|n IH]; [done|]. cbn [replicate sum_list_with].
    rewrite IH. done. }
  assert (Hn : all_actors (actors (start n t)) (λ _ a, interrupt a = NotInterrupted)).
  { intros j a Hj. unfold start in Hj. cbn in Hj. apply lookup_replicate in Hj as [-> _]. done. }
  split; cbn; [by rewrite length_replicate|done|done|by rewrite Nat.add_0_r|done|].
  case_bool_decide; [by left|]. split; [done|]. split; [lia|]. by repeat split.
Qed.

(** The semaphore has room for every interrupt: its loop never blocks. *)
Lemma signal_room s i : held s = Z.of_nat (weight is_interrupting s) →
  (∃ a, actors s !! i = Some a ∧ interrupt a = NotInterrupted) → held s + 1 <= numActors s.
Proof.
  intros -> (a & Ha & Hn). unfold weight, numActors, len.
  pose proof (sum_list_with_insert is_interrupting (actors s) i a (ActorState true (Interrupting None)) Ha) as Hi.
  assert (Hb := sum_list_with_bound is_interrupting (<[i := ActorState true (Interrupting None)]> (actors s))
    ltac:(intros [? []]; cbn; lia)).
  rewrite length_insert in Hb. unfold is_interrupting in Hi at 2 4. rewrite Hn in Hi. cbn [interrupt] in Hi. lia.
Qed.

Lemma told_weight s e : all_actors (actors s) (λ _, told e) → weight unfinished s = weight is_interrupting s.
Proof.
  intros Ha. unfold weight. assert (Hl : ∀ j a, actors s !! j = Some a → told e a) by exact Ha. clear Ha.
  induction (actors s) as [|a l IH]; [done|]. cbn. rewrite IH by (intros j b Hb; by apply (Hl (Datatypes.S j))).
  f_equal. unfold unfinished, is_interrupting. by destruct (Hl 0%nat a eq_refl) as [-> | ->].
Qed.

Lemma all_insert l i b (P Q : nat → actorState → Prop) :
  all_actors l P → (∀ j a, j ≠ i → P j a → Q j a) → Q i b → all_actors (<[i := b]> l) Q.
Proof.
  intros HP HPQ Hi j a Ha. apply list_lookup_insert_Some in Ha as [(-> & <- & _)|[Hne Ha]]; [done|].
  apply HPQ; [done|]. by apply HP.
Qed.

Ltac fields := cbn [actors actorErrors held main now exits with_main with_actor].

Lemma no_signals s : all_actors (actors s) (λ _ a, interrupt a = NotInterrupted) → weight is_interrupting s = 0%nat.
Proof.
  unfold weight, all_actors. induction (actors s) as [|a l IH]; intros Ha; [done|]. cbn.
  rewrite IH by (intros j b Hb; by apply (Ha (Datatypes.S j))). unfold is_interrupting. by rewrite (Ha 0%nat a eq_refl).
Qed.

Lemma weight_insert f s i a b h p : actors s !! i = Some a →
  (weight f (with_actor s i b h p) + f a = weight f s + f b)%nat.
Proof. apply sum_list_with_insert. Qed.

Lemma first_preserves n k s s' :
  main s = WaitingForFirst → invariant n k s → s' ∈ run_moves s → ∃ k', invariant n k' s'.
Proof.
  intros Em [Hn Hq Hk He Ht Hm] Hs. unfold run_moves in Hs. rewrite Em in Hs, Hm.
  destruct Hm as (-> & Hpos & Hh & Ha & Hf). destruct (actorErrors s) as [|e q] eqn:Eq; [by apply elem_of_nil in Hs|].
  apply list_elem_of_singleton in Hs as ->. exists 1%nat. rewrite drop_0 in Hq.
  destruct (exits s) as [|[t0 x0] rest] eqn:Ex; [discriminate Hq|]. cbn [map snd] in Hq. injection Hq as -> Hq.
  split; fields; rewrite ?Ex; [done|done|cbn; lia|exact He|done|].
  split; [done|]. split; [lia|]. split.
  { rewrite Hh. change (weight is_interrupting (with_main _ _ _ _)) with (weight is_interrupting s). by rewrite no_signals. }
  split; [|intros j a Hj; rewrite decide_False by lia; by apply (Ha j)].
  apply Forall_cons in Hf as [Hf _]. cbn in Hf. exists rest. fields. by rewrite Ex, Hf.
Qed.

Lemma signal_preserves n k i x s s' :
  main s = Signalling i x → invariant n k s → s' ∈ run_moves s → ∃ k', invariant n k' s'.
Proof.
  intros Em [Hn Hq Hk He Ht Hm] Hs. unfold run_moves in Hs. rewrite Em in Hs, Hm.
  destruct Hm as (-> & Hi & Hh & Hf & Ha). exists 1%nat. destruct (actors s !! i) as [a|] eqn:Ea.
  - destruct (held s + 1 <=? numActors s); [|by apply elem_of_nil in Hs]. apply list_elem_of_singleton in Hs as ->.
    pose proof (Ha i a Ea) as Hai. cbn beta in Hai. rewrite decide_False in Hai by lia. apply lookup_lt_Some in Ea as Hlt.
    set (b := ActorState (running a) (Interrupting (aerr x))).
    pose proof (weight_insert is_running s i a b (held s + 1) (Signalling (Datatypes.S i) x) Ea) as Hw1.
    pose proof (weight_insert is_interrupting s i a b (held s + 1) (Signalling (Datatypes.S i) x) Ea) as Hw2.
    change (is_running b) with (is_running a) in Hw1. change (is_interrupting b) with 1%nat in Hw2.
    unfold is_interrupting in Hw2 at 2. rewrite Hai in Hw2.
    split; fields; [by rewrite length_insert|done|done|lia|done|].
    split; [done|]. split; [lia|]. split; [lia|]. split; [done|].
    eapply all_insert; [exact Ha| |].
    + intros j c Hne Hc. cbn beta in *. destruct (decide (j < i)%nat); [by rewrite decide_True by lia|by rewrite decide_False by lia].
    + cbn beta. rewrite decide_True by lia. by left.
  - apply list_elem_of_singleton in Hs as ->. apply lookup_ge_None in Ea.
    split; fields; [done..|]. split; [done|]. split; [done|].
    split; [by replace (now s + InterruptTimeout - InterruptTimeout) with (now s) by lia|].
    split; [|unfold InterruptTimeout, second; lia]. intros j a Hj. pose proof (Ha j a Hj) as Hja. cbn beta in Hja.
    apply lookup_lt_Some in Hj. fields. by rewrite decide_True in Hja by (cbn in Hj; lia).
Qed.

Lemma await_preserves n k d x s s' :
  main s = AwaitingInterrupts d x → invariant n k s → s' ∈ run_moves s → ∃ k', invariant n k' s'.
Proof.
  intros Em [Hn Hq Hk He Ht Hm] Hs. unfold run_moves in Hs. rewrite Em in Hs, Hm.
  destruct Hm as (-> & Hh & (rest & Hf) & Ha & Hd).
  assert (Hs' : ∃ h, s' = with_main s (actorErrors s) h (Collecting 1 (now s + executeReturnTimeout) x)).
  { apply elem_of_app in Hs. destruct Hs as [Hs|Hs]; case_match; try (by apply elem_of_nil in Hs);
      apply list_elem_of_singleton in Hs; by eexists. }
  destruct Hs' as [h ->]. exists 1%nat. split; fields; [done..|]. split; [done|]. exists (d - InterruptTimeout).
  split; [by exists rest|]. unfold InterruptTimeout, executeReturnTimeout, second in *.
  split; [lia|]. split; [done|]. lia.
Qed.

Lemma collect_preserves n k i t x s s' :
  main s = Collecting i t x → invariant n k s → s' ∈ run_moves s → ∃ k', invariant n k' s'.
Proof.
  intros Em [Hn Hq Hk He Ht Hm] Hs. unfold run_moves in Hs. rewrite Em in Hs, Hm.
  destruct Hm as (-> & t0 & Hf & Hd & Ha & Hnow).
  assert (Hdone : s' = with_main s (actorErrors s) (held s) (Done (aerr x) (now s)) →
    weight is_running s = 0%nat ∨ t <= now s → ∃ k', invariant n k' s').
  { intros -> Hw. exists i. split; fields; [done..|]. right. exists x, t0. split; [done|]. split; [done|]. split; [lia|].
    split; [done|]. split; [done|]. destruct Hw as [Hw|Hw]; [by left|right; lia]. }
  destruct (Z.of_nat i <? numActors s) eqn:Ei; unfold numActors, len in Ei;
    [|apply list_elem_of_singleton in Hs; apply Hdone; [done|left; lia]].
  apply elem_of_app in Hs as [Hs|Hs].
  - destruct (actorErrors s) as [|y q] eqn:Eq; [by apply elem_of_nil in Hs|]. apply list_elem_of_singleton in Hs as ->.
    exists (Datatypes.S i). split; fields; [done| | |done|done|].
    + by rewrite <- (Nat.add_1_r i), <- drop_drop, Hq.
    + apply (f_equal length) in Hq. rewrite length_drop, length_map in Hq. cbn in Hq. lia.
    + split; [done|]. by exists t0.
  - destruct (t <=? now s) eqn:Et; [|by apply elem_of_nil in Hs]. apply list_elem_of_singleton in Hs. apply Hdone; [done|right; lia].
Qed.

Lemma run_preserves n k s s' : invariant n k s → s' ∈ run_moves s → ∃ k', invariant n k' s'.
Proof.
  intros Hi Hs. destruct (main s) as [|i x|d x|i t x|r t] eqn:Em.
  - by eapply first_preserves.
  - by eapply signal_preserves.
  - by eapply await_preserves.
  - by eapply collect_preserves.
  - unfold run_moves in Hs. rewrite Em in Hs. by apply elem_of_nil in Hs.
Qed.

(** The invariant of [main] outlives what happens to the actors, as long as these keep what they were told. *)
Lemma sum_same {A} (f : A → nat) (l : list A) (i : nat) a b :
  l !! i = Some a → f b = f a → sum_list_with f (<[i := b]> l) = sum_list_with f l.
Proof. intros Hl Hf. pose proof (sum_list_with_insert f l i a b Hl). lia. Qed.

Lemma same_signal_all (l : list actorState) i a b (P : nat → signal → Prop) :
  l !! i = Some a → interrupt b = interrupt a →
  all_actors l (λ j c, P j (interrupt c)) → all_actors (<[i := b]> l) (λ j c, P j (interrupt c)).
Proof.
  intros Hl Hs Ha. eapply all_insert; [exact Ha|done|]. cbn. rewrite Hs. by apply (Ha i a).
Qed.

Lemma exit_preserves n k i e s s' : invariant n k s → actor_exits i e s = Some s' → invariant n k s'.
Proof.
  intros [Hn Hq Hk He Ht Hm] Hs. unfold actor_exits in Hs.
  destruct (actors s !! i) as [[[] sig]|] eqn:Ea; [|done..]. injection Hs as <-.
  pose proof (sum_list_with_insert is_running (actors s) i _ (ActorState false sig) Ea) as Hw. cbn in Hw.
  assert (Hwi : sum_list_with is_interrupting (<[i := ActorState false sig]> (actors s)) = weight is_interrupting s)
    by (by eapply sum_same).
  assert (Hfirst : ∀ x t, first_exit x t s → ∃ rest, exits s ++ [(now s, ActorError i e)] = (t, x) :: rest).
  { intros x t [rest ->]. by eexists. }
  split; unfold weight; fields.
  - by rewrite length_insert.
  - rewrite map_app, drop_app_le by (by rewrite length_map). by rewrite Hq.
  - rewrite length_app. lia.
  - rewrite length_app. unfold weight in He. cbn [length]. lia.
  - apply Forall_app. split; [done|]. by repeat constructor.
  - destruct (main s) as [|j x|d x|j t x|r t]; unfold first_exit in *; fields; rewrite ?Hwi.
    + destruct Hm as (-> & Hpos & Hh & Ha & Hf). repeat (split; [done|]). split.
      * by apply (same_signal_all _ _ _ _ (λ _ sg, sg = NotInterrupted) Ea).
      * destruct (exits s); by repeat constructor || (inversion Hf; subst; by repeat constructor).
    + destruct Hm as (-> & Hi & Hh & Hf & Ha). repeat (split; [by auto|]).
      by apply (same_signal_all _ _ _ _ (λ j0 sg, if decide (j0 < j)%nat then sg = Interrupting (aerr x) ∨ sg = Interrupted (aerr x)
        else sg = NotInterrupted) Ea).
    + destruct Hm as (-> & Hh & Hf & Ha & Hd). repeat (split; [by auto|]). split; [|done].
      by apply (same_signal_all _ _ _ _ (λ _ sg, sg = Interrupting (aerr x) ∨ sg = Interrupted (aerr x)) Ea).
    + destruct Hm as (-> & t0 & Hf & Hd & Ha & Hnow). split; [done|]. exists t0. repeat (split; [by auto|]). split; [|done].
      by apply (same_signal_all _ _ _ _ (λ _ sg, sg = Interrupting (aerr x) ∨ sg = Interrupted (aerr x)) Ea).
    + destruct Hm as [Hm|(x & t0 & Hf & Hr & Hd & Ha & Hnow & Hz)]; [by left|right]. exists x, t0. repeat (split; [by auto|]).
      split; [|split; [done|]; destruct Hz as [Hz|Hz]; [left; unfold weight in Hz; lia|by right]].
      by apply (same_signal_all _ _ _ _ (λ _ sg, sg = Interrupting (aerr x) ∨ sg = Interrupted (aerr x)) Ea).
Qed.

Lemma told_insert l i r e x :
  l !! i = Some (ActorState r (Interrupting e)) → all_actors l (λ _, told x) →
  all_actors (<[i := ActorState r (Interrupted e)]> l) (λ _, told x).
Proof.
  intros Hl Ha. eapply all_insert; [exact Ha|done|]. right. by destruct (Ha i _ Hl) as [[= ->]|[=]].
Qed.

Lemma interrupt_preserves n k i s s' : invariant n k s → interrupt_returns i s = Some s' → invariant n k s'.
Proof.
  intros [Hn Hq Hk He Ht Hm] Hs. unfold interrupt_returns in Hs.
  destruct (actors s !! i) as [[r [|e|e]]|] eqn:Ea; try done. injection Hs as <-.
  pose proof (sum_list_with_insert is_interrupting (actors s) i _ (ActorState r (Interrupted e)) Ea) as Hw. cbn in Hw.
  split; unfold weight; fields; [by rewrite length_insert|done|done| |done|].
  { rewrite <- He. f_equal. by eapply sum_same. }
  unfold first_exit in *. fields. unfold weight in *. destruct (main s) as [|j x|d x|j t x|r0 t].
  - destruct Hm as (_ & _ & _ & Ha & _). specialize (Ha i _ Ea). discriminate Ha.
  - destruct Hm as (-> & Hi & Hh & Hf & Ha). split; [done|]. split; [done|]. split; [lia|]. split; [done|].
    eapply all_insert; [exact Ha|done|]. pose proof (Ha i _ Ea) as Hi'. cbn beta in *.
    destruct (decide (i < j)%nat); [|discriminate Hi']. right. by destruct Hi' as [[= ->]|[=]].
  - destruct Hm as (-> & Hh & Hf & Ha & Hd). split; [done|]. split; [lia|]. split; [done|]. split; [|done].
    by apply told_insert.
  - destruct Hm as (-> & t0 & Hf & Hd & Ha & Hnow). split; [done|]. exists t0. do 2 (split; [done|]). split; [|done].
    by apply told_insert.
  - destruct Hm as [Hm|(x & t0 & Hf & Hr & Hd & Ha & Hnow & Hz)]; [by left|right]. exists x, t0. do 3 (split; [done|]).
    split; [by apply told_insert|]. split; [done|]. destruct Hz as [Hz|Hz]; [left|by right].
    rewrite <- Hz. by eapply sum_same.
Qed.

(** *** [Run] is only blocked where it should be *)
Lemma blocked_cases n k s : invariant n k s → run_moves s = [] →
  match main s with
  | WaitingForFirst => exits s = []
  | Signalling _ _ => False
  | AwaitingInterrupts d _ => now s < d
  | Collecting _ t _ => now s < t
  | Done _ _ => True
  end.
Proof.
  intros [Hn Hq Hk He Ht Hm] Hr. unfold run_moves in Hr. destruct (main s) as [|i x|d x|i t x|r t]; [| | | |done].
  - destruct Hm as (-> & _). rewrite drop_0 in Hq. destruct (actorErrors s); [|discriminate Hr].
    by destruct (exits s).
  - destruct Hm as (_ & _ & Hh & _ & Ha). destruct (actors s !! i) as [a|] eqn:Ea; [|discriminate Hr].
    pose proof (Ha i a Ea) as Hai. cbn beta in Hai. rewrite decide_False in Hai by lia.
    assert (Hroom : held s + 1 <= numActors s) by (apply (signal_room s i Hh); eauto).
    apply Z.leb_le in Hroom. rewrite Hroom in Hr. discriminate Hr.
  - apply app_eq_nil in Hr as [_ Hr]. destruct (d <=? now s) eqn:Ed; [discriminate Hr|lia].
  - destruct (Z.of_nat i <? numActors s); [|discriminate Hr]. apply app_eq_nil in Hr as [_ Hr].
    destruct (t <=? now s) eqn:Et; [discriminate Hr|lia].
Qed.

Lemma time_preserves n k d s s' : invariant n k s → passes d s = Some s' → invariant n k s'.
Proof.
  intros Hi Hs. unfold passes in Hs. destruct (run_moves s) eqn:Er; [|by rewrite andb_false_r in Hs].
  pose proof (blocked_cases n k s Hi Er) as Hb. destruct Hi as [Hn Hq Hk He Ht Hm].
  destruct (0 <? d) eqn:Ed; [|done]. unfold deadline_of in Hs. cbn [andb is_empty] in Hs.
  destruct (main s) as [|i x|d0 x|i t x|r t] eqn:Em.
  - injection Hs as <-. destruct Hm as (Hk0 & Hpos & Hh & Ha & Hf).
    split; fields; [done..|by rewrite Hb|]. do 4 (split; [done|]). by rewrite Hb.
  - done.
  - destruct (now s + d <=? d0) eqn:E0; [|done]. injection Hs as <-. split; fields; [done..| |].
    + eapply Forall_impl; [exact Ht|]. cbn. lia.
    + destruct Hm as (Hk0 & Hh & Hf & Ha & Hd). do 4 (split; [done|]). lia.
  - destruct (now s + d <=? t) eqn:E0; [|done]. injection Hs as <-. split; fields; [done..| |].
    + eapply Forall_impl; [exact Ht|]. cbn. lia.
    + destruct Hm as (Hk0 & t0 & Hf & Hd & Ha & Hnow). split; [done|]. exists t0. do 3 (split; [done|]). lia.
  - injection Hs as <-. split; fields; [done..| |].
    + eapply Forall_impl; [exact Ht|]. cbn. lia.
    + destruct Hm as [Hm|(x & t0 & Hf & Hr & Hd & Ha & Hnow)]; [by left|right]. exists x, t0.
      do 4 (split; [done|]). split; [lia|exact (proj2 Hnow)].
Qed.

Lemma step_preserves n k s s' : invariant n k s → step s s' → ∃ k', invariant n k' s'.
Proof.
  intros Hi Hs. revert Hi. destruct Hs as [s s' Hs|i e s s' Hs|i s s' Hs|d s s' Hs]; intros Hi; [by eapply run_preserves|exists k..].
  - by eapply exit_preserves.
  - by eapply interrupt_preserves.
  - by eapply time_preserves.
Qed.

Lemma reachable_invariant n t s : reachable n t s → ∃ k, invariant n k s.
Proof.
  induction 1 as [|s s' _ [k Hk] Hs]; [exists 0%nat; apply start_invariant|]. by eapply step_preserves.
Qed.

(** *** What is left to happen, at most *)
Definition rank (s : state) : nat :=
  match main s with
  | WaitingForFirst => length (actors s) + 5
  | Signalling _ _ => length (actors s) + 4
  | AwaitingInterrupts _ _ => length (actors s) + 3
  | Collecting i _ _ => 2 + (length (actors s) - i)
  | Done _ _ => 0
  end.

(** When the first actor exited *)
Definition firstAt (s : state) : Z := match exits s with (t, _) :: _ => t | [] => 0 end.

Definition remaining (s : state) : nat :=
  (weight is_running s + weight unfinished s + rank s +
   Z.to_nat (firstAt s + InterruptTimeout + executeReturnTimeout - now s))%nat.

Lemma run_decreases n k s s' : invariant n k s → s' ∈ run_moves s → (remaining s' < remaining s)%nat.
Proof.
  intros [Hn Hq Hk He Ht Hm] Hs. unfold run_moves in Hs. destruct (main s) as [|i x|d x|i t x|r t] eqn:Em.
  - destruct (actorErrors s) as [|e q]; [by apply elem_of_nil in Hs|]. apply list_elem_of_singleton in Hs as ->.
    unfold remaining, rank, weight, firstAt. fields. rewrite Em. lia.
  - destruct (actors s !! i) as [a|] eqn:Ea.
    + destruct (held s + 1 <=? numActors s); [|by apply elem_of_nil in Hs]. apply list_elem_of_singleton in Hs as ->.
      destruct Hm as (_ & _ & _ & _ & Ha). pose proof (Ha i a Ea) as Hai. cbn beta in Hai.
      rewrite decide_False in Hai by lia.
      set (b := ActorState (running a) (Interrupting (aerr x))).
      pose proof (weight_insert unfinished s i a b (held s + 1) (Signalling (Datatypes.S i) x) Ea) as Hw.
      pose proof (weight_insert is_running s i a b (held s + 1) (Signalling (Datatypes.S i) x) Ea) as Hw2.
      change (is_running b) with (is_running a) in Hw2. change (unfinished b) with 1%nat in Hw.
      unfold unfinished in Hw at 2. rewrite Hai in Hw. unfold remaining, rank, firstAt in *. fields.
      rewrite Em, length_insert. lia.
    + apply list_elem_of_singleton in Hs as ->. unfold remaining, rank, weight, firstAt. fields. rewrite Em. lia.
  - assert (Hlen : (1 <= n)%nat) by (destruct Hm as (-> & _); lia).
    apply elem_of_app in Hs. destruct Hs as [Hs|Hs]; case_match; try (by apply elem_of_nil in Hs);
      apply list_elem_of_singleton in Hs as ->; unfold remaining, rank, weight, firstAt; fields; rewrite Em; lia.
  - destruct (Z.of_nat i <? numActors s) eqn:Ei.
    + unfold numActors, len in Ei. apply elem_of_app in Hs as [Hs|Hs].
      * destruct (actorErrors s); [by apply elem_of_nil in Hs|]. apply list_elem_of_singleton in Hs as ->.
        unfold remaining, rank, weight, firstAt; fields; rewrite Em; lia.
      * case_match; [|by apply elem_of_nil in Hs]. apply list_elem_of_singleton in Hs as ->.
        unfold remaining, rank, weight, firstAt; fields; rewrite Em; lia.
    + apply list_elem_of_singleton in Hs as ->. unfold remaining, rank, weight, firstAt; fields; rewrite Em; lia.
  - by apply elem_of_nil in Hs.
Qed.

Lemma step_decreases n k s s' :
  invariant n k s → exits s ≠ [] → ¬ done s → step s s' → (remaining s' < remaining s)%nat.
Proof.
  intros Hi Hex Hd Hs. revert Hi Hex Hd.
  destruct Hs as [s s' Hs|i e s s' Hs|i s s' Hs|d s s' Hs]; intros Hi Hex Hd; [by eapply run_decreases| | |].
  - unfold actor_exits in Hs. destruct (actors s !! i) as [[[] sig]|] eqn:Ea; [|done..]. injection Hs as <-.
    pose proof (sum_list_with_insert is_running (actors s) i _ (ActorState false sig) Ea) as Hw. cbn in Hw.
    assert (Hu : sum_list_with unfinished (<[i := ActorState false sig]> (actors s)) = weight unfinished s)
      by (by eapply sum_same).
    unfold remaining, weight, rank, firstAt in *. fields. rewrite length_insert, Hu.
    destruct (exits s) as [|[t0 x0] rest]; [done|]. cbn [app]. lia.
  - unfold interrupt_returns in Hs. destruct (actors s !! i) as [[r [|e|e]]|] eqn:Ea; try done. injection Hs as <-.
    pose proof (sum_list_with_insert unfinished (actors s) i _ (ActorState r (Interrupted e)) Ea) as Hw. cbn in Hw.
    assert (Hu : sum_list_with is_running (<[i := ActorState r (Interrupted e)]> (actors s)) = weight is_running s)
      by (by eapply sum_same).
    unfold remaining, weight, rank, firstAt in *. fields. rewrite length_insert, Hu. lia.
  - unfold passes in Hs. destruct (run_moves s) eqn:Er; [|by rewrite andb_false_r in Hs].
    pose proof (blocked_cases n k s Hi Er) as Hb. destruct Hi as [Hn Hq Hk He Ht Hm].
    destruct (0 <? d) eqn:Ed; [|done]. unfold deadline_of in Hs. cbn [andb is_empty] in Hs.
    unfold remaining, weight, rank, firstAt. destruct (main s) as [|i x|d0 x|i t x|r t] eqn:Em; [done|done| | |].
    + destruct (now s + d <=? d0) eqn:E0; [|done]. injection Hs as <-. fields.
      destruct Hm as (_ & _ & (rest & ->) & _). unfold InterruptTimeout, executeReturnTimeout, second in *. lia.
    + destruct (now s + d <=? t) eqn:E0; [|done]. injection Hs as <-. fields.
      destruct Hm as (_ & t0 & (rest & ->) & Ht0 & _). unfold InterruptTimeout, executeReturnTimeout, second in *. lia.
    + exfalso. apply Hd. by exists r, t.
Qed.

Lemma exits_kept s s' : exits s ≠ [] → step s s' → exits s' ≠ [].
Proof.
  intros Hex Hs. revert Hex. destruct Hs as [s s' Hs|i e s s' Hs|i s s' Hs|d s s' Hs]; intros Hex.
  - unfold run_moves in Hs. repeat case_match; repeat apply elem_of_app in Hs as [Hs|Hs];
      repeat case_match; try (by apply elem_of_nil in Hs); apply list_elem_of_singleton in Hs as ->; done.
  - unfold actor_exits in Hs. repeat case_match; simplify_eq. fields. by destruct (exits s).
  - unfold interrupt_returns in Hs. by repeat case_match; simplify_eq.
  - unfold passes in Hs. by repeat case_match; simplify_eq.
Qed.

Lemma progress n k s : invariant n k s → exits s ≠ [] → ¬ done s → ∃ s', step s s'.
Proof.
  intros Hi Hex Hd. destruct (run_moves s) as [|s' l] eqn:Er; [|exists s'; apply step_run; rewrite Er; by left].
  pose proof (blocked_cases n k s Hi Er) as Hb.
  assert (Hp : ∀ d, deadline_of s = Some d → now s < d → ∃ s', step s s').
  { intros d Hdl Hlt. eexists. apply (step_time (d - now s)). unfold passes. rewrite Er, Hdl.
    replace (0 <? d - now s) with true by lia. replace (now s + (d - now s) <=? d) with true by lia. reflexivity. }
  unfold deadline_of in Hp. destruct (main s) as [|i x|d x|i t x|r t] eqn:Em; [done|done|eauto..|].
  exfalso. apply Hd. by exists r, t.
Qed.

(** C10: Once an actor has exited, [Run] returns: whatever the actors do from then on (their [execute] or their
    [interrupt] may hang), there is always a next step and after finitely many steps [Run] is done. *)
Theorem Run_returns n t s : reachable n t s → exits s ≠ [] → eventually done s.
Proof.
  intros Hr. destruct (reachable_invariant n t s Hr) as [k Hk]. clear Hr.
  remember (remaining s) as m eqn:Em. revert s k Hk Em. induction m as [m IH] using lt_wf_ind. intros s k Hk -> Hex.
  assert (Hdec : done s ∨ ¬ done s).
  { unfold done. destruct (main s); [right; by intros (? & ? & ?)..|left; by eexists _, _]. }
  destruct Hdec as [Hd|Hd]; [by apply ev_now|]. apply ev_next; [by eapply progress|]. intros s' Hs.
  destruct (step_preserves n k s s' Hk Hs) as [k' Hk'].
  eapply IH; [by eapply step_decreases|exact Hk'|done|by eapply exits_kept].
Qed.

(** C9: [Run] returns the error of the actor that exited first, at most fifteen seconds after it, and has
    by then interrupted every actor with that error; before the five seconds for the actors to exit are over
    it returns only when all have.  No actor is interrupted before one has exited. *)
Theorem Run_result n t s :
  (0 < n)%nat → reachable n t s →
  (exits s = [] → main s = WaitingForFirst ∧ all_actors (actors s) (λ _ a, interrupt a = NotInterrupted)) ∧
  ∀ r t', main s = Done r t' → ∃ x t0 rest,
    exits s = (t0, x) :: rest ∧ r = aerr x ∧ t' <= t0 + InterruptTimeout + executeReturnTimeout ∧
    all_actors (actors s) (λ _, told (aerr x)) ∧
    (all_actors (actors s) (λ _ a, running a = false) ∨ t0 + executeReturnTimeout <= t').
Proof.
  intros Hn Hr. destruct (reachable_invariant n t s Hr) as [k [Hl Hq Hk He Ht Hm]]. split.
  - intros Hex. unfold first_exit in Hm. rewrite Hex in *. destruct (main s) as [|i x|d x|i t0 x|r t0].
    + split; [done|]. apply Hm.
    + by destruct Hm as (_ & _ & _ & [? ?] & _).
    + by destruct Hm as (_ & _ & [? ?] & _).
    + by destruct Hm as (_ & ? & [? ?] & _).
    + destruct Hm as [[? _]|(? & ? & [? ?] & _)]; [lia|done].
  - intros r t' Em. rewrite Em in Hm. destruct Hm as [[? _]|(x & t0 & [rest Hx] & -> & Hd & Ha & _ & Hw)]; [lia|].
    exists x, t0, rest. do 4 (split; [done|]). destruct Hw as [Hw|Hw]; [left|by right].
    intros j a Hj. pose proof (sum_zero is_running _ j a Hw Hj) as Hz. unfold is_running in Hz. by destruct (running a).
Qed.

(** ** Examples *)

(** Two actors, of which the first exits with an error and the second hangs *)
Definition failed : option err := Some (Errorf "exit").
Definition one_exit : state :=
  State [ActorState false NotInterrupted; ActorState true NotInterrupted] [ActorError 0 failed] 0 WaitingForFirst 7
    [(7, ActorError 0 failed)].

Lemma one_exit_reachable : reachable 2 7 one_exit.
Proof. eapply reach_step; [apply reach_start|]. by apply (step_exit 0 failed). Qed.

Lemma Run_returns_witness : eventually done one_exit.
Proof. apply (Run_returns 2 7); [exact one_exit_reachable|discriminate]. Defined.

(** [Run] with one actor, up to its end *)
Definition ended : state :=
  State [ActorState false (Interrupting failed)] [] 1 (Done failed (7 + InterruptTimeout)) (7 + InterruptTimeout)
    [(7, ActorError 0 failed)].

Lemma ended_reachable : reachable 1 7 ended.
Proof.
  assert (R1 : reachable 1 7 (State [ActorState false NotInterrupted] [ActorError 0 failed] 0 WaitingForFirst 7
    [(7, ActorError 0 failed)])) by (eapply reach_step; [apply reach_start|]; by apply (step_exit 0 failed)).
  assert (R2 : reachable 1 7 (State [ActorState false NotInterrupted] [] 0 (Signalling 0 (ActorError 0 failed)) 7
    [(7, ActorError 0 failed)])) by (eapply reach_step; [exact R1|]; apply step_run; by left).
  assert (R3 : reachable 1 7 (State [ActorState false (Interrupting failed)] [] 1 (Signalling 1 (ActorError 0 failed)) 7
    [(7, ActorError 0 failed)])) by (eapply reach_step; [exact R2|]; apply step_run; by left).
  assert (R4 : reachable 1 7 (State [ActorState false (Interrupting failed)] [] 1
    (AwaitingInterrupts (7 + InterruptTimeout) (ActorError 0 failed)) 7 [(7, ActorError 0 failed)]))
    by (eapply reach_step; [exact R3|]; apply step_run; by left).
  assert (R5 : reachable 1 7 (State [ActorState false (Interrupting failed)] [] 1
    (AwaitingInterrupts (7 + InterruptTimeout) (ActorError 0 failed)) (7 + InterruptTimeout) [(7, ActorError 0 failed)]))
    by (eapply reach_step; [exact R4|]; by apply (step_time InterruptTimeout)).
  assert (R6 : reachable 1 7 (State [ActorState false (Interrupting failed)] [] 1
    (Collecting 1 (7 + InterruptTimeout + executeReturnTimeout) (ActorError 0 failed)) (7 + InterruptTimeout)
    [(7, ActorError 0 failed)])) by (eapply reach_step; [exact R5|]; apply step_run; by left).
  eapply reach_step; [exact R6|]. apply step_run. by left.
Qed.

Lemma Run_result_witness :
  main ended = Done failed (7 + InterruptTimeout) ∧ all_actors (actors ended) (λ _ a, running a = false).
Proof.
  split; [reflexivity|].
  destruct (proj2 (Run_result 1 7 ended ltac:(lia) ended_reachable) failed _ eq_refl)
    as (x & t0 & rest & _ & _ & _ & _ & [Hx|Hx]); [exact Hx|].
  intros [|j] a Hj; [injection Hj as <-; reflexivity|discriminate Hj].
Defined.

End RunGroup.

(** ** pkg/backoff *)
Module Backoff.

Record Backoff := MkBackoff { count : Z; maxAttempt : Z; delay : Z }.

(** [New], with the option [MaxAttempts] or without *)
Definition New (maxAttempts : option Z) : Backoff := MkBackoff 0 (default 20 maxAttempts) 1.

(** [try]: [outcome k] is what the [k]th call of [runFunc] returns; with the calls made and the time waited *)
Fixpoint try (fuel : nat) (outcome : nat → option err) (b : Backoff) (calls : nat) (waited : Z)
    : res (Backoff * option err * nat * Z) :=
  match fuel with
  | O => NoFuel
  | Datatypes.S fuel =>
      let b := MkBackoff (count b + 1) (maxAttempt b) (delay b) in
      match outcome calls with
      | Some e =>
          if maxAttempt b <=? count b then Ok (b, Some (Wrapf "done trying: %w" e), Datatypes.S calls, waited)
          else try fuel outcome b (Datatypes.S calls) (waited + second * delay b)
      | None => Ok (b, None, Datatypes.S calls, waited)
      end
  end.

(** The attempts that are left, at least one *)
Definition attempts (b : Backoff) : nat := Z.to_nat (Z.max 1 (maxAttempt b - count b)).

Definition Run (runFunc : nat → option err) (b : Backoff) : res (Backoff * option err * nat * Z) :=
  try (attempts b) runFunc b 0 0.

Lemma try_spec fuel outcome : ∀ b calls waited,
  fuel = attempts b → ∃ n r,
    try fuel outcome b calls waited =
      Ok (MkBackoff (count b + Z.of_nat n + 1) (maxAttempt b) (delay b), r, (calls + n + 1)%nat,
          waited + Z.of_nat n * (second * delay b)) ∧
    (n < fuel)%nat ∧ (∀ j, (j < n)%nat → outcome (calls + j)%nat ≠ None) ∧
    match r with
    | None => outcome (calls + n)%nat = None
    | Some e => n = (fuel - 1)%nat ∧ ∃ e0, outcome (calls + n)%nat = Some e0 ∧ e = Wrapf "done trying: %w" e0
    end.
Proof.
  unfold attempts. induction fuel as [|fuel IH]; intros b calls waited Hf; [lia|].
  assert (Hdone : ∀ r : option err, ∃ n (r' : option err), Ok (MkBackoff (count b + 1) (maxAttempt b) (delay b), r, Datatypes.S calls, waited) =
    Ok (MkBackoff (count b + Z.of_nat n + 1) (maxAttempt b) (delay b), r', (calls + n + 1)%nat,
        waited + Z.of_nat n * (second * delay b)) ∧ n = 0%nat ∧ r' = r).
  { intros r. exists 0%nat, r. split; [|done]. by rewrite !Z.add_0_r, Nat.add_0_r, Nat.add_1_r. }
  cbn [try]. cbn zeta. destruct (outcome calls) as [e|] eqn:Eo; cbn [maxAttempt count delay].
  - destruct (maxAttempt b <=? count b + 1) eqn:Em.
    + destruct (Hdone (Some (Wrapf "done trying: %w" e))) as (n & r & -> & -> & ->). exists 0%nat. eexists. split; [done|].
      split; [lia|]. split; [intros j; lia|]. split; [lia|]. exists e. by rewrite Nat.add_0_r.
    + destruct (IH (MkBackoff (count b + 1) (maxAttempt b) (delay b)) (Datatypes.S calls) (waited + second * delay b))
        as (n & r & -> & Hn & Hj & Hr); [cbn; lia|]. exists (Datatypes.S n), r. cbn [count maxAttempt delay].
      split.
      { replace (count b + Z.of_nat (Datatypes.S n) + 1) with (count b + 1 + Z.of_nat n + 1) by lia.
        replace (calls + Datatypes.S n + 1)%nat with (Datatypes.S calls + n + 1)%nat by lia.
        by replace (waited + Z.of_nat (Datatypes.S n) * (second * delay b))
          with (waited + second * delay b + Z.of_nat n * (second * delay b)) by lia. }
      split; [lia|]. split.
      * intros [|j] Hlt; [by rewrite Nat.add_0_r, Eo|]. rewrite <- Nat.add_succ_comm. apply Hj. lia.
      * rewrite <- Nat.add_succ_comm. destruct r; [|done]. destruct Hr as [-> Hr]. split; [lia|done].
  - destruct (Hdone None) as (n & r & -> & -> & ->). exists 0%nat, None. split; [done|]. split; [lia|]. split; [intros j; lia|].
    by rewrite Nat.add_0_r.
Qed.

(** [Run] comes to an end after at most the attempts that are left: it stops at the first call that
    succeeds, with one delay between two calls, and otherwise wraps the error of the last. *)
Theorem Run_attempts runFunc b : ∃ n r,
  Run runFunc b = Ok (MkBackoff (count b + Z.of_nat n + 1) (maxAttempt b) (delay b), r, (n + 1)%nat,
                      Z.of_nat n * (second * delay b)) ∧
  (n < attempts b)%nat ∧ (∀ j, (j < n)%nat → runFunc j ≠ None) ∧
  match r with
  | None => runFunc n = None
  | Some e => n = (attempts b - 1)%nat ∧ ∃ e0, runFunc n = Some e0 ∧ e = Wrapf "done trying: %w" e0
  end.
Proof. exact (try_spec (attempts b) runFunc b 0 0 eq_refl). Qed.

(** The count is not reset: a [Backoff] whose attempts are used up tries only once when it is run again. *)
Lemma Run_again b : maxAttempt b <= count b → attempts b = 1%nat.
Proof. unfold attempts. lia. Qed.

(** *** The duration counter (counter.go) *)
Record durationCounter := MkCounter {
  ccount : Z;
  baseInterval : Z;
  maxInterval : Z;
  calcNext : Z → Z → Z
}.

Definition Next (dc : durationCounter) : durationCounter * Z :=
  let n := to_int64 (ccount dc + 1) in
  let interval := calcNext dc n (baseInterval dc) in
  (MkCounter n (baseInterval dc) (maxInterval dc) (calcNext dc),
   if maxInterval dc <? interval then maxInterval dc else interval).

Definition Reset (dc : durationCounter) : durationCounter :=
  MkCounter 0 (baseInterval dc) (maxInterval dc) (calcNext dc).

Definition NewMultiplicativeDurationCounter (baseDuration maxDuration : Z) : durationCounter :=
  MkCounter 0 baseDuration maxDuration (λ count baseInterval, to_int64 (baseInterval * count)).

(** The intervals of [n] calls of [Next] *)
Fixpoint Nexts (n : nat) (dc : durationCounter) : list Z :=
  match n with O => [] | Datatypes.S n => let '(dc, d) := Next dc in d :: Nexts n dc end.

(** The [k]th interval is [k] times the base, but at most the maximum, as long as the product fits
    in 63 bits; after [Reset] the intervals begin again. *)
Theorem Nexts_multiplicative base mx n dc :
  0 <= base → base * Z.of_nat n < two63 → Z.of_nat n < two63 →
  Reset dc = NewMultiplicativeDurationCounter base mx →
  Nexts n (Reset dc) = map (λ k, Z.min (base * Z.of_nat k) mx) (seq 1 n).
Proof.
  intros Hb Hn Hn' ->. unfold NewMultiplicativeDurationCounter.
  assert (IH : ∀ m c, 0 <= c → base * (c + Z.of_nat m) < two63 → c + Z.of_nat m < two63 →
    Nexts m (MkCounter c base mx (λ count baseInterval, to_int64 (baseInterval * count))) =
      map (λ k, Z.min (base * Z.of_nat k) mx) (seq (Z.to_nat c + 1) m)).
  { induction m as [|m IHm]; intros c Hc H1 H2; [done|]. cbn [Nexts Next ccount baseInterval maxInterval calcNext seq map].
    rewrite (to_int64_small (c + 1)), (to_int64_small (base * (c + 1))) by nia. rewrite IHm by nia.
    f_equal; [|do 2 f_equal; lia]. replace (Z.of_nat (Z.to_nat c + 1)) with (c + 1) by lia.
    destruct (mx <? base * (c + 1)) eqn:E; lia. }
  by rewrite (IH n 0) by lia.
Qed.

Lemma Nexts_multiplicative_witness :
  Nexts 6 (Reset (NewMultiplicativeDurationCounter second (5 * second))) =
    [second; 2 * second; 3 * second; 4 * second; 5 * second; 5 * second].
Proof.
  rewrite (Nexts_multiplicative second (5 * second) 6); [reflexivity|vm_compute; discriminate|vm_compute; reflexivity..|reflexivity].
Defined.

End Backoff.
