(* ===== verification/Json.v ===== *)
(** * The parts of encoding/json the deserializers call

    [json.Marshal] of strings, of string maps (keys sorted), of arrays, and of byte slices
    (base64), with Go's escaping: HTML characters and U+2028/9 are escaped, bytes that are
    not valid UTF-8 become U+FFFD. *)
From Stdlib Require Import Strings.Byte DecimalString DecimalZ.
From S2P Require Import Prelude.

(** [b] is between [lo] and [hi] *)
Definition in_range (lo hi : Z) (b : byte) : bool := (lo <=? byte_Z b) && (byte_Z b <=? hi).

(** [utf8.DecodeRune]: the number of bytes of the rune that starts [s], 0 when invalid *)
Definition rune_size (s : bytes) : nat :=
  let cont := in_range 0x80 0xbf in
  match s with
  | b :: c :: s' =>
      if in_range 0xc2 0xdf b && cont c then 2%nat
      else
        match s' with
        | d :: s'' =>
            let ok2 :=
              if byte_Z b =? 0xe0 then in_range 0xa0 0xbf c
              else if byte_Z b =? 0xed then in_range 0x80 0x9f c
              else in_range 0xe1 0xef b && cont c in
            if ok2 && cont d then 3%nat
            else
              match s'' with
              | e :: _ =>
                  let ok2 :=
                    if byte_Z b =? 0xf0 then in_range 0x90 0xbf c
                    else if byte_Z b =? 0xf4 then in_range 0x80 0x8f c
                    else in_range 0xf1 0xf3 b && cont c in
                  if ok2 && cont d && cont e then 4%nat else 0%nat
              | [] => 0%nat
              end
        | [] => 0%nat
        end
  | _ => 0%nat
  end.

(** [utf8.ValidString] *)
Fixpoint valid_utf8 (s : bytes) : bool :=
  match s with
  | [] => true
  | b :: s1 =>
      if byte_Z b <? 128 then valid_utf8 s1
      else
        match rune_size s, s1 with
        | 2%nat, _ :: s2 => valid_utf8 s2
        | 3%nat, _ :: _ :: s3 => valid_utf8 s3
        | 4%nat, _ :: _ :: _ :: s4 => valid_utf8 s4
        | _, _ => false
        end
  end.

(** [string(rune(b))], as [%c] prints a byte *)
Definition utf8_rune (b : byte) : bytes :=
  if byte_Z b <? 128 then [b]
  else [Z_byte (Z.lor 0xc0 (Z.shiftr (byte_Z b) 6)); Z_byte (Z.lor 0x80 (Z.land (byte_Z b) 0x3f))].

Definition hex_digit (z : Z) : byte := if z <? 10 then Z_byte (48 + z) else Z_byte (87 + z).

(** An ASCII character inside a JSON string *)
Definition json_ascii (b : byte) : bytes :=
  let z := byte_Z b in
  if (z =? 34) || (z =? 92) then [x5c; b]
  else if z =? 8 then bs "\b"
  else if z =? 12 then bs "\f"
  else if z =? 10 then bs "\n"
  else if z =? 13 then bs "\r"
  else if z =? 9 then bs "\t"
  else if (z <? 32) || (z =? 60) || (z =? 62) || (z =? 38) then
    bs "\u00" ++ [hex_digit (Z.shiftr z 4); hex_digit (Z.land z 15)]
  else [b].

Fixpoint json_chars (s : bytes) : bytes :=
  match s with
  | [] => []
  | b :: s1 =>
      if byte_Z b <? 128 then json_ascii b ++ json_chars s1
      else
        match rune_size s, s1 with
        | 2%nat, c :: s2 => b :: c :: json_chars s2
        | 3%nat, c :: d :: s3 =>
            if (byte_Z b =? 0xe2) && (byte_Z c =? 0x80) && in_range 0xa8 0xa9 d
            then bs "\u202" ++ [hex_digit (Z.land (byte_Z d) 15)] ++ json_chars s3
            else b :: c :: d :: json_chars s3
        | 4%nat, c :: d :: e :: s4 => b :: c :: d :: e :: json_chars s4
        | _, _ => bs "\ufffd" ++ json_chars s1
        end
  end.

Definition json_string (s : bytes) : bytes := x22 :: json_chars s ++ [x22].

(** [strings.Join] *)
Fixpoint join (sep : bytes) (l : list bytes) : bytes :=
  match l with
  | [] => []
  | [x] => x
  | x :: l' => x ++ sep ++ join sep l'
  end.

Definition json_array (l : list bytes) : bytes := bs "[" ++ join (bs ",") l ++ bs "]".

(** A slot of an [[]any] that holds nil or a string *)
Definition json_slot (s : option bytes) : bytes :=
  match s with None => bs "null" | Some v => json_string v end.

(** Keys in the order of [strings.Compare] *)
Definition key_le {A} (x y : bytes * A) : Prop := bytes_compare x.1 y.1 <= 0.

#[export] Instance key_le_dec {A} : RelDecision (@key_le A).
Proof. unfold key_le. intros x y. apply _. Defined.

Definition sorted_entries {A} (m : gmap bytes A) : list (bytes * A) := merge_sort key_le (map_to_list m).

(** [json.Marshal] of a [map[string]T], with [enc] for the values *)
Definition json_object {A} (enc : A → bytes) (m : gmap bytes A) : bytes :=
  bs "{" ++ join (bs ",") (map (λ '(k, v), json_string k ++ bs ":" ++ enc v) (sorted_entries m)) ++ bs "}".

(** [base64.StdEncoding] *)
Definition b64_digit (z : Z) : byte :=
  if z <? 26 then Z_byte (65 + z)
  else if z <? 52 then Z_byte (71 + z)
  else if z <? 62 then Z_byte (z - 4)
  else if z =? 62 then x2b else x2f.

Fixpoint base64 (s : bytes) : bytes :=
  match s with
  | [] => []
  | [a] =>
      let v := Z.shiftl (byte_Z a) 4 in
      [b64_digit (Z.shiftr v 6); b64_digit (Z.land v 63); x3d; x3d]
  | [a; b] =>
      let v := Z.shiftl (Z.lor (Z.shiftl (byte_Z a) 8) (byte_Z b)) 2 in
      [b64_digit (Z.shiftr v 12); b64_digit (Z.land (Z.shiftr v 6) 63); b64_digit (Z.land v 63); x3d]
  | a :: b :: c :: s' =>
      let v := Z.lor (Z.lor (Z.shiftl (byte_Z a) 16) (Z.shiftl (byte_Z b) 8)) (byte_Z c) in
      b64_digit (Z.shiftr v 18) :: b64_digit (Z.land (Z.shiftr v 12) 63) ::
        b64_digit (Z.land (Z.shiftr v 6) 63) :: b64_digit (Z.land v 63) :: base64 s'
  end.

Definition json_bytes (s : bytes) : bytes := x22 :: base64 s ++ [x22].

(** ** Facts *)
#[export] Instance key_le_total {A} : Total (@key_le A).
Proof.
  intros x y. unfold key_le. pose proof (bytes_compare_antisym (x.1) (y.1)). lia.
Qed.

#[export] Instance key_le_trans {A} : Transitive (@key_le A).
Proof. intros x y z. unfold key_le. apply bytes_compare_trans. Qed.

Lemma sorted_entries_perm {A} (m : gmap bytes A) : sorted_entries m ≡ₚ map_to_list m.
Proof. apply merge_sort_Permutation. Qed.

Lemma sorted_entries_sorted {A} (m : gmap bytes A) : StronglySorted key_le (sorted_entries m).
Proof. apply StronglySorted_merge_sort; apply _. Qed.

Lemma elem_of_sorted_entries {A} (m : gmap bytes A) k v : (k, v) ∈ sorted_entries m ↔ m !! k = Some v.
Proof. rewrite sorted_entries_perm. apply elem_of_map_to_list. Qed.

(** Keys in strict order: there is one such list of the entries of a map. *)
Definition key_lt {A} (x y : bytes * A) : Prop := bytes_compare x.1 y.1 < 0.

Lemma StronglySorted_lt_unique {A} (l k : list (bytes * A)) :
  StronglySorted key_lt l → StronglySorted key_lt k → l ≡ₚ k → l = k.
Proof.
  intros Hl Hk Hp. apply (StronglySorted_unique_strong key_lt); [|done..].
  intros x y _ _ H1 H2. unfold key_lt in *. pose proof (bytes_compare_antisym x.1 y.1). lia.
Qed.

Lemma StronglySorted_le_lt {A} (l : list (bytes * A)) :
  StronglySorted key_le l → NoDup l.*1 → StronglySorted key_lt l.
Proof.
  induction 1 as [|x l Hl IH Hx]; cbn [fmap list_fmap]; intros Hn; [constructor|].
  apply NoDup_cons in Hn as [Hx1 Hn]. constructor; [auto|]. rewrite Forall_forall in *.
  intros y Hy. specialize (Hx y Hy). unfold key_le, key_lt in *.
  assert (bytes_compare x.1 y.1 ≠ 0); [|lia]. rewrite bytes_compare_eq. intros E. apply Hx1. rewrite E.
  by apply list_elem_of_fmap_2.
Qed.

Lemma sorted_entries_keys {A} (m : gmap bytes A) : NoDup (sorted_entries m).*1.
Proof. rewrite sorted_entries_perm. apply NoDup_fst_map_to_list. Qed.

Lemma sorted_entries_lt {A} (m : gmap bytes A) : StronglySorted key_lt (sorted_entries m).
Proof. apply StronglySorted_le_lt; [apply sorted_entries_sorted|apply sorted_entries_keys]. Qed.

Lemma sorted_entries_unique {A} (m : gmap bytes A) l :
  StronglySorted key_lt l → l ≡ₚ map_to_list m → sorted_entries m = l.
Proof.
  intros Hl Hp. apply StronglySorted_lt_unique; [apply sorted_entries_lt|done|].
  by rewrite sorted_entries_perm.
Qed.

(** A key above all others comes last. *)
Lemma sorted_entries_insert_last {A} (m : gmap bytes A) k v :
  (∀ k', is_Some (m !! k') → bytes_compare k' k < 0) →
  sorted_entries (<[k := v]> m) = sorted_entries m ++ [(k, v)].
Proof.
  intros H. assert (Hk : m !! k = None).
  { destruct (m !! k) eqn:E; [|done]. specialize (H k ltac:(by rewrite E)). by rewrite bytes_compare_refl in H. }
  apply sorted_entries_unique.
  - apply StronglySorted_app_2; [|apply sorted_entries_lt|repeat constructor].
    intros [k1 v1] [k2 v2] H1 H2. apply list_elem_of_singleton in H2 as [= -> ->].
    apply elem_of_sorted_entries in H1. apply H. by eexists.
  - rewrite sorted_entries_perm, map_to_list_insert by done. by rewrite Permutation_app_comm.
Qed.

(** The entries of a part of a map are the part of its entries. *)
Lemma sorted_entries_filter {A} (m m' : gmap bytes A) (P : bytes * A → Prop) `{!∀ x, Decision (P x)} :
  (∀ k v, m' !! k = Some v ↔ m !! k = Some v ∧ P (k, v)) → sorted_entries m' = filter P (sorted_entries m).
Proof.
  intros Hm. apply sorted_entries_unique.
  - generalize (sorted_entries_lt m). generalize (sorted_entries m). clear Hm.
    induction 1 as [|x l Hl IH Hx]; [constructor|]. destruct (decide (P x)).
    + rewrite filter_cons_True by done. constructor; [done|]. rewrite Forall_forall in *.
      intros y [_ Hin]%list_elem_of_filter. by apply Hx.
    + by rewrite filter_cons_False.
  - apply NoDup_Permutation; [|apply NoDup_map_to_list|].
    + apply NoDup_filter. rewrite sorted_entries_perm. apply NoDup_map_to_list.
    + intros [k v]. rewrite list_elem_of_filter, elem_of_sorted_entries, elem_of_map_to_list, Hm. tauto.
Qed.

Example json_escapes : json_string (bs "a<b" ++ [x0a; xc3; xa9; xe2; x80; xa8; xff]) =
  x22 :: bs "a\u003cb\n" ++ [xc3; xa9] ++ bs "\u2028\ufffd" ++ [x22].
Proof. reflexivity. Qed.

Example json_map_sorted : json_object json_string (<[bs "b" := bs "1"]> (<[bs "a" := bs "2"]> ∅)) =
  [x7b; x22; x61; x22; x3a; x22; x32; x22; x2c; x22; x62; x22; x3a; x22; x31; x22; x7d].
Proof. vm_compute. reflexivity. Qed.

Example base64_tail : base64 (bs "hello") = bs "aGVsbG8=".
Proof. reflexivity. Qed.

(** ** Reading a string back

    The inverse of [json_chars] up to the closing quote: the string and what follows it *)
Definition hex_value (b : byte) : option Z :=
  let z := byte_Z b in
  if (48 <=? z) && (z <=? 57) then Some (z - 48)
  else if (97 <=? z) && (z <=? 102) then Some (z - 87)
  else if (65 <=? z) && (z <=? 70) then Some (z - 55)
  else None.

(** UTF-8 of a code point below 2^16 *)
Definition rune_bytes (n : Z) : bytes :=
  if n <? 0x80 then [Z_byte n]
  else if n <? 0x800 then [Z_byte (0xc0 + Z.shiftr n 6); Z_byte (0x80 + Z.land n 0x3f)]
  else [Z_byte (0xe0 + Z.shiftr n 12); Z_byte (0x80 + Z.land (Z.shiftr n 6) 0x3f); Z_byte (0x80 + Z.land n 0x3f)].

Definition unescape (c : byte) : option byte :=
  if c =b x62 then Some x08 else if c =b x66 then Some x0c else if c =b x6e then Some x0a
  else if c =b x72 then Some x0d else if c =b x74 then Some x09
  else if (c =b x22) || (c =b x5c) || (c =b x2f) then Some c else None.

Definition prepend (p : bytes) (r : option (bytes * bytes)) : option (bytes * bytes) :=
  match r with Some (s, rest) => Some (p ++ s, rest) | None => None end.

Fixpoint json_unchars (s : bytes) : option (bytes * bytes) :=
  match s with
  | [] => None
  | b :: s1 =>
      if b =b x22 then Some ([], s1)
      else if b =b x5c then
        match s1 with
        | [] => None
        | c :: s2 =>
            if c =b x75 then
              match s2 with
              | h1 :: h2 :: h3 :: h4 :: s3 =>
                  match hex_value h1, hex_value h2, hex_value h3, hex_value h4 with
                  | Some a1, Some a2, Some a3, Some a4 =>
                      prepend (rune_bytes (4096 * a1 + 256 * a2 + 16 * a3 + a4)) (json_unchars s3)
                  | _, _, _, _ => None
                  end
              | _ => None
              end
            else match unescape c with Some x => prepend [x] (json_unchars s2) | None => None end
        end
      else prepend [b] (json_unchars s1)
  end.

Lemma json_unchars_ascii b t :
  byte_Z b < 128 → json_unchars (json_ascii b ++ t) = prepend [b] (json_unchars t).
Proof. destruct b; intros H; first [reflexivity|exfalso; revert H; vm_compute; discriminate]. Qed.

Lemma json_unchars_raw b t : 128 <= byte_Z b → json_unchars (b :: t) = prepend [b] (json_unchars t).
Proof. destruct b; intros H; first [reflexivity|exfalso; apply H; reflexivity]. Qed.

Lemma prepend_app p q r : prepend p (prepend q r) = prepend (p ++ q) r.
Proof. destruct r as [[s rest]|]; [|done]. cbn. by rewrite app_assoc. Qed.

Lemma in_range_ge lo hi b : in_range lo hi b = true → lo <= byte_Z b.
Proof. unfold in_range. intros ?. zbool. done. Qed.

Ltac in_range_ge := repeat match goal with H : in_range _ _ _ = true |- _ => apply in_range_ge in H end.

Lemma rune_size_cont b s n : rune_size (b :: s) = Datatypes.S n → Forall (λ c, 128 <= byte_Z c) (take n s).
Proof.
  unfold rune_size. destruct s as [|c s]; [done|].
  destruct (in_range 0xc2 0xdf b && in_range 0x80 0xbf c) eqn:E1.
  { intros [= <-]. zbool. repeat constructor. by eapply in_range_ge. }
  destruct s as [|d s]; [done|].
  match goal with |- context [if ?x && _ then 3%nat else _] => destruct x eqn:E2 end; cbn [andb].
  - destruct (in_range 0x80 0xbf d) eqn:E3.
    + intros [= <-]. repeat constructor; [|by eapply in_range_ge].
      clear -E2. revert E2. repeat case_if; intros; zbool; in_range_ge; lia.
    + destruct s as [|e s]; [done|]. rewrite andb_false_r. done.
  - destruct s as [|e s]; [done|].
    match goal with |- context [if (?x && _ && _) then 4%nat else _] => destruct x eqn:E4 end; cbn [andb]; [|done].
    destruct (in_range 0x80 0xbf d) eqn:E5; [|done]. destruct (in_range 0x80 0xbf e) eqn:E6; [|done].
    intros [= <-]. repeat constructor; [|by eapply in_range_ge..].
    clear -E4. revert E4. repeat case_if; intros; zbool; in_range_ge; lia.
Qed.

Lemma json_unchars_chars n : ∀ s rest,
  (length s <= n)%nat → valid_utf8 s = true → json_unchars (json_chars s ++ x22 :: rest) = Some (s, rest).
Proof.
  induction n as [|n IH]; intros [|b s1] rest Hn Hv; try done; cbn [length] in Hn; [lia|].
  cbn [valid_utf8 json_chars] in *. destruct (byte_Z b <? 128) eqn:Eb; zbool.
  { rewrite <- app_assoc, json_unchars_ascii by done. rewrite IH by (done || lia). done. }
  destruct (rune_size (b :: s1)) as [|[|[|[|[|]]]]] eqn:Er; try done; apply rune_size_cont in Er;
    destruct s1 as [|c s1]; try done; [|destruct s1 as [|d s1]; try done|destruct s1 as [|d s1]; [done|];
    destruct s1 as [|e s1]; try done]; cbn [length take firstn] in *;
    repeat match goal with H : Forall _ (_ :: _) |- _ => apply Forall_cons in H as [? H] end.
  - cbn [app]. rewrite !json_unchars_raw, IH by (done || lia). done.
  - case_if.
    + assert (b = xe2) as -> by (by apply byte_Z_inj). assert (c = x80) as -> by (by apply byte_Z_inj).
      assert (Hd : d = xa8 ∨ d = xa9).
      { unfold in_range in *. zbool. assert (byte_Z d = 168 ∨ byte_Z d = 169) as [?|?] by lia;
          [left|right]; by apply byte_Z_inj. }
      destruct Hd as [-> | ->]; cbn [app]; rewrite <- !app_assoc; cbn; rewrite IH by (done || lia); done.
    + cbn [app]. rewrite !json_unchars_raw, IH by (done || lia). done.
  - cbn [app]. rewrite !json_unchars_raw, IH by (done || lia). done.
Qed.

(** A string that is valid UTF-8 is read back as it was. *)
Lemma json_string_roundtrip s rest :
  valid_utf8 s = true → json_unchars (json_chars s ++ x22 :: rest) = Some (s, rest).
Proof. by apply (json_unchars_chars (length s)). Qed.

(** ** Reading base64 and integers back *)
Definition b64_value (b : byte) : option Z :=
  let z := byte_Z b in
  if (65 <=? z) && (z <=? 90) then Some (z - 65)
  else if (97 <=? z) && (z <=? 122) then Some (z - 71)
  else if (48 <=? z) && (z <=? 57) then Some (z + 4)
  else if b =b x2b then Some 62
  else if b =b x2f then Some 63
  else None.

Fixpoint unbase64 (s : bytes) : option bytes :=
  match s with
  | [] => Some []
  | a :: b :: c :: d :: s' =>
      match b64_value a, b64_value b with
      | Some a, Some b =>
          if c =b x3d then Some [Z_byte (Z.shiftr (a * 64 + b) 4)]
          else
            match b64_value c with
            | None => None
            | Some c =>
                let v := (a * 64 + b) * 64 + c in
                if d =b x3d then Some [Z_byte (Z.shiftr v 10); Z_byte (Z.shiftr v 2)]
                else
                  match b64_value d, unbase64 s' with
                  | Some d, Some l =>
                      let v := v * 64 + d in
                      Some (Z_byte (Z.shiftr v 16) :: Z_byte (Z.shiftr v 8) :: Z_byte v :: l)
                  | _, _ => None
                  end
            end
      | _, _ => None
      end
  | _ => None
  end.

Lemma below64 (P : Z → Prop) : Forall P (seqZ 0 64) → ∀ z, 0 <= z < 64 → P z.
Proof. rewrite Forall_forall. intros H z Hz. apply H, elem_of_seqZ. lia. Qed.

Lemma b64_digit_spec z :
  0 <= z < 64 → b64_value (b64_digit z) = Some z ∧ (b64_digit z =b x3d) = false ∧ (b64_digit z =b x22) = false.
Proof.
  revert z. apply (below64 (λ z, b64_value (b64_digit z) = Some z ∧ (b64_digit z =b x3d) = false ∧
    (b64_digit z =b x22) = false)). apply (bool_decide_unpack _). vm_compute. exact I.
Qed.

Lemma land63 z : Z.land z 63 = z mod 64.
Proof. exact (land_ones_mod z 6 ltac:(lia)). Qed.

Lemma Z_byte_mod z z' : z mod 256 = z' mod 256 → Z_byte z = Z_byte z'.
Proof. unfold Z_byte. by intros ->. Qed.

Lemma shiftl_lor a b n : 0 <= n → 0 <= b < 2 ^ n → Z.lor (Z.shiftl a n) b = a * 2 ^ n + b.
Proof. intros Hn Hb. rewrite Z.lor_comm, lor_shiftl_add by lia. lia. Qed.

Lemma b64_value_digit z : 0 <= z < 64 → b64_value (b64_digit z) = Some z.
Proof. apply b64_digit_spec. Qed.

Lemma b64_digit_pad z : 0 <= z < 64 → (b64_digit z =b x3d) = false.
Proof. intros H. by apply b64_digit_spec. Qed.

Lemma Z_byte_of z b : z mod 256 = byte_Z b → Z_byte z = b.
Proof. intros H. rewrite <- (Z_byte_Z b). apply Z_byte_mod. rewrite H. symmetry. apply Z.mod_small, byte_Z_range. Qed.

Ltac powers :=
  repeat match goal with |- context [2 ^ Zpos ?p] => let v := eval compute in (2 ^ Zpos p) in change (2 ^ Zpos p) with v end.

Ltac div_lia := Z.to_euclidean_division_equations; lia.

Lemma lor_bytes a b c :
  0 <= a < 256 → 0 <= b < 256 → 0 <= c < 256 →
  Z.lor (Z.lor (Z.shiftl a 16) (Z.shiftl b 8)) c = a * 65536 + b * 256 + c.
Proof.
  intros. assert (E : Z.lor (Z.shiftl a 16) (Z.shiftl b 8) = Z.shiftl (a * 256 + b) 8).
  { rewrite (Z.shiftl_mul_pow2 b), (Z.shiftl_mul_pow2 (_ + _)), shiftl_lor; lia. }
  rewrite E, shiftl_lor; lia.
Qed.

(** Base64 is read back. *)
Lemma unbase64_base64 s : unbase64 (base64 s) = Some s.
Proof.
  assert (IH : ∀ n s, (length s <= n)%nat → unbase64 (base64 s) = Some s); [|by apply (IH (length s))].
  clear s. induction n as [|n IH]; intros [|a [|b [|c s]]] Hn; cbn [length] in Hn; try done; try lia.
  all: pose proof (byte_Z_range a); try pose proof (byte_Z_range b); try pose proof (byte_Z_range c).
  all: cbn [base64]; cbv zeta; rewrite ?lor_bytes by lia; repeat (rewrite shiftl_lor by lia); rewrite ?land63, ?Z.shiftl_mul_pow2, ?Z.shiftr_div_pow2 by lia; powers.
  all: cbn [unbase64]; rewrite ?b64_value_digit by div_lia.
  all: rewrite ?b64_digit_pad by div_lia; cbn [Byte.eqb]; rewrite ?eqb_refl, ?IH by lia; rewrite ?Z.shiftr_div_pow2 by lia; powers.
  all: repeat f_equal; apply Z_byte_of; div_lia.
Qed.

Lemma json_unchars_b64 z t : 0 <= z < 64 → json_unchars (b64_digit z :: t) = prepend [b64_digit z] (json_unchars t).
Proof.
  intros Hz. cbn [json_unchars]. destruct (b64_digit_spec z Hz) as (_ & _ & ->).
  assert (E : (b64_digit z =b x5c) = false); [|by rewrite E].
  revert z Hz. apply (below64 (λ z, (b64_digit z =b x5c) = false)). apply (bool_decide_unpack _). vm_compute. exact I.
Qed.

Lemma json_unchars_pad t : json_unchars (x3d :: t) = prepend [x3d] (json_unchars t).
Proof. done. Qed.

(** Base64 needs no escapes. *)
Lemma json_unchars_base64 s rest : json_unchars (base64 s ++ x22 :: rest) = Some (base64 s, rest).
Proof.
  assert (IH : ∀ n s, (length s <= n)%nat → json_unchars (base64 s ++ x22 :: rest) = Some (base64 s, rest));
    [|by apply (IH (length s))].
  clear s. induction n as [|n IH]; intros [|a [|b [|c s]]] Hn; cbn [length] in Hn; try done; try lia.
  all: pose proof (byte_Z_range a); try pose proof (byte_Z_range b); try pose proof (byte_Z_range c).
  all: cbn [base64 app]; cbv zeta; rewrite ?lor_bytes by lia; repeat (rewrite shiftl_lor by lia);
    rewrite ?land63, ?Z.shiftl_mul_pow2, ?Z.shiftr_div_pow2 by lia; powers.
  all: rewrite ?json_unchars_b64 by div_lia; rewrite ?json_unchars_pad, ?IH by lia; done.
Qed.

(** The digits in front of a text *)
Definition int_char (b : byte) : bool := (b =b x2d) || ((48 <=? byte_Z b) && (byte_Z b <=? 57)).

Fixpoint span (p : byte → bool) (s : bytes) : bytes * bytes :=
  match s with
  | b :: s' => if p b then let '(l, r) := span p s' in (b :: l, r) else ([], s)
  | [] => ([], [])
  end.

Definition read_int (s : bytes) : option (Z * bytes) :=
  let '(digits, rest) := span int_char s in
  match NilZero.int_of_string (string_of_list_byte digits) with
  | Some i => Some (Z.of_int i, rest)
  | None => None
  end.

Lemma span_app p l b r : Forall (λ x, p x = true) l → p b = false → span p (l ++ b :: r) = (l, b :: r).
Proof. induction 1 as [|x l Hx _ IH]; intros Hb; cbn [span app]; [by rewrite Hb|]. by rewrite Hx, IH. Qed.

Lemma uint_chars d : Forall (λ x, int_char x = true) (list_byte_of_string (NilEmpty.string_of_uint d)).
Proof. induction d; by constructor. Qed.

Lemma itoa_chars z : Forall (λ x, int_char x = true) (itoa z).
Proof.
  unfold itoa, bs, NilZero.string_of_int, NilZero.string_of_uint. destruct (Z.to_int z) as [d|d]; destruct d.
  all: try (repeat constructor; done). all: try apply (uint_chars (_ _)).
  all: apply Forall_cons; split; [done|]; try apply (uint_chars (_ _)); repeat constructor; done.
Qed.

Lemma to_int_norm z : Decimal.norm (Z.to_int z) = Z.to_int z.
Proof. by rewrite <- DecimalZ.to_of, DecimalZ.of_to. Qed.

(** An integer is read back when something that is not a digit follows it. *)
Lemma read_int_itoa z b rest : int_char b = false → read_int (itoa z ++ b :: rest) = Some (z, b :: rest).
Proof.
  intros Hb. unfold read_int. rewrite (span_app _ _ _ _ (itoa_chars z) Hb). unfold itoa, bs.
  rewrite string_of_list_byte_of_string. pose proof (to_int_norm z) as Hn.
  rewrite NilZero.isi; [by rewrite DecimalZ.of_to|intros E; rewrite E in Hn; discriminate..].
Qed.
