(* ===== verification/IdbValues.v ===== *)
(** * ee/indexeddb/values.go: V8's serialized values as rows

    The deserializer of the values Chrome stores in IndexedDB.  A [*bytes.Reader] is the
    [Reader] monad; each function is the Go function of that name.  The functions that
    recurse through [deserializeNext] take it as an argument [next], and [deserializeNext]
    ties the knot with fuel: every call consumes at least one byte, so the number of unread
    bytes bounds the depth, and [deserializeNext] supplies that much. *)
From S2P Require Import Prelude Reader Json.

Module Values.

(** ** Tokens (values.go 25-70) *)
Definition tokenVersion : byte := xff.
Definition tokenPadding : byte := x00.
Definition tokenVerifyObjectCount : byte := x3f.
Definition tokenTheHole : byte := x2d.
Definition tokenUndefined : byte := x5f.
Definition tokenNull : byte := x30.
Definition tokenTrue : byte := x54.
Definition tokenFalse : byte := x46.
Definition tokenInt32 : byte := x49.
Definition tokenUint32 : byte := x55.
Definition tokenDouble : byte := x4e.
Definition tokenBigInt : byte := x5a.
Definition tokenUtf8Str : byte := x53.
Definition tokenAsciiStr : byte := x22.
Definition tokenUtf16Str : byte := x63.
Definition tokenObjReference : byte := x5e.
Definition tokenObjectBegin : byte := x6f.
Definition tokenObjectEnd : byte := x7b.
Definition tokenBeginSparseArray : byte := x61.
Definition tokenEndSparseArray : byte := x40.
Definition tokenBeginDenseArray : byte := x41.
Definition tokenEndDenseArray : byte := x24.
Definition tokenDate : byte := x44.
Definition tokenTrueObj : byte := x79.
Definition tokenFalseObj : byte := x78.
Definition tokenNumberObj : byte := x6e.
Definition tokenBigIntObj : byte := x7a.
Definition tokenStringObj : byte := x73.
Definition tokenRegexp : byte := x52.
Definition tokenMapBegin : byte := x3b.
Definition tokenMapEnd : byte := x3a.
Definition tokenSetBegin : byte := x27.
Definition tokenSetEnd : byte := x2c.
Definition tokenArrayBuffer : byte := x42.
Definition tokenArrayBufferTransfer : byte := x74.
Definition tokenArrayBufferView : byte := x56.
Definition tokenSharedArrayBuffer : byte := x75.
Definition tokenWasmModuleTransfer : byte := x77.
Definition tokenHostObj : byte := x5c.
Definition tokenWasmMemoryTransfer : byte := x6d.
Definition tokenError : byte := x72.
Definition tokenPossiblyArrayTermination0x03 : byte := x03.
Definition tokenPossiblyArrayTermination0x01 : byte := x01.

Definition arrayBufferViewTagInt8Array : byte := x62.
Definition arrayBufferViewTagUint8Array : byte := x42.
Definition arrayBufferViewTagUint8ClampedArray : byte := x43.
Definition arrayBufferViewTagInt16Array : byte := x77.
Definition arrayBufferViewTagUint16Array : byte := x57.
Definition arrayBufferViewTagInt32Array : byte := x64.
Definition arrayBufferViewTagUint32Array : byte := x44.
Definition arrayBufferViewTagFloat32Array : byte := x66.
Definition arrayBufferViewTagFloat64Array : byte := x46.
Definition arrayBufferViewTagBigInt64Array : byte := x71.
Definition arrayBufferViewTagBigUint64Array : byte := x51.
Definition arrayBufferViewTagDataView : byte := x3f.

Definition regexFlagGlobal : Z := 1.
Definition regexFlagIgnoreCase : Z := 2.
Definition regexFlagMultiline : Z := 4.
Definition regexFlagSticky : Z := 8.
Definition regexFlagUnicode : Z := 16.
Definition regexFlagDotAll : Z := 32.
Definition regexFlagHasIndices : Z := 64.
Definition regexFlagUnicodeSets : Z := 128.

Definition errorTagEvalErrorPrototype : byte := x45.
Definition errorTagRangeErrorPrototype : byte := x52.
Definition errorTagReferenceErrorPrototype : byte := x46.
Definition errorTagSyntaxErrorPrototype : byte := x53.
Definition errorTagTypeErrorPrototype : byte := x54.
Definition errorTagUriErrorPrototype : byte := x55.
Definition errorTagMessage : byte := x6d.
Definition errorTagCause : byte := x63.
Definition errorTagStack : byte := x73.
Definition errorTagEnd : byte := x2e.
Definition errorTagIsError : byte := x72.
Definition genericErrorType : bytes := bs "Error".

(** ** The library functions that are not modelled: floating-point and date printing, the
    UTF-16 decoder of x/text, Unicode lower-casing, and [json.Unmarshal]. *)
Class GoLib := {
  FormatFloat : Z → bytes;              (* strconv.FormatFloat(d, 'f', -1, 64), from the bits of d *)
  jsonFloat64 : Z → option bytes;       (* json.Marshal of a float64; None for NaN and infinities *)
  jsonFloat32 : Z → option bytes;
  dateString : Z → bytes;               (* time.UnixMilli(int64(d)).UTC().String() *)
  utf16Decode : bytes → option bytes;   (* unicode.UTF16(LittleEndian, UseBOM) *)
  ToLower : bytes → bytes;              (* strings.ToLower *)
  unmarshalStrings : bytes → option (list bytes);         (* into a []string *)
  unmarshalStringMap : bytes → option (gmap bytes bytes)  (* into a map[string]string *)
}.

(** [make([]T, n)] for an unsigned [n] and elements of [sz] bytes: the runtime panics when the
    slice would exceed the address space of the allocator. *)
Definition maxAlloc : Z := 2 ^ 48.
Definition make (sz n : Z) : Reader unit := if n * sz <=? maxAlloc then mret tt else panic.

(** [r.UnreadByte()] just after [b] was read *)
Definition UnreadByte (b : byte) : Reader unit := fun r => (Ok tt, b :: r).

(** Run a loop with one unit of fuel more than there are bytes to read. *)
Definition with_fuel {A} (f : nat → Reader A) : Reader A := fun r => f (S (length r)) r.

Definition lift {A} (o : res A) : Reader A := fun r => (o, r).

(** A string literal in double quotes *)
Definition quoted (s : string) : bytes := x22 :: bs s ++ [x22].
Arguments quoted s%_string.

(** One of the bytes of a list *)
Definition one_of (b : byte) (l : list byte) : bool := existsb (Byte.eqb b) l.

(** ** Scanning *)
Fixpoint nextNonPaddingByte (r : bytes) : res byte * bytes :=
  match r with
  | [] => (Err (Wrapf "did not expect EOF reading next byte: %w" EOF), [])
  | b :: r' => if b =b tokenPadding then nextNonPaddingByte r' else (Ok b, r')
  end.

(** [readHeader]: the loop, with the version read last *)
Fixpoint readHeader_loop (fuel : nat) (serializerVersion : Z) : Reader (Z * byte) :=
  match fuel with
  | O => no_fuel
  | S fuel' =>
      o ← attempt ReadByte;
      match o with
      | inr _ => fail (Errorf "unexpected EOF reading header")
      | inl nextByte =>
          if nextByte =b tokenVersion then
            v ← ctx "decoding uint32 for version in header: %w" ReadUvarint;
            readHeader_loop fuel' v
          else if one_of nextByte
                    [tokenObjectBegin; tokenBeginDenseArray; tokenBeginSparseArray; tokenArrayBuffer]
          then mret (serializerVersion, nextByte)
          else readHeader_loop fuel' serializerVersion
      end
  end.

Definition readHeader : Reader (Z * byte) := with_fuel (λ fuel, readHeader_loop fuel 0).

Section Lib.
Context `{G : GoLib}.

(** ** Strings *)
Definition deserializeAsciiStr : Reader bytes :=
  strLen ← ctx "reading uvarint: %w" ReadUvarint;
  _ ← make 1 strLen;
  ctx "reading next byte at index %d in ascii string with length %d: %w" (ReadBytes (to_int64 strLen)).

Definition deserializeUtf16Str : Reader bytes :=
  strLen ← ctx "reading uvarint: %w" ReadUvarint;
  _ ← make 1 strLen;
  strBytes ← ctx "reading next byte at index %d in utf16 string with length %d: %w"
    (ReadBytes (to_int64 strLen));
  match utf16Decode strBytes with
  | Some decoded => mret decoded
  | None => fail (Errorf "reading string as utf-16: %w")
  end.

Definition deserializeStringObject : Reader bytes :=
  stringTypeToken ← ctx "reading token to determine encoding for String: %w" nextNonPaddingByte;
  if one_of stringTypeToken [tokenAsciiStr; tokenUtf8Str] then deserializeAsciiStr
  else if stringTypeToken =b tokenUtf16Str then deserializeUtf16Str
  else fail (Errorf "unknown token for String %02x / `%s`").

Definition regexpFlagsStr (regexpFlags : Z) : bytes :=
  let flag f s := if negb (Z.land regexpFlags f =? 0) then bs s else [] in
  flag regexFlagIgnoreCase "i"%string ++ flag regexFlagGlobal "g"%string ++
  flag regexFlagMultiline "m"%string ++ flag regexFlagSticky "y"%string ++
  flag regexFlagUnicode "u"%string ++ flag regexFlagDotAll "s"%string ++
  flag regexFlagHasIndices "d"%string ++ flag regexFlagUnicodeSets "v"%string.

Definition deserializeRegexp : Reader bytes :=
  nextByte ← ctx "reading first byte of regexp object: %w" nextNonPaddingByte;
  if negb (nextByte =b tokenAsciiStr) then
    fail (Errorf "unexpected tag 0x%02x / `%s` at start of regexp object (expected 0x%02x / `%s`)")
  else
    regexpStrBytes ← ctx "deserializing string portion of regexp: %w" deserializeAsciiStr;
    regexpFlags ← ctx "reading uvarint as regexp flag: %w" ReadUvarint;
    mret (bs "/" ++ regexpStrBytes ++ bs "/" ++ regexpFlagsStr regexpFlags).

(** ** BigInts: the digits are skipped *)
Definition deserializeBigInt : Reader bytes :=
  bitfield ← ctx "reading bitfield for BigInt: %w" ReadUvarint;
  let isNegative := Z.land bitfield 1 in
  let bigIntLen := Z.land bitfield (2 ^ 32 - 1) in
  let numBytesToRead := bigIntLen / 2 in
  _ ← make 1 numBytesToRead;
  _ ← ctx "reading byte %d of %d for BigInt: %w" (ReadBytes (to_int64 numBytesToRead));
  if 0 <? isNegative then mret (bs "-?n") else mret (bs "?n").

(** ** Array buffers and typed arrays *)
Fixpoint readElems (w n : nat) : Reader (list Z) :=
  match n with
  | O => mret []
  | S n' => v ← ReadFixed w; vs ← readElems w n'; mret (v :: vs)
  end.

Definition readUint8Array : Reader (list Z) :=
  arrayLen ← Len;
  ctx "reading uint8 at index %d in TypedArray: %w" (readElems 1 (Z.to_nat arrayLen)).
Definition readUint16Array : Reader (list Z) :=
  n ← Len;
  ctx "reading uint16 at index %d in TypedArray: %w" (readElems 2 (Z.to_nat (n / 2))).
Definition readUint32Array : Reader (list Z) :=
  n ← Len;
  ctx "reading uint32 at index %d in TypedArray: %w" (readElems 4 (Z.to_nat (n / 4))).
Definition readFloat32Array : Reader (list Z) :=
  n ← Len;
  ctx "reading float32 at index %d in TypedArray: %w" (readElems 4 (Z.to_nat (n / 4))).
Definition readUint64Array : Reader (list Z) :=
  n ← Len;
  ctx "reading uint64 at index %d in TypedArray: %w" (readElems 8 (Z.to_nat (n / 8))).
Definition readFloat64Array : Reader (list Z) :=
  n ← Len;
  ctx "reading float64 at index %d in TypedArray: %w" (readElems 8 (Z.to_nat (n / 8))).

(** The outer option: the tag is known; the inner: [json.Marshal] accepts the elements. *)
Definition readTypedArray (arrayBufferViewTag : byte) : option (Reader (option bytes)) :=
  let ints (m : Reader (list Z)) := l ← m; mret (Some (json_array (map itoa l))) in
  let floats (enc : Z → option bytes) (m : Reader (list Z)) :=
    l ← m; mret (json_array <$> mapM enc l) in
  if one_of arrayBufferViewTag
       [arrayBufferViewTagInt8Array; arrayBufferViewTagUint8Array; arrayBufferViewTagUint8ClampedArray]
  then Some (l ← readUint8Array; mret (Some (json_bytes (map Z_byte l))))
  else if one_of arrayBufferViewTag [arrayBufferViewTagInt16Array; arrayBufferViewTagUint16Array]
  then Some (ints readUint16Array)
  else if one_of arrayBufferViewTag [arrayBufferViewTagInt32Array; arrayBufferViewTagUint32Array]
  then Some (ints readUint32Array)
  else if arrayBufferViewTag =b arrayBufferViewTagFloat32Array
  then Some (floats jsonFloat32 readFloat32Array)
  else if one_of arrayBufferViewTag [arrayBufferViewTagBigInt64Array; arrayBufferViewTagBigUint64Array]
  then Some (ints readUint64Array)
  else if arrayBufferViewTag =b arrayBufferViewTagFloat64Array
  then Some (floats jsonFloat64 readFloat64Array)
  else None.

(** The data of the view [tag] that starts at [byteOffset] of the raw buffer *)
Definition interpretView (arrayBufferViewTag : byte) (byteOffset : Z) (raw : bytes) : res bytes :=
  ((_ ← ctx "reading byte %d of %d in padding: %w" (ReadBytes (to_int64 byteOffset));
    match readTypedArray arrayBufferViewTag with
    | None => fail (Errorf "unsupported TypedArray type %s")
    | Some m =>
        result ← ctx "reading TypedArray of type %d: %w" m;
        match result with
        | Some arrBytes => mret arrBytes
        | None => fail (Errorf "marshalling TypedArray of type %s: %w")
        end
    end) raw).1.

Definition deserializeArrayBuffer : Reader bytes :=
  arrayBufLen ← ctx "reading uvarint as ArrayBuffer length: %w" ReadUvarint;
  _ ← make 1 arrayBufLen;
  rawArrayBufferData ← ctx "reading byte %d of %d in ArrayBuffer: %w" (ReadBytes (to_int64 arrayBufLen));
  nextByte ← ctx "peeking byte after ArrayBuffer: %w" ReadByte;
  if negb (nextByte =b tokenArrayBufferView) then
    _ ← UnreadByte nextByte;
    mret rawArrayBufferData
  else
    arrayBufferViewTag ← ctx "reading array buffer view tag: %w" ReadByte;
    byteOffset ← ctx "reading byte offset for ArrayBuffer view: %w" ReadUvarint;
    byteLength ← ctx "reading byte length for ArrayBuffer view: %w" ReadUvarint;
    _ ← ctx "reading flags for ArrayBuffer view: %w" ReadUvarint;
    if arrayBufferViewTag =b arrayBufferViewTagDataView then mret rawArrayBufferData
    else if byteLength =? two64 - 1 then mret rawArrayBufferData
    else lift (interpretView arrayBufferViewTag byteOffset rawArrayBufferData).

Definition deserializePresumablyEmptyArrayBufferView : Reader bytes :=
  _ ← ctx "reading array buffer view tag: %w" ReadByte;
  _ ← ctx "reading byte offset for ArrayBuffer view: %w" ReadUvarint;
  byteLength ← ctx "reading byte length for ArrayBuffer view: %w" ReadUvarint;
  if negb (byteLength =? 0) then
    fail (Errorf "found standalone array buffer view with length %d despite no preceding data")
  else
    nextByte ← ctx "reading next byte at end of dense array: %w" ReadByte;
    if negb (nextByte =b tokenPossiblyArrayTermination0x03) then
      fail (Errorf "unexpected byte at end of standalone array buffer view: %02x / `%s`")
    else mret (bs "[]").

(** ** Containers *)
Section Containers.
Variable next : byte → Reader bytes.

(** The name of a property whose tag is not [tokenObjectEnd] *)
Definition propertyName (objPropertyStart : byte) : Reader bytes :=
  if objPropertyStart =b tokenAsciiStr then
    ctx "deserializing object property ascii string: %w" deserializeAsciiStr
  else if objPropertyStart =b tokenUtf16Str then
    ctx "deserializing object property UTF-16 string: %w" deserializeUtf16Str
  else if objPropertyStart =b tokenInt32 then
    propertyInt ← ctx "decoding object property int32: %w" ReadVarint;
    mret (itoa (to_int64 propertyInt))
  else if objPropertyStart =b tokenUint32 then
    propertyInt ← ctx "decoding object property uint32: %w" ReadUvarint;
    mret (itoa (to_int64 propertyInt))
  else if objPropertyStart =b tokenDouble then
    d ← ctx "decoding object property double: %w" (ReadFixed 8);
    mret (FormatFloat d)
  else
    _ ← ignore ReadByte;
    fail (Errorf "object property name has unexpected non-string type %02x / `%s`").

Fixpoint deserializeObject_loop (fuel : nat) (obj : gmap bytes bytes) : Reader (gmap bytes bytes) :=
  match fuel with
  | O => no_fuel
  | S fuel' =>
      objPropertyStart ← ctx "reading object property: %w" nextNonPaddingByte;
      if objPropertyStart =b tokenObjectEnd then _ ← ignore ReadVarint; mret obj
      else
        currentPropertyName ← propertyName objPropertyStart;
        nextByte ← ctx "reading next byte for `%s`: %w" nextNonPaddingByte;
        val ← ctx "decoding value for `%s`: %w" (next nextByte);
        deserializeObject_loop fuel' (<[currentPropertyName := val]> obj)
  end.

Definition deserializeObject : Reader (gmap bytes bytes) :=
  with_fuel (λ fuel, deserializeObject_loop fuel ∅).

Definition deserializeNestedObject : Reader bytes :=
  nestedObj ← ctx "deserializing nested object: %w" deserializeObject;
  mret (json_object json_string nestedObj).

(** [arrItems[i] = v]: an index outside of the slice panics *)
Definition set_item (arrayLen i : Z) (v : bytes) (arrItems : gmap Z bytes) : Reader (gmap Z bytes) :=
  if (0 <=? i) && (i <? arrayLen) then mret (<[i := v]> arrItems) else panic.

(** The slice [arrItems] of [arrayLen] slots is kept as the map of its filled slots. *)
Fixpoint sparse_loop (fuel : nat) (arrayLen : Z) (arrItems : gmap Z bytes) : Reader (gmap Z bytes) :=
  match fuel with
  | O => no_fuel
  | S fuel' =>
      let item (i : Z) :=
        nextByte ← ctx "reading next byte: %w" ReadByte;
        arrayItem ← ctx "decoding next item in sparse array at index %d (total length %d): %w" (next nextByte);
        arrItems ← set_item arrayLen i arrayItem arrItems;
        sparse_loop fuel' arrayLen arrItems in
      idxByte ← ctx "reading next byte: %w" ReadByte;
      if idxByte =b tokenInt32 then
        arrIdx ← ctx "reading varint: %w" ReadVarint; item (to_int64 arrIdx)
      else if idxByte =b tokenUint32 then
        arrIdx ← ctx "reading uvarint: %w" ReadUvarint; item (to_int64 arrIdx)
      else if idxByte =b tokenEndSparseArray then
        _ ← ignore ReadVarint; _ ← ignore ReadVarint; mret arrItems
      else if one_of idxByte [tokenPossiblyArrayTermination0x01; tokenPossiblyArrayTermination0x03] then
        sparse_loop fuel' arrayLen arrItems
      else fail (Errorf "unexpected array index type: 0x%02x / `%s`")
  end.

(** The [arrayLen] slots of the slice *)
Definition slots (arrayLen : Z) (arrItems : gmap Z bytes) : list (option bytes) :=
  map (λ i, arrItems !! i) (seqZ 0 arrayLen).

Definition deserializeSparseArray : Reader bytes :=
  arrayLen ← ctx "reading uvarint: %w" ReadUvarint;
  _ ← make 16 arrayLen;
  arrItems ← with_fuel (λ fuel, sparse_loop fuel arrayLen ∅);
  mret (json_array (map json_slot (slots arrayLen arrItems))).

(** The items of a dense array; [n] of them are still to be read *)
Fixpoint dense_loop (fuel : nat) (n : Z) : Reader (list bytes) :=
  if n <=? 0 then mret []
  else
    match fuel with
    | O => no_fuel
    | S fuel' =>
        nextByte ← ctx "reading next byte: %w" ReadByte;
        arrayItem ← ctx "decoding next item in dense array at index %d (total length %d): %w" (next nextByte);
        items ← dense_loop fuel' (n - 1);
        mret (arrayItem :: items)
    end.

(** The end of a dense array *)
Fixpoint dense_end (fuel : nat) : Reader unit :=
  match fuel with
  | O => no_fuel
  | S fuel' =>
      nextByte ← ctx "reading next byte at end of dense array: %w" ReadByte;
      if nextByte =b tokenEndDenseArray then
        _ ← ignore ReadVarint; _ ← ignore ReadVarint; mret tt
      else if one_of nextByte [tokenPossiblyArrayTermination0x01; tokenPossiblyArrayTermination0x03] then
        dense_end fuel'
      else fail (Errorf "unexpected byte at end of dense array %02x / `%s`")
  end.

Definition deserializeDenseArray : Reader bytes :=
  arrayLen ← ctx "reading uvarint: %w" ReadUvarint;
  _ ← make 16 arrayLen;
  arrItems ← with_fuel (λ fuel, dense_loop fuel (to_int64 arrayLen));
  _ ← with_fuel dense_end;
  mret (json_array (map json_string arrItems)).

Fixpoint map_loop (fuel : nat) (mapObject : gmap bytes bytes) : Reader (gmap bytes bytes) :=
  match fuel with
  | O => no_fuel
  | S fuel' =>
      tokenByteForKey ← ctx "reading next byte: %w" nextNonPaddingByte;
      if tokenByteForKey =b tokenMapEnd then _ ← ignore ReadUvarint; mret mapObject
      else
        keyObj ← ctx "deserializing map key: %w" (next tokenByteForKey);
        tokenByteForValue ← ctx "reading next byte: %w" nextNonPaddingByte;
        valObj ← ctx "deserializing map value: %w" (next tokenByteForValue);
        map_loop fuel' (<[keyObj := valObj]> mapObject)
  end.

Definition deserializeMap : Reader bytes :=
  mapObject ← with_fuel (λ fuel, map_loop fuel ∅);
  mret (json_object json_string mapObject).

Fixpoint set_loop (fuel : nat) (setObject : gmap bytes unit) : Reader (gmap bytes unit) :=
  match fuel with
  | O => no_fuel
  | S fuel' =>
      nextToken ← ctx "reading next byte: %w" nextNonPaddingByte;
      if nextToken =b tokenSetEnd then _ ← ignore ReadUvarint; mret setObject
      else
        nextSetObj ← ctx "deserializing next item in set: %w" (next nextToken);
        set_loop fuel' (<[nextSetObj := tt]> setObject)
  end.

Definition deserializeSet : Reader bytes :=
  setObject ← with_fuel (λ fuel, set_loop fuel ∅);
  mret (json_object (λ _, bs "{}") setObject).

(** ** Errors *)
Record errState := ErrState {
  errorObj : gmap bytes bytes;
  errorType : bytes;
  messageFound : bool;
  fileNameFound : bool
}.

Definition with_obj (k v : bytes) (st : errState) : errState :=
  ErrState (<[k := v]> (errorObj st)) (errorType st) (messageFound st) (fileNameFound st).
Definition with_type (ty : bytes) (st : errState) : errState :=
  ErrState (errorObj st) ty (messageFound st) (fileNameFound st).

Definition determineErrorTypeFromMessage (message currentType : bytes) : bytes :=
  if negb (bool_decide (currentType = genericErrorType)) then currentType
  else
    let loweredMessage := ToLower message in
    if contains (bs "eval") loweredMessage then bs "EvalError"
    else if contains (bs "range") loweredMessage then bs "RangeError"
    else if contains (bs "reference") loweredMessage then bs "ReferenceError"
    else if contains (bs "syntax") loweredMessage then bs "SyntaxError"
    else if contains (bs "type") loweredMessage then bs "TypeError"
    else if contains (bs "uri") loweredMessage then bs "URIError"
    else currentType.

(** The error type a prototype tag stands for *)
Definition errorPrototype (subtag : byte) : option bytes :=
  if subtag =b errorTagEvalErrorPrototype then Some (bs "EvalError")
  else if subtag =b errorTagRangeErrorPrototype then Some (bs "RangeError")
  else if subtag =b errorTagReferenceErrorPrototype then Some (bs "ReferenceError")
  else if subtag =b errorTagSyntaxErrorPrototype then Some (bs "SyntaxError")
  else if subtag =b errorTagTypeErrorPrototype then Some (bs "TypeError")
  else if subtag =b errorTagUriErrorPrototype then Some (bs "URIError")
  else None.

(** [regexp.MustCompile(`at\s+([^:]+):(\d+):(\d+)`).FindStringSubmatch]: the leftmost match *)
Definition is_space (b : byte) : bool := one_of b [x09; x0a; x0c; x0d; x20].
Definition is_digit (b : byte) : bool := in_range 48 57 b.

(** The longest prefix of bytes that satisfy [p], and the rest *)
Fixpoint span (p : byte → bool) (s : bytes) : bytes * bytes :=
  match s with
  | [] => ([], [])
  | b :: s' => if p b then let '(x, y) := span p s' in (b :: x, y) else ([], s)
  end.

(** [:(\d+)] *)
Definition matchNumber (s : bytes) : option (bytes * bytes) :=
  match s with
  | b :: s' =>
      if b =b x3a then
        let '(d, rest) := span is_digit s' in if is_empty d then None else Some (d, rest)
      else None
  | [] => None
  end.

(** The match just after [at]: when nothing separates the white space from the colon, the
    last white space becomes the file name. *)
Definition matchFrame (s : bytes) : option (bytes * bytes * bytes) :=
  let '(ws, s1) := span is_space s in
  let '(name, s2) := span (λ b, negb (b =b x3a)) s1 in
  let name :=
    if is_empty name then (if (2 <=? len ws) then drop (length ws - 1) ws else [])
    else if is_empty ws then [] else name in
  if is_empty name then None
  else
    match matchNumber s2 with
    | Some (line, s3) =>
        match matchNumber s3 with Some (column, _) => Some (name, line, column) | None => None end
    | None => None
    end.

Fixpoint findFrame (s : bytes) : option (bytes * bytes * bytes) :=
  match (if has_prefix (bs "at") s then matchFrame (drop 2 s) else None) with
  | Some m => Some m
  | None => match s with [] => None | _ :: s' => findFrame s' end
  end.

(** What the value of a subtag adds to the error *)
Definition errorProperty (subtag : byte) (valueStr : bytes) (st : errState) : errState :=
  let withMessage st :=
    ErrState (<[bs "message" := valueStr]> (errorObj st))
      (determineErrorTypeFromMessage valueStr (errorType st)) true (fileNameFound st) in
  if subtag =b errorTagMessage then withMessage st
  else if subtag =b errorTagStack then
    let st := with_obj (bs "stack") valueStr st in
    if fileNameFound st then st
    else
      match findFrame valueStr with
      | Some (file, line, column) =>
          ErrState (<[bs "columnNumber" := column]> (<[bs "lineNumber" := line]>
              (<[bs "fileName" := file]> (errorObj st))))
            (errorType st) (messageFound st) true
      | None => st
      end
  else if subtag =b errorTagCause then with_obj (bs "cause") valueStr st
  else if subtag =b errorTagIsError then with_obj (bs "isError") valueStr st
  else if has_prefix (bs "file://") valueStr || has_prefix (bs "/") valueStr then
    ErrState (<[bs "fileName" := valueStr]> (errorObj st)) (errorType st) (messageFound st) true
  else if negb (messageFound st) && (0 <? len valueStr) && negb (contains [x0a] valueStr) then
    withMessage st
  else with_obj (bs "property_" ++ utf8_rune subtag) valueStr st.

Fixpoint deserializeError_loop (fuel : nat) (st : errState) : Reader errState :=
  match fuel with
  | O => no_fuel
  | S fuel' =>
      o ← attempt ReadByte;
      match o with
      | inr _ => mret st
      | inl subtag =>
          if subtag =b errorTagEnd then mret st
          else
            match errorPrototype subtag with
            | Some ty => deserializeError_loop fuel' (with_type ty st)
            | None =>
                o ← attempt ReadByte;
                match o with
                | inr _ => mret st
                | inl valueToken =>
                    o ← attempt (next valueToken);
                    match o with
                    | inr _ =>
                        deserializeError_loop fuel'
                          (with_obj (bs "property_" ++ utf8_rune subtag)
                             (bs "[Error deserializing value]") st)
                    | inl value => deserializeError_loop fuel' (errorProperty subtag value st)
                    end
                end
            end
      end
  end.

(** The object of the error, completed with its type, name and message *)
Definition finishError (st : errState) : gmap bytes bytes :=
  let obj := <[bs "name" := errorType st]> (<[bs "type" := errorType st]> (errorObj st)) in
  match obj !! bs "message" with Some _ => obj | None => <[bs "message" := []]> obj end.

Definition deserializeError : Reader bytes :=
  st ← with_fuel (λ fuel, deserializeError_loop fuel (ErrState ∅ genericErrorType false false));
  mret (json_object json_string (finishError st)).
End Containers.

(** ** Values *)
Fixpoint deserializeNext_fuel (fuel : nat) (nextToken : byte) : Reader bytes :=
  match fuel with
  | O => no_fuel
  | S fuel' =>
      let next := deserializeNext_fuel fuel' in
      let tag t := nextToken =b t in
      if tag tokenObjectBegin then deserializeNestedObject next
      else if one_of nextToken [tokenUtf8Str; tokenAsciiStr] then deserializeAsciiStr
      else if tag tokenUtf16Str then deserializeUtf16Str
      else if tag tokenStringObj then deserializeStringObject
      else if tag tokenRegexp then deserializeRegexp
      else if one_of nextToken [tokenTrue; tokenTrueObj] then mret (bs "true")
      else if one_of nextToken [tokenFalse; tokenFalseObj] then mret (bs "false")
      else if one_of nextToken [tokenUndefined; tokenNull] then mret []
      else if tag tokenInt32 then
        propertyInt ← ctx "decoding int32: %w" ReadVarint;
        mret (itoa (to_int64 propertyInt))
      else if one_of nextToken [tokenDouble; tokenNumberObj] then
        d ← ctx "decoding double: %w" (ReadFixed 8);
        mret (FormatFloat d)
      else if one_of nextToken [tokenBigInt; tokenBigIntObj] then deserializeBigInt
      else if tag tokenDate then
        d ← ctx "decoding double as date: %w" (ReadFixed 8);
        mret (dateString d)
      else if tag tokenBeginSparseArray then deserializeSparseArray next
      else if tag tokenBeginDenseArray then deserializeDenseArray next
      else if tag tokenMapBegin then deserializeMap next
      else if tag tokenSetBegin then deserializeSet next
      else if one_of nextToken [tokenPadding; tokenVerifyObjectCount; tokenTheHole] then
        nextToken ← ctx "reading next non-padding byte after padding byte: %w" nextNonPaddingByte;
        next nextToken
      else if tag tokenArrayBuffer then deserializeArrayBuffer
      else if tag tokenObjReference then
        objectId ← ctx "reading id of object: %w" ReadUvarint;
        mret (bs "object id " ++ itoa objectId)
      else if tag tokenArrayBufferView then deserializePresumablyEmptyArrayBufferView
      else if tag tokenArrayBufferTransfer then
        fail (Errorf "deserialization not implemented for array buffer transfers")
      else if tag tokenSharedArrayBuffer then
        fail (Errorf "deserialization not implemented for shared ArrayBuffer")
      else if one_of nextToken [tokenWasmMemoryTransfer; tokenWasmModuleTransfer] then
        fail (Errorf "deserialization not implemented for wasm transfers")
      else if tag tokenError then
        o ← attempt (deserializeError next);
        match o with
        | inl errorBytes => mret errorBytes
        | inr _ =>
            mret (bs "{" ++ quoted "name" ++ bs ":" ++ quoted "Error" ++ bs "," ++
              quoted "message" ++ bs ":" ++ quoted "Failed to deserialize error" ++ bs "}")
        end
      else if tag tokenHostObj then fail (Errorf "deserialization not implemented for host object")
      else
        nextToken ← ctx "reading next non-padding byte after unknown token byte %02x / %s: %w" nextNonPaddingByte;
        next nextToken
  end.

Definition deserializeNext (nextToken : byte) : Reader bytes :=
  with_fuel (λ fuel, deserializeNext_fuel fuel nextToken).

(** ** Rows *)
Definition unmarshalRows (arrBytes : bytes) : res (list (gmap bytes bytes)) :=
  match unmarshalStrings arrBytes with
  | None => Err (Errorf "unmarshaling root JS array wrapper: %w")
  | Some elems =>
      match mapM unmarshalStringMap elems with
      | None => Err (Errorf "unmarshaling array element as object: %w")
      | Some rows => Ok rows
      end
  end.

Definition deserializeChromeRootValue (rootTag : byte) : Reader (list (gmap bytes bytes)) :=
  if rootTag =b tokenObjectBegin then
    row ← deserializeObject deserializeNext;
    mret [row]
  else if one_of rootTag [tokenBeginDenseArray; tokenBeginSparseArray; tokenArrayBuffer] then
    arrBytes ← deserializeNext rootTag;
    lift (unmarshalRows arrBytes)
  else fail (Errorf "unsupported root serialized value tag 0x%02x / `%s` (expected object or array)").

Definition DeserializeChrome (row : gmap bytes bytes) : res (list (gmap bytes bytes)) :=
  match row !! bs "data" with
  | None => Err (Errorf "row missing top-level data key")
  | Some data =>
      ((_ ← ctx "reading uvarint as indexeddb version: %w" ReadUvarint;
        '(_, rootTag) ← ctx "reading header with indexeddb version %d and serializer version %d: %w" readHeader;
        ctx "decoding obj for indexeddb version %d and serializer version %d: %w"
          (deserializeChromeRootValue rootTag)) data).1
  end.

End Lib.
End Values.
