(* ===== verification/IdbTotal.v ===== *)
(** * Termination of the V8 deserializer

    Every function of [IdbValues] comes to an end within the fuel it is given and leaves a
    suffix of its input unread; the containers do so whenever the values inside them do. *)
From S2P Require Import Prelude Reader Json IdbValues.
Import Values.

(** [m] consumes at least one byte when it succeeds. *)
Definition shrinks {A} (m : Reader A) : Prop :=
  ∀ r a r', m r = (Ok a, r') → (length r' < length r)%nat.

(** The call came to an end within its fuel. *)
Definition completes {A} (o : res A) : Prop := o ≠ NoFuel.

Lemma shrinks_ReadByte : shrinks ReadByte.
Proof. intros r a r' ->%ReadByte_Ok. cbn. lia. Qed.

Lemma shrinks_nextNonPaddingByte : shrinks nextNonPaddingByte.
Proof.
  intros r; induction r as [|b r IH]; intros a r' E; cbn [nextNonPaddingByte] in E; [done|].
  cbn [length]. case_if_in E; [apply IH in E; lia|]. simplify_eq. lia.
Qed.

Lemma shrinks_ctx {A} msg (m : Reader A) : shrinks m → shrinks (ctx msg m).
Proof.
  intros H r a r' E. unfold ctx in E. destruct (m r) as [o r''] eqn:Em. injection E as E <-.
  apply wrap_Ok in E. subst. by eapply H.
Qed.

#[export] Hint Resolve shrinks_ReadByte shrinks_nextNonPaddingByte shrinks_ctx : launcher.

Lemma attempt_ReadByte_inl r b r' : attempt ReadByte r = (Ok (inl b), r') → (length r' < length r)%nat.
Proof. destruct r; cbn; intros; simplify_eq; cbn; lia. Qed.

Lemma steady_nextNonPaddingByte r : steady nextNonPaddingByte r.
Proof.
  induction r as [|b r [IH1 IH2]]; [split; cbn; done|]. unfold steady. cbn [nextNonPaddingByte].
  case_if; cbn [fst snd]; (split; [done|]); by apply suffix_cons_r.
Qed.

Lemma steady_make sz n r : steady (make sz n) r.
Proof. unfold make. case_if; auto with launcher. Qed.

Lemma steady_lift {A} (o : res A) r : o ≠ NoFuel → steady (lift o) r.
Proof. done. Qed.

Lemma steady_with_fuel {A} (f : nat → Reader A) r : steady (f (S (length r))) r → steady (with_fuel f) r.
Proof. done. Qed.

(** A byte that is read and may be put back *)
Lemma steady_peek {A} msg (f : byte → Reader A) r :
  (∀ b r', r = b :: r' → (f b r').1 ≠ NoFuel ∧ (f b r').2 `suffix_of` r) →
  steady (ctx msg ReadByte ≫= f) r.
Proof.
  intros H. destruct r as [|b r]; [split; cbn; done|]. exact (H b r eq_refl).
Qed.

#[export] Hint Resolve steady_nextNonPaddingByte steady_make : launcher.

(** Record what a completed read says of the lengths. *)
Ltac note_read E S :=
  match type of S with
  | ?r' `suffix_of` ?r =>
      first
        [ assert (length r' < length r)%nat by
            (match type of E with ?m _ = _ =>
               let H := fresh in assert (H : shrinks m) by (auto with launcher); exact (H _ _ _ E) end)
        | pose proof (suffix_len _ _ S) ]
  end.

(** Walk through a reader: binds, tests and calls with known lemmas. *)
Ltac steady_step :=
  match goal with
  | |- steady (_ ≫= _) _ =>
      apply steady_bind;
      [|let a := fresh "a" in let r' := fresh "r" in let E := fresh "E" in let S := fresh "Sf" in
        intros a r' E S; note_read E S; cbn beta]
  | |- steady (if ?b then _ else _) _ => destruct b
  | |- steady (let '(_, _) := ?x in _) _ => destruct x
  | |- steady (match ?x with _ => _ end) _ => destruct x
  | |- steady (ctx _ _) _ => apply steady_ctx
  | |- _ => solve [auto with launcher]
  end.
Ltac steady := repeat steady_step.

Section Lib.
Context `{G : GoLib}.

Lemma steady_readHeader_loop fuel v r : (length r < fuel)%nat → steady (readHeader_loop fuel v) r.
Proof.
  revert v r; induction fuel as [|fuel IH]; intros v r Hr; [lia|]. cbn [readHeader_loop].
  apply steady_bind; [auto with launcher|]. intros [b|e] r' E Sf; [|auto with launcher].
  apply attempt_ReadByte_inl in E. steady; apply IH; lia.
Qed.

Lemma steady_readHeader r : steady readHeader r.
Proof. apply steady_with_fuel, steady_readHeader_loop. lia. Qed.

Lemma steady_deserializeAsciiStr r : steady deserializeAsciiStr r.
Proof. unfold deserializeAsciiStr. steady. Qed.

Lemma steady_deserializeUtf16Str r : steady deserializeUtf16Str r.
Proof. unfold deserializeUtf16Str. steady. Qed.

#[local] Hint Resolve steady_readHeader steady_deserializeAsciiStr steady_deserializeUtf16Str : launcher.

Lemma steady_deserializeStringObject r : steady deserializeStringObject r.
Proof. unfold deserializeStringObject. steady. Qed.

Lemma steady_deserializeRegexp r : steady deserializeRegexp r.
Proof. unfold deserializeRegexp. steady. Qed.

Lemma steady_deserializeBigInt r : steady deserializeBigInt r.
Proof. unfold deserializeBigInt. steady. Qed.

Lemma steady_readElems w n r : steady (readElems w n) r.
Proof. revert r; induction n; intros r; cbn [readElems]; steady. Qed.

#[local] Hint Resolve steady_readElems : launcher.

Lemma steady_readTypedArray tag m r : readTypedArray tag = Some m → steady m r.
Proof.
  unfold readTypedArray, readUint8Array, readUint16Array, readUint32Array, readUint64Array,
    readFloat32Array, readFloat64Array.
  repeat case_if; intros; simplify_eq; steady.
Qed.

Lemma interpretView_fuel tag off raw : interpretView tag off raw ≠ NoFuel.
Proof.
  unfold interpretView. match goal with |- (?m raw).1 ≠ _ => assert (H : steady m raw); [|apply H] end.
  apply steady_bind; [auto with launcher|]. intros a r E Sf.
  destruct (readTypedArray tag) as [m|] eqn:Em; [|auto with launcher].
  apply steady_bind; [apply steady_ctx; by eapply steady_readTypedArray|]. intros. steady.
Qed.

Lemma steady_deserializeArrayBuffer r : steady deserializeArrayBuffer r.
Proof.
  unfold deserializeArrayBuffer.
  do 3 (apply steady_bind; [solve [steady]|intros ? ? _ _]).
  apply steady_peek. intros b r0 ->.
  destruct (negb (b =b tokenArrayBufferView)); [split; cbn; [done|reflexivity]|].
  match goal with |- (?m _).1 ≠ _ ∧ _ => assert (H : steady m r0) end.
  { steady. apply steady_lift, interpretView_fuel. }
  destruct H as [H1 H2]. split; [done|]. by apply suffix_cons_r.
Qed.

Lemma steady_deserializeView r : steady deserializePresumablyEmptyArrayBufferView r.
Proof. unfold deserializePresumablyEmptyArrayBufferView. steady. Qed.

#[local] Hint Resolve steady_deserializeStringObject steady_deserializeRegexp steady_deserializeBigInt
  steady_deserializeArrayBuffer steady_deserializeView : launcher.

Section Containers.
Variable next : byte → Reader bytes.
(** The values inside a container are read from fewer than [n] bytes. *)
Definition good (n : nat) : Prop := ∀ tok r, (length r < n)%nat → steady (next tok) r.

Lemma steady_propertyName tok r : steady (propertyName tok) r.
Proof. unfold propertyName. steady. Qed.

#[local] Hint Resolve steady_propertyName : launcher.

Ltac container IH :=
  steady; first [by apply IH; lia | match goal with H : good _ |- _ => apply H; lia end].

Lemma steady_object_loop n fuel obj r :
  good n → (length r < fuel)%nat → (length r <= n)%nat → steady (deserializeObject_loop next fuel obj) r.
Proof.
  intros Hg. revert obj r; induction fuel as [|fuel IH]; intros obj r Hf Hn; [lia|].
  cbn [deserializeObject_loop]. container IH.
Qed.

Lemma steady_sparse_loop n fuel al items r :
  good n → (length r < fuel)%nat → (length r <= n)%nat → steady (sparse_loop next fuel al items) r.
Proof.
  intros Hg. revert items r; induction fuel as [|fuel IH]; intros items r Hf Hn; [lia|].
  cbn [sparse_loop]. unfold set_item. container IH.
Qed.

Lemma steady_dense_loop n fuel k r :
  good n → (length r < fuel)%nat → (length r <= n)%nat → steady (dense_loop next fuel k) r.
Proof.
  intros Hg. revert k r; induction fuel as [|fuel IH]; intros k r Hf Hn; [lia|].
  cbn [dense_loop]. container IH.
Qed.

Lemma steady_dense_end fuel r : (length r < fuel)%nat → steady (dense_end fuel) r.
Proof.
  revert r; induction fuel as [|fuel IH]; intros r Hf; [lia|]. cbn [dense_end]. steady. apply IH; lia.
Qed.

Lemma steady_map_loop n fuel m r :
  good n → (length r < fuel)%nat → (length r <= n)%nat → steady (map_loop next fuel m) r.
Proof.
  intros Hg. revert m r; induction fuel as [|fuel IH]; intros m r Hf Hn; [lia|].
  cbn [map_loop]. container IH.
Qed.

Lemma steady_set_loop n fuel m r :
  good n → (length r < fuel)%nat → (length r <= n)%nat → steady (set_loop next fuel m) r.
Proof.
  intros Hg. revert m r; induction fuel as [|fuel IH]; intros m r Hf Hn; [lia|].
  cbn [set_loop]. container IH.
Qed.

Lemma steady_error_loop n fuel st r :
  good n → (length r < fuel)%nat → (length r <= n)%nat → steady (deserializeError_loop next fuel st) r.
Proof.
  intros Hg. revert st r; induction fuel as [|fuel IH]; intros st r Hf Hn; [lia|].
  cbn [deserializeError_loop]. apply steady_bind; [auto with launcher|].
  intros [b|e] r1 E1 S1; [|auto with launcher]. apply attempt_ReadByte_inl in E1.
  destruct (b =b errorTagEnd); [auto with launcher|].
  destruct (errorPrototype b); [apply IH; lia|]. apply steady_bind; [auto with launcher|].
  intros [b'|e] r2 E2 S2; [|auto with launcher]. apply attempt_ReadByte_inl in E2.
  apply steady_bind; [apply steady_attempt, Hg; lia|]. intros o r3 E3 S3%suffix_len.
  destruct o; apply IH; lia.
Qed.

(** The containers, read from at most [n] bytes *)
Lemma steady_containers n r :
  good n → (length r <= n)%nat →
  steady (deserializeNestedObject next) r ∧ steady (deserializeSparseArray next) r ∧
  steady (deserializeDenseArray next) r ∧ steady (deserializeMap next) r ∧
  steady (deserializeSet next) r ∧ steady (deserializeError next) r.
Proof.
  intros Hg Hn. unfold deserializeNestedObject, deserializeObject, deserializeSparseArray,
    deserializeDenseArray, deserializeMap, deserializeSet, deserializeError.
  split_and!; steady; apply steady_with_fuel;
    first [ eapply steady_object_loop | eapply steady_sparse_loop | eapply steady_dense_loop
          | eapply steady_dense_end | eapply steady_map_loop | eapply steady_set_loop
          | eapply steady_error_loop ]; eauto; lia.
Qed.
End Containers.

Lemma steady_deserializeNext_fuel fuel : good (deserializeNext_fuel fuel) fuel.
Proof.
  induction fuel as [|fuel IH]; intros tok r Hr; [lia|]. cbn [deserializeNext_fuel].
  destruct (steady_containers _ _ r IH ltac:(lia)) as (? & ? & ? & ? & ? & ?).
  repeat match goal with |- steady (if ?b then _ else _) _ => destruct b end;
    steady; apply IH; lia.
Qed.

(** Reading a value always comes to an end: the fuel [deserializeNext] supplies suffices
    for every token and every input, however deeply nested or corrupted, and what it leaves
    unread is a suffix of its input. *)
Theorem deserializeNext_steady n : good deserializeNext n.
Proof. intros tok r _. apply steady_with_fuel, steady_deserializeNext_fuel. lia. Qed.

Lemma unmarshalRows_fuel b : unmarshalRows b ≠ NoFuel.
Proof.
  unfold unmarshalRows. destruct (unmarshalStrings b) as [l|]; [|done]. by destruct (mapM _ l).
Qed.

Lemma steady_rootValue tag r : steady (deserializeChromeRootValue tag) r.
Proof.
  unfold deserializeChromeRootValue, deserializeObject. steady.
  - apply steady_with_fuel. eapply steady_object_loop; [|lia|done].
    intros tok r' _. apply steady_with_fuel, steady_deserializeNext_fuel. lia.
  - apply steady_with_fuel, steady_deserializeNext_fuel. lia.
  - apply steady_lift, unmarshalRows_fuel.
Qed.

#[local] Hint Resolve steady_rootValue : launcher.

(** [DeserializeChrome] terminates on every row: it returns rows or an error, or panics,
    but its loops never run out of fuel. *)
Theorem DeserializeChrome_terminates row : completes (DeserializeChrome row).
Proof.
  unfold completes, DeserializeChrome. destruct (row !! bs "data") as [data|]; [|done].
  match goal with |- (?m data).1 ≠ _ => assert (H : steady m data); [|apply H] end.
  steady.
Qed.
End Lib.
