(* ===== verification/IdbCodec.v ===== *)
(** * The V8 wire format, and the deserializer on it

    [jsval] is the part of the values Chrome stores that the deserializer reads as V8 means them, [tag] and
    [payload] their serialized form (V8's value-serializer.cc), [render] the bytes the launcher reports for
    them.  The round-trip theorems say that the deserializer computes [render] on the serialized form of
    every well-formed [jsval], whatever follows it; what it makes of other forms is in the lemmas at the end of
    the file. *)
From S2P Require Import Prelude Reader Json IdbValues IdbTotal.
Import Values.

(** ** Values and their serialized form *)

(** Property names *)
Inductive jskey : Type :=
| KStr (s : bytes)
| KStr16 (s : bytes)
| KInt32 (z : Z)
| KUint32 (z : Z)
| KDouble (bits : Z).

(** The typed arrays of unsigned integers, by the width of the elements: Uint8Array, Uint16Array, Uint32Array, BigUint64Array *)
Inductive elem_kind : Type := EInt8 | EInt16 | EInt32 | EInt64.

(** The values the round trip covers.  A dense array has no holes ([dense_hole_misread]); [JTyped] is a view of
    a whole buffer, of unsigned elements ([Int16Array_loses_sign], [view_ignores_byteLength]); a number beyond
    int32 is a double ([uint32_value_misread]).  Error objects, buffers without a view, data views and views of signed or
    float elements are left out. *)
#[warnings="-register-all"]
Inductive jsval : Type :=
| JUndefined
| JNull
| JBool (boxed b : bool)
| JInt32 (z : Z)
| JDouble (boxed : bool) (bits : Z)
| JDate (bits : Z)
| JBigInt (boxed neg : bool) (digits : bytes)
| JStr (s : bytes)
| JStr16 (s : bytes)
| JStrObj (s : bytes)
| JRegexp (src : bytes) (flags : Z)
| JRef (id : Z)
| JTyped (k : elem_kind) (flags : Z) (vals : list Z)
| JPad (v : jsval)
| JObject (props : list (nat * jskey * jsval))
| JDense (items : list jsval)
| JSparse (n : Z) (items : list (bool * Z * jsval))
| JMap (entries : list (jsval * jsval))
| JSet (items : list jsval).

Definition uv (z : Z) : bytes := PutUvarint z.
Definition zigzag_enc (z : Z) : Z := if z <? 0 then - 2 * z - 1 else 2 * z.
Definition sv (z : Z) : bytes := uv (zigzag_enc z).
Definition str (s : bytes) : bytes := uv (len s) ++ s.

Definition key_tag (k : jskey) : byte :=
  match k with
  | KStr _ => tokenAsciiStr
  | KStr16 _ => tokenUtf16Str
  | KInt32 _ => tokenInt32
  | KUint32 _ => tokenUint32
  | KDouble _ => tokenDouble
  end.
Definition key_payload (k : jskey) : bytes :=
  match k with
  | KStr s | KStr16 s => str s
  | KInt32 z => sv z
  | KUint32 z => uv z
  | KDouble d => le_bytes 8 d
  end.
Definition ser_key (k : jskey) : bytes := key_tag k :: key_payload k.

Definition width (k : elem_kind) : nat :=
  match k with EInt8 => 1 | EInt16 => 2 | EInt32 => 4 | EInt64 => 8 end.
Definition view_tag (k : elem_kind) : byte :=
  match k with
  | EInt8 => arrayBufferViewTagUint8Array
  | EInt16 => arrayBufferViewTagUint16Array
  | EInt32 => arrayBufferViewTagUint32Array
  | EInt64 => arrayBufferViewTagBigUint64Array
  end.
Definition elems (k : elem_kind) (vals : list Z) : bytes := flat_map (le_bytes (width k)) vals.

Definition tag (v : jsval) : byte :=
  match v with
  | JUndefined => tokenUndefined
  | JNull => tokenNull
  | JBool false true => tokenTrue
  | JBool false false => tokenFalse
  | JBool true true => tokenTrueObj
  | JBool true false => tokenFalseObj
  | JInt32 _ => tokenInt32
  | JDouble false _ => tokenDouble
  | JDouble true _ => tokenNumberObj
  | JDate _ => tokenDate
  | JBigInt false _ _ => tokenBigInt
  | JBigInt true _ _ => tokenBigIntObj
  | JStr _ => tokenAsciiStr
  | JStr16 _ => tokenUtf16Str
  | JStrObj _ => tokenStringObj
  | JRegexp _ _ => tokenRegexp
  | JRef _ => tokenObjReference
  | JTyped _ _ _ => tokenArrayBuffer
  | JPad _ => tokenPadding
  | JObject _ => tokenObjectBegin
  | JDense _ => tokenBeginDenseArray
  | JSparse _ _ => tokenBeginSparseArray
  | JMap _ => tokenMapBegin
  | JSet _ => tokenSetBegin
  end.

Fixpoint payload (v : jsval) : bytes :=
  match v with
  | JUndefined | JNull | JBool _ _ => []
  | JInt32 z => sv z
  | JDouble _ d | JDate d => le_bytes 8 d
  | JBigInt _ neg digits => uv (2 * len digits + if neg then 1 else 0) ++ digits
  | JStr s | JStr16 s => str s
  | JStrObj s => tokenAsciiStr :: str s
  | JRegexp src flags => tokenAsciiStr :: str src ++ uv flags
  | JRef id => uv id
  | JTyped k flags vals =>
      let raw := elems k vals in
      str raw ++ tokenArrayBufferView :: view_tag k :: uv 0 ++ uv (len raw) ++ uv flags
  | JPad v => tag v :: payload v
  | JObject props =>
      flat_map (λ '(pad, k, v), repeat tokenPadding pad ++ ser_key k ++ tag v :: payload v) props ++
      tokenObjectEnd :: uv (len props)
  | JDense items =>
      uv (len items) ++ flat_map (λ v, tag v :: payload v) items ++
      tokenEndDenseArray :: uv 0 ++ uv (len items)
  | JSparse n items =>
      uv n ++
      flat_map (λ '(signed, i, v),
        (if signed : bool then tokenInt32 :: sv i else tokenUint32 :: uv i) ++ tag v :: payload v) items ++
      tokenEndSparseArray :: uv (len items) ++ uv n
  | JMap entries =>
      flat_map (λ '(k, v), (tag k :: payload k) ++ tag v :: payload v) entries ++
      tokenMapEnd :: uv (2 * len entries)
  | JSet items =>
      flat_map (λ v, tag v :: payload v) items ++ tokenSetEnd :: uv (len items)
  end.

Definition ser (v : jsval) : bytes := tag v :: payload v.

(** The value without its padding *)
Fixpoint core (v : jsval) : jsval := match v with JPad v => core v | _ => v end.

Section Lib.
Context `{G : GoLib}.

(** ** What the launcher reports *)
Definition decode16 (s : bytes) : bytes := default [] (utf16Decode s).

Definition render_key (k : jskey) : bytes :=
  match k with
  | KStr s => s
  | KStr16 s => decode16 s
  | KInt32 z | KUint32 z => itoa z
  | KDouble d => FormatFloat d
  end.

Definition render_elems (k : elem_kind) (vals : list Z) : bytes :=
  match k with EInt8 => json_bytes (map Z_byte vals) | _ => json_array (map itoa vals) end.

(** Insertions from left to right, as the code fills its maps and slices *)
Definition fill {K A} `{Countable K} (l : list (K * A)) : gmap K A :=
  foldl (λ m '(k, v), <[k := v]> m) ∅ l.

Fixpoint render (v : jsval) : bytes :=
  match v with
  | JUndefined | JNull => []
  | JBool _ b => if b then bs "true" else bs "false"
  | JInt32 z => itoa z
  | JDouble _ d => FormatFloat d
  | JDate d => dateString d
  | JBigInt _ neg _ => if neg then bs "-?n" else bs "?n"
  | JStr s | JStrObj s => s
  | JStr16 s => decode16 s
  | JRegexp src flags => bs "/" ++ src ++ bs "/" ++ regexpFlagsStr flags
  | JRef id => bs "object id " ++ itoa id
  | JTyped k _ vals => render_elems k vals
  | JPad v => render v
  | JObject props =>
      json_object json_string (fill (map (λ '(_, k, v), (render_key k, render v)) props))
  | JDense items => json_array (map (λ v, json_string (render v)) items)
  | JSparse n items =>
      json_array (map json_slot (slots n (fill (map (λ '(_, i, v), (i, render v)) items))))
  | JMap entries => json_object json_string (fill (map (λ '(k, v), (render k, render v)) entries))
  | JSet items => json_object (λ _, bs "{}") (fill (map (λ v, (render v, tt)) items))
  end.

(** ** Well-formed values *)
Definition wf_len {A} (l : list A) : Prop := len l <= 2 ^ 32.
Definition wf_int32 (z : Z) : Prop := - 2 ^ 31 <= z < 2 ^ 31.
Definition wf_uint32 (z : Z) : Prop := 0 <= z < 2 ^ 32.
Definition wf_str16 (s : bytes) : Prop := wf_len s ∧ is_Some (utf16Decode s).

Definition wf_jskey (k : jskey) : Prop :=
  match k with
  | KStr s => wf_len s
  | KStr16 s => wf_str16 s
  | KInt32 z => wf_int32 z
  | KUint32 z => wf_uint32 z
  | KDouble d => 0 <= d < two64
  end.

(** All elements of a list of values *)
Definition all {A} (P : A → Prop) (l : list A) : Prop := foldr (λ x Q, P x ∧ Q) True l.

Fixpoint wf (v : jsval) : Prop :=
  match v with
  | JUndefined | JNull | JBool _ _ => True
  | JInt32 z => wf_int32 z
  | JDouble _ d | JDate d => 0 <= d < two64
  | JBigInt _ _ digits => len digits < 2 ^ 31
  | JStr s | JStrObj s => wf_len s
  | JStr16 s => wf_str16 s
  | JRegexp src flags => wf_len src ∧ wf_uint32 flags
  | JRef id => wf_uint32 id
  | JTyped k flags vals =>
      wf_len (elems k vals) ∧ wf_uint32 flags ∧
      all (λ z, 0 <= z < 256 ^ Z.of_nat (width k)) vals
  | JPad v => wf v
  | JObject props => wf_len props ∧ all (λ '(_, k, v), wf_jskey k ∧ wf v) props
  | JDense items => wf_len items ∧ all wf items
  | JSparse n items =>
      0 <= n <= 2 ^ 32 ∧ wf_len items ∧
      all (λ '(signed, i, v), 0 <= i < n ∧ ((signed : bool) = true → i < 2 ^ 31) ∧ wf v) items
  | JMap entries => wf_len entries ∧ all (λ '(k, v), wf k ∧ wf v) entries
  | JSet items => wf_len items ∧ all wf items
  end.

(** ** Reading what was written *)
Lemma ReadUvarint_uv z r : 0 <= z < two64 → ReadUvarint (uv z ++ r) = (Ok z, r).
Proof. apply ReadUvarint_Put. Qed.

Lemma ReadVarint_uv z r : 0 <= z < two64 → ReadVarint (uv z ++ r) = (Ok (zigzag z), r).
Proof. intros Hz. unfold ReadVarint. by run (ReadUvarint_uv z r Hz). Qed.

Lemma zigzag_enc_spec z : wf_int32 z → zigzag (zigzag_enc z) = z ∧ 0 <= zigzag_enc z < two64.
Proof.
  unfold wf_int32, zigzag, zigzag_enc, two64. intros Hz. rewrite Z.shiftr_div_pow2 by lia.
  change (2 ^ 1) with 2. rewrite (Z.land_ones _ 1) by lia. change (2 ^ 1) with 2.
  destruct (z <? 0) eqn:E; zbool; (split; [|lia]).
  - assert ((-2 * z - 1) / 2 = - z - 1) as -> by (Z.to_euclidean_division_equations; lia).
    assert ((-2 * z - 1) mod 2 = 1) as -> by (Z.to_euclidean_division_equations; lia).
    rewrite to_int64_small by (unfold two63; lia). cbn [Z.eqb]. unfold Z.lnot. lia.
  - assert (2 * z / 2 = z) as -> by (Z.to_euclidean_division_equations; lia).
    assert ((2 * z) mod 2 = 0) as -> by (Z.to_euclidean_division_equations; lia).
    apply to_int64_small. unfold two63. lia.
Qed.

Lemma ReadVarint_sv z r : wf_int32 z → ReadVarint (sv z ++ r) = (Ok z, r).
Proof.
  intros H%zigzag_enc_spec. unfold sv. rewrite ReadVarint_uv by lia. by destruct H as [-> _].
Qed.

Lemma wf_len_range {A} (l : list A) : wf_len l → 0 <= len l < two63.
Proof. unfold wf_len, two63. pose proof (len_nonneg l). lia. Qed.

Lemma wf_len_64 {A} (l : list A) : wf_len l → 0 <= len l < two64.
Proof. unfold wf_len, two64. pose proof (len_nonneg l). lia. Qed.

Lemma make_Ok sz n r : n * sz <= maxAlloc → make sz n r = (Ok tt, r).
Proof. intros H. unfold make. by assert ((n * sz <=? maxAlloc) = true) as -> by (by apply Z.leb_le). Qed.

Lemma make_len {A} sz (l : list A) r : wf_len l → 0 <= sz <= 16 → make sz (len l) r = (Ok tt, r).
Proof. intros H Hs. apply make_Ok. unfold wf_len, maxAlloc in *. pose proof (len_nonneg l). nia. Qed.

Lemma ReadBytes_len l r : wf_len l → ReadBytes (to_int64 (len l)) (l ++ r) = (Ok l, r).
Proof. intros H%wf_len_range. rewrite to_int64_small by done. apply ReadBytes_app. Qed.

#[local] Hint Resolve wf_len_64 wf_len_range : launcher.

Lemma deserializeAsciiStr_str s r : wf_len s → deserializeAsciiStr (str s ++ r) = (Ok s, r).
Proof.
  intros H. unfold deserializeAsciiStr, str. rewrite <- app_assoc.
  run (ReadUvarint_uv (len s) (s ++ r) (wf_len_64 _ H)).
  run (make_len 1 s (s ++ r) H ltac:(lia)). by apply ctx_Ok, ReadBytes_len.
Qed.

Lemma deserializeUtf16Str_str s r : wf_str16 s → deserializeUtf16Str (str s ++ r) = (Ok (decode16 s), r).
Proof.
  intros [H [d Hd]]. unfold deserializeUtf16Str, str. rewrite <- app_assoc.
  run (ReadUvarint_uv (len s) (s ++ r) (wf_len_64 _ H)).
  run (make_len 1 s (s ++ r) H ltac:(lia)). run (ReadBytes_len s r H).
  unfold decode16. by rewrite Hd.
Qed.

Lemma wf_uint32_range z : wf_uint32 z → 0 <= z < two64.
Proof. unfold wf_uint32, two64. lia. Qed.

Lemma ReadFixed_double d r : 0 <= d < two64 → ReadFixed 8 (le_bytes 8 d ++ r) = (Ok d, r).
Proof. intros H. apply ReadFixed_bytes; [lia|done]. Qed.

(** ** Leaves *)
Lemma regexp_ser src flags r :
  wf_len src → wf_uint32 flags →
  deserializeRegexp (tokenAsciiStr :: str src ++ uv flags ++ r) =
    (Ok (bs "/" ++ src ++ bs "/" ++ regexpFlagsStr flags), r).
Proof.
  intros Hs Hf. unfold deserializeRegexp. run (eq_refl (nextNonPaddingByte (tokenAsciiStr :: str src ++ uv flags ++ r))).
  tok (negb (tokenAsciiStr =b tokenAsciiStr)) false.
  run (deserializeAsciiStr_str src (uv flags ++ r) Hs).
  by run (ReadUvarint_uv flags r (wf_uint32_range _ Hf)).
Qed.

Lemma bigint_ser (neg : bool) digits r :
  len digits < 2 ^ 31 →
  deserializeBigInt (uv (2 * len digits + if neg then 1 else 0) ++ digits ++ r) =
    (Ok (if neg then bs "-?n" else bs "?n"), r).
Proof.
  intros Hl. pose proof (len_nonneg digits). unfold deserializeBigInt.
  assert (Hb : 0 <= (if neg then 1 else 0) <= 1) by (destruct neg; lia).
  run (ReadUvarint_uv (2 * len digits + if neg then 1 else 0) (digits ++ r) ltac:(unfold two64; lia)).
  assert (Z.land (2 * len digits + if neg then 1 else 0) (2 ^ 32 - 1) / 2 = len digits) as ->.
  { change (2 ^ 32 - 1) with (Z.ones 32). rewrite land_ones_mod by lia.
    rewrite Z.mod_small by lia. Z.to_euclidean_division_equations; lia. }
  assert (wf_len digits) by (unfold wf_len; lia).
  run (make_len 1 digits (digits ++ r) ltac:(done) ltac:(lia)).
  run (ReadBytes_len digits r ltac:(done)).
  rewrite (land_ones_mod _ 1) by lia.
  assert ((2 * len digits + (if neg then 1 else 0)) mod 2 ^ 1 = if neg then 1 else 0) as ->.
  { destruct neg; Z.to_euclidean_division_equations; lia. }
  by destruct neg.
Qed.

Lemma readElems_elems k vals :
  all (λ z, 0 <= z < 256 ^ Z.of_nat (width k)) vals →
  readElems (width k) (length vals) (elems k vals) = (Ok vals, []).
Proof.
  induction vals as [|z vals IH]; intros H; [done|]. destruct H as [Hz H].
  cbn [length readElems elems flat_map].
  run (ReadFixed_bytes (width k) z (flat_map (le_bytes (width k)) vals) ltac:(destruct k; cbn; lia) Hz).
  run (IH H). done.
Qed.

Lemma len_elems k vals : len (elems k vals) = Z.of_nat (width k) * len vals.
Proof.
  induction vals as [|z vals IH]; [by destruct k|]. unfold elems in *. cbn [flat_map].
  rewrite len_app, IH, len_cons. unfold len at 1. rewrite length_le_bytes. lia.
Qed.

Lemma interpretView_elems k vals :
  all (λ z, 0 <= z < 256 ^ Z.of_nat (width k)) vals →
  interpretView (view_tag k) 0 (elems k vals) = Ok (render_elems k vals).
Proof.
  intros H. unfold interpretView.
  assert (E0 : ReadBytes (to_int64 0) (elems k vals) = (Ok [], elems k vals)).
  { change (to_int64 0) with 0. by destruct (elems k vals). }
  run E0. pose proof (readElems_elems k vals H) as E.
  assert (Hn : Z.to_nat (len (elems k vals) / Z.of_nat (width k)) = length vals).
  { rewrite len_elems, Z.mul_comm, Z.div_mul by (destruct k; cbn; lia). unfold len. lia. }
  assert (Hread : ∃ m, readTypedArray (view_tag k) = Some m ∧
    m (elems k vals) = (Ok (Some (render_elems k vals)), [])).
  { destruct k; (eexists; split; [reflexivity|]);
      unfold readUint8Array, readUint16Array, readUint32Array, readUint64Array;
      cbn [width] in E, Hn; change (Z.of_nat 1) with 1 in Hn; change (Z.of_nat 2) with 2 in Hn;
      change (Z.of_nat 4) with 4 in Hn; change (Z.of_nat 8) with 8 in Hn; rewrite ?Z.div_1_r in Hn;
      (erewrite bind_Ok; [|erewrite bind_Ok by reflexivity; apply ctx_Ok; rewrite Hn; apply E]); done. }
  destruct Hread as (m & -> & Em). by run Em.
Qed.

Lemma typed_ser k flags vals r :
  wf_len (elems k vals) → wf_uint32 flags → all (λ z, 0 <= z < 256 ^ Z.of_nat (width k)) vals →
  deserializeArrayBuffer (str (elems k vals) ++ tokenArrayBufferView :: view_tag k :: uv 0 ++
    uv (len (elems k vals)) ++ uv flags ++ r) = (Ok (render_elems k vals), r).
Proof.
  intros Hl Hf Hv. set (raw := elems k vals) in *.
  unfold deserializeArrayBuffer, str. rewrite <- app_assoc.
  run (ReadUvarint_uv (len raw) (raw ++ tokenArrayBufferView :: view_tag k :: uv 0 ++
    uv (len raw) ++ uv flags ++ r) (wf_len_64 _ Hl)).
  run (make_len 1 raw (raw ++ tokenArrayBufferView :: view_tag k :: uv 0 ++
    uv (len raw) ++ uv flags ++ r) Hl ltac:(lia)).
  run (ReadBytes_len raw (tokenArrayBufferView :: view_tag k :: uv 0 ++
    uv (len raw) ++ uv flags ++ r) Hl).
  erewrite bind_ctx_Ok by reflexivity. tok (negb (tokenArrayBufferView =b tokenArrayBufferView)) false.
  erewrite bind_ctx_Ok by reflexivity.
  run (ReadUvarint_uv 0 (uv (len raw) ++ uv flags ++ r) ltac:(done)).
  run (ReadUvarint_uv (len raw) (uv flags ++ r) (wf_len_64 _ Hl)).
  run (ReadUvarint_uv flags r (wf_uint32_range _ Hf)).
  assert ((view_tag k =b arrayBufferViewTagDataView) = false) as -> by (by destruct k).
  assert ((len raw =? two64 - 1) = false) as ->.
  { apply Z.eqb_neq. unfold wf_len, two64 in *. lia. }
  unfold lift, raw. by rewrite interpretView_elems.
Qed.

(** ** Padding *)
Lemma core_tag v : tag (core v) ≠ tokenPadding ∧ tag (core v) ≠ tokenMapEnd ∧ tag (core v) ≠ tokenSetEnd.
Proof. induction v; cbn [core]; try done; by repeat match goal with b : bool |- _ => destruct b end. Qed.

Lemma render_core v : render (core v) = render v.
Proof. by induction v. Qed.

Lemma wf_core v : wf v → wf (core v).
Proof. induction v; auto. Qed.

Lemma neqb (a b : byte) : a ≠ b → (a =b b) = false.
Proof. intros H. destruct (a =b b) eqn:E; [|done]. by apply eqb_eq in E. Qed.

Lemma nextNonPaddingByte_pad k b r :
  b ≠ tokenPadding → nextNonPaddingByte (repeat tokenPadding k ++ b :: r) = (Ok b, r).
Proof. intros H. induction k as [|k IH]; cbn; [by rewrite neqb|done]. Qed.

Lemma nextNonPaddingByte_ser v r :
  nextNonPaddingByte (ser v ++ r) = (Ok (tag (core v)), payload (core v) ++ r).
Proof.
  induction v; try (cbn [core]; apply (nextNonPaddingByte_pad 0);
    match goal with |- tag ?v ≠ _ => by destruct (core_tag v) end).
  exact IHv.
Qed.

Lemma length_core v r : (length (payload (core v) ++ r) <= length (payload v ++ r))%nat.
Proof. induction v; try done. cbn [core payload app length] in *. lia. Qed.

(** ** Property names *)
Lemma propertyName_ser k r :
  wf_jskey k → propertyName (key_tag k) (key_payload k ++ r) = (Ok (render_key k), r).
Proof.
  destruct k as [s|s|z|z|d]; cbn [wf_jskey key_payload render_key]; intros H.
  - by apply ctx_Ok, deserializeAsciiStr_str.
  - by apply ctx_Ok, deserializeUtf16Str_str.
  - unfold propertyName. toks.
    erewrite bind_ctx_Ok by (by apply ReadVarint_sv). unfold wf_int32 in H.
    by rewrite to_int64_id by (unfold two63; lia).
  - unfold propertyName. toks. erewrite bind_ctx_Ok by (apply ReadUvarint_uv; by apply wf_uint32_range).
    unfold wf_uint32 in H. by rewrite to_int64_id by (unfold two63; lia).
  - unfold propertyName. toks. by erewrite bind_ctx_Ok by (by apply ReadFixed_double).
Qed.

(** ** Containers *)
Section Containers.
Variable next : byte → Reader bytes.

(** [next] reads [v] from fewer than [m] bytes, with or without its padding. *)
Definition reads (m : nat) (v : jsval) : Prop :=
  ∀ rest, (length (payload v ++ rest) < m)%nat →
    next (tag v) (payload v ++ rest) = (Ok (render v), rest) ∧
    next (tag (core v)) (payload (core v) ++ rest) = (Ok (render v), rest).

Definition fill_into {K A} `{Countable K} (m : gmap K A) (l : list (K * A)) : gmap K A :=
  foldl (λ m '(k, v), <[k := v]> m) m l.

Lemma object_loop_ser m cnt props rest :
  0 <= cnt < two64 → all (λ '(_, k, v), wf_jskey k ∧ reads m v) props →
  ∀ fuel acc,
  let x := flat_map (λ '(pad, k, v), repeat tokenPadding pad ++ ser_key k ++ tag v :: payload v) props ++
    tokenObjectEnd :: uv cnt ++ rest in
  (length x < fuel)%nat → (length x <= m)%nat →
  deserializeObject_loop next fuel acc x =
    (Ok (fill_into acc (map (λ '(_, k, v), (render_key k, render v)) props)), rest).
Proof.
  intros Hc. induction props as [|[[pad k] v] props IH]; intros Hall fuel acc x Hf Hm;
    (destruct fuel as [|fuel]; [lia|]); cbn [deserializeObject_loop].
  - subst x. cbn [flat_map app]. erewrite bind_ctx_Ok by (by apply (nextNonPaddingByte_pad 0)).
    tok (tokenObjectEnd =b tokenObjectEnd) true. by run (ReadVarint_uv cnt rest Hc).
  - destruct Hall as [[Hk Hv] Hall]. set (y := flat_map _ props ++ _) in *.
    assert (Ex : x = repeat tokenPadding pad ++ key_tag k :: key_payload k ++ ser v ++ y).
    { subst x y. cbn [flat_map]. unfold ser_key, ser. by repeat (rewrite <- !app_assoc; cbn [app]). }
    rewrite Ex in Hf, Hm |- *. rewrite !length_app in Hf, Hm. cbn [length ser] in Hf, Hm.
    rewrite !length_app in Hf, Hm. cbn [length ser] in Hf, Hm.
    erewrite bind_ctx_Ok by (apply nextNonPaddingByte_pad; by destruct k).
    rewrite neqb by (by destruct k). cbv iota.
    erewrite bind_Ok by (by apply propertyName_ser).
    erewrite bind_ctx_Ok by (apply nextNonPaddingByte_ser).
    erewrite bind_ctx_Ok by (apply Hv; rewrite length_app; lia).
    apply (IH Hall); lia.
Qed.

(** A value read by [ReadByte] and [next] *)
Lemma item_ser m v r :
  reads m v → (length (payload v ++ r) < m)%nat →
  ReadByte (ser v ++ r) = (Ok (tag v), payload v ++ r) ∧
  next (tag v) (payload v ++ r) = (Ok (render v), r).
Proof. intros Hv Hr. split; [done|]. by apply Hv. Qed.

Lemma sparse_loop_ser m n cnt items rest :
  n <= 2 ^ 32 → 0 <= n → 0 <= cnt < two64 →
  all (λ '(signed, i, v), 0 <= i < n ∧ ((signed : bool) = true → i < 2 ^ 31) ∧ reads m v) items →
  ∀ fuel acc,
  let x := flat_map (λ '(signed, i, v),
      (if signed : bool then tokenInt32 :: sv i else tokenUint32 :: uv i) ++ tag v :: payload v) items ++
    tokenEndSparseArray :: uv cnt ++ uv n ++ rest in
  (length x < fuel)%nat → (length x <= m)%nat →
  sparse_loop next fuel n acc x =
    (Ok (fill_into acc (map (λ '(_, i, v), (i, render v)) items)), rest).
Proof.
  intros Hn Hn0 Hc. induction items as [|[[signed i] v] items IH]; intros Hall fuel acc x Hf Hm;
    (destruct fuel as [|fuel]; [lia|]); cbn [sparse_loop].
  - subst x. cbn [flat_map app]. erewrite bind_ctx_Ok by reflexivity. toks.
    run (ReadVarint_uv cnt (uv n ++ rest) Hc). by run (ReadVarint_uv n rest ltac:(unfold two64; lia)).
  - destruct Hall as [(Hi & Hs & Hv) Hall]. set (y := flat_map _ items ++ _) in *.
    assert (Ex : x = (if signed then tokenInt32 :: sv i else tokenUint32 :: uv i) ++ ser v ++ y).
    { subst x y. cbn [flat_map]. unfold ser. by repeat (rewrite <- !app_assoc; cbn [app]). }
    rewrite Ex in Hf, Hm |- *. rewrite !length_app in Hf, Hm. cbn [length ser] in Hf, Hm.
    assert (Hset : ∀ v, set_item n i v acc = mret (<[i := v]> acc)).
    { intros v'. unfold set_item.
      by assert ((0 <=? i) && (i <? n) = true) as -> by (apply andb_true_iff; lia). }
    destruct (item_ser m v y Hv) as [Er En]; [rewrite length_app; lia|].
    destruct signed; cbn [app length] in *; erewrite bind_ctx_Ok by reflexivity; toks.
    + erewrite bind_ctx_Ok by (apply ReadVarint_sv; unfold wf_int32; specialize (Hs eq_refl); lia).
      rewrite to_int64_small by (unfold two63; lia).
      run Er. run En. rewrite Hset. erewrite bind_Ok by reflexivity. apply (IH Hall); lia.
    + erewrite bind_ctx_Ok by (apply ReadUvarint_uv; unfold two64; lia).
      rewrite to_int64_small by (unfold two63; lia).
      run Er. run En. rewrite Hset. erewrite bind_Ok by reflexivity. apply (IH Hall); lia.
Qed.

Lemma dense_loop_ser m items y :
  all (reads m) items →
  ∀ fuel, let x := flat_map (λ v, tag v :: payload v) items ++ y in
  (length x < fuel)%nat → (length x <= m)%nat →
  dense_loop next fuel (len items) x = (Ok (map render items), y).
Proof.
  induction items as [|v items IH]; intros Hall fuel x Hf Hm.
  { by destruct fuel. }
  destruct fuel as [|fuel]; [lia|]. destruct Hall as [Hv Hall]. cbn [dense_loop].
  rewrite len_cons. pose proof (len_nonneg items).
  assert ((1 + len items <=? 0) = false) as -> by (apply Z.leb_gt; lia).
  set (z := flat_map _ items ++ y) in *.
  assert (Ex : x = ser v ++ z).
  { subst x z. cbn [flat_map]. unfold ser. by repeat (rewrite <- !app_assoc; cbn [app]). }
  rewrite Ex in Hf, Hm |- *. rewrite !length_app in Hf, Hm. cbn [length ser] in Hf, Hm.
  destruct (item_ser m v z Hv) as [Er En]; [rewrite length_app; lia|].
  run Er. run En. replace (1 + len items - 1) with (len items) by lia.
  assert (EIH : dense_loop next fuel (len items) z = (Ok (map render items), y)) by (apply (IH Hall); lia).
  by run EIH.
Qed.

Lemma map_loop_ser m cnt entries rest :
  0 <= cnt < two64 → all (λ '(k, v), reads m k ∧ reads m v) entries →
  ∀ fuel acc,
  let x := flat_map (λ '(k, v), (tag k :: payload k) ++ tag v :: payload v) entries ++
    tokenMapEnd :: uv cnt ++ rest in
  (length x < fuel)%nat → (length x <= m)%nat →
  map_loop next fuel acc x =
    (Ok (fill_into acc (map (λ '(k, v), (render k, render v)) entries)), rest).
Proof.
  intros Hc. induction entries as [|[k v] entries IH]; intros Hall fuel acc x Hf Hm;
    (destruct fuel as [|fuel]; [lia|]); cbn [map_loop].
  - subst x. cbn [flat_map app]. erewrite bind_ctx_Ok by (by apply (nextNonPaddingByte_pad 0)).
    toks. by run (ReadUvarint_uv cnt rest Hc).
  - destruct Hall as [[Hk Hv] Hall]. set (y := flat_map _ entries ++ _) in *.
    assert (Ex : x = ser k ++ ser v ++ y).
    { subst x y. cbn [flat_map]. unfold ser. by repeat (rewrite <- !app_assoc; cbn [app]). }
    rewrite Ex in Hf, Hm |- *. rewrite !length_app in Hf, Hm. cbn [length ser] in Hf, Hm.
    erewrite bind_ctx_Ok by (apply nextNonPaddingByte_ser).
    rewrite neqb by (by destruct (core_tag k) as (? & ? & ?)). cbv iota.
    erewrite bind_ctx_Ok by (apply Hk; rewrite !length_app; cbn [length ser]; lia).
    erewrite bind_ctx_Ok by (apply nextNonPaddingByte_ser).
    erewrite bind_ctx_Ok by (apply Hv; rewrite length_app; lia).
    apply (IH Hall); lia.
Qed.

Lemma set_loop_ser m cnt items rest :
  0 <= cnt < two64 → all (reads m) items →
  ∀ fuel acc,
  let x := flat_map (λ v, tag v :: payload v) items ++ tokenSetEnd :: uv cnt ++ rest in
  (length x < fuel)%nat → (length x <= m)%nat →
  set_loop next fuel acc x = (Ok (fill_into acc (map (λ v, (render v, tt)) items)), rest).
Proof.
  intros Hc. induction items as [|v items IH]; intros Hall fuel acc x Hf Hm;
    (destruct fuel as [|fuel]; [lia|]); cbn [set_loop].
  - subst x. cbn [flat_map app]. erewrite bind_ctx_Ok by (by apply (nextNonPaddingByte_pad 0)).
    toks. by run (ReadUvarint_uv cnt rest Hc).
  - destruct Hall as [Hv Hall]. set (y := flat_map _ items ++ _) in *.
    assert (Ex : x = ser v ++ y).
    { subst x y. cbn [flat_map]. unfold ser. by repeat (rewrite <- !app_assoc; cbn [app]). }
    rewrite Ex in Hf, Hm |- *. rewrite !length_app in Hf, Hm. cbn [length ser] in Hf, Hm.
    erewrite bind_ctx_Ok by (apply nextNonPaddingByte_ser).
    rewrite neqb by (by destruct (core_tag v) as (? & ? & ?)). cbv iota.
    erewrite bind_ctx_Ok by (apply Hv; rewrite length_app; lia).
    apply (IH Hall); lia.
Qed.

(** The containers whole *)
Lemma nested_ser m props rest :
  wf_len props → all (λ '(_, k, v), wf_jskey k ∧ reads m v) props →
  (length (payload (JObject props) ++ rest) <= m)%nat →
  deserializeNestedObject next (payload (JObject props) ++ rest) = (Ok (render (JObject props)), rest).
Proof.
  intros Hl Hall Hm. cbn [payload] in *. rewrite <- app_assoc in Hm |- *. cbn [app] in *.
  unfold deserializeNestedObject, deserializeObject, with_fuel.
  erewrite bind_ctx_Ok by (apply (object_loop_ser m (len props) props rest); eauto with launcher).
  done.
Qed.

Lemma sparse_ser m n items rest :
  0 <= n <= 2 ^ 32 → wf_len items →
  all (λ '(signed, i, v), 0 <= i < n ∧ ((signed : bool) = true → i < 2 ^ 31) ∧ reads m v) items →
  (length (payload (JSparse n items) ++ rest) <= m)%nat →
  deserializeSparseArray next (payload (JSparse n items) ++ rest) = (Ok (render (JSparse n items)), rest).
Proof.
  intros Hn Hl Hall Hm. cbn [payload] in *. rewrite <- !app_assoc in Hm |- *. cbn [app] in *.
  rewrite <- !app_assoc in Hm |- *. rewrite length_app in Hm.
  unfold deserializeSparseArray, with_fuel.
  erewrite bind_ctx_Ok by (apply ReadUvarint_uv; unfold two64; lia).
  erewrite bind_Ok by (apply make_Ok; unfold maxAlloc; lia).
  erewrite bind_Ok by (apply (sparse_loop_ser m n (len items) items rest); eauto with launcher; lia).
  done.
Qed.

Lemma dense_ser m items rest :
  wf_len items → all (reads m) items →
  (length (payload (JDense items) ++ rest) <= m)%nat →
  deserializeDenseArray next (payload (JDense items) ++ rest) = (Ok (render (JDense items)), rest).
Proof.
  intros Hl Hall Hm. cbn [payload] in *. rewrite <- !app_assoc in Hm |- *. cbn [app] in *.
  rewrite <- !app_assoc in Hm |- *. rewrite length_app in Hm.
  unfold deserializeDenseArray, with_fuel.
  erewrite bind_ctx_Ok by (apply ReadUvarint_uv; eauto with launcher).
  erewrite bind_Ok by (apply make_len; [done|lia]).
  rewrite to_int64_small by eauto with launcher.
  erewrite bind_Ok by (apply (dense_loop_ser m items); eauto with launcher; lia).
  assert (Eend : dense_end (S (length (tokenEndDenseArray :: uv 0 ++ uv (len items) ++ rest)))
      (tokenEndDenseArray :: uv 0 ++ uv (len items) ++ rest) = (Ok tt, rest)).
  { cbn [dense_end]. erewrite bind_ctx_Ok by reflexivity. toks.
    run (ReadVarint_uv 0 (uv (len items) ++ rest) ltac:(done)).
    by run (ReadVarint_uv (len items) rest (wf_len_64 _ Hl)). }
  run Eend. cbn [render]. by rewrite map_map.
Qed.

Lemma wf_len_double {A} (l : list A) : wf_len l → 0 <= 2 * len l < two64.
Proof. unfold wf_len, two64. pose proof (len_nonneg l). lia. Qed.

Lemma map_ser m entries rest :
  wf_len entries → all (λ '(k, v), reads m k ∧ reads m v) entries →
  (length (payload (JMap entries) ++ rest) <= m)%nat →
  deserializeMap next (payload (JMap entries) ++ rest) = (Ok (render (JMap entries)), rest).
Proof.
  intros Hl Hall Hm. cbn [payload] in *. rewrite <- app_assoc in Hm |- *. cbn [app] in *.
  unfold deserializeMap, with_fuel.
  erewrite bind_Ok by (apply (map_loop_ser m (2 * len entries) entries rest); eauto using wf_len_double).
  done.
Qed.

Lemma set_ser m items rest :
  wf_len items → all (reads m) items →
  (length (payload (JSet items) ++ rest) <= m)%nat →
  deserializeSet next (payload (JSet items) ++ rest) = (Ok (render (JSet items)), rest).
Proof.
  intros Hl Hall Hm. cbn [payload] in *. rewrite <- app_assoc in Hm |- *. cbn [app] in *.
  unfold deserializeSet, with_fuel.
  erewrite bind_Ok by (apply (set_loop_ser m (len items) items rest); eauto with launcher).
  done.
Qed.
End Containers.

(** ** The round trip *)
Lemma all_intro {A} (P : A → Prop) l : (∀ x, In x l → P x) → all P l.
Proof.
  induction l as [|x l IH]; intros H; [done|]. split; [apply H; by left|].
  apply IH. intros y Hy. apply H. by right.
Qed.

Lemma all_elim {A} (P : A → Prop) l x : all P l → In x l → P x.
Proof. induction l as [|y l IH]; [done|]. intros [Hy Hl] [->|Hx]; auto. Qed.

Lemma length_flat_map_in {A} (f : A → bytes) l x :
  In x l → (length (f x) <= length (flat_map f l))%nat.
Proof.
  induction l as [|y l IH]; [done|]. cbn [flat_map]. rewrite length_app.
  intros [->|Hx]; [lia|]. specialize (IH Hx). lia.
Qed.

(** Refine what is known of the elements of a container. *)
Lemma all_refine {A} (P Q : A → Prop) (f : A → bytes) l n :
  all P l → (length (flat_map f l) <= n)%nat →
  (∀ x, P x → (length (f x) <= n)%nat → Q x) → all Q l.
Proof.
  intros HP Hn H. apply all_intro. intros x Hx. apply H; [by eapply all_elim|].
  pose proof (length_flat_map_in f l x Hx). lia.
Qed.

(** Turn what holds of the elements of a container into what their readers need. *)
Ltac shorter Hall Hn n :=
  cbn [payload] in Hn; rewrite ?length_app in Hn; cbn [length] in Hn;
  match type of Hn with context [length (flat_map ?f ?l)] =>
    let H := fresh in
    assert (H : (length (flat_map f l) <= pred n)%nat) by lia; eapply (all_refine _ _ f l _ Hall H)
  end.

Lemma reads_fuel n : ∀ v m, (length (payload v) <= n)%nat → wf v → reads (deserializeNext_fuel m) m v.
Proof.
  induction n as [n IH] using lt_wf_ind. intros v m Hn Hwf.
  (* an inner value, of shorter payload *)
  assert (Hin : ∀ v' m', (length (payload v') < n)%nat → wf v' → reads (deserializeNext_fuel m') m' v').
  { intros v' m' Hlt Hwf'. by eapply (IH (length (payload v'))). }
  intros rest Hr. destruct m as [|m]; [lia|].
  assert (Hdirect : deserializeNext_fuel (S m) (tag v) (payload v ++ rest) = (Ok (render v), rest)).
  { destruct v; cbn [deserializeNext_fuel wf] in *; rewrite ?length_app in Hr.
    - toks. done.
    - toks. done.
    - destruct boxed, b; toks; done.
    - toks. erewrite bind_ctx_Ok by (by apply ReadVarint_sv). unfold wf_int32 in Hwf.
      by rewrite to_int64_id by (unfold two63; lia).
    - destruct boxed; toks; by erewrite bind_ctx_Ok by (by apply ReadFixed_double).
    - toks. by erewrite bind_ctx_Ok by (by apply ReadFixed_double).
    - destruct boxed; toks; cbn [payload]; rewrite <- app_assoc; by apply bigint_ser.
    - toks. by apply deserializeAsciiStr_str.
    - toks. by apply deserializeUtf16Str_str.
    - toks. unfold deserializeStringObject. cbn [payload app].
      erewrite bind_ctx_Ok by (by apply (nextNonPaddingByte_pad 0)). toks.
      by apply deserializeAsciiStr_str.
    - toks. cbn [payload app]. rewrite <- app_assoc. destruct Hwf. by apply regexp_ser.
    - toks. by erewrite bind_ctx_Ok by (apply ReadUvarint_uv; by apply wf_uint32_range).
    - toks. cbn [payload app]. repeat (rewrite <- !app_assoc; cbn [app]).
      destruct Hwf as (? & ? & ?). by apply typed_ser.
    - toks. cbn [payload app length] in *. erewrite bind_ctx_Ok by (apply (nextNonPaddingByte_ser v)).
      apply (Hin v m); [lia|done|rewrite length_app; lia].
    - toks. destruct Hwf as [Hl Hall]. apply (nested_ser _ m); [done| |rewrite length_app; lia].
      shorter Hall Hn n. intros [[pad k] v] [Hk Hv] Hlen.
      split; [done|]. apply Hin; [|done]. rewrite !length_app in Hlen. cbn [length ser_key] in Hlen. lia.
    - toks. destruct Hwf as [Hl Hall]. apply (dense_ser _ m); [done| |rewrite length_app; lia].
      shorter Hall Hn n. intros v Hv Hlen.
      apply Hin; [|done]. cbn [length] in Hlen. lia.
    - toks. destruct Hwf as (Hk & Hl & Hall). apply (sparse_ser _ m); [done|done| |rewrite length_app; lia].
      shorter Hall Hn n. intros [[sg i] v] (Hi & Hs & Hv) Hlen.
      split_and!; try done; try lia. apply Hin; [|done]. rewrite length_app in Hlen. cbn [length] in Hlen. lia.
    - toks. destruct Hwf as [Hl Hall]. apply (map_ser _ m); [done| |rewrite length_app; lia].
      shorter Hall Hn n. intros [k v] [Hk Hv] Hlen.
      cbn [app length] in Hlen. rewrite length_app in Hlen. cbn [length] in Hlen.
      split; (apply Hin; [lia|done]).
    - toks. destruct Hwf as [Hl Hall]. apply (set_ser _ m); [done| |rewrite length_app; lia].
      shorter Hall Hn n. intros v Hv Hlen.
      apply Hin; [|done]. cbn [length] in Hlen. lia. }
  split; [done|]. destruct v; try exact Hdirect.
  cbn [core render payload wf app length] in *.
  destruct (Hin v (S m) ltac:(lia) Hwf rest) as [_ E]; [lia|]. exact E.
Qed.

(** The deserializer inverts V8's serializer: reading the tag and the payload of a
    well-formed value yields what [render] says of it and consumes exactly the payload,
    whatever bytes follow. *)
Theorem deserializeNext_roundtrip v rest :
  wf v → deserializeNext (tag v) (payload v ++ rest) = (Ok (render v), rest).
Proof.
  intros Hwf. unfold deserializeNext, with_fuel.
  apply (reads_fuel (length (payload v)) v); [done|done|lia].
Qed.

(** A stored row: the IndexedDB version, the version tags of Blink and V8, and an object *)
Definition ser_row (idbVersion : Z) (versions : list Z) (props : list (nat * jskey * jsval)) : bytes :=
  uv idbVersion ++ flat_map (λ v, tokenVersion :: uv v) versions ++ ser (JObject props).

Lemma readHeader_ser versions tok r :
  all (λ v, 0 <= v < two64) versions → tok = tokenObjectBegin →
  ∀ fuel s, (length (flat_map (λ v, tokenVersion :: uv v) versions ++ tok :: r) < fuel)%nat →
  readHeader_loop fuel s (flat_map (λ v, tokenVersion :: uv v) versions ++ tok :: r) =
    (Ok (foldl (λ _ v, v) s versions, tok), r).
Proof.
  intros Hv ->. induction versions as [|v versions IH]; intros fuel s Hf;
    (destruct fuel as [|fuel]; [lia|]); cbn [readHeader_loop flat_map app].
  - erewrite bind_Ok by reflexivity. toks. done.
  - destruct Hv as [Hv Hvs]. erewrite bind_Ok by reflexivity. toks. rewrite <- app_assoc.
    run (ReadUvarint_uv v (flat_map (λ v, tokenVersion :: uv v) versions ++ tokenObjectBegin :: r) Hv).
    apply (IH Hvs). cbn [flat_map app length] in Hf. rewrite <- app_assoc, length_app in Hf. lia.
Qed.

(** C33: Deserializing the stored form of an object gives one row, which maps the name of every property to
    the rendered value; a later property of the same name wins.  The values are those of [jsval], nested to any depth:
    undefined, null, booleans, int32s, doubles, dates, bigints, strings, regular expressions, references, whole
    buffers as typed arrays of unsigned integers, objects, dense arrays without holes, sparse arrays, maps and sets. *)
Theorem DeserializeChrome_roundtrip idbVersion versions props trailing :
  0 <= idbVersion < two64 → all (λ v, 0 <= v < two64) versions → wf (JObject props) →
  DeserializeChrome (<[bs "data" := ser_row idbVersion versions props ++ trailing]> ∅) =
    Ok [fill (map (λ '(_, k, v), (render_key k, render v)) props)].
Proof.
  intros Hi Hv [Hl Hall]. unfold DeserializeChrome. rewrite lookup_insert_eq.
  unfold ser_row, ser. rewrite <- !app_assoc. cbn [app tag].
  erewrite bind_ctx_Ok by (by apply ReadUvarint_uv).
  erewrite bind_ctx_Ok by (apply (readHeader_ser versions tokenObjectBegin); [done|done|lia]). cbv beta iota.
  unfold ctx, deserializeChromeRootValue. toks.
  set (x := payload (JObject props) ++ trailing).
  assert (Eo : deserializeObject deserializeNext x =
    (Ok (fill (map (λ '(_, k, v), (render_key k, render v)) props)), trailing)).
  { unfold x, deserializeObject, with_fuel. cbn [payload]. rewrite <- app_assoc. cbn [app].
    apply (object_loop_ser deserializeNext
      (length (payload (JObject props) ++ trailing)) (len props) props trailing);
      [by apply wf_len_64| |lia|cbn [payload]; rewrite <- app_assoc; cbn [app]; lia].
    apply all_intro. intros [[pad k] v] Hx. destruct (all_elim _ _ _ Hall Hx) as [Hk Hwv].
    split; [done|]. intros rest Hr. unfold deserializeNext, with_fuel. split.
    - apply (reads_fuel (length (payload v)) v); [done|done|lia].
    - pose proof (wf_core v Hwv).
      rewrite <- render_core.
      apply (reads_fuel (length (payload (core v))) (core v)); [done|done|lia]. }
  by erewrite bind_Ok by (exact Eo).
Qed.

(** ** Where the deserializer departs from V8 *)

(** A view of an array buffer is read from its offset to the end of the buffer: apart from
    the auto-length marker, the byte length the view declares does not bear on the result,
    though V8 stores views that cover only a part of their buffer. *)
Theorem view_ignores_byteLength raw t off bl flags r :
  wf_len raw → wf_uint32 off → wf_uint32 flags → 0 <= bl < two64 - 1 → t ≠ arrayBufferViewTagDataView →
  deserializeArrayBuffer (str raw ++ tokenArrayBufferView :: t :: uv off ++ uv bl ++ uv flags ++ r) =
    (interpretView t off raw, r).
Proof.
  intros Hl Ho Hf Hb Ht. unfold deserializeArrayBuffer, str. rewrite <- app_assoc.
  erewrite bind_ctx_Ok by (apply ReadUvarint_uv; by apply wf_len_64).
  erewrite bind_Ok by (apply make_len; [done|lia]).
  erewrite bind_ctx_Ok by (by apply ReadBytes_len).
  erewrite bind_ctx_Ok by reflexivity. toks.
  erewrite bind_ctx_Ok by reflexivity.
  erewrite bind_ctx_Ok by (apply ReadUvarint_uv; by apply wf_uint32_range).
  erewrite bind_ctx_Ok by (apply ReadUvarint_uv; lia).
  erewrite bind_ctx_Ok by (apply ReadUvarint_uv; by apply wf_uint32_range).
  rewrite neqb by done. by assert ((bl =? two64 - 1) = false) as -> by (apply Z.eqb_neq; lia).
Qed.

(** Signed typed arrays are reported as unsigned: an [Int16Array] holding -1 reads 65535. *)
Theorem Int16Array_loses_sign :
  interpretView arrayBufferViewTagInt16Array 0 (elems EInt16 [(-1) mod 65536]) = Ok (bs "[65535]").
Proof. reflexivity. Qed.

(** [tokenUint32] is read as a property name only.  As a value it is skipped as an unknown
    token, and the digits of the number are taken for tokens: the number 84 reads "true". *)
Theorem uint32_value_misread r : deserializeNext tokenUint32 (uv 84 ++ r) = (Ok (bs "true"), r).
Proof. reflexivity. Qed.

(** A hole of a dense array is skipped instead of filling its slot, so the end of the array
    is taken for an element and the row is lost. *)
Theorem dense_hole_misread : ∃ e,
  deserializeNext tokenBeginDenseArray
    (uv 2 ++ tokenTheHole :: tokenInt32 :: sv 7 ++ tokenEndDenseArray :: uv 0 ++ uv 2) = (Err e, []).
Proof. eexists. reflexivity. Qed.

(** Rows with a string longer than any slice, and with an array index out of range *)
Definition huge_string_row : gmap bytes bytes :=
  <[bs "data" := uv 1 ++ tokenVersion :: uv 15 ++ tokenObjectBegin :: tokenAsciiStr :: uv (2 ^ 60)]> ∅.
Definition bad_index_row : gmap bytes bytes :=
  <[bs "data" := uv 1 ++ tokenVersion :: uv 15 ++ tokenBeginSparseArray :: uv 1 ++
      tokenUint32 :: uv 5 ++ [tokenTrue]]> ∅.

(** Lengths and indexes are not checked against the input: a corrupted row makes the
    deserializer panic, in [make] or in the assignment to the array, where every other kind
    of corruption is an error. *)
Theorem corrupt_rows_panic :
  DeserializeChrome huge_string_row = Panic ∧ DeserializeChrome bad_index_row = Panic.
Proof. split; vm_compute; reflexivity. Qed.
End Lib.

(** ** Witnesses *)
Definition exampleLib : GoLib := {|
  FormatFloat z := itoa z; jsonFloat64 z := Some (itoa z); jsonFloat32 z := Some (itoa z);
  dateString z := itoa z; utf16Decode s := Some s; ToLower s := s;
  unmarshalStrings _ := None; unmarshalStringMap _ := None
|}.

Definition example_props : list (nat * jskey * jsval) :=
  [ (0%nat, KStr (bs "id"), JInt32 (-3));
    (1%nat, KUint32 7, JPad (JStr16 (bs "h")));
    (0%nat, KStr (bs "tags"), JDense [JStr (bs "a"); JObject [(0%nat, KStr (bs "k"), JBool false true)]]);
    (0%nat, KStr (bs "raw"), JTyped EInt16 0 [1; 515]);
    (0%nat, KStr (bs "sparse"), JSparse 4 [(true, 2, JMap [(JStr (bs "x"), JSet [JNull])])]) ].

Lemma example_wf : @wf exampleLib (JObject example_props).
Proof. vm_compute. repeat split; try discriminate; eauto. Qed.

Lemma deserializeNext_roundtrip_witness :
  @deserializeNext exampleLib (tag (JObject example_props)) (payload (JObject example_props) ++ [x2a]) =
    (Ok (@render exampleLib (JObject example_props)), [x2a]).
Proof. apply deserializeNext_roundtrip, example_wf. Defined.

Lemma DeserializeChrome_roundtrip_witness :
  @DeserializeChrome exampleLib (<[bs "data" := ser_row 1 [17; 15] example_props ++ [x2a]]> ∅) =
    Ok [fill (map (λ '(_, k, v), (@render_key exampleLib k, @render exampleLib v)) example_props)].
Proof.
  apply DeserializeChrome_roundtrip; [done| |apply example_wf]. vm_compute. repeat split; discriminate.
Defined.

Lemma view_ignores_byteLength_witness :
  @deserializeArrayBuffer exampleLib (str [x01; x02; x03] ++ tokenArrayBufferView ::
    arrayBufferViewTagUint8Array :: uv 1 ++ uv 1 ++ uv 0 ++ []) =
    (@interpretView exampleLib arrayBufferViewTagUint8Array 1 [x01; x02; x03], []).
Proof. apply view_ignores_byteLength; vm_compute; repeat split; discriminate. Defined.
