(* ===== verification/KatcFirefox.v ===== *)
(** * ee/katc/deserialize_firefox.go: Firefox's structured clones as rows

    The deserializer of the values Firefox stores in IndexedDB: pairs of a tag and its data in words of
    eight bytes.  As in [IdbValues] a [*bytes.Reader] is the [Reader] monad, the
    containers take [deserializeNext] as the argument [next], and fuel bounds the nesting.  A nil
    slice is [None].  [UnreadByte] goes back in the data of the row, which is a parameter. *)
From S2P Require Import Prelude Reader Json IdbValues.
Import Values.

Module Firefox.

(** ** Tags *)
Definition tagFloatMax : Z := 0xfff00000.
Definition tagHeader : Z := 0xfff10000.
Definition tagNull : Z := 0xffff0000.
Definition tagUndefined : Z := 0xffff0001.
Definition tagBoolean : Z := 0xffff0002.
Definition tagInt32 : Z := 0xffff0003.
Definition tagString : Z := 0xffff0004.
Definition tagDateObject : Z := 0xffff0005.
Definition tagRegexpObject : Z := 0xffff0006.
Definition tagArrayObject : Z := 0xffff0007.
Definition tagObjectObject : Z := 0xffff0008.
Definition tagBooleanObject : Z := 0xffff000a.
Definition tagStringObject : Z := 0xffff000b.
Definition tagNumberObject : Z := 0xffff000c.
Definition tagBackReferenceObj : Z := 0xffff000d.
Definition tagMapObject : Z := 0xffff0011.
Definition tagSetObject : Z := 0xffff0012.
Definition tagEndOfKeys : Z := 0xffff0013.
Definition tagBigInt : Z := 0xffff001d.
Definition tagBigIntObject : Z := 0xffff001e.
Definition tagArrayBufferObj : Z := 0xffff001f.
Definition tagTypedArrayObj : Z := 0xffff0020.
Definition tagDataViewObj : Z := 0xffff0021.
Definition tagErrorObj : Z := 0xffff0022.
Definition tagResizableArrayBufferObj : Z := 0xffff0023.
Definition tagGrowableSharedArrayBufferObj : Z := 0xffff0024.

Definition bitMask (n : Z) : Z := Z.shiftl 1 n - 1.

(** ** Pairs and strings *)

(** Eight bytes, read backwards as big-endian words *)
Definition nextPair : Reader (Z * Z) :=
  pairBytes ← ctx "reading byte in pair: %w" (ReadBytes 8);
  mret (le_value (drop 4 pairBytes), le_value (take 4 pairBytes)).

(** Bytes read and thrown away, whatever the errors *)
Definition discard (n : Z) : Reader unit := fun r => (Ok tt, drop (Z.to_nat n) r).

(** The padding up to the next word *)
Definition paddingLen (n : Z) : Z := let bytesIntoNextWord := n mod 8 in if 0 <? bytesIntoNextWord then 8 - bytesIntoNextWord else 0.

Section Lib.
Context `{G : GoLib}.

Definition deserializeAsciiString (strLen : Z) : Reader bytes :=
  _ ← make 1 strLen;
  strBytes ← ctx "reading byte in string: %w" (ReadBytes strLen);
  _ ← discard (paddingLen strLen);
  mret strBytes.

Definition deserializeUtf16String (strLen : Z) : Reader bytes :=
  let lenToRead := (strLen * 2) mod 2 ^ 32 in
  _ ← make 1 lenToRead;
  strBytes ← ctx "reading byte in string: %w" (ReadBytes lenToRead);
  _ ← discard (paddingLen lenToRead);
  match utf16Decode strBytes with
  | Some decoded => mret decoded
  | None => fail (Errorf "decoding: %w")
  end.

Definition deserializeString (strData : Z) : Reader bytes :=
  let strLen := Z.land strData (bitMask 31) in
  let isAscii := Z.land strData (Z.shiftl 1 31) in
  if negb (isAscii =? 0) then deserializeAsciiString strLen else deserializeUtf16String strLen.

Definition deserializeBigInt (bitfield : Z) : Reader bytes :=
  let bigIntRawLen := Z.land bitfield (bitMask 31) in
  if bigIntRawLen =? 0 then mret (bs "0n")
  else
    _ ← ctx "reading byte %d of %d for BigInt: %w" (ReadBytes bigIntRawLen);
    mret (if 0 <? Z.land bitfield (Z.shiftl 1 31) then bs "-?n" else bs "?n").

Definition regexFlags (regexpData : Z) : bytes :=
  let flag f s := if negb (Z.land regexpData f =? 0) then bs s else [] in
  flag 1 "i"%string ++ flag 2 "g"%string ++ flag 4 "m"%string ++ flag 8 "y"%string ++
  flag 16 "u"%string ++ flag 32 "s"%string ++ flag 64 "d"%string ++ flag 128 "v"%string.

Definition deserializeRegexp (regexpData : Z) : Reader bytes :=
  '(nextTag, nextData) ← ctx "reading next pair as string for regex object: %w" nextPair;
  if negb (nextTag =? tagString) then
    fail (Errorf "regex tag followed by unexpected tag `%x` (expected `%x`, tagString)")
  else
    regexStrBytes ← ctx "deserializing string portion of regex: %w" (deserializeString nextData);
    mret (bs "/" ++ regexStrBytes ++ bs "/" ++ regexFlags regexpData).

(** ** Typed arrays *)
Inductive elemType :=
| Signed (w : nat) | Unsigned (w : nat) | Uint8 | Float32 | Float64.

(** The type of elements by its number, from typedArrayInt8 on *)
Definition typedArray (arrayType : Z) : option elemType :=
  match arrayType with
  | 0 => Some (Signed 1)
  | 1 | 8 => Some Uint8
  | 2 => Some (Signed 2)
  | 3 => Some (Unsigned 2)
  | 4 => Some (Signed 4)
  | 5 => Some (Unsigned 4)
  | 6 => Some Float32
  | 7 => Some Float64
  | 9 => Some (Signed 8)
  | 10 => Some (Unsigned 8)
  | _ => None
  end.

Definition width (t : elemType) : nat :=
  match t with Signed w | Unsigned w => w | Uint8 => 1 | Float32 => 4 | Float64 => 8 end.

Definition elementSize (arrayType : Z) : res Z :=
  match typedArray arrayType with
  | Some t => Ok (Z.of_nat (width t))
  | None => Err (Errorf "unsupported TypedArray type %d")
  end.

Definition byteLengthToTypedArrayLength (arrayType byteLength : Z) : res Z :=
  elemSize ← wrap "calculating element size: %w" (elementSize arrayType);
  Ok (byteLength / elemSize).

Definition signed (w : nat) (z : Z) : Z := if z <? 2 ^ (8 * Z.of_nat w - 1) then z else z - 2 ^ (8 * Z.of_nat w).

(** [json.Marshal] of the slice: a []uint8 is a string in base 64; no NaN or infinity *)
Definition marshalElems (t : elemType) (l : list Z) : option bytes :=
  match t with
  | Signed w => Some (json_array (map (λ z, itoa (signed w z)) l))
  | Unsigned _ => Some (json_array (map itoa l))
  | Uint8 => Some (json_bytes (map Z_byte l))
  | Float32 => json_array <$> mapM jsonFloat32 l
  | Float64 => json_array <$> mapM jsonFloat64 l
  end.

(** The elements of the raw bytes, from the offset on *)
Definition typedArrayElems (t : elemType) (byteOffset length : Z) : Reader bytes :=
  _ ← ctx "reading byte %d of %d of offset in TypedArray: %w" (ReadBytes (to_int64 byteOffset));
  _ ← make (Z.of_nat (width t)) length;
  l ← ctx "reading %T at index %d in TypedArray: %w" (readElems (width t) (Z.to_nat (to_int64 length)));
  match marshalElems t l with
  | Some arrBytes => mret arrBytes
  | None => fail (Errorf "marshalling TypedArray of type %d: %w")
  end.

Definition deserializeTypedArray (arrayType : Z) : Reader bytes :=
  length ← ctx "reading nelems in TypedArray: %w" (ReadFixed 8);
  maxByteLengthFlag ← ctx "reading maxByteLength sentinel in TypedArray: %w" (ReadFixed 8);
  byteLength ← ctx "reading bytelength in TypedArray: %w" (ReadFixed 8);
  _ ← (if negb (maxByteLengthFlag =? 18446462731876827136) then
         ctx "reading maxByteLength in TypedArray: %w" (ReadFixed 8)
       else mret 0);
  lengthFromByteLength ← ctx "converting byte length to array length: %w"
    (lift (byteLengthToTypedArrayLength arrayType byteLength));
  let length := if length =? two64 - 1 then lengthFromByteLength else length in
  _ ← make 1 byteLength;
  rawTypedArrayBytes ← ctx "reading byte %d of %d in TypedArray: %w" (ReadBytes (to_int64 byteLength));
  byteOffset ← ctx "reading byteoffset in TypedArray: %w" (ReadFixed 8);
  elemSize ← ctx "getting element size to calculate padding: %w" (lift (elementSize arrayType));
  let leftoverLength := lengthFromByteLength mod 8 * elemSize in
  let padding := Z.land (to_uint64 (- leftoverLength)) 7 in
  _ ← ctx "reading byte %d of %d of padding after TypedArray: %w" (ReadBytes padding);
  match typedArray arrayType with
  | None => fail (Errorf "unsupported TypedArray type %d")
  | Some t => lift (typedArrayElems t byteOffset length rawTypedArrayBytes).1
  end.

(** ** Containers *)
Definition value := option bytes.
Definition str (v : value) : bytes := default [] v.

Section Containers.
Variable next : Z → Z → Reader value.

Fixpoint deserializeObject_loop (fuel : nat) (resultObj : gmap bytes value) : Reader (gmap bytes value) :=
  match fuel with
  | O => no_fuel
  | S fuel' =>
      '(nextObjTag, nextObjData) ← ctx "reading next pair in object: %w" nextPair;
      if nextObjTag =? tagEndOfKeys then mret resultObj
      else if negb (nextObjTag =? tagString) then fail (Errorf "unsupported key type %x")
      else
        nextKeyStr ← ctx "reading string for tag %x: %w" (deserializeString nextObjData);
        '(valTag, valData) ← ctx "reading next pair for value in object: %w" nextPair;
        valDeserialized ← ctx "deserializing value for key `%s`: %w" (next valTag valData);
        deserializeObject_loop fuel' (<[nextKeyStr := valDeserialized]> resultObj)
  end.

Definition deserializeObject : Reader (gmap bytes value) :=
  with_fuel (λ fuel, deserializeObject_loop fuel ∅).

Definition deserializeNestedObject : Reader bytes :=
  nestedObj ← ctx "deserializing nested object: %w" deserializeObject;
  mret (json_object json_string (str <$> nestedObj)).

Fixpoint array_loop (fuel : nat) (arrayLength : Z) (resultArr : gmap Z bytes) : Reader (gmap Z bytes) :=
  match fuel with
  | O => no_fuel
  | S fuel' =>
      '(idxTag, idx) ← ctx "reading next index in array: %w" nextPair;
      if idxTag =? tagEndOfKeys then mret resultArr
      else
        '(itemTag, itemData) ← ctx "reading item at index %d in array: %w" nextPair;
        arrayItem ← ctx "reading item at index %d in array: %w" (next itemTag itemData);
        resultArr ← set_item arrayLength idx (str arrayItem) resultArr;
        array_loop fuel' arrayLength resultArr
  end.

Definition deserializeArray (arrayLength : Z) : Reader bytes :=
  _ ← make 16 arrayLength;
  resultArr ← with_fuel (λ fuel, array_loop fuel arrayLength ∅);
  mret (json_array (map json_slot (slots arrayLength resultArr))).

Fixpoint map_loop (fuel : nat) (mapObject : gmap bytes bytes) : Reader (gmap bytes bytes) :=
  match fuel with
  | O => no_fuel
  | S fuel' =>
      '(keyTag, keyData) ← ctx "reading next pair for key in map: %w" nextPair;
      if keyTag =? tagEndOfKeys then mret mapObject
      else
        '(valTag, valData) ← ctx "reading next pair for value in map: %w" nextPair;
        keyBytes ← ctx "deserializing key in map: %w" (next keyTag keyData);
        valBytes ← ctx "deserializing value in map for key `%s`: %w" (next valTag valData);
        map_loop fuel' (<[str keyBytes := str valBytes]> mapObject)
  end.

Definition deserializeMap : Reader bytes :=
  mapObject ← with_fuel (λ fuel, map_loop fuel ∅);
  mret (json_object json_string mapObject).

Fixpoint set_loop (fuel : nat) (setObject : gmap bytes unit) : Reader (gmap bytes unit) :=
  match fuel with
  | O => no_fuel
  | S fuel' =>
      '(keyTag, keyData) ← ctx "reading next pair for key in set: %w" nextPair;
      if keyTag =? tagEndOfKeys then mret setObject
      else
        keyBytes ← ctx "deserializing key in map: %w" (next keyTag keyData);
        set_loop fuel' (<[str keyBytes := tt]> setObject)
  end.

Definition deserializeSet : Reader bytes :=
  setObject ← with_fuel (λ fuel, set_loop fuel ∅);
  mret (json_object (λ _, bs "{}") setObject).

(** ** Errors *)

(** [errors.Is(err, io.EOF)] *)
Fixpoint is_EOF (e : err) : bool :=
  match e with EOF => true | Wrapf _ e' => is_EOF e' | _ => false end.

Record errorState := ErrorState { errorObj : gmap bytes bytes; messageFound : bool }.

Definition errorTypeOf (loweredKeyStr : bytes) : option bytes :=
  if contains (bs "eval") loweredKeyStr then Some (bs "EvalError")
  else if contains (bs "range") loweredKeyStr then Some (bs "RangeError")
  else if contains (bs "reference") loweredKeyStr then Some (bs "ReferenceError")
  else if contains (bs "syntax") loweredKeyStr then Some (bs "SyntaxError")
  else if contains (bs "type") loweredKeyStr then Some (bs "TypeError")
  else if contains (bs "uri") loweredKeyStr then Some (bs "URIError")
  else None.

Definition errorProperty (keyStr valStr : bytes) (st : errorState) : errorState :=
  let obj := errorObj st in
  if bool_decide (keyStr = bs "name") then
    ErrorState (<[bs "type" := valStr]> (<[bs "name" := valStr]> obj)) (messageFound st)
  else if bool_decide (keyStr = bs "message") then ErrorState (<[bs "message" := valStr]> obj) true
  else if has_prefix (bs "file://") keyStr then
    ErrorState (<[bs "lineNumber" := valStr]> (<[bs "fileName" := keyStr]> obj)) (messageFound st)
  else if negb (messageFound st) && negb (contains (bs ":") keyStr) && (0 <? len keyStr) then
    let obj := <[bs "message" := keyStr]> obj in
    ErrorState
      (match errorTypeOf (ToLower keyStr) with
       | Some t => <[bs "name" := t]> (<[bs "type" := t]> obj)
       | None => obj
       end) (messageFound st)
  else st.

(** After a string property that has a value, the loop goes on to skip another value. *)
Fixpoint error_loop (fuel : nat) (st : errorState) : Reader errorState :=
  match fuel with
  | O => no_fuel
  | S fuel' =>
      let skipValue st :=
        '(valTag, valData) ← ctx "reading value for non-string property: %w" nextPair;
        _ ← attempt (next valTag valData);
        error_loop fuel' st in
      '(propTag, propData) ← ctx "reading property in error object: %w" nextPair;
      if propTag =? tagEndOfKeys then mret st
      else if propTag =? tagString then
        o ← attempt (deserializeString propData);
        match o with
        | inr e => if is_EOF e then mret st else fail (Wrapf "deserializing property name: %w" e)
        | inl keyStr =>
            '(valTag, valData) ← ctx "reading value for property '%s': %w" nextPair;
            o ← attempt (next valTag valData);
            match o with
            | inl (Some valStr) => skipValue (errorProperty keyStr valStr st)
            | _ => error_loop fuel' st
            end
        end
      else skipValue st
  end.

Definition newError : gmap bytes bytes :=
  {[ bs "type" := bs "Error"; bs "name" := bs "Error"; bs "message" := [] ]}.

Definition deserializeError : Reader bytes :=
  st ← with_fuel (λ fuel, error_loop fuel (ErrorState newError false));
  mret (json_object json_string (errorObj st)).
End Containers.

(** ** Values *)

(** The data of the row *)
Variable data : bytes.

(** Eight times [UnreadByte], and the eight bytes as a double *)
Definition reread : Reader Z := fun r =>
  let pos := len data - len r in
  if pos <? 8 then (Err (Errorf "unreading byte in preparation for reinterpreting tag as double: %w"), r)
  else (Ok (le_value (take 8 (drop (Z.to_nat (pos - 8)) data))), r).

Definition some (m : Reader bytes) : Reader value := b ← m; mret (Some b).

Fixpoint deserializeNext_fuel (fuel : nat) (itemTag itemData : Z) : Reader value :=
  match fuel with
  | O => no_fuel
  | S fuel' =>
      let next := deserializeNext_fuel fuel' in
      let tag t := itemTag =? t in
      if tag tagInt32 then mret (Some (itoa itemData))
      else if tag tagNumberObject then
        some (d ← ctx "decoding double: %w" (ReadFixed 8); mret (FormatFloat d))
      else if tag tagBigInt || tag tagBigIntObject then some (deserializeBigInt itemData)
      else if tag tagString || tag tagStringObject then some (deserializeString itemData)
      else if tag tagBoolean || tag tagBooleanObject then
        mret (Some (if 0 <? itemData then bs "true" else bs "false"))
      else if tag tagDateObject then
        some (d ← ctx "decoding double: %w" (ReadFixed 8); mret (dateString d))
      else if tag tagRegexpObject then some (deserializeRegexp itemData)
      else if tag tagObjectObject then some (deserializeNestedObject next)
      else if tag tagArrayObject then some (deserializeArray next itemData)
      else if tag tagMapObject then some (deserializeMap next)
      else if tag tagSetObject then some (deserializeSet next)
      else if tag tagNull || tag tagUndefined then mret None
      else if tag tagArrayBufferObj then fail (Errorf "parsing not implemented for array buffer object")
      else if tag tagTypedArrayObj then some (deserializeTypedArray itemData)
      else if tag tagBackReferenceObj then mret (Some (itoa itemData))
      else if tag tagDataViewObj then fail (Errorf "parsing not implemented for data view object")
      else if tag tagErrorObj then some (deserializeError next)
      else if tag tagResizableArrayBufferObj then
        fail (Errorf "parsing not implemented for resizable array buffer object")
      else if tag tagGrowableSharedArrayBufferObj then
        fail (Errorf "parsing not implemented for growable shared array buffer object")
      else if tagFloatMax <=? itemTag then fail (Errorf "unknown tag type `%x` with data `%d`")
      else some (d ← reread; mret (FormatFloat d))
  end.

Definition deserializeNext (itemTag itemData : Z) : Reader value :=
  with_fuel (λ fuel, deserializeNext_fuel fuel itemTag itemData).

Definition deserializeRow : Reader (gmap bytes value) :=
  '(firstTag, _) ← ctx "reading header pair: %w" nextPair;
  if negb (firstTag =? tagHeader) then fail (Errorf "unknown header tag %x")
  else
    '(objectTag, _) ← ctx "reading top-level object tag: %w" nextPair;
    if negb (objectTag =? tagObjectObject) then
      fail (Errorf "object not found after header: expected %x, got %x")
    else ctx "reading top-level object: %w" (deserializeObject deserializeNext).
End Lib.

Definition deserializeFirefox `{G : GoLib} (row : gmap bytes bytes) : res (list (gmap bytes value)) :=
  match row !! bs "data" with
  | None => Err (Errorf "row missing top-level data key")
  | Some data => resultObj ← (deserializeRow data data).1; Ok [resultObj]
  end.
End Firefox.
