(* ===== verification/KatcCodec.v ===== *)
(** * Firefox's structured clones: termination, and the format the deserializer reads

    The reader of [KatcFirefox] comes to an end on every input; [fxval] are values as Firefox writes
    them, [vtag], [vdata] and [body] their serialized form, [render] what the launcher
    reports, and the round-trip theorem says that the deserializer computes [render].  Last come the
    inputs on which the deserializer departs from what was written. *)
From S2P Require Import Prelude Reader Json IdbValues IdbTotal IdbCodec KatcFirefox.
Import Firefox.

Module FirefoxTotal.
Section Lib.
Context `{G : Values.GoLib}.

Lemma shrinks_ReadBytes n : 0 < n → shrinks (ReadBytes n).
Proof.
  intros Hn r a r' E. destruct r as [|b r]; cbn [ReadBytes] in E; destruct (n <=? 0) eqn:En; zbool; try lia; [done|].
  pose proof (suffix_len _ _ (proj2 (steady_ReadBytes (n - 1) r))) as Hs.
  destruct (ReadBytes (n - 1) r) as [o r'']. injection E as _ <-. cbn [snd length] in *. lia.
Qed.

Lemma shrinks_nextPair : shrinks nextPair.
Proof.
  intros r a r' E. unfold nextPair, mbind, reader_bind in E.
  destruct (ctx _ (ReadBytes 8) r) as [[p| | |] r1] eqn:E1; try done. cbv in E. simplify_eq.
  eapply (shrinks_ctx _ _ (shrinks_ReadBytes 8 ltac:(lia))), E1.
Qed.

Lemma steady_nextPair r : steady nextPair r.
Proof. unfold nextPair. steady. Qed.

Lemma steady_discard n r : steady (discard n) r.
Proof. split; [done|]. exists (take (Z.to_nat n) r). exact (eq_sym (take_drop _ _)). Qed.

#[local] Hint Resolve shrinks_nextPair steady_nextPair steady_discard steady_readElems : launcher.

Lemma steady_deserializeString d r : steady (deserializeString d) r.
Proof. unfold deserializeString, deserializeAsciiString, deserializeUtf16String. steady. Qed.

Lemma steady_fx_deserializeBigInt d r : steady (deserializeBigInt d) r.
Proof. unfold deserializeBigInt. steady. Qed.

#[local] Hint Resolve steady_deserializeString steady_fx_deserializeBigInt : launcher.

Lemma steady_fx_deserializeRegexp d r : steady (deserializeRegexp d) r.
Proof. unfold deserializeRegexp. steady. Qed.

Lemma elementSize_fuel t : elementSize t ≠ NoFuel.
Proof. unfold elementSize. by destruct (typedArray t). Qed.

Lemma byteLength_fuel t n : byteLengthToTypedArrayLength t n ≠ NoFuel.
Proof. unfold byteLengthToTypedArrayLength, elementSize. by destruct (typedArray t). Qed.

Lemma steady_typedArrayElems t off n r : steady (typedArrayElems t off n) r.
Proof. unfold typedArrayElems. steady. Qed.

Lemma steady_deserializeTypedArray t r : steady (deserializeTypedArray t) r.
Proof.
  unfold deserializeTypedArray. steady;
    apply steady_lift; auto using elementSize_fuel, byteLength_fuel.
  apply steady_typedArrayElems.
Qed.

#[local] Hint Resolve steady_fx_deserializeRegexp steady_deserializeTypedArray : launcher.

Section Containers.
Variable next : Z → Z → Reader value.
(** The values inside a container are read from fewer than [n] bytes. *)
Definition good (n : nat) : Prop := ∀ t d r, (length r < n)%nat → steady (next t d) r.

Ltac container IH :=
  steady; first [by apply IH; lia | match goal with H : good _ |- _ => apply H; lia end].

Lemma steady_fx_object_loop n fuel obj r :
  good n → (length r < fuel)%nat → (length r <= n)%nat → steady (deserializeObject_loop next fuel obj) r.
Proof.
  intros Hg. revert obj r; induction fuel as [|fuel IH]; intros obj r Hf Hn; [lia|].
  cbn [deserializeObject_loop]. container IH.
Qed.

Lemma steady_array_loop n fuel al arr r :
  good n → (length r < fuel)%nat → (length r <= n)%nat → steady (array_loop next fuel al arr) r.
Proof.
  intros Hg. revert arr r; induction fuel as [|fuel IH]; intros arr r Hf Hn; [lia|].
  cbn [array_loop]. unfold Values.set_item. container IH.
Qed.

Lemma steady_fx_map_loop n fuel m r :
  good n → (length r < fuel)%nat → (length r <= n)%nat → steady (map_loop next fuel m) r.
Proof.
  intros Hg. revert m r; induction fuel as [|fuel IH]; intros m r Hf Hn; [lia|].
  cbn [map_loop]. container IH.
Qed.

Lemma steady_fx_set_loop n fuel m r :
  good n → (length r < fuel)%nat → (length r <= n)%nat → steady (set_loop next fuel m) r.
Proof.
  intros Hg. revert m r; induction fuel as [|fuel IH]; intros m r Hf Hn; [lia|].
  cbn [set_loop]. container IH.
Qed.

Lemma steady_fx_error_loop n fuel st r :
  good n → (length r < fuel)%nat → (length r <= n)%nat → steady (error_loop next fuel st) r.
Proof.
  intros Hg. revert st r; induction fuel as [|fuel IH]; intros st r Hf Hn; [lia|].
  cbn [error_loop]. cbv zeta.
  assert (Hskip : ∀ st r', (length r' < length r)%nat →
    steady ('(valTag, valData) ← ctx "reading value for non-string property: %w" nextPair;
            _ ← attempt (next valTag valData); error_loop next fuel st) r').
  { intros st' r' Hr'. apply steady_bind; [auto with launcher|]. intros [t d] r1 E1 S1. note_read E1 S1.
    apply steady_bind; [apply steady_attempt, Hg; lia|]. intros o r2 E2 S2%suffix_len. apply IH; lia. }
  apply steady_bind; [auto with launcher|]. intros [t d] r1 E1 S1. note_read E1 S1.
  destruct (t =? tagEndOfKeys); [auto with launcher|].
  destruct (t =? tagString); [|by apply Hskip].
  apply steady_bind; [auto with launcher|]. intros [key|e] r2 E2 S2%suffix_len; [|steady].
  apply steady_bind; [auto with launcher|]. intros [t' d'] r3 E3 S3. note_read E3 S3.
  apply steady_bind; [apply steady_attempt, Hg; lia|]. intros o r4 E4 S4%suffix_len.
  destruct o as [[v|]|]; [apply Hskip; lia|apply IH; lia..].
Qed.

(** The containers, read from at most [n] bytes *)
Lemma steady_fx_containers n r :
  good n → (length r <= n)%nat →
  steady (deserializeObject next) r ∧ (∀ al, steady (deserializeArray next al) r) ∧
  steady (deserializeMap next) r ∧ steady (deserializeSet next) r ∧ steady (deserializeError next) r.
Proof.
  intros Hg Hn. unfold deserializeObject, deserializeArray, deserializeMap, deserializeSet, deserializeError.
  split_and!; intros; steady; apply steady_with_fuel;
    first [ eapply steady_fx_object_loop | eapply steady_array_loop | eapply steady_fx_map_loop
          | eapply steady_fx_set_loop | eapply steady_fx_error_loop ]; eauto;
    repeat match goal with S : _ `suffix_of` _ |- _ => apply suffix_len in S end; lia.
Qed.
End Containers.

Variable data : bytes.

Lemma steady_reread r : steady (reread data) r.
Proof. unfold reread, steady. cbv zeta. by case_if. Qed.

#[local] Hint Resolve steady_reread : launcher.

Lemma steady_some (m : Reader bytes) r : steady m r → steady (some m) r.
Proof. intros H. unfold some. steady. Qed.

Lemma good_deserializeNext_fuel fuel : good (deserializeNext_fuel data fuel) fuel.
Proof.
  induction fuel as [|fuel IH]; intros t d r Hr; [lia|]. cbn [deserializeNext_fuel]. cbv zeta.
  destruct (steady_fx_containers _ _ r IH ltac:(lia)) as (? & ? & ? & ? & ?).
  repeat match goal with |- steady (if ?b then _ else _) _ => destruct b end;
    first [apply steady_some|idtac]; unfold deserializeNestedObject; steady.
Qed.

Lemma steady_deserializeRow r : steady (deserializeRow data) r.
Proof.
  unfold deserializeRow. steady. apply steady_fx_containers with (n := length r1); [|done].
  intros t d r' _. apply steady_with_fuel, good_deserializeNext_fuel. lia.
Qed.
End Lib.

(** [deserializeFirefox] terminates on every row: it returns a row or an error, or panics, but
    neither the loops of its containers nor the nesting of its values run out of fuel, whatever
    the bytes. *)
Theorem deserializeFirefox_terminates `{G : Values.GoLib} row : completes (deserializeFirefox row).
Proof.
  unfold completes, deserializeFirefox. destruct (row !! bs "data") as [data|]; [|done].
  pose proof (proj1 (steady_deserializeRow data data)) as H.
  cbn. by destruct (deserializeRow data data).1.
Qed.
End FirefoxTotal.

Module FirefoxCodec.
Import FirefoxTotal.

(** ** Values and their serialized form *)

(** Strings: with one byte, or with two bytes, to the character *)
Inductive fxstr := Ascii (s : bytes) | Utf16 (s : bytes).

(** The values the round trip covers.  Error objects, array buffers without a view, bigints and what Firefox stores beside
    plain data (blobs, files, images) are left out. *)
#[warnings="-register-all"]
Inductive fxval :=
| FUndefined
| FNull
| FBool (boxed b : bool)
| FInt32 (z : Z)
| FDouble (bits : Z)
| FNumberObj (bits : Z)
| FDate (bits : Z)
| FStr (boxed : bool) (s : fxstr)
| FRegexp (src : fxstr) (flags : Z)
| FRef (id : Z)
| FTyped (type : Z) (vals : list Z)
| FObject (props : list (fxstr * fxval))
| FArray (n : Z) (items : list (Z * fxval))
| FMap (entries : list (fxval * fxval))
| FSet (items : list fxval).

Definition pair (t d : Z) : bytes := le_bytes 4 d ++ le_bytes 4 t.

Definition str_raw (s : fxstr) : bytes := match s with Ascii s | Utf16 s => s end.
Definition str_data (s : fxstr) : Z :=
  match s with Ascii s => 2 ^ 31 + len s | Utf16 s => len s / 2 end.
(** The characters, and the padding up to the next word *)
Definition str_body (s : fxstr) : bytes :=
  str_raw s ++ repeat x00 (Z.to_nat (paddingLen (len (str_raw s)))).

Definition elem_width (t : Z) : nat := from_option width 1%nat (typedArray t).

Definition vtag (v : fxval) : Z :=
  match v with
  | FUndefined => tagUndefined
  | FNull => tagNull
  | FBool boxed _ => if boxed then tagBooleanObject else tagBoolean
  | FInt32 _ => tagInt32
  | FDouble d => d / 2 ^ 32
  | FNumberObj _ => tagNumberObject
  | FDate _ => tagDateObject
  | FStr boxed _ => if boxed then tagStringObject else tagString
  | FRegexp _ _ => tagRegexpObject
  | FRef _ => tagBackReferenceObj
  | FTyped _ _ => tagTypedArrayObj
  | FObject _ => tagObjectObject
  | FArray _ _ => tagArrayObject
  | FMap _ => tagMapObject
  | FSet _ => tagSetObject
  end.

Definition vdata (v : fxval) : Z :=
  match v with
  | FBool _ b => if b then 1 else 0
  | FInt32 z => z mod 2 ^ 32
  | FDouble d => d mod 2 ^ 32
  | FStr _ s => str_data s
  | FRegexp _ flags => flags
  | FRef id => id
  | FTyped t _ => t
  | FArray n _ => n
  | _ => 0
  end.

Definition endOfKeys : bytes := pair tagEndOfKeys 0.
Definition ser_str (s : fxstr) : bytes := pair tagString (str_data s) ++ str_body s.

Fixpoint body (v : fxval) : bytes :=
  match v with
  | FNumberObj d | FDate d => le_bytes 8 d
  | FStr _ s => str_body s
  | FRegexp src _ => ser_str src
  | FTyped t vals =>
      let raw := flat_map (le_bytes (elem_width t)) vals in
      le_bytes 8 (len vals) ++ le_bytes 8 18446462731876827136 ++ le_bytes 8 (len raw) ++ raw ++
      le_bytes 8 0 ++ repeat x00 (Z.to_nat (paddingLen (len raw)))
  | FObject props =>
      flat_map (λ '(k, v), ser_str k ++ pair (vtag v) (vdata v) ++ body v) props ++ endOfKeys
  | FArray _ items =>
      flat_map (λ '(i, v), pair tagInt32 i ++ pair (vtag v) (vdata v) ++ body v) items ++ endOfKeys
  | FMap entries =>
      flat_map (λ '(k, v), pair (vtag k) (vdata k) ++ pair (vtag v) (vdata v) ++ body k ++ body v) entries ++
      endOfKeys
  | FSet items => flat_map (λ v, pair (vtag v) (vdata v) ++ body v) items ++ endOfKeys
  | _ => []
  end.

Definition ser (v : fxval) : bytes := pair (vtag v) (vdata v) ++ body v.

(** A double that stands in the place of a pair *)
Definition inline (v : fxval) : bool := match v with FDouble _ => true | _ => false end.

Section Lib.
Context `{G : Values.GoLib}.

(** ** What the launcher reports *)
Definition render_str (s : fxstr) : bytes :=
  match s with Ascii s => s | Utf16 s => default [] (Values.utf16Decode s) end.

Definition render_elems (t : Z) (vals : list Z) : bytes :=
  default [] (e ← typedArray t; marshalElems e vals).

Fixpoint render (v : fxval) : value :=
  match v with
  | FUndefined | FNull => None
  | FBool _ b => Some (if b then bs "true" else bs "false")
  | FInt32 z => Some (itoa (z mod 2 ^ 32))
  | FDouble d | FNumberObj d => Some (Values.FormatFloat d)
  | FDate d => Some (Values.dateString d)
  | FStr _ s => Some (render_str s)
  | FRegexp src flags => Some (bs "/" ++ render_str src ++ bs "/" ++ regexFlags flags)
  | FRef id => Some (itoa id)
  | FTyped t vals => Some (render_elems t vals)
  | FObject props =>
      Some (json_object json_string (fill (map (λ '(k, v), (render_str k, str (render v))) props)))
  | FArray n items =>
      Some (json_array (map json_slot (Values.slots n (fill (map (λ '(i, v), (i, str (render v))) items)))))
  | FMap entries =>
      Some (json_object json_string (fill (map (λ '(k, v), (str (render k), str (render v))) entries)))
  | FSet items => Some (json_object (λ _, bs "{}") (fill (map (λ v, (str (render v), tt)) items)))
  end.

(** ** Well-formed values *)
Definition wf_u32 (z : Z) : Prop := 0 <= z < 2 ^ 32.

Definition wf_str (s : fxstr) : Prop :=
  match s with
  | Ascii s => len s < 2 ^ 31
  | Utf16 s => len s < 2 ^ 32 ∧ len s mod 2 = 0 ∧ is_Some (Values.utf16Decode s)
  end.

(** No key of a map is a double ([map_double_key]), and a value is one only under a key without a body, such as an
    integer ([map_double_value]). *)
Fixpoint wf (v : fxval) : Prop :=
  match v with
  | FUndefined | FNull | FBool _ _ => True
  | FInt32 z => - 2 ^ 31 <= z < 2 ^ 31
  | FDouble d => 0 <= d < tagFloatMax * 2 ^ 32
  | FNumberObj d | FDate d => 0 <= d < two64
  | FStr _ s => wf_str s
  | FRegexp src flags => wf_str src ∧ wf_u32 flags
  | FRef id => wf_u32 id
  | FTyped t vals =>
      wf_len vals ∧ all (λ z, 0 <= z < 256 ^ Z.of_nat (elem_width t)) vals ∧
      is_Some (e ← typedArray t; marshalElems e vals)
  | FObject props => all (λ '(k, v), wf_str k ∧ wf v) props
  | FArray n items => wf_u32 n ∧ all (λ '(i, v), 0 <= i < n ∧ wf v) items
  | FMap entries => all (λ '(k, v), inline k = false ∧ (inline v = true → body k = []) ∧ wf k ∧ wf v) entries
  | FSet items => all wf items
  end.

(** ** Pairs and strings *)
Lemma len_pair t d : len (pair t d) = 8.
Proof. unfold pair. rewrite len_app. unfold len. by rewrite !length_le_bytes. Qed.

Lemma nextPair_pair t d r : wf_u32 t → wf_u32 d → nextPair (pair t d ++ r) = (Ok (t, d), r).
Proof.
  intros Ht Hd. unfold nextPair. pose proof (ReadBytes_app (pair t d) r) as E. rewrite len_pair in E. run E.
  unfold pair. rewrite take_app_length', drop_app_length' by (symmetry; apply length_le_bytes).
  by rewrite !le_value_bytes.
Qed.

Lemma double_pair d : 0 <= d < two64 → le_value (pair (d / 2 ^ 32) (d mod 2 ^ 32)) = d.
Proof.
  intros Hd. unfold two64 in Hd. unfold pair. rewrite le_value_app, !le_value_bytes;
    unfold len; rewrite ?length_le_bytes; change (256 ^ Z.of_nat 4) with (2 ^ 32);
    Z.to_euclidean_division_equations; lia.
Qed.

Lemma paddingLen_range n : 0 <= paddingLen n < 8.
Proof. unfold paddingLen. pose proof (Z.mod_pos_bound n 8 ltac:(lia)). case_if; lia. Qed.

Lemma discard_padding n r :
  discard (paddingLen n) (repeat x00 (Z.to_nat (paddingLen n)) ++ r) = (Ok tt, r).
Proof.
  unfold discard. f_equal. rewrite drop_app_length'; [done|]. by rewrite repeat_length.
Qed.

Lemma land_bit31 a : 0 <= a < 2 ^ 31 → Z.land a (Z.shiftl 1 31) = 0 ∧ Z.land (2 ^ 31 + a) (Z.shiftl 1 31) ≠ 0.
Proof.
  intros Ha. rewrite Z.shiftl_1_l. split.
  - apply Z.bits_inj'. intros n Hn. rewrite Z.land_spec, Z.pow2_bits_eqb, Z.bits_0 by lia.
    destruct (31 =? n) eqn:E; zbool; [|apply andb_false_r]. subst.
    rewrite andb_true_r. by rewrite Z.testbit_false, Z.div_small by lia.
  - intros E. assert (Z.testbit (Z.land (2 ^ 31 + a) (2 ^ 31)) 31 = true); [|by rewrite E, Z.bits_0 in *].
    rewrite Z.land_spec, Z.pow2_bits_true, andb_true_r, Z.testbit_true by lia.
    by assert ((2 ^ 31 + a) / 2 ^ 31 = 1) as -> by (Z.to_euclidean_division_equations; lia).
Qed.

Lemma land_mask31 a : 0 <= a < 2 ^ 31 → Z.land a (bitMask 31) = a ∧ Z.land (2 ^ 31 + a) (bitMask 31) = a.
Proof.
  intros Ha. change (bitMask 31) with (Z.ones 31). rewrite !land_ones_mod by lia.
  split; Z.to_euclidean_division_equations; lia.
Qed.

Lemma wf_str_data s : wf_str s → wf_u32 (str_data s).
Proof.
  unfold wf_u32. destruct s as [s|s]; cbn [wf_str str_data]; pose proof (len_nonneg s); [lia|].
  intros ? . Z.to_euclidean_division_equations; lia.
Qed.

Lemma deserializeString_ser s r :
  wf_str s → deserializeString (str_data s) (str_body s ++ r) = (Ok (render_str s), r).
Proof.
  unfold deserializeString, str_body. destruct s as [s|s]; cbn [wf_str str_data str_raw render_str];
    pose proof (len_nonneg s); rewrite <- app_assoc.
  - intros H1. destruct (land_mask31 (len s)) as [_ ->]; [lia|].
    destruct (land_bit31 (len s)) as [_ Hb]; [lia|]. apply Z.eqb_neq in Hb. rewrite Hb. cbn [negb].
    unfold deserializeAsciiString. erewrite bind_Ok by (apply make_Ok; unfold Values.maxAlloc; lia).
    run (ReadBytes_app s (repeat x00 (Z.to_nat (paddingLen (len s))) ++ r)).
    by run (discard_padding (len s) r).
  - intros (H1 & H2 & [d Hd]).
    assert (0 <= len s / 2 < 2 ^ 31) by (Z.to_euclidean_division_equations; lia).
    destruct (land_mask31 (len s / 2)) as [-> _]; [lia|].
    destruct (land_bit31 (len s / 2)) as [-> _]; [lia|]. cbn [negb Z.eqb].
    unfold deserializeUtf16String. cbv zeta.
    assert ((len s / 2 * 2) mod 2 ^ 32 = len s) as -> by (Z.to_euclidean_division_equations; lia).
    erewrite bind_Ok by (apply make_Ok; unfold Values.maxAlloc; lia).
    run (ReadBytes_app s (repeat x00 (Z.to_nat (paddingLen (len s))) ++ r)).
    run (discard_padding (len s) r). by rewrite Hd.
Qed.

Lemma fx_regexp_ser src flags r :
  wf_str src → deserializeRegexp flags (ser_str src ++ r) =
    (Ok (bs "/" ++ render_str src ++ bs "/" ++ regexFlags flags), r).
Proof.
  intros H. unfold deserializeRegexp, ser_str. rewrite <- app_assoc.
  erewrite bind_ctx_Ok by (apply nextPair_pair; [done|by apply wf_str_data]).
  toks. by erewrite bind_ctx_Ok by (by apply deserializeString_ser).
Qed.

(** ** Typed arrays *)
Lemma typedArray_width t e : typedArray t = Some e → elem_width t = width e ∧
  let w := Z.of_nat (width e) in (w = 1 ∨ w = 2 ∨ w = 4 ∨ w = 8) ∧ (0 < width e)%nat.
Proof.
  unfold elem_width. intros H. rewrite H. split; [done|].
  unfold typedArray in H. repeat (case_match; simplify_eq; try (cbn; lia)).
Qed.

Lemma readElems_le w vals r :
  (0 < w)%nat → all (λ z, 0 <= z < 256 ^ Z.of_nat w) vals →
  Values.readElems w (length vals) (flat_map (le_bytes w) vals ++ r) = (Ok vals, r).
Proof.
  intros Hw. induction vals as [|z vals IH]; intros H; [done|]. destruct H as [Hz H].
  cbn [length Values.readElems flat_map]. rewrite <- app_assoc.
  run (ReadFixed_bytes w z (flat_map (le_bytes w) vals ++ r) Hw Hz). run (IH H). done.
Qed.

Lemma fx_len_elems w vals : len (flat_map (le_bytes w) vals) = Z.of_nat w * len vals.
Proof.
  induction vals as [|z vals IH]; [unfold len; cbn [flat_map length]; lia|]. cbn [flat_map].
  rewrite len_app, IH, len_cons. unfold len at 1. rewrite length_le_bytes. lia.
Qed.

(** The padding is computed from the number of elements, and is that of the bytes. *)
Lemma typed_padding w n :
  w = 1 ∨ w = 2 ∨ w = 4 ∨ w = 8 → 0 <= n → Z.land (to_uint64 (- (n mod 8 * w))) 7 = paddingLen (w * n).
Proof.
  intros Hw Hn. change 7 with (Z.ones 3). rewrite land_ones_mod by lia. unfold to_uint64, two64.
  change (2 ^ 3) with 8. rewrite Z.mod_mod_divide by (by exists (2 ^ 61)).
  unfold paddingLen. destruct Hw as [->|[->|[->| ->]]]; case_if; Z.to_euclidean_division_equations; lia.
Qed.

Lemma typedArrayElems_ser t e vals out :
  typedArray t = Some e → marshalElems e vals = Some out → wf_len vals →
  all (λ z, 0 <= z < 256 ^ Z.of_nat (elem_width t)) vals →
  (typedArrayElems e 0 (len vals) (flat_map (le_bytes (elem_width t)) vals)).1 = Ok out.
Proof.
  intros He Hm Hl Hv. destruct (typedArray_width t e He) as (Hw & Hb & Hpos). rewrite Hw in *.
  pose proof (wf_len_range vals Hl). unfold wf_len in Hl. pose proof (len_nonneg vals).
  unfold typedArrayElems. set (raw := flat_map _ _).
  assert (E0 : ReadBytes (to_int64 0) raw = (Ok [], raw)) by (change (to_int64 0) with 0; by destruct raw).
  run E0. erewrite bind_Ok by (apply make_len; [done|destruct Hb as [Hb|[Hb|[Hb|Hb]]]; rewrite Hb; lia]).
  rewrite to_int64_small by done. replace (Z.to_nat (len vals)) with (length vals) by (unfold len; lia).
  pose proof (readElems_le (width e) vals [] Hpos Hv) as E. rewrite app_nil_r in E. fold raw in E.
  run E. by rewrite Hm.
Qed.

Lemma fx_typed_ser t vals r :
  wf (FTyped t vals) → deserializeTypedArray t (body (FTyped t vals) ++ r) = (Ok (render_elems t vals), r).
Proof.
  cbn [wf]. intros (Hl & Hv & [out Hout]). destruct (typedArray t) as [e|] eqn:He; [|discriminate Hout].
  change (marshalElems e vals = Some out) in Hout. destruct (typedArray_width t e He) as (Hw & Hb & Hpos). pose proof (len_nonneg vals).
  pose proof (wf_len_64 vals Hl). cbn [body]. rewrite Hw. set (raw := flat_map _ _).
  assert (Er : len raw = Z.of_nat (width e) * len vals) by apply fx_len_elems.
  assert (Hr : 0 <= len raw < two63 /\ len raw <= 2 ^ 35).
  { unfold wf_len, two63 in *. rewrite Er. destruct Hb as [Hb|[Hb|[Hb|Hb]]]; rewrite Hb; lia. }
  rewrite <- !app_assoc. unfold deserializeTypedArray.
  erewrite bind_ctx_Ok by (by apply ReadFixed_bytes; [lia|]).
  erewrite bind_ctx_Ok by (apply ReadFixed_bytes; [lia|done]).
  erewrite bind_ctx_Ok by (apply ReadFixed_bytes; [lia|unfold two63 in *; lia]).
  tok (negb (18446462731876827136 =? 18446462731876827136)) false. erewrite bind_Ok by reflexivity.
  assert (Hlb : byteLengthToTypedArrayLength t (len raw) = Ok (len vals)).
  { unfold byteLengthToTypedArrayLength, elementSize. rewrite He. cbn. f_equal.
    rewrite Er, Z.mul_comm. apply Z.div_mul. lia. }
  erewrite bind_ctx_Ok by (unfold Values.lift; rewrite Hlb; reflexivity). cbv zeta.
  assert ((len vals =? two64 - 1) = false) as -> by (apply Z.eqb_neq; unfold wf_len, two64 in *; lia).
  erewrite bind_Ok by (apply make_Ok; unfold Values.maxAlloc; lia).
  rewrite to_int64_small by lia.
  run (ReadBytes_app raw (le_bytes 8 0 ++ repeat x00 (Z.to_nat (paddingLen (len raw))) ++ r)).
  erewrite bind_ctx_Ok by (by apply ReadFixed_bytes; [lia|]).
  assert (Hes : elementSize t = Ok (Z.of_nat (width e))) by (unfold elementSize; by rewrite He).
  erewrite bind_ctx_Ok by (unfold Values.lift; rewrite Hes; reflexivity).
  rewrite typed_padding, <- Er by done. set (pad := repeat x00 _).
  assert (Ep : paddingLen (len raw) = len pad).
  { pose proof (paddingLen_range (len raw)). unfold pad, len at 2. rewrite repeat_length. lia. }
  rewrite Ep. run (ReadBytes_app pad r). rewrite He. unfold Values.lift.
  pose proof (typedArrayElems_ser t e vals out He Hout Hl Hv) as E. rewrite Hw in E. fold raw in E. rewrite E.
  unfold render_elems. rewrite He. change (Some e ≫= _) with (marshalElems e vals). by rewrite Hout.
Qed.

(** The tag and the data of a pair, and not the end of a container *)
Definition wf_pair (v : fxval) : Prop := wf_u32 (vtag v) ∧ wf_u32 (vdata v) ∧ vtag v ≠ tagEndOfKeys.

Lemma wf_vtag v : wf v → wf_u32 (vtag v) ∧ vtag v ≠ tagEndOfKeys.
Proof.
  unfold wf_u32. destruct v; cbn [wf vtag]; intros H; try (destruct boxed); try (split; done).
  assert (0 <= bits / 2 ^ 32 < tagFloatMax) by (unfold tagFloatMax in *; Z.to_euclidean_division_equations; lia).
  unfold tagFloatMax, tagEndOfKeys in *. lia.
Qed.

Lemma wf_vdata v : wf v → wf_u32 (vdata v).
Proof.
  destruct v; cbn [wf vdata]; intros H; try done; try (apply Z.mod_pos_bound; lia).
  - destruct b; done.
  - by apply wf_str_data.
  - apply H.
  - destruct H as (_ & _ & [x Hx]). unfold typedArray in Hx. unfold wf_u32.
    destruct type as [|p|]; try discriminate Hx; [lia|].
    repeat (destruct p as [p|p|]; try discriminate Hx; try lia).
  - apply H.
Qed.

Lemma wf_wf_pair v : wf v → wf_pair v.
Proof. intros H. destruct (wf_vtag v H). split_and!; try done. by apply wf_vdata. Qed.

Lemma nextPair_val v r : wf_pair v → nextPair (pair (vtag v) (vdata v) ++ r) = (Ok (vtag v, vdata v), r).
Proof. intros (? & ? & _). by apply nextPair_pair. Qed.

Lemma nextPair_end r : nextPair (endOfKeys ++ r) = (Ok (tagEndOfKeys, 0), r).
Proof. by apply nextPair_pair. Qed.

(** ** Containers *)
Section Containers.
Variable next : Z → Z → Reader value.
Variable data : bytes.

(** What is unread when [next] is called: the body of the value, which in the data of the row
    follows its pair if the pair is the value itself *)
Definition before (v : fxval) (r : bytes) : Prop :=
  if inline v then (pair (vtag v) (vdata v) ++ r) `suffix_of` data else r `suffix_of` data.

(** [next] reads [v] from fewer than [m] bytes. *)
Definition reads (m : nat) (v : fxval) : Prop :=
  ∀ rest, before v (body v ++ rest) → (length (body v ++ rest) < m)%nat →
    next (vtag v) (vdata v) (body v ++ rest) = (Ok (render v), rest).

(** A value just after its pair *)
Lemma before_pair v r : (pair (vtag v) (vdata v) ++ r) `suffix_of` data → before v r.
Proof. unfold before. case_match; [done|]. apply suffix_app_l. Qed.

Lemma before_suffix v r : inline v = false → r `suffix_of` data → before v r.
Proof. unfold before. by intros ->. Qed.

Lemma length_pair t d : length (pair t d) = 8%nat.
Proof. reflexivity. Qed.

Lemma fx_object_loop_ser m props rest :
  all (λ '(k, v), wf_str k ∧ wf_pair v ∧ reads m v) props →
  ∀ fuel acc,
  let x := flat_map (λ '(k, v), ser_str k ++ pair (vtag v) (vdata v) ++ body v) props ++ endOfKeys ++ rest in
  x `suffix_of` data → (length x < fuel)%nat → (length x <= m)%nat →
  deserializeObject_loop next fuel acc x =
    (Ok (fill_into acc (map (λ '(k, v), (render_str k, render v)) props)), rest).
Proof.
  induction props as [|[k v] props IH]; intros Hall fuel acc x Hd Hf Hm;
    (destruct fuel as [|fuel]; [lia|]); cbn [deserializeObject_loop].
  - subst x. cbn [flat_map app]. by erewrite bind_ctx_Ok by apply nextPair_end.
  - destruct Hall as [(Hk & Hp & Hv) Hall]. set (y := flat_map _ props ++ _) in *.
    assert (Ex : x = pair tagString (str_data k) ++ str_body k ++ pair (vtag v) (vdata v) ++ body v ++ y).
    { subst x y. cbn [flat_map]. unfold ser_str. by rewrite <- !app_assoc. }
    rewrite Ex in Hd, Hf, Hm |- *. rewrite !length_app, !length_pair in Hf, Hm.
    apply suffix_app_l, suffix_app_l in Hd.
    erewrite bind_ctx_Ok by (apply nextPair_pair; [done|by apply wf_str_data]). toks.
    erewrite bind_ctx_Ok by (by apply deserializeString_ser).
    erewrite bind_ctx_Ok by (by apply nextPair_val). cbv beta iota.
    erewrite bind_ctx_Ok by (apply Hv; [by apply before_pair|rewrite length_app; lia]).
    apply (IH Hall); [by do 2 apply suffix_app_l in Hd|lia..].
Qed.

Lemma array_loop_ser m n items rest :
  n <= 2 ^ 32 → all (λ '(i, v), 0 <= i < n ∧ wf_pair v ∧ reads m v) items →
  ∀ fuel acc,
  let x := flat_map (λ '(i, v), pair tagInt32 i ++ pair (vtag v) (vdata v) ++ body v) items ++ endOfKeys ++ rest in
  x `suffix_of` data → (length x < fuel)%nat → (length x <= m)%nat →
  array_loop next fuel n acc x =
    (Ok (fill_into acc (map (λ '(i, v), (i, str (render v))) items)), rest).
Proof.
  intros Hn. induction items as [|[i v] items IH]; intros Hall fuel acc x Hd Hf Hm;
    (destruct fuel as [|fuel]; [lia|]); cbn [array_loop].
  - subst x. cbn [flat_map app]. by erewrite bind_ctx_Ok by apply nextPair_end.
  - destruct Hall as [(Hi & Hp & Hv) Hall]. set (y := flat_map _ items ++ _) in *.
    assert (Ex : x = pair tagInt32 i ++ pair (vtag v) (vdata v) ++ body v ++ y).
    { subst x y. cbn [flat_map]. by rewrite <- !app_assoc. }
    rewrite Ex in Hd, Hf, Hm |- *. rewrite !length_app, !length_pair in Hf, Hm.
    apply suffix_app_l in Hd.
    erewrite bind_ctx_Ok by (apply nextPair_pair; [done|unfold wf_u32; lia]). toks.
    erewrite bind_ctx_Ok by (by apply nextPair_val). cbv beta iota.
    erewrite bind_ctx_Ok by (apply Hv; [by apply before_pair|rewrite length_app; lia]).
    unfold Values.set_item.
    assert ((0 <=? i) && (i <? n) = true) as -> by (apply andb_true_iff; lia).
    erewrite bind_Ok by reflexivity. apply (IH Hall); [by do 2 apply suffix_app_l in Hd|lia..].
Qed.

Lemma fx_map_loop_ser m entries rest :
  all (λ '(k, v), inline k = false ∧ (inline v = true → body k = []) ∧ (wf_pair k ∧ reads m k) ∧ wf_pair v ∧ reads m v) entries →
  ∀ fuel acc,
  let x := flat_map (λ '(k, v), pair (vtag k) (vdata k) ++ pair (vtag v) (vdata v) ++ body k ++ body v) entries ++
    endOfKeys ++ rest in
  x `suffix_of` data → (length x < fuel)%nat → (length x <= m)%nat →
  map_loop next fuel acc x =
    (Ok (fill_into acc (map (λ '(k, v), (str (render k), str (render v))) entries)), rest).
Proof.
  induction entries as [|[k v] entries IH]; intros Hall fuel acc x Hd Hf Hm;
    (destruct fuel as [|fuel]; [lia|]); cbn [map_loop].
  - subst x. cbn [flat_map app]. by erewrite bind_ctx_Ok by apply nextPair_end.
  - destruct Hall as [(Hki & Hvi & (Hkp & Hk) & Hvp & Hv) Hall]. set (y := flat_map _ entries ++ _) in *.
    assert (Ex : x = pair (vtag k) (vdata k) ++ pair (vtag v) (vdata v) ++ body k ++ body v ++ y).
    { subst x y. cbn [flat_map]. by rewrite <- !app_assoc. }
    rewrite Ex in Hd, Hf, Hm |- *. rewrite !length_app, !length_pair in Hf, Hm.
    apply suffix_app_l in Hd.
    assert (Hbv : before v (body v ++ y)).
    { unfold before. destruct (inline v); [rewrite (Hvi eq_refl) in Hd; exact Hd|by do 2 apply suffix_app_l in Hd]. }
    apply suffix_app_l in Hd.
    erewrite bind_ctx_Ok by (by apply nextPair_val). cbv beta iota.
    rewrite (proj2 (Z.eqb_neq _ _) (proj2 (proj2 Hkp))).
    erewrite bind_ctx_Ok by (by apply nextPair_val). cbv beta iota.
    erewrite bind_ctx_Ok by (apply Hk; [by apply before_suffix|rewrite !length_app; lia]).
    apply suffix_app_l in Hd.
    erewrite bind_ctx_Ok by (apply Hv; [exact Hbv|rewrite length_app; lia]).
    apply (IH Hall); [by apply suffix_app_l in Hd|lia..].
Qed.

Lemma fx_set_loop_ser m items rest :
  all (λ v, wf_pair v ∧ reads m v) items →
  ∀ fuel acc,
  let x := flat_map (λ v, pair (vtag v) (vdata v) ++ body v) items ++ endOfKeys ++ rest in
  x `suffix_of` data → (length x < fuel)%nat → (length x <= m)%nat →
  set_loop next fuel acc x = (Ok (fill_into acc (map (λ v, (str (render v), tt)) items)), rest).
Proof.
  induction items as [|v items IH]; intros Hall fuel acc x Hd Hf Hm;
    (destruct fuel as [|fuel]; [lia|]); cbn [set_loop].
  - subst x. cbn [flat_map app]. by erewrite bind_ctx_Ok by apply nextPair_end.
  - destruct Hall as [(Hp & Hv) Hall]. set (y := flat_map _ items ++ _) in *.
    assert (Ex : x = pair (vtag v) (vdata v) ++ body v ++ y).
    { subst x y. cbn [flat_map]. by rewrite <- !app_assoc. }
    rewrite Ex in Hd, Hf, Hm |- *. rewrite !length_app, !length_pair in Hf, Hm.
    erewrite bind_ctx_Ok by (by apply nextPair_val). cbv beta iota.
    rewrite (proj2 (Z.eqb_neq _ _) (proj2 (proj2 Hp))).
    erewrite bind_ctx_Ok by (apply Hv; [by apply before_pair|rewrite length_app; lia]).
    apply (IH Hall); [by do 2 apply suffix_app_l in Hd|lia..].
Qed.
End Containers.

(** ** The round trip *)
Lemma some_Ok (m : Reader bytes) r a r' : m r = (Ok a, r') → some m r = (Ok (Some a), r').
Proof. intros E. unfold some. by erewrite bind_Ok. Qed.

Lemma reread_pair pre t d r :
  reread (pre ++ pair t d ++ r) r = (Ok (le_value (pair t d)), r).
Proof.
  unfold reread. rewrite app_assoc. set (data := (pre ++ pair t d) ++ r).
  assert (E : len data - len r = len pre + 8) by (unfold data; rewrite !len_app, len_pair; lia).
  rewrite E. pose proof (len_nonneg pre). cbv zeta. case_if; [lia|].
  replace (Z.to_nat (len pre + 8 - 8)) with (length pre) by (unfold len; lia).
  unfold data. rewrite <- app_assoc, drop_app_length. by rewrite take_app_length'.
Qed.

(** A tag below [tagFloatMax] is none of the others. *)
Lemma next_inline data m t d r :
  t < tagFloatMax →
  deserializeNext_fuel data (S m) t d r = some (d ← reread data; mret (Values.FormatFloat d)) r.
Proof.
  intros Ht. cbn [deserializeNext_fuel]. cbv zeta. unfold tagFloatMax in *.
  repeat match goal with |- context [t =? ?k] =>
    replace (t =? k) with false by (symmetry; apply Z.eqb_neq; vm_compute; intros ->; discriminate Ht) end.
  cbn [orb]. by rewrite (proj2 (Z.leb_gt _ _)).
Qed.

Lemma fmap_fill_into {A B} (f : A → B) (l : list (bytes * A)) m :
  f <$> fill_into m l = fill_into (f <$> m) (map (λ '(k, a), (k, f a)) l).
Proof. revert m; induction l as [|[k a] l IH]; intros m; [done|].
  change (f <$> fill_into (<[k := a]> m) l = fill_into (<[k := f a]> (f <$> m)) (map (λ '(k, a), (k, f a)) l)).
  by rewrite IH, fmap_insert.
Qed.

Lemma render_object props :
  str <$> fill_into ∅ (map (λ '(k, v), (render_str k, render v)) props) =
    fill (map (λ '(k, v), (render_str k, str (render v))) props).
Proof.
  rewrite fmap_fill_into, fmap_empty, map_map. unfold fill, fill_into. f_equal.
  apply map_ext. by intros [k v].
Qed.

(** Turn what holds of the elements of a container into what their readers need. *)
Ltac shorter Hall Hn n :=
  cbn [body] in Hn; rewrite length_app in Hn;
  match type of Hn with context [length (flat_map ?f ?l)] =>
    let H := fresh in
    assert (H : (length (flat_map f l) <= pred n)%nat) by (change (length endOfKeys) with 8%nat in Hn; lia);
    eapply (all_refine _ _ f l _ Hall H)
  end.

Lemma fx_reads_fuel data n : ∀ v m, (length (body v) <= n)%nat → wf v → reads (deserializeNext_fuel data m) data m v.
Proof.
  induction n as [n IH] using lt_wf_ind. intros v m Hn Hwf.
  assert (Hin : ∀ v' m', (length (body v') < n)%nat → wf v' → wf_pair v' ∧ reads (deserializeNext_fuel data m') data m' v').
  { intros v' m' Hlt Hwf'. split; [by apply wf_wf_pair|]. by eapply (IH (length (body v'))). }
  intros rest Hd Hr. destruct m as [|m]; [lia|]. unfold before in Hd.
  destruct v; cbn [inline wf vtag vdata] in *;
    try (rewrite next_inline by (unfold tagFloatMax in *; Z.to_euclidean_division_equations; lia));
    try (destruct boxed); try (destruct b); cbn [deserializeNext_fuel]; toks; try done.
  - apply some_Ok. destruct Hd as [pre ->]. cbn [body app].
    erewrite bind_Ok by apply reread_pair. by rewrite double_pair by (unfold tagFloatMax, two64 in *; lia).
  - apply some_Ok. by erewrite bind_ctx_Ok by (by apply ReadFixed_double).
  - apply some_Ok. by erewrite bind_ctx_Ok by (by apply ReadFixed_double).
  - by apply some_Ok, deserializeString_ser.
  - by apply some_Ok, deserializeString_ser.
  - destruct Hwf. by apply some_Ok, fx_regexp_ser.
  - by apply some_Ok, fx_typed_ser.
  - apply some_Ok. unfold deserializeNestedObject, deserializeObject, Values.with_fuel.
    cbn [body] in Hd, Hr |- *. rewrite <- app_assoc in Hd, Hr |- *.
    erewrite bind_ctx_Ok; [|apply (fx_object_loop_ser _ data m props rest); [|done|lia..]].
    + cbn [render]. by rewrite render_object.
    + shorter Hwf Hn n. intros [k v] [Hk Hv] Hlen.
      rewrite !length_app, length_pair in Hlen. split; [done|]. apply Hin; [lia|done].
  - apply some_Ok. unfold deserializeArray, Values.with_fuel. destruct Hwf as [Hk Hall].
    cbn [body] in Hd, Hr |- *. rewrite <- app_assoc in Hd, Hr |- *. unfold wf_u32 in Hk.
    erewrite bind_Ok by (apply make_Ok; unfold Values.maxAlloc; lia).
    erewrite bind_Ok; [|apply (array_loop_ser _ data m n0 items rest); [lia| |done|lia..]]; [done|].
    shorter Hall Hn n. intros [i v] [Hi Hv] Hlen.
    rewrite !length_app, !length_pair in Hlen. split; [done|]. apply Hin; [lia|done].
  - apply some_Ok. unfold deserializeMap, Values.with_fuel.
    cbn [body] in Hd, Hr |- *. rewrite <- app_assoc in Hd, Hr |- *.
    erewrite bind_Ok; [|apply (fx_map_loop_ser _ data m entries rest); [|done|lia..]]; [done|].
    shorter Hwf Hn n. intros [k v] (? & ? & Hk & Hv) Hlen.
    rewrite !length_app, !length_pair in Hlen. split_and!; try done; apply Hin; done || lia.
  - apply some_Ok. unfold deserializeSet, Values.with_fuel.
    cbn [body] in Hd, Hr |- *. rewrite <- app_assoc in Hd, Hr |- *.
    erewrite bind_Ok; [|apply (fx_set_loop_ser _ data m items rest); [|done|lia..]]; [done|].
    shorter Hwf Hn n. intros v Hv Hlen.
    rewrite !length_app, !length_pair in Hlen. apply Hin; done || lia.
Qed.

(** Reading the body of a well-formed value, after its pair, yields what [render] says of it
    and consumes exactly the body, whatever comes before and after it in the row. *)
Theorem deserializeNext_Firefox_roundtrip pre v rest :
  wf v →
  deserializeNext (pre ++ ser v ++ rest) (vtag v) (vdata v) (body v ++ rest) = (Ok (render v), rest).
Proof.
  intros Hwf. unfold deserializeNext, Values.with_fuel.
  apply (fx_reads_fuel _ (length (body v)) v); [done|done| |lia].
  unfold ser. rewrite <- app_assoc. unfold before. case_match; [by eexists|].
  exists (pre ++ pair (vtag v) (vdata v)). by rewrite <- app_assoc.
Qed.

(** A stored row: the header, and an object *)
Definition ser_row (header : Z) (props : list (fxstr * fxval)) : bytes :=
  pair tagHeader header ++ ser (FObject props).

(** C34: Deserializing a stored Firefox object gives one row, which maps the name of every property to
    the rendered value, nil for null and undefined; a later property of the same name wins.  An int32 is rendered as
    its 32 bits without a sign.  The values are those of [fxval], nested to any depth, maps without double keys and with double
    values only under keys without a body. *)
Theorem deserializeFirefox_roundtrip header props trailing :
  wf_u32 header → wf (FObject props) →
  deserializeFirefox (<[bs "data" := ser_row header props ++ trailing]> ∅) =
    Ok [fill (map (λ '(k, v), (render_str k, render v)) props)].
Proof.
  intros Hh Hwf. unfold deserializeFirefox. rewrite lookup_insert_eq.
  unfold ser_row, ser. rewrite <- !app_assoc. cbn [vtag vdata].
  set (data := pair tagHeader header ++ _).
  assert (E : deserializeRow data data = (Ok (fill (map (λ '(k, v), (render_str k, render v)) props)), trailing)).
  { unfold deserializeRow. unfold data at 2.
    erewrite bind_ctx_Ok by (by apply nextPair_pair). toks.
    erewrite bind_ctx_Ok by (by apply nextPair_pair). toks.
    apply ctx_Ok. unfold deserializeObject, Values.with_fuel. cbn [body]. rewrite <- app_assoc.
    apply (fx_object_loop_ser _ data (length data) props trailing); [| |lia|].
    - apply all_intro. intros [k v] Hx. destruct (all_elim _ _ _ Hwf Hx) as [Hk Hv].
      split_and!; [done|by apply wf_wf_pair..|]. intros rest Hd Hr.
      apply (fx_reads_fuel data (length (body v)) v); [done|done|done|lia].
    - exists (pair tagHeader header ++ pair tagObjectObject 0). unfold data. cbn [body]. by rewrite <- !app_assoc.
    - unfold data. cbn [body]. rewrite !length_app. lia. }
  by rewrite E.
Qed.

(** ** Where the deserializer departs from what was written *)

(** Integers are stored as the 32 bits of an int32 and read as a uint32. *)
Lemma negative_int32 data z r :
  - 2 ^ 31 <= z < 0 → deserializeNext data tagInt32 (vdata (FInt32 z)) r = (Ok (Some (itoa (z + 2 ^ 32))), r).
Proof.
  intros Hz. cbn [vdata]. unfold deserializeNext, Values.with_fuel. cbn [deserializeNext_fuel]. toks.
  by assert (z mod 2 ^ 32 = z + 2 ^ 32) as -> by (Z.to_euclidean_division_equations; lia).
Qed.

Lemma map_double_loop pre d z rest m fuel :
  0 <= d < tagFloatMax * 2 ^ 32 → 0 <= z < 2 ^ 31 →
  let r := pair tagInt32 z ++ endOfKeys ++ rest in
  map_loop (deserializeNext_fuel (pre ++ r) (S m)) (S (S fuel)) ∅ (pair (vtag (FDouble d)) (vdata (FDouble d)) ++ r) =
    (Ok {[Values.FormatFloat (tagInt32 * 2 ^ 32 + z) := itoa z]}, rest).
Proof.
  intros Hd Hz r. assert (Hp : wf_pair (FDouble d)) by by apply wf_wf_pair.
  set (next := deserializeNext_fuel _ _). cbn [map_loop].
  erewrite bind_ctx_Ok by (by apply nextPair_val). cbv beta iota.
  rewrite (proj2 (Z.eqb_neq _ _) (proj2 (proj2 Hp))).
  erewrite bind_ctx_Ok by (apply nextPair_pair; [done|unfold wf_u32; lia]). cbv beta iota.
  assert (Ek : next (vtag (FDouble d)) (vdata (FDouble d)) (endOfKeys ++ rest) =
    (Ok (Some (Values.FormatFloat (tagInt32 * 2 ^ 32 + z))), endOfKeys ++ rest)).
  { unfold next. rewrite next_inline by (cbn [vtag]; unfold tagFloatMax in *; Z.to_euclidean_division_equations; lia).
    apply some_Ok. erewrite bind_Ok by apply reread_pair.
    replace (tagInt32 * 2 ^ 32 + z) with (le_value (pair tagInt32 z)); [done|].
    unfold pair. rewrite le_value_app, !le_value_bytes; unfold len; rewrite ?length_le_bytes;
      change (256 ^ Z.of_nat 4) with (2 ^ 32); unfold tagInt32; lia. }
  erewrite bind_ctx_Ok by (exact Ek). erewrite bind_ctx_Ok by reflexivity.
  by erewrite bind_ctx_Ok by apply nextPair_end.
Qed.

(** The pairs of a key and its value are read before the key is: going back eight bytes for a
    key that is a double lands on the pair of the value, so a double key of a map is lost, and
    its entry stands under the pair of the value, taken for a double. *)
Theorem map_double_key pre d z rest :
  0 <= d < tagFloatMax * 2 ^ 32 → 0 <= z < 2 ^ 31 →
  let m := FMap [(FDouble d, FInt32 z)] in
  deserializeNext (pre ++ ser m ++ rest) (vtag m) (vdata m) (body m ++ rest) =
    (Ok (Some (json_object json_string {[Values.FormatFloat (tagInt32 * 2 ^ 32 + z) := itoa z]})), rest).
Proof.
  intros Hd Hz m. set (p := pair (vtag (FDouble d)) (vdata (FDouble d))).
  assert (Ebody : body m ++ rest = p ++ pair tagInt32 z ++ endOfKeys ++ rest).
  { unfold m. cbn [body flat_map app vtag vdata]. rewrite !app_nil_r, (Z.mod_small z) by lia. by rewrite <- !app_assoc. }
  unfold ser. rewrite <- app_assoc, Ebody, !app_assoc, <- !app_assoc.
  assert (exists k, length (p ++ pair tagInt32 z ++ endOfKeys ++ rest) = S k) as [k Hk] by (eexists; reflexivity).
  unfold deserializeNext, Values.with_fuel. cbv beta. rewrite Hk. cbn [vtag vdata m deserializeNext_fuel]. toks.
  apply some_Ok. unfold deserializeMap, Values.with_fuel. cbv beta.
  erewrite bind_Ok; [reflexivity|]. rewrite Hk.
  pose proof (map_double_loop (pre ++ pair tagMapObject 0 ++ p) d z rest k k Hd Hz) as E.
  cbv zeta in E. rewrite <- !app_assoc in E. exact E.
Qed.

(** After a string property and its value the loop goes on to the code that skips a property
    that is not a string: it takes the name and the value of the next property for a value
    and a name, misses the end of the error, and the row is lost. *)
Lemma error_misses_end data :
  (deserializeError (deserializeNext data)
    (ser_str (Ascii (bs "name")) ++ ser (FStr false (Ascii (bs "TypeError"))) ++
     ser_str (Ascii (bs "message")) ++ ser (FStr false (Ascii (bs "bad"))) ++ endOfKeys)).1 =
  Err (Wrapf "reading property in error object: %w" (Wrapf "reading byte in pair: %w" EOF)).
Proof. vm_compute. reflexivity. Qed.

(** A bad index of an array, and a length that cannot be allocated, panic. *)
Lemma corrupt_array_panics data :
  deserializeNext data tagArrayObject 1 (pair tagInt32 5 ++ pair tagNull 0) = (Panic, []).
Proof. reflexivity. Qed.
End Lib.

(** ** Witnesses *)
Definition example_props : list (fxstr * fxval) :=
  [ (Ascii (bs "id"), FInt32 3); (Ascii (bs "offset"), FInt32 (-1));
    (Utf16 [x68; x00], FStr true (Utf16 [x69; x00]));
    (Ascii (bs "score"), FDouble (2 ^ 62));
    (Ascii (bs "none"), FNull);
    (Ascii (bs "tags"), FArray 3 [(0, FStr false (Ascii (bs "a"))); (2, FObject [(Ascii (bs "k"), FBool false true)])]);
    (Ascii (bs "raw"), FTyped 3 [1; 515; 65535]);
    (Ascii (bs "map"), FMap [(FInt32 1, FSet [FDouble 5; FDate 7]); (FInt32 2, FDouble (2 ^ 62)); (FStr false (Ascii (bs "x")), FRef 2)]);
    (Ascii (bs "re"), FRegexp (Ascii (bs "a+")) 3) ].

Lemma example_props_wf : @wf exampleLib (FObject example_props).
Proof. vm_compute. repeat split; try discriminate; eauto. Qed.

Lemma deserializeFirefox_roundtrip_witness :
  @deserializeFirefox exampleLib (<[bs "data" := ser_row 0 example_props ++ [x2a]]> ∅) =
    Ok [fill (map (λ '(k, v), (@render_str exampleLib k, @render exampleLib v)) example_props)].
Proof. apply deserializeFirefox_roundtrip; [done|apply example_props_wf]. Defined.

(** A double under a string of a map is lost: what is read eight bytes back are the characters. *)
Lemma map_double_value :
  let m := FMap [(FStr false (Ascii (bs "x")), FDouble (2 ^ 62))] in
  @deserializeNext exampleLib (ser m) (vtag m) (vdata m) (body m) =
    (Ok (Some (json_object json_string {[bs "x" := itoa 120]})), []) ∧
  @render exampleLib m = Some (json_object json_string {[bs "x" := itoa (2 ^ 62)]}).
Proof. split; vm_compute; reflexivity. Qed.

Lemma map_double_key_witness :
  let m := FMap [(FDouble (2 ^ 62), FInt32 7)] in
  @deserializeNext exampleLib ([] ++ ser m ++ []) (vtag m) (vdata m) (body m ++ []) =
    (Ok (Some (json_object json_string {[itoa (tagInt32 * 2 ^ 32 + 7) := itoa 7]})), []).
Proof.
  assert (H1 : 0 <= 2 ^ 62 < tagFloatMax * 2 ^ 32) by (split; [discriminate|reflexivity]).
  assert (H2 : 0 <= 7 < 2 ^ 31) by (split; [discriminate|reflexivity]).
  exact (@map_double_key exampleLib [] (2 ^ 62) 7 [] H1 H2).
Defined.
End FirefoxCodec.
