(* ===== verification/KatcWebkit.v ===== *)
(** * ee/katc/deserialize_webkit.go: WebKit's serialized script values as rows

    The deserializer of the values Safari stores in IndexedDB.  The [webkitDeserializer] is a
    reader and two pools: the strings seen so far, and the objects seen so far, which later
    parts of the data name by their index.  An operation of it is a [W]: a [Reader]
    that takes the pools and returns what became of them (every error ends the whole run, so the pools
    are not returned with it).  A nil slice is [None].  The containers take [deserializeValue] as
    the argument [next], and fuel bounds the nesting. *)
From S2P Require Import Prelude Reader Json IdbValues KatcFirefox.
Import Values.

(** The decoders of golang.org/x/text the strings go through: ISO 8859-1, and UTF-16 in little-endian
    order that ignores byte order marks *)
Class Charsets := {
  latin1Decode : bytes → option bytes;
  utf16leDecode : bytes → option bytes
}.

Module Webkit.

(** ** Tags *)
Definition webkitArrayTag : byte := Z_byte 1.
Definition webkitObjectTag : byte := Z_byte 2.
Definition webkitUndefinedTag : byte := Z_byte 3.
Definition webkitNullTag : byte := Z_byte 4.
Definition webkitIntTag : byte := Z_byte 5.
Definition webkitZeroTag : byte := Z_byte 6.
Definition webkitOneTag : byte := Z_byte 7.
Definition webkitFalseTag : byte := Z_byte 8.
Definition webkitTrueTag : byte := Z_byte 9.
Definition webkitDoubleTag : byte := Z_byte 10.
Definition webkitDateTag : byte := Z_byte 11.
Definition webkitFileTag : byte := Z_byte 12.
Definition webkitFileListTag : byte := Z_byte 13.
Definition webkitImageDataTag : byte := Z_byte 14.
Definition webkitBlobTag : byte := Z_byte 15.
Definition webkitStringTag : byte := Z_byte 16.
Definition webkitRegExpTag : byte := Z_byte 18.
Definition webkitObjectReferenceTag : byte := Z_byte 19.
Definition webkitArrayBufferTag : byte := Z_byte 21.
Definition webkitArrayBufferViewTag : byte := Z_byte 22.
Definition webkitArrayBufferTransferTag : byte := Z_byte 23.
Definition webkitTrueObjectTag : byte := Z_byte 24.
Definition webkitFalseObjectTag : byte := Z_byte 25.
Definition webkitStringObjectTag : byte := Z_byte 26.
Definition webkitEmptyStringObjectTag : byte := Z_byte 27.
Definition webkitNumberObjectTag : byte := Z_byte 28.
Definition webkitSetObjectTag : byte := Z_byte 29.
Definition webkitMapObjectTag : byte := Z_byte 30.
Definition webkitNonMapPropertiesTag : byte := Z_byte 31.
Definition webkitNonSetPropertiesTag : byte := Z_byte 32.
Definition webkitSharedArrayBufferTag : byte := Z_byte 34.
Definition webkitResizableArrayBufferTag : byte := Z_byte 54.
Definition webkitErrorInstanceTag : byte := Z_byte 55.

Definition terminatorTag : Z := 0xFFFFFFFF.
Definition stringPoolTag : Z := 0xFFFFFFFE.
Definition nonIndexPropertiesTag : Z := 0xFFFFFFFD.
Definition stringDataIs8BitFlag : Z := 0x80000000.

(** ** The deserializer *)
Definition value := option bytes.
Definition str (v : value) : bytes := default [] v.

Record webkitDeserializer := Pools { stringPool : list bytes; objectPool : list value }.

(** [newWebkitDeserializer], less the reader *)
Definition newWebkitDeserializer : webkitDeserializer := Pools [] [].

Definition W (A : Type) : Type := webkitDeserializer → Reader (A * webkitDeserializer).

#[export] Instance w_ret : MRet W := fun _ a w => mret (M := Reader) (a, w).
#[export] Instance w_bind : MBind W := fun _ _ f m w =>
  mbind (M := Reader) (λ '(a, w'), f a w') (m w).

(** An operation of the reader alone *)
Definition rd {A} (m : Reader A) : W A := fun w => a ← m; mret (M := Reader) (a, w).
Definition wfail {A} (e : err) : W A := fun w => fail e.
Definition wctx {A} (msg : string) (m : W A) : W A := fun w => ctx msg (m w).
Arguments wctx {A} msg%_string m.

Definition strings : W (list bytes) := fun w => mret (M := Reader) (stringPool w, w).
Definition objects : W (list value) := fun w => mret (M := Reader) (objectPool w, w).
(** [w.stringPool = append(w.stringPool, s)] *)
Definition addString (s : bytes) : W unit := fun w =>
  mret (M := Reader) (tt, Pools (stringPool w ++ [s]) (objectPool w)).
Definition addObject (v : value) : W unit := fun w =>
  mret (M := Reader) (tt, Pools (stringPool w) (objectPool w ++ [v])).

(** The value, added to the pool of objects *)
Definition pooled (m : W value) : W value := v ← m; _ ← addObject v; mret v.

(** One unit of fuel more than there are bytes to read *)
Definition w_fuel {A} (f : nat → W A) : W A := fun w => with_fuel (λ fuel, f fuel w).

Definition deserializeUint32 : Reader Z := ctx "decoding uint32: %w" (ReadFixed 4).

(** The index is stored in 1, 2 or 4 bytes, by the size of the pool. *)
Definition fromPool {A : Type} (pool : list A) : Reader A :=
  idx ← (if len pool <=? 255 then ctx "reading uint8 index tag: %w" (ReadFixed 1)
         else if len pool <=? 65535 then ctx "reading uint16 index tag: %w" (ReadFixed 2)
         else ctx "reading uint32 index tag: %w" (ReadFixed 4));
  if len pool <=? idx then fail (Errorf "requested item at index %d but only %d items in pool")
  else match pool !! Z.to_nat idx with Some x => mret x | None => panic end.

(** [w.reader.Read(rawData)] into [n] zero bytes: what there is, as far as it goes; only an exhausted
    reader is an error. *)
Definition Read (n : Z) : Reader bytes := fun r =>
  match r with
  | [] => (Err EOF, [])
  | _ => (Ok (take (Z.to_nat n) r ++ repeat x00 (Z.to_nat n - length r)), drop (Z.to_nat n) r)
  end.

(** [hex.DecodeString] *)
Fixpoint hexDecode (s : bytes) : option bytes :=
  match s with
  | [] => Some []
  | a :: b :: s' =>
      match hex_value a, hex_value b, hexDecode s' with
      | Some x, Some y, Some l => Some (Z_byte (16 * x + y) :: l)
      | _, _, _ => None
      end
  | _ => None
  end.

Section Lib.
Context `{G : GoLib} `{C : Charsets}.

(** The string, or nil when the terminator stands in its place *)
Definition deserializeStringData : W value :=
  nextTag ← wctx "reading start of StringData: %w" (rd deserializeUint32);
  if nextTag =? terminatorTag then mret None
  else if nextTag =? stringPoolTag then
    pool ← strings;
    s ← wctx "reading from string pool after string pool tag: %w" (rd (fromPool pool));
    mret (Some s)
  else
    let is8Bit := negb (Z.land nextTag stringDataIs8BitFlag =? 0) in
    let nextTag := Z.ldiff nextTag stringDataIs8BitFlag in
    let numBytes := if is8Bit then nextTag else (nextTag * 2) mod 2 ^ 32 in
    _ ← rd (make 1 numBytes);
    strBytes ← wctx "reading byte %d of %d of string: %w" (rd (ReadBytes numBytes));
    match (if is8Bit then latin1Decode strBytes else utf16leDecode strBytes) with
    | Some decoded => _ ← addString decoded; mret (Some decoded)
    | None => wfail (Errorf "decoding: %w")
    end.

Definition deserializeDouble : Reader bytes :=
  d ← ctx "decoding double: %w" (ReadFixed 8); mret (FormatFloat d).

Definition deserializeRegexp : W value :=
  pattern ← wctx "deserializing pattern in regexp: %w" deserializeStringData;
  flags ← wctx "deserializing flags in regexp: %w" deserializeStringData;
  mret (Some (bs "/" ++ str pattern ++ bs "/" ++ str flags)).

(** ** Array buffers *)
Definition deserializeArrayBuffer : W value :=
  pooled (
    length ← rd (ctx "decoding content length: %w" (ReadFixed 8));
    _ ← rd (make 1 length);
    rawData ← rd (ctx "reading %d bytes in array buffer: %w" (Read length));
    mret (Some rawData)).

Definition deserializeResizableArrayBuffer : W value :=
  pooled (
    length ← rd (ctx "decoding content length: %w" (ReadFixed 8));
    _ ← rd (ctx "decoding max content length: %w" (ReadFixed 8));
    _ ← rd (make 1 length);
    rawData ← rd (ctx "reading %d bytes in resizable array buffer: %w" (Read length));
    mret (Some rawData)).

Definition deserializeArrayBufferView : W value :=
  pooled (
    _ ← rd (ctx "reading array buffer view subtag: %w" ReadByte);
    _ ← rd (ctx "decoding byte offset: %w" (ReadFixed 8));
    _ ← rd (ctx "decoding byte length: %w" (ReadFixed 8));
    nextTag ← rd (ctx "reading next tag inside array buffer view: %w" ReadByte);
    if nextTag =b webkitArrayBufferTag then
      wctx "reading array buffer inside array buffer view with subtag %d: %w" deserializeArrayBuffer
    else if nextTag =b webkitResizableArrayBufferTag then
      wctx "reading resizable array buffer inside array buffer view with subtag %d: %w" deserializeResizableArrayBuffer
    else if nextTag =b webkitObjectReferenceTag then
      pool ← objects;
      wctx "retrieving object reference from object pool: %w" (rd (fromPool pool))
    else if nextTag =b webkitArrayBufferTransferTag then
      wfail (Errorf "ArrayBufferTransfer not yet supported in array buffer view with subtag %d")
    else if nextTag =b webkitSharedArrayBufferTag then
      wfail (Errorf "SharedArrayBuffer not yet supported in array buffer view with subtag %d")
    else wfail (Errorf "unsupported tag %d in array buffer view with subtag %d")).

(** ** Errors *)
Definition errorEnumToString (errorTypeEnum : byte) : option bytes :=
  match byte_Z errorTypeEnum with
  | 0 => Some (bs "Error")
  | 1 => Some (bs "EvalError")
  | 2 => Some (bs "RangeError")
  | 3 => Some (bs "ReferenceError")
  | 4 => Some (bs "SyntaxError")
  | 5 => Some (bs "TypeError")
  | 6 => Some (bs "URIError")
  | _ => None
  end.

Definition deserializeNullableString : W value :=
  isNull ← rd (ctx "reading isNull: %w" ReadByte);
  if isNull =b Z_byte 1 then mret None
  else wctx "reading string data in non-null nullable string: %w" deserializeStringData.

(** The properties of an error object *)
Definition errorProperties (type message line column sourceUrl stack cause : bytes) : gmap bytes bytes :=
  <[bs "cause" := cause]> (<[bs "stack" := stack]> (<[bs "fileName" := sourceUrl]>
    (<[bs "column" := column]> (<[bs "lineNumber" := line]> (<[bs "message" := message]>
      (<[bs "type" := type]> {[ bs "name" := bs "Error" ]})))))).

Definition deserializeError : W value :=
  errorTypeEnum ← rd (ctx "reading error type: %w" ReadByte);
  match errorEnumToString errorTypeEnum with
  | None => wfail (Errorf "unknown error type %d")
  | Some errorTypeStr =>
      msg ← wctx "reading error message: %w" deserializeNullableString;
      line ← rd (ctx "reading error line: %w" (ReadFixed 4));
      column ← rd (ctx "reading error column: %w" (ReadFixed 4));
      sourceUrl ← wctx "reading error source url: %w" deserializeNullableString;
      stack ← wctx "reading error stack: %w" deserializeNullableString;
      cause ← wctx "reading error cause: %w" deserializeNullableString;
      mret (Some (json_object json_string
        (errorProperties errorTypeStr (str msg) (itoa line) (itoa column) (str sourceUrl) (str stack) (str cause))))
  end.

(** ** Containers *)
Section Containers.
Variable next : W value.

Fixpoint deserializeObject_loop (fuel : nat) (obj : gmap bytes value) : W (gmap bytes value) :=
  match fuel with
  | O => λ w, no_fuel
  | S fuel' =>
      name ← wctx "deserializing object name: %w" deserializeStringData;
      match name with
      | None => mret obj
      | Some name =>
          val ← wctx "deserializing value for key %s: %w" next;
          deserializeObject_loop fuel' (<[name := val]> obj)
      end
  end.

Definition deserializeObject : W (gmap bytes value) :=
  w_fuel (λ fuel, deserializeObject_loop fuel ∅).

Definition deserializeNestedObject : W value :=
  pooled (
    nestedObj ← wctx "deserializing nested object: %w" deserializeObject;
    mret (Some (json_object json_string (str <$> nestedObj)))).

Fixpoint readAndDiscardProperties_loop (fuel : nat) : W unit :=
  match fuel with
  | O => λ w, no_fuel
  | S fuel' =>
      propName ← wctx "deserializing property name: %w" deserializeStringData;
      match propName with
      | None => mret tt
      | Some _ =>
          _ ← wctx "deserializing value for property name %s: %w" next;
          readAndDiscardProperties_loop fuel'
      end
  end.

Definition readAndDiscardProperties : W unit := w_fuel readAndDiscardProperties_loop.

(** The slots of the slice that were assigned *)
Fixpoint array_loop (fuel : nat) (arrayLength : Z) (resultArr : gmap Z bytes) : W (gmap Z bytes) :=
  match fuel with
  | O => λ w, no_fuel
  | S fuel' =>
      currentIdx ← wctx "deserializing next index in array: %w" (rd deserializeUint32);
      if currentIdx =? terminatorTag then mret resultArr
      else if arrayLength <=? currentIdx then
        wfail (Errorf "got unexpected index %d for array with length %d")
      else
        currentValue ← wctx "deserializing next Value in array at index %d: %w" next;
        resultArr ← rd (set_item arrayLength currentIdx (str currentValue) resultArr);
        array_loop fuel' arrayLength resultArr
  end.

Definition array_end : W unit :=
  propertiesStartTag ← wctx "reading properties tag after array: %w" (rd deserializeUint32);
  if propertiesStartTag =? nonIndexPropertiesTag then
    wctx "reading array properties after array: %w" readAndDiscardProperties
  else if negb (propertiesStartTag =? terminatorTag) then
    wfail (Errorf "expected tag after array terminator to be properties start tag or another terminator tag, but got %d")
  else mret tt.

Definition deserializeArray : W value :=
  pooled (
    arrayLength ← wctx "reading array length: %w" (rd deserializeUint32);
    _ ← rd (make 16 arrayLength);
    resultArr ← w_fuel (λ fuel, array_loop fuel arrayLength ∅);
    _ ← array_end;
    mret (Some (json_array (map json_slot (slots arrayLength resultArr))))).

Fixpoint map_loop (fuel : nat) (mapObject : gmap bytes bytes) : W (gmap bytes bytes) :=
  match fuel with
  | O => λ w, no_fuel
  | S fuel' =>
      nextTag ← rd (ctx "reading next tag in map: %w" ReadByte);
      if nextTag =b webkitNonMapPropertiesTag then mret mapObject
      else
        _ ← rd (UnreadByte nextTag);
        keyRaw ← wctx "reading next key in map: %w" next;
        valueRaw ← wctx "reading next value in map for key %s: %w" next;
        map_loop fuel' (<[str keyRaw := str valueRaw]> mapObject)
  end.

Definition deserializeMapData : W value :=
  pooled (
    mapObject ← w_fuel (λ fuel, map_loop fuel ∅);
    _ ← wctx "reading map properties after map: %w" readAndDiscardProperties;
    mret (Some (json_object json_string mapObject))).

Fixpoint set_loop (fuel : nat) (setObject : gmap bytes unit) : W (gmap bytes unit) :=
  match fuel with
  | O => λ w, no_fuel
  | S fuel' =>
      nextTag ← rd (ctx "reading next tag in set: %w" ReadByte);
      if nextTag =b webkitNonSetPropertiesTag then mret setObject
      else
        _ ← rd (UnreadByte nextTag);
        keyRaw ← wctx "reading next key in set: %w" next;
        set_loop fuel' (<[str keyRaw := tt]> setObject)
  end.

Definition deserializeSetData : W value :=
  pooled (
    setObject ← w_fuel (λ fuel, set_loop fuel ∅);
    _ ← wctx "reading set properties after set: %w" readAndDiscardProperties;
    mret (Some (json_object (λ _, bs "{}") setObject))).
End Containers.

(** ** Values *)
Definition lit (s : string) : W value := mret (Some (bs s)).
Arguments lit s%_string.

Fixpoint deserializeValue_fuel (fuel : nat) : W value :=
  match fuel with
  | O => λ w, no_fuel
  | S fuel' =>
      let next := deserializeValue_fuel fuel' in
      tag ← rd (ctx "reading value tag: %w" ReadByte);
      let tagged t := tag =b t in
      if tagged webkitArrayTag then deserializeArray next
      else if tagged webkitObjectTag then deserializeNestedObject next
      else if tagged webkitMapObjectTag then deserializeMapData next
      else if tagged webkitSetObjectTag then deserializeSetData next
      else if tagged webkitUndefinedTag then lit "undefined"
      else if tagged webkitNullTag then lit ""
      else if tagged webkitIntTag then
        d ← rd (ctx "decoding int: %w" (ReadFixed 4)); mret (Some (itoa (Firefox.signed 4 d)))
      else if tagged webkitZeroTag then lit "0"
      else if tagged webkitOneTag then lit "1"
      else if tagged webkitFalseTag then lit "false"
      else if tagged webkitTrueTag then lit "true"
      else if tagged webkitDateTag || tagged webkitDoubleTag then s ← rd deserializeDouble; mret (Some s)
      else if tagged webkitFileTag || tagged webkitFileListTag then
        wfail (Errorf "deserializing files (tag %d) not yet supported")
      else if tagged webkitImageDataTag then wfail (Errorf "deserializing images (tag %d) not yet supported")
      else if tagged webkitBlobTag then wfail (Errorf "deserializing blobs (tag %d) not yet supported")
      else if tagged webkitStringTag then
        wctx "deserializing StringData following tag %d: %w" deserializeStringData
      else if tagged webkitRegExpTag then deserializeRegexp
      else if tagged webkitObjectReferenceTag then pool ← objects; rd (fromPool pool)
      else if tagged webkitArrayBufferViewTag then deserializeArrayBufferView
      else if tagged webkitTrueObjectTag then pooled (lit "true")
      else if tagged webkitFalseObjectTag then pooled (lit "false")
      else if tagged webkitStringObjectTag then
        pooled (wctx "deserializing StringData following tag %d: %w" deserializeStringData)
      else if tagged webkitEmptyStringObjectTag then pooled (lit "")
      else if tagged webkitNumberObjectTag then
        pooled (s ← rd (ctx "deserializing number object: %w" deserializeDouble); mret (Some s))
      else if tagged webkitErrorInstanceTag then deserializeError
      else wfail (Errorf "value tag %d not yet supported")
  end.

Definition deserializeValue : W value := w_fuel deserializeValue_fuel.

Definition Deserialize : W (list (gmap bytes value)) :=
  _ ← wctx "reading version: %w" (rd deserializeUint32);
  tag ← rd (ctx "reading top-level value tag for version %d: %w" ReadByte);
  if negb (tag =b webkitObjectTag) then wfail (Errorf "expected top-level object, got %d tag")
  else
    result ← wctx "deserializing webkit object for version %d: %w" (deserializeObject deserializeValue);
    mret [result].
End Lib.

Definition deserializeWebkit `{G : GoLib} `{C : Charsets} (row : gmap bytes bytes) : res (list (gmap bytes value)) :=
  match row !! bs "data" with
  | None => Err (Errorf "row missing top-level data key")
  | Some data =>
      let v := trim_suffix (bs "'") (trim_prefix (bs "X'") data) in
      match hexDecode v with
      | None => Err (Errorf "hex-decoding data: %w")
      | Some decodedBytes =>
          '(val, _) ← wrap "deserializing: %w" (Deserialize newWebkitDeserializer decodedBytes).1;
          Ok val
      end
  end.
End Webkit.
