(* ===== verification/KatcWebkitCodec.v ===== *)
(** * WebKit's serialized values: termination, and the format the deserializer reads

    The reader of [KatcWebkit] comes to an end on every input.  [wkval] are values, [enc] the form the reader
    expects of them, [render] what the launcher reports; both thread the pools.  The deserializer computes
    [render] and keeps the pools in step.  On [simple] values [enc] is what WebKit writes, and the round-trip
    theorem says that [report] is read from it, which knows of no pools.  Last come the inputs that stop or
    mislead the deserializer. *)
From S2P Require Import Prelude Reader Json IdbValues IdbTotal IdbCodec KatcFirefox KatcCodec KatcWebkit.
Import Webkit.

Module WebkitTotal.

(** ** Readers with pools *)
Section Steady.
Context {A B : Type}.
Implicit Types (w : webkitDeserializer) (r : bytes).

Lemma steady_wbind (m : W A) (f : A → W B) w r :
  steady (m w) r →
  (∀ a w' r', m w r = (Ok (a, w'), r') → r' `suffix_of` r → steady (f a w') r') →
  steady ((m ≫= f) w) r.
Proof. intros Hm Hf. apply steady_bind; [done|]. intros [a w'] r' E S. by apply Hf. Qed.

Lemma steady_wret (a : A) w r : steady ((mret a : W A) w) r.
Proof. apply steady_ret. Qed.

Lemma steady_rd (m : Reader A) w r : steady m r → steady (rd m w) r.
Proof. intros H. apply steady_bind; [done|]. intros. apply steady_ret. Qed.

Lemma steady_wctx msg (m : W A) w r : steady (m w) r → steady (wctx msg m w) r.
Proof. apply steady_ctx. Qed.

Lemma steady_wfail e w r : steady (@wfail A e w) r.
Proof. apply steady_fail. Qed.

Lemma steady_w_fuel (f : nat → W A) w r : steady (f (S (length r)) w) r → steady (w_fuel f w) r.
Proof. done. Qed.

Lemma shrinks_rd (m : Reader A) w : shrinks m → shrinks (rd m w).
Proof.
  intros H r a r' E. unfold rd, mbind, reader_bind in E. destruct (m r) as [[x| | |] r1] eqn:Em; try done.
  cbv in E. simplify_eq. by eapply H.
Qed.

Lemma shrinks_wctx msg (m : W A) w : shrinks (m w) → shrinks (wctx msg m w).
Proof. apply shrinks_ctx. Qed.

Lemma wctx_inv msg (m : W A) w r a r' : wctx msg m w r = (Ok a, r') → m w r = (Ok a, r').
Proof.
  unfold wctx, ctx. destruct (m w r) as [o r'']. intros E. injection E as E <-. by apply wrap_Ok in E as ->.
Qed.

Lemma shrinks_wbind (m : W A) (f : A → W B) w :
  shrinks (m w) → (∀ a w' r, steady (f a w') r) → shrinks ((m ≫= f) w).
Proof.
  intros Hm Hf r b r' E. unfold mbind at 1, w_bind, mbind, reader_bind in E.
  destruct (m w r) as [[[a w1]| | |] r1] eqn:Em; try done. apply Hm in Em.
  pose proof (suffix_len _ _ (proj2 (Hf a w1 r1))) as Hs. rewrite E in Hs. cbn [snd] in Hs. lia.
Qed.
End Steady.

Lemma steady_addObject v w r : steady (addObject v w) r.
Proof. apply steady_ret. Qed.
Lemma steady_addString s w r : steady (addString s w) r.
Proof. apply steady_ret. Qed.
Lemma steady_strings w r : steady (strings w) r.
Proof. apply steady_ret. Qed.
Lemma steady_objects w r : steady (objects w) r.
Proof. apply steady_ret. Qed.

Lemma shrinks_ReadFixed n : (0 < n)%nat → shrinks (ReadFixed n).
Proof.
  intros Hn r a r' E. unfold ReadFixed in E. destruct r as [|b r]; [done|]. case_if_in E; [|done].
  injection E as _ <-. rewrite length_drop. cbn [length]. lia.
Qed.

Lemma steady_Read n r : steady (Read n) r.
Proof.
  destruct r as [|b r]; [split; cbn; done|]. split; [done|]. exists (take (Z.to_nat n) (b :: r)).
  exact (eq_sym (take_drop _ _)).
Qed.

#[export] Hint Resolve steady_wret steady_rd steady_wctx steady_wfail shrinks_rd shrinks_wctx
  steady_addObject steady_addString steady_strings steady_objects steady_Read : launcher.
#[export] Hint Extern 1 (shrinks (ReadFixed _)) => apply shrinks_ReadFixed; lia : launcher.

(** Walk through an operation of the deserializer, as [steady] does through a reader. *)
Ltac wsteady_step :=
  match goal with
  | |- steady (@mbind W _ _ _ _ _ _) _ =>
      apply steady_wbind;
      [|let a := fresh "a" in let w := fresh "w" in let r' := fresh "r" in
        let E := fresh "E" in let S := fresh "Sf" in intros a w r' E S; note_read E S; cbn beta]
  | |- steady (pooled _ _) _ => unfold pooled
  | |- steady ((if ?b then _ else _) _) _ => destruct b
  | |- steady ((match ?x with _ => _ end) _) _ => destruct x
  | |- steady (wctx _ _ _) _ => apply steady_wctx
  | |- steady (rd _ _) _ => apply steady_rd
  | |- _ => steady_step
  end.
Ltac wsteady := repeat wsteady_step.

Lemma steady_deserializeUint32 r : steady deserializeUint32 r.
Proof. unfold deserializeUint32. steady. Qed.

Lemma shrinks_deserializeUint32 : shrinks deserializeUint32.
Proof. unfold deserializeUint32. auto with launcher. Qed.

Lemma steady_fromPool {A : Type} (pool : list A) r : steady (fromPool pool) r.
Proof. unfold fromPool. steady. Qed.

#[export] Hint Resolve steady_deserializeUint32 shrinks_deserializeUint32 steady_fromPool : launcher.

Section Lib.
Context `{G : Values.GoLib} `{C : Charsets}.

Lemma steady_StringData w r : steady (deserializeStringData w) r.
Proof. unfold deserializeStringData. cbv zeta. wsteady. Qed.

Lemma shrinks_StringData w : shrinks (deserializeStringData w).
Proof.
  unfold deserializeStringData. apply shrinks_wbind; [auto with launcher|]. intros. cbv zeta. wsteady.
Qed.

#[local] Hint Resolve steady_StringData shrinks_StringData : launcher.

Lemma steady_wk_regexp w r : steady (deserializeRegexp w) r.
Proof. unfold deserializeRegexp. wsteady. Qed.

Lemma steady_wk_double r : steady deserializeDouble r.
Proof. unfold deserializeDouble. steady. Qed.

Lemma steady_wk_view w r : steady (deserializeArrayBufferView w) r.
Proof. unfold deserializeArrayBufferView, deserializeArrayBuffer, deserializeResizableArrayBuffer. wsteady. Qed.

Lemma steady_NullableString w r : steady (deserializeNullableString w) r.
Proof. unfold deserializeNullableString. wsteady. Qed.

#[local] Hint Resolve steady_wk_regexp steady_wk_double steady_wk_view steady_NullableString : launcher.

Lemma steady_wk_error w r : steady (deserializeError w) r.
Proof. unfold deserializeError. wsteady. Qed.

#[local] Hint Resolve steady_wk_error : launcher.

Section Containers.
Variable next : W value.
(** A value among fewer than [n] bytes is read, and takes at least one of them. *)
Definition good (n : nat) : Prop :=
  ∀ w r, (length r < n)%nat →
    steady (next w) r ∧ ∀ a r', next w r = (Ok a, r') → (length r' < length r)%nat.

Ltac container IH :=
  wsteady; first [by apply IH; lia | match goal with H : good _ |- _ => apply H; lia end].

Lemma steady_wk_object_loop n fuel obj w r :
  good n → (length r < fuel)%nat → (length r <= n)%nat → steady (deserializeObject_loop next fuel obj w) r.
Proof.
  intros Hg. revert obj w r; induction fuel as [|fuel IH]; intros obj w r Hf Hn; [lia|].
  cbn [deserializeObject_loop]. container IH.
Qed.

Lemma steady_properties_loop n fuel w r :
  good n → (length r < fuel)%nat → (length r <= n)%nat → steady (readAndDiscardProperties_loop next fuel w) r.
Proof.
  intros Hg. revert w r; induction fuel as [|fuel IH]; intros w r Hf Hn; [lia|].
  cbn [readAndDiscardProperties_loop]. container IH.
Qed.

Lemma steady_wk_array_loop n fuel al arr w r :
  good n → (length r < fuel)%nat → (length r <= n)%nat → steady (array_loop next fuel al arr w) r.
Proof.
  intros Hg. revert arr w r; induction fuel as [|fuel IH]; intros arr w r Hf Hn; [lia|].
  cbn [array_loop]. unfold Values.set_item. container IH.
Qed.

(** A byte that is read and put back *)
Lemma steady_wpeek {A} msg (f : byte → W A) w r :
  (∀ b r', r = b :: r' → (f b w r').1 ≠ NoFuel ∧ (f b w r').2 `suffix_of` r) →
  steady ((rd (ctx msg ReadByte) ≫= f) w) r.
Proof. intros H. destruct r as [|b r]; [split; cbn; done|]. exact (H b r eq_refl). Qed.

Lemma unread {A} b (f : unit → W A) w r :
  steady (f tt w) (b :: r) →
  let m := rd (Values.UnreadByte b) ≫= f in (m w r).1 ≠ NoFuel ∧ (m w r).2 `suffix_of` (b :: r).
Proof. done. Qed.

Lemma steady_wk_map_loop n fuel m w r :
  good n → (length r < fuel)%nat → (length r < n)%nat → steady (map_loop next fuel m w) r.
Proof.
  intros Hg. revert m w r; induction fuel as [|fuel IH]; intros m w r Hf Hn; [lia|].
  cbn [map_loop]. apply steady_wpeek. intros b r' ->.
  destruct (b =b webkitNonMapPropertiesTag).
  - split; [done|]. cbn. by apply suffix_cons_r.
  - apply unread. destruct (Hg w (b :: r') Hn) as [Hs He]. apply steady_wbind; [auto with launcher|].
    intros key w1 r1 E1 S1. apply wctx_inv, He in E1. container IH.
Qed.

Lemma steady_wk_set_loop n fuel m w r :
  good n → (length r < fuel)%nat → (length r < n)%nat → steady (set_loop next fuel m w) r.
Proof.
  intros Hg. revert m w r; induction fuel as [|fuel IH]; intros m w r Hf Hn; [lia|].
  cbn [set_loop]. apply steady_wpeek. intros b r' ->.
  destruct (b =b webkitNonSetPropertiesTag).
  - split; [done|]. cbn. by apply suffix_cons_r.
  - apply unread. destruct (Hg w (b :: r') Hn) as [Hs He]. apply steady_wbind; [auto with launcher|].
    intros key w1 r1 E1 S1. apply wctx_inv, He in E1. container IH.
Qed.

Lemma steady_properties n w r : good n → (length r <= n)%nat → steady (readAndDiscardProperties next w) r.
Proof. intros Hg Hn. apply steady_w_fuel. eapply steady_properties_loop; [done|lia|done]. Qed.

Lemma steady_wk_object n w r : good n → (length r <= n)%nat → steady (deserializeObject next w) r.
Proof. intros Hg Hn. apply steady_w_fuel. eapply steady_wk_object_loop; [done|lia|done]. Qed.

(** The containers, read from fewer than [n] bytes *)
Lemma steady_wk_containers n w r :
  good n → (length r < n)%nat →
  steady (deserializeNestedObject next w) r ∧ steady (deserializeArray next w) r ∧
  steady (deserializeMapData next w) r ∧ steady (deserializeSetData next w) r.
Proof.
  intros Hg Hn. unfold deserializeNestedObject, deserializeArray, array_end, deserializeMapData, deserializeSetData.
  split_and!; wsteady;
    first [ eapply steady_properties; [done|lia] | eapply steady_wk_object; [done|lia] | apply steady_w_fuel ];
    first [ eapply steady_wk_array_loop | eapply steady_wk_map_loop | eapply steady_wk_set_loop ]; eauto; lia.
Qed.
End Containers.

Lemma deserializeValue_fuel_good fuel : good (deserializeValue_fuel fuel) fuel.
Proof.
  induction fuel as [|fuel IH]; intros w r Hr; [lia|]. cbn [deserializeValue_fuel]. cbv zeta.
  assert (Hc := λ w r, steady_wk_containers _ _ w r IH).
  destruct r as [|tag r]; [split; [split; cbn; done|done]|]. cbn [length] in Hr.
  destruct (Hc w r ltac:(lia)) as (? & ? & ? & ?).
  match goal with |- steady ((_ ≫= ?f) w) _ ∧ _ => assert (Hs : steady (f tag w) r) end.
  { unfold lit. wsteady. }
  split; [split; [apply Hs|apply suffix_cons_r, Hs]|].
  intros a r' E. destruct Hs as [_ Hs%suffix_len]. match type of Hs with (length ?x <= _)%nat =>
    assert (x = r') as Ex by (exact (f_equal snd E)) end. rewrite Ex in Hs. cbn [length]. lia.
Qed.

Lemma good_deserializeValue n : good deserializeValue n.
Proof. intros w r _. apply (deserializeValue_fuel_good (S (length r))). lia. Qed.

Lemma steady_Deserialize w r : steady (Deserialize w) r.
Proof.
  unfold Deserialize. wsteady. eapply steady_wk_object; [apply good_deserializeValue|done].
Qed.

(** A transformation of rows that comes to an end on every row *)
Definition total {A B} (f : A → res B) : Prop := ∀ row, completes (f row).

Lemma deserializeWebkit_completes row : completes (deserializeWebkit row).
Proof.
  unfold completes, deserializeWebkit. destruct (row !! bs "data") as [data|]; [|done].
  cbv zeta. destruct (hexDecode _) as [l|]; [|done].
  pose proof (proj1 (steady_Deserialize newWebkitDeserializer l)) as H.
  destruct (Deserialize newWebkitDeserializer l).1 as [[v w]| | |]; done.
Qed.
End Lib.

(** C36: [deserializeWebkit] comes to an end on every row, whatever its bytes: a row, an error or a panic, and
    never a loop without end, though the pools refer back and maps and sets read one byte ahead. *)
Theorem deserializeWebkit_terminates `{G : Values.GoLib} `{C : Charsets} : total deserializeWebkit.
Proof. exact deserializeWebkit_completes. Qed.
End WebkitTotal.

Module WebkitCodec.
Import WebkitTotal.

(** ** Values and their serialized form *)

(** Strings, by the raw bytes of their characters *)
Inductive wkstr := Latin1 (s : bytes) | Utf16 (s : bytes).

#[export] Instance wkstr_eq_dec : EqDecision wkstr.
Proof. solve_decision. Defined.

Inductive wkbuffer := Buffer (data : bytes) | Resizable (data : bytes) (max : Z) | BufferRef (i : Z).

Record wkerror := WkError {
  err_type : Z; err_message : option wkstr; err_line : Z; err_column : Z;
  err_url : option wkstr; err_stack : option wkstr; err_cause : option wkstr
}.

#[warnings="-register-all"]
Inductive wkval :=
| WUndefined | WNull | WZero | WOne
| WInt (z : Z)
| WBool (boxed b : bool)
| WDouble (bits : Z)
| WDate (bits : Z)
| WNumberObj (bits : Z)
| WStr (boxed : bool) (s : wkstr)
| WEmptyStringObj
| WRegexp (pattern flags : wkstr)
| WRef (i : Z)
| WView (subtag : byte) (offset length : Z) (buf : wkbuffer)
| WError (e : wkerror)
| WObject (props : list (wkstr * wkval))
| WArray (n : Z) (items : list (Z * wkval)) (props : list (wkstr * wkval))
| WMap (entries : list (wkval * wkval)) (props : list (wkstr * wkval))
| WSet (items : list wkval) (props : list (wkstr * wkval)).

(** Values without references to other objects, which WebKit numbers otherwise than the reader ([root_not_numbered]),
    and without empty strings, for which it has a tag the reader does not know ([empty_string_rejected]).  WebKit's
    writer has no other use for the number of an object. *)
Definition simple_buffer (b : wkbuffer) : Prop := match b with BufferRef _ => False | _ => True end.

Fixpoint simple (v : wkval) : Prop :=
  let props := all (λ '(_, v), simple v) in
  match v with
  | WStr _ s => match s with Latin1 s | Utf16 s => s ≠ [] end
  | WRef _ => False
  | WView _ _ _ b => simple_buffer b
  | WObject l => props l
  | WArray _ items l => all (λ '(_, v), simple v) items ∧ props l
  | WMap entries l => all (λ '(k, v), simple k ∧ simple v) entries ∧ props l
  | WSet items l => all simple items ∧ props l
  | _ => True
  end.

(** The state of the writer: the strings it has written, and how many objects.  It numbers objects the way the reader
    does, and writes an empty string like any other; WebKit does neither, so only what it writes of [simple] values is
    WebKit's. *)
Record writer := Writer { seen : list wkstr; pooledObjects : Z }.
Definition Put (A : Type) : Type := A → writer → bytes * writer.

(** The index of a string in the pool *)
Fixpoint index_of (s : wkstr) (pool : list wkstr) : option Z :=
  match pool with
  | [] => None
  | x :: pool' => if decide (x = s) then Some 0 else Z.succ <$> index_of s pool'
  end.

Definition enc_index (poolSize i : Z) : bytes :=
  le_bytes (if poolSize <=? 255 then 1 else if poolSize <=? 65535 then 2 else 4) i.

Definition u32 (z : Z) : bytes := le_bytes 4 z.

Definition str_raw (s : wkstr) : bytes := match s with Latin1 s | Utf16 s => s end.
Definition str_head (s : wkstr) : Z := match s with Latin1 s => 2 ^ 31 + len s | Utf16 s => len s / 2 end.

(** A string that was seen is written as its index, another one in full. *)
Definition enc_str : Put wkstr := fun s st =>
  match index_of s (seen st) with
  | Some i => if i <? 2 ^ 32 then (u32 stringPoolTag ++ enc_index (len (seen st)) i, st)
              else (u32 (str_head s) ++ str_raw s, Writer (seen st ++ [s]) (pooledObjects st))
  | None => (u32 (str_head s) ++ str_raw s, Writer (seen st ++ [s]) (pooledObjects st))
  end.

Definition then_put {A B} (p : Put A) (q : Put B) : Put (A * B) := fun '(a, b) st =>
  let '(x, st1) := p a st in let '(y, st2) := q b st1 in (x ++ y, st2).

Definition enc_nullable : Put (option wkstr) := fun o st =>
  match o with
  | None => ([x01], st)
  | Some s => let '(x, st') := enc_str s st in (x00 :: x, st')
  end.

Section Seq.
Context {A : Type} (p : Put A).
Fixpoint enc_seq (l : list A) (st : writer) : bytes * writer :=
  match l with
  | [] => ([], st)
  | a :: l' => let '(x, st1) := p a st in let '(y, st2) := enc_seq l' st1 in (x ++ y, st2)
  end.
End Seq.

(** One object more in the pool *)
Definition count (n : Z) (o : bytes * writer) : bytes * writer :=
  (o.1, Writer (seen o.2) (pooledObjects o.2 + n)).
Definition prefix (x : bytes) (o : bytes * writer) : bytes * writer := (x ++ o.1, o.2).
Definition suffix (x : bytes) (o : bytes * writer) : bytes * writer := (o.1 ++ x, o.2).

Definition terminator : bytes := u32 terminatorTag.

Definition enc_buffer (b : wkbuffer) (st : writer) : bytes * writer :=
  match b with
  | Buffer data => count 1 (webkitArrayBufferTag :: le_bytes 8 (len data) ++ data, st)
  | Resizable data max =>
      count 1 (webkitResizableArrayBufferTag :: le_bytes 8 (len data) ++ le_bytes 8 max ++ data, st)
  | BufferRef i => (webkitObjectReferenceTag :: enc_index (pooledObjects st) i, st)
  end.

Definition enc_error (e : wkerror) (st : writer) : bytes * writer :=
  let '(m, st1) := enc_nullable (err_message e) st in
  let '(u, st2) := enc_nullable (err_url e) st1 in
  let '(k, st3) := enc_nullable (err_stack e) st2 in
  let '(c, st4) := enc_nullable (err_cause e) st3 in
  (Z_byte (err_type e) :: m ++ u32 (err_line e) ++ u32 (err_column e) ++ u ++ k ++ c, st4).

Fixpoint enc (v : wkval) (st : writer) : bytes * writer :=
  let props l st := suffix terminator (enc_seq (then_put enc_str enc) l st) in
  match v with
  | WUndefined => ([webkitUndefinedTag], st)
  | WNull => ([webkitNullTag], st)
  | WZero => ([webkitZeroTag], st)
  | WOne => ([webkitOneTag], st)
  | WInt z => (webkitIntTag :: u32 (z mod 2 ^ 32), st)
  | WBool false b => ([if b then webkitTrueTag else webkitFalseTag], st)
  | WBool true b => count 1 ([if b then webkitTrueObjectTag else webkitFalseObjectTag], st)
  | WDouble d => (webkitDoubleTag :: le_bytes 8 d, st)
  | WDate d => (webkitDateTag :: le_bytes 8 d, st)
  | WNumberObj d => count 1 (webkitNumberObjectTag :: le_bytes 8 d, st)
  | WStr false s => prefix [webkitStringTag] (enc_str s st)
  | WStr true s => count 1 (prefix [webkitStringObjectTag] (enc_str s st))
  | WEmptyStringObj => count 1 ([webkitEmptyStringObjectTag], st)
  | WRegexp pattern flags => prefix [webkitRegExpTag] (then_put enc_str enc_str (pattern, flags) st)
  | WRef i => (webkitObjectReferenceTag :: enc_index (pooledObjects st) i, st)
  | WView subtag offset length b =>
      count 1 (prefix (webkitArrayBufferViewTag :: subtag :: le_bytes 8 offset ++ le_bytes 8 length) (enc_buffer b st))
  | WError e => prefix [webkitErrorInstanceTag] (enc_error e st)
  | WObject l => count 1 (prefix [webkitObjectTag] (props l st))
  | WArray n items l =>
      let '(x, st1) := enc_seq (λ '(i, v) st, prefix (u32 i) (enc v st)) items st in
      let '(y, st2) := match l with [] => (terminator, st1) | _ => prefix (u32 nonIndexPropertiesTag) (props l st1) end in
      count 1 (webkitArrayTag :: u32 n ++ x ++ terminator ++ y, st2)
  | WMap entries l =>
      let '(x, st1) := enc_seq (then_put enc enc) entries st in
      let '(y, st2) := props l st1 in
      count 1 (webkitMapObjectTag :: x ++ webkitNonMapPropertiesTag :: y, st2)
  | WSet items l =>
      let '(x, st1) := enc_seq enc items st in
      let '(y, st2) := props l st1 in
      count 1 (webkitSetObjectTag :: x ++ webkitNonSetPropertiesTag :: y, st2)
  end.

(** A stored object: the version, and its properties *)
Definition enc_row (version : Z) (props : list (wkstr * wkval)) : bytes :=
  u32 version ++ webkitObjectTag :: (enc_seq (then_put enc_str enc) props (Writer [] 0)).1 ++ terminator.

(** ** What the launcher reports *)
Section Lib.
Context `{G : Values.GoLib} `{C : Charsets}.

Definition decoded (s : wkstr) : option bytes :=
  match s with Latin1 s => latin1Decode s | Utf16 s => utf16leDecode s end.
Definition render_str (s : wkstr) : bytes := default [] (decoded s).
Definition render_nullable (o : option wkstr) : bytes := from_option render_str [] o.

(** The rendered value and the objects in the reader's pool after it, in the reader's order; a reference to an object that
    is not there is no value. *)
Definition Render (A B : Type) : Type := A → list value → option (B * list value).

Definition keep {B : Type} (b : B) (pool : list value) : option (B * list value) := Some (b, pool).
Definition push (v : bytes) (pool : list value) : option (value * list value) := Some (Some v, pool ++ [Some v]).
Definition push_value (o : option (value * list value)) : option (value * list value) :=
  '(v, pool) ← o; Some (v, pool ++ [v]).
Definition refer (i : Z) (pool : list value) : option (value * list value) :=
  v ← pool !! Z.to_nat i; Some (v, pool).

Section Seq.
Context {A B : Type} (f : Render A B).
Fixpoint render_seq (l : list A) (pool : list value) : option (list B * list value) :=
  match l with
  | [] => Some ([], pool)
  | a :: l' =>
      '(b, pool1) ← f a pool;
      '(bs, pool2) ← render_seq l' pool1;
      Some (b :: bs, pool2)
  end.
End Seq.

Definition render_buffer (b : wkbuffer) (pool : list value) : option (value * list value) :=
  match b with
  | Buffer data | Resizable data _ => push data pool
  | BufferRef i => refer i pool
  end.

Definition render_error (e : wkerror) : bytes :=
  json_object json_string (errorProperties (default [] (errorEnumToString (Z_byte (err_type e))))
    (render_nullable (err_message e)) (itoa (err_line e)) (itoa (err_column e)) (render_nullable (err_url e))
    (render_nullable (err_stack e)) (render_nullable (err_cause e))).

Fixpoint render (v : wkval) (pool : list value) : option (value * list value) :=
  let props := render_seq (λ '(k, v) pool, '(x, pool') ← render v pool; Some ((render_str k, x), pool')) in
  match v with
  | WUndefined => keep (Some (bs "undefined")) pool
  | WNull => keep (Some []) pool
  | WZero => keep (Some (bs "0")) pool
  | WOne => keep (Some (bs "1")) pool
  | WInt z => keep (Some (itoa z)) pool
  | WBool boxed b => (if boxed : bool then push else λ s, keep (Some s)) (if b then bs "true" else bs "false") pool
  | WDouble d | WDate d => keep (Some (Values.FormatFloat d)) pool
  | WNumberObj d => push (Values.FormatFloat d) pool
  | WStr boxed s => (if boxed : bool then push else λ s, keep (Some s)) (render_str s) pool
  | WEmptyStringObj => push [] pool
  | WRegexp pattern flags => keep (Some (bs "/" ++ render_str pattern ++ bs "/" ++ render_str flags)) pool
  | WRef i => refer i pool
  | WView _ _ _ b => push_value (render_buffer b pool)
  | WError e => keep (Some (render_error e)) pool
  | WObject l =>
      '(l', pool1) ← props l pool;
      push (json_object json_string (str <$> fill l')) pool1
  | WArray n items l =>
      '(items', pool1) ← render_seq (λ '(i, v) pool, '(x, pool') ← render v pool; Some ((i : Z, str x), pool')) items pool;
      '(_, pool2) ← props l pool1;
      push (json_array (map json_slot (Values.slots n (fill items')))) pool2
  | WMap entries l =>
      '(entries', pool1) ← render_seq (λ '(k, v) pool,
         '(x, pool1) ← render k pool; '(y, pool2) ← render v pool1; Some ((str x, str y), pool2)) entries pool;
      '(_, pool2) ← props l pool1;
      push (json_object json_string (fill entries')) pool2
  | WSet items l =>
      '(items', pool1) ← render_seq (λ v pool, '(x, pool') ← render v pool; Some ((str x, tt), pool')) items pool;
      '(_, pool2) ← props l pool1;
      push (json_object (λ _, bs "{}") (fill items')) pool2
  end.

Definition render_row (props : list (wkstr * wkval)) : option (gmap bytes value) :=
  '(l, _) ← render_seq (λ '(k, v) pool, '(x, pool') ← render v pool; Some ((render_str k, x), pool')) props [];
  Some (fill l).

(** ** Well-formed values *)
Definition wf_u32 (z : Z) : Prop := 0 <= z < 2 ^ 32.

(** A length of one byte per character must leave the two tags free. *)
Definition wf_str (s : wkstr) : Prop :=
  match s with Latin1 s => len s < 2 ^ 31 - 2 | Utf16 s => len s < 2 ^ 32 ∧ len s mod 2 = 0 end ∧ is_Some (decoded s).
Definition wf_nullable (o : option wkstr) : Prop := from_option wf_str True o.

Definition wf_buffer (b : wkbuffer) : Prop :=
  match b with
  | Buffer data => wf_len data
  | Resizable data max => wf_len data ∧ 0 <= max < two64
  | BufferRef i => wf_u32 i
  end.

Definition wf_error (e : wkerror) : Prop :=
  0 <= err_type e <= 6 ∧ wf_u32 (err_line e) ∧ wf_u32 (err_column e) ∧ wf_nullable (err_message e) ∧
  wf_nullable (err_url e) ∧ wf_nullable (err_stack e) ∧ wf_nullable (err_cause e).

Fixpoint wf (v : wkval) : Prop :=
  let props := all (λ '(k, v), wf_str k ∧ wf v) in
  match v with
  | WUndefined | WNull | WZero | WOne | WBool _ _ | WEmptyStringObj => True
  | WInt z => - 2 ^ 31 <= z < 2 ^ 31
  | WDouble d | WDate d | WNumberObj d => 0 <= d < two64
  | WStr _ s => wf_str s
  | WRegexp pattern flags => wf_str pattern ∧ wf_str flags
  | WRef i => wf_u32 i
  | WView _ offset length b => 0 <= offset < two64 ∧ 0 <= length < two64 ∧ wf_buffer b
  | WError e => wf_error e
  | WObject l => props l
  | WArray n items l => wf_u32 n ∧ all (λ '(i, v), 0 <= i < n ∧ wf v) items ∧ props l
  | WMap entries l => all (λ '(k, v), wf k ∧ wf v) entries ∧ props l
  | WSet items l => all wf items ∧ props l
  end.

(** ** Running the deserializer *)
Lemma wbind_Ok {A B} (m : W A) (f : A → W B) w r a w' r' :
  m w r = (Ok (a, w'), r') → (m ≫= f) w r = f a w' r'.
Proof. exact (bind_Ok (m w) (λ '(a, w'), f a w') r (a, w') r'). Qed.

Lemma wctx_Ok {A} msg (m : W A) w r a r' : m w r = (Ok a, r') → wctx msg m w r = (Ok a, r').
Proof. apply ctx_Ok. Qed.

Lemma wbind_ctx_Ok {A B} msg (m : W A) (f : A → W B) w r a w' r' :
  m w r = (Ok (a, w'), r') → (wctx msg m ≫= f) w r = f a w' r'.
Proof. intros E. by apply wbind_Ok, wctx_Ok. Qed.

Lemma rd_Ok {A} (m : Reader A) w r a r' : m r = (Ok a, r') → rd m w r = (Ok (a, w), r').
Proof. intros E. unfold rd. by erewrite bind_Ok. Qed.

Lemma wbind_rd_Ok {A B} (m : Reader A) (f : A → W B) w r a r' :
  m r = (Ok a, r') → (rd m ≫= f) w r = f a w r'.
Proof. intros E. by apply wbind_Ok, rd_Ok. Qed.

Lemma pooled_Ok (m : W value) w r v w' r' :
  m w r = (Ok (v, w'), r') → pooled m w r = (Ok (v, Pools (stringPool w') (objectPool w' ++ [v])), r').
Proof. intros E. unfold pooled. by erewrite wbind_Ok. Qed.

Lemma deserializeUint32_u32 z r : wf_u32 z → deserializeUint32 (u32 z ++ r) = (Ok z, r).
Proof. intros Hz. apply ctx_Ok, ReadFixed_bytes; [lia|done]. Qed.

(** ** The pools *)
Lemma index_of_spec s pool i : index_of s pool = Some i → 0 <= i ∧ pool !! Z.to_nat i = Some s.
Proof.
  revert i; induction pool as [|x pool IH]; intros i; cbn [index_of]; [done|]. case_decide as Hx.
  - intros [= <-]. by subst.
  - destruct (index_of s pool) as [j|]; [|done]. intros [= <-]. destruct (IH j eq_refl) as [? ?].
    split; [lia|]. by rewrite Z2Nat.inj_succ.
Qed.

Lemma fromPool_index {A : Type} (pool : list A) i x r :
  wf_u32 i → pool !! Z.to_nat i = Some x → fromPool pool (enc_index (len pool) i ++ r) = (Ok x, r).
Proof.
  intros Hi Hx. unfold wf_u32 in Hi. assert (Hlt : i < len pool).
  { apply lookup_lt_Some in Hx. unfold len. lia. }
  assert (Hlast : (if len pool <=? i then fail (Errorf "requested item at index %d but only %d items in pool")
            else match pool !! Z.to_nat i with Some x => mret x | None => panic end) r = (Ok x, r)).
  { case_if; [lia|]. by rewrite Hx. }
  unfold fromPool, enc_index.
  destruct (len pool <=? 255) eqn:H1; [|destruct (len pool <=? 65535) eqn:H2]; zbool;
    (erewrite bind_ctx_Ok by (apply ReadFixed_bytes; [lia|cbn; lia])); exact Hlast.
Qed.

(** The deserializer in step with the writer *)
Definition rep (st : writer) (pool : list value) : webkitDeserializer :=
  Pools (map render_str (seen st)) pool.

Lemma len_map_seen st : len (map render_str (seen st)) = len (seen st).
Proof. unfold len. by rewrite length_map. Qed.

Lemma ldiff_bit31 a :
  0 <= a < 2 ^ 31 → Z.ldiff a (Z.shiftl 1 31) = a ∧ Z.ldiff (2 ^ 31 + a) (Z.shiftl 1 31) = a.
Proof.
  intros Ha. replace (2 ^ 31 + a) with (Z.lor a (Z.shiftl 1 31)) by (rewrite lor_shiftl_add by lia; lia).
  split; apply Z.bits_inj'; intros n Hn;
    rewrite Z.ldiff_spec, ?Z.lor_spec, Z.shiftl_1_l, Z.pow2_bits_eqb by lia;
    destruct (31 =? n) eqn:E; zbool; cbn [negb]; rewrite ?andb_true_r, ?orb_false_r, ?andb_false_r; try done;
    subst; symmetry; by rewrite Z.testbit_false, Z.div_small by lia.
Qed.

Lemma head_spec s :
  wf_str s →
  let h := str_head s in
  let is8Bit := negb (Z.land h stringDataIs8BitFlag =? 0) in
  let n := Z.ldiff h stringDataIs8BitFlag in
  wf_u32 h ∧ (h =? terminatorTag) = false ∧ (h =? stringPoolTag) = false ∧
  is8Bit = (match s with Latin1 _ => true | _ => false end) ∧
  (if is8Bit then n else (n * 2) mod 2 ^ 32) = len (str_raw s) ∧ len (str_raw s) <= 2 ^ 32.
Proof.
  intros [Hs _] h is8Bit n. unfold terminatorTag, stringPoolTag, wf_u32.
  change stringDataIs8BitFlag with (Z.shiftl 1 31) in *.
  destruct s as [s|s]; subst h; cbn [str_head str_raw] in *; pose proof (len_nonneg s).
  - destruct (FirefoxCodec.land_bit31 (len s)) as [_ Hb%Z.eqb_neq]; [lia|].
    destruct (ldiff_bit31 (len s)) as [_ Hd]; [lia|]. subst is8Bit n. rewrite Hb, Hd. cbn [negb].
    split_and!; try done; try apply Z.eqb_neq; lia.
  - assert (0 <= len s / 2 < 2 ^ 31) by (Z.to_euclidean_division_equations; lia).
    destruct (FirefoxCodec.land_bit31 (len s / 2)) as [Hb _]; [lia|].
    destruct (ldiff_bit31 (len s / 2)) as [Hd _]; [lia|]. subst is8Bit n. rewrite Hb, Hd. cbn [negb Z.eqb].
    assert ((len s / 2 * 2) mod 2 ^ 32 = len s) by (Z.to_euclidean_division_equations; lia).
    split_and!; try done; try apply Z.eqb_neq; try lia.
Qed.

(** A string is read back, and added to the pool when it was written in full. *)
Lemma StringData_new s st pool r :
  wf_str s →
  deserializeStringData (rep st pool) (u32 (str_head s) ++ str_raw s ++ r) =
    (Ok (Some (render_str s), rep (Writer (seen st ++ [s]) (pooledObjects st)) pool), r).
Proof.
  intros Hs. destruct (head_spec s Hs) as (Hh & Ht & Hp & Hb & Hn & Hl). destruct Hs as [_ [d Hd]].
  unfold deserializeStringData.
  erewrite wbind_ctx_Ok by (by apply rd_Ok, deserializeUint32_u32). rewrite Ht, Hp. cbv zeta.
  rewrite Hn. erewrite wbind_rd_Ok by (apply make_Ok; unfold Values.maxAlloc; lia).
  erewrite wbind_ctx_Ok by (apply rd_Ok; apply ReadBytes_app). rewrite Hb.
  assert (Er : render_str s = d) by (unfold render_str; by rewrite Hd). rewrite Er.
  unfold rep. cbn [seen]. rewrite map_app. cbn [map]. rewrite Er.
  destruct s as [s|s]; cbn [decoded str_raw] in *; by rewrite Hd.
Qed.

Lemma StringData_str s st pool r x st' :
  enc_str s st = (x, st') → wf_str s →
  deserializeStringData (rep st pool) (x ++ r) = (Ok (Some (render_str s), rep st' pool), r) ∧
  pooledObjects st' = pooledObjects st.
Proof.
  unfold enc_str. intros E Hs.
  assert (Hnew : (u32 (str_head s) ++ str_raw s, Writer (seen st ++ [s]) (pooledObjects st)) = (x, st') →
    deserializeStringData (rep st pool) (x ++ r) = (Ok (Some (render_str s), rep st' pool), r) ∧
    pooledObjects st' = pooledObjects st).
  { intros [<- <-]%pair_equal_spec. rewrite <- app_assoc. split; [by apply StringData_new|done]. }
  destruct (index_of s (seen st)) as [i|] eqn:Ei; [|by apply Hnew].
  destruct (i <? 2 ^ 32) eqn:Hi; [|by apply Hnew]. zbool. apply pair_equal_spec in E as [<- <-].
  apply index_of_spec in Ei as [H0 Ei]. split; [|done]. rewrite <- app_assoc.
  unfold deserializeStringData.
  erewrite wbind_ctx_Ok by (apply rd_Ok, deserializeUint32_u32; done). toks.
  erewrite wbind_Ok by reflexivity. rewrite <- len_map_seen.
  erewrite wbind_ctx_Ok; [reflexivity|]. apply rd_Ok, fromPool_index; [done|].
  change (map render_str (seen st)) with (render_str <$> seen st). by rewrite list_lookup_fmap, Ei.
Qed.

Lemma StringData_end w r : deserializeStringData w (terminator ++ r) = (Ok (None, w), r).
Proof.
  unfold deserializeStringData, terminator.
  by erewrite wbind_ctx_Ok by (apply rd_Ok, deserializeUint32_u32; done).
Qed.

(** Split the writer's state in a hypothesis. *)
Ltac split_put E :=
  repeat match type of E with
  | context [let '(_, _) := ?p in _] =>
      let x := fresh "x" in let st := fresh "st" in let Ex := fresh "Ex" in destruct p as [x st] eqn:Ex
  end;
  apply pair_equal_spec in E as [<- <-].

(** ** Leaves *)
Lemma wk_regexp_ser pat flags st pool r x st' :
  then_put enc_str enc_str (pat, flags) st = (x, st') → wf_str pat → wf_str flags →
  deserializeRegexp (rep st pool) (x ++ r) =
    (Ok (Some (bs "/" ++ render_str pat ++ bs "/" ++ render_str flags), rep st' pool), r) ∧
  pooledObjects st' = pooledObjects st.
Proof.
  unfold then_put. intros E Hp Hf. split_put E. rewrite <- app_assoc.
  destruct (StringData_str _ _ pool (x1 ++ r) _ _ Ex Hp) as [R1 C1].
  destruct (StringData_str _ _ pool r _ _ Ex0 Hf) as [R2 C2]. split; [|congruence].
  unfold deserializeRegexp. erewrite wbind_ctx_Ok by (exact R1). by erewrite wbind_ctx_Ok by (exact R2).
Qed.

Lemma NullableString_ser o st pool r x st' :
  enc_nullable o st = (x, st') → wf_nullable o →
  ∃ v, deserializeNullableString (rep st pool) (x ++ r) = (Ok (v, rep st' pool), r) ∧ str v = render_nullable o ∧
  pooledObjects st' = pooledObjects st.
Proof.
  unfold enc_nullable, deserializeNullableString. destruct o as [s|]; intros E Hw.
  - split_put E. destruct (StringData_str _ _ pool r _ _ Ex Hw) as [R1 C1].
    exists (Some (render_str s)). split_and!; [|done|done]. cbn [app].
    erewrite wbind_rd_Ok by reflexivity. toks. by apply wctx_Ok.
  - apply pair_equal_spec in E as [<- <-]. by exists None.
Qed.

Lemma errorEnumToString_Some t : 0 <= t <= 6 → errorEnumToString (Z_byte t) = Some (default [] (errorEnumToString (Z_byte t))).
Proof.
  intros H. unfold errorEnumToString. rewrite byte_Z_byte, Z.mod_small by lia.
  assert (t = 0 ∨ t = 1 ∨ t = 2 ∨ t = 3 ∨ t = 4 ∨ t = 5 ∨ t = 6) as Ht by lia.
  by destruct Ht as [->|[->|[->|[->|[->|[->| ->]]]]]].
Qed.

Lemma wk_error_ser e st pool r x st' :
  enc_error e st = (x, st') → wf_error e →
  deserializeError (rep st pool) (x ++ r) = (Ok (Some (render_error e), rep st' pool), r) ∧
  pooledObjects st' = pooledObjects st.
Proof.
  unfold enc_error. intros E (Ht & Hl & Hc & Hm & Hu & Hs & Hca). split_put E.
  cbn [app]. rewrite <- !app_assoc.
  edestruct (NullableString_ser _ _ pool (u32 (err_line e) ++ u32 (err_column e) ++ x1 ++ x2 ++ x3 ++ r) _ _ Ex Hm)
    as (vm & Rm & Em & Cm).
  edestruct (NullableString_ser _ _ pool (x2 ++ x3 ++ r) _ _ Ex0 Hu) as (vu & Ru & Eu & Cu).
  edestruct (NullableString_ser _ _ pool (x3 ++ r) _ _ Ex1 Hs) as (vs & Rs & Es & Cs).
  edestruct (NullableString_ser _ _ pool r _ _ Ex2 Hca) as (vc & Rc & Ec & Cc).
  split; [|congruence]. unfold deserializeError. erewrite wbind_rd_Ok by reflexivity.
  rewrite (errorEnumToString_Some _ Ht).
  erewrite wbind_ctx_Ok by (exact Rm). 
  erewrite wbind_rd_Ok by (apply ctx_Ok, ReadFixed_bytes; [lia|done]).
  erewrite wbind_rd_Ok by (apply ctx_Ok, ReadFixed_bytes; [lia|done]).
  erewrite wbind_ctx_Ok by (exact Ru). erewrite wbind_ctx_Ok by (exact Rs). erewrite wbind_ctx_Ok by (exact Rc).
  unfold render_error. by rewrite Em, Eu, Es, Ec.
Qed.

Lemma Read_app l r : r ≠ [] → Read (len l) (l ++ r) = (Ok l, r).
Proof.
  intros Hr. unfold Read, len. rewrite Nat2Z.id. destruct (l ++ r) as [|b k] eqn:E.
  - by apply app_eq_nil in E as [_ ->].
  - rewrite <- E, take_app_length, drop_app_length, length_app.
    replace (_ - _)%nat with 0%nat by lia. by rewrite app_nil_r.
Qed.

Lemma length_ser {A} (data : list A) : wf_len data → 0 <= len data < 256 ^ Z.of_nat 8.
Proof. unfold wf_len. pose proof (len_nonneg data). change (256 ^ Z.of_nat 8) with two64. unfold two64. lia. Qed.

Lemma ArrayBuffer_ser data st pool r :
  wf_len data → r ≠ [] →
  deserializeArrayBuffer (rep st pool) (le_bytes 8 (len data) ++ data ++ r) =
    (Ok (Some data, rep st (pool ++ [Some data])), r).
Proof.
  intros Hl Hr. apply (pooled_Ok _ _ _ (Some data) (rep st pool)).
  erewrite wbind_rd_Ok by (apply ctx_Ok, ReadFixed_bytes; [lia|by apply length_ser]).
  erewrite wbind_rd_Ok by (by apply make_len; [|lia]).
  by erewrite wbind_rd_Ok by (by apply ctx_Ok, Read_app).
Qed.

Lemma ResizableArrayBuffer_ser data max st pool r :
  wf_len data → 0 <= max < two64 → r ≠ [] →
  deserializeResizableArrayBuffer (rep st pool) (le_bytes 8 (len data) ++ le_bytes 8 max ++ data ++ r) =
    (Ok (Some data, rep st (pool ++ [Some data])), r).
Proof.
  intros Hl Hm Hr. apply (pooled_Ok _ _ _ (Some data) (rep st pool)).
  erewrite wbind_rd_Ok by (apply ctx_Ok, ReadFixed_bytes; [lia|by apply length_ser]).
  erewrite wbind_rd_Ok by (by apply ctx_Ok, ReadFixed_double).
  erewrite wbind_rd_Ok by (by apply make_len; [|lia]).
  by erewrite wbind_rd_Ok by (by apply ctx_Ok, Read_app).
Qed.

Lemma refer_Ok i pool v pool' st r :
  refer i pool = Some (v, pool') → wf_u32 i → pooledObjects st = len pool →
  fromPool pool (enc_index (pooledObjects st) i ++ r) = (Ok v, r) ∧ pool' = pool.
Proof.
  unfold refer. destruct (pool !! Z.to_nat i) as [x|] eqn:Ex; [|done]. cbn. intros [= <- <-] Hi ->.
  split; [|done]. by apply fromPool_index.
Qed.

Lemma len_snoc {A} (l : list A) x : len (l ++ [x]) = len l + 1.
Proof. by rewrite len_app. Qed.

Lemma wk_view_ser subtag offset length b st pool r x st' val pool' :
  count 1 (prefix (subtag :: le_bytes 8 offset ++ le_bytes 8 length) (enc_buffer b st)) = (x, st') →
  push_value (render_buffer b pool) = Some (val, pool') →
  0 <= offset < two64 → 0 <= length < two64 → wf_buffer b → pooledObjects st = len pool → r ≠ [] →
  deserializeArrayBufferView (rep st pool) (x ++ r) = (Ok (val, rep st' pool'), r) ∧ pooledObjects st' = len pool'.
Proof.
  intros E Er Ho Hl Hb Hn Hr. apply pair_equal_spec in E as [<- <-].
  destruct (render_buffer b pool) as [[v pool1]|] eqn:Eb; [|done]. cbn in Er. simplify_eq.
  cut (deserializeArrayBufferView (rep st pool) ((prefix (subtag :: le_bytes 8 offset ++ le_bytes 8 length) (enc_buffer b st)).1 ++ r) =
    (Ok (val, rep st (pool1 ++ [val])), r) ∧ seen (enc_buffer b st).2 = seen st ∧
    pooledObjects (enc_buffer b st).2 = len pool1).
  { intros (-> & Es & Ec). unfold count, prefix. cbn [fst snd pooledObjects]. rewrite len_snoc, Ec. split; [|done].
    unfold rep. cbn [seen]. by rewrite Es. }
  unfold prefix. cbn [fst app]. rewrite <- !app_assoc.
  split_and!.
  - unfold deserializeArrayBufferView. apply (pooled_Ok _ _ _ val (rep st pool1)).
    erewrite wbind_rd_Ok by reflexivity.
    erewrite wbind_rd_Ok by (by apply ctx_Ok, ReadFixed_double).
    erewrite wbind_rd_Ok by (by apply ctx_Ok, ReadFixed_double).
    destruct b as [data|data max|i]; cbn [enc_buffer count fst app]; cbn in Eb; rewrite <- ?app_assoc;
      (erewrite wbind_rd_Ok by reflexivity); toks.
    + unfold push in Eb. simplify_eq. by apply wctx_Ok, ArrayBuffer_ser.
    + unfold push in Eb. simplify_eq. destruct Hb. by apply wctx_Ok, ResizableArrayBuffer_ser.
    + destruct (refer_Ok _ _ _ _ st r Eb Hb Hn) as [Hp ->]. erewrite wbind_Ok by reflexivity.
      by apply wctx_Ok, rd_Ok.
  - by destruct b.
  - destruct b as [data|data max|i]; cbn in Eb |- *; unfold push, refer in Eb; simplify_eq; rewrite ?len_snoc; try lia.
    destruct (pool !! Z.to_nat i); [|done]. cbn in Eb. by simplify_eq.
Qed.

(** ** Containers *)

(** The first byte of a value is its tag. *)
Lemma enc_head v st x st' :
  enc v st = (x, st') →
  ∃ b x', x = b :: x' ∧ (b =b webkitNonMapPropertiesTag) = false ∧ (b =b webkitNonSetPropertiesTag) = false.
Proof.
  destruct v; cbn [enc]; try destruct boxed; try destruct b; unfold count, prefix; cbn [fst snd app];
    repeat match goal with |- context [let '(_, _) := ?p in _] => destruct p end;
    intros [<- _]%pair_equal_spec; by eexists _, _.
Qed.

Lemma enc_str_pos s st x st' : enc_str s st = (x, st') → (0 < length x)%nat.
Proof.
  unfold enc_str. intros E. assert (∀ z y, (0 < length (u32 z ++ y))%nat) as Hp.
  { intros z y. rewrite length_app. unfold u32. rewrite length_le_bytes. lia. }
  destruct (index_of s (seen st)); [case_if_in E|]; apply pair_equal_spec in E as [<- _]; apply Hp.
Qed.

Lemma terminator_pos r : terminator ++ r ≠ [].
Proof. done. Qed.

Lemma terminated x r : x ++ terminator ++ r ≠ [].
Proof. by destruct x. Qed.

(** Inversion of one step of the writer and of the renderer *)
Lemma enc_seq_inv {A} (p : Put A) a l st x st' :
  enc_seq p (a :: l) st = (x, st') → ∃ x1 st1 x2, p a st = (x1, st1) ∧ enc_seq p l st1 = (x2, st') ∧ x = x1 ++ x2.
Proof. cbn [enc_seq]. intros E. split_put E. by eexists _, _, _. Qed.

Lemma then_put_inv {A B} (p : Put A) (q : Put B) a b st x st' :
  then_put p q (a, b) st = (x, st') → ∃ x1 st1 x2, p a st = (x1, st1) ∧ q b st1 = (x2, st') ∧ x = x1 ++ x2.
Proof. unfold then_put. intros E. split_put E. by eexists _, _, _. Qed.

Lemma render_seq_inv {A B} (f : Render A B) a l pool l' pool' :
  render_seq f (a :: l) pool = Some (l', pool') →
  ∃ b pool1 l2, f a pool = Some (b, pool1) ∧ render_seq f l pool1 = Some (l2, pool') ∧ l' = b :: l2.
Proof.
  cbn [render_seq]. destruct (f a pool) as [[b pool1]|]; [|done]. cbn.
  destruct (render_seq f l pool1) as [[l2 pool2]|] eqn:E; [|done]. cbn. intros [= <- <-]. by eexists _, _, _.
Qed.

Lemma render_pair_inv {A B : Type} (o : option (A * list value)) (g : A → B) y pool' :
  ('(x, p) ← o; Some (g x, p)) = Some (y, pool') → ∃ x, o = Some (x, pool') ∧ y = g x.
Proof. destruct o as [[x p]|]; [|done]. cbn. intros [= <- <-]. by exists x. Qed.

Section Containers.
Variable next : W value.
Variable m : nat.

Definition correct (v : wkval) : Prop :=
  ∀ st pool x st' val pool' r,
    enc v st = (x, st') → render v pool = Some (val, pool') → pooledObjects st = len pool → r ≠ [] →
    (length (x ++ r) <= m)%nat →
    next (rep st pool) (x ++ r) = (Ok (val, rep st' pool'), r) ∧ pooledObjects st' = len pool'.

Definition render_props := render_seq (λ '(k, v) pool, '(x, pool') ← render v pool; Some ((render_str k, x), pool')).

Lemma wk_object_loop_ser l :
  all (λ '(k, v), wf_str k ∧ correct v) l →
  ∀ fuel acc st pool x st' l' pool' r,
    enc_seq (then_put enc_str enc) l st = (x, st') → render_props l pool = Some (l', pool') →
    pooledObjects st = len pool →
    (length (x ++ terminator ++ r) < fuel)%nat → (length (x ++ terminator ++ r) <= m)%nat →
    deserializeObject_loop next fuel acc (rep st pool) (x ++ terminator ++ r) =
      (Ok (fill_into acc l', rep st' pool'), r) ∧ pooledObjects st' = len pool'.
Proof.
  induction l as [|[k v] l IH]; intros Hall fuel acc st pool x st' l' pool' r E Er Hn Hf Hm;
    (destruct fuel as [|fuel]; [lia|]); cbn [deserializeObject_loop].
  - cbn in E, Er. simplify_eq. split; [|done]. by erewrite wbind_ctx_Ok by apply StringData_end.
  - destruct Hall as [[Hk Hv] Hall].
    apply enc_seq_inv in E as (xkv & st2 & x2 & (xk & st1 & xv & Ek & Ev & ->)%then_put_inv & E & ->).
    apply render_seq_inv in Er as (kv & pool1 & l2 & (y & Ey & ->)%render_pair_inv & Er & ->).
    rewrite <- !app_assoc in Hf, Hm |- *. pose proof (enc_str_pos _ _ _ _ Ek).
    destruct (StringData_str _ _ pool (xv ++ x2 ++ terminator ++ r) _ _ Ek Hk) as [Rk Ck].
    erewrite wbind_ctx_Ok by (exact Rk).
    rewrite length_app in Hf, Hm.
    destruct (Hv st1 pool xv st2 y pool1 (x2 ++ terminator ++ r) Ev Ey) as [Rv Cv];
      [congruence|apply terminated|lia|].
    erewrite wbind_ctx_Ok by (exact Rv). rewrite length_app in Hf, Hm. refine (IH Hall _ _ _ _ _ _ _ _ _ E Er Cv _ _); lia.
Qed.

Lemma wk_properties_loop_ser l :
  all (λ '(k, v), wf_str k ∧ correct v) l →
  ∀ fuel st pool x st' l' pool' r,
    enc_seq (then_put enc_str enc) l st = (x, st') → render_props l pool = Some (l', pool') →
    pooledObjects st = len pool →
    (length (x ++ terminator ++ r) < fuel)%nat → (length (x ++ terminator ++ r) <= m)%nat →
    readAndDiscardProperties_loop next fuel (rep st pool) (x ++ terminator ++ r) =
      (Ok (tt, rep st' pool'), r) ∧ pooledObjects st' = len pool'.
Proof.
  induction l as [|[k v] l IH]; intros Hall fuel st pool x st' l' pool' r E Er Hn Hf Hm;
    (destruct fuel as [|fuel]; [lia|]); cbn [readAndDiscardProperties_loop].
  - cbn in E, Er. simplify_eq. split; [|done]. by erewrite wbind_ctx_Ok by apply StringData_end.
  - destruct Hall as [[Hk Hv] Hall].
    apply enc_seq_inv in E as (xkv & st2 & x2 & (xk & st1 & xv & Ek & Ev & ->)%then_put_inv & E & ->).
    apply render_seq_inv in Er as (kv & pool1 & l2 & (y & Ey & ->)%render_pair_inv & Er & ->).
    rewrite <- !app_assoc in Hf, Hm |- *. pose proof (enc_str_pos _ _ _ _ Ek).
    destruct (StringData_str _ _ pool (xv ++ x2 ++ terminator ++ r) _ _ Ek Hk) as [Rk Ck].
    erewrite wbind_ctx_Ok by (exact Rk). rewrite length_app in Hf, Hm.
    destruct (Hv st1 pool xv st2 y pool1 (x2 ++ terminator ++ r) Ev Ey) as [Rv Cv];
      [congruence|apply terminated|lia|].
    erewrite wbind_ctx_Ok by (exact Rv). rewrite length_app in Hf, Hm. refine (IH Hall _ _ _ _ _ _ _ _ E Er Cv _ _); lia.
Qed.

(** Properties up to the terminator, thrown away *)
Lemma properties_ser l st pool x st' l' pool' r :
  all (λ '(k, v), wf_str k ∧ correct v) l →
  suffix terminator (enc_seq (then_put enc_str enc) l st) = (x, st') → render_props l pool = Some (l', pool') →
  pooledObjects st = len pool → (length (x ++ r) <= m)%nat →
  readAndDiscardProperties next (rep st pool) (x ++ r) = (Ok (tt, rep st' pool'), r) ∧ pooledObjects st' = len pool'.
Proof.
  intros Hall E Er Hn Hm. destruct (enc_seq _ l st) as [x0 st0] eqn:E0. apply pair_equal_spec in E as [<- <-].
  cbn [fst snd] in Hm |- *. rewrite <- app_assoc in Hm |- *.
  eapply wk_properties_loop_ser; try done. lia.
Qed.

Definition render_items :=
  render_seq (λ '(i, v) pool, '(x, pool') ← render v pool; Some ((i : Z, str x), pool')).

Lemma wk_array_loop_ser n items :
  n < 2 ^ 32 → all (λ '(i, v), 0 <= i < n ∧ correct v) items →
  ∀ fuel acc st pool x st' l' pool' r,
    enc_seq (λ '(i, v) st, prefix (u32 i) (enc v st)) items st = (x, st') →
    render_items items pool = Some (l', pool') → pooledObjects st = len pool →
    (length (x ++ terminator ++ r) < fuel)%nat → (length (x ++ terminator ++ r) <= m)%nat →
    array_loop next fuel n acc (rep st pool) (x ++ terminator ++ r) =
      (Ok (fill_into acc l', rep st' pool'), r) ∧ pooledObjects st' = len pool'.
Proof.
  intros Hlt. induction items as [|[i v] l IH]; intros Hall fuel acc st pool x st' l' pool' r E Er Hn Hf Hm;
    (destruct fuel as [|fuel]; [lia|]); cbn [array_loop].
  - cbn in E, Er. simplify_eq. split; [|done].
    by erewrite wbind_ctx_Ok by (by apply rd_Ok, deserializeUint32_u32).
  - destruct Hall as [[Hi Hv] Hall].
    apply enc_seq_inv in E as (xv' & st2 & x2 & Ev & E & ->).
    apply render_seq_inv in Er as (kv & pool1 & l2 & (y & Ey & ->)%render_pair_inv & Er & ->).
    destruct (enc v st) as [xv st2'] eqn:Ev'. apply pair_equal_spec in Ev as [<- <-]. cbn [fst snd] in *.
    rewrite <- !app_assoc in Hf, Hm |- *.
    rewrite length_app in Hf, Hm. unfold u32 in Hf, Hm. rewrite length_le_bytes in Hf, Hm. fold (u32 i) in *.
    erewrite wbind_ctx_Ok by (apply rd_Ok, deserializeUint32_u32; unfold wf_u32; lia).
    unfold terminatorTag. case_if; [lia|]. case_if; [lia|].
    destruct (Hv st pool xv st2' y pool1 (x2 ++ terminator ++ r) Ev' Ey Hn) as [Rv Cv];
      [apply terminated|lia|].
    erewrite wbind_ctx_Ok by (exact Rv). rewrite length_app in Hf, Hm.
    erewrite wbind_rd_Ok; [refine (IH Hall _ _ _ _ _ _ _ _ _ E Er Cv _ _); lia|]. unfold Values.set_item.
    by assert (((0 <=? i) && (i <? n))%bool = true) as -> by (rewrite andb_true_iff, Z.leb_le, Z.ltb_lt; lia).
Qed.

Definition render_entries :=
  render_seq (λ '(k, v) pool, '(x, pool1) ← render k pool; '(y, pool2) ← render v pool1; Some ((str x, str y), pool2)).

Lemma wk_map_loop_ser entries :
  all (λ '(k, v), correct k ∧ correct v) entries →
  ∀ fuel acc st pool x st' l' pool' r,
    enc_seq (then_put enc enc) entries st = (x, st') →
    render_entries entries pool = Some (l', pool') → pooledObjects st = len pool → r ≠ [] →
    (length (x ++ webkitNonMapPropertiesTag :: r) < fuel)%nat → (length (x ++ webkitNonMapPropertiesTag :: r) <= m)%nat →
    map_loop next fuel acc (rep st pool) (x ++ webkitNonMapPropertiesTag :: r) =
      (Ok (fill_into acc l', rep st' pool'), r) ∧ pooledObjects st' = len pool'.
Proof.
  induction entries as [|[k v] l IH]; intros Hall fuel acc st pool x st' l' pool' r E Er Hn Hr Hf Hm;
    (destruct fuel as [|fuel]; [lia|]); cbn [map_loop].
  - cbn in E, Er. simplify_eq. split; [|done]. by erewrite wbind_rd_Ok by reflexivity.
  - destruct Hall as [[Hk Hv] Hall].
    apply enc_seq_inv in E as (xkv & st2 & x2 & (xk & st1 & xv & Ek & Ev & ->)%then_put_inv & E & ->).
    apply render_seq_inv in Er as (kv & pool2 & l2 & Ekv & Er & ->).
    destruct (render k pool) as [[yk pool1]|] eqn:Eyk; [|done]. cbn in Ekv.
    apply render_pair_inv in Ekv as (yv & Eyv & ->).
    rewrite <- !app_assoc in Hf, Hm |- *.
    destruct (enc_head _ _ _ _ Ek) as (b & xk' & -> & Hb & _).
    destruct (Hk st pool _ st1 yk pool1 (xv ++ x2 ++ webkitNonMapPropertiesTag :: r) Ek Eyk Hn) as [Rk Ck];
      [by destruct xv, x2|lia|].
    erewrite wbind_rd_Ok by reflexivity. rewrite Hb. erewrite wbind_rd_Ok by reflexivity.
    erewrite wbind_ctx_Ok by (exact Rk). rewrite length_app in Hf, Hm. cbn [length] in Hf, Hm.
    destruct (Hv st1 pool1 _ st2 yv pool2 (x2 ++ webkitNonMapPropertiesTag :: r) Ev Eyv Ck) as [Rv Cv];
      [by destruct x2|lia|].
    erewrite wbind_ctx_Ok by (exact Rv). rewrite length_app in Hf, Hm. refine (IH Hall _ _ _ _ _ _ _ _ _ E Er Cv Hr _ _); lia.
Qed.

Definition render_members :=
  render_seq (λ v pool, '(x, pool') ← render v pool; Some ((str x, tt), pool')).

Lemma wk_set_loop_ser items :
  all correct items →
  ∀ fuel acc st pool x st' l' pool' r,
    enc_seq enc items st = (x, st') →
    render_members items pool = Some (l', pool') → pooledObjects st = len pool → r ≠ [] →
    (length (x ++ webkitNonSetPropertiesTag :: r) < fuel)%nat → (length (x ++ webkitNonSetPropertiesTag :: r) <= m)%nat →
    set_loop next fuel acc (rep st pool) (x ++ webkitNonSetPropertiesTag :: r) =
      (Ok (fill_into acc l', rep st' pool'), r) ∧ pooledObjects st' = len pool'.
Proof.
  induction items as [|v l IH]; intros Hall fuel acc st pool x st' l' pool' r E Er Hn Hr Hf Hm;
    (destruct fuel as [|fuel]; [lia|]); cbn [set_loop].
  - cbn in E, Er. simplify_eq. split; [|done]. by erewrite wbind_rd_Ok by reflexivity.
  - destruct Hall as [Hv Hall].
    apply enc_seq_inv in E as (xv & st2 & x2 & Ev & E & ->).
    apply render_seq_inv in Er as (kv & pool1 & l2 & (y & Ey & ->)%render_pair_inv & Er & ->).
    rewrite <- !app_assoc in Hf, Hm |- *.
    destruct (enc_head _ _ _ _ Ev) as (b & xv' & -> & _ & Hb).
    destruct (Hv st pool _ st2 y pool1 (x2 ++ webkitNonSetPropertiesTag :: r) Ev Ey Hn) as [Rv Cv];
      [by destruct x2|lia|].
    erewrite wbind_rd_Ok by reflexivity. rewrite Hb. erewrite wbind_rd_Ok by reflexivity.
    erewrite wbind_ctx_Ok by (exact Rv). rewrite length_app in Hf, Hm. cbn [length] in Hf, Hm. refine (IH Hall _ _ _ _ _ _ _ _ _ E Er Cv Hr _ _); lia.
Qed.
End Containers.

(** ** The round trip *)

(** What holds of the values inside a container *)
Definition children (P : wkval → Prop) (v : wkval) : Prop :=
  let props := all (λ '(_, v), P v) in
  match v with
  | WObject l => props l
  | WArray _ items l => all (λ '(_, v), P v) items ∧ props l
  | WMap entries l => all (λ '(k, v), P k ∧ P v) entries ∧ props l
  | WSet items l => all P items ∧ props l
  | _ => True
  end.

Lemma wkval_children_ind (P : wkval → Prop) : (∀ v, children P v → P v) → ∀ v, P v.
Proof.
  intros H. fix IH 1. intros v. apply H.
  destruct v; try exact I; cbn [children]; repeat split;
    match goal with |- all _ ?l => induction l as [|x l IHl]; [exact I|]; try (destruct x as [x0 x1]); repeat split; [apply IH..|exact IHl] end.
Qed.

Lemma all_and {A} (P Q R : A → Prop) l :
  (∀ x, P x → Q x → R x) → all P l → all Q l → all R l.
Proof. intros H. induction l as [|x l IH]; [done|]. intros [? ?] [? ?]. split; auto. Qed.

Definition reads (v : wkval) : Prop := wf v → ∀ m, correct (deserializeValue_fuel m) m v.

Lemma reads_props m l :
  all (λ '(_, v), reads v) l → all (λ '(k, v), wf_str k ∧ wf v) l →
  all (λ '(k, v), wf_str k ∧ correct (deserializeValue_fuel m) m v) l.
Proof. apply all_and. intros [k v] H [Hk Hv]. split; [done|by apply H]. Qed.

Lemma double_ser d r : 0 <= d < two64 → deserializeDouble (le_bytes 8 d ++ r) = (Ok (Values.FormatFloat d), r).
Proof. intros Hd. unfold deserializeDouble. by erewrite bind_ctx_Ok by (by apply ReadFixed_double). Qed.

Lemma push_Ok (m : W value) w r b st pool n r' :
  m w r = (Ok (Some b, rep st pool), r') → pooledObjects st + n = len pool + 1 →
  pooled m w r = (Ok (Some b, rep (Writer (seen st) (pooledObjects st + n)) (pool ++ [Some b])), r') ∧
  pooledObjects (Writer (seen st) (pooledObjects st + n)) = len (pool ++ [Some b]).
Proof. intros E Hn. rewrite len_snoc. split; [|done]. by apply (pooled_Ok _ _ _ (Some b) (rep st pool)). Qed.

Lemma signed_mod z : - 2 ^ 31 <= z < 2 ^ 31 → Firefox.signed 4 (z mod 2 ^ 32) = z.
Proof. intros H. unfold Firefox.signed. change (8 * Z.of_nat 4 - 1) with 31. change (8 * Z.of_nat 4) with 32.
  case_if; Z.to_euclidean_division_equations; lia. Qed.

(** The values without others inside *)
Lemma reads_leaf m v st pool x st' val pool' r :
  (match v with WObject _ | WArray _ _ _ | WMap _ _ | WSet _ _ => False | _ => True end) →
  wf v → enc v st = (x, st') → render v pool = Some (val, pool') → pooledObjects st = len pool → r ≠ [] →
  deserializeValue_fuel (S m) (rep st pool) (x ++ r) = (Ok (val, rep st' pool'), r) ∧ pooledObjects st' = len pool'.
Proof.
  intros Hleaf Hwf E Er Hn Hr. cbn [deserializeValue_fuel]. cbv zeta.
  destruct v; try done; cbn [enc render wf] in *; try destruct boxed; try destruct b; unfold keep, push in Er;
    try (apply pair_equal_spec in E as [<- <-]); try simplify_eq; cbn [fst snd app prefix];
    try (erewrite wbind_rd_Ok by reflexivity; toks);
    try (split; [done|done]); try by apply push_Ok; try lia.
  - split; [|done]. erewrite wbind_rd_Ok by (apply ctx_Ok, ReadFixed_bytes; [lia|apply Z.mod_pos_bound; lia]).
    by rewrite signed_mod.
  - split; [|done]. by erewrite wbind_rd_Ok by (by apply double_ser).
  - split; [|done]. by erewrite wbind_rd_Ok by (by apply double_ser).
  - apply push_Ok; [|lia]. by erewrite wbind_rd_Ok by (by apply ctx_Ok, double_ser).
  - destruct (StringData_str _ _ pool r _ _ (surjective_pairing (enc_str s st)) Hwf) as [R Cn].
    apply push_Ok; [by apply wctx_Ok|lia].
  - destruct (StringData_str _ _ pool' r _ _ (surjective_pairing (enc_str s st)) Hwf) as [R Cn].
    split; [by apply wctx_Ok|lia].
  - destruct Hwf as [Hp Hf].
    destruct (wk_regexp_ser _ _ _ pool' r _ _ (surjective_pairing (then_put enc_str enc_str (pattern, flags) st)) Hp Hf) as [R Cn]. split; [exact R|lia].
  - destruct (refer_Ok _ _ _ _ st r Er Hwf Hn) as [R ->]. split; [|done].
    erewrite wbind_Ok by reflexivity. by apply rd_Ok.
  - destruct Hwf as (Ho & Hl & Hb). exact (wk_view_ser subtag offset length buf st pool r _ _ val pool' eq_refl Er Ho Hl Hb Hn Hr).
  - destruct (wk_error_ser _ _ pool' r _ _ (surjective_pairing (enc_error e st)) Hwf) as [R Cn]. split; [exact R|lia].
Qed.

Lemma pooled_rep (m : W value) st pool x r b st' pool' :
  m (rep st pool) x = (Ok (Some b, rep st' pool'), r) → pooledObjects st' = len pool' →
  pooled m (rep st pool) x = (Ok (Some b, rep (Writer (seen st') (pooledObjects st' + 1)) (pool' ++ [Some b])), r) ∧
  pooledObjects (Writer (seen st') (pooledObjects st' + 1)) = len (pool' ++ [Some b]).
Proof. intros E Hn. rewrite len_snoc, Hn. split; [|done]. by apply (pooled_Ok _ _ _ (Some b) (rep st' pool')). Qed.

(** The tag of a container and what follows it *)
Lemma reads_object m l st pool l' pool' r x st' :
  all (λ '(k, v), wf_str k ∧ correct (deserializeValue_fuel m) m v) l →
  suffix terminator (enc_seq (then_put enc_str enc) l st) = (x, st') → render_props l pool = Some (l', pool') →
  pooledObjects st = len pool → (length (x ++ r) <= m)%nat →
  deserializeObject (deserializeValue_fuel m) (rep st pool) (x ++ r) = (Ok (fill l', rep st' pool'), r) ∧
  pooledObjects st' = len pool'.
Proof.
  intros Hall E El Hn Hm. destruct (enc_seq _ l st) as [x0 st0] eqn:E0. apply pair_equal_spec in E as [<- <-].
  cbn [fst snd] in Hm |- *. rewrite <- app_assoc in Hm |- *.
  eapply wk_object_loop_ser; try done. lia.
Qed.

Lemma reads_nested m l st pool l' pool' r x st' :
  all (λ '(k, v), wf_str k ∧ correct (deserializeValue_fuel m) m v) l →
  count 1 (suffix terminator (enc_seq (then_put enc_str enc) l st)) = (x, st') → render_props l pool = Some (l', pool') →
  pooledObjects st = len pool → (length (x ++ r) <= m)%nat →
  let out := json_object json_string (str <$> fill l') in
  deserializeNestedObject (deserializeValue_fuel m) (rep st pool) (x ++ r) = (Ok (Some out, rep st' (pool' ++ [Some out])), r) ∧
  pooledObjects st' = len (pool' ++ [Some out]).
Proof.
  intros Hall E El Hn Hm out. apply pair_equal_spec in E as [<- <-].
  edestruct reads_object as [R Cn]; [exact Hall|apply surjective_pairing|exact El|exact Hn|exact Hm|].
  apply pooled_rep; [|exact Cn]. by erewrite wbind_ctx_Ok by (exact R).
Qed.

Definition enc_array_end (l : list (wkstr * wkval)) (st : writer) : bytes * writer :=
  match l with
  | [] => (terminator, st)
  | _ => prefix (u32 nonIndexPropertiesTag) (suffix terminator (enc_seq (then_put enc_str enc) l st))
  end.

Lemma array_end_ser m l st pool l' pool' r x st' :
  all (λ '(k, v), wf_str k ∧ correct (deserializeValue_fuel m) m v) l →
  enc_array_end l st = (x, st') → render_props l pool = Some (l', pool') →
  pooledObjects st = len pool → (length (x ++ r) <= m)%nat →
  array_end (deserializeValue_fuel m) (rep st pool) (x ++ r) = (Ok (tt, rep st' pool'), r) ∧ pooledObjects st' = len pool'.
Proof.
  intros Hall E El Hn Hm. unfold array_end. destruct l as [|p l].
  - apply pair_equal_spec in E as [<- <-]. cbn in El. simplify_eq. split; [|done].
    by erewrite wbind_ctx_Ok by (by apply rd_Ok, deserializeUint32_u32).
  - cbn [enc_array_end] in E. apply pair_equal_spec in E as [<- <-]. rewrite <- app_assoc in Hm |- *.
    erewrite wbind_ctx_Ok by (by apply rd_Ok, deserializeUint32_u32). toks.
    edestruct properties_ser as [R Cn]; [exact Hall|apply surjective_pairing|exact El|exact Hn| |].
    { rewrite length_app in Hm. instantiate (1 := r). lia. }
    split; [by apply wctx_Ok|exact Cn].
Qed.

Lemma reads_array m n items l st pool items' pool1 l' pool' r x st1 y st2 :
  wf_u32 n →
  all (λ '(i, v), 0 <= i < n ∧ correct (deserializeValue_fuel m) m v) items →
  all (λ '(k, v), wf_str k ∧ correct (deserializeValue_fuel m) m v) l →
  enc_seq (λ '(i, v) st, prefix (u32 i) (enc v st)) items st = (x, st1) → enc_array_end l st1 = (y, st2) →
  render_items items pool = Some (items', pool1) → render_props l pool1 = Some (l', pool') →
  pooledObjects st = len pool → (length (u32 n ++ x ++ terminator ++ y ++ r) <= m)%nat →
  let out := json_array (map json_slot (Values.slots n (fill items'))) in
  deserializeArray (deserializeValue_fuel m) (rep st pool) (u32 n ++ x ++ terminator ++ y ++ r) =
    (Ok (Some out, rep (Writer (seen st2) (pooledObjects st2 + 1)) (pool' ++ [Some out])), r) ∧
  pooledObjects (Writer (seen st2) (pooledObjects st2 + 1)) = len (pool' ++ [Some out]).
Proof.
  intros Hw Hi Hl Ex Ey Ei El Hn Hm out. rewrite length_app in Hm.
  edestruct (wk_array_loop_ser (deserializeValue_fuel m) m n items) as [R1 C1];
    [apply Hw|exact Hi|exact Ex|exact Ei|exact Hn|exact (Nat.lt_succ_diag_r (length (x ++ terminator ++ y ++ r)))|lia|].
  edestruct (array_end_ser m l) as [R2 C2]; [exact Hl|exact Ey|exact El|exact C1| |].
  { rewrite !length_app in Hm. rewrite length_app. instantiate (1 := r). lia. }
  apply pooled_rep; [|exact C2].
  erewrite wbind_ctx_Ok by (by apply rd_Ok, deserializeUint32_u32).
  erewrite wbind_rd_Ok by (apply make_Ok; unfold wf_u32, Values.maxAlloc in *; lia).
  erewrite wbind_Ok by (exact R1). by erewrite wbind_Ok by (exact R2).
Qed.

Lemma reads_map m entries l st pool entries' pool1 l' pool' r x st1 y st2 :
  all (λ '(k, v), correct (deserializeValue_fuel m) m k ∧ correct (deserializeValue_fuel m) m v) entries →
  all (λ '(k, v), wf_str k ∧ correct (deserializeValue_fuel m) m v) l →
  enc_seq (then_put enc enc) entries st = (x, st1) →
  suffix terminator (enc_seq (then_put enc_str enc) l st1) = (y, st2) →
  render_entries entries pool = Some (entries', pool1) → render_props l pool1 = Some (l', pool') →
  pooledObjects st = len pool → r ≠ [] → (length (x ++ webkitNonMapPropertiesTag :: y ++ r) <= m)%nat →
  let out := json_object json_string (fill entries') in
  deserializeMapData (deserializeValue_fuel m) (rep st pool) (x ++ webkitNonMapPropertiesTag :: y ++ r) =
    (Ok (Some out, rep (Writer (seen st2) (pooledObjects st2 + 1)) (pool' ++ [Some out])), r) ∧
  pooledObjects (Writer (seen st2) (pooledObjects st2 + 1)) = len (pool' ++ [Some out]).
Proof.
  intros Hi Hl Ex Ey Ei El Hn Hr Hm out.
  edestruct (wk_map_loop_ser (deserializeValue_fuel m) m entries Hi) as [R1 C1];
    [exact Ex|exact Ei|exact Hn| |exact (Nat.lt_succ_diag_r (length (x ++ webkitNonMapPropertiesTag :: y ++ r)))|exact Hm|].
  { intros E. by apply app_eq_nil in E as [_ ->]. }
  edestruct (properties_ser (deserializeValue_fuel m) m l) as [R2 C2]; [exact Hl|exact Ey|exact El|exact C1| |].
  { rewrite length_app in Hm. cbn [length] in Hm. instantiate (1 := r). lia. }
  apply pooled_rep; [|exact C2].
  erewrite wbind_Ok by (exact R1). by erewrite wbind_ctx_Ok by (exact R2).
Qed.

Lemma reads_set m items l st pool items' pool1 l' pool' r x st1 y st2 :
  all (correct (deserializeValue_fuel m) m) items →
  all (λ '(k, v), wf_str k ∧ correct (deserializeValue_fuel m) m v) l →
  enc_seq enc items st = (x, st1) →
  suffix terminator (enc_seq (then_put enc_str enc) l st1) = (y, st2) →
  render_members items pool = Some (items', pool1) → render_props l pool1 = Some (l', pool') →
  pooledObjects st = len pool → r ≠ [] → (length (x ++ webkitNonSetPropertiesTag :: y ++ r) <= m)%nat →
  let out := json_object (λ _, bs "{}") (fill items') in
  deserializeSetData (deserializeValue_fuel m) (rep st pool) (x ++ webkitNonSetPropertiesTag :: y ++ r) =
    (Ok (Some out, rep (Writer (seen st2) (pooledObjects st2 + 1)) (pool' ++ [Some out])), r) ∧
  pooledObjects (Writer (seen st2) (pooledObjects st2 + 1)) = len (pool' ++ [Some out]).
Proof.
  intros Hi Hl Ex Ey Ei El Hn Hr Hm out.
  edestruct (wk_set_loop_ser (deserializeValue_fuel m) m items Hi) as [R1 C1];
    [exact Ex|exact Ei|exact Hn| |exact (Nat.lt_succ_diag_r (length (x ++ webkitNonSetPropertiesTag :: y ++ r)))|exact Hm|].
  { intros E. by apply app_eq_nil in E as [_ ->]. }
  edestruct (properties_ser (deserializeValue_fuel m) m l) as [R2 C2]; [exact Hl|exact Ey|exact El|exact C1| |].
  { rewrite length_app in Hm. cbn [length] in Hm. instantiate (1 := r). lia. }
  apply pooled_rep; [|exact C2].
  erewrite wbind_Ok by (exact R1). by erewrite wbind_ctx_Ok by (exact R2).
Qed.

Lemma bind_pair_inv {A B : Type} (o : option (A * list value)) (f : A → list value → option B) y :
  ('(x, p) ← o; f x p) = Some y → ∃ x p, o = Some (x, p) ∧ f x p = Some y.
Proof. destruct o as [[x p]|]; [|done]. intros E. by exists x, p. Qed.

Lemma reads_all v : reads v.
Proof.
  induction v as [v IH] using wkval_children_ind. intros Hwf m st pool x st' val pool' r E Er Hn Hr Hm.
  destruct m as [|m].
  { exfalso. destruct (enc_head _ _ _ _ E) as (b & x' & -> & _). cbn in Hm. lia. }
  destruct v; try (refine (reads_leaf m _ st pool x st' val pool' r _ Hwf E Er Hn Hr); exact I); cbn [children wf enc render] in *; cbn [deserializeValue_fuel]; cbv zeta.
  - apply bind_pair_inv in Er as (l' & pool1 & El & Er). unfold push in Er. simplify_eq.
    apply pair_equal_spec in E as [<- <-]. cbn [fst prefix app length] in Hm |- *.
    erewrite wbind_rd_Ok by reflexivity. toks.
    exact (reads_nested m props st pool l' pool1 r _ _ (reads_props m props IH Hwf) eq_refl El Hn ltac:(lia)).
  - destruct IH as [IHi IHl], Hwf as (Hw & Hwi & Hwl).
    apply bind_pair_inv in Er as (items' & pool1 & Ei & (l' & pool2 & El & Er)%bind_pair_inv). unfold push in Er. simplify_eq.
    destruct (enc_seq _ items st) as [x1 st1] eqn:E1. fold (enc_array_end props st1) in E.
    destruct (enc_array_end props st1) as [x2 st2] eqn:E2.
    apply pair_equal_spec in E as [<- <-]. cbn [fst app length] in Hm |- *. rewrite <- !app_assoc in Hm |- *.
    erewrite wbind_rd_Ok by reflexivity. toks. refine (reads_array m n items props st pool items' pool1 l' pool2 r x1 st1 x2 st2 Hw _ _ E1 E2 Ei El Hn _); [|by apply reads_props|exact (le_S_n _ _ Hm)].
    revert IHi Hwi. apply all_and. intros [i v] H [Hi Hv]. split; [done|by apply H].
  - destruct IH as [IHi IHl], Hwf as (Hwi & Hwl).
    apply bind_pair_inv in Er as (items' & pool1 & Ei & (l' & pool2 & El & Er)%bind_pair_inv). unfold push in Er. simplify_eq.
    destruct (enc_seq _ entries st) as [x1 st1] eqn:E1. destruct (suffix terminator _) as [x2 st2] eqn:E2.
    apply pair_equal_spec in E as [<- <-]. cbn [fst app length] in Hm |- *. rewrite <- !app_assoc in Hm |- *.
    erewrite wbind_rd_Ok by reflexivity. toks.
    refine (reads_map m entries props st pool items' pool1 l' pool2 r x1 st1 x2 st2 _ _ E1 E2 Ei El Hn Hr _); [|by apply reads_props|exact (le_S_n _ _ Hm)].
    revert IHi Hwi. apply all_and. intros [k v] [Hk Hv] [Hwk Hwv]. split; auto.
  - destruct IH as [IHi IHl], Hwf as (Hwi & Hwl).
    apply bind_pair_inv in Er as (items' & pool1 & Ei & (l' & pool2 & El & Er)%bind_pair_inv). unfold push in Er. simplify_eq.
    destruct (enc_seq _ items st) as [x1 st1] eqn:E1. destruct (suffix terminator _) as [x2 st2] eqn:E2.
    apply pair_equal_spec in E as [<- <-]. cbn [fst app length] in Hm |- *. rewrite <- !app_assoc in Hm |- *.
    erewrite wbind_rd_Ok by reflexivity. toks.
    refine (reads_set m items props st pool items' pool1 l' pool2 r x1 st1 x2 st2 _ _ E1 E2 Ei El Hn Hr _); [|by apply reads_props|exact (le_S_n _ _ Hm)].
    revert IHi Hwi. apply all_and. intros v H Hv. by apply H.
Qed.

(** ** Rows *)

(** The column as SQLite quotes a blob: hexadecimal digits between [X'] and ['] *)
Definition hexEncode (l : bytes) : bytes :=
  flat_map (λ b, [hex_digit (byte_Z b / 16); hex_digit (byte_Z b mod 16)]) l.
Definition quoted_blob (l : bytes) : bytes := bs "X'" ++ hexEncode l ++ bs "'".

Lemma hexDecode_Encode l : hexDecode (hexEncode l) = Some l.
Proof.
  induction l as [|b l IH]; [done|]. change (hexEncode (b :: l)) with
    (hex_digit (byte_Z b / 16) :: hex_digit (byte_Z b mod 16) :: hexEncode l).
  cbn [hexDecode]. rewrite IH. by destruct b.
Qed.

Lemma trim_quoted l : trim_suffix (bs "'") (trim_prefix (bs "X'") (quoted_blob l)) = hexEncode l.
Proof.
  unfold quoted_blob. change (trim_prefix (bs "X'") (bs "X'" ++ hexEncode l ++ bs "'")) with (hexEncode l ++ bs "'").
  unfold trim_suffix, has_suffix. rewrite reverse_app. change (reverse (bs "'")) with (bs "'").
  cbn [app has_prefix bs list_byte_of_string].
  rewrite length_app. rewrite Nat.add_sub. apply take_app_length.
Qed.

Definition wk_row (l : bytes) : gmap bytes bytes := {[ bs "data" := quoted_blob l ]}.

Lemma deserializeWebkit_row l :
  deserializeWebkit (wk_row l) = ('(val, _) ← wrap "deserializing: %w" (Deserialize newWebkitDeserializer l).1; Ok val).
Proof. unfold deserializeWebkit, wk_row. rewrite lookup_singleton_eq, trim_quoted. cbv zeta. by rewrite hexDecode_Encode. Qed.

Lemma correct_deserializeValue v m : wf v → correct deserializeValue m v.
Proof.
  intros Hwf st pool x st' val pool' r E Er Hn Hr Hm. unfold deserializeValue, w_fuel, Values.with_fuel.
  apply (reads_all v Hwf); auto.
Qed.

(** The version, the tag and the object *)
Lemma Deserialize_object version w r v w' r' :
  wf_u32 version → deserializeObject deserializeValue w r = (Ok (v, w'), r') →
  Deserialize w (u32 version ++ webkitObjectTag :: r) = (Ok ([v], w'), r').
Proof.
  intros Hv E. unfold Deserialize. erewrite wbind_ctx_Ok by (by apply rd_Ok, deserializeUint32_u32).
  erewrite wbind_rd_Ok by reflexivity. toks. by erewrite wbind_ctx_Ok by (exact E).
Qed.

Lemma Deserialize_stored version props obj trailing :
  wf_u32 version → all (λ '(k, v), wf_str k ∧ wf v) props → render_row props = Some obj →
  ∃ w, (Deserialize newWebkitDeserializer (enc_row version props ++ trailing)).1 = Ok ([obj], w).
Proof.
  intros Hv Hwf Er. apply bind_pair_inv in Er as (l' & pool' & El & Er). injection Er as <-.
  unfold enc_row. rewrite <- app_assoc. cbn [app]. rewrite <- app_assoc.
  destruct (enc_seq (then_put enc_str enc) props (Writer [] 0)) as [x st'] eqn:E. cbn [fst].
  edestruct (wk_object_loop_ser deserializeValue (S (length (x ++ terminator ++ trailing))) props) as [R _];
    [|exact E|exact El|done|exact (Nat.lt_succ_diag_r (length (x ++ terminator ++ trailing)))|lia|].
  { apply all_intro. intros [k v] Hx. destruct (all_elim _ _ _ Hwf Hx). split; [done|by apply correct_deserializeValue]. }
  eexists. rewrite (Deserialize_object version newWebkitDeserializer (x ++ terminator ++ trailing) _ _ _ Hv R). done.
Qed.

Definition report_buffer (b : wkbuffer) : value :=
  match b with Buffer data | Resizable data _ => Some data | BufferRef _ => None end.

Lemma all_impl {A} (P Q : A → Prop) l : (∀ x, P x → Q x) → all P l → all Q l.
Proof. intros H. induction l as [|x l IH]; [done|]. intros [? ?]. split; auto. Qed.

(** What is reported of a value without references *)
Fixpoint report (v : wkval) : value :=
  match v with
  | WUndefined => Some (bs "undefined")
  | WNull | WEmptyStringObj => Some []
  | WZero => Some (bs "0")
  | WOne => Some (bs "1")
  | WInt z => Some (itoa z)
  | WBool _ b => Some (if b then bs "true" else bs "false")
  | WDouble d | WDate d | WNumberObj d => Some (Values.FormatFloat d)
  | WStr _ s => Some (render_str s)
  | WRegexp pattern flags => Some (bs "/" ++ render_str pattern ++ bs "/" ++ render_str flags)
  | WRef _ => None
  | WView _ _ _ b => report_buffer b
  | WError e => Some (render_error e)
  | WObject l => Some (json_object json_string (str <$> fill (map (λ '(k, v), (render_str k, report v)) l)))
  | WArray n items _ => Some (json_array (map json_slot (Values.slots n (fill (map (λ '(i, v), (i, str (report v))) items)))))
  | WMap entries _ => Some (json_object json_string (fill (map (λ '(k, v), (str (report k), str (report v))) entries)))
  | WSet items _ => Some (json_object (λ _, bs "{}") (fill (map (λ v, (str (report v), tt)) items)))
  end.

(** [f] renders [a] as [b], whatever is in the pool. *)
Definition renders {A B} (f : Render A B) (a : A) (b : B) : Prop := ∀ pool, ∃ pool', f a pool = Some (b, pool').

Lemma render_seq_renders {A B} (f : Render A B) (g : A → B) l :
  all (λ a, renders f a (g a)) l → renders (render_seq f) l (map g l).
Proof.
  induction l as [|a l IH]; intros Hall pool; [by exists pool|]. destruct Hall as [Ha Hall].
  destruct (Ha pool) as [pool1 E1], (IH Hall pool1) as [pool2 E2]. exists pool2. cbn [render_seq map].
  rewrite E1. cbn [mbind option_bind]. by rewrite E2.
Qed.

Lemma render_props_renders {K} (g : K → bytes) (l : list (K * wkval)) :
  all (λ '(_, v), renders render v (report v)) l →
  renders (render_seq (λ '(k, v) pool, '(x, pool') ← render v pool; Some ((g k, x), pool'))) l (map (λ '(k, v), (g k, report v)) l).
Proof.
  intros Hall. apply (render_seq_renders _ (λ '(k, v), (g k, report v))). revert Hall. apply all_impl. intros [k v] Hv pool.
  destruct (Hv pool) as [pool' E]. exists pool'. by rewrite E.
Qed.

Lemma renders_props {K} (l : list (K * wkval)) :
  all (λ '(_, v), simple v → renders render v (report v)) l → all (λ '(_, v), simple v) l →
  all (λ '(_, v), renders render v (report v)) l.
Proof. apply all_and. intros [k v] H Hs. by apply H. Qed.

Lemma render_entries_renders l :
  all (λ '(k, v), renders render k (report k) ∧ renders render v (report v)) l →
  renders (render_seq (λ '(k, v) pool,
    '(x, pool1) ← render k pool; '(y, pool2) ← render v pool1; Some ((str x, str y), pool2))) l
    (map (λ '(k, v), (str (report k), str (report v))) l).
Proof.
  intros Hall. apply (render_seq_renders _ (λ '(k, v), (str (report k), str (report v)))). revert Hall. apply all_impl.
  intros [k v] [Hk Hv] pool. destruct (Hk pool) as [pool1 E1], (Hv pool1) as [pool2 E2]. exists pool2.
  rewrite E1. cbn [mbind option_bind]. by rewrite E2.
Qed.

(** A value without references is reported the same whatever the pool. *)
Lemma render_simple v : simple v → renders render v (report v).
Proof.
  induction v as [v IH] using wkval_children_ind. intros Hs pool.
  destruct v as [| | | |z|boxed b|d|d|d|boxed s| |pattern flags|i|subtag offset length b|e|l|n items l|entries l|items l];
    cbn [children simple] in IH, Hs; cbn [render report]; try done; try (by eexists).
  - destruct boxed; by eexists.
  - destruct boxed; by eexists.
  - destruct b; try done; by eexists.
  - destruct (render_props_renders render_str l (renders_props l IH Hs) pool) as [pool1 E1].
    rewrite E1. by eexists.
  - destruct IH as [IHi IHl], Hs as [Hi Hl].
    destruct (render_seq_renders (λ '(i, v) pool, '(x, pool') ← render v pool; Some ((i : Z, str x), pool')) (λ '(i, v), (i, str (report v))) items)
      with (pool := pool) as [pool1 E1].
    { revert IHi Hi. apply all_and. intros [i v] H Hv p. destruct (H Hv p) as [p' E]. exists p'. by rewrite E. }
    rewrite E1. cbn [mbind option_bind].
    destruct (render_props_renders render_str l (renders_props l IHl Hl) pool1) as [pool2 E2]. rewrite E2. by eexists.
  - destruct IH as [IHi IHl], Hs as [Hi Hl].
    destruct (render_entries_renders entries) with (pool := pool) as [pool1 E1].
    { revert IHi Hi. apply all_and. intros [k v] [Hk Hv] [Hsk Hsv]. auto. }
    rewrite E1. cbn [mbind option_bind].
    destruct (render_props_renders render_str l (renders_props l IHl Hl) pool1) as [pool2 E2]. rewrite E2. by eexists.
  - destruct IH as [IHi IHl], Hs as [Hi Hl].
    destruct (render_seq_renders (λ v pool, '(x, pool') ← render v pool; Some ((str x, tt), pool')) (λ v, (str (report v), tt)) items)
      with (pool := pool) as [pool1 E1].
    { revert IHi Hi. apply all_and. intros v H Hv p. destruct (H Hv p) as [p' E]. exists p'. by rewrite E. }
    rewrite E1. cbn [mbind option_bind].
    destruct (render_props_renders render_str l (renders_props l IHl Hl) pool1) as [pool2 E2]. rewrite E2. by eexists.
Qed.

Lemma render_row_simple props : all (λ '(_, v), simple v) props →
  render_row props = Some (fill (map (λ '(k, v), (render_str k, report v)) props)).
Proof.
  intros Hs. unfold render_row. destruct (render_props_renders render_str props) with (pool := @nil value) as [pool E].
  { revert Hs. apply all_impl. intros [k v]. apply render_simple. }
  by rewrite E.
Qed.

(** C35: Deserializing an object of [simple] values, nested to any depth, as WebKit stores it gives one row, which
    maps the name of every property to what is reported of its value, the last of a name winning: strings that were
    seen are read from the pool by the index the writer gave them, whether in one byte, two or four; and
    properties of arrays, maps and sets that are not among their elements are passed over.  Simple values have no
    references to objects and no empty strings (but for String objects); see the end of the file. *)
Theorem deserializeWebkit_roundtrip version props trailing :
  wf_u32 version → all (λ '(k, v), wf_str k ∧ wf v) props → all (λ '(_, v), simple v) props →
  deserializeWebkit (wk_row (enc_row version props ++ trailing)) =
    Ok [fill (map (λ '(k, v), (render_str k, report v)) props)].
Proof.
  intros Hv Hwf Hs. rewrite deserializeWebkit_row.
  by destruct (Deserialize_stored version props _ trailing Hv Hwf (render_row_simple props Hs)) as [w ->].
Qed.

(** ** Corrupted buffers *)

Definition panics {A} (m : W A) (w : webkitDeserializer) (r : bytes) : Prop := (m w r).1 = Panic.

Lemma panics_bind {A B} (m : W A) (f : A → W B) w r : panics m w r → panics (m ≫= f) w r.
Proof. unfold panics, mbind, w_bind, mbind, reader_bind. by destruct (m w r) as [[| | |] ?]. Qed.

Lemma panics_wctx {A} msg (m : W A) w r : panics m w r → panics (wctx msg m) w r.
Proof. unfold panics, wctx, ctx. by destruct (m w r) as [[| | |] ?]. Qed.

(** A length that cannot be allocated *)
Lemma ArrayBuffer_panics w n r :
  Values.maxAlloc < n < two64 → panics deserializeArrayBuffer w (le_bytes 8 n ++ r).
Proof.
  intros Hn. apply panics_bind. unfold panics.
  erewrite wbind_rd_Ok by (apply ctx_Ok, ReadFixed_double; unfold Values.maxAlloc in Hn; lia).
  apply panics_bind. unfold panics, rd, Values.make. rewrite Z.mul_1_r. by rewrite (proj2 (Z.leb_gt _ _)) by lia.
Qed.

Definition view_bytes (subtag : byte) (offset length n : Z) : bytes :=
  webkitArrayBufferViewTag :: subtag :: le_bytes 8 offset ++ le_bytes 8 length ++ webkitArrayBufferTag :: le_bytes 8 n.

Lemma view_panics w subtag offset length n r :
  0 <= offset < two64 → 0 <= length < two64 → Values.maxAlloc < n < two64 →
  panics deserializeValue w (view_bytes subtag offset length n ++ r).
Proof.
  intros Ho Hl Hn. unfold view_bytes. cbn [app]. rewrite <- !app_assoc. cbn [app].
  unfold panics, deserializeValue, w_fuel, Values.with_fuel. cbn [deserializeValue_fuel]. cbv zeta.
  erewrite wbind_rd_Ok by reflexivity. toks. apply panics_bind. unfold panics.
  erewrite wbind_rd_Ok by reflexivity.
  erewrite wbind_rd_Ok by (by apply ctx_Ok, ReadFixed_double).
  erewrite wbind_rd_Ok by (by apply ctx_Ok, ReadFixed_double).
  erewrite wbind_rd_Ok by reflexivity. toks. by apply panics_wctx, ArrayBuffer_panics.
Qed.

Definition corrupt_object (version : Z) (key : wkstr) (subtag : byte) (offset length n : Z) (rest : bytes) : bytes :=
  u32 version ++ webkitObjectTag :: (enc_str key (Writer [] 0)).1 ++ view_bytes subtag offset length n ++ rest.

Lemma Deserialize_corrupt version key subtag offset length n rest :
  wf_u32 version → wf_str key → 0 <= offset < two64 → 0 <= length < two64 → Values.maxAlloc < n < two64 →
  (Deserialize newWebkitDeserializer (corrupt_object version key subtag offset length n rest)).1 = Panic.
Proof.
  intros Hv Hk Ho Hl Hn. unfold corrupt_object. set (r := _ ++ _ ++ rest).
  change (panics Deserialize newWebkitDeserializer (u32 version ++ webkitObjectTag :: r)).
  unfold panics, Deserialize. erewrite wbind_ctx_Ok by (by apply rd_Ok, deserializeUint32_u32).
  erewrite wbind_rd_Ok by reflexivity. toks. apply panics_bind, panics_wctx.
  unfold panics, deserializeObject, w_fuel, Values.with_fuel. cbn [deserializeObject_loop].
  destruct (StringData_str key (Writer [] 0) [] (view_bytes subtag offset length n ++ rest) _ _
    (surjective_pairing (enc_str key (Writer [] 0))) Hk) as [R _].
  erewrite wbind_ctx_Ok by (exact R). by apply panics_bind, panics_wctx, view_panics.
Qed.

(** The length of an array buffer is trusted: a stored value that claims more bytes than can be allocated
    is not an error, as other corruption is, but panics. *)
Theorem corrupt_buffer_panics version key subtag offset length n rest :
  wf_u32 version → wf_str key → 0 <= offset < two64 → 0 <= length < two64 → Values.maxAlloc < n < two64 →
  deserializeWebkit (wk_row (corrupt_object version key subtag offset length n rest)) = Panic.
Proof. intros Hv Hk Ho Hl Hn. by rewrite deserializeWebkit_row, Deserialize_corrupt. Qed.

(** Fewer bytes than the length of an array buffer says are not an error of the buffer: the missing ones
    read as zeros and the row ends there, so that the object around it reports the end of the data instead. *)
Lemma short_buffer_padded st pool n b r :
  0 <= n <= Values.maxAlloc → len (b :: r) <= n →
  deserializeArrayBuffer (rep st pool) (le_bytes 8 n ++ b :: r) =
    (let raw := Some ((b :: r) ++ repeat x00 (Z.to_nat (n - len (b :: r)))) in (Ok (raw, rep st (pool ++ [raw])), [])).
Proof.
  intros Hn Hr. cbv zeta. apply (pooled_Ok _ _ _ (Some _) (rep st pool)).
  erewrite wbind_rd_Ok by (apply ctx_Ok, ReadFixed_double; unfold two64, Values.maxAlloc in *; lia).
  erewrite wbind_rd_Ok by (apply make_Ok; lia).
  erewrite wbind_rd_Ok; [reflexivity|]. apply ctx_Ok. unfold Read. unfold len in *.
  rewrite take_ge, drop_ge by lia. by replace (Z.to_nat n - _)%nat with (Z.to_nat (n - Z.of_nat (length (b :: r)))) by lia.
Qed.
End Lib.

(** ** Witnesses *)
Definition exampleCharsets : Charsets := {|
  latin1Decode s := Some (flat_map utf8_rune s); utf16leDecode s := Some s
|}.

Definition example_props : list (wkstr * wkval) :=
  let key s := Latin1 (bs s) in
  [ (key "id", WInt (-3));
    (key "uuid", WStr false (key "id"));
    (Utf16 [x68; x00], WStr true (Utf16 [x69; x00]));
    (key "raw", WView x02 0 3 (Buffer [x01; x02; x03]));
    (key "tags", WArray 3 [(0, WStr false (key "a")); (2, WObject [(key "uuid", WBool true true)])] [(key "index", WZero)]);
    (key "map", WMap [(WOne, WSet [WDouble 5; WDate 7] []); (WEmptyStringObj, WNull)] [(key "p", WNull)]);
    (key "re", WRegexp (key "a+") (key "gi"));
    (key "err", WError (WkError 5 (Some (key "bad")) 3 7 None (Some (key "a")) None)) ].

Lemma wk_example_wf : all (λ '(k, v), @wf_str exampleCharsets k ∧ @wf exampleCharsets v) example_props.
Proof. vm_compute. repeat split; try discriminate; eauto. Qed.

Lemma example_rendered :
  match @render_row exampleLib exampleCharsets example_props with Some _ => true | None => false end = true.
Proof. vm_compute. reflexivity. Qed.

Lemma deserializeWebkit_roundtrip_witness :
  @deserializeWebkit exampleLib exampleCharsets (wk_row (enc_row 15 example_props ++ [x2a])) =
    Ok [fill (map (λ '(k, v), (@render_str exampleCharsets k, @report exampleLib exampleCharsets v)) example_props)].
Proof.
  apply (@deserializeWebkit_roundtrip exampleLib exampleCharsets 15 example_props [x2a]).
  - vm_compute. split; [discriminate|reflexivity].
  - exact wk_example_wf.
  - vm_compute. repeat split; discriminate.
Defined.

(** *** What the reader makes of other values *)

(** WebKit writes an empty string as its tag 17 alone: the reader does not know it, and the row is lost. *)
Lemma empty_string_rejected :
  ∃ e, @deserializeWebkit exampleLib exampleCharsets (wk_row
    (u32 15 ++ webkitObjectTag :: u32 (str_head (Latin1 (bs "s"))) ++ bs "s" ++ [x11] ++ terminator)) = Err e.
Proof. eexists. vm_compute. reflexivity. Qed.

(** WebKit numbers an object when it begins to write it, the stored one first: in an object whose property a is an empty object
    and b the same one, b refers to number 1.  The reader numbers them when they end, without the stored one. *)
Lemma root_not_numbered :
  ∃ e, @deserializeWebkit exampleLib exampleCharsets (wk_row
    (u32 15 ++ webkitObjectTag :: u32 (str_head (Latin1 (bs "a"))) ++ bs "a" ++ webkitObjectTag :: terminator ++
     u32 (str_head (Latin1 (bs "b"))) ++ bs "b" ++ [webkitObjectReferenceTag; x01] ++ terminator)) = Err e.
Proof. eexists. vm_compute. reflexivity. Qed.

Lemma corrupt_buffer_panics_witness :
  @deserializeWebkit exampleLib exampleCharsets (wk_row
    (corrupt_object 15 (Latin1 (bs "id")) x02 0 0 (2 ^ 62) [x00])) = Panic.
Proof.
  apply (@corrupt_buffer_panics exampleLib exampleCharsets); vm_compute; repeat split; try discriminate; eauto.
Defined.
End WebkitCodec.
