(* ===== verification/IdbQuery.v ===== *)
(** * ee/indexeddb: keys.go, indexeddb.go and historical_comparer.go

    How the launcher finds the records of an object store: the LevelDB keys it builds, the
    scan over the database, and the unwrapping of large values (snappy, blob files).  LevelDB
    itself, snappy, the UTF-16 transcoders and the file system are parameters. *)
From S2P Require Import Prelude Reader IdbComparer IdbOrder.
Import IdbComparer.

Module Query.

(** ** Constants *)
Definition databaseNameTypeByte : byte := xc9.
Definition objectStoreMetaDataTypeByte : byte := x32.
Definition objectStoreDataIndexId : byte := x01.
Definition blobEntryIndexId : byte := x03.
Definition originSuffix : bytes := bs "@1".
Definition maxNumberOfObjectStoresToCheck : nat := 100.
Definition tokenVersion : byte := xff.
Definition tokenRequiresProcessingSSVPseudoVersion : byte := x11.
Definition tokenReplaceWithBlob : byte := x01.
Definition tokenCompressedWithSnappy : byte := x02.
Definition externalObjectTypeBlob : byte := x00.
Definition externalObjectTypeFile : byte := x01.
Definition externalObjectTypeFileSystemAccessHandle : byte := x02.

(** ** What the package calls *)
Class ChromeLib := {
  utf16BEEncode : bytes → option bytes;     (* unicode.UTF16(BigEndian, IgnoreBOM) *)
  utf16BEDecode : bytes → option bytes;
  snappyDecode : bytes → option bytes;      (* snappy.Decode *)
  readFile : bytes → option bytes;          (* os.ReadFile *)
  pathBase : bytes → bytes;                 (* filepath.Base *)
  pathJoin : list bytes → bytes             (* filepath.Join *)
}.

(** A LevelDB database opened for reading: the answers of [db.Get], and what its iterator
    yields, with the error it ends with *)
Inductive dbErr : Type := ErrNotFound | OtherErr.
Record DB := MkDB {
  Get : bytes → bytes + dbErr;
  entries : list (bytes * bytes);
  iterError : option err
}.

(** [fmt.Sprintf("%x", z)] of a [uint64] *)
Fixpoint hex_loop (fuel : nat) (z : Z) (acc : bytes) : bytes :=
  match fuel with
  | O => acc
  | S fuel' =>
      let d := z mod 16 in
      let acc := (if d <? 10 then Z_byte (48 + d) else Z_byte (87 + d)) :: acc in
      if z / 16 =? 0 then acc else hex_loop fuel' (z / 16) acc
  end.
Definition hex (z : Z) : bytes := hex_loop 16 z [].
(** [%02x] *)
Definition hex02 (z : Z) : bytes := if len (hex z) <? 2 then bs "0" ++ hex z else hex z.

Definition uvarintToBytes (x : Z) : bytes := PutUvarint x.

Section Lib.
Context `{L : ChromeLib}.

(** ** Keys (keys.go) *)
Definition stringWithLength (s : bytes) : res bytes :=
  match utf16BEEncode s with
  | None => Err (Errorf "encoding string as utf-16: %w")
  | Some strBytesUtf16 => Ok (uvarintToBytes (len strBytesUtf16 / 2) ++ strBytesUtf16)
  end.

Definition databaseIdKey (databaseLocation dbName : bytes) : res bytes :=
  let databaseNameKey := [x00; x00; x00; x00; databaseNameTypeByte] in
  originBytes ← wrap "constructing StringWithLength: %w"
    (stringWithLength (trim_suffix (bs ".indexeddb.leveldb") (pathBase databaseLocation) ++ originSuffix));
  dbNameBytes ← wrap "constructing StringWithLength: %w" (stringWithLength dbName);
  Ok (databaseNameKey ++ originBytes ++ dbNameBytes).

Definition objectStoreNameKey (dbId objectStoreId : Z) : bytes :=
  [x00] ++ uvarintToBytes dbId ++ [x00; x00; objectStoreMetaDataTypeByte] ++
  uvarintToBytes objectStoreId ++ [x00].

Definition objectDataKeyPrefix (dbId objectStoreId : Z) : bytes :=
  [x00] ++ uvarintToBytes dbId ++ uvarintToBytes objectStoreId ++ [objectStoreDataIndexId].

Definition blobKeyPrefix (dbId objectStoreId : Z) : bytes :=
  [x00] ++ uvarintToBytes dbId ++ uvarintToBytes objectStoreId ++ [blobEntryIndexId].

Definition decodeUtf16BigEndianBytes (b : bytes) : option bytes := utf16BEDecode b.

Definition readStringWithLength : Reader bytes :=
  stringLengthInCodeUnits ← ctx "reading string length: %w" ReadUvarint;
  let stringLength := to_uint64 (stringLengthInCodeUnits * 2) in
  n ← Len;
  if n <? stringLength then
    fail (Errorf "cannot read StringWithLength: length %d but only %d bytes remaining to read")
  else
    rawString ← ctx "reading byte at index %d in string of length %d: %w" (ReadBytes stringLength);
    match utf16BEDecode rawString with
    | Some decoded => mret decoded
    | None => fail (Errorf "reading string as utf-16: %w")
    end.

(** ** External objects (indexeddb.go) *)
Definition filepathForBlob (blobNumber databaseId : Z) (blobRootDir : bytes) : bytes :=
  let blobDir := hex02 (Z.shiftr (Z.land blobNumber 0xff00) 8) in
  let blobFilename := hex blobNumber in
  pathJoin [blobRootDir; hex databaseId; blobDir; blobFilename].

Definition isType (t : byte) (l : list byte) : bool := existsb (Byte.eqb t) l.

(** The fields of one object after its type: what it adds to [filepaths] *)
Definition readExternalObject (objectType : byte) (databaseId : Z) (blobRootDir : bytes)
    : Reader (list bytes) :=
  if isType objectType [externalObjectTypeBlob; externalObjectTypeFile] then
    blobNumber ← ctx "reading blob_number: %w" ReadUvarint;
    _ ← ctx "reading type: %w" readStringWithLength;
    _ ← ctx "reading size: %w" ReadUvarint;
    _ ← (if objectType =b externalObjectTypeFile then
           _ ← ctx "reading filename: %w" readStringWithLength;
           _ ← ctx "reading lastModified: %w" ReadUvarint;
           mret tt
         else mret tt);
    mret [filepathForBlob blobNumber databaseId blobRootDir]
  else
    binaryDataLength ← ctx "reading binary data length: %w" ReadUvarint;
    n ← Len;
    if n <? binaryDataLength then
      fail (Errorf "cannot read BinaryWithLength: length %d but only %d bytes remaining to read")
    else
      _ ← ctx "reading byte at index %d in binary data of length %d: %w" (ReadBytes binaryDataLength);
      mret [[]].

Fixpoint readExternalObjects_loop (fuel : nat) (databaseId : Z) (blobRootDir : bytes)
    (filepaths : list bytes) : Reader (list bytes) :=
  match fuel with
  | O => no_fuel
  | S fuel' =>
      o ← attempt ReadByte;
      match o with
      | inr _ => mret filepaths
      | inl objectType =>
          if negb (isType objectType
               [externalObjectTypeBlob; externalObjectTypeFile; externalObjectTypeFileSystemAccessHandle])
          then fail (Errorf "unknown external object type 0x%02x")
          else
            p ← readExternalObject objectType databaseId blobRootDir;
            readExternalObjects_loop fuel' databaseId blobRootDir (filepaths ++ p)
      end
  end.

Definition readExternalObjects (value : bytes) (databaseId : Z) (blobRootDir : bytes) : res (list bytes) :=
  (readExternalObjects_loop (S (length value)) databaseId blobRootDir [] value).1.

(** ** Wrapped values *)
Definition splitOnIndexeddbVersion (value : bytes) : res (bytes * bytes) :=
  let '(_, bytesRead) := Uvarint value in
  if bytesRead <=? 0 then Ok ([], value)
  else
    header ← slice_to value bytesRead;
    body ← slice_from value bytesRead;
    Ok (header, body).

Definition bodyIsWrapped (body : bytes) : bool :=
  match body with
  | b0 :: b1 :: b2 :: _ :: _ =>
      (b0 =b tokenVersion) && (b1 =b tokenRequiresProcessingSSVPseudoVersion) &&
      ((b2 =b tokenCompressedWithSnappy) || (b2 =b tokenReplaceWithBlob))
  | _ => false
  end.

Definition snappyDecompress (payload : bytes) : res bytes :=
  match snappyDecode payload with
  | None => Err (Errorf "snappy decompress: %w")
  | Some decompressed =>
      if len decompressed =? 0 then Err (Errorf "snappy decompression yielded empty data set")
      else Ok decompressed
  end.

Definition replaceWithBlob (payload : bytes) (blobFilepathList : list bytes) : res bytes :=
  ((_ ← ctx "reading blob size: %w" ReadUvarint;
    blobOffset ← ctx "reading blob offset: %w" ReadUvarint;
    match blobFilepathList !! Z.to_nat blobOffset with
    | None => fail (Errorf "wanted blob with offset %d, but only have %d blobs")
    | Some blobFile =>
        if len blobFile =? 0 then
          fail (Errorf "no blob file available at offset %d (may be file access handle)")
        else
          match readFile blobFile with
          | None => fail (Errorf "reading blob file %s: %w")
          | Some blobBytes => mret blobBytes
          end
    end) payload).1.

(** The loop goes on as long as what it unwrapped is itself wrapped (its condition and the
    [break] of its last branch are [bodyIsWrapped]): nothing bounds it. *)
Fixpoint handleWrappedValues (fuel : nat) (body : bytes) (blobFilepathList : list bytes) : res bytes :=
  if negb (bodyIsWrapped body) then Ok body
  else
    match fuel, body with
    | S fuel', _ :: _ :: b2 :: payload =>
        unwrapped ← wrap "unwrapping value: %w"
          (if b2 =b tokenCompressedWithSnappy then snappyDecompress payload
           else replaceWithBlob payload blobFilepathList);
        handleWrappedValues fuel' unwrapped blobFilepathList
    | _, _ => NoFuel
    end.

(** ** The query *)

(** The first object store id from [i] on, among [n], with the name looked for *)
Fixpoint findObjectStore (db : DB) (databaseId : Z) (objectStoreName : bytes) (n : nat) (i : Z) : Z :=
  match n with
  | O => 0
  | S n' =>
      let continue := findObjectStore db databaseId objectStoreName n' (i + 1) in
      match Get db (objectStoreNameKey databaseId i) with
      | inr _ => continue
      | inl objectStoreNameRaw =>
          match decodeUtf16BigEndianBytes objectStoreNameRaw with
          | None => continue
          | Some foundObjectStoreName =>
              if bool_decide (foundObjectStoreName = objectStoreName) then i else continue
          end
      end
  end.

(** The row of one entry of the database, if it has one; a value that cannot be unwrapped is
    logged and skipped *)
Definition rowOf (fuel : nat) (db : DB) (databaseId : Z) (tempDbCopyLocation : bytes)
    (keyPrefix blobPrefix key value : bytes) : res (option (gmap bytes bytes)) :=
  if negb (has_prefix keyPrefix key) then Ok None
  else
    '(header, body) ← splitOnIndexeddbVersion value;
    if negb (bodyIsWrapped body) then Ok (Some (<[bs "data" := value]> ∅))
    else
      let userKey := trim_prefix keyPrefix key in
      let blobKey := blobPrefix ++ userKey in
      externalObjectFilenames ←
        match Get db blobKey with
        | inr _ => Ok []
        | inl externalObjectsRaw =>
            match readExternalObjects externalObjectsRaw databaseId tempDbCopyLocation with
            | Err _ => Ok []
            | r => r
            end
        end;
      match handleWrappedValues fuel body externalObjectFilenames with
      | Ok unwrapped => Ok (Some (<[bs "data" := header ++ unwrapped]> ∅))
      | Err _ => Ok None
      | Panic => Panic
      | NoFuel => NoFuel
      end.

Fixpoint scan (rowOf : bytes → bytes → res (option (gmap bytes bytes))) (l : list (bytes * bytes))
    : res (list (gmap bytes bytes)) :=
  match l with
  | [] => Ok []
  | (key, value) :: l' =>
      o ← rowOf key value;
      rows ← scan rowOf l';
      Ok (match o with Some row => row :: rows | None => rows end)
  end.

(** [QueryIndexeddbObjectStore], once the database is copied and opened: the objects, with
    the error the iterator ended with *)
Definition queryObjectStore (fuel : nat) (db : DB) (dbLocation tempDbCopyLocation dbName objectStoreName : bytes)
    : res (list (gmap bytes bytes) * option err) :=
  databaseNameKey ← wrap "getting database id key: %w" (databaseIdKey dbLocation dbName);
  match Get db databaseNameKey with
  | inr ErrNotFound => Ok ([], None)
  | inr OtherErr => Err (Errorf "querying for database id: %w")
  | inl databaseIdRaw =>
      let '(databaseId, _) := Uvarint databaseIdRaw in
      let objectStoreId := findObjectStore db databaseId objectStoreName maxNumberOfObjectStoresToCheck 1 in
      if objectStoreId =? 0 then Ok ([], None)
      else
        let keyPrefix := objectDataKeyPrefix databaseId objectStoreId in
        let blobPrefix := blobKeyPrefix databaseId objectStoreId in
        objs ← scan (rowOf fuel db databaseId tempDbCopyLocation keyPrefix blobPrefix) (entries db);
        Ok (objs, Wrapf "iterator error: %w" <$> iterError db)
  end.

End Lib.

(** ** Comparers (historical_comparer.go) *)
Inductive Comparer : Type := historicalComparer | DefaultComparer | idbCmp1Comparer.

Definition comparerFromType (comparerType : bytes) : Comparer :=
  if bool_decide (comparerType = bs "historical_bytewise") then historicalComparer
  else if bool_decide (comparerType = bs "default_bytewise") then DefaultComparer
  else idbCmp1Comparer.

Definition compareWith (c : Comparer) (a b : bytes) : res Z :=
  match c with
  | historicalComparer =>
      let ret := bytes_compare a b in
      Ok (if ret =? 0 then 1 else ret)
  | DefaultComparer => Ok (bytes_compare a b)
  | idbCmp1Comparer => Compare a b
  end.

Section Lib2.
Context `{L : ChromeLib}.

(** ** Locating the records of a store *)
Lemma PutUvarint_small z : 0 <= z < 128 → PutUvarint z = [Z_byte z].
Proof. intros H. unfold PutUvarint. cbn [putUvarint_loop]. case_if; [done|lia]. Qed.

Lemma nbytes_small z : z < 256 → nbytes z = 1%nat.
Proof. intros H. unfold nbytes. cbn [nbytes_loop]. case_if; [done|lia]. Qed.

Lemma le_bytes_1 z : le_bytes 1 z = [Z_byte z].
Proof. done. Qed.

(** The prefixes the launcher builds for small ids are Chromium's. *)
Lemma prefix_small db st i :
  0 <= db < 128 → 0 <= st < 128 → 0 <= i < 256 →
  [x00] ++ uvarintToBytes db ++ uvarintToBytes st ++ [Z_byte i] = encodeKeyPrefix (KeyPrefix db st i).
Proof.
  intros Hd Hs Hi. unfold uvarintToBytes, encodeKeyPrefix. cbn [DatabaseId ObjectStoreId IndexId].
  rewrite !PutUvarint_small, !nbytes_small by lia. done.
Qed.

Lemma has_prefix_app p r : has_prefix p (p ++ r) = true.
Proof. apply has_prefix_spec. by exists r. Qed.

(** Of the keys of all kinds, those with the data prefix of a store are its records. *)
Lemma data_prefix_spec db st p r :
  0 <= db < 128 → 0 <= st < 128 → wf_prefix p →
  has_prefix (objectDataKeyPrefix db st) (encodeKeyPrefix p ++ r) =
    bool_decide (p = KeyPrefix db st IdbComparer.objectStoreDataIndexId).
Proof.
  intros Hd Hs Hwf. set (q := KeyPrefix db st IdbComparer.objectStoreDataIndexId).
  assert (Hq : wf_prefix q).
  { unfold wf_prefix, q, two63; cbn. unfold IdbComparer.objectStoreDataIndexId. lia. }
  assert (E : objectDataKeyPrefix db st = encodeKeyPrefix q).
  { exact (prefix_small db st 1 Hd Hs ltac:(lia)). }
  rewrite E. apply eq_true_iff_eq.
  rewrite has_prefix_spec, bool_decide_eq_true. split; [|intros ->; by exists r].
  intros [r' Hr']. pose proof (decodeKeyPrefix_encode p r Hwf) as E1.
  rewrite Hr', decodeKeyPrefix_encode in E1 by done. congruence.
Qed.

(** ** The scan *)
Lemma uvarint_loop_bound buf : ∀ i s x v n,
  0 <= i → uvarint_loop i s x buf = (v, n) → n <= i + len buf.
Proof.
  induction buf as [|b buf IH]; intros i s x v n Hi E; cbn [uvarint_loop] in E.
  { simplify_eq. pose proof (len_nonneg (@nil byte)). lia. }
  rewrite len_cons. pose proof (len_nonneg buf).
  repeat case_if_in E; simplify_eq; try lia. apply IH in E; lia.
Qed.

Lemma splitOnIndexeddbVersion_Ok value :
  ∃ header body, splitOnIndexeddbVersion value = Ok (header, body) ∧ value = header ++ body.
Proof.
  unfold splitOnIndexeddbVersion. destruct (Uvarint value) as [v n] eqn:E.
  apply uvarint_loop_bound in E; [|lia]. case_if; [by exists [], value|].
  rewrite slice_to_Ok, slice_from_Ok by lia. unfold mbind, res_bind.
  eexists _, _. split; [done|]. by rewrite take_drop.
Qed.

Definition row (value : bytes) : gmap bytes bytes := <[bs "data" := value]> ∅.

Lemma scan_Ok f g l :
  Forall (λ e, f e.1 e.2 = Ok (g e)) l → scan f l = Ok (omap g l).
Proof.
  induction 1 as [|[k v] l E Hl IH]; [done|]. cbn [scan omap fst snd] in *. rewrite E, IH.
  unfold mbind, res_bind. cbn. by destruct (g (k, v)).
Qed.

Lemma findObjectStore_range db dbId name n i :
  findObjectStore db dbId name n i = 0 ∨ i <= findObjectStore db dbId name n i < i + Z.of_nat n.
Proof.
  revert i; induction n as [|n IH]; intros i; cbn [findObjectStore]; [by left|].
  specialize (IH (i + 1)). destruct (Get _ _) as [raw|]; [|lia].
  destruct (decodeUtf16BigEndianBytes raw); [|lia]. case_bool_decide; lia.
Qed.

Lemma Uvarint_small z : 0 <= z < 128 → Uvarint (PutUvarint z) = (z, 1).
Proof.
  intros H. rewrite PutUvarint_small by done. unfold Uvarint. cbn [uvarint_loop].
  change (0 =? 10) with false. change (0 =? 9) with false. cbv iota. cbn [andb].
  rewrite byte_Z_byte, Z.mod_small by lia.
  assert ((z <? 128) = true) as -> by (apply Z.ltb_lt; lia).
  rewrite Z.shiftl_0_r, Z.lor_0_l, to_uint64_small by (unfold two64; lia). done.
Qed.

(** The search for the store returns the least id between 1 and 100 whose name decodes to
    the wanted one, and 0 when there is none. *)
Theorem findObjectStore_first db dbId name n i :
  let names j := match Get db (objectStoreNameKey dbId j) with
                 | inl raw => decodeUtf16BigEndianBytes raw | inr _ => None end in
  let r := findObjectStore db dbId name n i in
  0 < i →
  (r = 0 ∧ ∀ j, i <= j < i + Z.of_nat n → names j ≠ Some name) ∨
  (i <= r < i + Z.of_nat n ∧ names r = Some name ∧ ∀ j, i <= j < r → names j ≠ Some name).
Proof.
  intros names. revert i; induction n as [|n IH]; intros i r Hi; subst r; cbn [findObjectStore].
  { left. split; [done|lia]. }
  assert (Hnext : names i ≠ Some name → let r := findObjectStore db dbId name n (i + 1) in
    (r = 0 ∧ ∀ j, i <= j < i + Z.of_nat (S n) → names j ≠ Some name) ∨
    (i <= r < i + Z.of_nat (S n) ∧ names r = Some name ∧ ∀ j, i <= j < r → names j ≠ Some name)).
  { intros Hne. destruct (IH (i + 1) ltac:(lia)) as [[E H]|(Hr & E & H)]; [left|right].
    - split; [done|]. intros j Hj. destruct (decide (j = i)) as [->|]; [done|]. apply H. lia.
    - split_and!; [lia|lia|done|]. intros j Hj. destruct (decide (j = i)) as [->|]; [done|]. apply H. lia. }
  destruct (Get db (objectStoreNameKey dbId i)) as [raw|e] eqn:Eg.
  2: { apply Hnext. unfold names. by rewrite Eg. }
  destruct (decodeUtf16BigEndianBytes raw) as [found|] eqn:Ed.
  2: { apply Hnext. unfold names. by rewrite Eg, Ed. }
  case_bool_decide as Ef.
  - right. split_and!; [lia|lia| |lia]. unfold names. by rewrite Eg, Ed, Ef.
  - apply Hnext. unfold names. rewrite Eg, Ed. congruence.
Qed.

(** ** Unwrapping *)

(** [body] unwraps to [plain] through [n] layers of snappy and blob references. *)
Inductive unwraps (files : list bytes) : nat → bytes → bytes → Prop :=
| unwraps_done body : bodyIsWrapped body = false → unwraps files 0 body body
| unwraps_snappy n c inner out payload :
    snappyDecode (c :: payload) = Some inner → inner ≠ [] → unwraps files n inner out →
    unwraps files (S n)
      (tokenVersion :: tokenRequiresProcessingSSVPseudoVersion :: tokenCompressedWithSnappy ::
        c :: payload) out
| unwraps_blob n size offset file inner out rest :
    0 <= size < two64 → 0 <= offset < two64 →
    files !! Z.to_nat offset = Some file → file ≠ [] → readFile file = Some inner →
    unwraps files n inner out →
    unwraps files (S n)
      (tokenVersion :: tokenRequiresProcessingSSVPseudoVersion :: tokenReplaceWithBlob ::
        PutUvarint size ++ PutUvarint offset ++ rest) out.

Lemma len_nonempty {A} (l : list A) : l ≠ [] → (len l =? 0) = false.
Proof. intros H%len_pos. apply Z.eqb_neq. lia. Qed.

(** A value wrapped in any number of layers is unwrapped completely: snappy data is
    decompressed and blob references are replaced with the file at their offset. *)
Theorem handleWrappedValues_unwraps files n body out fuel :
  unwraps files n body out → (n <= fuel)%nat → handleWrappedValues fuel body files = Ok out.
Proof.
  intros H. revert fuel.
  induction H as [body Hb|n c inner out payload Hs Hne H IH|n size off file inner out rest Hsz Hof Hf Hne Hr H IH];
    intros fuel Hn; (destruct fuel as [|fuel]; cbn [handleWrappedValues]; [try (lia || by rewrite Hb)|]).
  - by rewrite Hb.
  - cbn [bodyIsWrapped Byte.eqb]. change (negb _) with false. cbv iota.
    change (tokenCompressedWithSnappy =b tokenCompressedWithSnappy) with true. cbv iota.
    unfold snappyDecompress. rewrite Hs, len_nonempty by done.
    unfold mbind, res_bind; cbn [wrap]. apply IH. lia.
  - assert (Hw : bodyIsWrapped (tokenVersion :: tokenRequiresProcessingSSVPseudoVersion ::
      tokenReplaceWithBlob :: PutUvarint size ++ PutUvarint off ++ rest) = true).
    { pose proof (length_putUvarint_loop 10 size ltac:(lia)). unfold PutUvarint.
      destruct (putUvarint_loop 10 size); [cbn in *; lia|done]. }
    rewrite Hw. cbn [negb].
    change (tokenReplaceWithBlob =b tokenCompressedWithSnappy) with false. cbv iota.
    unfold replaceWithBlob, mbind at 3, mbind at 2, reader_bind, ctx.
    rewrite ReadUvarint_Put by done. cbn [wrap].
    rewrite ReadUvarint_Put by done. cbn [wrap]. rewrite Hf, len_nonempty, Hr by done.
    unfold mbind, res_bind; cbn. apply IH. lia.
Qed.

(** ** What the query finds *)

(** An entry of the database: the ids its key begins with, the rest of the key, the value as it is stored, and the
    value that was written.  Store 0 is that of the metadata. *)
Record entry := Entry { e_prefix : keyPrefix; e_user : bytes; e_stored : bytes; e_value : bytes }.

Definition e_key (e : entry) : bytes := encodeKeyPrefix (e_prefix e) ++ e_user e.

(** The blob files of the record with key [user]: none, or those its blob entry lists *)
Definition blobFiles (db : DB) (dbId st : Z) (tmp user : bytes) (files : list bytes) : Prop :=
  match Get db (blobKeyPrefix dbId st ++ user) with
  | inl raw => readExternalObjects raw dbId tmp = Ok files
  | inr _ => files = []
  end.

(** The value was written as it is, or its body in up to [fuel] layers of snappy and blob files *)
Definition wrappedAs (fuel : nat) (db : DB) (dbId st : Z) (tmp : bytes) (e : entry) : Prop :=
  ∃ header body inner files n, splitOnIndexeddbVersion (e_stored e) = Ok (header, body) ∧
    unwraps files n body inner ∧ (n <= fuel)%nat ∧ e_value e = header ++ inner ∧
    (n = 0%nat ∨ blobFiles db dbId st tmp (e_user e) files).

Lemma unwraps_wrapped files n body out : unwraps files n body out → bodyIsWrapped body = false → body = out.
Proof.
  destruct 1 as [|n c inner out payload Hs Hne H|n size off file inner out rest Hsz Hof Hf Hne Hr H]; [done|discriminate|].
  pose proof (length_putUvarint_loop 10 size ltac:(lia)) as Hl. unfold PutUvarint.
  destruct (putUvarint_loop 10 size); [cbn in *; lia|discriminate].
Qed.

Lemma rowOf_spec fuel db dbId st tmp kp e key :
  key = kp ++ e_user e → wrappedAs fuel db dbId st tmp e →
  rowOf fuel db dbId tmp kp (blobKeyPrefix dbId st) key (e_stored e) = Ok (Some (row (e_value e))).
Proof.
  intros -> (header & body & inner & files & n & Es & Hu & Hn & Ev & Hf). unfold rowOf. rewrite has_prefix_app, Es.
  cbn [negb mbind res_bind]. destruct (bodyIsWrapped body) eqn:Eb; cbn [negb].
  - assert (trim_prefix kp (kp ++ e_user e) = e_user e) as ->.
    { unfold trim_prefix. by rewrite has_prefix_app, drop_app_length. }
    assert (n ≠ 0%nat) as Hn0 by (intros ->; inversion Hu; congruence). destruct Hf as [|Hf]; [done|]. unfold blobFiles in Hf.
    assert (match Get db (blobKeyPrefix dbId st ++ e_user e) with
            | inr _ => Ok [] | inl raw => match readExternalObjects raw dbId tmp with Err _ => Ok [] | r => r end end = Ok files) as ->.
    { destruct (Get _ _) as [raw|]; [by rewrite Hf|by rewrite Hf]. }
    cbn [mbind res_bind]. rewrite (handleWrappedValues_unwraps files n body inner fuel Hu Hn). by rewrite Ev.
  - apply unwraps_wrapped in Hu as <-; [|done]. do 3 f_equal. rewrite Ev.
    destruct (splitOnIndexeddbVersion_Ok (e_stored e)) as (h' & b' & Es' & ->). rewrite Es in Es'. by injection Es' as -> ->.
Qed.

Lemma rowOf_other fuel db dbId tmp kp bp key value :
  has_prefix kp key = false → rowOf fuel db dbId tmp kp bp key value = Ok None.
Proof. intros H. unfold rowOf. by rewrite H. Qed.

(** [st] is the first object store of the database with that name. *)
Definition isStore (db : DB) (dbId : Z) (name : bytes) (st : Z) : Prop :=
  let named j := ∃ raw, Get db (objectStoreNameKey dbId j) = inl raw ∧ decodeUtf16BigEndianBytes raw = Some name in
  1 <= st ∧ named st ∧ ∀ j, 1 <= j < st → ¬ named j.

Lemma isStore_found db dbId name st n :
  isStore db dbId name st → st <= Z.of_nat n → findObjectStore db dbId name n 1 = st.
Proof.
  intros (Hst & (raw & Hg & Hd) & Hfirst) Hn.
  pose proof (findObjectStore_first db dbId name n 1) as H. cbv zeta in H. destruct H as [[_ H]|(Hr & Hr1 & H)]; [lia|..].
  - exfalso. apply (H st); [lia|]. by rewrite Hg.
  - set (r := findObjectStore _ _ _ _ _) in *. destruct (Z.lt_trichotomy r st) as [Hlt|[->|Hgt]]; [|done|].
    + exfalso. apply (Hfirst r); [lia|]. destruct (Get db (objectStoreNameKey dbId r)) as [raw'|] eqn:E; [|done]. by exists raw'.
    + exfalso. apply (H st); [lia|]. by rewrite Hg.
Qed.

(** C37: On a database with an id below 128, the query for a store that is among its first 100 returns exactly the
    values written to it, in the order of the iterator, and the error of the iterator: nothing of another
    store, index or database and no metadata is taken for a record, and no record is missed.  Values may be wrapped in
    up to [fuel] layers of snappy and blob files that can be read.  ([large_database_ids_missed] has a larger id.) *)
Theorem query_finds_exactly fuel db loc tmp dbName storeName idKey dbId st recs :
  databaseIdKey loc dbName = Ok idKey →
  Get db idKey = inl (PutUvarint dbId) → 0 <= dbId < 128 →
  isStore db dbId storeName st → st <= 100 →
  entries db = map (λ e, (e_key e, e_stored e)) recs →
  Forall (λ e, wf_prefix (e_prefix e) ∧
    (e_prefix e = KeyPrefix dbId st IdbComparer.objectStoreDataIndexId → wrappedAs fuel db dbId st tmp e)) recs →
  queryObjectStore fuel db loc tmp dbName storeName =
    Ok (map (λ e, row (e_value e))
          (filter (λ e, e_prefix e = KeyPrefix dbId st IdbComparer.objectStoreDataIndexId) recs),
        Wrapf "iterator error: %w" <$> iterError db).
Proof.
  intros Ek Ed Hd Hst Hst' Ee Hrec. pose proof Hst as [Hst1 _].
  unfold queryObjectStore. rewrite Ek. unfold mbind, res_bind; cbn [wrap]. rewrite Ed, Uvarint_small by done.
  unfold maxNumberOfObjectStoresToCheck. rewrite (isStore_found db dbId storeName st 100 Hst ltac:(lia)).
  assert ((st =? 0) = false) as -> by (apply Z.eqb_neq; lia). rewrite Ee.
  assert (E : scan (rowOf fuel db dbId tmp (objectDataKeyPrefix dbId st) (blobKeyPrefix dbId st))
      (map (λ e, (e_key e, e_stored e)) recs) =
    Ok (map (λ e, row (e_value e)) (filter (λ e, e_prefix e = KeyPrefix dbId st IdbComparer.objectStoreDataIndexId) recs)));
    [|by rewrite E].
  clear Ee. induction Hrec as [|e recs [Hw Hv] Hrec IH]; [done|]. cbn [map scan].
  pose proof (data_prefix_spec dbId st (e_prefix e) (e_user e) Hd ltac:(lia) Hw) as Hp. fold (e_key e) in Hp.
  case_bool_decide as He.
  - rewrite filter_cons_True by done.
    rewrite (rowOf_spec fuel db dbId st tmp (objectDataKeyPrefix dbId st) e (e_key e)); [|  |by apply Hv].
    + unfold mbind, res_bind in *. by rewrite IH.
    + unfold e_key. rewrite He. f_equal. symmetry. exact (prefix_small dbId st 1 Hd ltac:(lia) ltac:(lia)).
  - rewrite filter_cons_False by done. rewrite (rowOf_other fuel db dbId tmp _ _ _ _ Hp). unfold mbind, res_bind in *. by rewrite IH.
Qed.

(** ** External objects *)

(** The list of external objects of a record; strings are given as their UTF-16 bytes *)
Inductive ExternalObject : Type :=
| Blob (num : Z) (mime : bytes) (size : Z)
| File (num : Z) (mime : bytes) (size : Z) (name : bytes) (modified : Z)
| AccessHandle (token : bytes).

Definition ser_string (s : bytes) : bytes := PutUvarint (len s / 2) ++ s.
Definition ser_external (o : ExternalObject) : bytes :=
  match o with
  | Blob num mime size =>
      externalObjectTypeBlob :: PutUvarint num ++ ser_string mime ++ PutUvarint size
  | File num mime size name modified =>
      externalObjectTypeFile :: PutUvarint num ++ ser_string mime ++ PutUvarint size ++
      ser_string name ++ PutUvarint modified
  | AccessHandle token =>
      externalObjectTypeFileSystemAccessHandle :: PutUvarint (len token) ++ token
  end.

Definition path_of (dbId : Z) (root : bytes) (o : ExternalObject) : bytes :=
  match o with
  | Blob num _ _ | File num _ _ _ _ => filepathForBlob num dbId root
  | AccessHandle _ => []
  end.

Definition wf_string (s : bytes) : Prop :=
  len s < two63 ∧ len s mod 2 = 0 ∧ is_Some (utf16BEDecode s).
Definition wf_external (o : ExternalObject) : Prop :=
  match o with
  | Blob num mime size => 0 <= num < two64 ∧ wf_string mime ∧ 0 <= size < two64
  | File num mime size name modified =>
      0 <= num < two64 ∧ wf_string mime ∧ 0 <= size < two64 ∧ wf_string name ∧ 0 <= modified < two64
  | AccessHandle token => len token < two63
  end.

Lemma bind_run {A B} (m : Reader A) (f : A → Reader B) r a r' :
  m r = (Ok a, r') → (m ≫= f) r = f a r'.
Proof. intros E. unfold mbind, reader_bind. by rewrite E. Qed.

Lemma ctx_run {A B} msg (m : Reader A) (f : A → Reader B) r a r' :
  m r = (Ok a, r') → (ctx msg m ≫= f) r = f a r'.
Proof. intros E. apply bind_run. unfold ctx. by rewrite E. Qed.

Lemma readStringWithLength_ser s r :
  wf_string s → ∃ d, readStringWithLength (ser_string s ++ r) = (Ok d, r).
Proof.
  intros (Hl & He & [d Hd]). exists d. pose proof (len_nonneg s). unfold readStringWithLength, ser_string.
  assert (Hs : len s / 2 * 2 = len s) by (Z.to_euclidean_division_equations; lia).
  rewrite <- app_assoc. erewrite ctx_run by (apply ReadUvarint_Put; unfold two63, two64 in *; lia).
  rewrite Hs, to_uint64_small by (unfold two63, two64 in *; lia). cbv zeta.
  erewrite bind_run by reflexivity. pose proof (len_nonneg r).
  assert ((len (s ++ r) <? len s) = false) as -> by (apply Z.ltb_ge; rewrite len_app; lia).
  erewrite ctx_run by apply ReadBytes_app. by rewrite Hd.
Qed.

Lemma readExternalObject_ser dbId root o r :
  wf_external o → ∃ t body, ser_external o = t :: body ∧
    isType t [externalObjectTypeBlob; externalObjectTypeFile; externalObjectTypeFileSystemAccessHandle] = true ∧
    readExternalObject t dbId root (body ++ r) = (Ok [path_of dbId root o], r).
Proof.
  destruct o as [num mime size|num mime size name md|token]; cbn [wf_external ser_external path_of];
    intros H; eexists _, _; (split; [done|]); (split; [done|]); unfold readExternalObject.
  - destruct H as (Hn & Hm & Hs). change (isType _ _) with true. cbv iota. rewrite <- !app_assoc.
    erewrite ctx_run by (by apply ReadUvarint_Put).
    destruct (readStringWithLength_ser mime (PutUvarint size ++ r) Hm) as [d Ed].
    erewrite ctx_run by exact Ed. erewrite ctx_run by (by apply ReadUvarint_Put).
    by erewrite bind_run by reflexivity.
  - destruct H as (Hn & Hm & Hs & Hna & Hmd). change (isType _ _) with true. cbv iota. rewrite <- !app_assoc.
    erewrite ctx_run by (by apply ReadUvarint_Put).
    destruct (readStringWithLength_ser mime (PutUvarint size ++ ser_string name ++ PutUvarint md ++ r) Hm) as [d Ed].
    erewrite ctx_run by exact Ed. erewrite ctx_run by (by apply ReadUvarint_Put).
    change (externalObjectTypeFile =b externalObjectTypeFile) with true. cbv iota.
    destruct (readStringWithLength_ser name (PutUvarint md ++ r) Hna) as [d' Ed'].
    erewrite bind_run; [done|]. erewrite ctx_run by exact Ed'.
    by erewrite ctx_run by (by apply ReadUvarint_Put).
  - change (isType _ [externalObjectTypeBlob; externalObjectTypeFile]) with false. cbv iota.
    pose proof (len_nonneg token). pose proof (len_nonneg r). rewrite <- app_assoc.
    erewrite ctx_run by (apply ReadUvarint_Put; unfold two63, two64 in *; lia).
    erewrite bind_run by reflexivity.
    assert ((len (token ++ r) <? len token) = false) as -> by (apply Z.ltb_ge; rewrite len_app; lia).
    by erewrite ctx_run by apply ReadBytes_app.
Qed.

Lemma readExternalObjects_loop_ser dbId root objs : ∀ fuel acc,
  Forall wf_external objs → (length (flat_map ser_external objs) < fuel)%nat →
  readExternalObjects_loop fuel dbId root acc (flat_map ser_external objs) =
    (Ok (acc ++ map (path_of dbId root) objs), []).
Proof.
  induction objs as [|o objs IH]; intros fuel acc Hall Hf; (destruct fuel as [|fuel]; [lia|]).
  { cbn. by rewrite app_nil_r. }
  apply Forall_cons in Hall as [Ho Hall]. cbn [flat_map] in *.
  destruct (readExternalObject_ser dbId root o (flat_map ser_external objs) Ho) as (t & b & Es & Et & Er).
  rewrite Es in Hf |- *. cbn [app length readExternalObjects_loop] in *.
  erewrite bind_run by reflexivity. cbv beta iota. rewrite Et. cbn [negb].
  erewrite bind_run by exact Er. rewrite IH by (done || (rewrite length_app in Hf; lia)).
  by rewrite <- app_assoc.
Qed.

(** Reading the serialized list of external objects yields one path per object, in order:
    the blob file of each blob and file, and an empty path for each file-system handle. *)
Theorem readExternalObjects_roundtrip dbId root objs :
  Forall wf_external objs →
  readExternalObjects (flat_map ser_external objs) dbId root = Ok (map (path_of dbId root) objs).
Proof.
  intros H. unfold readExternalObjects. by rewrite readExternalObjects_loop_ser by (done || lia).
Qed.

Ltac sure := repeat first
  [ solve [auto with launcher]
  | apply sure_ctx
  | apply sure_bind; [|intros]
  | match goal with |- sure (if ?b then _ else _) _ => destruct b end
  | match goal with |- sure (match ?x with _ => _ end) _ => destruct x end ].

Lemma sure_readStringWithLength r : sure readStringWithLength r.
Proof. unfold readStringWithLength. sure. Qed.

#[local] Hint Resolve sure_readStringWithLength : launcher.

Lemma sure_readExternalObject t dbId root r : sure (readExternalObject t dbId root) r.
Proof. unfold readExternalObject. sure. Qed.

Lemma sure_readExternalObjects_loop dbId root fuel : ∀ acc r,
  (length r < fuel)%nat → sure (readExternalObjects_loop fuel dbId root acc) r.
Proof.
  induction fuel as [|fuel IH]; intros acc r Hf; [lia|]. cbn [readExternalObjects_loop].
  apply sure_bind; [auto with launcher|]. intros [b|e] r' E S; [|auto with launcher].
  assert (length r' < length r)%nat by (destruct r; cbn in E; simplify_eq; cbn; lia).
  destruct (negb _); [auto with launcher|]. apply sure_bind; [apply sure_readExternalObject|].
  intros p r'' _ S'%suffix_len. apply IH. lia.
Qed.

(** [readExternalObjects] returns paths or an error on every input: declared lengths are
    checked against the input before anything is read, so nothing panics, and it ends. *)
Theorem readExternalObjects_total dbId root value : returns (readExternalObjects value dbId root).
Proof. apply sure_readExternalObjects_loop. lia. Qed.
End Lib2.

(** ** Where the query goes wrong *)

(** From database id 128 on, the prefix the launcher scans for is not the one of the
    records: the id is written as a varint, where Chromium writes its bytes after a length
    tag.  Records keyed by numbers in database 200 are not found. *)
Theorem large_database_ids_missed :
  ∃ k, wf_dbKey (DataKey (KeyPrefix 200 1 1) k) ∧
    has_prefix (objectDataKeyPrefix 200 1) (encode_dbKey (DataKey (KeyPrefix 200 1 1) k)) = false.
Proof.
  exists (KNumber 0). split; [|reflexivity].
  split; [vm_compute; repeat split; discriminate|]. split; [by left|]. vm_compute. repeat split; discriminate.
Qed.

Definition loop_body : bytes :=
  [tokenVersion; tokenRequiresProcessingSSVPseudoVersion; tokenReplaceWithBlob; x05; x00].
Definition loopLib : ChromeLib := {|
  utf16BEEncode s := Some s; utf16BEDecode s := Some s; snappyDecode _ := None;
  readFile _ := Some loop_body; pathBase s := s; pathJoin l := concat l
|}.

(** Nothing bounds the unwrapping: a blob file that holds a wrapped reference to itself
    keeps the loop going for ever. *)
Theorem self_reference_never_ends fuel :
  @handleWrappedValues loopLib fuel loop_body [bs "blob"] = NoFuel.
Proof. induction fuel as [|fuel IH]; [reflexivity|exact IH]. Qed.

(** ** Witnesses *)
Definition exampleLib : ChromeLib := {|
  utf16BEEncode s := Some (flat_map (λ b, [x00; b]) s);
  utf16BEDecode s := Some s;
  snappyDecode s := match s with [] => None | _ :: s' => Some s' end;
  readFile s := if bool_decide (s = bs "b") then Some [xff; x11; x02; x2a; x01; x02] else None;
  pathBase s := s; pathJoin l := concat l
|}.

(** A database with metadata, a store with a plain and a compressed record, and a record of another store *)
Definition example_entries : list entry := [
  Entry (KeyPrefix 0 0 0) [x00] [x05] [x05];
  Entry (KeyPrefix 0 0 0) (drop 4 (match @databaseIdKey exampleLib (bs "loc") (bs "db") with Ok k => k | _ => [] end)) (PutUvarint 3) (PutUvarint 3);
  Entry (KeyPrefix 3 0 0) (drop 4 (objectStoreNameKey 3 1)) (bs "store") (bs "store");
  Entry (KeyPrefix 3 1 1) [x03; x00] [x01; x02] [x01; x02];
  Entry (KeyPrefix 3 1 1) [x03; x01] [x07; xff; x11; x02; x2a; x01; x02] [x07; x01; x02];
  Entry (KeyPrefix 3 1 2) [x03; x00] [x01] [x01];
  Entry (KeyPrefix 3 2 1) [x03; x00] [x03] [x03]].

Definition example_db : DB := MkDB
  (λ k, match list_find (λ e, e_key e = k) example_entries with Some (_, e) => inl (e_stored e) | None => inr ErrNotFound end)
  (map (λ e, (e_key e, e_stored e)) example_entries) None.

Lemma query_finds_exactly_witness :
  @queryObjectStore exampleLib 5 example_db (bs "loc") (bs "tmp") (bs "db") (bs "store") =
    Ok ([row [x01; x02]; row [x07; x01; x02]], None).
Proof.
  rewrite (@query_finds_exactly exampleLib 5 example_db (bs "loc") (bs "tmp") (bs "db") (bs "store")
    (match @databaseIdKey exampleLib (bs "loc") (bs "db") with Ok k => k | _ => [] end) 3 1 example_entries);
    [vm_compute; reflexivity|vm_compute; reflexivity|vm_compute; reflexivity|done| |done|reflexivity|].
  - split; [done|]. split; [exists (bs "store"); split; vm_compute; reflexivity|lia].
  - repeat constructor; try (vm_compute; discriminate); intros E; try discriminate E.
    + exists [x01], [x02], [x02], [], 0%nat. split_and!; [vm_compute; reflexivity|by constructor|lia|done|by left].
    + exists [x07], [xff; x11; x02; x2a; x01; x02], [x01; x02], [], 1%nat. split_and!; [vm_compute; reflexivity| |lia|done|].
      * by apply (@unwraps_snappy exampleLib [] 0 x2a [x01; x02] [x01; x02] [x01; x02]), unwraps_done.
      * right. vm_compute. reflexivity.
Defined.

Lemma findObjectStore_first_witness :
  (@findObjectStore exampleLib example_db 3 (bs "store") 100 1 = 1).
Proof.
  destruct (@findObjectStore_first exampleLib example_db 3 (bs "store") 100 1 ltac:(done))
    as [[E _]|(_ & E & _)]; vm_compute in E |- *; [discriminate E|reflexivity].
Defined.

Lemma handleWrappedValues_unwraps_witness :
  @handleWrappedValues exampleLib 2 [xff; x11; x01; x09; x01; x00] [bs "a"; bs "b"] = Ok [x01; x02].
Proof.
  apply (@handleWrappedValues_unwraps exampleLib _ 2); [|lia].
  apply (@unwraps_blob exampleLib _ 1 9 1 (bs "b") [xff; x11; x02; x2a; x01; x02] _ [x00]); try done.
  by apply (@unwraps_snappy exampleLib _ 0 x2a [x01; x02] _ [x01; x02]), unwraps_done.
Defined.

Lemma readExternalObjects_roundtrip_witness :
  @readExternalObjects exampleLib (flat_map ser_external
    [Blob 5 [x00; x61] 10; AccessHandle [x07]; File 300 [] 1 [x00; x62] 2]) 3 (bs "root") =
  Ok [bs "root3005"; []; bs "root30112c"].
Proof.
  rewrite (@readExternalObjects_roundtrip exampleLib); [reflexivity|].
  repeat constructor; try done; by eexists.
Defined.
End Query.
