(* ===== verification/KVStore.v ===== *)
(** * ee/agent/types and ee/agent/storage/inmemory: key/value stores

    [KVStore] is the interface the rest of the launcher is written against
    (types.GetterSetterDeleterIterator), with the promises of its doc comments as laws;
    [InMemory] is the in-memory implementation, which keeps them. *)
From S2P Require Import Prelude.
Set Warnings "-clear-no-such-hyp".

(** ** The interface *)

(** An operation that changes the store returns the new store and its error. *)
Class KVStore (S : Type) := {
  kv_Get : S → bytes → res (option bytes);             (* nil when the key does not exist *)
  kv_Set : bytes → bytes → S → S * option err;
  kv_Delete : list bytes → S → S * option err;
  kv_entries : S → res (list (bytes * bytes))          (* what [ForEach] iterates over *)
}.

(** [ForEach(fn)]: [fn] works on a state of its own, its first error stops the iteration *)
Fixpoint forEach {A} (fn : bytes → bytes → A → A * option err) (l : list (bytes * bytes)) (a : A)
    : A * option err :=
  match l with
  | [] => (a, None)
  | (k, v) :: l' =>
      match fn k v a with
      | (a, Some e) => (a, Some e)
      | (a, None) => forEach fn l' a
      end
  end.

Definition kv_ForEach {S A} `{KVStore S} (fn : bytes → bytes → A → A * option err) (s : S) (a : A)
    : A * option err :=
  match kv_entries s with
  | Ok l => forEach fn l a
  | Err e => (a, Some e)
  | Panic | NoFuel => (a, Some (Errorf "panic"))
  end.

(** The promises: a store in order ([kv_ok]) behaves as a map and stays in order; an
    operation that fails changes nothing. *)
Class KVLaws (S : Type) `{KVStore S} := {
  kv_ok : S → Prop;
  kv_view : S → gmap bytes bytes;
  kv_Get_spec s k : kv_ok s → kv_Get s k = Ok (kv_view s !! k) ∨ ∃ e, kv_Get s k = Err e;
  kv_Set_spec k v s :
    kv_ok s → kv_ok (kv_Set k v s).1 ∧
    kv_view (kv_Set k v s).1 =
      match (kv_Set k v s).2 with None => <[k := v]> (kv_view s) | Some _ => kv_view s end;
  kv_Delete_spec ks s :
    kv_ok s → kv_ok (kv_Delete ks s).1 ∧
    kv_view (kv_Delete ks s).1 =
      match (kv_Delete ks s).2 with None => foldl (flip delete) (kv_view s) ks | Some _ => kv_view s end;
  kv_entries_spec s :
    kv_ok s → (∃ l, kv_entries s = Ok l ∧ l ≡ₚ map_to_list (kv_view s)) ∨ ∃ e, kv_entries s = Err e
}.

(** A store that never fails to write under a key that is not blank *)
Class KVReliable (S : Type) `{KVLaws S} := {
  kv_Set_reliable k v s : kv_ok s → k ≠ [] → (kv_Set k v s).2 = None;
  kv_Get_reliable s k : kv_ok s → kv_Get s k = Ok (kv_view s !! k)
}.

(** The two operations log buffers use besides (types.Appender, types.Counter) *)
Class KVAppend (S : Type) `{KVStore S} := {
  kv_AppendValues : list bytes → S → S * option err;
  kv_Count : S → res Z
}.

(** A store used as a log: what is appended comes last and nothing else moves.  [log_ok s n]:
    the store is in order and has room for [n] more values; [log_fits v]: it can store [v]. *)
Class KVLogLaws (S : Type) `{KVAppend S} := {
  log_ok : S → nat → Prop;
  log_fits : bytes → Prop;
  log_view : S → list (bytes * bytes);
  log_less s n : log_ok s (Datatypes.S n) → log_ok s n;
  log_entries_spec s n : log_ok s n → kv_entries s = Ok (log_view s);
  log_keys s n : log_ok s n → NoDup (log_view s).*1 ∧ [] ∉ (log_view s).*1;
  log_append v s n :
    log_ok s (Datatypes.S n) → log_fits v →
    log_ok (kv_AppendValues [v] s).1 n ∧ (kv_AppendValues [v] s).2 = None ∧
    ∃ k, log_view (kv_AppendValues [v] s).1 = log_view s ++ [(k, v)];
  log_delete ks s n :
    log_ok s n →
    log_ok (kv_Delete ks s).1 n ∧ (kv_Delete ks s).2 = None ∧
    log_view (kv_Delete ks s).1 = filter (λ kv, kv.1 ∉ ks) (log_view s);
  log_count s n : log_ok s n → kv_Count s = Ok (len (log_view s))
}.

(** A store on a healthy disk: reads succeed, and writes of what it can hold *)
Class KVHealthy (S : Type) `{KVLaws S} := {
  kv_fits : bytes → bytes → Prop;
  kv_Set_healthy k v s : kv_ok s → kv_fits k v → (kv_Set k v s).2 = None;
  kv_Get_healthy s k : kv_ok s → kv_Get s k = Ok (kv_view s !! k)
}.

(** types.DeleteAll ([DeleteAll] empties the store, or fails and changes nothing) *)
Class KVWipe (S : Type) `{KVStore S} := { kv_DeleteAll : S → S * option err }.
Class KVWipeLaws (S : Type) `{KVLaws S, !KVWipe S} := {
  kv_DeleteAll_spec s :
    kv_ok s → kv_ok (kv_DeleteAll s).1 ∧
    kv_view (kv_DeleteAll s).1 =
      match (kv_DeleteAll s).2 with None => ∅ | Some _ => kv_view s end
}.

(** ** The in-memory store *)
Module InMemory.

Record t := Store {
  items : gmap bytes bytes;
  order : list bytes;
  sequence : Z   (* uint64 *)
}.

(** A nil store answers every operation with an error. *)
Definition store : Type := option t.
Definition nil_err : err := Errorf "store is nil".

Definition NewStore : store := Some (Store ∅ [] 0).

Definition Get (s : store) (key : bytes) : res (option bytes) :=
  match s with
  | None => Err nil_err
  | Some s => Ok (items s !! key)
  end.

Definition Set_ (key value : bytes) (s : store) : store * option err :=
  match s with
  | None => (s, Some nil_err)
  | Some st =>
      if bool_decide (key = []) then (s, Some (Errorf "key is blank"))
      else
        let order' := match items st !! key with None => order st ++ [key] | Some _ => order st end in
        (Some (Store (<[key := value]> (items st)) order' (sequence st)), None)
  end.

(** The first occurrence of the key is cut out of [order] *)
Fixpoint remove_first (key : bytes) (l : list bytes) : list bytes :=
  match l with
  | [] => []
  | k :: l' => if bool_decide (k = key) then l' else k :: remove_first key l'
  end.

Definition delete_key (st : t) (key : bytes) : t :=
  Store (delete key (items st)) (remove_first key (order st)) (sequence st).

Definition Delete (keys : list bytes) (s : store) : store * option err :=
  match s with
  | None => (s, Some nil_err)
  | Some st => (Some (foldl delete_key st keys), None)
  end.

Definition DeleteAll (s : store) : store * option err :=
  match s with
  | None => (s, Some nil_err)
  | Some st => (Some (Store ∅ [] (sequence st)), None)
  end.

(** [ForEach] visits the keys in [order]; [s.items[key]] of a missing key is nil *)
Definition entries (s : store) : res (list (bytes * bytes)) :=
  match s with
  | None => Err nil_err
  | Some st => Ok (map (λ k, (k, default [] (items st !! k))) (order st))
  end.

Definition Count (s : store) : res Z :=
  match s with
  | None => Panic    (* s.mu of a nil store *)
  | Some st => Ok (Z.of_nat (size (items st)))
  end.

(** [Update]: Go visits the pairs and the items in no particular order; [pairs] is the order
    of the first loop, and [visit] picks the order of the second. *)
Fixpoint Update_set (pairs : list (bytes * bytes)) (s : store) : store * option err :=
  match pairs with
  | [] => (s, None)
  | (key, value) :: pairs' =>
      if bool_decide (key = []) then (s, Some (Errorf "key is blank"))
      else Update_set pairs' (Set_ key value s).1
  end.

Fixpoint Update_prune (keep : list bytes) (keys : list bytes) (s : store) (deletedKeys : list bytes)
    : store * list bytes :=
  match keys with
  | [] => (s, deletedKeys)
  | key :: keys' =>
      if bool_decide (key ∈ keep) then Update_prune keep keys' s deletedKeys
      else Update_prune keep keys' (Delete [key] s).1 (deletedKeys ++ [key])
  end.

Definition Update (visit : list bytes → list bytes) (pairs : list (bytes * bytes)) (s : store)
    : store * res (list bytes) :=
  match s with
  | None => (s, Err nil_err)
  | Some _ =>
      match Update_set pairs s with
      | (s', Some e) => (s', Err e)
      | (s', None) =>
          let keys := match s' with Some st => (map_to_list (items st)).*1 | None => [] end in
          let '(s'', deletedKeys) := Update_prune (pairs.*1) (visit keys) s' [] in
          (s'', Ok deletedKeys)
      end
  end.

(** [binary.BigEndian.PutUint64] *)
Definition be8 (z : Z) : bytes := reverse (le_bytes 8 z).

Definition nextSequenceKey (st : t) : t * bytes :=
  let n := to_uint64 (sequence st + 1) in
  (Store (items st) (order st) n, be8 n).

Fixpoint AppendValues_loop (values : list bytes) (st : t) : t :=
  match values with
  | [] => st
  | value :: values' =>
      let '(st, key) := nextSequenceKey st in
      match (Set_ key value (Some st)).1 with
      | Some st => AppendValues_loop values' st
      | None => st
      end
  end.

Definition AppendValues (values : list bytes) (s : store) : store * option err :=
  match s with
  | None => (s, Some (Errorf "unable to append values into uninitialized inmemory db store"))
  | Some st => (Some (AppendValues_loop values st), None)
  end.

#[global] Instance inMemoryKeyValueStore : KVStore store := {
  kv_Get := Get; kv_Set := Set_; kv_Delete := Delete; kv_entries := entries
}.

(** ** The invariant: [order] lists the keys of [items], each once *)
Record wf (st : t) : Prop := {
  wf_nodup : NoDup (order st);
  wf_keys : ∀ k, k ∈ order st ↔ is_Some (items st !! k);
  wf_blank : items st !! [] = None
}.

Definition wf_store (s : store) : Prop := match s with Some st => wf st | None => False end.

Lemma wf_empty n : wf (Store ∅ [] n).
Proof.
  constructor; cbn; [constructor| |done]. intros k. rewrite lookup_empty. split; [|by intros [? ?]].
  by intros ?%elem_of_nil.
Qed.

Lemma wf_NewStore : wf_store NewStore.
Proof. apply wf_empty. Qed.

Lemma wf_Set key value s : wf_store s → wf_store (Set_ key value s).1.
Proof.
  destruct s as [st|]; [|done]. intros [Hn Hk Hb]. cbn [Set_ wf_store].
  case_bool_decide as Ek; [by constructor|]. cbn [fst].
  assert (Hb' : <[key:=value]> (items st) !! [] = None) by (by rewrite lookup_insert_ne).
  assert (Hkeys : ∀ k, is_Some (<[key:=value]> (items st) !! k) ↔ k = key ∨ is_Some (items st !! k)).
  { intros k. rewrite lookup_insert_is_Some. split; [|destruct (decide (key = k)); naive_solver].
    intros [->|[? ?]]; auto. }
  destruct (items st !! key) as [v|] eqn:E; constructor; cbn [order items]; try done.
  - intros k. rewrite Hkeys, Hk. split; [auto|]. intros [->|?]; [by rewrite E|done].
  - apply NoDup_app. split_and!; [done| |apply NoDup_singleton].
    intros k Hin ->%list_elem_of_singleton. apply Hk in Hin as [? ?]. congruence.
  - intros k. rewrite elem_of_app, list_elem_of_singleton, Hkeys, Hk. tauto.
Qed.

Lemma remove_first_spec key l :
  NoDup l → NoDup (remove_first key l) ∧ ∀ k, k ∈ remove_first key l ↔ k ≠ key ∧ k ∈ l.
Proof.
  induction 1 as [|x l Hx Hl [IH1 IH2]]; cbn [remove_first].
  { split; [constructor|]. intros k. rewrite !elem_of_nil. tauto. }
  case_bool_decide as E.
  - subst. split; [done|]. intros k. rewrite elem_of_cons. split; [|tauto].
    intros Hk. split; [by intros ->|auto].
  - split.
    + constructor; [|done]. rewrite IH2. tauto.
    + intros k. rewrite !elem_of_cons, IH2. naive_solver.
Qed.

Lemma wf_delete_key st key : wf st → wf (delete_key st key).
Proof.
  intros [Hn Hk Hb]. destruct (remove_first_spec key (order st) Hn) as [H1 H2].
  constructor; cbn [order items delete_key]; [done| |].
  - intros k. rewrite H2, Hk, lookup_delete_is_Some. naive_solver.
  - by rewrite lookup_delete_None, Hb; right.
Qed.

Lemma wf_delete_keys keys : ∀ st, wf st → wf (foldl delete_key st keys).
Proof. induction keys; intros st H; cbn [foldl]; auto using wf_delete_key. Qed.

Lemma wf_Delete keys s : wf_store s → wf_store (Delete keys s).1.
Proof. destruct s; [|done]. apply wf_delete_keys. Qed.
Lemma wf_Update_set pairs : ∀ s, wf_store s → wf_store (Update_set pairs s).1.
Proof.
  induction pairs as [|[k v] pairs IH]; intros s H; cbn [Update_set]; [done|].
  case_bool_decide; [done|]. by apply IH, wf_Set.
Qed.

Lemma wf_Update_prune keep keys : ∀ s del, wf_store s → wf_store (Update_prune keep keys s del).1.
Proof.
  induction keys as [|k keys IH]; intros s del H; cbn [Update_prune]; [done|].
  case_bool_decide; [by apply IH|]. by apply IH, (wf_Delete [k]).
Qed.

Lemma wf_Update visit pairs s : wf_store s → wf_store (Update visit pairs s).1.
Proof.
  intros H. destruct s as [st|]; [|done]. cbn [Update].
  pose proof (wf_Update_set pairs (Some st) H) as H'.
  destruct (Update_set pairs (Some st)) as [s' [e|]]; [done|].
  pose proof (wf_Update_prune (pairs.*1) (visit match s' with Some st => (map_to_list (items st)).*1 | None => [] end)
    s' [] H') as H''.
  by destruct (Update_prune _ _ s' []).
Qed.

Lemma wf_nextSequenceKey st : wf st → wf (nextSequenceKey st).1.
Proof. by intros [H1 H2 H3]. Qed.

Lemma wf_AppendValues_loop values : ∀ st, wf st → wf (AppendValues_loop values st).
Proof.
  induction values as [|v values IH]; intros st H; cbn [AppendValues_loop]; [done|].
  pose proof (wf_Set (nextSequenceKey st).2 v (Some (nextSequenceKey st).1) (wf_nextSequenceKey st H)) as H'.
  destruct (nextSequenceKey st) as [st' key]. cbn [fst snd] in H'.
  pose proof (wf_nextSequenceKey st H).
  destruct (Set_ key v (Some st')).1 as [st''|] eqn:E; [by apply IH|].
  cbn [Set_] in E. by case_bool_decide.
Qed.

(** The operations that change the store *)
Inductive op : Type :=
| OSet (key value : bytes)
| ODelete (keys : list bytes)
| ODeleteAll
| OUpdate (visit : list bytes → list bytes) (pairs : list (bytes * bytes))
| OAppend (values : list bytes).

Definition apply_op (s : store) (o : op) : store :=
  match o with
  | OSet k v => (Set_ k v s).1
  | ODelete ks => (Delete ks s).1
  | ODeleteAll => (DeleteAll s).1
  | OUpdate visit pairs => (Update visit pairs s).1
  | OAppend vs => (AppendValues vs s).1
  end.

Lemma wf_apply_op s o : wf_store s → wf_store (apply_op s o).
Proof.
  intros H. destruct o; cbn [apply_op];
    [by apply wf_Set|by apply wf_Delete| |by apply wf_Update|].
  - destruct s; [apply wf_empty|done].
  - destruct s as [st|]; [|done]. by apply wf_AppendValues_loop.
Qed.

(** C38: After any sequence of operations on a new store, its insertion order lists exactly the
    keys of its items, each of them once, and no key is blank; so [ForEach] visits every
    entry once and [Count] is the number of visits. *)
Theorem order_invariant ops st :
  foldl apply_op NewStore ops = Some st →
  NoDup (order st) ∧ (∀ k, k ∈ order st ↔ is_Some (items st !! k)) ∧ items st !! [] = None ∧
  Count (Some st) = Ok (len (order st)).
Proof.
  assert (H : ∀ s, wf_store s → wf_store (foldl apply_op s ops)).
  { induction ops as [|o ops IH]; intros s Hs; cbn [foldl]; auto using wf_apply_op. }
  intros E. specialize (H NewStore wf_NewStore). rewrite E in H. destruct H as [H1 H2 H3].
  split_and!; try done. unfold Count, len. do 2 f_equal.
  rewrite <- (size_dom (D := gset bytes)). rewrite <- (size_list_to_set (C := gset bytes)) by done.
  f_equal. apply leibniz_equiv. intros k. by rewrite elem_of_dom, elem_of_list_to_set, H2.
Qed.

Lemma lookup_entries st :
  wf st → map (λ k, (k, default [] (items st !! k))) (order st) ≡ₚ map_to_list (items st).
Proof.
  intros [H1 H2 _]. apply NoDup_Permutation.
  - apply NoDup_fmap; [|done]. by intros x y [= ->].
  - apply NoDup_map_to_list.
  - intros [k v]. rewrite elem_of_map_to_list. rewrite list_elem_of_fmap. split.
    + intros (k' & [= -> ->] & Hk). apply H2 in Hk as [v Hv]. by rewrite Hv.
    + intros Hv. exists k. split; [by rewrite Hv|]. by apply H2.
Qed.

Lemma items_delete_keys keys : ∀ st, items (foldl delete_key st keys) = foldl (flip delete) (items st) keys.
Proof. induction keys as [|k keys IH]; intros st; cbn [foldl]; [done|]. by rewrite IH. Qed.

(** The in-memory store keeps the promises of the interface. *)
#[global] Program Instance inMemoryLaws : KVLaws store := {
  kv_ok := wf_store;
  kv_view s := match s with Some st => items st | None => ∅ end
}.
Next Obligation. intros [st|] k _; [by left|right; by eexists]. Qed.
Next Obligation.
  intros k v s H. split; [by apply wf_Set|]. destruct s as [st|]; [|done].
  cbn [kv_Set inMemoryKeyValueStore Set_]. by case_bool_decide.
Qed.
Next Obligation.
  intros ks s H. split; [by apply wf_Delete|]. destruct s as [st|]; [|done]. apply items_delete_keys.
Qed.
Next Obligation.
  intros [st|] H; [left|right; by eexists]. eexists. split; [reflexivity|]. by apply lookup_entries.
Qed.
#[global] Program Instance inMemoryReliable : KVReliable store.
Next Obligation.
  intros k v [st|] H Hk; [|done]. cbn [kv_Set inMemoryKeyValueStore Set_]. by rewrite bool_decide_false.
Qed.
Next Obligation. by intros [st|] k H. Qed.

#[global] Program Instance inMemoryHealthy : KVHealthy store := { kv_fits k _ := k ≠ [] }.
Next Obligation. intros k v s. apply kv_Set_reliable. Qed.
Next Obligation. intros s k. apply kv_Get_reliable. Qed.

#[global] Instance inMemoryWipe : KVWipe store := { kv_DeleteAll := DeleteAll }.
#[global] Program Instance inMemoryWipeLaws : KVWipeLaws store.
Next Obligation. intros [st|] H; [|done]. split; [apply wf_empty|done]. Qed.

(** ** Bulk replacement *)
Lemma Update_set_spec pairs : ∀ st,
  NoDup (pairs.*1) → [] ∉ pairs.*1 →
  ∃ st', Update_set pairs (Some st) = (Some st', None) ∧
    ∀ k, items st' !! k = match (list_to_map pairs : gmap bytes bytes) !! k with
                          | Some v => Some v | None => items st !! k end.
Proof.
  induction pairs as [|[k v] pairs IH]; intros st Hn Hb; cbn [Update_set].
  { exists st. split; [done|]. intros k. by rewrite list_to_map_nil, lookup_empty. }
  cbn in Hn, Hb. apply NoDup_cons in Hn as [Hk Hn]. apply not_elem_of_cons in Hb as [Hb0 Hb].
  rewrite bool_decide_false by done. cbn [Set_]. rewrite bool_decide_false by done. cbn [fst].
  destruct (IH (Store (<[k:=v]> (items st))
    (match items st !! k with None => order st ++ [k] | Some _ => order st end) (sequence st)) Hn Hb)
    as (st' & E & H).
  exists st'. split; [exact E|]. intros j. rewrite H. cbn [items]. rewrite list_to_map_cons.
  destruct (decide (k = j)) as [->|Hne].
  - rewrite lookup_insert_eq, lookup_insert_eq.
    by rewrite (not_elem_of_list_to_map_1 pairs j Hk).
  - by rewrite !lookup_insert_ne.
Qed.

Lemma Update_prune_spec keep keys : ∀ st del,
  ∃ st', Update_prune keep keys (Some st) del = (Some st', del ++ filter (λ k, k ∉ keep) keys) ∧
    ∀ k, items st' !! k = if decide (k ∈ keys ∧ k ∉ keep) then None else items st !! k.
Proof.
  induction keys as [|key keys IH]; intros st del; cbn [Update_prune].
  { exists st. split; [by rewrite app_nil_r|]. intros k. rewrite decide_False; [done|].
    by intros [?%elem_of_nil _]. }
  case_bool_decide as Hk.
  - destruct (IH st del) as (st' & E & H). exists st'. rewrite E, filter_cons_False by tauto.
    split; [done|]. intros k. rewrite H. apply decide_ext. set_solver.
  - destruct (IH (delete_key st key) (del ++ [key])) as (st' & E & H). exists st'.
    cbn [Delete foldl fst]. rewrite E, filter_cons_True, <- app_assoc by done. split; [done|].
    intros k. rewrite H. cbn [items delete_key]. destruct (decide (k = key)) as [->|Hne].
    + rewrite lookup_delete_eq, (decide_True (P := key ∈ key :: keys ∧ key ∉ keep)) by set_solver.
      by destruct (decide _).
    + rewrite lookup_delete_ne by done. apply decide_ext. set_solver.
Qed.

(** [Update] replaces the contents: whatever order Go visits the maps in, the store then
    holds exactly the given pairs, and the keys reported as deleted are the old keys that are
    not among them, each once. *)
Theorem Update_replaces visit pairs st :
  wf st → NoDup (pairs.*1) → [] ∉ pairs.*1 → (∀ l, visit l ≡ₚ l) →
  ∃ st' del, Update visit pairs (Some st) = (Some st', Ok del) ∧
    items st' = list_to_map pairs ∧ NoDup del ∧
    ∀ k, k ∈ del ↔ is_Some (items st !! k) ∧ k ∉ pairs.*1.
Proof.
  intros Hwf Hn Hb Hv. cbn [Update]. destruct (Update_set_spec pairs st Hn Hb) as (st1 & E1 & H1).
  rewrite E1. set (keys := (map_to_list (items st1)).*1).
  destruct (Update_prune_spec (pairs.*1) (visit keys) st1 []) as (st2 & E2 & H2). rewrite E2.
  assert (Hkeys : ∀ k, k ∈ keys ↔ is_Some (items st1 !! k)).
  { intros k. unfold keys. rewrite list_elem_of_fmap. split.
    - intros ([k' v] & -> & Hin%elem_of_map_to_list). by exists v.
    - intros [v Hin%elem_of_map_to_list]. by exists (k, v). }
  eexists _, _; split; [reflexivity|]. split_and!.
  - apply map_eq. intros k. rewrite H2. specialize (H1 k).
    destruct (list_to_map pairs !! k) as [v|] eqn:E.
    + rewrite decide_False; [done|]. intros [_ Hnot]. apply Hnot.
      apply elem_of_list_to_map_2 in E. by apply (list_elem_of_fmap_2 fst _ (k, v)).
    + apply not_elem_of_list_to_map_2 in E. destruct (decide _) as [|Hno]; [done|].
      destruct (items st1 !! k) eqn:E1'; [|done]. exfalso. apply Hno. split; [|done].
      rewrite Hv. apply Hkeys. by rewrite E1'.
  - apply NoDup_filter. rewrite Hv. apply NoDup_fst_map_to_list.
  - intros k. cbn [app]. rewrite list_elem_of_filter, Hv, Hkeys, H1.
    split.
    + intros [Hk Hs]. split; [|done]. by rewrite (not_elem_of_list_to_map_1 pairs k Hk) in Hs.
    + intros [Hs Hk]. split; [done|]. by rewrite (not_elem_of_list_to_map_1 pairs k Hk).
Qed.

(** ** Appended values *)
Lemma be8_inj m n : 0 <= m < two64 → 0 <= n < two64 → be8 m = be8 n → m = n.
Proof.
  intros Hm Hn E%(inj reverse). rewrite <- (le_value_bytes 8 m), <- (le_value_bytes 8 n) by done.
  by rewrite E.
Qed.

Lemma be8_nonempty n : be8 n ≠ [].
Proof. intros E. apply (f_equal length) in E. unfold be8 in E. by rewrite length_reverse, length_le_bytes in E. Qed.

(** The sequence numbers above the current one are free. *)
Definition fresh (st : t) : Prop :=
  0 <= sequence st < two64 ∧ ∀ n, sequence st < n < two64 → items st !! be8 n = None.

(** [n] keys after sequence number [s] *)
Fixpoint seq_keys (s : Z) (n : nat) : list bytes :=
  match n with O => [] | S n' => be8 (s + 1) :: seq_keys (s + 1) n' end.

Lemma AppendValues_loop_spec values : ∀ st,
  fresh st → sequence st + len values < two64 → wf st →
  let st' := AppendValues_loop values st in
  fresh st' ∧ order st' = order st ++ seq_keys (sequence st) (length values) ∧
  (∀ k, is_Some (items st !! k) → items st' !! k = items st !! k) ∧
  Forall2 (λ k v, items st' !! k = Some v) (seq_keys (sequence st) (length values)) values.
Proof.
  induction values as [|v values IH]; intros st [Hr Hf] Hs Hwf; cbn [AppendValues_loop length seq_keys].
  { rewrite app_nil_r. split_and!; done || constructor. }
  rewrite len_cons in Hs. pose proof (len_nonneg values).
  unfold nextSequenceKey. rewrite to_uint64_small by lia. cbn [Set_ items order sequence].
  rewrite bool_decide_false by apply be8_nonempty. cbn [fst]. rewrite Hf by lia.
  set (st1 := Store _ _ _).
  assert (Hwf1 : wf st1).
  { pose proof (wf_Set (be8 (sequence st + 1)) v (Some (Store (items st) (order st) (sequence st + 1)))) as H1.
    cbn [Set_ items order sequence] in H1. rewrite bool_decide_false in H1 by apply be8_nonempty.
    rewrite Hf in H1 by lia. apply H1. by destruct Hwf. }
  destruct (IH st1) as (Hf' & Ho & Hold & Hnew); [|cbn; lia|done|].
  { split; [cbn; lia|]. intros n Hn. cbn in Hn |- *. rewrite lookup_insert_ne; [apply Hf; lia|].
    intros E%be8_inj; lia. }
  cbn [sequence] in *. split_and!; try done.
  - rewrite Ho. cbn [order st1 sequence]. by rewrite <- app_assoc.
  - intros k [w Hk]. assert (Hne : be8 (sequence st + 1) ≠ k).
    { intros <-. rewrite Hf in Hk by lia. done. }
    rewrite Hold; cbn [items st1]; by rewrite lookup_insert_ne by done.
  - constructor; [|done]. rewrite Hold; cbn [items st1]; by rewrite lookup_insert_eq.
Qed.

Lemma remove_first_filter key l : NoDup l → remove_first key l = filter (λ k, k ≠ key) l.
Proof.
  induction 1 as [|x l Hx Hl IH]; cbn [remove_first]; [done|]. case_bool_decide as E.
  - subst. rewrite filter_cons_False by tauto. symmetry. apply filter_all.
    apply Forall_forall. by intros k Hk ->.
  - by rewrite filter_cons_True, IH.
Qed.

Lemma order_delete_keys keys : ∀ st, wf st → order (foldl delete_key st keys) = filter (λ k, k ∉ keys) (order st).
Proof.
  induction keys as [|key keys IH]; intros st Hwf; cbn [foldl].
  - symmetry. apply filter_all. apply Forall_forall. set_solver.
  - rewrite IH by by apply wf_delete_key. cbn [order delete_key].
    rewrite remove_first_filter by apply Hwf. rewrite list_filter_filter. apply list_filter_iff. set_solver.
Qed.

Lemma sequence_delete_keys keys : ∀ st, sequence (foldl delete_key st keys) = sequence st.
Proof. induction keys as [|k keys IH]; intros st; cbn [foldl]; [done|]. by rewrite IH. Qed.

Lemma lookup_delete_keys keys : ∀ (m : gmap bytes bytes) k,
  foldl (flip delete) m keys !! k = if decide (k ∈ keys) then None else m !! k.
Proof.
  induction keys as [|key keys IH]; intros m k; cbn [foldl]; [by rewrite decide_False by set_solver|].
  rewrite IH. unfold flip. destruct (decide (k ∈ keys)) as [Hk|Hk].
  - by rewrite decide_True by set_solver.
  - destruct (decide (k = key)) as [->|Hne].
    + rewrite lookup_delete_eq, decide_True by set_solver. done.
    + rewrite lookup_delete_ne, decide_False by set_solver. done.
Qed.

Definition entries_of (st : t) : list (bytes * bytes) := map (λ k, (k, default [] (items st !! k))) (order st).

Lemma entries_delete_keys keys st :
  wf st → entries_of (foldl delete_key st keys) = filter (λ kv, kv.1 ∉ keys) (entries_of st).
Proof.
  intros Hwf. unfold entries_of. rewrite order_delete_keys, items_delete_keys by done.
  induction (order st) as [|k l IH]; [done|]. cbn [map]. destruct (decide (k ∈ keys)).
  - rewrite !filter_cons_False by (cbn; tauto). done.
  - rewrite !filter_cons_True by done. cbn [map]. rewrite IH. do 3 f_equal.
    by rewrite lookup_delete_keys, decide_False.
Qed.

#[global] Instance inMemoryAppend : KVAppend store := { kv_AppendValues := AppendValues; kv_Count := Count }.

Lemma fresh_delete_keys keys st : fresh st → fresh (foldl delete_key st keys).
Proof.
  intros [Hs Hf]. split; rewrite ?sequence_delete_keys; [done|]. intros n Hn.
  rewrite items_delete_keys, lookup_delete_keys. by destruct (decide _); [|apply Hf].
Qed.

(** The in-memory store serves as a log until its 64-bit sequence is used up. *)
#[global] Program Instance inMemoryLogLaws : KVLogLaws store := {
  log_ok s n := match s with Some st => wf st ∧ fresh st ∧ sequence st + Z.of_nat n < two64 | None => False end;
  log_fits _ := True;
  log_view s := match s with Some st => entries_of st | None => [] end
}.
Next Obligation. intros [st|] n H; [|done]. destruct H as (? & ? & ?). split_and!; [done..|lia]. Qed.
Next Obligation. by intros [st|] n H. Qed.
Next Obligation.
  intros [st|] n H; [|done]. destruct H as [[Hn Hk Hb] _]. unfold entries_of.
  rewrite <- list_fmap_compose. cbn. rewrite list_fmap_id. split; [done|].
  rewrite Hk, Hb. by intros [? ?].
Qed.
Next Obligation.
  intros v [st|] n H _; [|done]. destruct H as (Hwf & Hf & Hs).
  destruct (AppendValues_loop_spec [v] st Hf ltac:(unfold len; cbn [length]; lia) Hwf) as (Hf' & Ho & Hold & Hnew).
  cbn [kv_AppendValues inMemoryAppend AppendValues fst snd]. pose proof (wf_AppendValues_loop [v] st Hwf) as Hwf'.
  destruct Hf as [Hr Hfree].
  split_and!; try done.
  - cbn [AppendValues_loop]. unfold nextSequenceKey. rewrite to_uint64_small by lia.
    cbn [Set_ items order sequence]. rewrite bool_decide_false by apply be8_nonempty. cbn [fst sequence]. lia.
  - exists (be8 (sequence st + 1)). unfold entries_of. rewrite Ho. cbn [length seq_keys].
    rewrite map_app. f_equal.
    + apply map_ext_in. intros k Hk%list_elem_of_In. do 2 f_equal. apply Hold. by apply (wf_keys st Hwf).
    + cbn [length seq_keys] in Hnew. apply Forall2_cons_1 in Hnew as [Hnew _]. cbn [map]. by rewrite Hnew.
Qed.
Next Obligation.
  intros ks [st|] n H; [|done]. destruct H as (Hwf & Hf & Hs). cbn [kv_Delete inMemoryKeyValueStore Delete fst snd].
  split_and!; try done; rewrite ?sequence_delete_keys; auto using wf_delete_keys, fresh_delete_keys, entries_delete_keys.
Qed.
Next Obligation.
  intros [st|] n H; [|done]. destruct H as [[H1 H2 H3] _]. unfold kv_Count, inMemoryAppend, Count, len, entries_of.
  do 2 f_equal. rewrite length_map. rewrite <- (size_dom (D := gset bytes)).
  rewrite <- (size_list_to_set (C := gset bytes)) by done. f_equal. apply leibniz_equiv. intros k.
  by rewrite elem_of_dom, elem_of_list_to_set, H2.
Qed.

(** Values appended to a store are iterated after everything it held, in the order in
    which they were appended, under new keys; nothing that was stored is overwritten.  The
    store must not have used up its 64-bit sequence, nor hold a key of a later number. *)
Theorem AppendValues_ordered values st l :
  wf st → fresh st → sequence st + len values < two64 → entries (Some st) = Ok l →
  ∃ keys, entries (AppendValues values (Some st)).1 = Ok (l ++ zip keys values) ∧
    length keys = length values ∧ NoDup (map fst l ++ keys).
Proof.
  intros Hwf Hf Hs [= <-]. destruct (AppendValues_loop_spec values st Hf Hs Hwf) as (_ & Ho & Hold & Hnew).
  cbn [AppendValues fst entries]. pose proof (wf_AppendValues_loop values st Hwf) as [Hn _ _].
  exists (seq_keys (sequence st) (length values)). rewrite Ho in Hn |- *.
  pose proof (Forall2_length _ _ _ Hnew) as Hlen. split_and!; [|done|].
  - rewrite map_app. do 2 f_equal.
    + apply map_ext_in. intros k Hk%list_elem_of_In. do 2 f_equal. apply Hold. by apply (wf_keys st Hwf).
    + clear -Hnew. revert Hnew. generalize (items (AppendValues_loop values st)). intros m Hnew.
      induction Hnew as [|k v ks vs E H IH]; [done|]. cbn [map zip_with]. by rewrite E, IH.
  - rewrite map_map. cbn [fst]. by rewrite map_id.
Qed.

(** ** Witnesses *)
Definition example_store : t := Store (<[bs "a" := bs "1"]> (<[bs "b" := bs "2"]> ∅)) [bs "b"; bs "a"] 0.

Lemma order_invariant_witness :
  NoDup (order example_store) ∧ (∀ k, k ∈ order example_store ↔ is_Some (items example_store !! k)) ∧
  items example_store !! [] = None ∧ Count (Some example_store) = Ok (len (order example_store)).
Proof.
  exact (order_invariant [OSet (bs "b") (bs "2"); OSet (bs "a") (bs "1")] example_store eq_refl).
Defined.

Lemma example_store_wf : wf example_store.
Proof.
  assert (E : apply_op (apply_op NewStore (OSet (bs "b") (bs "2"))) (OSet (bs "a") (bs "1")) =
    Some example_store) by reflexivity.
  change (wf_store (Some example_store)). rewrite <- E. apply wf_apply_op, wf_apply_op, wf_NewStore.
Qed.

Lemma Update_replaces_witness :
  ∃ st' del, Update reverse [(bs "c", bs "3"); (bs "a", bs "4")] (Some example_store) = (Some st', Ok del) ∧
    items st' = list_to_map [(bs "c", bs "3"); (bs "a", bs "4")] ∧ NoDup del ∧
    ∀ k, k ∈ del ↔ is_Some (items example_store !! k) ∧ k ∉ [bs "c"; bs "a"].
Proof.
  apply (Update_replaces reverse [(bs "c", bs "3"); (bs "a", bs "4")]);
    [apply example_store_wf|refine (bool_decide_unpack _ _); vm_compute; exact I|refine (bool_decide_unpack _ _); vm_compute; exact I|].
  intros l. apply reverse_Permutation.
Defined.

Lemma AppendValues_ordered_witness :
  ∃ keys, entries (AppendValues [bs "x"; bs "y"] (Some example_store)).1 =
      Ok ([(bs "b", bs "2"); (bs "a", bs "1")] ++ zip keys [bs "x"; bs "y"]) ∧
    length keys = 2%nat ∧ NoDup (map fst [(bs "b", bs "2"); (bs "a", bs "1")] ++ keys).
Proof.
  apply (AppendValues_ordered [bs "x"; bs "y"] example_store); [apply example_store_wf| |done|reflexivity].
  split; [done|]. intros n _. cbn [items example_store]. rewrite !lookup_insert_ne; [done| |];
    intros E; apply (f_equal length) in E; unfold be8 in E; by rewrite length_reverse, length_le_bytes in E.
Defined.
End InMemory.
