(* ===== verification/Bbolt.v ===== *)
(** * ee/agent/storage/bbolt: the stores of launcher.db

    A store is one bucket of a database that all stores share.  The bbolt library is the class
    [BoltLib], with what its documentation promises as [BoltLaws]; a transaction that
    fails leaves the database as it was.  The stores keep the promises of the interfaces
    of [KVStore], for keys and values of the sizes bbolt accepts. *)
From S2P Require Import Prelude Json KVStore.
Import InMemory.
Set Warnings "-clear-no-such-hyp".

(** ** go.etcd.io/bbolt *)
Class BoltLib := {
  bucket : Type;
  bolt_begin : bool → gmap bytes bucket → option err;    (* starting a transaction, writable or not *)
  bolt_commit : gmap bytes bucket → option err;
  tx_CreateBucketIfNotExists : bytes → gmap bytes bucket → gmap bytes bucket * option err;
  tx_DeleteBucket : bytes → gmap bytes bucket → gmap bytes bucket * option err;
  b_Get : bucket → bytes → option bytes;
  b_Put : bytes → bytes → bucket → bucket * option err;
  b_Delete : bytes → bucket → bucket * option err;
  b_ForEach : bucket → list (bytes * bytes);
  b_NextSequence : bucket → bucket * res Z;
  b_KeyN : bucket → Z;
  (* the keys a cursor comes to, from First to the end, when those that pass the test are deleted on the way *)
  b_Cursor : (bytes → bool) → bucket → list bytes
}.

Definition MaxKeySize : Z := 32768.
Definition MaxValueSize : Z := 2 ^ 31 - 2.

(** The contents of a bucket are a map and a counter; keys come in byte order.  Nothing is said of a
    cursor in a bucket that is changed: bbolt documents that it may be invalidated. *)
Class BoltLaws `{BoltLib} := {
  b_view : bucket → gmap bytes bytes;
  b_sequence : bucket → Z;
  b_Get_spec b k : b_Get b k = b_view b !! k;
  b_ForEach_spec b : b_ForEach b = sorted_entries (b_view b);
  b_KeyN_spec b : b_KeyN b = Z.of_nat (size (b_view b));
  b_Put_spec k v b :
    b_sequence (b_Put k v b).1 = b_sequence b ∧
    b_view (b_Put k v b).1 = match (b_Put k v b).2 with None => <[k := v]> (b_view b) | Some _ => b_view b end;
  b_Put_fits k v b : 0 < len k <= MaxKeySize → len v <= MaxValueSize → (b_Put k v b).2 = None;
  b_Put_blank v b : (b_Put [] v b).2 ≠ None;
  b_Delete_spec k b :
    (b_Delete k b).2 = None ∧ b_sequence (b_Delete k b).1 = b_sequence b ∧
    b_view (b_Delete k b).1 = delete k (b_view b);
  b_NextSequence_spec b :
    b_sequence b + 1 < two64 →
    (b_NextSequence b).2 = Ok (b_sequence b + 1) ∧ b_sequence (b_NextSequence b).1 = b_sequence b + 1 ∧
    b_view (b_NextSequence b).1 = b_view b;
  b_Cursor_spec b del : (∀ k, is_Some (b_view b !! k) → del k = false) → b_Cursor del b = (sorted_entries (b_view b)).*1;
  tx_Create_spec n db :
    match tx_CreateBucketIfNotExists n db with
    | (db', None) => ∃ b, db' !! n = Some b ∧ (∀ b0, db !! n = Some b0 → b = b0) ∧
                          (db !! n = None → b_view b = ∅ ∧ b_sequence b = 0) ∧ ∀ m, m ≠ n → db' !! m = db !! m
    | (db', Some _) => db' = db
    end;
  tx_Create_fits n db : 0 < len n <= MaxKeySize → (tx_CreateBucketIfNotExists n db).2 = None;
  tx_Delete_spec n db :
    match tx_DeleteBucket n db with
    | (db', None) => db' = delete n db
    | (db', Some _) => db' = db
    end
}.

(** A database that is open, on a disk that takes what is written *)
Class BoltHealthy `{BoltLib} := {
  healthy_begin w db : bolt_begin w db = None;
  healthy_commit db : bolt_commit db = None
}.

Module Bbolt.

Definition NoDbError : err := Errorf "bbolt db is nil".
Definition NoBucketError : err := Errorf "%s bucket does not exist".

(** [binary.BigEndian.PutUint64] *)
Definition byteKeyFromUint64 (k : Z) : bytes := be8 k.

Section Lib.
Context `{L : BoltLib}.

(** A store over the database; [None] is a nil database. *)
Record t := Store {
  db : option (gmap bytes bucket);
  bucketName : bytes
}.

Definition with_db (s : t) (d : gmap bytes bucket) : t := Store (Some d) (bucketName s).

(** *** Transactions *)

(** [db.View(fn)] *)
Definition View {A} (fn : gmap bytes bucket → res A) (d : gmap bytes bucket) : res A :=
  match bolt_begin false d with
  | Some e => Err e
  | None => fn d
  end.

(** [db.Update(fn)]: rolled back when [fn] or the commit fails *)
Definition Update_tx {A} (fn : gmap bytes bucket → gmap bytes bucket * res A) (d : gmap bytes bucket)
    : gmap bytes bucket * res A :=
  match bolt_begin true d with
  | Some e => (d, Err e)
  | None =>
      match fn d with
      | (d', Ok a) => match bolt_commit d' with Some e => (d, Err e) | None => (d', Ok a) end
      | (_, r) => (d, r)
      end
  end.

(** The bucket of the store in a writable transaction *)
Definition in_bucket {A} (name : bytes) (fn : bucket → bucket * res A) (d : gmap bytes bucket)
    : gmap bytes bucket * res A :=
  match d !! name with
  | None => (d, Err NoBucketError)
  | Some b => let '(b', r) := fn b in (<[name := b']> d, r)
  end.

Definition err_of {A} (r : res A) : option err :=
  match r with Ok _ => None | Err e => Some e | Panic | NoFuel => Some (Errorf "panic") end.

(** An operation that updates the bucket of the store *)
Definition updating {A} (fn : bucket → bucket * res A) (s : t) : t * res A :=
  match db s with
  | None => (s, Err NoDbError)
  | Some d => let '(d', r) := Update_tx (in_bucket (bucketName s) fn) d in (with_db s d', r)
  end.

Definition viewing {A} (fn : bucket → res A) (s : t) : res A :=
  match db s with
  | None => Err NoDbError
  | Some d => View (λ d, match d !! bucketName s with None => Err NoBucketError | Some b => fn b end) d
  end.

(** *** Operations *)
Definition NewStore (d : gmap bytes bucket) (name : bytes) : gmap bytes bucket * res t :=
  match Update_tx (λ d, let '(d', e) := tx_CreateBucketIfNotExists name d in
                        (d', match e with Some e => Err (Wrapf "creating bucket: %w" e) | None => Ok tt end)) d with
  | (d', Ok _) => (d', Ok (Store (Some d') name))
  | (d', Err e) => (d', Err e)
  | (d', Panic) => (d', Panic)
  | (d', NoFuel) => (d', NoFuel)
  end.

Definition Get (s : t) (key : bytes) : res (option bytes) := viewing (λ b, Ok (b_Get b key)) s.

(** A nil value is not stored. *)
Definition Set_nil (key : bytes) (value : option bytes) (s : t) : t * option err :=
  let '(s', r) := updating (λ b,
    match value with
    | None => (b, Ok tt)
    | Some value =>
        let '(b', e) := b_Put key value b in
        (b', match e with Some e => Err (Wrapf "error setting %s key: %w" e) | None => Ok tt end)
    end) s in
  (s', err_of r).

Fixpoint Delete_loop (keys : list bytes) (b : bucket) : bucket * res unit :=
  match keys with
  | [] => (b, Ok tt)
  | key :: keys' =>
      match b_Delete key b with
      | (b', Some e) => (b', Err (Wrapf "error deleting %s key: %w" e))
      | (b', None) => Delete_loop keys' b'
      end
  end.

Definition Delete (keys : list bytes) (s : t) : t * option err :=
  let '(s', r) := updating (Delete_loop keys) s in (s', err_of r).

Definition DeleteAll (s : t) : t * option err :=
  match db s with
  | None => (s, Some NoDbError)
  | Some d =>
      let '(d', r) := Update_tx (λ d,
        match tx_DeleteBucket (bucketName s) d with
        | (d1, Some e) => (d1, Err (Wrapf "deleting bucket: %w" e))
        | (d1, None) =>
            let '(d2, e) := tx_CreateBucketIfNotExists (bucketName s) d1 in
            (d2, match e with Some e => Err (Wrapf "re-creating bucket: %w" e) | None => Ok tt end)
        end) d in
      (with_db s d', err_of r)
  end.

Definition entries (s : t) : res (list (bytes * bytes)) := viewing (λ b, Ok (b_ForEach b)) s.

(** Pairs that cannot be stored are logged and left out. *)
Fixpoint put_pairs (kvPairs : list (bytes * bytes)) (b : bucket) : bucket :=
  match kvPairs with
  | [] => b
  | (key, value) :: kvPairs' => put_pairs kvPairs' (b_Put key value b).1
  end.

Fixpoint prune (kept : bytes → bool) (visited : list bytes) (b : bucket) (deletedKeys : list bytes)
    : bucket * list bytes :=
  match visited with
  | [] => (b, deletedKeys)
  | key :: visited' =>
      if kept key then prune kept visited' b deletedKeys
      else prune kept visited' (b_Delete key b).1 (deletedKeys ++ [key])
  end.

(** [kvPairs] in the order in which Go visits the map *)
Definition Update (kvPairs : list (bytes * bytes)) (s : t) : t * res (list bytes) :=
  match updating (λ b, (put_pairs kvPairs b, Ok tt)) s with
  | (s, Err e) => (s, Err e)
  | (s, Panic) => (s, Panic)
  | (s, NoFuel) => (s, NoFuel)
  | (s, Ok _) =>
      let kept key := bool_decide (key ∈ kvPairs.*1) in
      updating (λ b, let '(b', deletedKeys) := prune kept (b_Cursor (λ k, negb (kept k)) b) b [] in
                     (b', Ok deletedKeys)) s
  end.

Definition Count (s : t) : res Z := viewing (λ b, Ok (b_KeyN b)) s.

Fixpoint AppendValues_loop (values : list bytes) (b : bucket) : bucket * res unit :=
  match values with
  | [] => (b, Ok tt)
  | value :: values' =>
      match b_NextSequence b with
      | (b, Ok key) =>
          match b_Put (byteKeyFromUint64 key) value b with
          | (b, Some e) => (b, Err (Wrapf "adding ordered value: %w" e))
          | (b, None) => AppendValues_loop values' b
          end
      | (b, Err e) => (b, Err (Wrapf "generating key: %w" e))
      | (b, Panic) => (b, Panic)
      | (b, NoFuel) => (b, NoFuel)
      end
  end.

Definition AppendValues (values : list bytes) (s : t) : t * option err :=
  match db s with
  | None => (s, Some (Errorf "unable to append values into uninitialized bbolt db store"))
  | Some _ => let '(s', r) := updating (AppendValues_loop values) s in (s', err_of r)
  end.

(** ** The stores of the launcher *)
Definition storeNames : list bytes :=
  map bs ["agent_flags"; "katc_config"; "filewalk_config"; "filewalk_results"; "config"; "control_service_data";
          "persistent_host_data"; "initial_results"; "result_logs"; "osquery_instance_history";
          "sent_notifications"; "status_logs"; "server_provided_data"; "token_store"; "action_store";
          "launcher_history"; "zta_info"; "windows_updates_cache"; "registrations"; "enrollment_details";
          "kolide_server_release_tracker_data"; "localization"]%string.

(** The stores share the database: [MakeStores] returns it with the names of the stores in it. *)
Fixpoint MakeStores_loop (names : list bytes) (d : gmap bytes bucket) (stores : list bytes)
    : gmap bytes bucket * res (list bytes) :=
  match names with
  | [] => (d, Ok stores)
  | name :: names' =>
      match NewStore d name with
      | (d', Ok _) => MakeStores_loop names' d' (stores ++ [name])
      | (d', Err e) => (d', Err (Wrapf "failed to create '%s' KVStore: %w" e))
      | (d', Panic) => (d', Panic)
      | (d', NoFuel) => (d', NoFuel)
      end
  end.

Definition MakeStores (d : gmap bytes bucket) : gmap bytes bucket * res (list bytes) :=
  MakeStores_loop storeNames d [].

#[global] Instance bboltKeyValueStore : KVStore t := {
  kv_Get := Get; kv_Set k v := Set_nil k (Some v); kv_Delete := Delete; kv_entries := entries
}.
#[global] Instance bboltAppend : KVAppend t := { kv_AppendValues := AppendValues; kv_Count := Count }.

(** ** Transactions are atomic *)
Context {BL : BoltLaws}.

(** The bucket of the store *)
Definition bucketOf (s : t) : option bucket := d ← db s; d !! bucketName s.

(** What an update of the bucket comes to: all of it, or an error and nothing *)
Lemma updating_cases {A} (fn : bucket → bucket * res A) s b :
  bucketOf s = Some b → returns (fn b).2 →
  (∃ e, updating fn s = (s, Err e)) ∨
  ∃ d b' a, db s = Some d ∧ fn b = (b', Ok a) ∧ updating fn s = (with_db s (<[bucketName s := b']> d), Ok a).
Proof.
  unfold bucketOf, updating, Update_tx, in_bucket. destruct s as [[d|] name]; [|done]. cbn. intros Hb Hr.
  destruct (bolt_begin true d) as [e|]; [left; by eexists|]. rewrite Hb.
  destruct (fn b) as [b' [a|e| |]] eqn:E; try done; [|left; by eexists].
  destruct (bolt_commit _) as [e|]; [left; by eexists|]. right. by exists d, b', a.
Qed.

Lemma updating_healthy `{!BoltHealthy} {A} (fn : bucket → bucket * res A) s b b' a :
  bucketOf s = Some b → fn b = (b', Ok a) →
  ∃ d, db s = Some d ∧ updating fn s = (with_db s (<[bucketName s := b']> d), Ok a).
Proof.
  unfold bucketOf, updating, Update_tx, in_bucket. destruct s as [[d|] name]; [|done]. cbn. intros Hb E.
  exists d. by rewrite healthy_begin, Hb, E, healthy_commit.
Qed.

Lemma bucketOf_with_db s d b : bucketOf (with_db s (<[bucketName s := b]> d)) = Some b.
Proof. unfold bucketOf. cbn. apply lookup_insert_eq. Qed.

Lemma viewing_cases {A} (fn : bucket → res A) s b :
  bucketOf s = Some b → viewing fn s = fn b ∨ ∃ e, viewing fn s = Err e.
Proof.
  unfold bucketOf, viewing, View. destruct s as [[d|] name]; [|done]. cbn. intros Hb.
  destruct (bolt_begin false d); [right; by eexists|left]. by rewrite Hb.
Qed.

Lemma viewing_healthy `{!BoltHealthy} {A} (fn : bucket → res A) s b : bucketOf s = Some b → viewing fn s = fn b.
Proof.
  unfold bucketOf, viewing, View. destruct s as [[d|] name]; [|done]. cbn. intros Hb. by rewrite healthy_begin, Hb.
Qed.

(** ** The contents of a store *)
Definition ok (s : t) : Prop := is_Some (bucketOf s).
Definition view (s : t) : gmap bytes bytes := from_option b_view ∅ (bucketOf s).

Lemma view_Some s b : bucketOf s = Some b → view s = b_view b.
Proof. unfold view. by intros ->. Qed.

Lemma Delete_loop_spec keys : ∀ b, ∃ b', Delete_loop keys b = (b', Ok tt) ∧
  b_view b' = foldl (flip delete) (b_view b) keys ∧ b_sequence b' = b_sequence b.
Proof.
  induction keys as [|k keys IH]; intros b; cbn [Delete_loop foldl]; [by exists b|].
  destruct (b_Delete_spec k b) as (E1 & E2 & E3). destruct (b_Delete k b) as [b1 e]. cbn in *. subst e.
  destruct (IH b1) as (b' & -> & Hv & Hs). exists b'. by rewrite Hv, E3, Hs, E2.
Qed.

(** The stores keep the promises of the interface whether or not transactions succeed. *)
#[global] Program Instance bboltLaws : KVLaws t := { kv_ok := ok; kv_view := view }.
Next Obligation.
  intros s k [b Hb]. destruct (viewing_cases (λ b, Ok (b_Get b k)) s b Hb) as [E|[e E]];
    cbn [kv_Get bboltKeyValueStore]; unfold Get; rewrite E; [left|right; by eexists].
  by rewrite b_Get_spec, (view_Some _ _ Hb).
Qed.
Next Obligation.
  intros k v s [b Hb]. cbn [kv_Set bboltKeyValueStore]. unfold Set_nil.
  destruct (b_Put_spec k v b) as [_ Hv]. destruct (b_Put k v b) as [b' er] eqn:Ep. cbn [fst snd] in Hv.
  edestruct (updating_cases (λ b, let '(b', e) := b_Put k v b in
    (b', match e with Some e => Err (Wrapf "error setting %s key: %w" e) | None => Ok tt end)) s b Hb)
    as [[e ->]|(d & b1 & a & Hd & E1 & ->)]; [cbn; rewrite Ep; by destruct er|by split; [exists b|]|].
  rewrite Ep in E1. destruct er; [done|]. simplify_eq. cbn [fst snd err_of].
  pose proof (bucketOf_with_db s d b1) as Hb1. split; [by eexists|].
  by rewrite (view_Some _ _ Hb1), (view_Some _ _ Hb).
Qed.
Next Obligation.
  intros ks s [b Hb]. cbn [kv_Delete bboltKeyValueStore]. unfold Delete.
  destruct (Delete_loop_spec ks b) as (b' & E & Hv & _).
  destruct (updating_cases (Delete_loop ks) s b Hb) as [[e ->]|(d & b1 & a & Hd & E1 & ->)];
    [by rewrite E|by split; [exists b|]|].
  rewrite E in E1. simplify_eq. cbn [fst snd err_of].
  pose proof (bucketOf_with_db s d b1) as Hb1. split; [by eexists|].
  by rewrite (view_Some _ _ Hb1), (view_Some _ _ Hb).
Qed.
Next Obligation.
  intros s [b Hb]. destruct (viewing_cases (λ b, Ok (b_ForEach b)) s b Hb) as [E|[e E]];
    cbn [kv_entries bboltKeyValueStore]; unfold entries; rewrite E; [left|right; by eexists].
  eexists. split; [done|]. by rewrite b_ForEach_spec, (view_Some _ _ Hb), sorted_entries_perm.
Qed.

(** ** A store as a log *)
Lemma be8_lt m n : 0 <= m < n → n < two64 → bytes_compare (be8 m) (be8 n) < 0.
Proof.
  intros Hm Hn. unfold be8. rewrite bytes_compare_be, !reverse_involutive, !le_value_bytes;
    [|unfold two64 in *; lia..|by rewrite !length_reverse, !length_le_bytes].
  destruct (cmpZ_spec m n) as [[-> ?]|[[-> ?]|[-> ?]]]; lia.
Qed.

Lemma len_be8 n : len (be8 n) = 8.
Proof. unfold be8, len. by rewrite length_reverse, length_le_bytes. Qed.

(** All keys are numbers the sequence has given. *)
Definition numbered (b : bucket) : Prop :=
  0 <= b_sequence b ∧ ∀ k, is_Some (b_view b !! k) → ∃ m, 0 < m <= b_sequence b ∧ k = be8 m.

Definition logOk (s : t) (n : nat) : Prop :=
  ∃ b, bucketOf s = Some b ∧ numbered b ∧ b_sequence b + Z.of_nat n < two64.

Definition logView (s : t) : list (bytes * bytes) := sorted_entries (view s).

Lemma AppendValues_one v b n :
  numbered b → b_sequence b + Z.of_nat (S n) < two64 → len v <= MaxValueSize →
  ∃ b', AppendValues_loop [v] b = (b', Ok tt) ∧ numbered b' ∧ b_sequence b' = b_sequence b + 1 ∧
    b_view b' = <[be8 (b_sequence b + 1) := v]> (b_view b).
Proof.
  intros [H0 Hn] Hs Hv. cbn [AppendValues_loop].
  assert (b_sequence b + 1 < two64) by lia.
  destruct (b_NextSequence_spec b ltac:(done)) as (E1 & E2 & E3). destruct (b_NextSequence b) as [b1 r].
  cbn [fst snd] in *. subst r. unfold byteKeyFromUint64.
  pose proof (b_Put_fits (be8 (b_sequence b + 1)) v b1) as Hf. rewrite len_be8 in Hf.
  specialize (Hf ltac:(unfold MaxKeySize; lia) Hv).
  destruct (b_Put_spec (be8 (b_sequence b + 1)) v b1) as [P1 P2].
  destruct (b_Put _ v b1) as [b2 er]. cbn [fst snd] in *. subst er.
  rewrite E2 in P1. rewrite E3 in P2. exists b2. split_and!; [done| |done|done]. split; rewrite P1; [lia|].
  intros k. rewrite P2, lookup_insert_is_Some. intros [<-|[_ Hk]].
  - exists (b_sequence b + 1). split; [lia|done].
  - destruct (Hn k Hk) as (m & Hm & ->). exists m. split; [lia|done].
Qed.

Lemma numbered_last b v : numbered b → b_sequence b + 1 < two64 →
  sorted_entries (<[be8 (b_sequence b + 1) := v]> (b_view b)) =
    sorted_entries (b_view b) ++ [(be8 (b_sequence b + 1), v)].
Proof.
  intros [H0 Hn] Hs. apply sorted_entries_insert_last. intros k Hk.
  destruct (Hn k Hk) as (m & Hm & ->). apply be8_lt; lia.
Qed.

#[global] Instance bboltWipe : KVWipe t := { kv_DeleteAll := DeleteAll }.
#[global] Program Instance bboltWipeLaws : KVWipeLaws t.
Next Obligation.
  intros s [b Hb]. cbn [kv_DeleteAll bboltWipe kv_ok kv_view bboltLaws]. unfold ok, view, bucketOf, DeleteAll, Update_tx in *.
  destruct s as [[d|] name]; [|done]. cbn in *. destruct (bolt_begin true d) as [e|]; [cbn; by rewrite Hb|].
  pose proof (tx_Delete_spec name d) as Hd. destruct (tx_DeleteBucket name d) as [d1 [e|]]; [cbn; by rewrite Hb|].
  pose proof (tx_Create_spec name d1) as Hc. destruct (tx_CreateBucketIfNotExists name d1) as [d2 [e|]]; [cbn; by rewrite Hb|].
  destruct Hc as (b2 & Hb2 & _ & Hnew & _). destruct (bolt_commit d2) as [e|]; cbn; [by rewrite Hb|].
  rewrite Hb2. split; [done|]. cbn. apply Hnew. subst d1. apply lookup_delete_eq.
Qed.

Context `{!BoltHealthy}.

#[global] Program Instance bboltHealthy : KVHealthy t := {
  kv_fits k v := 0 < len k <= MaxKeySize ∧ len v <= MaxValueSize
}.
Next Obligation.
  intros k v s [b Hb] [Hk Hv]. cbn [kv_Set bboltKeyValueStore]. unfold Set_nil.
  pose proof (b_Put_fits k v b Hk Hv) as Hp. destruct (b_Put k v b) as [b' er] eqn:Ep. cbn [snd] in Hp. subst er.
  edestruct (updating_healthy (λ b, let '(b', e) := b_Put k v b in
    (b', match e with Some e => Err (Wrapf "error setting %s key: %w" e) | None => Ok tt end)) s b b' tt)
    as (d & _ & E); [done|by rewrite Ep|]. by rewrite E.
Qed.
Next Obligation.
  intros s k [b Hb]. cbn [kv_Get bboltKeyValueStore]. unfold Get.
  rewrite (viewing_healthy _ s b Hb), b_Get_spec. cbn [kv_view bboltLaws]. by rewrite (view_Some _ _ Hb).
Qed.

(** A healthy database serves as a log until the sequence of the bucket is used up. *)
#[global] Program Instance bboltLogLaws : KVLogLaws t := {
  log_ok := logOk; log_fits v := len v <= MaxValueSize; log_view := logView
}.
Next Obligation. intros s n (b & Hb & Hn & Hs). exists b. split_and!; [done..|lia]. Qed.
Next Obligation.
  intros s n (b & Hb & _ & _). cbn [kv_entries bboltKeyValueStore]. unfold entries, logView.
  by rewrite (viewing_healthy _ _ _ Hb), b_ForEach_spec, (view_Some _ _ Hb).
Qed.
Next Obligation.
  intros s n (b & Hb & [_ Hn] & _). unfold logView. rewrite (view_Some _ _ Hb). split; [apply sorted_entries_keys|].
  intros ([k v] & Ek & Hin)%list_elem_of_fmap. apply elem_of_sorted_entries in Hin. cbn in Ek. subst k.
  destruct (Hn [] ltac:(by rewrite Hin)) as (m & _ & Em). symmetry in Em. by apply be8_nonempty in Em.
Qed.
Next Obligation.
  intros v s n (b & Hb & Hn & Hs) Hv. cbn [kv_AppendValues bboltAppend]. unfold AppendValues.
  destruct (AppendValues_one v b n Hn Hs Hv) as (b' & E & Hn' & Hs' & Hv').
  destruct (updating_healthy (AppendValues_loop [v]) s b b' tt Hb E) as (d & Hd & ->). rewrite Hd. cbn [fst snd].
  pose proof (bucketOf_with_db s d b') as Hb'. split_and!; [|done|].
  - exists b'. split_and!; [done|done|lia].
  - exists (be8 (b_sequence b + 1)). unfold logView. rewrite (view_Some _ _ Hb), (view_Some _ _ Hb'), Hv'.
    apply numbered_last; [done|lia].
Qed.
Next Obligation.
  intros ks s n (b & Hb & [H0 Hn] & Hs). cbn [kv_Delete bboltKeyValueStore]. unfold Delete.
  destruct (Delete_loop_spec ks b) as (b' & E & Hv & Hq).
  destruct (updating_healthy (Delete_loop ks) s b b' tt Hb E) as (d & Hd & ->). cbn [fst snd err_of].
  pose proof (bucketOf_with_db s d b') as Hb'.
  assert (Hlook : ∀ k, b_view b' !! k = if decide (k ∈ ks) then None else b_view b !! k)
    by (intros k; rewrite Hv; apply lookup_delete_keys).
  split_and!; [|done|].
  - exists b'. rewrite Hq. split_and!; try done. split; [by rewrite Hq|]. intros k. rewrite Hq, Hlook.
    case_decide; [by intros [? ?]|]. apply Hn.
  - unfold logView. rewrite (view_Some _ _ Hb), (view_Some _ _ Hb'). apply sorted_entries_filter.
    intros k v. rewrite Hlook. cbn. case_decide; naive_solver.
Qed.
Next Obligation.
  intros s n (b & Hb & _ & _). cbn [kv_Count bboltAppend]. unfold Count, logView.
  rewrite (viewing_healthy _ _ _ Hb), b_KeyN_spec, (view_Some _ _ Hb). unfold len. do 2 f_equal.
  by rewrite sorted_entries_perm, length_map_to_list.
Qed.

(** ** The same answers as the in-memory store *)
Inductive op : Type :=
| OSet (key value : bytes)
| ODelete (keys : list bytes)
| OAppend (values : list bytes)
| OGet (key : bytes)
| OCount
| OForEach.

(** What an operation answers: whether it succeeds, the value it reads, the number of keys, or the pairs it visits *)
Inductive answer : Type :=
| ADone (succeeded : bool)
| ARead (value : option (option bytes))
| ACount (n : option Z)
| AVisit (pairs : option (list (bytes * bytes))).

Definition done_or (e : option err) : answer := ADone (bool_decide (e = None)).
Definition known {A} (r : res A) : option A := match r with Ok v => Some v | _ => None end.

(** The same answer, but for the order of a visit *)
Definition alike (a a' : answer) : Prop :=
  match a, a' with
  | AVisit (Some l), AVisit (Some l') => l ≡ₚ l'
  | _, _ => a = a'
  end.

Definition step_bolt (s : t) (o : op) : t * answer :=
  match o with
  | OSet k v => let '(s', e) := Set_nil k (Some v) s in (s', done_or e)
  | ODelete ks => let '(s', e) := Delete ks s in (s', done_or e)
  | OAppend vs => let '(s', e) := AppendValues vs s in (s', done_or e)
  | OGet k => (s, ARead (known (Get s k)))
  | OCount => (s, ACount (known (Count s)))
  | OForEach => (s, AVisit (known (entries s)))
  end.

Definition step_mem (s : InMemory.store) (o : op) : InMemory.store * answer :=
  match o with
  | OSet k v => let '(s', e) := InMemory.Set_ k v s in (s', done_or e)
  | ODelete ks => let '(s', e) := InMemory.Delete ks s in (s', done_or e)
  | OAppend vs => let '(s', e) := InMemory.AppendValues vs s in (s', done_or e)
  | OGet k => (s, ARead (known (InMemory.Get s k)))
  | OCount => (s, ACount (known (InMemory.Count s)))
  | OForEach => (s, AVisit (known (InMemory.entries s)))
  end.

Fixpoint run {S} (step : S → op → S * answer) (ops : list op) (s : S) : S * list answer :=
  match ops with
  | [] => (s, [])
  | o :: ops' => let '(s, a) := step s o in let '(s, l) := run step ops' s in (s, a :: l)
  end.

(** The sizes bbolt accepts *)
Definition fits (o : op) : Prop :=
  match o with
  | OSet k v => len k <= MaxKeySize ∧ len v <= MaxValueSize
  | OAppend vs => Forall (λ v, len v <= MaxValueSize) vs
  | _ => True
  end.

Definition appended (o : op) : Z := match o with OAppend vs => len vs | _ => 0 end.
Definition total (ops : list op) : Z := foldr (λ o n, appended o + n) 0 ops.

Definition sim (s : t) (m : InMemory.t) : Prop :=
  ∃ b, bucketOf s = Some b ∧ b_view b = items m ∧ b_sequence b = sequence m ∧ InMemory.wf m.

Lemma sim_AppendValues values : ∀ b m,
  b_view b = items m → b_sequence b = sequence m → 0 <= sequence m → sequence m + len values < two64 →
  Forall (λ v, len v <= MaxValueSize) values →
  ∃ b', AppendValues_loop values b = (b', Ok tt) ∧ b_view b' = items (InMemory.AppendValues_loop values m) ∧
    b_sequence b' = sequence (InMemory.AppendValues_loop values m) ∧
    sequence (InMemory.AppendValues_loop values m) = sequence m + len values.
Proof.
  induction values as [|v values IH]; intros b m Hv Hs H0 Hn Hf; cbn [AppendValues_loop InMemory.AppendValues_loop].
  { exists b. rewrite len_nil. split_and!; [done..|lia]. }
  apply Forall_cons in Hf as [Hf1 Hf]. rewrite len_cons in *. pose proof (len_nonneg values).
  assert (Hs1 : b_sequence b + 1 < two64) by lia.
  destruct (b_NextSequence_spec b Hs1) as (E1 & E2 & E3). destruct (b_NextSequence b) as [b1 r].
  cbn [fst snd] in *. subst r. unfold byteKeyFromUint64.
  pose proof (b_Put_fits (be8 (b_sequence b + 1)) v b1) as Hput. rewrite len_be8 in Hput.
  specialize (Hput ltac:(unfold MaxKeySize; lia) Hf1).
  destruct (b_Put_spec (be8 (b_sequence b + 1)) v b1) as [P1 P2].
  destruct (b_Put _ v b1) as [b2 er]. cbn [fst snd] in *. subst er.
  unfold nextSequenceKey. rewrite to_uint64_small by lia. cbn [Set_ items order sequence].
  rewrite bool_decide_false by apply be8_nonempty. cbn [fst].
  match goal with |- context [InMemory.AppendValues_loop values ?m1] => destruct (IH b2 m1) as (b' & -> & A1 & A2 & A3) end;
    [by rewrite P2, E3, Hv, Hs|cbn; lia|cbn; lia|cbn; lia|done|].
  exists b'. split_and!; [done..|]. rewrite A3. cbn [sequence]. lia.
Qed.

Lemma sim_step s m o :
  sim s m → 0 <= sequence m → sequence m + appended o < two64 → fits o →
  ∃ m', (step_mem (Some m) o).1 = Some m' ∧ sim (step_bolt s o).1 m' ∧ sequence m' = sequence m + appended o ∧
    alike (step_bolt s o).2 (step_mem (Some m) o).2.
Proof.
  intros (b & Hb & Hv & Hs & Hw) H0 Hn Hf. destruct o as [k v|ks|vs|k| |]; cbn [step_bolt step_mem appended fits] in *.
  - unfold Set_nil. destruct (b_Put_spec k v b) as [P1 P2]. cbn [Set_]. case_bool_decide as Ek.
    + subst k. pose proof (b_Put_blank v b) as Hblank. exists m. cbn [fst snd done_or].
      edestruct (updating_cases (λ b, let '(b', e) := b_Put [] v b in
        (b', match e with Some e => Err (Wrapf "error setting %s key: %w" e) | None => Ok tt end)) s b Hb)
        as [[e ->]|(d & b1 & a & Hd & E1 & ->)].
      { destruct (b_Put [] v b) as [? [|]]; done. }
      * split_and!; [done|by exists b|lia|by cbn].
      * destruct (b_Put [] v b) as [? [|]]; done.
    + assert (Hput : (b_Put k v b).2 = None) by (apply b_Put_fits; [split; [by apply len_pos|apply Hf]|apply Hf]).
      destruct (b_Put k v b) as [b' er] eqn:Ep. cbn [fst snd] in *. subst er.
      edestruct (updating_healthy (λ b, let '(b', e) := b_Put k v b in
        (b', match e with Some e => Err (Wrapf "error setting %s key: %w" e) | None => Ok tt end)) s b b' tt Hb)
        as (d & Hd & ->); [by rewrite Ep|]. cbn [fst snd err_of done_or].
      eexists. split_and!; [done| |cbn; lia|done].
      exists b'. split_and!; [apply bucketOf_with_db|by rewrite P2, Hv|by rewrite P1, Hs|].
      pose proof (InMemory.wf_Set k v (Some m) Hw) as Hw'. cbn [Set_] in Hw'. by rewrite bool_decide_eq_false_2 in Hw' by done.
  - unfold Delete. destruct (Delete_loop_spec ks b) as (b' & E & Dv & Dq).
    destruct (updating_healthy (Delete_loop ks) s b b' tt Hb E) as (d & Hd & ->). cbn [fst snd err_of done_or InMemory.Delete].
    eexists. split_and!; [done| |rewrite sequence_delete_keys; lia|done].
    exists b'. split_and!; [apply bucketOf_with_db|by rewrite Dv, Hv, items_delete_keys|by rewrite Dq, Hs, sequence_delete_keys|].
    by apply InMemory.wf_delete_keys.
  - unfold AppendValues. destruct (sim_AppendValues vs b m Hv Hs H0 Hn Hf) as (b' & E & A1 & A2 & A3).
    destruct (updating_healthy (AppendValues_loop vs) s b b' tt Hb E) as (d & Hd & ->). rewrite Hd.
    cbn [fst snd err_of done_or InMemory.AppendValues]. eexists. split_and!; [done| |done|done].
    exists b'. split_and!; [apply bucketOf_with_db|done..|]. by apply InMemory.wf_AppendValues_loop.
  - exists m. cbn [fst snd]. split_and!; [done|by exists b|lia|].
    unfold Get. by rewrite (viewing_healthy _ _ _ Hb), b_Get_spec, Hv.
  - exists m. cbn [fst snd]. split_and!; [done|by exists b|lia|].
    unfold Count. by rewrite (viewing_healthy _ _ _ Hb), b_KeyN_spec, Hv.
  - exists m. cbn [fst snd]. split_and!; [done|by exists b|lia|].
    unfold entries. rewrite (viewing_healthy _ _ _ Hb), b_ForEach_spec, Hv. cbn [known alike InMemory.entries].
    by rewrite sorted_entries_perm, InMemory.lookup_entries.
Qed.

(** C12: The in-memory store the tests use stands for the database, as far as single values go: for any sequence of
    [Set], [Delete], [AppendValues], [Get], [Count] and [ForEach] of sizes bbolt accepts, both stores give
    the same answers, the keys under which appended values are stored included, and a visit is of the same pairs,
    each once, in an order of its own.  The two start alike, the database works, and the counter does not
    overflow.  ([DeleteAll] and [Update] are left out: bbolt resets the counter, and skips pairs it cannot store.) *)
Theorem answers_agree ops : ∀ s m,
  sim s m → 0 <= sequence m → sequence m + total ops < two64 → Forall fits ops →
  Forall2 alike (run step_bolt ops s).2 (run step_mem ops (Some m)).2 ∧
  ∃ m', (run step_mem ops (Some m)).1 = Some m' ∧ sim (run step_bolt ops s).1 m'.
Proof.
  induction ops as [|o ops IH]; intros s m Hsim H0 Hn Hf; cbn [run total foldr] in *; [by eauto|].
  apply Forall_cons in Hf as [Ho Hf]. fold (total ops) in Hn.
  assert (Ht : 0 <= total ops).
  { clear. induction ops as [|o ops IH]; [done|]. cbn [total foldr]. fold (total ops).
    assert (0 <= appended o) by (destruct o; try done; apply len_nonneg). lia. }
  destruct (sim_step s m o Hsim H0 ltac:(lia) Ho) as (m' & E1 & Hs' & Hq & E2).
  assert (Ha : 0 <= appended o) by (destruct o; try done; apply len_nonneg).
  destruct (step_mem (Some m) o) as [? a], (step_bolt s o) as [s' a']. cbn [fst snd] in *. subst.
  destruct (IH s' m' Hs' ltac:(lia) ltac:(lia) Hf) as (Ef & m'' & Em & Hs'').
  destruct (run step_mem ops (Some m')), (run step_bolt ops s'). cbn [fst snd] in *. subst.
  split; [by constructor|]. by exists m''.
Qed.

(** ** Bulk replacement *)
Lemma put_pairs_spec pairs : ∀ b,
  NoDup pairs.*1 → Forall (λ '(k, v), 0 < len k <= MaxKeySize ∧ len v <= MaxValueSize) pairs →
  b_view (put_pairs pairs b) = list_to_map pairs ∪ b_view b.
Proof.
  induction pairs as [|[k v] pairs IH]; intros b Hn Hf; cbn [put_pairs].
  { by rewrite list_to_map_nil, (left_id_L ∅ (∪)). }
  cbn in Hn. apply NoDup_cons in Hn as [Hk Hn]. apply Forall_cons in Hf as [[Hk1 Hv1] Hf].
  pose proof (b_Put_fits k v b Hk1 Hv1) as Hput. destruct (b_Put_spec k v b) as [_ P]. rewrite Hput in P.
  rewrite (IH _ Hn Hf), P, list_to_map_cons. rewrite <- insert_union_r, insert_union_l; [done|].
  by apply not_elem_of_list_to_map_1.
Qed.

Lemma prune_spec kept visited : ∀ b del,
  (prune kept visited b del).2 = del ++ filter (λ k, kept k = false) visited ∧
  ∀ k, b_view (prune kept visited b del).1 !! k = if decide (k ∈ visited ∧ kept k = false) then None else b_view b !! k.
Proof.
  induction visited as [|key visited IH]; intros b del; cbn [prune].
  { split; [by rewrite app_nil_r|]. intros k. rewrite decide_False; [done|]. by intros [?%elem_of_nil _]. }
  destruct (kept key) eqn:Ek.
  - destruct (IH b del) as [E Hpr]. rewrite E, filter_cons_False by congruence. split; [done|].
    intros k. rewrite Hpr. apply decide_ext. rewrite elem_of_cons. naive_solver congruence.
  - destruct (IH (b_Delete key b).1 (del ++ [key])) as [E Hpr]. rewrite E, filter_cons_True, <- app_assoc by done.
    split; [done|]. intros k. rewrite Hpr. destruct (b_Delete_spec key b) as (_ & _ & ->).
    destruct (decide (k = key)) as [->|Hne].
    + rewrite lookup_delete_eq, (decide_True (P := key ∈ key :: visited ∧ _)) by (split; [left|done]). by case_decide.
    + rewrite lookup_delete_ne by done. apply decide_ext. rewrite elem_of_cons. naive_solver.
Qed.

(** [Update] stores all the pairs, deletes no key of theirs, and deletes exactly the keys it
    reports, which are those that its cursor comes to; the cursor comes to no key if
    there is nothing to delete.  That it comes to every stale key is not promised, since keys are
    deleted under it. *)
Theorem Update_stores pairs s b :
  bucketOf s = Some b → NoDup pairs.*1 →
  Forall (λ '(k, v), 0 < len k <= MaxKeySize ∧ len v <= MaxValueSize) pairs →
  ∃ s' del, Update pairs s = (s', Ok del) ∧ (∀ k, k ∈ del → k ∉ pairs.*1) ∧
    (∀ k, view s' !! k = if decide (k ∈ del) then None else (list_to_map pairs ∪ view s) !! k) ∧
    ((∀ k, is_Some (view s !! k) → k ∈ pairs.*1) → del = []).
Proof.
  intros Hb Hn Hf. unfold Update.
  destruct (updating_healthy (λ b, (put_pairs pairs b, Ok tt)) s b _ tt Hb eq_refl) as (d & Hd & ->).
  set (b1 := put_pairs pairs b). pose proof (bucketOf_with_db s d b1) as Hb1. set (s1 := with_db s _) in *.
  set (kept := λ key, bool_decide (key ∈ pairs.*1)).
  destruct (prune_spec kept (b_Cursor (λ k, negb (kept k)) b1) b1 []) as [E Hpr].
  destruct (prune kept _ b1 []) as [b2 del] eqn:Ep. cbn [fst snd] in *.
  edestruct (updating_healthy (λ b, let '(b', deletedKeys) := prune kept (b_Cursor (λ k, negb (kept k)) b) b [] in
    (b', Ok deletedKeys)) s1 b1 b2 del Hb1) as (d1 & Hd1 & E2); [by rewrite Ep|].
  exists (with_db s1 (<[bucketName s1 := b2]> d1)), del.
  assert (Hv1 : b_view b1 = list_to_map pairs ∪ b_view b) by by apply put_pairs_spec.
  assert (Hdel : ∀ k, k ∈ del ↔ k ∈ b_Cursor (λ k, negb (kept k)) b1 ∧ kept k = false).
  { intros k. rewrite E. cbn [app]. rewrite list_elem_of_filter. tauto. }
  split_and!; [done| | |].
  - intros k [_ Hk]%Hdel. by apply bool_decide_eq_false in Hk.
  - intros k. rewrite (view_Some _ _ (bucketOf_with_db s1 d1 b2)), (view_Some _ _ Hb), Hpr, Hv1.
    apply decide_ext. symmetry. apply Hdel.
  - intros Hall. rewrite (view_Some _ _ Hb) in Hall. rewrite E.
    assert (Hkept : ∀ k, is_Some (b_view b1 !! k) → kept k = true).
    { intros k Hk. apply bool_decide_eq_true. rewrite Hv1 in Hk. apply lookup_union_is_Some in Hk as [[v Hv]|Hk]; [|auto].
      apply elem_of_list_to_map_2 in Hv. by apply (list_elem_of_fmap_2 fst _ (k, v)). }
    rewrite b_Cursor_spec by (intros k Hk; by rewrite (Hkept k Hk)).
    cbn [app]. apply elem_of_nil_inv. intros k [Hk ([k' v] & -> & Hin)%list_elem_of_fmap]%list_elem_of_filter.
    apply elem_of_sorted_entries in Hin. rewrite Hkept in Hk; [done|by eexists].
Qed.

(** A pair with a blank key is left out, and the update reports success; the in-memory store
    reports an error. *)
Lemma Update_drops_blank s b v :
  bucketOf s = Some b → ∃ s' del, Update [([], v)] s = (s', Ok del) ∧ ([] ∉ del → view s' !! [] = b_view b !! []).
Proof.
  intros Hb. unfold Update.
  destruct (updating_healthy (λ b, (put_pairs [([], v)] b, Ok tt)) s b _ tt Hb eq_refl) as (d & Hd & ->).
  set (b1 := put_pairs [([], v)] b). pose proof (bucketOf_with_db s d b1) as Hb1. set (s1 := with_db s _) in *.
  set (kept := λ key, bool_decide (key ∈ [([], v)].*1)).
  destruct (prune_spec kept (b_Cursor (λ k, negb (kept k)) b1) b1 []) as [E Hpr].
  destruct (prune kept _ b1 []) as [b2 del] eqn:Ep. cbn [fst snd] in *.
  edestruct (updating_healthy (λ b, let '(b', deletedKeys) := prune kept (b_Cursor (λ k, negb (kept k)) b) b [] in
    (b', Ok deletedKeys)) s1 b1 b2 del Hb1) as (d1 & Hd1 & E2); [by rewrite Ep|].
  eexists _, _. split; [exact E2|]. intros _. rewrite (view_Some _ _ (bucketOf_with_db s1 d1 b2)), Hpr.
  rewrite decide_False by (intros [_ Hk]; by apply bool_decide_eq_false in Hk; apply Hk; left).
  unfold b1. cbn [put_pairs]. destruct (b_Put_spec [] v b) as [_ ->]. pose proof (b_Put_blank v b).
  by destruct (b_Put [] v b) as [? [|]].
Qed.

(** ** One database, many stores *)
Definition buckets (s : t) : gmap bytes bucket := default ∅ (db s).

Lemma updating_isolated {A} (fn : bucket → bucket * res A) s n :
  n ≠ bucketName s → buckets (updating fn s).1 !! n = buckets s !! n.
Proof.
  intros Hn. unfold updating, Update_tx, in_bucket, buckets. destruct s as [[d|] name]; [|done]. cbn in *.
  destruct (bolt_begin true d); [done|]. destruct (d !! name) as [b|]; [|done].
  destruct (fn b) as [b' [a|e| |]]; try done. destruct (bolt_commit _); [done|]. cbn. by apply lookup_insert_ne.
Qed.

(** The operations that change a store *)
Inductive change : Type :=
| CSet (key : bytes) (value : option bytes) | CDelete (keys : list bytes) | CDeleteAll
| CUpdate (kvPairs : list (bytes * bytes)) | CAppend (values : list bytes).

Definition apply_change (s : t) (c : change) : t :=
  match c with
  | CSet k v => (Set_nil k v s).1
  | CDelete ks => (Delete ks s).1
  | CDeleteAll => (DeleteAll s).1
  | CUpdate kvs => (Update kvs s).1
  | CAppend vs => (AppendValues vs s).1
  end.

(** Whatever is done to one store, and whether or not it succeeds, the buckets of the other stores
    in the database stay as they were. *)
Theorem stores_isolated c s n : n ≠ bucketName s → buckets (apply_change s c) !! n = buckets s !! n.
Proof.
  intros Hn. destruct c as [k v|ks| |kvs|vs]; cbn [apply_change].
  - unfold Set_nil. pose proof (updating_isolated (λ b,
      match v with None => (b, Ok tt) | Some value => let '(b', e) := b_Put k value b in
        (b', match e with Some e => Err (Wrapf "error setting %s key: %w" e) | None => Ok tt end) end) s n Hn) as Hiso.
    by destruct (updating _ s).
  - unfold Delete. pose proof (updating_isolated (Delete_loop ks) s n Hn) as Hiso. by destruct (updating _ s).
  - unfold DeleteAll, Update_tx, buckets. destruct s as [[d|] name]; [|done]. cbn in *.
    destruct (bolt_begin true d); [done|]. pose proof (tx_Delete_spec name d) as HD.
    destruct (tx_DeleteBucket name d) as [d1 [e|]]; [done|]. subst d1.
    pose proof (tx_Create_spec name (delete name d)) as HC.
    destruct (tx_CreateBucketIfNotExists name _) as [d2 [e|]]; [done|].
    destruct HC as (b & _ & _ & _ & Hrest). destruct (bolt_commit d2); [done|]. cbn.
    by rewrite Hrest, lookup_delete_ne.
  - unfold Update. pose proof (updating_isolated (λ b, (put_pairs kvs b, Ok tt)) s n Hn) as H1.
    assert (Hname : bucketName (updating (λ b, (put_pairs kvs b, Ok tt)) s).1 = bucketName s).
    { unfold updating. destruct (db s); [|done]. by destruct (Update_tx _ _). }
    destruct (updating (λ b, (put_pairs kvs b, Ok tt)) s) as [s1 [a|e| |]]; try done. cbn [fst] in *.
    rewrite <- H1. apply updating_isolated. by rewrite Hname.
  - unfold AppendValues. destruct (db s) eqn:Ed; [|done].
    pose proof (updating_isolated (AppendValues_loop vs) s n Hn) as Hiso. by destruct (updating _ s).
Qed.

(** Opening the database makes every store, and keeps what the stores held. *)
Lemma MakeStores_loop_spec names : ∀ d acc,
  Forall (λ n, 0 < len n <= MaxKeySize) names →
  ∃ d', MakeStores_loop names d acc = (d', Ok (acc ++ names)) ∧
    (∀ n b, d !! n = Some b → d' !! n = Some b) ∧ ∀ n, n ∈ names → is_Some (d' !! n).
Proof.
  induction names as [|n names IH]; intros d acc Hf; cbn [MakeStores_loop].
  { exists d. rewrite app_nil_r. split_and!; [done..|]. by intros n ?%elem_of_nil. }
  apply Forall_cons in Hf as [Hf1 Hf]. unfold NewStore, Update_tx. rewrite healthy_begin.
  pose proof (tx_Create_fits n d Hf1) as E. pose proof (tx_Create_spec n d) as HC.
  destruct (tx_CreateBucketIfNotExists n d) as [d1 er]. cbn [snd] in E. subst er. rewrite healthy_commit.
  destruct HC as (b & Hb & Hold & _ & Hrest).
  destruct (IH d1 (acc ++ [n]) Hf) as (d' & -> & Hk & Hall). exists d'. rewrite <- app_assoc. split_and!; [done| |].
  - intros n' b' Hn'. apply Hk. destruct (decide (n' = n)) as [->|Hne]; [|by rewrite Hrest].
    by rewrite Hb, (Hold b').
  - intros n' [->|Hn']%elem_of_cons; [|by apply Hall]. exists b. by apply Hk.
Qed.

Lemma MakeStores_all d :
  ∃ d', MakeStores d = (d', Ok storeNames) ∧ NoDup storeNames ∧
    (∀ n b, d !! n = Some b → d' !! n = Some b) ∧ ∀ n, n ∈ storeNames → is_Some (d' !! n).
Proof.
  destruct (MakeStores_loop_spec storeNames d []) as (d' & E & H1 & H2).
  { apply (bool_decide_unpack _). vm_compute. exact I. }
  exists d'. split_and!; try done. apply (bool_decide_unpack _). vm_compute. exact I.
Qed.
End Lib.

(** ** Witnesses: a database in memory *)
Definition toyBucket : Type := gmap bytes bytes * Z.

Definition toyPut (k v : bytes) (b : toyBucket) : toyBucket * option err :=
  if (0 <? len k) && (len k <=? MaxKeySize) && (len v <=? MaxValueSize) then ((<[k := v]> b.1, b.2), None)
  else (b, Some (Errorf "key required")).

#[global] Instance toyLib : BoltLib := {|
  bucket := toyBucket;
  bolt_begin _ _ := None; bolt_commit _ := None;
  tx_CreateBucketIfNotExists n db :=
    match db !! n with
    | Some _ => (db, None)
    | None => if (0 <? len n) && (len n <=? MaxKeySize) then (<[n := (∅, 0)]> db, None) else (db, Some (Errorf "bad name"))
    end;
  tx_DeleteBucket n db := match db !! n with Some _ => (delete n db, None) | None => (db, Some (Errorf "not found")) end;
  b_Get b k := b.1 !! k;
  b_Put := toyPut;
  b_Delete k b := ((delete k b.1, b.2), None);
  b_ForEach b := sorted_entries b.1;
  b_NextSequence b := ((b.1, b.2 + 1), Ok (b.2 + 1));
  b_KeyN b := Z.of_nat (size b.1);
  b_Cursor _ b := (sorted_entries b.1).*1
|}.

#[global] Program Instance toyLaws : BoltLaws := {| b_view := fst; b_sequence := snd |}.
Next Obligation. done. Qed.
Next Obligation. done. Qed.
Next Obligation. done. Qed.
Next Obligation. intros k v b. cbn. unfold toyPut. by destruct (_ && _). Qed.
Next Obligation.
  intros k v b Hk Hv. cbn. unfold toyPut. destruct (0 <? len k) eqn:E1, (len k <=? MaxKeySize) eqn:E2,
    (len v <=? MaxValueSize) eqn:E3; zbool; try done; lia.
Qed.
Next Obligation. done. Qed.
Next Obligation. done. Qed.
Next Obligation. done. Qed.
Next Obligation. done. Qed.
Next Obligation.
  intros n db. change (gmap bytes toyBucket) in db. cbn. destruct (db !! n) as [b|] eqn:E.
  - exists b. rewrite E. split_and!; try done. by intros b0 [= ->].
  - destruct (_ && _); [|done]. exists (∅, 0). rewrite lookup_insert_eq. split_and!; try done.
    intros m Hm. by rewrite lookup_insert_ne.
Qed.
Next Obligation.
  intros n db Hn. change (gmap bytes toyBucket) in db. cbn. destruct (db !! n); [done|].
  destruct (0 <? len n) eqn:E1, (len n <=? MaxKeySize) eqn:E2; zbool; try done; lia.
Qed.
Next Obligation. intros n db. change (gmap bytes toyBucket) in db. cbn. by destruct (db !! n). Qed.

#[global] Instance toyHealthy : BoltHealthy.
Proof. by constructor. Qed.

Definition toyStore : t := Store (Some {[bs "config" := (∅, 0); bs "tokens" := (∅, 7)]}) (bs "config").

Lemma toyStore_bucket : bucketOf toyStore = Some (∅, 0).
Proof. apply (lookup_insert_eq (M := gmap bytes)). Qed.

Lemma answers_agree_witness :
  Forall2 alike
    (run step_bolt [OSet (bs "k") (bs "v"); OAppend [bs "x"; bs "y"]; OSet [] (bs "no"); OForEach; ODelete [bs "k"];
                    OGet (be8 2); OGet (bs "k"); OCount] toyStore).2
    [ADone true; ADone true; ADone false; AVisit (Some [(bs "k", bs "v"); (be8 1, bs "x"); (be8 2, bs "y")]); ADone true;
     ARead (Some (Some (bs "y"))); ARead (Some None); ACount (Some 2)].
Proof.
  refine (proj1 (answers_agree _ toyStore (InMemory.Store ∅ [] 0) _ _ _ _)).
  - exists (∅, 0). split; [apply toyStore_bucket|]. split_and!; [done..|apply InMemory.wf_empty].
  - done.
  - done.
  - repeat constructor; vm_compute; discriminate.
Defined.

Definition oldBucket : toyBucket := ({[bs "old" := bs "0"]}, 0).
Definition oldStore : t := Store (Some {[bs "config" := oldBucket]}) (bs "config").

Lemma Update_stores_witness :
  ∃ s' del, Update [(bs "a", bs "1")] oldStore = (s', Ok del) ∧
    (∀ k, k ∈ del → k ∉ [(bs "a", bs "1")].*1) ∧ view s' !! bs "a" = Some (bs "1").
Proof.
  assert (Hb : bucketOf oldStore = Some oldBucket) by apply (lookup_singleton_eq (M := gmap bytes)).
  assert (Hn : NoDup [(bs "a", bs "1")].*1) by (apply (bool_decide_unpack _); vm_compute; exact I).
  assert (Hf : Forall (λ '(k, v), 0 < len k <= MaxKeySize ∧ len v <= MaxValueSize) [(bs "a", bs "1")]).
  { apply Forall_singleton. vm_compute. repeat split; discriminate. }
  destruct (Update_stores [(bs "a", bs "1")] oldStore oldBucket Hb Hn Hf) as (s' & del & E & H1 & H2 & _).
  exists s', del. split; [exact E|]. split; [exact H1|]. rewrite H2, decide_False; [vm_compute; reflexivity|].
  intros Hin. apply (H1 _ Hin). left.
Defined.

Lemma stores_isolated_witness :
  buckets (apply_change toyStore CDeleteAll) !! bs "tokens" = buckets toyStore !! bs "tokens" ∧
  buckets toyStore !! bs "tokens" = Some ((∅, 7) : toyBucket).
Proof.
  split; [apply (stores_isolated CDeleteAll toyStore); discriminate|].
  etrans; [by apply (lookup_insert_ne (M := gmap bytes))|apply (lookup_singleton_eq (M := gmap bytes))].
Defined.
End Bbolt.
