(* ===== verification/ActionQueue.v ===== *)
(** * ee/control/actionqueue: actions sent by the control server

    [ActionQueue] performs the actions of an update and remembers the completed ones in a
    key/value store, so that an action that is sent again is not done again.  The model is
    written against the [KVStore] interface. *)
From S2P Require Import Prelude KVStore.
Set Warnings "-clear-no-such-hyp".

Module ActionQueue.

(** ** Actions *)
Record action := Action {
  ID : bytes;
  ValidUntil : Z;    (* int64, seconds *)
  Type_ : bytes;
  ProcessedAt : Z    (* nanoseconds since the epoch *)
}.

(** encoding/json on actions *)
Class ActionJSON := {
  decodeActions : bytes → option (list bytes);     (* a list of raw messages *)
  unmarshalAction : bytes → option action;
  marshalAction : action → option bytes
}.

(** time.Hour * 24 * 30 * 6 *)
Definition actionRetentionPeriod : Z := 3600 * 10 ^ 9 * 24 * 30 * 6.

(** What the outside world answers while one action is handled: the clock when its validity
    is checked (seconds), the actor's [Do] by type, and the clock when it is done *)
Record callEnv := CallEnv {
  validNow : Z;
  doAction : bytes → bytes → option err;
  doneAt : Z
}.

(** A call of an actor: the action, and what [Do] returned *)
Record doEvent := DoEvent { ev_action : action; ev_raw : bytes; ev_err : option err }.

Section Queue.
Context {S : Type} `{KV : KVStore S} `{J : ActionJSON}.

(** The actors are known by the types they are registered for. *)
Record queue := Queue {
  actors : gset bytes;
  store : S;
  oldNotificationsStore : option S
}.

Definition with_store (aq : queue) (s : S) : queue := Queue (actors aq) s (oldNotificationsStore aq).

Definition RegisterActor (actorType : bytes) (aq : queue) : queue :=
  Queue ({[ actorType ]} ∪ actors aq) (store aq) (oldNotificationsStore aq).

Definition isActionNew (aq : queue) (id : bytes) : bool :=
  match kv_Get (store aq) id with
  | Ok None =>
      match oldNotificationsStore aq with
      | None => true
      | Some old => match kv_Get old id with Ok None => true | _ => false end
      end
  | _ => false
  end.

Definition isActionValid (now : Z) (a : action) : bool :=
  if bool_decide (ID a = []) then false
  else if ValidUntil a <=? 0 then false
  else now <? ValidUntil a.

Definition actorForAction (aq : queue) (a : action) : res bytes :=
  if bool_decide (actors aq = ∅) then Err (Errorf "no actor registered")
  else if bool_decide (Type_ a = []) then
    Err (Errorf "action does not have type, cannot determine actor")
  else if bool_decide (Type_ a ∈ actors aq) then Ok (Type_ a)
  else Err (Errorf "actor type %s not found").

Definition storeActionRecord (aq : queue) (a : action) : queue :=
  match marshalAction a with
  | None => aq
  | Some rawAction => with_store aq (kv_Set (ID a) rawAction (store aq)).1
  end.

(** One iteration of the loop of [Update]: the queue, the call it made if any, and the error
    it leaves in [processError] *)
Definition process (aq : queue) (rawAction : bytes) (env : callEnv) : queue * option doEvent :=
  match unmarshalAction rawAction with
  | None => (aq, None)
  | Some a =>
      if negb (isActionValid (validNow env) a) || negb (isActionNew aq (ID a)) then (aq, None)
      else
        match actorForAction aq a with
        | Ok actor =>
            match doAction env actor rawAction with
            | Some e => (aq, Some (DoEvent a rawAction (Some e)))
            | None =>
                let a := Action (ID a) (ValidUntil a) (Type_ a) (doneAt env) in
                (storeActionRecord aq a, Some (DoEvent a rawAction None))
            end
        | _ => (aq, None)
        end
  end.

Definition do_error (ev : doEvent) : option err :=
  Wrapf "actor.Do, action type: %s, failed: %w" <$> ev_err ev.

Fixpoint Update_loop (l : list (bytes * callEnv)) (aq : queue) (processError : option err)
    : queue * list doEvent * option err :=
  match l with
  | [] => (aq, [], processError)
  | (rawAction, env) :: l' =>
      match process aq rawAction env with
      | (aq, None) => Update_loop l' aq processError
      | (aq, Some ev) =>
          let processError := match do_error ev with Some e => Some e | None => processError end in
          let '(aq, tr, processError) := Update_loop l' aq processError in
          (aq, ev :: tr, processError)
      end
  end.

(** [Update]; [env i] is the world while the [i]-th action is handled *)
Definition Update (env : nat → callEnv) (data : bytes) (aq : queue) : queue * list doEvent * option err :=
  match decodeActions data with
  | None => (aq, [], Some (Errorf "failed to decode actions data: %w"))
  | Some rawActionsToProcess => Update_loop (imap (λ i raw, (raw, env i)) rawActionsToProcess) aq None
  end.

Definition expired (now : Z) (a : action) : bool := ProcessedAt a + actionRetentionPeriod <? now.

(** The function given to [ForEach] in [cleanupActions] *)
Definition cleanup_entry (now : Z) (k v : bytes) (keysToDelete : list bytes) : list bytes * option err :=
  match unmarshalAction v with
  | None => (keysToDelete, Some (Errorf "error processing %s: %w"))
  | Some processedAction =>
      (if expired now processedAction then keysToDelete ++ [k] else keysToDelete, None)
  end.

Definition cleanupActions (now : Z) (aq : queue) : queue :=
  let '(keysToDelete, _) := kv_ForEach (cleanup_entry now) (store aq) [] in
  with_store aq (kv_Delete keysToDelete (store aq)).1.

(** ** Runs: what happens to a queue between two cleanups *)
Inductive request : Type :=
| RRegister (actorType : bytes)
| RUpdate (env : nat → callEnv) (data : bytes).

Definition handle (aq : queue) (r : request) : queue * list doEvent :=
  match r with
  | RRegister ty => (RegisterActor ty aq, [])
  | RUpdate env data => (Update env data aq).1
  end.

Fixpoint run (aq : queue) (rs : list request) : queue * list doEvent :=
  match rs with
  | [] => (aq, [])
  | r :: rs' =>
      let '(aq, tr) := handle aq r in
      let '(aq, tr') := run aq rs' in
      (aq, tr ++ tr')
  end.

(** The ids of the actions that were done *)
Definition done_ids (tr : list doEvent) : list bytes :=
  omap (λ ev, match ev_err ev with None => Some (ID (ev_action ev)) | Some _ => None end) tr.

(** ** At most once *)
Context `{!KVLaws S}.

(** What one action does to the records *)
Definition records (aq aq' : queue) (ids : list bytes) : Prop :=
  kv_ok (store aq) → kv_ok (store aq') ∧ oldNotificationsStore aq' = oldNotificationsStore aq ∧
  NoDup ids ∧
  (∀ id, id ∈ ids → kv_view (store aq) !! id = None) ∧
  (∀ id, is_Some (kv_view (store aq') !! id) ↔ is_Some (kv_view (store aq) !! id) ∨ id ∈ ids).

Lemma records_refl aq : records aq aq [].
Proof.
  intros H. split_and!; try done; [constructor|by intros ? ?%elem_of_nil|].
  intros id. rewrite elem_of_nil. tauto.
Qed.

Lemma records_trans aq1 aq2 aq3 l1 l2 :
  records aq1 aq2 l1 → records aq2 aq3 l2 → records aq1 aq3 (l1 ++ l2).
Proof.
  intros H1 H2 Hok. destruct (H1 Hok) as (Hok2 & E1 & N1 & F1 & D1).
  destruct (H2 Hok2) as (Hok3 & E2 & N2 & F2 & D2).
  assert (F2' : ∀ id, id ∈ l2 → kv_view (store aq1) !! id = None ∧ id ∉ l1).
  { intros id Hid%F2. destruct (kv_view (store aq1) !! id) eqn:E.
    - destruct (proj2 (D1 id)) as [? ?]; [left; by rewrite E|congruence].
    - split; [done|]. intros Hin. destruct (proj2 (D1 id)) as [? ?]; [by right|congruence]. }
  split_and!; try done; [congruence| | |].
  - apply NoDup_app. split_and!; try done. intros id Hl1 Hl2. by destruct (F2' id Hl2).
  - intros id [Hin|Hin]%elem_of_app; [by apply F1|by apply F2'].
  - intros id. rewrite D2, D1, elem_of_app. tauto.
Qed.

Lemma done_ids_app l1 l2 : done_ids (l1 ++ l2) = done_ids l1 ++ done_ids l2.
Proof. apply omap_app. Qed.

Context `{!KVReliable S} (marshal_total : ∀ a, is_Some (marshalAction a)).

Lemma process_records aq raw env :
  let '(aq', ev) := process aq raw env in
  records aq aq' (done_ids (match ev with Some ev => [ev] | None => [] end)).
Proof using All.
  unfold process. destruct (unmarshalAction raw) as [a|]; [|apply records_refl].
  destruct (isActionValid (validNow env) a) eqn:Ev; [|apply records_refl].
  destruct (isActionNew aq (ID a)) eqn:En; [|apply records_refl]. cbn [negb orb].
  destruct (actorForAction aq a) as [ty|e| |]; try apply records_refl.
  destruct (doAction env ty raw); [apply records_refl|].
  cbn [done_ids omap list_omap ev_err ev_action ID]. unfold storeActionRecord.
  set (a' := Action _ _ _ _). destruct (marshal_total a') as [v Hv]. rewrite Hv.
  assert (Hid : ID a ≠ []) by (intros E; unfold isActionValid in Ev; by rewrite bool_decide_true in Ev).
  intros Hok. destruct (kv_Set_spec (ID a) v (store aq) Hok) as [Hok' Hview].
  rewrite (kv_Set_reliable (ID a) v (store aq) Hok Hid) in Hview. cbn [store with_store a' ID].
  assert (Hnew : kv_view (store aq) !! ID a = None).
  { unfold isActionNew in En. rewrite kv_Get_reliable in En by done. by destruct (kv_view (store aq) !! ID a). }
  split_and!; try done.
  - apply NoDup_singleton.
  - by intros id ->%list_elem_of_singleton.
  - intros id. rewrite Hview, lookup_insert_is_Some, list_elem_of_singleton.
    destruct (decide (ID a = id)) as [->|Hne]; [tauto|]. intuition congruence.
Qed.

Lemma Update_loop_records l : ∀ aq e, let '(aq', tr, _) := Update_loop l aq e in records aq aq' (done_ids tr).
Proof using All.
  induction l as [|[raw env] l IH]; intros aq e; cbn [Update_loop]; [apply records_refl|].
  pose proof (process_records aq raw env) as H. destruct (process aq raw env) as [aq1 [ev|]].
  - specialize (IH aq1 (match do_error ev with Some e => Some e | None => e end)).
    destruct (Update_loop l aq1 _) as [[aq2 tr] e'].
    change (ev :: tr) with ([ev] ++ tr). rewrite done_ids_app. apply (records_trans _ _ _ _ _ H IH).
  - specialize (IH aq1 e). destruct (Update_loop l aq1 e) as [[aq2 tr] e'].
    apply (records_trans _ _ _ _ _ H IH).
Qed.

(** C31: An action is completed at most once: over any sequence of updates and registrations,
    no id is done twice, an id the store already knows is not done at all, and in the end the
    store knows exactly the ids it knew before and those done since; failed, invalid and
    malformed actions leave no record. *)
Theorem at_most_once aq rs :
  kv_ok (store aq) →
  let '(aq', tr) := run aq rs in
  NoDup (done_ids tr) ∧
  (∀ id, id ∈ done_ids tr → kv_view (store aq) !! id = None) ∧
  (∀ id, is_Some (kv_view (store aq') !! id) ↔ is_Some (kv_view (store aq) !! id) ∨ id ∈ done_ids tr).
Proof using All.
  assert (H : ∀ rs aq, let '(aq', tr) := run aq rs in records aq aq' (done_ids tr)).
  { clear aq rs. induction rs as [|r rs IH]; intros aq; cbn [run]; [apply records_refl|].
    assert (Hr : let '(aq', tr) := handle aq r in records aq aq' (done_ids tr)).
    { destruct r as [ty|env data]; cbn [handle]; [apply (records_refl (RegisterActor ty aq))|].
      unfold Update. destruct (decodeActions data) as [raws|]; [|apply records_refl].
      pose proof (Update_loop_records (imap (λ i raw, (raw, env i)) raws) aq None) as Hl.
      by destruct (Update_loop _ aq None) as [[aq1 tr1] e1]. }
    destruct (handle aq r) as [aq1 tr1]. specialize (IH aq1). destruct (run aq1 rs) as [aq2 tr2].
    rewrite done_ids_app. by eapply records_trans. }
  intros Hok. specialize (H rs aq). destruct (run aq rs) as [aq' tr]. by destruct (H Hok) as (_ & _ & ? & ? & ?).
Qed.

End Queue.

(** ** Errors and independence of the actions *)
Section Update.
Context {S : Type} `{KV : KVStore S} `{J : ActionJSON}.

(** The last error among the calls *)
Definition last_error (tr : list doEvent) : option err := last (omap do_error tr).

Lemma last_error_cons ev tr :
  last_error (ev :: tr) =
    match last_error tr with Some e => Some e | None => do_error ev end.
Proof.
  unfold last_error. cbn [omap list_omap]. destruct (do_error ev) as [e|]; [|by destruct (last _)].
  rewrite last_cons. by destruct (last _).
Qed.

Lemma Update_loop_error l : ∀ (aq : queue) e,
  let '(_, tr, e') := Update_loop l aq e in
  e' = match last_error tr with Some e' => Some e' | None => e end.
Proof.
  induction l as [|[raw env] l IH]; intros aq e; cbn [Update_loop]; [done|].
  destruct (process aq raw env) as [aq1 [ev|]].
  - specialize (IH aq1 (match do_error ev with Some e => Some e | None => e end)).
    destruct (Update_loop l aq1 _) as [[aq2 tr] e']. rewrite IH, last_error_cons.
    destruct (last_error tr); [done|]. by destruct (do_error ev).
  - specialize (IH aq1 e). by destruct (Update_loop l aq1 e) as [[aq2 tr] e'].
Qed.

(** On decodable data, [Update] reports the error of the last actor that failed, and no
    error exactly when every actor it called succeeded. *)
Theorem Update_reports_last_error env data (aq : queue) raws :
  decodeActions data = Some raws →
  let '(_, tr, e) := Update env data aq in
  e = last_error tr ∧ (e = None ↔ Forall (λ ev, ev_err ev = None) tr).
Proof.
  intros Hd. unfold Update. rewrite Hd.
  pose proof (Update_loop_error (imap (λ i raw, (raw, env i)) raws) aq None) as H.
  destruct (Update_loop _ aq None) as [[aq' tr] e].
  assert (He : e = last_error tr) by (rewrite H; by destruct (last_error tr)).
  split; [done|]. rewrite He. clear. induction tr as [|ev tr IH].
  { split; [constructor|done]. }
  rewrite last_error_cons, Forall_cons, <- IH. unfold do_error.
  destruct (last_error tr); [naive_solver|]. destruct (ev_err ev); naive_solver.
Qed.

(** The actions [Update] may give to an actor: well-formed, valid, and of a registered type *)
Definition processable (actors : gset bytes) (raw : bytes) (env : callEnv) : bool :=
  match unmarshalAction raw with
  | None => false
  | Some a =>
      isActionValid (validNow env) a && negb (bool_decide (Type_ a = [])) &&
      bool_decide (Type_ a ∈ actors)
  end.

Lemma process_unprocessable (aq : queue) raw env :
  processable (actors aq) raw env = false → process aq raw env = (aq, None).
Proof.
  unfold processable, process. destruct (unmarshalAction raw) as [a|]; [|done].
  destruct (isActionValid (validNow env) a); [|done]. cbn [negb orb andb].
  destruct (isActionNew aq (ID a)); [|done]. cbn [negb]. unfold actorForAction.
  by repeat case_bool_decide.
Qed.

Lemma process_actors (aq : queue) raw env : actors (process aq raw env).1 = actors aq.
Proof.
  unfold process, storeActionRecord. destruct (unmarshalAction raw) as [a|]; [|done].
  destruct (_ || _); [done|]. destruct (actorForAction aq a) as [ty|e| |]; try done.
  destruct (doAction env ty raw); [done|]. by destruct (marshalAction _).
Qed.

(** One bad action does not stop the others: removing malformed, expired and unroutable
    actions from the data changes neither the calls, nor the records, nor the error. *)
Theorem Update_skips_unprocessable l (aq : queue) e :
  Update_loop l aq e = Update_loop (filter (λ x, processable (actors aq) x.1 x.2) l) aq e.
Proof.
  remember (actors aq) as ty eqn:Ety. revert aq e Ety.
  induction l as [|[raw env] l IH]; intros aq e Ety; [done|].
  destruct (processable ty raw env) eqn:Ep.
  - rewrite filter_cons_True by (cbn; by rewrite Ep). cbn [Update_loop].
    pose proof (process_actors aq raw env) as Ha. destruct (process aq raw env) as [aq1 [ev|]];
      cbn [fst] in Ha; rewrite IH by (by rewrite Ha); done.
  - rewrite filter_cons_False by (cbn; rewrite Ep; by intros []). cbn [Update_loop].
    rewrite process_unprocessable by (by rewrite <- Ety). by apply IH.
Qed.

(** ** Cleanup *)
Context `{!KVLaws S}.

(** A record that is to be deleted at time [now] *)
Definition is_expired (now : Z) (v : bytes) : bool :=
  match unmarshalAction v with Some a => expired now a | None => false end.

Lemma cleanup_forEach now l : ∀ keys,
  Forall (λ kv, is_Some (unmarshalAction kv.2)) l →
  forEach (cleanup_entry now) l keys =
    (keys ++ map fst (filter (λ kv, is_expired now kv.2) l), None).
Proof.
  induction l as [|[k v] l IH]; intros keys H; [by rewrite app_nil_r|].
  apply Forall_cons in H as [[a Ha] H]. cbn [forEach cleanup_entry snd] in *.
  unfold cleanup_entry at 1. rewrite Ha. destruct (expired now a) eqn:Ee; rewrite IH by done.
  - rewrite filter_cons_True by (cbn; unfold is_expired; by rewrite Ha, Ee). cbn [map fst].
    by rewrite <- app_assoc.
  - rewrite filter_cons_False; [done|]. cbn. unfold is_expired. rewrite Ha, Ee. by intros [].
Qed.

Lemma lookup_foldl_delete (m : gmap bytes bytes) ks k :
  foldl (flip delete) m ks !! k = if decide (k ∈ ks) then None else m !! k.
Proof.
  revert m; induction ks as [|x ks IH]; intros m; cbn [foldl flip].
  { rewrite decide_False; [done|]. by intros ?%elem_of_nil. }
  rewrite IH. destruct (decide (k ∈ ks)) as [Hk|Hk].
  - by rewrite decide_True by (by right).
  - destruct (decide (x = k)) as [->|Hne].
    + rewrite lookup_delete_eq, decide_True by left. done.
    + rewrite lookup_delete_ne, decide_False by (done || (intros [->|?]%elem_of_cons; done)). done.
Qed.

(** When every record is a well-formed action, the cleanup forgets exactly the actions that
    were processed longer ago than the retention period, and keeps all others unchanged. *)
Theorem cleanup_forgets_expired now (aq : queue) l :
  kv_ok (store aq) → kv_entries (store aq) = Ok l →
  Forall (λ kv, is_Some (unmarshalAction kv.2)) l →
  (∀ ks, (kv_Delete ks (store aq)).2 = None) →
  ∀ id, kv_view (store (cleanupActions now aq)) !! id =
    match kv_view (store aq) !! id with
    | Some v => if is_expired now v then None else Some v
    | None => None
    end.
Proof.
  intros Hok El Hall Hdel id. unfold cleanupActions, kv_ForEach. rewrite El.
  rewrite cleanup_forEach by done. cbn [app store with_store].
  set (ks := map fst _). destruct (kv_Delete_spec ks (store aq) Hok) as [_ Hv].
  rewrite Hdel in Hv. rewrite Hv, lookup_foldl_delete.
  destruct (kv_entries_spec (store aq) Hok) as [(l' & El' & Hp)|[e He]]; [|congruence].
  rewrite El in El'. injection El' as <-.
  assert (Hks : id ∈ ks ↔ ∃ v, kv_view (store aq) !! id = Some v ∧ is_expired now v = true).
  { unfold ks. rewrite list_elem_of_fmap. split.
    - intros ([k v] & -> & [Hx Hin]%list_elem_of_filter). exists v. split; [|by apply Is_true_true].
      rewrite Hp in Hin. by apply elem_of_map_to_list.
    - intros (v & Hl & Hx). exists (id, v). split; [done|]. apply list_elem_of_filter.
      split; [by apply Is_true_true|]. rewrite Hp. by apply elem_of_map_to_list. }
  destruct (decide (id ∈ ks)) as [Hin|Hin].
  - apply Hks in Hin as (v & -> & ->). done.
  - destruct (kv_view (store aq) !! id) as [v|] eqn:Ev; [|done].
    destruct (is_expired now v) eqn:Ex; [|done]. exfalso. apply Hin, Hks. eauto.
Qed.
End Update.
(** ** Witnesses *)

(** A toy format: id, type and the quarter of processing in one byte each *)
Definition toyJSON : ActionJSON := {|
  decodeActions data := Some [data; data];
  unmarshalAction raw :=
    match raw with
    | [i; ty; p] => Some (Action [i] 100 [ty] (byte_Z p * (actionRetentionPeriod / 2)))
    | _ => None
    end;
  marshalAction a := Some (ID a ++ Type_ a ++ [x01])
|}.

Definition toyEnv : callEnv := CallEnv 50 (λ _ _, None) 7.
Definition toyQueue : @queue InMemory.store := Queue {[ bs "t" ]} InMemory.NewStore None.
Definition toyRequests : list request := [RUpdate (λ _, toyEnv) (bs "xt0"); RUpdate (λ _, toyEnv) (bs "xt0")].

Lemma at_most_once_witness :
  let tr := (@run _ _ toyJSON toyQueue toyRequests).2 in
  NoDup (done_ids tr) ∧ done_ids tr = [bs "x"].
Proof.
  split; [|vm_compute; reflexivity].
  pose proof (@at_most_once _ _ toyJSON _ _ ltac:(intros a; by eexists) toyQueue toyRequests
    InMemory.wf_NewStore) as H.
  destruct (@run _ _ toyJSON toyQueue toyRequests) as [aq' tr]. apply H.
Defined.

Lemma Update_reports_last_error_witness :
  let '(_, tr, e) := @Update _ _ toyJSON (λ _, CallEnv 50 (λ _ _, Some EOF) 7) (bs "xt0") toyQueue in
  e = last_error tr ∧ (e = None ↔ Forall (λ ev, ev_err ev = None) tr).
Proof. by apply (@Update_reports_last_error _ _ toyJSON _ _ _ [bs "xt0"; bs "xt0"]). Defined.

Definition toyRecords : @queue InMemory.store :=
  Queue ∅ (Some (InMemory.Store (<[bs "a" := bs "at" ++ [x00]]> (<[bs "b" := bs "bt" ++ [x03]]> ∅))
    [bs "b"; bs "a"] 0)) None.

Lemma toyRecords_ok : InMemory.wf_store (store toyRecords).
Proof.
  assert (E : foldl InMemory.apply_op InMemory.NewStore
    [InMemory.OSet (bs "b") (bs "bt" ++ [x03]); InMemory.OSet (bs "a") (bs "at" ++ [x00])] =
    store toyRecords) by reflexivity.
  rewrite <- E. apply InMemory.wf_apply_op, InMemory.wf_apply_op, InMemory.wf_NewStore.
Qed.

Lemma cleanup_forgets_expired_witness :
  let aq' := @cleanupActions _ _ toyJSON (actionRetentionPeriod + 1) toyRecords in
  kv_view (store aq') !! bs "a" = None ∧ kv_view (store aq') !! bs "b" = Some (bs "bt" ++ [x03]).
Proof.
  pose proof (@cleanup_forgets_expired _ _ toyJSON _ (actionRetentionPeriod + 1) toyRecords
    [(bs "b", bs "bt" ++ [x03]); (bs "a", bs "at" ++ [x00])] toyRecords_ok eq_refl) as H.
  cbv zeta. rewrite !H; try (repeat constructor; by eexists); split; vm_compute; reflexivity.
Defined.
End ActionQueue.
