(* ===== verification/Control.v ===== *)
(** * ee/control: the control service

    [ControlService] asks the control server which version (hash) of each subsystem's data is
    current, fetches what changed, hands it to the subsystem's consumer, pings its
    subscribers, and remembers the hash in memory and in a key/value store. *)
From S2P Require Import Prelude KVStore.
Set Warnings "-clear-no-such-hyp".

Module Control.

(** What a consumer does with its data: it may fail, and it may call back into the service
    during the fetch, by the action that asks for a full fetch ([Do]) or by changing the
    request interval. *)
Record consumerResult := ConsumerResult {
  c_err : option err;
  c_do : bool;
  c_interval : option Z
}.

(** The world during one [Fetch]: flags, the server's answers (a reader may be nil), and the
    consumers by subsystem *)
Record fetchEnv := FetchEnv {
  inModernStandby : bool;
  forceControlSubsystems : bool;
  getConfig : option bytes * option err;
  getSubsystemData : bytes → option bytes * option err;
  consume : bytes → bytes → consumerResult
}.

(** encoding/json on the subsystems map; the pairs come in the order Go ranges over them *)
Class ControlJSON := { decodeSubsystems : bytes → option (list (bytes * bytes)) }.

Inductive event : Type :=
| EConsume (subsystem data : bytes)     (* consumer.Update *)
| EPing (subsystem : bytes) (subscriber : nat)
| EStartup.                             (* a startup message that was accepted *)

Section Service.
Context {S : Type} `{KV : KVStore S} `{J : ControlJSON}.

Record service := Service {
  requestInterval : Z;
  fetchLocked : bool;                    (* fetchMutex is held *)
  fetchFull : bool;
  store : option S;
  lastFetched : gmap bytes bytes;
  consumers : gset bytes;
  subscribers : gmap bytes (list nat)
}.

Definition with_interval (cs : service) (i : Z) : service :=
  Service i (fetchLocked cs) (fetchFull cs) (store cs) (lastFetched cs) (consumers cs) (subscribers cs).
Definition with_locked (cs : service) (b : bool) : service :=
  Service (requestInterval cs) b (fetchFull cs) (store cs) (lastFetched cs) (consumers cs) (subscribers cs).
Definition with_full (cs : service) (b : bool) : service :=
  Service (requestInterval cs) (fetchLocked cs) b (store cs) (lastFetched cs) (consumers cs) (subscribers cs).
Definition with_store (cs : service) (s : option S) : service :=
  Service (requestInterval cs) (fetchLocked cs) (fetchFull cs) s (lastFetched cs) (consumers cs) (subscribers cs).
Definition with_last (cs : service) (m : gmap bytes bytes) : service :=
  Service (requestInterval cs) (fetchLocked cs) (fetchFull cs) (store cs) m (consumers cs) (subscribers cs).

Definition New (interval : Z) (s : option S) : service := Service interval false false s ∅ ∅ ∅.

(** ** Registration *)
Definition RegisterConsumer (subsystem : bytes) (cs : service) : service * option err :=
  if bool_decide (subsystem ∈ consumers cs) then
    (cs, Some (Errorf "subsystem %s already has registered consumer"))
  else
    (Service (requestInterval cs) (fetchLocked cs) (fetchFull cs) (store cs) (lastFetched cs)
       ({[ subsystem ]} ∪ consumers cs) (subscribers cs), None).

Definition subscribersOf (cs : service) (subsystem : bytes) : list nat :=
  default [] (subscribers cs !! subsystem).

Definition RegisterSubscriber (subsystem : bytes) (subscriber : nat) (cs : service) : service :=
  Service (requestInterval cs) (fetchLocked cs) (fetchFull cs) (store cs) (lastFetched cs)
    (consumers cs) (<[subsystem := subscribersOf cs subsystem ++ [subscriber]]> (subscribers cs)).

Definition knownSubsystem (cs : service) (subsystem : bytes) : bool :=
  bool_decide (subsystem ∈ consumers cs) || bool_decide (is_Some (subscribers cs !! subsystem)).

(** ** Updating one subsystem *)

(** The action [force_full_control_data_fetch] *)
Definition Do (cs : service) : service := with_full cs true.

(** What a consumer's callbacks leave behind.  A change of the interval also calls [Fetch],
    which is refused because the fetch in progress holds the lock. *)
Definition call_back (r : consumerResult) (cs : service) : service :=
  let cs := if c_do r then Do cs else cs in
  match c_interval r with Some i => with_interval cs i | None => cs end.

Definition update (env : fetchEnv) (subsystem data : bytes) (cs : service)
    : service * list event * option err :=
  let pings := map (EPing subsystem) (subscribersOf cs subsystem) in
  if bool_decide (subsystem ∈ consumers cs) then
    let r := consume env subsystem data in
    match c_err r with
    | Some e => (call_back r cs, [EConsume subsystem data], Some e)
    | None => (call_back r cs, EConsume subsystem data :: pings, None)
    end
  else (cs, pings, None).

Definition fetchAndUpdate (env : fetchEnv) (subsystem hash : bytes) (cs : service)
    : service * list event * option err :=
  match getSubsystemData env hash with
  | (Some data, None) =>
      match update env subsystem data cs with
      | (cs, tr, Some e) => (cs, tr, Some e)
      | (cs, tr, None) =>
          let cs := with_last cs (<[subsystem := hash]> (lastFetched cs)) in
          match store cs with
          | None => (cs, tr, None)
          | Some s => (with_store cs (Some (kv_Set subsystem hash s).1), tr, None)
          end
      end
  | (None, None) => (cs, [], Some (Errorf "control data is nil"))
  | (_, Some e) => (cs, [], Some (Wrapf "failed to get control data: %w" e))
  end.

(** The hash of the version fetched last; a stored hash that cannot be read counts as none *)
Definition lastHash (cs : service) (subsystem : bytes) : bytes :=
  match lastFetched cs !! subsystem with
  | Some h => h
  | None =>
      match store cs with
      | None => []
      | Some s => match kv_Get s subsystem with Ok v => default [] v | _ => [] end
      end
  end.

(** Is the subsystem to be fetched in this round? *)
Definition wanted (env : fetchEnv) (full : bool) (cs : service) (subsystem hash : bytes) : bool :=
  knownSubsystem cs subsystem &&
  negb (bool_decide (hash = lastHash cs subsystem) && negb (forceControlSubsystems env) && negb full).

Fixpoint Fetch_loop (env : fetchEnv) (full : bool) (subsystems : list (bytes * bytes)) (cs : service)
    : service * list event :=
  match subsystems with
  | [] => (cs, [])
  | (subsystem, hash) :: rest =>
      if wanted env full cs subsystem hash then
        let '(cs, tr, _) := fetchAndUpdate env subsystem hash cs in
        let '(cs, tr') := Fetch_loop env full rest cs in
        (cs, tr ++ tr')
      else Fetch_loop env full rest cs
  end.

(** [Fetch] once it holds the lock *)
Definition Fetch_locked (env : fetchEnv) (cs : service) : service * list event * option err :=
  match getConfig env with
  | (_, Some e) => (cs, [], Some (Wrapf "getting subsystems map: %w" e))
  | (None, None) => (cs, [], Some (Errorf "subsystems map data is nil"))
  | (Some data, None) =>
      match decodeSubsystems data with
      | None => (cs, [], Some (Errorf "decoding subsystems map: %w"))
      | Some subsystems =>
          let full := fetchFull cs in
          let '(cs, tr) := Fetch_loop env full subsystems (with_full cs false) in
          (cs, tr, None)
      end
  end.

Definition Fetch (env : fetchEnv) (cs : service) : service * list event * option err :=
  if inModernStandby env then (cs, [], None)
  else if fetchLocked cs then (cs, [], Some (Errorf "fetch is currently executing elsewhere"))
  else
    let '(cs, tr, e) := Fetch_locked env (with_locked cs true) in
    (with_locked cs false, tr, e).

(** ** Reacting to flags *)
Definition requestIntervalChanged (env : fetchEnv) (newInterval : Z) (cs : service) : service * list event :=
  if newInterval =? requestInterval cs then (cs, [])
  else
    let '(cs, tr, _) := Fetch env cs in
    (with_interval cs newInterval, tr).

(** [FlagsChanged]: which of the two flags the service observes changed, and the new interval;
    the two fetches see the worlds [env1] and [env2] *)
Definition FlagsChanged (intervalChanged standbyChanged : bool) (newInterval : Z) (env1 env2 : fetchEnv)
    (cs : service) : service * list event :=
  let '(cs, tr1) := if intervalChanged then requestIntervalChanged env1 newInterval cs else (cs, []) in
  if standbyChanged && negb (inModernStandby env2) then
    let '(cs, tr2, _) := Fetch env2 cs in (cs, tr1 ++ tr2)
  else (cs, tr1).

(** ** The main loop: one round per tick; [sendOk] is the server's answer to the startup
    message of that round *)
Fixpoint Start (rounds : list (fetchEnv * bool)) (startUpMessageSuccess : bool) (cs : service)
    : service * list event :=
  match rounds with
  | [] => (cs, [])
  | (env, sendOk) :: rest =>
      let '(cs, tr, fetchErr) := Fetch env cs in
      let sent := match fetchErr with
                  | Some _ => false
                  | None => negb startUpMessageSuccess && sendOk
                  end in
      let '(cs, tr') := Start rest (startUpMessageSuccess || sent) cs in
      (cs, tr ++ (if sent then [EStartup] else []) ++ tr')
  end.

(** [startupData]: version and run id are always sent, the rest when it can be read *)
Definition startupData (version runId : bytes) (enrollStatus : res bytes) (serial : bytes) (provided : S)
    : gmap bytes bytes :=
  let from_store name key (data : gmap bytes bytes) :=
    match kv_Get provided key with
    | Ok v => <[name := default [] v]> data
    | _ => data
    end in
  let data := <[bs "run_id" := runId]> (<[bs "launcher_version" := version]> ∅) in
  let data := match enrollStatus with
              | Ok st => <[bs "current_enrollment_status" := st]> data
              | _ => data
              end in
  let data := from_store (bs "device_id") (bs "device_id") data in
  let data := from_store (bs "munemo") (bs "munemo") data in
  let data := from_store (bs "organization_id") (bs "organization_id") data in
  if bool_decide (serial = []) then data else <[bs "serial_number" := serial]> data.

(** ** Specification of a round *)

(** What fetching the data of [hash] does for [subsystem]: the notifications, and whether the
    hash is to be remembered *)
Definition deliver (env : fetchEnv) (cs : service) (subsystem hash : bytes) : list event * bool :=
  match getSubsystemData env hash with
  | (Some data, None) =>
      let pings := map (EPing subsystem) (subscribersOf cs subsystem) in
      if bool_decide (subsystem ∈ consumers cs) then
        match c_err (consume env subsystem data) with
        | Some _ => ([EConsume subsystem data], false)
        | None => (EConsume subsystem data :: pings, true)
        end
      else (pings, true)
  | _ => ([], false)
  end.

(** The events and the hash known afterwards, for one entry of the subsystems map *)
Definition round_events (env : fetchEnv) (full : bool) (cs : service) (e : bytes * bytes) : list event :=
  if wanted env full cs e.1 e.2 then (deliver env cs e.1 e.2).1 else [].
Definition round_hash (env : fetchEnv) (full : bool) (cs : service) (subsystem hash : bytes) : bytes :=
  if wanted env full cs subsystem hash && (deliver env cs subsystem hash).2 then hash
  else lastHash cs subsystem.

Context `{!KVLaws S, !KVReliable S}.

Definition store_ok (cs : service) : Prop :=
  match store cs with Some s => kv_ok s | None => True end.

(** What no fetch changes *)
Definition same_registry (cs cs' : service) : Prop :=
  consumers cs' = consumers cs ∧ subscribers cs' = subscribers cs ∧ fetchLocked cs' = fetchLocked cs.

Lemma call_back_facts r cs :
  same_registry cs (call_back r cs) ∧ store (call_back r cs) = store cs ∧
  lastFetched (call_back r cs) = lastFetched cs.
Proof. unfold call_back, same_registry. by destruct (c_do r), (c_interval r). Qed.

Lemma update_deliver env s data cs hash :
  getSubsystemData env hash = (Some data, None) →
  let '(cs', tr, e) := update env s data cs in
  (tr, match e with None => true | Some _ => false end) = deliver env cs s hash ∧
  same_registry cs cs' ∧ store cs' = store cs ∧ lastFetched cs' = lastFetched cs.
Proof.
  intros Hd. unfold update, deliver. rewrite Hd. case_bool_decide; [|done].
  destruct (c_err (consume env s data)); (split; [done|]); apply call_back_facts.
Qed.

Lemma lastHash_ext cs cs' s :
  store cs' = store cs → lastFetched cs' = lastFetched cs → lastHash cs' s = lastHash cs s.
Proof. intros E1 E2. unfold lastHash. by rewrite E1, E2. Qed.

Lemma fetchAndUpdate_spec env s h cs :
  store_ok cs →
  let '(cs', tr, e) := fetchAndUpdate env s h cs in
  tr = (deliver env cs s h).1 ∧ same_registry cs cs' ∧ store_ok cs' ∧
  (∀ s', lastHash cs' s' =
    if bool_decide (s' = s) && (deliver env cs s h).2 then h else lastHash cs s').
Proof.
  intros Hok. unfold fetchAndUpdate.
  assert (Hno : same_registry cs cs ∧ store_ok cs ∧
    (∀ s', lastHash cs s' = if bool_decide (s' = s) && false then h else lastHash cs s')).
  { split_and!; try done. intros s'. by rewrite andb_false_r. }
  destruct (getSubsystemData env h) as [[data|] [e|]] eqn:Ed; try (unfold deliver; rewrite Ed; split; [done|exact Hno]).
  pose proof (update_deliver env s data cs h Ed) as Hu.
  destruct (update env s data cs) as [[cs1 tr] [e|]]; destruct Hu as (Ed' & Hr & Es & El); rewrite <- Ed'.
  - cbn [fst snd]. split; [done|]. split; [done|].
    split; [unfold store_ok; by rewrite Es|]. intros s'. rewrite andb_false_r. by apply lastHash_ext.
  - cbn [fst snd store with_last].
    unfold store_ok in *. rewrite Es in *. destruct (store cs) as [st|] eqn:Est.
    + destruct (kv_Set_spec s h st Hok) as [Hok' Hv]. split; [done|]. split; [done|]. split; [done|].
      intros s'. rewrite andb_true_r. unfold lastHash. cbn [lastFetched store with_last with_store]. rewrite El.
      case_bool_decide as E; [subst; by rewrite lookup_insert_eq|].
      rewrite lookup_insert_ne by done. destruct (lastFetched cs !! s'); [done|].
      rewrite Est, !kv_Get_reliable by done. rewrite Hv.
      destruct (kv_Set s h st).2; [done|]. by rewrite lookup_insert_ne.
    + split; [done|]. split; [done|]. split; [cbn [store with_last]; by rewrite Es|].
      intros s'. rewrite andb_true_r. unfold lastHash. cbn [lastFetched store with_last]. rewrite El, Es, Est.
      case_bool_decide as E; [subst; by rewrite lookup_insert_eq|]. by rewrite lookup_insert_ne.
Qed.

Lemma deliver_registry env cs cs' s h : same_registry cs cs' → deliver env cs' s h = deliver env cs s h.
Proof. intros (E1 & E2 & _). unfold deliver, subscribersOf. by rewrite E1, E2. Qed.

Lemma wanted_registry env full cs cs' s h :
  same_registry cs cs' → lastHash cs' s = lastHash cs s → wanted env full cs' s h = wanted env full cs s h.
Proof. intros (E1 & E2 & _) E. unfold wanted, knownSubsystem. by rewrite E1, E2, E. Qed.

Lemma Fetch_loop_spec env full l : ∀ cs,
  store_ok cs → NoDup (l.*1) →
  let '(cs', tr) := Fetch_loop env full l cs in
  tr = flat_map (round_events env full cs) l ∧ same_registry cs cs' ∧ store_ok cs' ∧
  (∀ s h, (s, h) ∈ l → lastHash cs' s = round_hash env full cs s h) ∧
  (∀ s, s ∉ l.*1 → lastHash cs' s = lastHash cs s).
Proof.
  induction l as [|[s h] l IH]; intros cs Hok Hn; cbn [Fetch_loop flat_map].
  { split_and!; try done. by intros s h ?%elem_of_nil. }
  cbn in Hn. apply NoDup_cons in Hn as [Hs Hn].
  (* the entry at the head leaves [cs1] *)
  assert (Hstep : ∀ cs1 tr1, tr1 = round_events env full cs (s, h) → same_registry cs cs1 → store_ok cs1 →
    (∀ s', lastHash cs1 s' = if bool_decide (s' = s) then round_hash env full cs s h else lastHash cs s') →
    let '(cs', tr) := Fetch_loop env full l cs1 in
    tr1 ++ tr = round_events env full cs (s, h) ++ flat_map (round_events env full cs) l ∧
    same_registry cs cs' ∧ store_ok cs' ∧
    (∀ s' h', (s', h') ∈ (s, h) :: l → lastHash cs' s' = round_hash env full cs s' h') ∧
    (∀ s', s' ∉ s :: l.*1 → lastHash cs' s' = lastHash cs s')).
  { intros cs1 tr1 -> Hr1 Hok1 Hl1. specialize (IH cs1 Hok1 Hn).
    destruct (Fetch_loop env full l cs1) as [cs' tr]. destruct IH as (-> & Hr & Hok' & Hin & Hout).
    assert (Hother : ∀ s', s' ∈ l.*1 → lastHash cs1 s' = lastHash cs s').
    { intros s' Hin'. rewrite Hl1. rewrite bool_decide_false by (by intros ->). done. }
    assert (Hmem : ∀ s' h', (s', h') ∈ l → s' ∈ l.*1).
    { intros s' h' Hm. apply (list_elem_of_fmap_2 fst _ (s', h')). done. }
    split_and!; [f_equal| |done| |].
    - apply flat_map_ext_in'. intros [s' h'] Hm. unfold round_events. cbn [fst snd].
      by rewrite (wanted_registry env full cs cs1), (deliver_registry env cs cs1) by eauto.
    - destruct Hr as (? & ? & ?), Hr1 as (? & ? & ?). unfold same_registry. split_and!; congruence.
    - intros s' h' [[= -> ->]|Hm]%elem_of_cons.
      + rewrite Hout by done. rewrite Hl1. by rewrite bool_decide_true.
      + rewrite (Hin s' h' Hm). unfold round_hash.
        rewrite (wanted_registry env full cs cs1), (deliver_registry env cs cs1), Hother by eauto. done.
    - intros s' [Hne Hnot]%not_elem_of_cons. rewrite Hout by done. rewrite Hl1.
      by rewrite bool_decide_false. }
  destruct (wanted env full cs s h) eqn:Ew.
  - pose proof (fetchAndUpdate_spec env s h cs Hok) as Hf.
    destruct (fetchAndUpdate env s h cs) as [[cs1 tr1] e]. destruct Hf as (E1 & E2 & E3 & E4).
    specialize (Hstep cs1 tr1). destruct (Fetch_loop env full l cs1) as [cs' tr]. apply Hstep; try done.
    + unfold round_events. cbn [fst snd]. by rewrite Ew.
    + intros s'. rewrite E4. unfold round_hash. rewrite Ew. cbn [andb].
      case_bool_decide as E; [|done]. cbn [andb]. by rewrite E.
  - specialize (Hstep cs []). destruct (Fetch_loop env full l cs) as [cs' tr]. apply Hstep; try done.
    + unfold round_events. cbn [fst snd]. by rewrite Ew.
    + intros s'. unfold round_hash. rewrite Ew. cbn [andb]. case_bool_decide as E; [by rewrite E|done].
Qed.

(** A fetch that gets the subsystems map [l] *)
Definition answers (env : fetchEnv) (l : list (bytes * bytes)) : Prop :=
  inModernStandby env = false ∧ (∃ data, getConfig env = (Some data, None) ∧ decodeSubsystems data = Some l) ∧
  NoDup (l.*1).

Lemma Fetch_answers env l cs :
  answers env l → fetchLocked cs = false →
  Fetch env cs =
    let '(cs', tr) := Fetch_loop env (fetchFull cs) l (with_full (with_locked cs true) false) in
    (with_locked cs' false, tr, None).
Proof.
  intros (Hs & (data & Hc & Hd) & _) Hl. unfold Fetch, Fetch_locked. rewrite Hs, Hl, Hc, Hd.
  cbn [fetchFull with_locked]. by destruct (Fetch_loop _ _ _ _).
Qed.

Lemma answers_spec env l cs :
  answers env l → fetchLocked cs = false → store_ok cs →
  ∃ cs', Fetch env cs = (cs', flat_map (round_events env (fetchFull cs) cs) l, None) ∧
    consumers cs' = consumers cs ∧ subscribers cs' = subscribers cs ∧ fetchLocked cs' = false ∧ store_ok cs' ∧
    (∀ s h, (s, h) ∈ l → lastHash cs' s = round_hash env (fetchFull cs) cs s h) ∧
    (∀ s, s ∉ l.*1 → lastHash cs' s = lastHash cs s).
Proof.
  intros Ha Hl Hok. rewrite (Fetch_answers env l) by done. destruct Ha as (_ & _ & Hn).
  pose proof (Fetch_loop_spec env (fetchFull cs) l (with_full (with_locked cs true) false) Hok Hn) as H.
  destruct (Fetch_loop env (fetchFull cs) l _) as [cs1 tr]. destruct H as (-> & (E1 & E2 & _) & Hok1 & Hin & Hout).
  exists (with_locked cs1 false). by split_and!.
Qed.

(** The hash of the version whose data was delivered last, as memory or else the store has it *)
Definition known (cs : service) (subsystem : bytes) : bytes :=
  match lastFetched cs !! subsystem, store cs with
  | Some h, _ => h
  | None, Some s => default [] (kv_view s !! subsystem)
  | None, None => []
  end.

(** An entry of the subsystems map is due: someone is registered for it, and its data is not what was delivered last, or all
    data is asked for, by the flag or by a request for a full fetch. *)
Definition due (env : fetchEnv) (cs : service) (subsystem hash : bytes) : Prop :=
  (subsystem ∈ consumers cs ∨ is_Some (subscribers cs !! subsystem)) ∧
  (hash ≠ known cs subsystem ∨ forceControlSubsystems env = true ∨ fetchFull cs = true).
#[local] Instance due_dec env cs s h : Decision (due env cs s h).
Proof. unfold due. apply _. Defined.

Lemma lastHash_known cs s : store_ok cs → lastHash cs s = known cs s.
Proof.
  intros Hok. unfold lastHash, known, store_ok in *. destruct (lastFetched cs !! s); [done|]. destruct (store cs); [|done].
  by rewrite kv_Get_reliable.
Qed.

Lemma wanted_due env cs s h : store_ok cs → wanted env (fetchFull cs) cs s h = bool_decide (due env cs s h).
Proof.
  intros Hok. apply eq_iff_eq_true. unfold wanted, knownSubsystem. rewrite (lastHash_known _ _ Hok), bool_decide_eq_true.
  unfold due. rewrite andb_true_iff, orb_true_iff, !bool_decide_eq_true, negb_true_iff, !andb_false_iff, bool_decide_eq_false, !negb_false_iff.
  tauto.
Qed.

(** C30: A round that gets the subsystems map delivers the entries that are due, each by itself: the consumer gets the data of
    that hash and then the subscribers are pinged in order, unless the data cannot be fetched, when nobody is told, or
    the consumer fails, when no subscriber is.  A hash is remembered exactly when its data was delivered. *)
Theorem Fetch_delivers env l cs :
  answers env l → fetchLocked cs = false → store_ok cs →
  ∃ cs', Fetch env cs =
      (cs', flat_map (λ '(s, h), if decide (due env cs s h) then (deliver env cs s h).1 else []) l, None) ∧
    (∀ s h, (s, h) ∈ l → known cs' s = if bool_decide (due env cs s h) && (deliver env cs s h).2 then h else known cs s) ∧
    (∀ s, s ∉ l.*1 → known cs' s = known cs s).
Proof.
  intros Ha Hl Hok. destruct (answers_spec env l cs Ha Hl Hok) as (cs' & E & _ & _ & _ & Hok' & Hin & Hout).
  exists cs'. split_and!.
  - rewrite E. do 2 f_equal. apply flat_map_ext_in'. intros [s h] _. unfold round_events. cbn [fst snd].
    rewrite (wanted_due _ _ _ _ Hok). case_bool_decide; by case_decide.
  - intros s h Hm. by rewrite <- !lastHash_known, (Hin s h Hm), <- (wanted_due _ _ _ _ Hok) by done.
  - intros s Hs. rewrite <- !lastHash_known by done. by apply Hout.
Qed.

(** Every wanted entry is delivered, and no consumer asks for a full fetch *)
Definition all_delivered (env : fetchEnv) (cs : service) (l : list (bytes * bytes)) : Prop :=
  ∀ s h, (s, h) ∈ l → wanted env (fetchFull cs) cs s h = true → (deliver env cs s h).2 = true.
Definition no_callbacks (env : fetchEnv) : Prop := ∀ s data, c_do (consume env s data) = false.

Lemma fetchAndUpdate_full env s h cs :
  no_callbacks env → fetchFull (fetchAndUpdate env s h cs).1.1 = fetchFull cs.
Proof.
  intros Hn. unfold fetchAndUpdate. destruct (getSubsystemData env h) as [[data|] [e|]]; try done.
  assert (Hcb : ∀ r, c_do r = false → fetchFull (call_back r cs) = fetchFull cs).
  { intros r Hr. unfold call_back. rewrite Hr. by destruct (c_interval r). }
  unfold update. case_bool_decide.
  - destruct (c_err (consume env s data)); cbn [fst]; [by apply Hcb|].
    destruct (store _); cbn; by apply Hcb.
  - by destruct (store _).
Qed.

Lemma Fetch_loop_full env full l : ∀ cs,
  no_callbacks env → fetchFull (Fetch_loop env full l cs).1 = fetchFull cs.
Proof.
  induction l as [|[s h] l IH]; intros cs Hn; cbn [Fetch_loop]; [done|].
  destruct (wanted env full cs s h); [|by apply IH].
  pose proof (fetchAndUpdate_full env s h cs Hn) as Hf.
  destruct (fetchAndUpdate env s h cs) as [[cs1 tr1] e1]. specialize (IH cs1 Hn).
  destruct (Fetch_loop env full l cs1) as [cs2 tr2]. cbn [fst] in *. congruence.
Qed.

(** Once a round has delivered everything, the next round with the same map does nothing:
    no data is fetched or delivered again unless the server forces it. *)
Theorem Fetch_idempotent env1 env2 l cs :
  answers env1 l → answers env2 l → fetchLocked cs = false → store_ok cs →
  all_delivered env1 cs l → no_callbacks env1 → forceControlSubsystems env2 = false →
  ∃ cs1 tr1 cs2, Fetch env1 cs = (cs1, tr1, None) ∧ Fetch env2 cs1 = (cs2, [], None).
Proof.
  intros Ha1 Ha2 Hl Hok Hdel Hcb Hforce.
  destruct (answers_spec env1 l cs Ha1 Hl Hok) as (cs1 & E1 & Ec & Es & Hl1 & Hok1 & Hin & _).
  destruct (answers_spec env2 l cs1 Ha2 Hl1 Hok1) as (cs2 & E2 & _).
  exists cs1, (flat_map (round_events env1 (fetchFull cs) cs) l), cs2. split; [done|]. rewrite E2.
  assert (Hfull : fetchFull cs1 = false).
  { rewrite (Fetch_answers env1 l) in E1 by done.
    pose proof (Fetch_loop_full env1 (fetchFull cs) l (with_full (with_locked cs true) false) Hcb) as Hf.
    destruct (Fetch_loop env1 (fetchFull cs) l _) as [cs' tr']. by injection E1 as <- _. }
  rewrite Hfull. do 2 f_equal. rewrite (flat_map_ext_in' _ (λ _, [])); [clear; induction l; auto|].
  intros [s h] Hm. unfold round_events. cbn [fst snd].
  assert (E : wanted env2 false cs1 s h = false); [|by rewrite E].
  unfold wanted. rewrite Hforce. unfold knownSubsystem. rewrite Ec, Es. fold (knownSubsystem cs s).
  destruct (knownSubsystem cs s) eqn:Ek; [|done]. rewrite bool_decide_true; [done|].
  rewrite (Hin s h Hm). unfold round_hash.
  destruct (wanted env1 (fetchFull cs) cs s h) eqn:Ew; [by rewrite (Hdel s h Hm Ew)|].
  cbn [andb]. unfold wanted in Ew. rewrite Ek in Ew. cbn [andb] in Ew.
  apply negb_false_iff in Ew. apply andb_true_iff in Ew as [Ew _]. apply andb_true_iff in Ew as [Ew _].
  by apply bool_decide_eq_true in Ew.
Qed.

(** A subsystem whose stale data could not be delivered, because the server or the consumer
    failed, stays wanted: the next round with the same map tries it again. *)
Theorem Fetch_retries env1 env2 l cs s h :
  answers env1 l → answers env2 l → fetchLocked cs = false → store_ok cs →
  (s, h) ∈ l → knownSubsystem cs s = true → h ≠ lastHash cs s → (deliver env1 cs s h).2 = false →
  ∃ cs1 tr1 cs2 tr2, Fetch env1 cs = (cs1, tr1, None) ∧ Fetch env2 cs1 = (cs2, tr2, None) ∧
    ∀ ev, ev ∈ (deliver env2 cs s h).1 → ev ∈ tr2.
Proof.
  intros Ha1 Ha2 Hl Hok Hm Hk Hh Hd.
  destruct (answers_spec env1 l cs Ha1 Hl Hok) as (cs1 & E1 & Ec & Es & Hl1 & Hok1 & Hin & _).
  destruct (answers_spec env2 l cs1 Ha2 Hl1 Hok1) as (cs2 & E2 & _).
  eexists cs1, _, cs2, _. split; [exact E1|]. split; [exact E2|]. intros ev Hev.
  apply list_elem_of_In, in_flat_map. exists (s, h). split; [by apply list_elem_of_In|].
  unfold round_events. cbn [fst snd].
  assert (Hlast : lastHash cs1 s = lastHash cs s).
  { rewrite (Hin s h Hm). unfold round_hash. by rewrite Hd, andb_false_r. }
  assert (Hw : wanted env2 (fetchFull cs1) cs1 s h = true).
  { unfold wanted, knownSubsystem. rewrite Ec, Es, Hlast. fold (knownSubsystem cs s). rewrite Hk.
    by rewrite bool_decide_false. }
  rewrite Hw. apply list_elem_of_In. rewrite (deliver_registry env2 cs cs1); [done|].
  unfold same_registry. split_and!; congruence.
Qed.

(** ** Across restarts *)

(** Every hash in memory is also in the store. *)
Definition persisted (cs : service) : Prop :=
  match store cs with
  | None => False
  | Some s => ∀ sub h, sub ≠ [] → lastFetched cs !! sub = Some h → kv_view s !! sub = Some h
  end.

Lemma fetchAndUpdate_persisted env s h cs :
  store_ok cs → persisted cs → persisted (fetchAndUpdate env s h cs).1.1.
Proof.
  intros Hok Hp. unfold fetchAndUpdate.
  destruct (getSubsystemData env h) as [[data|] [e|]] eqn:Ed; try done.
  pose proof (update_deliver env s data cs h Ed) as Hu.
  destruct (update env s data cs) as [[cs1 tr] [e|]]; destruct Hu as (_ & _ & Es & El).
  - cbn [fst]. unfold persisted. by rewrite Es, El.
  - cbn [store with_last]. rewrite Es. unfold persisted, store_ok in *.
    destruct (store cs) as [st|]; [|done]. cbn [fst store with_store with_last lastFetched].
    destruct (kv_Set_spec s h st Hok) as [_ Hv]. rewrite El. intros sub h' Hsub.
    destruct (decide (sub = s)) as [->|Hne].
    + rewrite lookup_insert_eq. intros [= <-]. rewrite Hv, kv_Set_reliable by done. apply lookup_insert_eq.
    + rewrite lookup_insert_ne by done. intros Hl. rewrite Hv.
      destruct (kv_Set s h st).2; [by apply Hp|]. rewrite lookup_insert_ne by done. by apply Hp.
Qed.

Lemma Fetch_loop_persisted env full l : ∀ cs,
  store_ok cs → persisted cs → persisted (Fetch_loop env full l cs).1 ∧ store_ok (Fetch_loop env full l cs).1.
Proof.
  induction l as [|[s h] l IH]; intros cs Hok Hp; cbn [Fetch_loop]; [done|].
  destruct (wanted env full cs s h); [|by apply IH].
  pose proof (fetchAndUpdate_persisted env s h cs Hok Hp) as Hp1.
  pose proof (fetchAndUpdate_spec env s h cs Hok) as Hs.
  destruct (fetchAndUpdate env s h cs) as [[cs1 tr1] e1]. destruct Hs as (_ & _ & Hok1 & _).
  specialize (IH cs1 Hok1 Hp1). by destruct (Fetch_loop env full l cs1) as [cs2 tr2].
Qed.

Lemma Fetch_persisted env cs :
  store_ok cs → persisted cs → persisted (Fetch env cs).1.1 ∧ store_ok (Fetch env cs).1.1.
Proof.
  intros Hok Hp. unfold Fetch. destruct (inModernStandby env); [done|]. destruct (fetchLocked cs); [done|].
  unfold Fetch_locked. destruct (getConfig env) as [[data|] [e|]]; try done.
  destruct (decodeSubsystems data) as [l|]; [|done]. cbn [fetchFull with_locked].
  pose proof (Fetch_loop_persisted env (fetchFull cs) l (with_full (with_locked cs true) false) Hok Hp) as H.
  by destruct (Fetch_loop _ _ l _).
Qed.

(** [Fetch] in the worlds of a list, one after the other *)
Definition fetches (envs : list fetchEnv) (cs : service) : service :=
  foldl (λ cs env, (Fetch env cs).1.1) cs envs.

Lemma fetches_persisted envs : ∀ cs,
  store_ok cs → persisted cs → persisted (fetches envs cs) ∧ store_ok (fetches envs cs).
Proof.
  induction envs as [|env envs IH]; intros cs Hok Hp; [done|].
  destruct (Fetch_persisted env cs Hok Hp) as [Hp1 Hok1]. by apply IH.
Qed.

(** The hashes survive a restart: after any rounds of a service that
    started afresh, a new service on the same store knows
    the same hash for every subsystem, so it does not fetch again what is still current. *)
Theorem restart_remembers envs (cs cs' : service) interval s sub :
  store cs = Some s → kv_ok s → lastFetched cs = ∅ → cs' = fetches envs cs → sub ≠ [] →
  lastHash (New interval (store cs')) sub = lastHash cs' sub.
Proof.
  intros Es Hok El -> Hsub.
  destruct (fetches_persisted envs cs) as [Hp Hok'];
    [unfold store_ok; by rewrite Es|unfold persisted; rewrite Es, El; intros ? ? ?; by rewrite lookup_empty|].
  set (cs' := fetches envs cs) in *. unfold lastHash, persisted, store_ok in *.
  cbn [lastFetched store New]. rewrite lookup_empty. destruct (store cs') as [st|]; [|done].
  destruct (lastFetched cs' !! sub) as [h|] eqn:E; [|done].
  rewrite kv_Get_reliable by done. by rewrite (Hp sub h Hsub E).
Qed.

(** ** Failed rounds and the startup message *)
End Service.

Section Rounds.
Context {S : Type} `{KV : KVStore S} `{J : ControlJSON}.

(** A round that fails changes nothing: whatever error [Fetch] returns, the service is as
    it was before (the lock is free again, and a request for a full fetch is still pending)
    and nobody was notified. *)
Theorem Fetch_failure_harmless env (cs cs' : service) tr e :
  Fetch env cs = (cs', tr, Some e) → cs' = cs ∧ tr = [].
Proof.
  unfold Fetch. destruct (inModernStandby env); [done|].
  destruct (fetchLocked cs) eqn:El; [by intros [= <- <- _]|].
  assert (Hcs : with_locked (with_locked cs true) false = cs) by (destruct cs; cbn in *; by subst).
  unfold Fetch_locked. destruct (getConfig env) as [[data|] [e'|]]; try (by intros [= <- <- _]).
  destruct (decodeSubsystems data) as [l|]; [|by intros [= <- <- _]].
  by destruct (Fetch_loop _ _ l _).
Qed.

Definition is_startup (e : event) : bool := match e with EStartup => true | _ => false end.
Definition startups (tr : list event) : nat := length (filter is_startup tr).

Lemma startups_app tr1 tr2 : startups (tr1 ++ tr2) = (startups tr1 + startups tr2)%nat.
Proof. unfold startups. by rewrite filter_app, length_app. Qed.

Lemma fetchAndUpdate_startups env s h (cs : service) : startups (fetchAndUpdate env s h cs).1.2 = 0%nat.
Proof.
  assert (Hp : ∀ l, startups (map (EPing s) l) = 0%nat) by (intros l; by induction l).
  unfold fetchAndUpdate, update. destruct (getSubsystemData env h) as [[data|] [e|]]; try done.
  case_bool_decide; [destruct (c_err (consume env s data)); [done|]|];
    destruct (store _); cbn [fst snd]; apply Hp.
Qed.

Lemma Fetch_loop_startups env full l : ∀ (cs : service), startups (Fetch_loop env full l cs).2 = 0%nat.
Proof.
  induction l as [|[s h] l IH]; intros cs; cbn [Fetch_loop]; [done|].
  destruct (wanted env full cs s h); [|apply IH].
  pose proof (fetchAndUpdate_startups env s h cs) as Hf.
  destruct (fetchAndUpdate env s h cs) as [[cs1 tr1] e1]. specialize (IH cs1).
  destruct (Fetch_loop env full l cs1) as [cs2 tr2]. cbn [fst snd] in *. by rewrite startups_app, Hf, IH.
Qed.

Lemma Fetch_startups env (cs : service) : startups (Fetch env cs).1.2 = 0%nat.
Proof.
  unfold Fetch. destruct (inModernStandby env); [done|]. destruct (fetchLocked cs); [done|].
  unfold Fetch_locked. destruct (getConfig env) as [[data|] [e'|]]; try done.
  destruct (decodeSubsystems data) as [l|]; [|done].
  pose proof (Fetch_loop_startups env (fetchFull (with_locked cs true)) l (with_full (with_locked cs true) false)) as H.
  by destruct (Fetch_loop _ _ l _).
Qed.

(** Does some round, of those before the message is accepted, fetch without error and have
    the server accept the message? *)
Fixpoint accepted (rounds : list (fetchEnv * bool)) (cs : service) : bool :=
  match rounds with
  | [] => false
  | (env, sendOk) :: rest =>
      let '(cs, _, fetchErr) := Fetch env cs in
      match fetchErr with None => sendOk | Some _ => false end || accepted rest cs
  end.

(** The startup message is accepted at most once, and it is accepted exactly when some
    round both fetches without error and is answered: it is retried until then, and never sent
    again after. *)
Theorem Start_announces_once rounds (cs : service) :
  startups (Start rounds false cs).2 = if accepted rounds cs then 1%nat else 0%nat.
Proof.
  assert (Hsent : ∀ rounds (cs : service), startups (Start rounds true cs).2 = 0%nat).
  { clear rounds cs. induction rounds as [|[env ok] rounds IH]; intros cs; cbn [Start]; [done|].
    pose proof (Fetch_startups env cs) as Hf. destruct (Fetch env cs) as [[cs1 tr1] [e|]]; cbn [negb andb orb];
      specialize (IH cs1); destruct (Start rounds true cs1) as [cs2 tr2]; cbn [fst snd app] in *;
      by rewrite startups_app, Hf, IH. }
  revert cs. induction rounds as [|[env ok] rounds IH]; intros cs; cbn [Start accepted]; [done|].
  pose proof (Fetch_startups env cs) as Hf. destruct (Fetch env cs) as [[cs1 tr1] [e|]]; cbn [negb andb orb].
  - specialize (IH cs1). destruct (Start rounds false cs1) as [cs2 tr2]. cbn [fst snd app] in *.
    by rewrite startups_app, Hf, IH.
  - destruct ok; cbn [orb].
    + specialize (Hsent rounds cs1). destruct (Start rounds true cs1) as [cs2 tr2]. cbn [fst snd app] in *.
      change (EStartup :: tr2) with ([EStartup] ++ tr2). rewrite !startups_app, Hf, Hsent. done.
    + specialize (IH cs1). destruct (Start rounds false cs1) as [cs2 tr2]. cbn [fst snd app] in *.
      rewrite !startups_app, Hf, <- IH. done.
Qed.
End Rounds.

(** ** Witnesses *)

(** A toy format: the map has the subsystems "a" and "b", with the hashes in two bytes *)
#[local] Instance toyJSON : ControlJSON := {|
  decodeSubsystems data := match data with [x; y] => Some [(bs "a", [x]); (bs "b", [y])] | _ => None end
|}.

Definition toyEnv (config : bytes) (failing : bytes) : fetchEnv :=
  FetchEnv false false (Some config, None) (λ h, (Some h, None))
    (λ s _, ConsumerResult (if bool_decide (s = failing) then Some EOF else None) false None).

Definition toyService : @service InMemory.store :=
  RegisterSubscriber (bs "b") 2 (RegisterSubscriber (bs "b") 1
    (RegisterConsumer (bs "b") (RegisterConsumer (bs "a") (New 60 (Some InMemory.NewStore))).1).1).

Lemma toyEnv_answers x y failing : answers (toyEnv [x; y] failing) [(bs "a", [x]); (bs "b", [y])].
Proof.
  split_and!; [done|by exists [x; y]|]. refine (bool_decide_unpack _ _). vm_compute. exact I.
Qed.

Lemma toyService_ok : store_ok toyService.
Proof. exact InMemory.wf_NewStore. Qed.

(** Both subsystems are delivered, "b" with its two subscribers. *)
Lemma Fetch_delivers_witness :
  ∃ cs', Fetch (toyEnv (bs "xy") []) toyService =
    (cs', [EConsume (bs "a") (bs "x"); EConsume (bs "b") (bs "y"); EPing (bs "b") 1; EPing (bs "b") 2], None) ∧
    known cs' (bs "b") = bs "y".
Proof.
  destruct (Fetch_delivers (toyEnv (bs "xy") []) [(bs "a", bs "x"); (bs "b", bs "y")] toyService
    (toyEnv_answers x78 x79 []) eq_refl toyService_ok) as (cs' & E & Hin & _).
  exists cs'. split; [rewrite E; vm_compute; reflexivity|].
  rewrite (Hin (bs "b") (bs "y")); [vm_compute; reflexivity|]. right. left.
Defined.

Lemma Fetch_idempotent_witness :
  ∃ cs1 tr1 cs2, Fetch (toyEnv (bs "xy") []) toyService = (cs1, tr1, None) ∧
    Fetch (toyEnv (bs "xy") []) cs1 = (cs2, [], None).
Proof.
  apply (Fetch_idempotent _ _ [(bs "a", bs "x"); (bs "b", bs "y")] toyService
    (toyEnv_answers x78 x79 []) (toyEnv_answers x78 x79 []) eq_refl toyService_ok); [|done|done].
  intros s h [[= -> ->]|[[= -> ->]|[]%elem_of_nil]%elem_of_cons]%elem_of_cons _; vm_compute; reflexivity.
Defined.

(** The consumer of "b" fails in the first round. *)
Lemma Fetch_retries_witness :
  ∃ cs1 tr1 cs2 tr2, Fetch (toyEnv (bs "xy") (bs "b")) toyService = (cs1, tr1, None) ∧
    Fetch (toyEnv (bs "xy") []) cs1 = (cs2, tr2, None) ∧
    ∀ ev, ev ∈ (deliver (toyEnv (bs "xy") []) toyService (bs "b") (bs "y")).1 → ev ∈ tr2.
Proof.
  apply (Fetch_retries _ _ [(bs "a", bs "x"); (bs "b", bs "y")] toyService _ _
    (toyEnv_answers x78 x79 _) (toyEnv_answers x78 x79 []) eq_refl toyService_ok);
    [right; left|vm_compute; reflexivity|vm_compute; discriminate|vm_compute; reflexivity].
Defined.

Lemma restart_remembers_witness :
  let cs' := fetches [toyEnv (bs "xy") []; toyEnv (bs "xz") []] toyService in
  lastHash (New 60 (store cs')) (bs "b") = lastHash cs' (bs "b") ∧ lastHash cs' (bs "b") = bs "z".
Proof.
  split; [|vm_compute; reflexivity].
  by apply (restart_remembers [toyEnv (bs "xy") []; toyEnv (bs "xz") []] toyService _ 60 InMemory.NewStore
    (bs "b") eq_refl toyService_ok).
Defined.

(** No answer from the server *)
Lemma Fetch_failure_harmless_witness :
  let env := FetchEnv false false (None, Some EOF) (λ _, (None, None)) (λ _ _, ConsumerResult None false None) in
  let cs := with_full toyService true in
  let r := Fetch env cs in r.2 = Some (Wrapf "getting subsystems map: %w" EOF) ∧ r.1.1 = cs ∧ r.1.2 = [].
Proof.
  split; [reflexivity|].
  apply (Fetch_failure_harmless (FetchEnv false false (None, Some EOF) (λ _, (None, None))
    (λ _ _, ConsumerResult None false None)) _ _ _ (Wrapf "getting subsystems map: %w" EOF)). reflexivity.
Defined.
End Control.
