(* ===== verification/Http.v ===== *)
(** * What ee/localserver uses of net/http and encoding/base64

    Headers with their canonical keys, requests, buffered responses, and the decoders of base64. *)
From S2P Require Import Prelude Json.

Module Http.

(** ** Headers ([http.Header], [textproto.CanonicalMIMEHeaderKey]) *)
Abbreviation header := (gmap bytes (list bytes)).

(** The characters of a token *)
Definition validHeaderFieldByte (b : byte) : bool :=
  let z := byte_Z b in
  ((48 <=? z) && (z <=? 57)) || ((65 <=? z) && (z <=? 90)) || ((97 <=? z) && (z <=? 122)) ||
  bool_decide (b ∈ bs "!#$%&'*+-.^_`|~").

Definition upperByte (b : byte) : byte :=
  if (97 <=? byte_Z b) && (byte_Z b <=? 122) then Z_byte (byte_Z b - 32) else b.
Definition lowerByte (b : byte) : byte :=
  if (65 <=? byte_Z b) && (byte_Z b <=? 90) then Z_byte (byte_Z b + 32) else b.

Fixpoint canonicalize (upper : bool) (s : bytes) : bytes :=
  match s with
  | [] => []
  | b :: s => let b := if upper then upperByte b else lowerByte b in b :: canonicalize (b =b x2d) s
  end.

Definition CanonicalHeaderKey (k : bytes) : bytes :=
  if forallb validHeaderFieldByte k then canonicalize true k else k.

Definition Get (h : header) (k : bytes) : bytes :=
  match h !! CanonicalHeaderKey k with Some (v :: _) => v | _ => [] end.

Definition Set_ (k v : bytes) (h : header) : header := <[CanonicalHeaderKey k := [v]]> h.

Definition Values (h : header) (k : bytes) : list bytes := default [] (h !! CanonicalHeaderKey k).

Definition Add (k v : bytes) (h : header) : header := <[CanonicalHeaderKey k := Values h k ++ [v]]> h.

(** [for h, vals := range m { for _, v := range vals { header.Add(h, v) } }], the entries of [m] in the order of the
    iteration *)
Definition AddAll (entries : list (bytes * list bytes)) (h : header) : header :=
  foldl (λ h kvs, foldl (λ h v, Add kvs.1 v h) h kvs.2) h entries.

(** ** Requests and responses *)

(** [query] has the first value of each parameter of the URL; a body that is nil is [None]. *)
Record request := Request {
  Method : bytes;
  Scheme : bytes;
  Host : bytes;
  Path : bytes;
  query : gmap bytes bytes;
  Header : header;
  Body : option bytes
}.

Definition QueryGet (r : request) (k : bytes) : bytes := default [] (query r !! k).

(** What a handler has written; the code 0 stands for no call of WriteHeader *)
Record response := Response { code : Z; rheader : header; body : bytes }.

Definition StatusUnauthorized : Z := 401.
Definition fails (c : Z) : response := Response c ∅ [].

(** [http.Error], [http.NotFound] *)
Definition httpError (error : bytes) (c : Z) : response :=
  Response c (Set_ (bs "X-Content-Type-Options") (bs "nosniff") (Set_ (bs "Content-Type") (bs "text/plain; charset=utf-8") ∅))
    (error ++ [x0a]).
Definition NotFound : response := httpError (bs "404 page not found") 404.

(** ** [http.ResponseWriter] of a server

    The status and the headers are fixed by the first WriteHeader or Write; a status that allows no body has none, whatever
    is written (informational statuses, which could be sent before, are not used). *)
Record writer := Writer { status : Z; sentHeader : header; live : header; out : bytes }.

Definition newWriter : writer := Writer 0 ∅ ∅ [].

Definition WriteHeader (c : Z) (w : writer) : writer :=
  if status w =? 0 then Writer c (live w) (live w) (out w) else w.

Definition SetHeader (k v : bytes) (w : writer) : writer := Writer (status w) (sentHeader w) (Set_ k v (live w)) (out w).

Definition bodyAllowedForStatus (c : Z) : bool := negb (((100 <=? c) && (c <=? 199)) || (c =? 204) || (c =? 304)).

Definition Write (b : bytes) (w : writer) : writer :=
  let w := WriteHeader 200 w in
  if bodyAllowedForStatus (status w) then Writer (status w) (sentHeader w) (live w) (out w ++ b) else w.

(** What the client gets when the handler returns *)
Definition finish (w : writer) : response := let w := WriteHeader 200 w in Response (status w) (sentHeader w) (out w).

(** ** encoding/base64 *)
Inductive encoding : Type := StdEncoding | URLEncoding | RawURLEncoding.

Definition padded (e : encoding) : bool := match e with RawURLEncoding => false | _ => true end.

Definition url_char (b : byte) : byte := if b =b x2b then x2d else if b =b x2f then x5f else b.

Definition digit_value (e : encoding) (b : byte) : option Z :=
  match e with
  | StdEncoding => b64_value b
  | _ => if b =b x2d then Some 62 else if b =b x5f then Some 63
         else if (b =b x2b) || (b =b x2f) then None else b64_value b
  end.

(** [decodeQuantum], repeated; the unused bits of the last digit need not be zero *)
Fixpoint quanta (value : byte → option Z) (pad : bool) (s : bytes) : option bytes :=
  match s with
  | [] => Some []
  | a :: b :: s =>
      match value a, value b with
      | Some a, Some b =>
          let one := Z_byte (Z.shiftr (a * 64 + b) 4) in
          match s with
          | [] => if pad then None else Some [one]
          | c :: s =>
              match value c with
              | None => match s with
                        | [d] => if pad && (c =b x3d) && (d =b x3d) then Some [one] else None
                        | _ => None
                        end
              | Some cv =>
                  let v := (a * 64 + b) * 64 + cv in
                  let two := [Z_byte (Z.shiftr v 10); Z_byte (Z.shiftr v 2)] in
                  match s with
                  | [] => if pad then None else Some two
                  | d :: s =>
                      match value d with
                      | None => if pad && (d =b x3d) && is_empty s then Some two else None
                      | Some d =>
                          let v := v * 64 + d in
                          match quanta value pad s with
                          | Some l => Some (Z_byte (Z.shiftr v 16) :: Z_byte (Z.shiftr v 8) :: Z_byte v :: l)
                          | None => None
                          end
                      end
                  end
              end
          end
      | _, _ => None
      end
  | _ => None
  end.

Definition newline (b : byte) : bool := (b =b x0a) || (b =b x0d).

(** [DecodeString]: line ends are skipped wherever they are *)
Definition DecodeString (e : encoding) (s : bytes) : option bytes :=
  quanta (digit_value e) (padded e) (filter (λ b, negb (newline b) = true) s).

(** [base64.URLEncoding.EncodeToString] *)
Definition base64url (s : bytes) : bytes := map url_char (base64 s).

(** ** Facts *)
Lemma Get_Values h k : Get h k = match Values h k with v :: _ => v | [] => [] end.
Proof. unfold Get, Values. by destruct (h !! _) as [[|]|]. Qed.

Lemma Values_Set h k v k' :
  Values (Set_ k v h) k' = if bool_decide (CanonicalHeaderKey k' = CanonicalHeaderKey k) then [v] else Values h k'.
Proof.
  unfold Values, Set_. case_bool_decide as E; [by rewrite E, lookup_insert_eq|by rewrite lookup_insert_ne].
Qed.

Lemma Values_Add h k v k' :
  Values (Add k v h) k' =
    if bool_decide (CanonicalHeaderKey k' = CanonicalHeaderKey k) then Values h k' ++ [v] else Values h k'.
Proof.
  unfold Values, Add, Values. case_bool_decide as E; [by rewrite E, lookup_insert_eq|by rewrite lookup_insert_ne].
Qed.

(** What a map of headers holds of a header: the values under every spelling of its name, in the order of the iteration *)
Definition spelled (entries : list (bytes * list bytes)) (k : bytes) : list bytes :=
  concat (map snd (filter (λ kvs, CanonicalHeaderKey kvs.1 = CanonicalHeaderKey k) entries)).

Lemma Values_AddAll entries h k : Values (AddAll entries h) k = Values h k ++ spelled entries k.
Proof.
  unfold AddAll, spelled. revert h. induction entries as [|[k' vs] es IH]; intros h; cbn [foldl]; [by rewrite app_nil_r|].
  rewrite IH. cbn [fst snd]. rewrite filter_cons. cbn [fst].
  assert (E : ∀ h, Values (foldl (λ h v, Add k' v h) h vs) k =
    Values h k ++ if decide (CanonicalHeaderKey k' = CanonicalHeaderKey k) then vs else []).
  { clear. induction vs as [|v vs IH]; intros h; cbn [foldl]; [by case_decide; rewrite app_nil_r|].
    rewrite IH, Values_Add. case_decide as E.
    - rewrite bool_decide_true by done. by rewrite <- app_assoc.
    - rewrite bool_decide_false by congruence. done. }
  rewrite E. case_decide; cbn [map concat snd]; by rewrite <- app_assoc.
Qed.

Lemma quanta_base64 value f s :
  (∀ z, 0 <= z < 64 → value (f (b64_digit z)) = Some z) → f x3d = x3d → value x3d = None →
  quanta value true (map f (base64 s)) = Some s.
Proof.
  intros Hf Hpad Hv.
  assert (IH : ∀ n s, (length s <= n)%nat → quanta value true (map f (base64 s)) = Some s); [|by apply (IH (length s))].
  clear s. induction n as [|n IH]; intros [|a [|b [|c s]]] Hn; cbn [length] in Hn; try done; try lia.
  all: pose proof (byte_Z_range a); try pose proof (byte_Z_range b); try pose proof (byte_Z_range c).
  all: cbn [base64]; cbv zeta; rewrite ?lor_bytes by lia; repeat (rewrite shiftl_lor by lia); rewrite ?land63, ?Z.shiftl_mul_pow2, ?Z.shiftr_div_pow2 by lia; powers.
  all: cbn [map quanta]; rewrite ?Hf by div_lia; rewrite ?Hpad, ?Hv; cbn [Byte.eqb andb is_empty]; rewrite ?IH by lia.
  all: rewrite ?Z.shiftr_div_pow2 by lia; powers; cbv zeta.
  all: change (x3d =b x3d) with true; cbn [andb]; repeat f_equal; apply Z_byte_of; div_lia.
Qed.

Lemma base64_chars (P : byte → Prop) s :
  (∀ z, 0 <= z < 64 → P (b64_digit z)) → P x3d → Forall P (base64 s).
Proof.
  intros Hd Hp. assert (IH : ∀ n s, (length s <= n)%nat → Forall P (base64 s)); [|by apply (IH (length s))].
  clear s. induction n as [|n IH]; intros [|a [|b [|c s]]] Hn; cbn [length] in Hn; try lia; [by constructor..| | |].
  all: pose proof (byte_Z_range a); try pose proof (byte_Z_range b); try pose proof (byte_Z_range c).
  all: cbn [base64]; cbv zeta; rewrite ?lor_bytes by lia; repeat (rewrite shiftl_lor by lia); rewrite ?land63, ?Z.shiftl_mul_pow2, ?Z.shiftr_div_pow2 by lia; powers.
  all: repeat constructor; try done; try (apply Hd; div_lia). apply IH. lia.
Qed.

Lemma DecodeString_base64 s : DecodeString StdEncoding (base64 s) = Some s.
Proof.
  unfold DecodeString. rewrite filter_all.
  - rewrite <- (map_id (base64 s)). apply quanta_base64; [intros; by apply b64_value_digit|done..].
  - apply base64_chars; [|done]. apply below64. apply (bool_decide_unpack _). vm_compute. exact I.
Qed.

Lemma DecodeString_base64url s : DecodeString URLEncoding (base64url s) = Some s.
Proof.
  unfold DecodeString, base64url. rewrite filter_all.
  - apply quanta_base64; [|done..]. apply below64. apply (bool_decide_unpack _). vm_compute. exact I.
  - rewrite Forall_map. apply base64_chars; [|done]. apply below64. apply (bool_decide_unpack _). vm_compute. exact I.
Qed.

Example canonical_key : CanonicalHeaderKey (bs "x-DT4A-account-Uuid") = bs "X-Dt4a-Account-Uuid".
Proof. reflexivity. Qed.
End Http.
