(* ===== verification/Strings.v ===== *)
(** * The parts of the strings, strconv and bufio packages the components call *)
From S2P Require Import Prelude.
From Stdlib Require Import Decimal DecimalString DecimalZ DecimalFacts.

(** [strings.Cut(s, sep)]: around the first occurrence; [None] when there is none *)
Fixpoint cut (sep s : bytes) : option (bytes * bytes) :=
  if has_prefix sep s then Some ([], drop (length sep) s)
  else
    match s with
    | [] => None
    | b :: s' => match cut sep s' with Some (before, after) => Some (b :: before, after) | None => None end
    end.

(** [strings.CutPrefix] *)
Definition cut_prefix (p s : bytes) : option bytes :=
  if has_prefix p s then Some (drop (length p) s) else None.

(** [strings.ReplaceAll(s, old, new)] for an [old] that is not blank; the fuel is the length *)
Fixpoint replace_all (fuel : nat) (old new s : bytes) : bytes :=
  match fuel, cut old s with
  | S fuel', Some (before, after) => before ++ new ++ replace_all fuel' old new after
  | _, _ => s
  end.

Definition ReplaceAll (old new s : bytes) : bytes := replace_all (length s) old new s.

(** [strconv.Atoi]: an optional sign and decimal digits, within the range of int *)
Definition digit (b : byte) : option Z :=
  if (48 <=? byte_Z b) && (byte_Z b <=? 57) then Some (byte_Z b - 48) else None.

Fixpoint digits (acc : Z) (s : bytes) : option Z :=
  match s with
  | [] => Some acc
  | b :: s' => match digit b with Some d => digits (10 * acc + d) s' | None => None end
  end.

Definition Atoi (s : bytes) : option Z :=
  let '(neg, ds) :=
    match s with
    | b :: s' => if b =b x2d then (true, s') else if b =b x2b then (false, s') else (false, s)
    | [] => (false, s)
    end in
  match ds with
  | [] => None
  | _ =>
      match digits 0 ds with
      | Some n =>
          let z := if neg then - n else n in
          if (- two63 <=? z) && (z <? two63) then Some z else None
      | None => None
      end
  end.

(** [strings.TrimSpace]: the white space of Unicode, in UTF-8 *)
Definition spaces : list bytes :=
  [[x09]; [x0a]; [x0b]; [x0c]; [x0d]; [x20]; [xc2; x85]; [xc2; xa0]; [xe1; x9a; x80]] ++
  map (λ b, [xe2; x80; b]) [x80; x81; x82; x83; x84; x85; x86; x87; x88; x89; x8a; xa8; xa9; xaf] ++
  [[xe2; x81; x9f]; [xe3; x80; x80]].

Definition space_prefix (ws : list bytes) (s : bytes) : option nat :=
  match List.find (λ w, has_prefix w s) ws with Some w => Some (length w) | None => None end.

Fixpoint trim_left (fuel : nat) (ws : list bytes) (s : bytes) : bytes :=
  match fuel, space_prefix ws s with
  | S fuel', Some n => trim_left fuel' ws (drop n s)
  | _, _ => s
  end.

Definition TrimSpace (s : bytes) : bytes :=
  let s := trim_left (length s) spaces s in
  reverse (trim_left (length s) (map reverse spaces) (reverse s)).

(** [strings.Fields] *)
Fixpoint fields_loop (fuel : nat) (cur s : bytes) : list bytes :=
  let flush := if is_empty cur then [] else [cur] in
  match fuel, s with
  | S fuel', b :: s' =>
      match space_prefix spaces s with
      | Some n => flush ++ fields_loop fuel' [] (drop n s)
      | None => fields_loop fuel' (cur ++ [b]) s'
      end
  | _, _ => flush
  end.

Definition Fields (s : bytes) : list bytes := fields_loop (length s) [] s.

(** [strings.TrimRight] with one character *)
Fixpoint trim_left_char (c : byte) (s : bytes) : bytes :=
  match s with b :: s' => if b =b c then trim_left_char c s' else s | [] => [] end.
Definition TrimRight (s : bytes) (c : byte) : bytes := reverse (trim_left_char c (reverse s)).

(** [strings.Split] and [strings.SplitN] for a separator that is not empty and an [n] that is positive *)
Fixpoint split_loop (fuel : nat) (sep s : bytes) : list bytes :=
  match fuel, cut sep s with
  | S fuel', Some (before, after) => before :: split_loop fuel' sep after
  | _, _ => [s]
  end.

Definition Split (s sep : bytes) : list bytes := split_loop (length s) sep s.
Definition SplitN (s sep : bytes) (n : nat) : list bytes := split_loop (n - 1) sep s.

(** [strings.Trim] with one character *)
Definition Trim (s : bytes) (c : byte) : bytes := TrimRight (trim_left_char c s) c.

(** [strings.LastIndex(s, c)] for one character: around its last occurrence *)
Fixpoint cut_last (c : byte) (s : bytes) : option (bytes * bytes) :=
  match s with
  | [] => None
  | b :: s' =>
      match cut_last c s' with
      | Some (before, after) => Some (b :: before, after)
      | None => if b =b c then Some ([], s') else None
      end
  end.

(** ** Facts *)
Lemma cut_Some sep s before after : cut sep s = Some (before, after) → s = before ++ sep ++ after.
Proof.
  revert before; induction s as [|b s IH]; intros before; cbn [cut].
  - destruct (has_prefix sep []) eqn:E; [|done]. intros [= <- <-].
    apply has_prefix_spec, prefix_nil_inv in E. by subst.
  - destruct (has_prefix sep (b :: s)) eqn:E.
    + intros [= <- <-]. apply has_prefix_spec in E as [k Hk]. rewrite Hk. by rewrite drop_app_length.
    + destruct (cut sep s) as [[before' after']|]; [|done]. intros [= <- <-].
      cbn. by rewrite (IH before').
Qed.

Lemma contains_spec p s : contains p s = true ↔ ∃ a b, s = a ++ p ++ b.
Proof.
  induction s as [|c s IH]; cbn [contains]; rewrite orb_true_iff, has_prefix_spec.
  - split.
    + intros [[k Hk]|]; [|done]. by exists [], k.
    + intros (a & b & Hab). left. destruct a; [by exists b|done].
  - rewrite IH. split.
    + intros [[k Hk]|(a & b & ->)]; [by exists [], k|by exists (c :: a), b].
    + intros ([|c' a] & b & Hab); [left; by exists b|]. right. injection Hab as -> ->. by exists a, b.
Qed.

Lemma has_suffix_spec p s : has_suffix p s = true ↔ p `suffix_of` s.
Proof.
  unfold has_suffix. rewrite has_prefix_spec. split.
  - intros [k Hk]. exists (reverse k). apply (inj reverse). by rewrite reverse_app, reverse_involutive.
  - intros [k ->]. exists (reverse k). by rewrite reverse_app.
Qed.

(** Printing and reading integers *)
Lemma digits_acc d : ∀ acc,
  digits (Zpos acc) (bs (NilEmpty.string_of_uint d)) = Some (Zpos (Pos.of_uint_acc d acc)).
Proof.
  induction d; intros acc; [done|..]; cbn [NilEmpty.string_of_uint];
    (match goal with |- digits _ (bs (String ?c ?s)) = _ => change (bs (String c s)) with (Ascii.byte_of_ascii c :: bs s) end);
    cbn [digits]; (match goal with |- context [digit ?b] => let e := eval vm_compute in (digit b) in change (digit b) with e end);
    cbn iota beta; cbn [Pos.of_uint_acc]; rewrite <- IHd; f_equal; lia.
Qed.

Lemma digits_uint d : digits 0 (bs (NilEmpty.string_of_uint d)) = Some (Z.of_uint d).
Proof.
  unfold Z.of_uint. induction d; [done| exact IHd | ..]; apply (digits_acc d).
Qed.

Lemma bs_minus s : bs (String (Ascii.ascii_of_byte x2d) s) = x2d :: bs s.
Proof. reflexivity. Qed.

Lemma Atoi_itoa z : - two63 <= z < two63 → Atoi (itoa z) = Some z.
Proof.
  intros Hz. unfold itoa. pose proof (DecimalZ.of_to z) as Hof. unfold Atoi.
  assert (Hnil : ∀ d, d ≠ Nil → NilZero.string_of_uint d = NilEmpty.string_of_uint d) by (by intros []).
  assert (Hhead : ∀ d, d ≠ Nil → ∃ b l, bs (NilEmpty.string_of_uint d) = b :: l ∧ (b =b x2d) = false ∧ (b =b x2b) = false).
  { intros d Hd. destruct d; [done|..]; (eexists _, _; split; [reflexivity|by split]). }
  assert (Hrange : (- two63 <=? z) && (z <? two63) = true) by (apply andb_true_iff; lia).
  destruct (Z.to_int z) as [d|d] eqn:E; cbn [NilZero.string_of_int Z.of_int] in *.
  - assert (Hcase : d = Nil ∨ d ≠ Nil) by (destruct d; [by left|by right..]).
    destruct Hcase as [->|Hd]; [by rewrite <- Hof|].
    rewrite (Hnil d Hd). destruct (Hhead d Hd) as (b & l & Hbl & H1 & H2). pose proof (digits_uint d) as Hdig.
    rewrite Hbl in *. rewrite H1, H2, Hdig, Hof, Hrange. done.
  - assert (Hd : d ≠ Nil).
    { intros ->. destruct z as [|p|p]; cbn in E; done. }
    rewrite (Hnil d Hd). rewrite bs_minus.
    cbn iota beta. change (x2d =b x2d) with true. cbn iota.
    destruct (Hhead d Hd) as (b & l & Hbl & _). pose proof (digits_uint d) as Hdig. rewrite Hbl in *.
    rewrite Hdig, Hof, Hrange. done.
Qed.

Example Atoi_signed : map Atoi [bs "12"; bs "-3"; bs "+4"; bs "x"; bs "-"; bs "99999999999999999999"] =
  [Some 12; Some (-3); Some 4; None; None; None].
Proof. vm_compute. reflexivity. Qed.

Example TrimSpace_unicode : TrimSpace ([xe2; x80; xa8] ++ bs " a b " ++ [xc2; xa0; x0a]) = bs "a b".
Proof. vm_compute. reflexivity. Qed.
