(* ===== verification/JsonRead.v ===== *)
(** * Reading JSON back

    Parsers of the JSON that the encoders of [Json] write: each takes a value off the front of its input.
    [inverts p enc P]: [p] reads what [enc] writes of the values in [P], whatever follows. *)
From S2P Require Import Prelude Json Strings.

Definition parser (A : Type) : Type := bytes → option (A * bytes).

Lemma cut_prefix_app p s : cut_prefix p (p ++ s) = Some s.
Proof.
  unfold cut_prefix. assert (E : has_prefix p (p ++ s) = true) by (apply has_prefix_spec; by exists s).
  by rewrite E, drop_app_length.
Qed.

Definition p_string : parser bytes := λ s, match s with x22 :: s => json_unchars s | _ => None end.
Definition p_bytes : parser bytes := λ s,
  match p_string s with
  | Some (d, s) => match unbase64 d with Some b => Some (b, s) | None => None end
  | None => None
  end.
Definition p_nullable {A} (p : parser A) : parser (option A) := λ s,
  match cut_prefix (bs "null") s with
  | Some s => Some (None, s)
  | None => match p s with Some (a, s) => Some (Some a, s) | None => None end
  end.
Definition p_field {A} (before : bytes) (name : string) (p : parser A) : parser A := λ s,
  match cut_prefix (before ++ json_string (bs name) ++ bs ":") s with Some s => p s | None => None end.

Fixpoint p_elems {A} (p : parser A) (fuel : nat) : parser (list A) := λ s,
  match fuel, p s with
  | Datatypes.S fuel, Some (a, x2c :: s) =>
      match p_elems p fuel s with Some (l, s) => Some (a :: l, s) | None => None end
  | Datatypes.S _, Some (a, x5d :: s) => Some ([a], s)
  | _, _ => None
  end.

Definition p_array {A} (p : parser A) : parser (list A) := λ s,
  match s with
  | x5b :: x5d :: s => Some ([], s)
  | x5b :: s => p_elems p (length s) s
  | _ => None
  end.

Definition inverts {A} (p : parser A) (enc : A → bytes) (P : A → Prop) : Prop :=
  ∀ a rest, P a → p (enc a ++ rest) = Some (a, rest).

Lemma p_string_inverts : inverts p_string json_string (λ s, valid_utf8 s = true).
Proof.
  intros s rest Hs. unfold json_string. cbn [app p_string]. rewrite <- app_assoc. by apply json_string_roundtrip.
Qed.

Lemma p_bytes_inverts : inverts p_bytes json_bytes (λ _, True).
Proof.
  intros s rest _. unfold json_bytes, p_bytes. cbn [app p_string]. rewrite <- app_assoc. cbn [app].
  by rewrite json_unchars_base64, unbase64_base64.
Qed.

Lemma p_nullable_inverts {A} (p : parser A) enc P :
  inverts p enc P → (∀ a, ∃ s, enc a = x22 :: s ∨ enc a = x5b :: s) →
  inverts (p_nullable p) (λ o, match o with None => bs "null" | Some a => enc a end) (λ o, from_option P True o).
Proof.
  intros Hp Hq [a|] rest Ha; unfold p_nullable; [|by rewrite cut_prefix_app].
  assert (E : cut_prefix (bs "null") (enc a ++ rest) = None) by (by destruct (Hq a) as (s & [-> | ->])).
  by rewrite E, (Hp a rest Ha).
Qed.

Lemma p_elems_inverts {A} (p : parser A) enc P l : ∀ fuel rest,
  inverts p enc P → l ≠ [] → Forall P l → (length l <= fuel)%nat →
  p_elems p fuel (join (bs ",") (map enc l) ++ x5d :: rest) = Some (l, rest).
Proof.
  induction l as [|a l IH]; intros fuel rest Hp Hne HP Hf; [done|]. apply Forall_cons in HP as [Ha HP].
  destruct fuel as [|fuel]; cbn [length] in Hf; [lia|]. destruct l as [|b l].
  - cbn [map join p_elems]. by rewrite (Hp a _ Ha).
  - change (join (bs ",") (map enc (a :: b :: l))) with (enc a ++ x2c :: join (bs ",") (map enc (b :: l))).
    rewrite <- app_assoc. cbn [app p_elems]. rewrite (Hp a _ Ha). rewrite (IH fuel rest Hp) by (done || cbn [length] in *; lia). done.
Qed.

Lemma p_array_inverts {A} (p : parser A) enc P :
  inverts p enc P → (∀ a, ∃ c s, enc a = c :: s ∧ c ≠ x5d) →
  inverts (p_array p) (λ l, json_array (map enc l)) (Forall P).
Proof.
  intros Hp Hc l rest HP. unfold json_array. change (bs "[") with [x5b]. change (bs "]") with [x5d].
  rewrite <- !app_assoc. cbn [app]. destruct l as [|a l]; [done|].
  assert (Hlen : (length (a :: l) <= length (join (bs ",") (map enc (a :: l)) ++ x5d :: rest))%nat).
  { clear -Hc. rewrite length_app. cut (length (a :: l) <= length (join (bs ",") (map enc (a :: l))))%nat; [lia|].
    revert a. induction l as [|b l IH]; intros a; destruct (Hc a) as (c & s & Ea & _).
    - cbn. rewrite Ea. cbn. lia.
    - specialize (IH b). change (join (bs ",") (map enc (a :: b :: l))) with (enc a ++ x2c :: join (bs ",") (map enc (b :: l))).
      rewrite length_app, Ea. cbn [length] in *. lia. }
  pose proof (p_elems_inverts p enc P (a :: l) _ rest Hp ltac:(done) HP Hlen) as E. revert E.
  assert (Hhd : ∃ c s, join (bs ",") (map enc (a :: l)) = c :: s ∧ c ≠ x5d).
  { destruct (Hc a) as (c & s & Ea & Hne). cbn [map join]. rewrite Ea. destruct (map enc l); cbn [app]; eauto. }
  destruct Hhd as (c & s & -> & Hne). cbn [app p_array]. by destruct c.
Qed.
