(* ===== verification/Flatten.v ===== *)
(** * ee/dataflatten: flattening nested data

    [Flatten] turns nested data into rows of a path and a value, under an optional query with
    a term for each level.  The theorems give the query language its meaning: [selects] says
    declaratively which rows a query asks for, and [Flatten] computes exactly those. *)
From S2P Require Import Prelude Json Strings.
Set Warnings "-clear-no-such-hyp,-register-all".

Module Flatten.

(** ** Data

    The dynamic types the decoders produce.  A map is the list of its pairs in the order Go
    ranges over it; a [map[any]any] has the keys as fmt prints them. *)
Inductive data : Type :=
| DNil
| DString (s : bytes)
| DBytes (s : bytes)
| DUint (n : Z)            (* uint8, uint16, uint32, uint64 and howett.UID *)
| DInt (n : Z)             (* int, int8, int16, int32, int64 *)
| DFloat32 (bits : Z)
| DFloat64 (bits : Z)
| DBool (b : bool)
| DTime (unix : Z)
| DStringer (s : bytes)    (* another fmt.Stringer, by what it prints *)
| DArray (l : list data)   (* []any *)
| DMap (m : list (bytes * data))
| DMaps (l : list (list (bytes * data)))   (* []map[string]any *)
| DAnyMap (m : list (bytes * data))        (* map[any]any *)
| DOther.

(** A row copies its path ([NewRow]), so that later appends do not reach it. *)
Record row := Row { Path : list bytes; Value : bytes }.

(** Library functions that are not modelled: printing floats from their bits, and the plist
    decoder *)
Class FlattenLib := {
  FormatFloat : Z → Z → bytes;            (* strconv.FormatFloat(v, 'f', -1, bitSize) *)
  plistUnmarshal : bytes → option data    (* groob/plist *)
}.

(** What evaluating a CEL program gives: the size, for a value that has one, and the native value *)
Record celResult := CelResult { cel_size : option Z; cel_native : option data }.
Definition Prefilter : Type := data → option celResult.

Record Flattener := MkFlattener {
  expandNestedPlist : bool;
  includeNestedRaw : bool;
  includeNils : bool;
  query : list bytes;          (* empty for nil *)
  prefilter : option Prefilter
}.

Inductive FlattenOpts : Type :=
| IncludeNulls
| WithNestedPlist
| WithQuery (q : list bytes)
| WithPrefilter (p : option Prefilter).

Definition apply_opt (fl : Flattener) (o : FlattenOpts) : Flattener :=
  match o with
  | IncludeNulls => MkFlattener (expandNestedPlist fl) (includeNestedRaw fl) true (query fl) (prefilter fl)
  | WithNestedPlist => MkFlattener true (includeNestedRaw fl) (includeNils fl) (query fl) (prefilter fl)
  | WithQuery q =>
      if bool_decide (q = []) || bool_decide (q = [[]]) then fl
      else MkFlattener (expandNestedPlist fl) (includeNestedRaw fl) (includeNils fl) q (prefilter fl)
  | WithPrefilter p =>
      MkFlattener (expandNestedPlist fl) (includeNestedRaw fl) (includeNils fl) (query fl) p
  end.

Definition newFlattener (opts : list FlattenOpts) : Flattener :=
  foldl apply_opt (MkFlattener false false false [] None) opts.

Definition queryWildcard : bytes := bs "*".
Definition queryKeyDenoter : bytes := bs "#".
Definition arrow : bytes := bs "=>".

(** [m[k]] *)
Fixpoint lookup_key (k : bytes) (m : list (bytes * data)) : option data :=
  match m with
  | [] => None
  | (k', v) :: m' => if bool_decide (k' = k) then Some v else lookup_key k m'
  end.

Section Flattening.
Context `{L : FlattenLib}.

(** ** Scalars as strings *)
Definition stringify (d : data) : res bytes :=
  match d with
  | DNil => Ok []
  | DString s => Ok s
  | DBytes s => Ok (if valid_utf8 s then s else base64 s)
  | DUint n | DInt n => Ok (itoa n)
  | DFloat32 b => Ok (FormatFloat b 32)
  | DFloat64 b => Ok (FormatFloat b 64)
  | DBool b => Ok (if b then bs "true" else bs "false")
  | DTime u => Ok (itoa u)
  | DStringer s => Ok s
  | DArray _ | DMap _ | DMaps _ | DAnyMap _ | DOther => Err (Errorf "unknown type on %v")
  end.

Definition isPlist (s : bytes) : bool :=
  let dataPrefix := if len s <=? 30 then s else take 30 s in
  if contains (bs "bplist0") dataPrefix then true
  else contains ([x78; x6d; x6c; x20] ++ bs "version=" ++ [x22] ++ bs "1.0" ++ [x22]) dataPrefix &&
       contains (bs "<!DOCTYPE plist PUBLIC") s.

Section WithFlattener.
Variable fl : Flattener.

(** ** Matching query terms *)
Definition queryAtDepth (depth : nat) : bytes * bool :=
  match query fl !! depth with
  | None => (queryWildcard, true)
  | Some q => (q, bool_decide (q = queryWildcard))
  end.

Definition queryMatchNil (queryTerm : bytes) : bool := includeNils fl.

Definition queryMatchString (v queryTerm : bytes) : bool :=
  if bool_decide (queryTerm = queryWildcard) then true
  else if has_prefix queryWildcard queryTerm && has_suffix queryWildcard queryTerm then
    contains (trim_suffix queryWildcard (trim_prefix queryWildcard queryTerm)) v
  else if has_prefix queryWildcard queryTerm then has_suffix (trim_prefix queryWildcard queryTerm) v
  else if has_suffix queryWildcard queryTerm then has_prefix (trim_suffix queryWildcard queryTerm) v
  else bool_decide (v = queryTerm).

Definition queryMatchStringify (d : data) (queryTerm : bytes) : bool :=
  let queryTerm := trim_prefix queryKeyDenoter queryTerm in
  if bool_decide (queryTerm = queryWildcard) then true
  else
    match d with
    | DNil => queryMatchNil queryTerm
    | _ => match stringify d with Ok s => queryMatchString s queryTerm | _ => false end
    end.

(** [strings.SplitN(term, "=>", 2)]: the part before the arrow, and the part after it *)
Definition split_arrow (queryTerm : bytes) : bytes * option bytes :=
  match cut arrow queryTerm with Some (k, v) => (k, Some v) | None => (queryTerm, None) end.

Definition queryMatchArrayElement (d : data) (arrIndex : nat) (queryTerm : bytes) : bool :=
  let queryTerm := trim_prefix queryKeyDenoter queryTerm in
  if bool_decide (queryTerm = queryWildcard) then true
  else
    match Atoi queryTerm with
    | Some queryIndex => queryIndex =? Z.of_nat arrIndex
    | None =>
        match d with
        | DArray _ => false
        | DMap m =>
            match split_arrow queryTerm with
            | (k, None) => bool_decide (is_Some (lookup_key k m))
            | (k, Some v) => existsb (λ kv, queryMatchString kv.1 k && queryMatchStringify kv.2 v) m
            end
        | _ => queryMatchStringify d queryTerm
        end
    end.

(** ** Descending

    The rows of the elements of a list, the first error stops *)
Definition collect {A} (f : nat → A → res (list row)) : nat → list A → res (list row) :=
  fix go i l :=
    match l with
    | [] => Ok []
    | x :: l' => r ← f i x; rs ← go (S i) l'; Ok (r ++ rs)
    end.

Definition handleStringLike (path : list bytes) (d : data) (depth : nat) : res (list row) :=
  let '(queryTerm, isQueryMatched) := queryAtDepth depth in
  s ← stringify d;
  Ok (if isQueryMatched || queryMatchString s queryTerm then [Row path s] else []).

(** The path key of an array element: its index, or under a [#] term the string its key has;
    [None] when there is no such string *)
Definition elementKey (queryTerm : bytes) (idx : nat) (d : data) : option bytes :=
  match cut_prefix queryKeyDenoter queryTerm with
  | None => Some (itoa (Z.of_nat idx))
  | Some after =>
      match d with
      | DMap m => match lookup_key (split_arrow after).1 m with Some (DString s) => Some s | _ => None end
      | _ => None
      end
  end.

Definition descendArrayElement (descend : list bytes → data → nat → res (list row))
    (path : list bytes) (idx : nat) (d : data) (depth : nat) : res (list row) :=
  let '(queryTerm, isQueryMatched) := queryAtDepth depth in
  match elementKey queryTerm idx d with
  | None => Ok []
  | Some pathKey =>
      if negb (isQueryMatched || queryMatchArrayElement d idx queryTerm) then Ok []
      else descend (path ++ [pathKey]) d (S depth)
  end.

(** [nested] descends into the data of an embedded plist. *)
Definition descendMaybePlist (nested : list bytes → data → nat → res (list row))
    (path : list bytes) (s : bytes) (depth : nat) : res (list row) :=
  if negb (expandNestedPlist fl) then handleStringLike path (DBytes s) depth
  else if negb (isPlist s) then handleStringLike path (DBytes s) depth
  else
    match plistUnmarshal s with
    | None => handleStringLike path (DBytes s) depth
    | Some innerData =>
        let raw :=
          if includeNestedRaw fl then
            match handleStringLike (path ++ [bs "_raw"]) (DBytes s) depth with Ok r => r | _ => [] end
          else [] in
        rows ← wrap "flattening plist data: %w" (nested path innerData depth);
        Ok (raw ++ rows)
    end.

(** The case of [descend] for a map *)
Definition descendMap (descend : list bytes → data → nat → res (list row))
    (path : list bytes) (m : list (bytes * data)) (depth : nat) : res (list row) :=
  let '(queryTerm, isQueryMatched) := queryAtDepth depth in
  collect (λ _ kv,
    match kv with
    | (k, e) =>
        if negb (isQueryMatched || queryMatchString k queryTerm) then Ok []
        else wrap "flattening map: %w" (descend (path ++ [k]) e (S depth))
    end) 0 m.

(** [descend] on the data between two embedded plists *)
Fixpoint descend_data (nested : list bytes → data → nat → res (list row))
    (path : list bytes) (d : data) (depth : nat) {struct d} : res (list row) :=
  match d with
  | DArray l =>
      collect (λ i e, wrap "flattening array element at index %d: %w"
        (descendArrayElement (descend_data nested) path i e depth)) 0 l
  | DMap m => descendMap (descend_data nested) path m depth
  | DMaps l =>
      collect (λ i m, wrap "flattening array of maps: %w"
        (descendMap (descend_data nested) (path ++ [itoa (Z.of_nat i)]) m (S depth))) 0 l
  | DNil => Ok (if queryMatchNil (queryAtDepth depth).1 then [Row path []] else [])
  | DString s | DBytes s => descendMaybePlist nested path s depth
  | _ => wrap "flattening at path %v: %w" (handleStringLike path d depth)
  end.

(** [descend]: the fuel bounds how deep plists are embedded in plists *)
Fixpoint descend (fuel : nat) (path : list bytes) (d : data) (depth : nat) : res (list row) :=
  match fuel with
  | O => NoFuel
  | S fuel' => descend_data (descend fuel') path d depth
  end.

(** ** Prefilters *)

(** [m[k] = v] *)
Fixpoint set_key (k : bytes) (v : data) (m : list (bytes * data)) : list (bytes * data) :=
  match m with
  | [] => [(k, v)]
  | (k', v') :: m' => if bool_decide (k' = k) then (k, v) :: m' else (k', v') :: set_key k v m'
  end.

Fixpoint normalizeStringKeys (d : data) : data :=
  match d with
  | DMap m => DMap (map (λ kv, match kv with (k, v) => (k, normalizeStringKeys v) end) m)
  | DAnyMap m =>
      DMap (fold_left (λ acc kv, match kv with (k, v) => set_key k v acc end)
        (map (λ kv, match kv with (k, v) => (k, normalizeStringKeys v) end) m) [])
  | DArray l => DArray (map normalizeStringKeys l)
  | _ => d
  end.

(** [Apply]: [None] for an error *)
Definition Apply (p : Prefilter) (obj : data) : res data :=
  match p obj with
  | None => Err (Errorf "running prefilter: %w")
  | Some out =>
      if bool_decide (cel_size out = Some 0) then Ok DNil
      else
        match cel_native out with
        | None => Err (Errorf "converting prefilter result: %w")
        | Some native => Ok (normalizeStringKeys native)
        end
  end.

Definition applyPrefilter (obj : data) : res data :=
  match prefilter fl with
  | None => Ok obj
  | Some p => wrap "prefiltering: %w" (Apply p obj)
  end.

(** One object of [FlattenEach] *)
Definition flatten_object (fuel : nat) (i : nat) (obj : data * option err) : res (list row) :=
  match obj.2 with
  | Some e => Err (Wrapf "iterating: %w" e)
  | None =>
      filteredObj ← wrap "prefiltering object %d: %w" (applyPrefilter obj.1);
      wrap "flattening object %d: %w" (descendArrayElement (descend fuel) [] i filteredObj 0)
  end.
End WithFlattener.

Definition Flatten (fuel : nat) (d : data) (opts : list FlattenOpts) : res (list row) :=
  let fl := newFlattener opts in
  filteredData ← wrap "applying prefilter before flattening: %w" (applyPrefilter fl d);
  descend fl fuel [] filteredData 0.

(** [FlattenEach] on what the iterator yields: objects, or errors *)
Definition FlattenEach (fuel : nat) (next : list (data * option err)) (opts : list FlattenOpts)
    : res (list row) :=
  collect (flatten_object (newFlattener opts) fuel) 0 next.

(** ** Rows *)
Definition StringPath (r : row) (sep : bytes) : bytes := join sep (Path r).

Definition ParentKey (r : row) (sep : bytes) : bytes * bytes :=
  match Path r with
  | [] => ([], [])
  | [x] => ([], x)
  | p => (join sep (removelast p), List.last p [])
  end.
End Flattening.

(** ** Induction on data *)
Definition children (d : data) : list data :=
  match d with
  | DArray l => l
  | DMap m | DAnyMap m => m.*2
  | DMaps l => (concat l).*2
  | _ => []
  end.

Lemma data_ind_children (P : data → Prop) :
  (∀ d, Forall P (children d) → P d) → ∀ d, P d.
Proof.
  intros H. fix go 1. intros d. apply H. destruct d; cbn [children]; try constructor.
  - induction l as [|d l IH]; constructor; [apply go|exact IH].
  - induction m as [|[k d] m IH]; constructor; [apply go|exact IH].
  - induction l as [|m l IH]; [constructor|]. cbn [concat]. rewrite fmap_app. apply Forall_app. split; [|exact IH].
    clear IH. induction m as [|[k d] m IH]; constructor; [apply go|exact IH].
  - induction m as [|[k d] m IH]; constructor; [apply go|exact IH].
Qed.

(** ** Wildcards

    A term matches a string when its body, without the asterisks at its ends, is in the
    string: at the start unless the term starts with an asterisk, at the end unless it ends
    with one. *)
Definition starred_front (t : bytes) : bool := has_prefix queryWildcard t.
Definition starred_back (t : bytes) : bool := has_suffix queryWildcard t.

Definition glob (t s : bytes) : Prop :=
  ∃ a b, s = a ++ trim_suffix queryWildcard (trim_prefix queryWildcard t) ++ b ∧
    (starred_front t = false → a = []) ∧ (starred_back t = false → b = []).

Lemma trim_prefix_no p s : has_prefix p s = false → trim_prefix p s = s.
Proof. unfold trim_prefix. by intros ->. Qed.

Lemma trim_suffix_no p s : has_suffix p s = false → trim_suffix p s = s.
Proof. unfold trim_suffix. by intros ->. Qed.

Lemma queryMatchString_glob v t : queryMatchString v t = true ↔ glob t v.
Proof.
  unfold queryMatchString, glob, starred_front, starred_back. set (w := queryWildcard).
  case_bool_decide as E.
  { rewrite E. split; [|done]. intros _. exists [], v. split; [done|]. split; [done|discriminate]. }
  destruct (has_prefix w t) eqn:Ef, (has_suffix w t) eqn:Eb; cbn [andb].
  - rewrite contains_spec. split; intros (a & b & H); exists a, b; [by split_and!|by destruct H].
  - rewrite trim_suffix_no.
    + rewrite has_suffix_spec. split.
      * intros [k Hk]. exists k, []. rewrite app_nil_r. by split_and!.
      * intros (a & b & -> & _ & Hb). rewrite (Hb eq_refl), app_nil_r. by exists a.
    + destruct (has_suffix w (trim_prefix w t)) eqn:E'; [|done].
      apply has_prefix_spec in Ef as [k ->]. apply has_suffix_spec in E' as [k' Hk].
      assert (H : has_suffix w (w ++ k) = true); [|congruence]. apply has_suffix_spec.
      assert (Ht : trim_prefix w (w ++ k) = k) by reflexivity. rewrite Ht in Hk. rewrite Hk.
      exists (w ++ k'). by rewrite <- app_assoc.
  - rewrite (trim_prefix_no w t Ef), has_prefix_spec. split.
    + intros [k ->]. exists [], k. by split_and!.
    + intros (a & b & -> & Ha & _). rewrite (Ha eq_refl). by exists b.
  - rewrite (trim_prefix_no w t Ef), (trim_suffix_no w t Eb). split.
    + intros <-%bool_decide_eq_true. exists [], []. rewrite app_nil_r. by split_and!.
    + intros (a & b & -> & Ha & Hb). rewrite (Ha eq_refl), (Hb eq_refl), app_nil_r.
      by apply bool_decide_eq_true.
Qed.

(** ** The meaning of a query *)
Section Meaning.
Context `{L : FlattenLib} (fl : Flattener).

(** The query that is left at a level asks for something when it is used up, or its term is
    the wildcard or passes the test. *)
Definition asks (q : list bytes) (test : bytes → Prop) : Prop :=
  match q with [] => True | t :: _ => t = queryWildcard ∨ test t end.

(** A value that matches a term, as an array element or under a key *)
Definition value_ok (t : bytes) (v : data) : Prop :=
  let t := trim_prefix queryKeyDenoter t in
  t = queryWildcard ∨
  match v with
  | DNil => includeNils fl = true
  | _ => ∃ s, stringify v = Ok s ∧ glob t s
  end.

(** A term picks an array element by index, by a key it has, by a key and its value, or by value. *)
Definition element_ok (t : bytes) (i : nat) (e : data) : Prop :=
  let t := trim_prefix queryKeyDenoter t in
  t = queryWildcard ∨
  match Atoi t with
  | Some n => n = Z.of_nat i
  | None =>
      match e with
      | DArray _ => False
      | DMap m =>
          match split_arrow t with
          | (k, None) => is_Some (lookup_key k m)
          | (k, Some v) => ∃ k' v', (k', v') ∈ m ∧ glob k k' ∧ value_ok v v'
          end
      | _ => value_ok t e
      end
  end.

(** An array element is called by its index, or by its own key under a term with [#]. *)
Inductive names : list bytes → nat → data → bytes → Prop :=
| names_index q i e :
    (∀ t, head q = Some t → has_prefix queryKeyDenoter t = false) → names q i e (itoa (Z.of_nat i))
| names_key t q after i m name :
    t = queryKeyDenoter ++ after → lookup_key (split_arrow after).1 m = Some (DString name) →
    names (t :: q) i (DMap m) name.

Definition text (d : data) : option bytes :=
  match d with DString s | DBytes s => Some s | _ => None end.

Definition printed (s : bytes) : bytes := if valid_utf8 s then s else base64 s.

(** The embedded plist of a text, when it is to be expanded *)
Definition opened (s : bytes) : option data :=
  if expandNestedPlist fl && isPlist s then plistUnmarshal s else None.

(** [selects q d p v]: the query [q] asks for the value [v] at the path [p] of [d]. *)
Inductive selects : list bytes → data → list bytes → bytes → Prop :=
| sel_nil q : includeNils fl = true → selects q DNil [] []
| sel_text q d s :
    text d = Some s → opened s = None → asks q (λ t, glob t (printed s)) → selects q d [] (printed s)
| sel_plist q d s inner p v :
    text d = Some s → opened s = Some inner → selects q inner p v → selects q d p v
| sel_raw q d s inner :
    text d = Some s → opened s = Some inner → includeNestedRaw fl = true →
    asks q (λ t, glob t (printed s)) → selects q d [bs "_raw"] (printed s)
| sel_scalar q d v :
    text d = None → d ≠ DNil → stringify d = Ok v → asks q (λ t, glob t v) → selects q d [] v
| sel_array q l i e name p v :
    l !! i = Some e → names q i e name → asks q (λ t, element_ok t i e) →
    selects (tail q) e p v → selects q (DArray l) (name :: p) v
| sel_map q m k e p v :
    (k, e) ∈ m → asks q (λ t, glob t k) → selects (tail q) e p v → selects q (DMap m) (k :: p) v
| sel_maps q l i m p v :
    l !! i = Some m → selects (tail q) (DMap m) p v → selects q (DMaps l) (itoa (Z.of_nat i) :: p) v.

(** The query left at a depth *)
Definition left_at (depth : nat) : list bytes := drop depth (query fl).

Lemma left_at_tail depth : left_at (S depth) = tail (left_at depth).
Proof.
  unfold left_at. revert depth. induction (query fl) as [|t q IH]; intros depth; [by destruct depth|].
  destruct depth; [done|]. apply IH.
Qed.

Lemma queryAtDepth_left depth :
  queryAtDepth fl depth =
    match left_at depth with [] => (queryWildcard, true) | t :: _ => (t, bool_decide (t = queryWildcard)) end.
Proof.
  unfold queryAtDepth, left_at. revert depth. induction (query fl) as [|t q IH]; intros depth; [by destruct depth|].
  destruct depth; [done|]. apply IH.
Qed.

(** The test of a level, for a decision [b] of [test] *)
Lemma asks_spec depth (b : bytes → bool) (test : bytes → Prop) :
  (∀ t, b t = true ↔ test t) →
  (queryAtDepth fl depth).2 || b (queryAtDepth fl depth).1 = true ↔ asks (left_at depth) test.
Proof.
  intros Hb. rewrite queryAtDepth_left. destruct (left_at depth) as [|t q]; cbn [fst snd asks]; [done|].
  by rewrite orb_true_iff, bool_decide_eq_true, Hb.
Qed.

Lemma value_ok_spec v t : queryMatchStringify fl v t = true ↔ value_ok t v.
Proof.
  unfold queryMatchStringify, value_ok. set (t' := trim_prefix queryKeyDenoter t).
  case_bool_decide as E; [split; [by left|done]|].
  assert (Hs : (match stringify v with Ok s => queryMatchString s t' | _ => false end) = true ↔
    ∃ s, stringify v = Ok s ∧ glob t' s).
  { destruct (stringify v) as [s|e| |]; [|split; [done|by intros (? & ? & ?)]..].
    rewrite queryMatchString_glob. split; [by exists s|]. by intros (? & [= ->] & ?). }
  destruct v; try (rewrite Hs; split; [by right|by intros [?|?]]).
  split; [by right|by intros [?|?]].
Qed.

Lemma element_ok_spec e i t : queryMatchArrayElement fl e i t = true ↔ element_ok t i e.
Proof.
  unfold queryMatchArrayElement, element_ok. set (t' := trim_prefix queryKeyDenoter t).
  case_bool_decide as E; [split; [by left|done]|].
  assert (Hor : ∀ P : Prop, P ↔ (t' = queryWildcard ∨ P)) by (intros P; split; [by right|by intros [?|?]]).
  rewrite <- Hor. destruct (Atoi t') as [n|]; [by rewrite Z.eqb_eq|].
  destruct e; try apply value_ok_spec; [done|].
  destruct (split_arrow t') as [k [v|]]; [|by rewrite bool_decide_eq_true].
  rewrite existsb_exists. split.
  - intros ([k' v'] & Hin & [Hk Hv]%andb_true_iff). exists k', v'.
    by rewrite list_elem_of_In, <- queryMatchString_glob, <- value_ok_spec.
  - intros (k' & v' & Hin & Hk & Hv). exists (k', v'). rewrite <- list_elem_of_In. split; [done|].
    apply andb_true_iff. by rewrite queryMatchString_glob, value_ok_spec.
Qed.

Lemma elementKey_names depth i e name :
  elementKey (queryAtDepth fl depth).1 i e = Some name ↔ names (left_at depth) i e name.
Proof.
  rewrite queryAtDepth_left. unfold elementKey, cut_prefix.
  destruct (left_at depth) as [|t q]; cbn [fst].
  { split; [intros [= <-]; by constructor|by inversion 1]. }
  destruct (has_prefix queryKeyDenoter t) eqn:Et.
  - apply has_prefix_spec in Et as [after ->]. rewrite drop_app_length. split.
    + destruct e; try done. destruct (lookup_key _ m) as [[]|] eqn:El; try done. intros [= ->].
      by eapply names_key.
    + inversion 1 as [? ? ? Hno|? ? after' ? ? ? Heq Hl]; subst.
      * specialize (Hno _ eq_refl). by rewrite (proj2 (has_prefix_spec _ _)) in Hno by by exists after.
      * apply (app_inv_head queryKeyDenoter) in Heq as <-. by rewrite Hl.
  - split.
    + intros [= <-]. constructor. by intros t' [= ->].
    + inversion 1 as [|? ? after]; subst; [done|].
      by rewrite (proj2 (has_prefix_spec _ _)) in Et by by exists after.
Qed.

(** [rows] are what [q] asks for in [d], below [path]. *)
Definition answers (q : list bytes) (path : list bytes) (d : data) (rows : list row) : Prop :=
  ∀ r, r ∈ rows ↔ ∃ p, Path r = path ++ p ∧ selects q d p (Value r).

Definition answers_calls (desc : list bytes → data → nat → res (list row)) (d : data) : Prop :=
  ∀ path depth rows, desc path d depth = Ok rows → answers (left_at depth) path d rows.

Lemma collect_elem {A} (f : nat → A → res (list row)) l : ∀ i rows,
  collect f i l = Ok rows →
  ∀ r, r ∈ rows ↔ ∃ j x rs, l !! j = Some x ∧ f (i + j)%nat x = Ok rs ∧ r ∈ rs.
Proof.
  induction l as [|x l IH]; intros i rows; cbn [collect].
  { intros [= <-] r. rewrite elem_of_nil. split; [done|]. by intros (? & ? & ? & ? & _). }
  destruct (f i x) as [a|e| |] eqn:E; try done. cbn. destruct (collect f (S i) l) as [a0|e| |] eqn:E0; try done.
  intros [= <-] r. rewrite elem_of_app, (IH _ _ E0). split.
  - intros [Hr|(j & y & rs & Hj & Hf & Hr)].
    + exists 0%nat, x, a. by rewrite Nat.add_0_r.
    + exists (S j), y, rs. by rewrite <- Nat.add_succ_comm.
  - intros ([|j] & y & rs & Hj & Hf & Hr).
    + left. injection Hj as <-. rewrite Nat.add_0_r in Hf. congruence.
    + right. exists j, y, rs. by rewrite Nat.add_succ_comm.
Qed.

(** Every element was collected. *)
Lemma collect_all {A} (f : nat → A → res (list row)) l : ∀ i rows,
  collect f i l = Ok rows → ∀ j x, l !! j = Some x → ∃ rs, f (i + j)%nat x = Ok rs.
Proof.
  induction l as [|x l IH]; intros i rows; cbn [collect]; [done|].
  destruct (f i x) as [a|e| |] eqn:E; try done. cbn. destruct (collect f (S i) l) as [a0|e| |] eqn:E0; try done.
  intros _ [|j] y Hj.
  - injection Hj as <-. exists a. by rewrite Nat.add_0_r.
  - destruct (IH _ _ E0 j y Hj) as [rs Hrs]. exists rs. by rewrite <- Nat.add_succ_comm.
Qed.

Lemma answers_one q path d v (P : Prop) (b : bool) :
  (b = true ↔ P) → (∀ p w, selects q d p w ↔ p = [] ∧ w = v ∧ P) →
  answers q path d (if b then [Row path v] else []).
Proof.
  intros Hb Hs [p' w]. cbn [Path Value]. destruct b.
  - rewrite list_elem_of_singleton. split.
    + intros [= -> ->]. exists []. rewrite app_nil_r. split; [done|]. apply Hs. by rewrite <- Hb.
    + intros (p & -> & (-> & -> & _)%Hs). by rewrite app_nil_r.
  - rewrite elem_of_nil. split; [done|]. intros (p & _ & (_ & _ & HP)%Hs). by apply Hb in HP.
Qed.

Lemma answers_map desc path m depth rows :
  Forall (answers_calls desc) (m.*2) → descendMap fl desc path m depth = Ok rows →
  answers (left_at depth) path (DMap m) rows.
Proof.
  intros Hm. unfold descendMap.
  pose proof (λ k, asks_spec depth (queryMatchString k) (λ t, glob t k) (queryMatchString_glob k)) as Hask.
  destruct (queryAtDepth fl depth) as [t mt]. cbn [fst snd] in Hask. intros Hc r. rewrite (collect_elem _ _ _ _ Hc). split.
  - intros (j & [k e] & rs & Hj & Hf & Hr). apply list_elem_of_lookup_2 in Hj.
    destruct (mt || queryMatchString k t) eqn:Ek; cbn [negb] in Hf; [|injection Hf as <-; by apply elem_of_nil in Hr].
    apply wrap_Ok in Hf. rewrite Forall_forall in Hm.
    apply (Hm e ltac:(apply (list_elem_of_fmap_2 snd _ (k, e)); done) _ _ _ Hf) in Hr as (p & Hp & Hsel).
    exists (k :: p). split; [by rewrite Hp, <- app_assoc|]. rewrite left_at_tail in Hsel.
    apply sel_map with e; [done| |done]. by apply Hask.
  - intros (p & Hp & Hsel). inversion Hsel as [ | | | | | |q m' k e p' v Hin Hk Htl|]; subst; try done.
    apply list_elem_of_lookup_1 in Hin as [j Hj].
    destruct (collect_all _ _ _ _ Hc j (k, e) Hj) as [rs Hrs]. exists j, (k, e), rs. split; [done|]. split; [done|].
    apply Hask in Hk. cbn in Hrs. rewrite Hk in Hrs. cbn [negb] in Hrs. apply wrap_Ok in Hrs.
    rewrite Forall_forall in Hm. apply list_elem_of_lookup_2 in Hj.
    apply (Hm e ltac:(apply (list_elem_of_fmap_2 snd _ (k, e)); done) _ _ _ Hrs).
    exists p'. split; [by rewrite Hp, <- app_assoc|]. by rewrite left_at_tail.
Qed.

(** The row of a string *)
Lemma handleStringLike_Ok path d depth v :
  stringify d = Ok v →
  ∃ b : bool, handleStringLike fl path d depth = Ok (if b then [Row path v] else []) ∧
    (b = true ↔ asks (left_at depth) (λ t, glob t v)).
Proof.
  intros Hd. unfold handleStringLike. rewrite Hd.
  pose proof (asks_spec depth (queryMatchString v) (λ t, glob t v) (queryMatchString_glob v)) as Hask.
  destruct (queryAtDepth fl depth) as [t mt]. by exists (mt || queryMatchString v t).
Qed.

Lemma answers_scalar path q d v rows (b : bool) :
  rows = (if b then [Row path v] else []) → (b = true ↔ asks q (λ t, glob t v)) →
  (∀ p w, selects q d p w ↔ p = [] ∧ w = v ∧ asks q (λ t, glob t v)) → answers q path d rows.
Proof. intros -> Hb Hs. by eapply answers_one. Qed.

Lemma answers_text nested path d s depth rows :
  text d = Some s → (∀ inner, answers_calls nested inner) →
  descendMaybePlist fl nested path s depth = Ok rows → answers (left_at depth) path d rows.
Proof.
  intros Ht Hn. assert (Hst : stringify (DBytes s) = Ok (printed s)) by done.
  unfold descendMaybePlist.
  assert (Hplain : opened s = None → handleStringLike fl path (DBytes s) depth = Ok rows →
    answers (left_at depth) path d rows).
  { intros Ho. destruct (handleStringLike_Ok path (DBytes s) depth _ Hst) as (b & -> & Hb). intros [= <-].
    eapply answers_scalar; [done|exact Hb|]. intros p w. split.
    - inversion 1; subst; simplify_eq; done.
    - intros (-> & -> & Ha). by apply sel_text. }
  unfold opened in Hplain. destruct (expandNestedPlist fl) eqn:Ee; cbn [negb andb] in *; [|by apply Hplain].
  destruct (isPlist s) eqn:Ei; cbn [negb] in *; [|by apply Hplain].
  destruct (plistUnmarshal s) as [inner|] eqn:Eu; [|by apply Hplain]. clear Hplain.
  assert (Ho : opened s = Some inner) by (unfold opened; by rewrite Ee, Ei).
  destruct (nested path inner depth) as [rs|e| |] eqn:En; try done. cbn [wrap mbind res_bind]. intros [= <-] r.
  specialize (Hn inner _ _ _ En r). rewrite elem_of_app, Hn.
  destruct (handleStringLike_Ok (path ++ [bs "_raw"]) (DBytes s) depth _ Hst) as (b & -> & Hb). split.
  - intros [Hr|(p & Hp & Hs)]; [|exists p; split; [done|by eapply sel_plist]].
    destruct (includeNestedRaw fl) eqn:Er; [|by apply elem_of_nil in Hr].
    destruct b; [|by apply elem_of_nil in Hr]. apply list_elem_of_singleton in Hr as ->.
    exists [bs "_raw"]. split; [done|]. eapply sel_raw; try done. by apply Hb.
  - intros (p & Hp & Hs). inversion Hs; subst; simplify_eq; try done; [right; by exists p|].
    left. destruct (includeNestedRaw fl); [|done]. rewrite (proj2 Hb) by done. apply list_elem_of_singleton.
    destruct r; cbn in *; by subst.
Qed.

Lemma answers_array desc path l depth rows :
  Forall (answers_calls desc) l →
  collect (λ i e, wrap "flattening array element at index %d: %w" (descendArrayElement fl desc path i e depth)) 0 l
    = Ok rows →
  answers (left_at depth) path (DArray l) rows.
Proof.
  intros Hl Hc r. rewrite (collect_elem _ _ _ _ Hc). rewrite Forall_forall in Hl. split.
  - intros (j & e & rs & Hj & Hf%wrap_Ok & Hr). unfold descendArrayElement in Hf.
    pose proof (asks_spec depth (queryMatchArrayElement fl e j) (λ t, element_ok t j e) (element_ok_spec e j)) as Hask.
    pose proof (elementKey_names depth j e) as Hnm.
    destruct (queryAtDepth fl depth) as [t mt]. cbn [fst snd plus] in *.
    destruct (elementKey t j e) as [name|]; [|injection Hf as <-; by apply elem_of_nil in Hr].
    destruct (mt || queryMatchArrayElement fl e j t); cbn [negb] in Hf; [|injection Hf as <-; by apply elem_of_nil in Hr].
    apply (Hl e (list_elem_of_lookup_2 _ _ _ Hj) _ _ _ Hf) in Hr as (p & Hp & Hs).
    exists (name :: p). split; [by rewrite Hp, <- app_assoc|]. rewrite left_at_tail in Hs.
    eapply sel_array; [done|by apply Hnm|by apply Hask|done].
  - intros (p & Hp & Hs). inversion Hs as [ | | | | |q l' j e name p' v Hj Hname Hask' Htl| |]; subst; try done.
    destruct (collect_all _ _ _ _ Hc j e Hj) as [rs Hrs]. exists j, e, rs. split; [done|]. split; [done|].
    apply wrap_Ok in Hrs. unfold descendArrayElement in Hrs.
    pose proof (asks_spec depth (queryMatchArrayElement fl e j) (λ t, element_ok t j e) (element_ok_spec e j)) as Hask.
    pose proof (elementKey_names depth j e name) as Hnm.
    destruct (queryAtDepth fl depth) as [t mt]. cbn [fst snd plus] in *.
    apply Hnm in Hname. rewrite Hname in Hrs. apply Hask in Hask'. rewrite Hask' in Hrs. cbn [negb] in Hrs.
    apply (Hl e (list_elem_of_lookup_2 _ _ _ Hj) _ _ _ Hrs). exists p'.
    split; [by rewrite Hp, <- app_assoc|]. by rewrite left_at_tail.
Qed.

Lemma answers_maps desc path (l : list (list (bytes * data))) depth rows :
  Forall (answers_calls desc) ((concat l).*2) →
  collect (λ i m, wrap "flattening array of maps: %w" (descendMap fl desc (path ++ [itoa (Z.of_nat i)]) m (S depth))) 0 l
    = Ok rows →
  answers (left_at depth) path (DMaps l) rows.
Proof.
  intros Hl Hc r. rewrite (collect_elem _ _ _ _ Hc).
  assert (Hm : ∀ j m, l !! j = Some m → Forall (answers_calls desc) (m.*2)).
  { intros j m Hj. rewrite Forall_forall in *. intros e He. apply Hl.
    apply list_elem_of_fmap in He as ([k e'] & -> & He). apply (list_elem_of_fmap_2 snd _ (k, e')).
    apply list_elem_of_In, in_concat. exists m.
    split; apply list_elem_of_In; [by eapply list_elem_of_lookup_2|done]. }
  split.
  - intros (j & m & rs & Hj & Hf%wrap_Ok & Hr).
    apply (answers_map _ _ _ _ _ (Hm j m Hj) Hf) in Hr as (p & Hp & Hs).
    exists (itoa (Z.of_nat j) :: p). split; [by rewrite Hp, <- app_assoc|]. rewrite left_at_tail in Hs.
    by eapply sel_maps.
  - intros (p & Hp & Hs). inversion Hs as [ | | | | | | |q l' j m p' v Hj Htl]; subst; try done.
    destruct (collect_all _ _ _ _ Hc j m Hj) as [rs Hrs]. exists j, m, rs. split; [done|]. split; [done|].
    apply wrap_Ok in Hrs. apply (answers_map _ _ _ _ _ (Hm j m Hj) Hrs). exists p'.
    split; [by rewrite Hp, <- app_assoc|]. by rewrite left_at_tail.
Qed.

Lemma descend_data_answers nested :
  (∀ d, answers_calls nested d) → ∀ d, answers_calls (descend_data fl nested) d.
Proof.
  intros Hn. apply (data_ind_children (answers_calls (descend_data fl nested))).
  intros d IH path depth rows. destruct d; cbn [descend_data children] in *.
  all: try (intros H; by eapply answers_text).
  all: try (intros H%wrap_Ok;
    match type of H with handleStringLike _ _ ?d _ = _ =>
      destruct (handleStringLike_Ok path d depth _ eq_refl) as (? & Hb & Hask) end;
    rewrite Hb in H; injection H as <-; eapply answers_scalar; [done|exact Hask|];
    intros p w; split; [inversion 1; subst; cbn [text stringify] in *; simplify_eq; done|intros (-> & -> & ?); by apply sel_scalar]).
  - intros [= <-] r. unfold queryMatchNil. destruct (includeNils fl) eqn:E.
    + rewrite list_elem_of_singleton. split.
      * intros ->. exists []. rewrite app_nil_r. split; [done|]. by constructor.
      * intros (p & Hp & Hs). inversion Hs; subst; simplify_eq; try done.
        destruct r; cbn in *; subst. by rewrite app_nil_r.
    + rewrite elem_of_nil. split; [done|]. intros (p & Hp & Hs). inversion Hs; subst; simplify_eq; try done; congruence.
  - by apply answers_array.
  - by apply answers_map.
  - by apply answers_maps.
  - unfold handleStringLike. by destruct (queryAtDepth fl depth).
  - unfold handleStringLike. by destruct (queryAtDepth fl depth).
Qed.

Lemma descend_answers fuel : ∀ d, answers_calls (descend fl fuel) d.
Proof. induction fuel as [|fuel IH]; intros d; [done|]. by apply descend_data_answers. Qed.

(** ** Data that can be flattened

    Every value can be printed, and plists are embedded at most [n] deep. *)
Definition container (d : data) : bool :=
  match d with DArray _ | DMap _ | DMaps _ => true | _ => false end.

Inductive supported : nat → data → Prop :=
| sup_nil n : supported n DNil
| sup_text n d s : text d = Some s → opened s = None → supported n d
| sup_plist n d s inner : text d = Some s → opened s = Some inner → supported n inner → supported (S n) d
| sup_scalar n d v : text d = None → stringify d = Ok v → supported n d
| sup_container n d : container d = true → (∀ e, e ∈ children d → supported n e) → supported n d.

Lemma supported_mono n d : supported n d → ∀ m, (n <= m)%nat → supported m d.
Proof.
  induction 1; intros m' Hm; try by econstructor.
  - destruct m' as [|m']; [lia|]. eapply sup_plist; [done..|]. apply IHsupported. lia.
  - apply sup_container; auto.
Qed.

Lemma collect_succeeds {A} (f : nat → A → res (list row)) l : ∀ i,
  (∀ j x, l !! j = Some x → ∃ rs, f (i + j)%nat x = Ok rs) → ∃ rows, collect f i l = Ok rows.
Proof.
  induction l as [|x l IH]; intros i H; cbn [collect]; [by eexists|].
  destruct (H 0%nat x eq_refl) as [rs Hrs]. rewrite Nat.add_0_r in Hrs. rewrite Hrs. cbn.
  destruct (IH (S i)) as [rows Hrows].
  { intros j y Hj. rewrite Nat.add_succ_comm. by apply H. }
  rewrite Hrows. by eexists.
Qed.

Lemma descendMap_succeeds desc (m : list (bytes * data)) path depth :
  (∀ e, e ∈ m.*2 → ∀ path depth, ∃ rows, desc path e depth = Ok rows) →
  ∃ rows, descendMap fl desc path m depth = Ok rows.
Proof.
  intros H. unfold descendMap. destruct (queryAtDepth fl depth) as [t mt]. apply collect_succeeds.
  intros j [k e] Hj. destruct (negb _); [by eexists|].
  destruct (H e (list_elem_of_fmap_2 snd _ _ (list_elem_of_lookup_2 _ _ _ Hj)) (path ++ [k]) (S depth)) as [rows ->].
  by eexists.
Qed.

Lemma handleStringLike_succeeds path d depth v :
  stringify d = Ok v → ∃ rows, handleStringLike fl path d depth = Ok rows.
Proof. intros Hd. destruct (handleStringLike_Ok path d depth v Hd) as (b & -> & _). by eexists. Qed.

Lemma descend_text path d s depth desc :
  text d = Some s → descend_data fl desc path d depth = descendMaybePlist fl desc path s depth.
Proof. by destruct d; intros [= ->]. Qed.

Lemma descend_succeeds n d : supported n d → ∀ path depth, ∃ rows, descend fl (S n) path d depth = Ok rows.
Proof.
  induction 1 as [n|n d s Ht Ho|n d s inner Ht Ho _ IH|n d v Ht Hv|n d Hc _ IH]; intros path depth.
  - by eexists.
  - cbn [descend]. rewrite (descend_text _ _ _ _ _ Ht). unfold descendMaybePlist, opened in *.
    destruct (expandNestedPlist fl); cbn [negb andb] in *; [|by eapply handleStringLike_succeeds].
    destruct (isPlist s); cbn [negb andb] in *; [|by eapply handleStringLike_succeeds].
    destruct (plistUnmarshal s); [done|by eapply handleStringLike_succeeds].
  - cbn [descend]. rewrite (descend_text _ _ _ _ _ Ht). unfold descendMaybePlist, opened in *.
    destruct (expandNestedPlist fl); cbn [negb andb] in *; [|done].
    destruct (isPlist s); cbn [negb andb] in *; [|done]. rewrite Ho.
    destruct (IH path depth) as [rows Hrows]. cbn [descend] in Hrows. rewrite Hrows. by eexists.
  - destruct (handleStringLike_succeeds path d depth v Hv) as [rows Hrows].
    destruct d; try done; cbn [descend descend_data]; try (rewrite Hrows); by eexists.
  - cbn [descend]. destruct d; try done; cbn [descend_data children] in *.
    + apply collect_succeeds. intros j e Hj. unfold descendArrayElement.
      destruct (queryAtDepth fl depth) as [t mt]. destruct (elementKey t _ e) as [name|]; [|by eexists].
      destruct (negb _); [by eexists|].
      destruct (IH e (list_elem_of_lookup_2 _ _ _ Hj) (path ++ [name]) (S depth)) as [rows Hrows].
      cbn [descend] in Hrows. rewrite Hrows. by eexists.
    + by apply descendMap_succeeds.
    + apply collect_succeeds. intros j m Hj.
      edestruct (descendMap_succeeds (descend_data fl (descend fl n)) m) as [rows Hrows];
        [|rewrite Hrows; by eexists].
      intros e He. apply IH. apply list_elem_of_fmap in He as (kv & -> & He). apply list_elem_of_fmap_2.
      apply list_elem_of_In, in_concat. exists m. split; apply list_elem_of_In; [by eapply list_elem_of_lookup_2|done].
Qed.
End Meaning.

Section Results.
Context `{L : FlattenLib}.

(** C14: [Flatten] implements the query language: on data that can be flattened it succeeds,
    and its rows are exactly the paths and values that the query selects: the levels picked
    by wildcards, indices, keys and values, array elements named by their own key under a
    [#] term, embedded plists expanded in place. *)
Theorem Flatten_selects fuel n d opts :
  let fl := newFlattener opts in
  prefilter fl = None → supported fl n d → (n < fuel)%nat →
  ∃ rows, Flatten fuel d opts = Ok rows ∧
    ∀ r, r ∈ rows ↔ selects fl (query fl) d (Path r) (Value r).
Proof.
  intros fl Hp Hs Hn. unfold Flatten, applyPrefilter. fold fl. rewrite Hp. cbn [wrap mbind res_bind].
  destruct fuel as [|fuel]; [lia|].
  destruct (descend_succeeds fl fuel d) with (path := @nil bytes) (depth := 0%nat) as [rows Hrows];
    [eapply supported_mono; [done|lia]|].
  exists rows. split; [done|]. intros r. rewrite (descend_answers fl _ _ _ _ _ Hrows r).
  unfold left_at. rewrite drop_0. split; [by intros (p & -> & ?)|by exists (Path r)].
Qed.

(** A query without rewriting terms *)
Definition no_rewrite (q : list bytes) : bool := forallb (λ t, negb (has_prefix queryKeyDenoter t)) q.

Lemma no_rewrite_tail q : no_rewrite q = true → no_rewrite (tail q) = true.
Proof. destruct q; [done|]. by intros [_ ?]%andb_true_iff. Qed.

Lemma selects_weaken fl fl' q d p v :
  expandNestedPlist fl' = expandNestedPlist fl → includeNestedRaw fl' = includeNestedRaw fl →
  includeNils fl' = includeNils fl → no_rewrite q = true →
  selects fl q d p v → selects fl' [] d p v.
Proof.
  intros E1 E2 E3 Hq Hs. assert (Ho : ∀ s, opened fl' s = opened fl s) by (intros s; unfold opened; by rewrite E1).
  induction Hs as [|q d s Ht Hop|q d s inner p v Ht Hop Hs IH|q d s inner Ht Hop Hr| |q l i e name p v Hl H0 Ha Hs IHHs
    |q m k e p v Hin Ha Hs IH|q l i m p v Hl Hs IH].
  - apply sel_nil. by rewrite E3.
  - apply sel_text; [done|by rewrite Ho|done].
  - eapply sel_plist; [done|by rewrite Ho|by apply IH].
  - eapply sel_raw; [done|by rewrite Ho|by rewrite E2|done].
  - by apply sel_scalar.
  - apply sel_array with i e; [done| |done|by apply IHHs, no_rewrite_tail].
    inversion H0 as [? ? ? Hno|t q' after]; subst; [by constructor|].
    cbn [no_rewrite forallb] in Hq. apply andb_true_iff in Hq as [Hq _].
    by rewrite (proj2 (has_prefix_spec _ _)) in Hq by by exists after.
  - eapply sel_map; [done..|]. by apply IH, no_rewrite_tail.
  - eapply sel_maps; [done|]. by apply IH, no_rewrite_tail.
Qed.

(** A query without [#] terms only filters: each of its rows is, path and value unchanged,
    a row of the same data flattened without a query. *)
Theorem query_only_filters fuel n d q opts rows :
  let fl := newFlattener opts in
  prefilter fl = None → query fl = [] → supported fl n d → (n < fuel)%nat → no_rewrite q = true →
  Flatten fuel d (opts ++ [WithQuery q]) = Ok rows →
  ∃ all, Flatten fuel d opts = Ok all ∧ ∀ r, r ∈ rows → r ∈ all.
Proof.
  intros fl Hp Hq Hs Hn Hnr. unfold Flatten, applyPrefilter.
  assert (Hfl : newFlattener (opts ++ [WithQuery q]) = apply_opt fl (WithQuery q))
    by (unfold newFlattener; by rewrite foldl_app).
  rewrite Hfl. fold fl. assert (Hpq : prefilter (apply_opt fl (WithQuery q)) = None).
  { cbn [apply_opt]. by destruct (_ || _). }
  rewrite Hp, Hpq. cbn [wrap mbind res_bind]. destruct fuel as [|fuel]; [lia|]. intros Hrows.
  destruct (descend_succeeds fl fuel d) with (path := @nil bytes) (depth := 0%nat) as [all Hall];
    [eapply supported_mono; [done|lia]|].
  exists all. split; [done|]. intros r Hr. apply (descend_answers _ _ _ _ _ _ Hrows) in Hr as (p & Hrp & Hsel).
  apply (descend_answers fl _ _ _ _ _ Hall). exists p. split; [done|].
  unfold left_at in *. rewrite drop_0 in *. rewrite Hq. eapply selects_weaken; [..|exact Hsel];
    cbn [apply_opt]; destruct (_ || _); try done. by rewrite Hq.
Qed.

Lemma collect_cons_Ok {A} (f : nat → A → res (list row)) i x l rows :
  collect f i (x :: l) = Ok rows ↔ ∃ a b, f i x = Ok a ∧ collect f (S i) l = Ok b ∧ rows = a ++ b.
Proof.
  cbn [collect]. destruct (f i x) as [a| | |]; cbn; try (split; [done|by intros (? & ? & ? & ?)]).
  destruct (collect f (S i) l) as [b| | |]; cbn; try (split; [done|by intros (? & ? & ? & ? & ?)]).
  split; [intros [= <-]; by exists a, b|by intros (? & ? & [= <-] & [= <-] & ->)].
Qed.

Lemma collect_ext {A B} (f : nat → B → res (list row)) (g : nat → A → res (list row)) (h : A → B) l rows :
  (∀ i x rs, f i (h x) = Ok rs ↔ g i x = Ok rs) → collect f 0 (map h l) = Ok rows ↔ collect g 0 l = Ok rows.
Proof.
  intros H. generalize 0%nat. intros i. revert i rows.
  induction l as [|x l IH]; intros i rows; [done|]. cbn [map]. rewrite !collect_cons_Ok.
  setoid_rewrite H. by setoid_rewrite IH.
Qed.

(** Flattening objects one by one as they are decoded gives what flattening the whole
    array gives. *)
Theorem FlattenEach_Flatten fuel l opts rows :
  prefilter (newFlattener opts) = None →
  FlattenEach (S fuel) (map (λ obj, (obj, None)) l) opts = Ok rows ↔ Flatten (S fuel) (DArray l) opts = Ok rows.
Proof.
  intros Hp. unfold FlattenEach, Flatten, applyPrefilter. set (fl := newFlattener opts) in *.
  rewrite Hp. cbn [wrap mbind res_bind descend descend_data]. apply collect_ext. intros i e rs.
  unfold flatten_object, applyPrefilter. cbn [fst snd]. rewrite Hp. cbn [wrap mbind res_bind].
  by rewrite !wrap_Ok.
Qed.
Lemma collect_nothing {A} (f : nat → A → res (list row)) l : ∀ i,
  (∀ i x, x ∈ l → f i x = Ok []) → collect f i l = Ok [].
Proof.
  induction l as [|x l IH]; intros i H; [done|]. cbn [collect]. rewrite H by left. cbn.
  rewrite IH; [done|]. intros j y Hy. apply H. by right.
Qed.

(** The term [#0] does not pick the element at index 0, as the documentation of
    queryMatchArrayElement says: for an array without maps, [#i] yields no row for any i. *)
Theorem hash_index_matches_nothing fuel i l :
  Forall (λ e, ∀ m, e ≠ DMap m) l →
  Flatten (S fuel) (DArray l) [WithQuery [queryKeyDenoter ++ itoa i]] = Ok [].
Proof.
  intros Hl. unfold Flatten, applyPrefilter, newFlattener. cbn [foldl apply_opt].
  rewrite !bool_decide_false by done. cbn [orb prefilter wrap mbind res_bind descend descend_data].
  apply collect_nothing. intros j e He. rewrite Forall_forall in Hl. specialize (Hl e He).
  unfold descendArrayElement, queryAtDepth. cbn [query]. change ([?x] !! 0%nat) with (Some x).
  unfold elementKey, cut_prefix. rewrite (proj2 (has_prefix_spec _ _)) by by eexists.
  destruct e; try done. by destruct (Hl m).
Qed.

(** A path is its parent, the separator and its key. *)
Lemma ParentKey_StringPath r sep :
  (2 <= length (Path r))%nat → let '(parent, key) := ParentKey r sep in StringPath r sep = parent ++ sep ++ key.
Proof.
  unfold ParentKey, StringPath. destruct (Path r) as [|x [|y l]]; cbn [length]; [lia..|]. intros _.
  revert x y. induction l as [|z l IH]; intros x y; [done|].
  change (join sep (x :: y :: z :: l)) with (x ++ sep ++ join sep (y :: z :: l)). rewrite IH.
  change (removelast (x :: y :: z :: l)) with (x :: removelast (y :: z :: l)).
  change (List.last (x :: y :: z :: l) []) with (List.last (y :: z :: l) []).
  destruct (removelast (y :: z :: l)) eqn:E; [destruct l; done|]. cbn [join]. by rewrite <- !app_assoc.
Qed.
End Results.

(** ** Witnesses *)
#[local] Instance toyLib : FlattenLib := {|
  FormatFloat _ _ := [];
  plistUnmarshal s := if bool_decide (s = bs "bplist0") then Some (DMap [(bs "in", DInt 7)]) else None
|}.

(** The data of the source's documentation, with an embedded plist *)
Definition toyUser (name id : string) : data := DMap [(bs "name", DString (bs name)); (bs "id", DString (bs id))].
Arguments toyUser name%_string id%_string.
Definition toyData : data :=
  DMap [(bs "users", DArray [toyUser "Alex" "1"; toyUser "Bo" "2"; toyUser "Al" "3"]); (bs "p", DBytes (bs "bplist0"))].

Lemma toyUser_supported fl n name id :
  opened fl (bs name) = None → opened fl (bs id) = None → supported fl n (toyUser name id).
Proof.
  intros H1 H2. apply sup_container; [done|].
  intros e [->|[->|[]%elem_of_nil]%elem_of_cons]%elem_of_cons; by eapply sup_text.
Qed.

Lemma toyData_supported q : supported (newFlattener [WithNestedPlist; WithQuery q]) 1 toyData.
Proof.
  assert (Ho : ∀ s, opened (newFlattener [WithNestedPlist; WithQuery q]) s = if isPlist s then plistUnmarshal s else None).
  { intros s. unfold opened, newFlattener. cbn [foldl apply_opt]. by destruct (_ || _). }
  apply sup_container; [done|]. intros e [->|[->|[]%elem_of_nil]%elem_of_cons]%elem_of_cons.
  - apply sup_container; [done|].
    intros e [->|[->|[->|[]%elem_of_nil]%elem_of_cons]%elem_of_cons]%elem_of_cons;
      apply toyUser_supported; rewrite Ho; reflexivity.
  - eapply sup_plist; [done|rewrite Ho; reflexivity|]. apply sup_container; [done|].
    intros e [->|[]%elem_of_nil]%elem_of_cons. by eapply sup_scalar.
Qed.

(** The users whose name starts with "Al", called by their id *)
Definition toyQuery : list bytes := [bs "users"; bs "#id"; bs "*"].
Definition toyFilter : list bytes := [bs "users"; bs "name=>Al*"].

Example toyQuery_rows : Flatten 2 toyData [WithNestedPlist; WithQuery toyQuery] =
  Ok [Row [bs "users"; bs "1"; bs "name"] (bs "Alex"); Row [bs "users"; bs "1"; bs "id"] (bs "1");
      Row [bs "users"; bs "2"; bs "name"] (bs "Bo"); Row [bs "users"; bs "2"; bs "id"] (bs "2");
      Row [bs "users"; bs "3"; bs "name"] (bs "Al"); Row [bs "users"; bs "3"; bs "id"] (bs "3")].
Proof. vm_compute. reflexivity. Qed.

Example toyFilter_rows : Flatten 2 toyData [WithQuery toyFilter] =
  Ok [Row [bs "users"; bs "0"; bs "name"] (bs "Alex"); Row [bs "users"; bs "0"; bs "id"] (bs "1");
      Row [bs "users"; bs "2"; bs "name"] (bs "Al"); Row [bs "users"; bs "2"; bs "id"] (bs "3")].
Proof. vm_compute. reflexivity. Qed.

Lemma Flatten_selects_witness :
  selects (newFlattener [WithNestedPlist; WithQuery toyQuery]) toyQuery toyData
    [bs "users"; bs "3"; bs "name"] (bs "Al").
Proof.
  destruct (Flatten_selects 2 1 toyData [WithNestedPlist; WithQuery toyQuery] eq_refl (toyData_supported toyQuery)
    ltac:(lia)) as (rows & E & H).
  rewrite toyQuery_rows in E. injection E as <-.
  apply (H (Row [bs "users"; bs "3"; bs "name"] (bs "Al"))). do 4 right. left.
Defined.

Lemma query_only_filters_witness :
  ∃ all, Flatten 2 toyData [WithNestedPlist; WithQuery []] = Ok all ∧
    ∀ r, r ∈ [Row [bs "users"; bs "0"; bs "name"] (bs "Alex"); Row [bs "users"; bs "0"; bs "id"] (bs "1");
      Row [bs "users"; bs "2"; bs "name"] (bs "Al"); Row [bs "users"; bs "2"; bs "id"] (bs "3")] → r ∈ all.
Proof.
  apply (query_only_filters 2 1 toyData toyFilter [WithNestedPlist; WithQuery []] _ eq_refl eq_refl
    (toyData_supported []) ltac:(lia) eq_refl). vm_compute. reflexivity.
Defined.

Lemma FlattenEach_Flatten_witness :
  Flatten 1 (DArray [toyUser "Alex" "1"; toyUser "Bo" "2"]) [WithQuery [bs "#id"]] =
    Ok [Row [bs "1"; bs "name"] (bs "Alex"); Row [bs "1"; bs "id"] (bs "1");
        Row [bs "2"; bs "name"] (bs "Bo"); Row [bs "2"; bs "id"] (bs "2")].
Proof.
  apply (FlattenEach_Flatten 0 [toyUser "Alex" "1"; toyUser "Bo" "2"] [WithQuery [bs "#id"]]); [reflexivity|].
  vm_compute. reflexivity.
Defined.

Lemma hash_index_matches_nothing_witness :
  Flatten 1 (DArray [DInt 5; DInt 6]) [WithQuery [bs "#0"]] = Ok [] ∧
  Flatten 1 (DArray [DInt 5; DInt 6]) [WithQuery [bs "0"]] = Ok [Row [bs "0"] (bs "5")].
Proof.
  split; [|vm_compute; reflexivity].
  apply (hash_index_matches_nothing 0 0 [DInt 5; DInt 6]). repeat constructor; done.
Defined.
End Flatten.
