(* ===== verification/Jsonc.v ===== *)
(** * ee/dataflatten: JSON with comments

    [jsoncToJson] strips comments and trailing commas in one pass.  It finds trailing commas
    by looking back in its output; the specification [tidy] looks ahead in the pieces of the
    document instead. *)
From S2P Require Import Prelude.
Set Warnings "-clear-no-such-hyp".

Module Jsonc.

Definition quote : byte := x22.
Definition backslash : byte := x5c.
Definition slash : byte := x2f.
Definition star : byte := x2a.
Definition comma : byte := x2c.
Definition space : byte := x20.

Definition is_newline (b : byte) : bool := (b =b x0a) || (b =b x0d).
Definition is_space (b : byte) : bool := (b =b space) || (b =b x0d) || (b =b x0a) || (b =b x09).
Definition is_closer (b : byte) : bool := (b =b x5d) || (b =b x7d).

(** The output buffer [out[:currentOutputIndex]] is kept last byte first. *)

(** The number of backslashes at the end of the output *)
Fixpoint backslashCount (out : bytes) : nat :=
  match out with
  | b :: out' => if b =b backslash then S (backslashCount out') else O
  | [] => O
  end.

(** Whether we are in a string after the byte [b] *)
Definition toggle (b : byte) (out : bytes) (insideString : bool) : bool :=
  if b =b quote then
    match out with
    | [] => negb insideString
    | c :: _ =>
        if negb (c =b backslash) then negb insideString
        else if Nat.even (backslashCount out) then negb insideString
        else insideString
    end
  else insideString.

(** Read to the end of the line: the line break and the input after it; [None] at the end *)
Fixpoint skip_line (input : bytes) : option (byte * bytes) :=
  match input with
  | [] => None
  | b :: input' => if is_newline b then Some (b, input') else skip_line input'
  end.

(** Read to the end of the comment: the byte after it and the input after that *)
Fixpoint skip_block (input : bytes) : res (option (byte * bytes)) :=
  match input with
  | [] => Err (Wrapf "reading and discarding multi-line comment: %w" EOF)
  | b :: input' =>
      if negb (b =b star) then skip_block input'
      else
        match input' with
        | [] => Err (Wrapf "reading and discarding multi-line comment after *: %w" EOF)
        | c :: input'' =>
            if c =b slash then Ok (match input'' with [] => None | d :: input3 => Some (d, input3) end)
            else skip_block input''
        end
  end.

(** The byte to emit and the input after it; [None] when a comment ended the input *)
Definition skip_comment (insideString : bool) (currentByte : byte) (input : bytes) : res (option (byte * bytes)) :=
  if negb insideString && (currentByte =b slash) then
    match input with
    | [] => Err (Wrapf "peeking ahead after `/`: %w" EOF)
    | c :: input' =>
        if c =b slash then Ok (skip_line input)
        else if c =b star then skip_block input'
        else Ok (Some (currentByte, input))
    end
  else Ok (Some (currentByte, input)).

(** A comma that is the last byte of the output but white space becomes a space. *)
Fixpoint blank_trailing (out : bytes) : bytes :=
  match out with
  | [] => []
  | b :: out' => if is_space b then b :: blank_trailing out' else if b =b comma then space :: out' else out
  end.

(** [out[currentOutputIndex] = b]: the buffer has [size] bytes *)
Definition put (size : Z) (b : byte) (out : bytes) : res bytes :=
  if len out <? size then Ok (b :: out) else Panic.

Fixpoint jsoncToJson_loop (fuel : nat) (size : Z) (insideString : bool) (input out : bytes) : res bytes :=
  match fuel with
  | O => NoFuel
  | S fuel' =>
      match input with
      | [] => Ok (reverse out)
      | currentByte :: input =>
          let insideString := toggle currentByte out insideString in
          next ← skip_comment insideString currentByte input;
          match next with
          | None => Ok (reverse out)
          | Some (b, input) =>
              let out := if negb insideString && is_closer b then blank_trailing out else out in
              out ← put size b out;
              jsoncToJson_loop fuel' size insideString input out
          end
      end
  end.

(** Every iteration reads a byte. *)
Definition jsoncToJson (rawData : bytes) : res bytes :=
  jsoncToJson_loop (S (length rawData)) (len rawData) false rawData [].

(** ** It returns *)
Lemma length_skip_line input b rest :
  skip_line input = Some (b, rest) → (length rest < length input)%nat.
Proof.
  revert b rest; induction input as [|c input IH]; intros b rest; cbn [skip_line length]; [done|].
  destruct (is_newline c); [intros [= _ <-]; lia|]. intros H%IH. lia.
Qed.

Lemma skip_block_cases input :
  (∃ e, skip_block input = Err e) ∨ skip_block input = Ok None ∨
  ∃ b rest, skip_block input = Ok (Some (b, rest)) ∧ (length rest < length input)%nat.
Proof.
  remember (length input) as n eqn:En. revert input En.
  induction (lt_wf n) as [n _ IH]. intros [|b input] En; cbn [skip_block length] in *; [left; by eexists|].
  assert (H1 : ∀ input', (length input' < n)%nat → (∃ e, skip_block input' = Err e) ∨
    skip_block input' = Ok None ∨ ∃ b rest, skip_block input' = Ok (Some (b, rest)) ∧ (length rest < n)%nat).
  { intros input' Hlt. destruct (IH _ Hlt input' eq_refl) as [?|[?|(b' & rest & ? & ?)]]; [by left|by right; left|].
    right; right. exists b', rest. split; [done|lia]. }
  destruct (b =b star); cbn [negb]; [|apply H1; lia].
  destruct input as [|c input]; [left; by eexists|]. cbn [length] in *.
  destruct (c =b slash); [|apply H1; lia].
  right. destruct input as [|d input]; [by left|right]. exists d, input. split; [done|]. cbn [length] in *. lia.
Qed.

Lemma skip_comment_cases inside b input :
  (∃ e, skip_comment inside b input = Err e) ∨ skip_comment inside b input = Ok None ∨
  ∃ c rest, skip_comment inside b input = Ok (Some (c, rest)) ∧ (length rest <= length input)%nat.
Proof.
  unfold skip_comment. destruct (_ && _); [|right; right; by exists b, input].
  destruct input as [|c input]; [left; by eexists|].
  destruct (c =b slash).
  - right. destruct (skip_line (c :: input)) as [[d rest]|] eqn:E; [|by left]. right. exists d, rest.
    split; [done|]. apply length_skip_line in E. lia.
  - destruct (c =b star); [|right; right; by exists b, (c :: input)].
    destruct (skip_block_cases input) as [?|[?|(d & rest & ? & ?)]]; [by left|by right; left|].
    right; right. exists d, rest. split; [done|]. cbn [length]. lia.
Qed.

Lemma length_blank_trailing out : length (blank_trailing out) = length out.
Proof.
  induction out as [|b out IH]; [done|]. cbn [blank_trailing].
  destruct (is_space b); cbn [length]; [by rewrite IH|]. by destruct (b =b comma).
Qed.

Lemma jsoncToJson_loop_returns fuel : ∀ size inside input out,
  (length input < fuel)%nat → len input + len out <= size →
  match jsoncToJson_loop fuel size inside input out with
  | Ok o => len o <= size
  | Err _ => True
  | _ => False
  end.
Proof.
  induction fuel as [|fuel IH]; intros size inside input out Hf Hs; [lia|].
  cbn [jsoncToJson_loop]. destruct input as [|b input]; [unfold len in *; rewrite length_reverse; lia|].
  set (inside' := toggle b out inside).
  destruct (skip_comment_cases inside' b input) as [[e ->]|[->|(c & rest & -> & Hl)]]; cbn [mbind res_bind];
    [done|unfold len in *; rewrite length_reverse; lia|].
  set (out' := if negb inside' && is_closer c then blank_trailing out else out).
  assert (Hout : length out' = length out) by (unfold out'; destruct (_ && _); [apply length_blank_trailing|done]).
  unfold put. unfold len in *. cbn [length] in *. rewrite Hout. case_if; [|lia]. cbn [mbind res_bind].
  apply IH; cbn [length]; lia.
Qed.

(** Every input is answered: the scan ends, never writes past its buffer, which has the
    size of the input, and gives an output no longer than the input, or an error. *)
Theorem jsoncToJson_returns rawData :
  match jsoncToJson rawData with
  | Ok out => len out <= len rawData
  | Err _ => True
  | _ => False
  end.
Proof. apply jsoncToJson_loop_returns; [lia|]. rewrite len_nil. lia. Qed.

(** ** What it does

    The pieces of a document: a byte outside strings and comments, a string, or a comment *)
Inductive piece : Type :=
| PChar (b : byte)
| PString (body : list (bool * byte))   (* bytes; those marked come after a backslash *)
| PLine (text : bytes) (newline : byte)
| PBlock (text : bytes).

Definition print_body (body : list (bool * byte)) : bytes :=
  flat_map (λ x : bool * byte, if x.1 then [backslash; x.2] else [x.2]) body.
Definition print_string (body : list (bool * byte)) : bytes := quote :: print_body body ++ [quote].

Definition print_piece (p : piece) : bytes :=
  match p with
  | PChar b => [b]
  | PString body => print_string body
  | PLine text nl => slash :: slash :: text ++ [nl]
  | PBlock text => slash :: star :: text ++ [star; slash]
  end.
Definition print (ps : list piece) : bytes := flat_map print_piece ps.

(** The next significant byte closes an array or object. *)
Fixpoint closes (ps : list piece) : bool :=
  match ps with
  | PChar b :: ps' => if is_space b then closes ps' else is_closer b
  | (PLine _ _ | PBlock _) :: ps' => closes ps'
  | _ => false
  end.

(** The document without its comments, but for the line breaks that end them, and with a
    space for every comma before a closing bracket *)
Fixpoint tidy (ps : list piece) : bytes :=
  match ps with
  | [] => []
  | PChar b :: ps' => (if (b =b comma) && closes ps' then space else b) :: tidy ps'
  | PString body :: ps' => print_string body ++ tidy ps'
  | PLine _ nl :: ps' => nl :: tidy ps'
  | PBlock _ :: ps' => tidy ps'
  end.

(** A comment in a block is followed by a plain byte or the end, and has no asterisk. *)
Definition wf_piece (p : piece) (rest : list piece) : bool :=
  match p with
  | PChar b => negb (b =b quote) && negb (b =b slash) && negb (b =b backslash)
  | PString body =>
      forallb (λ x : bool * byte, x.1 || (negb (x.2 =b quote) && negb (x.2 =b backslash))) body
  | PLine text nl => forallb (λ b, negb (is_newline b)) text && is_newline nl
  | PBlock text =>
      forallb (λ b, negb (b =b star)) text && match rest with [] | PChar _ :: _ => true | _ => false end
  end.
Fixpoint wf (ps : list piece) : bool :=
  match ps with [] => true | p :: ps' => wf_piece p ps' && wf ps' end.

(** One iteration on a byte that starts no comment *)
Lemma loop_byte fuel size inside inside' b input out :
  toggle b out inside = inside' → negb inside' && (b =b slash) = false → len out < size →
  jsoncToJson_loop (S fuel) size inside (b :: input) out =
    jsoncToJson_loop fuel size inside' input
      (b :: (if negb inside' && is_closer b then blank_trailing out else out)).
Proof.
  intros Ht Hc Hs. cbn [jsoncToJson_loop]. rewrite Ht. unfold skip_comment. rewrite Hc. cbn [mbind res_bind].
  unfold put. assert (Hl : len (if negb inside' && is_closer b then blank_trailing out else out) = len out).
  { destruct (negb inside' && is_closer b); [unfold len; by rewrite length_blank_trailing|done]. }
  rewrite Hl. by rewrite (proj2 (Z.ltb_lt _ _) Hs).
Qed.

Lemma toggle_other b out inside : (b =b quote) = false → toggle b out inside = inside.
Proof. unfold toggle. by intros ->. Qed.

Lemma toggle_quote out inside :
  Nat.even (backslashCount out) = true → toggle quote out inside = negb inside.
Proof.
  unfold toggle. rewrite eqb_refl. destruct out as [|c out]; [done|]. intros ->. by destruct (negb _).
Qed.

Lemma toggle_escaped out inside :
  Nat.even (backslashCount out) = true → toggle quote (backslash :: out) inside = inside.
Proof.
  intros He. unfold toggle. rewrite !eqb_refl. cbn [negb backslashCount]. rewrite eqb_refl.
  rewrite Nat.even_succ, <- Nat.negb_even, He. done.
Qed.

(** The end of the buffer does not hide a quote. *)
Definition unescaped (out : bytes) : Prop := Nat.even (backslashCount out) = true.

Lemma unescaped_cons b out : (b =b backslash) = false → unescaped (b :: out).
Proof. unfold unescaped. cbn [backslashCount]. by intros ->. Qed.

(** The body of a string is copied. *)
Lemma loop_body body : ∀ fuel size rest out,
  wf_piece (PString body) [] = true → unescaped out →
  (length (print_body body) <= fuel)%nat → len (print_body body) + len out <= size →
  jsoncToJson_loop fuel size true (print_body body ++ rest) out =
    jsoncToJson_loop (fuel - length (print_body body)) size true rest (reverse (print_body body) ++ out) ∧
  unescaped (reverse (print_body body) ++ out).
Proof.
  induction body as [|[esc b] body IH]; intros fuel size rest out Hw Ho Hf Hs.
  { by rewrite Nat.sub_0_r. }
  cbn [wf_piece forallb fst snd] in Hw. apply andb_true_iff in Hw as [Hb Hw].
  change (print_body ((esc, b) :: body)) with ((if esc then [backslash; b] else [b]) ++ print_body body) in *.
  pose proof (len_nonneg (print_body body)) as Hnn.
  rewrite length_app, len_app in *. destruct esc; cbn [length app] in *; rewrite ?len_cons, ?len_nil in Hs.
  - destruct fuel as [|[|fuel]]; [lia..|].
    rewrite (loop_byte _ _ _ true) by (done || lia). cbn [negb andb].
    assert (Ht : toggle b (backslash :: out) true = true).
    { destruct (b =b quote) eqn:E; [apply eqb_eq in E as ->; by apply toggle_escaped|by apply toggle_other]. }
    rewrite (loop_byte _ _ _ true) by (done || (rewrite len_cons; lia)). cbn [negb andb].
    assert (Hu : unescaped (b :: backslash :: out)).
    { destruct (b =b backslash) eqn:E; [|by apply unescaped_cons].
      apply eqb_eq in E as ->. exact Ho. }
    destruct (IH fuel size rest (b :: backslash :: out) Hw Hu ltac:(lia) ltac:(rewrite !len_cons; lia)) as [-> Hu'].
    rewrite !reverse_cons, <- !app_assoc. cbn [app].
    split; [|done]. f_equal.
  - cbn [orb] in Hb. apply andb_true_iff in Hb as [Hq%negb_true_iff Hk%negb_true_iff].
    destruct fuel as [|fuel]; [lia|].
    rewrite (loop_byte _ _ _ true) by (by apply toggle_other || done || lia). cbn [negb andb].
    destruct (IH fuel size rest (b :: out) Hw ltac:(by apply unescaped_cons) ltac:(lia) ltac:(rewrite len_cons; lia)) as [-> Hu'].
    rewrite reverse_cons, <- app_assoc. cbn [app]. by split.
Qed.

Lemma loop_string body fuel size rest out :
  wf_piece (PString body) [] = true → unescaped out →
  (length (print_string body) <= fuel)%nat → len (print_string body) + len out <= size →
  jsoncToJson_loop fuel size false (print_string body ++ rest) out =
    jsoncToJson_loop (fuel - length (print_string body)) size false rest (reverse (print_string body) ++ out).
Proof.
  intros Hw Ho. unfold print_string. cbn [length app]. rewrite length_app, len_cons, len_app.
  change (length [quote]) with 1%nat. change (len [quote]) with 1. intros Hf Hs.
  pose proof (len_nonneg (print_body body)) as Hnn. destruct fuel as [|fuel]; [lia|].
  rewrite (loop_byte _ _ _ true) by (by apply toggle_quote || done || lia). cbn [negb andb].
  rewrite <- app_assoc.
  destruct (loop_body body fuel size ([quote] ++ rest) (quote :: out) Hw) as [-> Hu];
    [by apply unescaped_cons|lia|rewrite len_cons; lia|].
  destruct (fuel - length (print_body body))%nat as [|fuel'] eqn:Ef; [lia|]. cbn [app].
  rewrite (loop_byte _ _ _ false).
  - change (is_closer quote) with false. cbn [negb andb]. rewrite reverse_cons, reverse_app.
    change (reverse [quote]) with [quote]. rewrite <- !app_assoc. cbn [app]. f_equal. lia.
  - by apply (toggle_quote _ true).
  - done.
  - rewrite len_app, len_cons. unfold len in *. rewrite length_reverse. lia.
Qed.

(** Comments are skipped. *)
Lemma skip_line_text text nl rest :
  forallb (λ b, negb (is_newline b)) text = true → is_newline nl = true →
  skip_line (text ++ nl :: rest) = Some (nl, rest).
Proof.
  intros Ht Hn. induction text as [|b text IH]; cbn [app skip_line]; [by rewrite Hn|].
  cbn [forallb] in Ht. apply andb_true_iff in Ht as [->%negb_true_iff Ht]. by apply IH.
Qed.

Lemma skip_block_text text rest :
  forallb (λ b, negb (b =b star)) text = true →
  skip_block (text ++ star :: slash :: rest) = Ok (match rest with [] => None | d :: r => Some (d, r) end).
Proof.
  intros Ht. induction text as [|b text IH]; cbn [app skip_block]; [by rewrite !eqb_refl|].
  cbn [forallb] in Ht. apply andb_true_iff in Ht as [-> Ht]. by apply IH.
Qed.

Lemma loop_line text nl fuel size rest out :
  wf_piece (PLine text nl) [] = true → len out < size →
  jsoncToJson_loop (S fuel) size false (print_piece (PLine text nl) ++ rest) out =
    jsoncToJson_loop fuel size false rest (nl :: out).
Proof.
  intros [Ht Hn]%andb_true_iff Hs. cbn [print_piece app jsoncToJson_loop].
  rewrite toggle_other by done. unfold skip_comment. rewrite !eqb_refl. cbn [negb andb].
  cbn [skip_line]. change (is_newline slash) with false. cbn iota.
  rewrite <- app_assoc. cbn [app]. rewrite skip_line_text by done. cbn [mbind res_bind].
  assert (Hc : is_closer nl = false) by (unfold is_newline in Hn; by destruct nl).
  rewrite Hc. cbn [andb]. unfold put. by rewrite (proj2 (Z.ltb_lt _ _) Hs).
Qed.

(** After a comment in a block, the next byte is handled like any other byte. *)
Lemma loop_block text fuel size b rest out :
  forallb (λ b, negb (b =b star)) text = true → wf_piece (PChar b) [] = true → len out < size →
  jsoncToJson_loop (S fuel) size false (print_piece (PBlock text) ++ b :: rest) out =
    jsoncToJson_loop (S fuel) size false (b :: rest) out.
Proof.
  intros Ht Hb Hs. cbn [wf_piece] in Hb. apply andb_true_iff in Hb as [Hb _]. apply andb_true_iff in Hb as [Hq Hsl].
  apply negb_true_iff in Hq, Hsl.
  rewrite (loop_byte _ _ _ false b) by (by apply toggle_other || (by rewrite Hsl) || done).
  cbn [print_piece app jsoncToJson_loop]. rewrite toggle_other by done. unfold skip_comment.
  rewrite !eqb_refl. cbn [negb andb]. change (star =b slash) with false. cbn iota.
  rewrite <- app_assoc. cbn [app]. rewrite skip_block_text by done. cbn [mbind res_bind].
  unfold put. destruct (is_closer b); cbn [andb];
    [unfold len in *; rewrite length_blank_trailing|]; by rewrite (proj2 (Z.ltb_lt _ _) Hs).
Qed.

Lemma blank_trailing_unescaped out : unescaped out → unescaped (blank_trailing out).
Proof.
  destruct out as [|b out]; [done|]. intros Ho. cbn [blank_trailing].
  destruct (is_space b) eqn:Es; [apply unescaped_cons; by destruct b|].
  destruct (b =b comma); [by apply unescaped_cons|done].
Qed.

(** What the scan gives on the pieces [ps] after the output [out] *)
Definition scan (ps : list piece) (out : bytes) : bytes :=
  reverse (if closes ps then blank_trailing out else out) ++ tidy ps.

Lemma scan_char b ps out :
  (b =b comma) = false ∨ closes ps = false →
  scan ps (b :: (if is_closer b then blank_trailing out else out)) = scan (PChar b :: ps) out.
Proof.
  intros H. unfold scan. cbn [tidy closes blank_trailing].
  assert (Ht : (if (b =b comma) && closes ps then space else b) = b) by (by destruct H as [-> | ->]; rewrite ?andb_false_r).
  rewrite Ht. destruct (is_space b) eqn:Es.
  - assert (Hc : is_closer b = false) by (by destruct b). rewrite Hc.
    destruct (closes ps); by rewrite reverse_cons, <- app_assoc.
  - destruct (b =b comma) eqn:Ec.
    + destruct H as [|H]; [done|]. rewrite H. apply eqb_eq in Ec as ->. cbn [is_closer].
      change (is_closer comma) with false. by rewrite reverse_cons, <- app_assoc.
    + destruct (is_closer b), (closes ps); by rewrite reverse_cons, <- app_assoc.
Qed.

Lemma scan_comma ps out : closes ps = true → scan ps (comma :: out) = scan (PChar comma :: ps) out.
Proof.
  intros H. unfold scan. cbn [tidy closes]. rewrite H. cbn [blank_trailing]. rewrite eqb_refl.
  change (is_space comma) with false. change (is_closer comma) with false. cbn [andb].
  by rewrite reverse_cons, <- app_assoc.
Qed.

Lemma scan_string body ps out :
  scan ps (reverse (print_string body) ++ out) = scan (PString body :: ps) out.
Proof.
  unfold scan. cbn [closes tidy].
  assert (E : blank_trailing (reverse (print_string body) ++ out) = reverse (print_string body) ++ out).
  { unfold print_string. by rewrite reverse_cons, reverse_app. }
  rewrite E. assert (E' : ∀ b : bool, (if b then reverse (print_string body) ++ out
    else reverse (print_string body) ++ out) = reverse (print_string body) ++ out) by (by intros []).
  by rewrite E', reverse_app, reverse_involutive, <- app_assoc.
Qed.

Lemma scan_line text nl ps out :
  is_newline nl = true → scan ps (nl :: out) = scan (PLine text nl :: ps) out.
Proof.
  intros Hn. unfold scan. cbn [closes tidy blank_trailing].
  assert (Hs : is_space nl = true) by (by destruct nl). rewrite Hs.
  destruct (closes ps); by rewrite reverse_cons, <- app_assoc.
Qed.

Lemma loop_pieces ps : ∀ fuel size out,
  wf ps = true → unescaped out → (length (print ps) < fuel)%nat → len (print ps) + len out <= size →
  jsoncToJson_loop fuel size false (print ps) out = Ok (scan ps out).
Proof.
  induction ps as [|p ps IH]; intros fuel size out Hw Ho Hf Hs.
  { destruct fuel; [lia|]. cbn. unfold scan. cbn. by rewrite app_nil_r. }
  cbn [wf] in Hw. apply andb_true_iff in Hw as [Hp Hw].
  change (print (p :: ps)) with (print_piece p ++ print ps) in *. rewrite length_app, len_app in *.
  pose proof (len_nonneg (print ps)) as Hnn. pose proof (len_nonneg out) as Hno.
  (* a plain byte *)
  assert (Hchar : ∀ b ps' fuel, wf_piece (PChar b) ps' = true →
    (∀ fuel out, unescaped out → (length (print ps') < fuel)%nat → len (print ps') + len out <= size →
      jsoncToJson_loop fuel size false (print ps') out = Ok (scan ps' out)) →
    (length (print ps') < fuel)%nat → len (print ps') + 1 + len out <= size →
    jsoncToJson_loop (S fuel) size false (b :: print ps') out = Ok (scan (PChar b :: ps') out)).
  { clear -Ho Hno. intros b ps' fuel Hp IH Hf Hs. cbn [wf_piece] in Hp.
    apply andb_true_iff in Hp as [Hp Hk%negb_true_iff]. apply andb_true_iff in Hp as [Hq%negb_true_iff Hsl%negb_true_iff].
    pose proof (len_nonneg (print ps')) as Hnn.
    rewrite (loop_byte _ _ _ false) by (by apply toggle_other || (by rewrite Hsl) || lia). cbn [negb andb].
    assert (Hlen : len (if is_closer b then blank_trailing out else out) = len out).
    { destruct (is_closer b); [unfold len; by rewrite length_blank_trailing|done]. }
    rewrite IH; [|by apply unescaped_cons|done|rewrite len_cons, Hlen; lia]. f_equal.
    destruct (b =b comma) eqn:Ec; [|by apply scan_char; left].
    destruct (closes ps') eqn:Ecl; [|by apply scan_char; right].
    apply eqb_eq in Ec as ->. by apply scan_comma. }
  assert (IH' : ∀ fuel out, unescaped out → (length (print ps) < fuel)%nat → len (print ps) + len out <= size →
      jsoncToJson_loop fuel size false (print ps) out = Ok (scan ps out)) by auto.
  destruct p as [b|body|text nl|text].
  - destruct fuel as [|fuel]; [lia|]. cbn [print_piece app length] in *. change (len [b]) with 1 in Hs.
    apply Hchar; [done..|lia|lia].
  - cbn [print_piece] in *. rewrite loop_string by (done || lia).
    assert (Hls : length (print_string body) = Z.to_nat (len (print_string body))) by (unfold len; lia).
    rewrite IH'; [by rewrite scan_string|..].
    + unfold print_string. rewrite reverse_cons, reverse_app. by apply unescaped_cons.
    + lia.
    + rewrite len_app. unfold len in *. rewrite length_reverse. lia.
  - destruct fuel as [|fuel]; [lia|]. cbn [print_piece length app] in Hf, Hs.
    rewrite !len_cons, len_app, length_app in *. change (len [nl]) with 1 in *.
    pose proof (len_nonneg text). pose proof Hp as [_ Hn]%andb_true_iff.
    rewrite (loop_line text nl) by (done || lia).
    rewrite IH'; [by rewrite (scan_line text)|apply unescaped_cons; by destruct nl|lia|rewrite len_cons; lia].
  - cbn [wf_piece] in Hp. apply andb_true_iff in Hp as [Ht Hnext].
    destruct fuel as [|fuel]; [lia|]. cbn [print_piece length app] in Hf, Hs.
    rewrite !len_cons, len_app, length_app in *. pose proof (len_nonneg text). change (len [star; slash]) with 2 in *.
    assert (Hsc : scan (PBlock text :: ps) out = scan ps out) by done. rewrite Hsc.
    destruct ps as [|[b| | |] ps']; try done.
    + cbn [print flat_map]. rewrite app_nil_r. cbn [print_piece jsoncToJson_loop].
      rewrite toggle_other by done. unfold skip_comment. rewrite !eqb_refl. cbn [negb andb].
      change (star =b slash) with false. cbn iota.
      rewrite (skip_block_text text []) by done. cbn [mbind res_bind]. unfold scan. cbn. by rewrite app_nil_r.
    + change (print (PChar b :: ps')) with (b :: print ps') in *.
      cbn [wf] in Hw. pose proof Hw as [Hb _]%andb_true_iff. rewrite len_cons in *.
      pose proof (len_nonneg (print ps')).
      rewrite loop_block by (done || lia). apply IH'; [done|cbn [length] in *; lia|lia].
Qed.

(** On a document of plain bytes, strings and comments, the output is the document without
    its comments and with a space for each comma before a closing bracket; strings are copied
    whatever they contain. *)
Theorem jsoncToJson_tidy ps : wf ps = true → jsoncToJson (print ps) = Ok (tidy ps).
Proof.
  intros Hw. unfold jsoncToJson. rewrite loop_pieces; [|done..|lia|rewrite len_nil; lia].
  unfold scan. by destruct (closes ps).
Qed.

Lemma skip_block_no_star l : forallb (λ b, negb (b =b star)) l = true → ∃ e, skip_block l = Err e.
Proof.
  induction l as [|b l IH]; intros H; [by eexists|]. cbn [skip_block forallb] in *.
  apply andb_true_iff in H as [-> H]. by apply IH.
Qed.

Lemma skip_block_stars text rest :
  forallb (λ b, negb (b =b star)) text = true → forallb (λ b, negb (b =b star)) rest = true →
  ∃ e, skip_block (text ++ star :: star :: slash :: rest) = Err e.
Proof.
  intros Ht Hr. induction text as [|b text IH]; cbn [app skip_block].
  - rewrite eqb_refl. change (star =b slash) with false. change (slash =b star) with false. cbn [negb].
    by apply skip_block_no_star.
  - cbn [forallb] in Ht. apply andb_true_iff in Ht as [-> Ht]. by apply IH.
Qed.

(** Two kinds of valid comments break the scan.  The byte after a comment in a block is
    copied without a look at it, so a string that starts there is taken for code and its
    slashes for a comment; and a comment that ends in two asterisks is not seen to end. *)
Theorem comments_mishandled :
  jsoncToJson (bs "{/**/" ++ [quote] ++ bs "u" ++ [quote] ++ bs ":" ++ [quote] ++ bs "http://x" ++ [quote] ++ bs "}") =
    Ok (bs "{" ++ [quote] ++ bs "u" ++ [quote] ++ bs ":" ++ [quote] ++ bs "http:") ∧
  (∀ text rest, forallb (λ b, negb (b =b star)) text = true → forallb (λ b, negb (b =b star)) rest = true →
    ∃ e, jsoncToJson (bs "/*" ++ text ++ bs "**/" ++ rest) = Err e).
Proof.
  split; [vm_compute; reflexivity|]. intros text rest Ht Hr.
  change (bs "/*" ++ text ++ bs "**/" ++ rest) with (slash :: star :: text ++ star :: star :: slash :: rest).
  unfold jsoncToJson. cbn [jsoncToJson_loop]. rewrite toggle_other by done. unfold skip_comment.
  rewrite !eqb_refl. cbn [negb andb]. change (star =b slash) with false. cbn iota.
  destruct (skip_block_stars text rest Ht Hr) as [e ->]. by eexists.
Qed.

Lemma jsoncToJson_tidy_witness :
  jsoncToJson (bs "[1, //a" ++ [x0a] ++ bs "/*b*/ " ++ [quote] ++ bs "//" ++ [quote] ++ bs ", ]") =
    Ok (bs "[1, " ++ [x0a] ++ bs " " ++ [quote] ++ bs "//" ++ [quote] ++ bs "  ]").
Proof.
  exact (jsoncToJson_tidy
    [PChar x5b; PChar x31; PChar comma; PChar space; PLine (bs "a") x0a; PBlock (bs "b"); PChar space;
     PString [(false, slash); (false, slash)]; PChar comma; PChar space; PChar x5d] eq_refl).
Defined.

Lemma comments_mishandled_witness : ∃ e, jsoncToJson (bs "/* a **/ 1") = Err e.
Proof. exact (proj2 comments_mishandled (bs " a ") (bs " 1") eq_refl eq_refl). Defined.
End Jsonc.
