(* ===== verification/Decoders.v ===== *)
(** * ee/dataflatten: decoders in front of [Flatten]

    Lines of keys and values, raw protobuf messages, ini values and the wrappers that hand
    decoded data to [Flatten]. *)
From S2P Require Import Prelude Json Strings Flatten Jsonc.
Set Warnings "-clear-no-such-hyp".
Import Flatten.

(** ** Keys and values on lines: string_delimited.go *)
Module Delimited.

(** [bufio.Scanner] with [ScanLines]: the lines, without a last one that is empty *)
Fixpoint split_lines (line : bytes) (s : bytes) : list bytes :=
  match s with
  | [] => match line with [] => [] | _ => [reverse line] end
  | b :: s' => if b =b x0a then reverse line :: split_lines [] s' else split_lines (b :: line) s'
  end.

Definition dropCR (line : bytes) : bytes := trim_suffix [x0d] line.

(** bufio.MaxScanTokenSize *)
Definition maxScanTokenSize : Z := 64 * 1024.

(** A line that does not fit the buffer ends the scan. *)
Fixpoint until_too_long (lines : list bytes) : list bytes :=
  match lines with
  | [] => []
  | l :: lines' => if len l <? maxScanTokenSize then dropCR l :: until_too_long lines' else []
  end.

Definition scan_lines (rawdata : bytes) : list bytes := until_too_long (split_lines [] rawdata).

(** The pair on a line, if it has the delimiter (which is not empty) *)
Definition keyValue (kVDelimiter line : bytes) : option (bytes * bytes) :=
  match cut kVDelimiter line with
  | Some (k, v) => Some (TrimSpace k, TrimSpace v)
  | None => None
  end.

Definition pairs (kVDelimiter rawdata : bytes) : list (bytes * bytes) :=
  omap (keyValue kVDelimiter) (scan_lines rawdata).

Definition to_data (kv : bytes * bytes) : bytes * data := (kv.1, DString kv.2).

(** The loop of duplicateKeyFunc: the finished records, and the one being built *)
Definition add_pair (acc : list (list (bytes * data)) * list (bytes * data)) (kv : bytes * bytes) :=
  let '(results, row) := acc in
  match lookup_key kv.1 row with
  | Some _ => (results ++ [row], set_key kv.1 (DString kv.2) [])
  | None => (results, set_key kv.1 (DString kv.2) row)
  end.

Definition records (kvs : list (bytes * bytes)) : list (list (bytes * data)) :=
  let '(results, row) := fold_left add_pair kvs ([], []) in results ++ [row].

Section Delimited.
Context `{L : FlattenLib}.

Definition duplicateKeyFunc (kVDelimiter : bytes) (fuel : nat) (rawdata : bytes) (opts : list FlattenOpts) : res (list row) :=
  Flatten fuel (DArray (map DMap (records (pairs kVDelimiter rawdata)))) opts.

Definition singleRecordFunc (kVDelimiter : bytes) (fuel : nat) (rawdata : bytes) (opts : list FlattenOpts) : res (list row) :=
  Flatten fuel (DArray (map (λ kv, DMap [to_data kv]) (pairs kVDelimiter rawdata))) opts.
End Delimited.

(** [rs] cuts [l] into records: no record has a key twice, and each record after the first
    starts with a key of the one before it. *)
Definition distinct_keys (r : list (bytes * data)) : Prop := NoDup (r.*1).

Definition repeats (r r' : list (bytes * data)) : Prop := ∃ k v t, r' = (k, v) :: t ∧ k ∈ r.*1.

Fixpoint chained (rs : list (list (bytes * data))) : Prop :=
  match rs with
  | r :: (r' :: _) as rest => repeats r r' ∧ chained rest
  | _ => True
  end.

Lemma set_key_new k v m : k ∉ m.*1 → set_key k v m = m ++ [(k, v)].
Proof.
  induction m as [|[k' v'] m IH]; intros H; [done|]. cbn [set_key]. apply not_elem_of_cons in H as [Hne H].
  rewrite bool_decide_false by (by intros ->). by rewrite IH.
Qed.

Lemma lookup_key_None k m : lookup_key k m = None ↔ k ∉ m.*1.
Proof.
  induction m as [|[k' v'] m IH]; cbn [lookup_key]; [split; [by intros _ ?%elem_of_nil|done]|].
  case_bool_decide as E; [subst; split; [done|intros H; exfalso; apply H; left]|].
  rewrite IH, fmap_cons, not_elem_of_cons. cbn. split; [by split|by intros [_ ?]].
Qed.

Lemma chained_app rs r k v :
  chained (rs ++ [r]) → k ∈ r.*1 → chained (rs ++ [r; [(k, v)]]).
Proof.
  intros H Hk. induction rs as [|r0 [|r1 rs] IH]; cbn [app chained] in *.
  - split; [|done]. by exists k, v, [].
  - destruct H as [Hr _]. split; [done|]. by apply IH.
  - destruct H as [Hr H]. split; [done|]. by apply IH.
Qed.

Lemma chained_grow rs r kv : r ≠ [] → chained (rs ++ [r]) → chained (rs ++ [r ++ [kv]]).
Proof.
  intros Hr H. induction rs as [|r0 [|r1 rs] IH]; cbn [app chained] in *; [done| |].
  - destruct H as [(k & v & t & -> & Hk) _]. split; [|done]. by exists k, v, (t ++ [kv]).
  - destruct H as [H1 H]. split; [done|]. by apply IH.
Qed.

(** The lines are grouped into records without losing or reordering a pair: the records
    one after the other are the pairs in order, no record has a key twice, and a new record
    starts exactly when a key would repeat. *)
Theorem records_group kvs :
  concat (records kvs) = map to_data kvs ∧ Forall distinct_keys (records kvs) ∧ chained (records kvs).
Proof.
  unfold records.
  assert (H : ∀ kvs results row,
    Forall distinct_keys (results ++ [row]) → chained (results ++ [row]) → (row = [] → results = []) →
    let '(results', row') := fold_left add_pair kvs (results, row) in
    concat (results' ++ [row']) = concat (results ++ [row]) ++ map to_data kvs ∧
    Forall distinct_keys (results' ++ [row']) ∧ chained (results' ++ [row'])).
  { clear. induction kvs as [|[k v] kvs IH]; intros results row Hd Hc He; cbn [fold_left map];
      [by rewrite app_nil_r|].
    unfold add_pair at 2. cbn [fst snd]. destruct (lookup_key k row) as [d|] eqn:El.
    - assert (Hk : k ∈ row.*1) by (destruct (decide (k ∈ row.*1)) as [|Hn]; [done|];
        apply lookup_key_None in Hn; congruence).
      specialize (IH (results ++ [row]) [(k, DString v)]). cbn [set_key].
      destruct (fold_left add_pair kvs _) as [results' row'].
      destruct IH as (E & Hd' & Hc').
      + apply Forall_app. split; [done|]. repeat constructor. by intros ?%elem_of_nil.
      + rewrite <- app_assoc. by apply chained_app.
      + done.
      + split; [|done]. rewrite E, (concat_app (results ++ [row])). cbn. by rewrite <- app_assoc.
    - apply lookup_key_None in El. rewrite (set_key_new k (DString v) row El).
      specialize (IH results (row ++ [(k, DString v)])).
      destruct (fold_left add_pair kvs _) as [results' row'].
      destruct IH as (E & Hd' & Hc').
      + apply Forall_app in Hd as [Hd1 Hd2]. apply Forall_app. split; [done|]. constructor; [|constructor].
        inversion Hd2 as [|? ? Hrow _]; subst. unfold distinct_keys in *. rewrite fmap_app. apply NoDup_app.
        split_and!; [done| |apply NoDup_singleton]. intros x Hx ->%list_elem_of_singleton. done.
      + destruct row as [|kv0 row]; [by rewrite He by done|]. by apply chained_grow.
      + by destruct row.
      + split; [|done]. rewrite E, !concat_app. cbn. by rewrite !app_nil_r, <- !app_assoc. }
  specialize (H kvs [] []). destruct (fold_left add_pair kvs ([], [])) as [results row].
  destruct H as (E & Hd & Hc); [repeat constructor|done|done|]. by split.
Qed.

Example records_example : records (pairs (bs ":") (bs "a: 1
b:2
x
a:3
")) = [[(bs "a", DString (bs "1")); (bs "b", DString (bs "2"))]; [(bs "a", DString (bs "3"))]].
Proof. vm_compute. reflexivity. Qed.

(** A line of 64 KiB hides itself and everything after it: the error of the scanner is not
    looked at. *)
Lemma long_line_hides_rest long rest :
  (∀ b, b ∈ long → (b =b x0a) = false) → maxScanTokenSize <= len long → scan_lines (long ++ [x0a] ++ rest) = [].
Proof.
  intros Hl Hlen. unfold scan_lines.
  assert (H : ∀ line, split_lines line (long ++ [x0a] ++ rest) = (reverse line ++ long) :: split_lines [] rest).
  { clear Hlen. induction long as [|b long IH]; intros line; cbn [app split_lines].
    - by rewrite eqb_refl, app_nil_r.
    - rewrite (Hl b) by left. rewrite IH by (intros c Hc; apply Hl; by right).
      by rewrite reverse_cons, <- app_assoc. }
  rewrite H. cbn [until_too_long app]. change (reverse [] ++ long) with long. case_if; [lia|done].
Qed.
End Delimited.

(** ** Raw protobuf messages: protobuf.go *)
Module Protobuf.

Inductive wireType : Type := VarintType | Fixed64Type | BytesType | StartGroupType | EndGroupType | Fixed32Type | OtherType.

(** The functions of protowire: what they read, and the number of bytes, negative on errors *)
Class Protowire := {
  ConsumeTag : bytes → Z * wireType * Z;
  ConsumeVarint : bytes → Z * Z;
  ConsumeFixed64 : bytes → Z * Z;
  ConsumeFixed32 : bytes → Z * Z;
  ConsumeBytes : bytes → bytes * Z;
  ConsumeGroup : Z → bytes → bytes * Z
}.

(** They do not read beyond their input, a tag has a byte at least, and what is inside a
    length-delimited field or a group is shorter than what was read. *)
Class ProtowireLaws `{Protowire} := {
  tag_length d : (ConsumeTag d).2 < 0 ∨ 0 < (ConsumeTag d).2 <= len d;
  varint_length d : (ConsumeVarint d).2 <= len d;
  fixed64_length d : (ConsumeFixed64 d).2 <= len d;
  fixed32_length d : (ConsumeFixed32 d).2 <= len d;
  bytes_length d : (ConsumeBytes d).2 <= len d ∧ len (ConsumeBytes d).1 <= len d;
  group_length n d : (ConsumeGroup n d).2 <= len d ∧ len (ConsumeGroup n d).1 <= len d
}.

(** protowire.MaxValidNumber *)
Definition MaxValidNumber : Z := 2 ^ 29 - 1.

(** [pbBytesLooksLikeString] *)
Definition pbBytesLooksLikeString (s : bytes) : bool :=
  valid_utf8 s &&
  forallb (λ b, negb ((byte_Z b <? 0x20) && negb (b =b x09) && negb (b =b x0a) && negb (b =b x0d))) s.

(** [fields[key] = append(fields[key], val)] *)
Fixpoint append_field (key : bytes) (val : data) (fields : list (bytes * list data)) : list (bytes * list data) :=
  match fields with
  | [] => [(key, [val])]
  | (k, vals) :: fields' =>
      if bool_decide (k = key) then (k, vals ++ [val]) :: fields' else (k, vals) :: append_field key val fields'
  end.

(** The values of a field: alone, or as a slice when there are several *)
Definition field_value (vals : list data) : data :=
  match vals with [v] => v | _ => DArray vals end.

Definition field_map (fields : list (bytes * list data)) : list (bytes * data) :=
  map (λ kv : bytes * list data, (kv.1, field_value kv.2)) fields.

Section Decoding.
Context `{P : Protowire}.

(** [data[n:]] after a call that reports [n] bytes, or the error when it is negative *)
Definition advance (msg : string) (n : Z) (d : bytes) : res bytes :=
  if n <? 0 then Err (Errorf msg) else slice_from d n.
Arguments advance msg%_string n d.

(** The value of a field of the given type, and the data after it; [decodeRaw] and
    [decodeBytes] decode what is nested. *)
Definition field (decodeRaw : bytes → res (list (bytes * data))) (decodeBytes : bytes → res data)
    (num : Z) (wtype : wireType) (d : bytes) : res (data * bytes) :=
  match wtype with
  | VarintType =>
      let '(v, n) := ConsumeVarint d in
      d ← advance "invalid varint for field %s" n d; Ok (DUint v, d)
  | Fixed64Type =>
      let '(v, n) := ConsumeFixed64 d in
      d ← advance "invalid fixed64 for field %s" n d; Ok (DUint v, d)
  | Fixed32Type =>
      let '(v, n) := ConsumeFixed32 d in
      d ← advance "invalid fixed32 for field %s" n d; Ok (DUint v, d)
  | BytesType =>
      let '(v, n) := ConsumeBytes d in
      d ← advance "invalid length-delimited field %s" n d;
      val ← decodeBytes v; Ok (val, d)
  | StartGroupType =>
      let '(v, n) := ConsumeGroup num d in
      d ← advance "invalid group for field %s" n d;
      nested ← wrap "decoding group field %s: %w" (decodeRaw v); Ok (DMap nested, d)
  | EndGroupType => Err (Errorf "unexpected end group for field %s")
  | OtherType => Err (Errorf "unknown wire type %d for field %s")
  end.

(** [decodeBytesField] *)
Definition decodeBytesField (decodeRaw : bytes → res (list (bytes * data))) (d : bytes) : res data :=
  if is_empty d then Ok (DString [])
  else if pbBytesLooksLikeString d then Ok (DString d)
  else
    let text := if valid_utf8 d then DString d else DString (base64 d) in
    match decodeRaw d with
    | Ok nested => Ok (if is_empty nested then text else DMap nested)
    | Err _ => Ok text
    | Panic => Panic
    | NoFuel => NoFuel
    end.

(** The loop of [decodeRawProtobuf] *)
Fixpoint decodeRaw_loop (fuel : nat) (d : bytes) (fields : list (bytes * list data)) : res (list (bytes * data)) :=
  if is_empty d then Ok (field_map fields)
  else
    match fuel with
    | O => NoFuel
    | S fuel' =>
        let '(num, wtype, tagLen) := ConsumeTag d in
        if tagLen <? 0 then Err (Errorf "invalid protobuf tag")
        else if MaxValidNumber <? num then Err (Errorf "field number %d exceeds maximum valid number")
        else
          d ← slice_from d tagLen;
          let decodeRaw d := decodeRaw_loop fuel' d [] in
          r ← field decodeRaw (decodeBytesField decodeRaw) num wtype d;
          decodeRaw_loop fuel' r.2 (append_field (itoa num) r.1 fields)
    end.

(** Each level of nesting and each field is shorter than the data it is read from. *)
Definition decodeRawProtobuf (d : bytes) : res (list (bytes * data)) := decodeRaw_loop (length d) d [].

Context `{L : FlattenLib}.

(** [Protobuf]; [base64Decode] is what base64.StdEncoding makes of the input *)
Definition Protobuf (base64Decode : bytes → option bytes) (fuel : nat) (rawdata : bytes)
    (opts : list FlattenOpts) : res (list row) :=
  let rawdata := default rawdata (base64Decode rawdata) in
  d ← wrap "decoding protobuf: %w" (decodeRawProtobuf rawdata);
  Flatten fuel (DMap d) opts.

Context `{!ProtowireLaws}.

Lemma returns_advance msg n d : n <= len d → returns (advance msg n d).
Proof.
  intros Hn. unfold advance. case_if; [done|]. by rewrite slice_from_Ok by lia.
Qed.

Lemma length_advance msg n d d' : advance msg n d = Ok d' → (length d' <= length d)%nat.
Proof. unfold advance. case_if; [done|]. apply length_slice_from. Qed.

Lemma returns_decodeBytesField dec d :
  (∀ d', (length d' <= length d)%nat → returns (dec d')) → returns (decodeBytesField dec d).
Proof.
  intros Hdec. unfold decodeBytesField. destruct (is_empty d); [done|]. destruct (pbBytesLooksLikeString d); [done|].
  specialize (Hdec d ltac:(lia)). by destruct (dec d).
Qed.

Lemma field_returns dec num wtype d :
  (∀ d', (length d' <= length d)%nat → returns (dec d')) →
  returns (field dec (decodeBytesField dec) num wtype d) ∧
  (∀ r, field dec (decodeBytesField dec) num wtype d = Ok r → (length r.2 <= length d)%nat).
Proof.
  intros Hdec. unfold field.
  pose proof (varint_length d). pose proof (fixed64_length d). pose proof (fixed32_length d).
  pose proof (bytes_length d). pose proof (group_length num d).
  destruct wtype; try done.
  all: match goal with |- context [let '(v, n) := ?c in _] => destruct c as [v n] end; cbn [fst snd] in *.
  all: match goal with |- context [advance ?m ?n ?x] =>
    pose proof (returns_advance m n x ltac:(lia)) as Hr;
    pose proof (length_advance m n x) as Hl; destruct (advance m n x) as [d'|e| |]; try done;
    specialize (Hl d' eq_refl); cbn [mbind res_bind] end.
  all: try (split; [done|by intros r [= <-]]).
  - pose proof (returns_decodeBytesField dec v) as Hb. unfold len in *.
    destruct (decodeBytesField dec v); cbn; try (split; [done|by intros r [= <-]]).
    all: exfalso; apply Hb; intros d'' ?; apply Hdec; lia.
  - pose proof (Hdec v) as Hv. unfold len in *.
    destruct (dec v); cbn; try (split; [done|by intros r [= <-]]).
    all: exfalso; apply Hv; lia.
Qed.

Lemma decodeRaw_loop_returns fuel : ∀ d fields, (length d <= fuel)%nat → returns (decodeRaw_loop fuel d fields).
Proof.
  induction fuel as [|fuel IH]; intros d fields Hf; cbn [decodeRaw_loop].
  { destruct d; [done|cbn in Hf; lia]. }
  destruct (is_empty d) eqn:Ed; [done|].
  pose proof (tag_length d) as Ht. destruct (ConsumeTag d) as [[num wtype] tagLen]. cbn [snd] in Ht.
  case_if; [done|]. case_if; [done|]. rewrite slice_from_Ok by lia. cbn [mbind res_bind].
  set (d1 := drop _ d). assert (Hd1 : (length d1 < S fuel)%nat).
  { unfold d1. rewrite length_drop. unfold len in *. lia. }
  destruct (field_returns (λ d, decodeRaw_loop fuel d []) num wtype d1) as [Hr Hlen].
  { intros d' Hd'. apply IH. lia. }
  destruct (field _ _ num wtype d1) as [r|e| |]; try done. apply IH. specialize (Hlen r eq_refl). lia.
Qed.

(** Decoding a raw protobuf message ends on every input, nested messages included, with a
    map or an error: no slice panics, and a message cannot make it recurse for ever. *)
Theorem decodeRawProtobuf_returns d : returns (decodeRawProtobuf d).
Proof. by apply decodeRaw_loop_returns. Qed.
End Decoding.

(** ** A witness: fields of one byte, numbered, that hold the rest of the message *)
#[local] Instance toyWire : Protowire := {|
  ConsumeTag d := match d with b :: _ => (byte_Z b, BytesType, 1) | [] => (0, OtherType, -1) end;
  ConsumeVarint d := (0, -1);
  ConsumeFixed64 d := (0, -1);
  ConsumeFixed32 d := (0, -1);
  ConsumeBytes d := (d, len d);
  ConsumeGroup n d := ([], -1)
|}.

#[local] Instance toyWire_laws : ProtowireLaws.
Proof.
  split; intros; pose proof (len_nonneg d) as Hd; cbn -[len];
    try (change (len (@nil byte)) with 0; lia).
  destruct d as [|b d]; [left|right]; cbn -[len]; [lia|]. rewrite len_cons. pose proof (len_nonneg d). lia.
Qed.

Lemma decodeRawProtobuf_returns_witness :
  returns (decodeRawProtobuf [x01; x02; x03; x68]) ∧
  decodeRawProtobuf [x01; x02; x03; x68] = Ok [(bs "1", DMap [(bs "2", DMap [(bs "3", DString (bs "h"))])])].
Proof. split; [apply (decodeRawProtobuf_returns [x01; x02; x03; x68])|vm_compute; reflexivity]. Defined.
End Protobuf.

(** ** The other decoders *)
Module Wrappers.
Section Wrappers.
Context `{L : FlattenLib}.

(** [iniToBool] *)
Definition iniToBool (val : bytes) : option bool :=
  if bool_decide (val ∈ map bs ["t"; "T"; "true"; "TRUE"; "True"; "YES"; "yes"; "Yes"; "y"; "ON"; "on"; "On"]%string)
  then Some true
  else if bool_decide (val ∈ map bs ["f"; "F"; "false"; "FALSE"; "False"; "NO"; "no"; "No"; "n"; "OFF"; "off"; "Off"]%string)
  then Some false
  else None.

(** [flattenIni] on the sections and keys go-ini loads *)
Definition ini_value (val : bytes) : data :=
  match iniToBool val with Some b => DBool b | None => DString val end.

Definition ini_section (keys : list (bytes * bytes)) : list (bytes * data) :=
  fold_left (λ m kv, set_key kv.1 (ini_value kv.2) m) keys [].

Definition flattenIni (fuel : nat) (sections : option (list (bytes * list (bytes * bytes)))) (opts : list FlattenOpts)
    : res (list row) :=
  match sections with
  | None => Err (Errorf "ini")
  | Some l => Flatten fuel (DMap (fold_left (λ m s, set_key s.1 (DMap (ini_section s.2)) m) l [])) opts
  end.

(** [yamlFromReader] on the documents the loader gives: one is flattened as it is *)
Definition yamlFromReader (fuel : nat) (docs : list (res data)) (opts : list FlattenOpts) : res (list row) :=
  docs ← (fix go l := match l with
                      | [] => Ok []
                      | d :: l' => x ← wrap "parsing document: %w" d; xs ← go l'; Ok (x :: xs)
                      end) docs;
  match docs with
  | [d] => Flatten fuel d opts
  | _ => Flatten fuel (DArray docs) opts
  end.

(** [flattenJsonl] on what the JSON decoder gives until the end of the input *)
Definition flattenJsonl (fuel : nat) (objs : list (data * option err)) (opts : list FlattenOpts) : res (list row) :=
  FlattenEach fuel objs opts.

(** [Json]; [parse] is json.Unmarshal *)
Definition Json (parse : bytes → res data) (fuel : nat) (rawdata : bytes) (opts : list FlattenOpts) : res (list row) :=
  d ← wrap "unmarshalling json: %w" (parse rawdata); Flatten fuel d opts.

(** [Jsonc]; [decode] is the stream decoder *)
Definition Jsonc (decode : bytes → list (data * option err)) (fuel : nat) (rawdata : bytes) (opts : list FlattenOpts)
    : res (list row) :=
  rawdata ← wrap "converting jsonc to json: %w" (Jsonc.jsoncToJson rawdata);
  flattenJsonl fuel (decode rawdata) opts.
End Wrappers.
End Wrappers.
