(* ===== verification/Dedup.v ===== *)
(** * pkg/log/dedup: suppressing duplicate log records

    An [Engine] remembers the log records it has seen by a hash of their content.  Inside a
    window a duplicate is suppressed and counted; the count is reported with the first record
    after the window, or by a summary when the entry leaves the cache. *)
From S2P Require Import Prelude Json.
Set Warnings "-clear-no-such-hyp".

Module Dedup.

(** ** Records (log/slog) *)
Inductive value : Type :=
| IntValue (n : Z)
| TimeValue (t : Z)         (* nanoseconds since the epoch *)
| StringValue (s : bytes)
| AnyValue (printed : bytes).

Record attr := Attr { Key : bytes; Value : value }.

#[export] Instance value_eq_dec : EqDecision value.
Proof. solve_decision. Defined.
#[export] Instance attr_eq_dec : EqDecision attr.
Proof. solve_decision. Defined.

Record record := MkRecord { Level : Z; Message : bytes; Attrs : list attr; PC : Z }.

(** Level.String *)
Definition levelString (l : Z) : bytes :=
  let str base v := if v =? 0 then base else base ++ (if 0 <? v then bs "+" else []) ++ itoa v in
  if l <? 0 then str (bs "DEBUG") (l + 4)
  else if l <? 4 then str (bs "INFO") l
  else if l <? 8 then str (bs "WARN") (l - 4)
  else str (bs "ERROR") (l - 8).

(** Library functions that are not modelled: printing times, SHA-256 in hex, and what
    sort.Slice does to more than 12 elements *)
Class DedupLib := {
  timeString : Z → bytes;
  sha256hex : bytes → bytes;
  pdqsort : (nat → nat → list bytes → bool) → list bytes → list bytes
}.

(** ** The engine *)
Record logEntry := LogEntry {
  firstSeen : Z;
  lastSeen : Z;
  count : Z;
  e_level : Z;
  e_message : bytes;
  e_attrs : list attr;
  e_pc : Z;
  e_next : nat            (* the downstream handler *)
}.

#[export] Instance logEntry_eq_dec : EqDecision logEntry.
Proof. solve_decision. Defined.

Record Engine := MkEngine {
  CacheExpiry : Z;
  MaxCacheSize : Z;
  cache : gmap bytes logEntry;
  started : bool;
  duplicateLogWindow : Z
}.

Definition with_cache (d : Engine) (c : gmap bytes logEntry) : Engine :=
  MkEngine (CacheExpiry d) (MaxCacheSize d) c (started d) (duplicateLogWindow d).
Definition with_started (d : Engine) (b : bool) : Engine :=
  MkEngine (CacheExpiry d) (MaxCacheSize d) (cache d) b (duplicateLogWindow d).

Definition minute : Z := 60 * 10 ^ 9.
Definition DefaultCacheExpiry : Z := 5 * minute.
Definition DefaultMaxCacheSize : Z := 2000.
Definition DefaultDuplicateLogWindow : Z := 0.

Definition New (cacheExpiry maxCacheSize window : option Z) : Engine :=
  MkEngine (default DefaultCacheExpiry cacheExpiry) (default DefaultMaxCacheSize maxCacheSize) ∅ false
    (default DefaultDuplicateLogWindow window).

Definition Start (d : Engine) : Engine := with_started d true.
Definition Stop (d : Engine) : Engine := with_started d false.
Definition SetDuplicateLogWindow (window : Z) (d : Engine) : Engine :=
  MkEngine (CacheExpiry d) (MaxCacheSize d) (cache d) (started d) window.

Section Engine.
Context `{L : DedupLib}.

(** ** The content hash *)
Definition excludedHashFields : list bytes :=
  map bs ["ts"; "time"; "caller"; "source"; "original.time"; "original.source"]%string.

Definition printValue (v : value) : bytes :=
  match v with
  | IntValue n => itoa n
  | TimeValue t => timeString t
  | StringValue s | AnyValue s => s
  end.

(** The comparison that hashKeyValuePairs passes to sort.Slice: it looks at positions *)
Definition less (i j : nat) (l : list bytes) : bool :=
  if Nat.even i && Nat.even j then bytes_compare (default [] (l !! i)) (default [] (l !! j)) <? 0
  else (i <? j)%nat.

(** sort.Slice: insertion sort up to 12 elements *)
Definition swap (i j : nat) (l : list bytes) : list bytes :=
  match l !! i, l !! j with Some x, Some y => <[i := y]> (<[j := x]> l) | _, _ => l end.

Fixpoint sift (j : nat) (l : list bytes) : list bytes :=
  match j with
  | O => l
  | S j' => if less j j' l then sift j' (swap j j' l) else l
  end.

Definition insertionSort (l : list bytes) : list bytes := foldl (λ l i, sift i l) l (seq 1 (length l - 1)).

Definition sortSlice (l : list bytes) : list bytes :=
  if (length l <=? 12)%nat then insertionSort l else pdqsort less l.

(** The pairs of keys and printed values, without the excluded keys *)
Fixpoint filterPairs (keyvals : list bytes) : list bytes :=
  match keyvals with
  | k :: v :: l => if bool_decide (k ∈ excludedHashFields) then filterPairs l else k :: v :: filterPairs l
  | _ => []
  end.

(** fmt's %v of a slice *)
Definition hashInput (keyvals : list bytes) : bytes :=
  bs "[" ++ join (bs " ") (sortSlice (filterPairs keyvals)) ++ bs "]".

Definition hashKeyValuePairs (keyvals : list bytes) : bytes := sha256hex (hashInput keyvals).

Definition attrPairs (attrs : list attr) : list bytes :=
  flat_map (λ a, if bool_decide (Key a ∈ excludedHashFields) then [] else [Key a; printValue (Value a)]) attrs.

Definition recordKeyvals (r : record) (handlerAttrs : list attr) : list bytes :=
  [bs "level"; levelString (Level r); bs "msg"; Message r] ++ attrPairs handlerAttrs ++ attrPairs (Attrs r).

Definition hashRecordWithHandlerAttrs (r : record) (handlerAttrs : list attr) : bytes :=
  hashKeyValuePairs (recordKeyvals r handlerAttrs).

(** ** Handling a record *)

(** What the critical section decides: suppress, or pass, with the count, first and last time
    to add *)
Inductive outcome : Type :=
| Suppress
| Pass (meta : option (Z * Z * Z)).

Definition track (now : Z) (r : record) (next : nat) (hash : bytes) (d : Engine) : Engine * outcome :=
  match cache d !! hash with
  | None =>
      (with_cache d (<[hash := LogEntry now now 1 (Level r) (Message r) (Attrs r) (PC r) next]> (cache d)), Pass None)
  | Some e =>
      let set first c :=
        with_cache d (<[hash := LogEntry first now c (e_level e) (e_message e) (e_attrs e) (e_pc e) next]> (cache d)) in
      if duplicateLogWindow d <=? now - firstSeen e then (set now 1, Pass (Some (count e + 1, firstSeen e, now)))
      else (set (firstSeen e) (count e + 1), Suppress)
  end.

(** A record given to a downstream handler *)
Record emission := Emission { em_next : nat; em_record : record }.

Definition add_attrs (r : record) (l : list attr) : record := MkRecord (Level r) (Message r) (Attrs r ++ l) (PC r).

Definition duplicate_attrs (c first last : Z) : list attr :=
  [Attr (bs "duplicate_count") (IntValue c); Attr (bs "first_seen") (TimeValue first);
   Attr (bs "last_seen") (TimeValue last)].

Definition enabled (d : Engine) : bool := started d && negb (duplicateLogWindow d <=? 0).

Definition handleRecord (now : Z) (r : record) (handlerAttrs : list attr) (next : nat) (d : Engine)
    : Engine * option emission :=
  if negb (enabled d) then (d, Some (Emission next r))
  else
    match track now r next (hashRecordWithHandlerAttrs r handlerAttrs) d with
    | (d, Suppress) => (d, None)
    | (d, Pass None) => (d, Some (Emission next r))
    | (d, Pass (Some (c, first, last))) => (d, Some (Emission next (add_attrs r (duplicate_attrs c first last))))
    end.

(** ** Cleanup *)

(** The entry to be summarized, when it has duplicates *)
Definition toEmit (h : bytes) (e : logEntry) : list (bytes * logEntry) := if 1 <? count e then [(h, e)] else [].

(** Delete the entries of a list that are not to be kept *)
Definition drop_entries (keep : logEntry → bool) (entries : list (bytes * logEntry))
    (acc : gmap bytes logEntry * list (bytes * logEntry)) : gmap bytes logEntry * list (bytes * logEntry) :=
  fold_left (λ acc he, if keep he.2 then acc else (delete he.1 acc.1, acc.2 ++ toEmit he.1 he.2)) entries acc.

(** The first loop, over the entries in the order Go ranges over them *)
Definition expire (now : Z) (entries : list (bytes * logEntry)) (d : Engine)
    : gmap bytes logEntry * list (bytes * logEntry) :=
  drop_entries (λ e, now - lastSeen e <=? CacheExpiry d) entries (cache d, []).

(** Oldest first *)
Definition older (x y : bytes * logEntry) : Prop := lastSeen x.2 <= lastSeen y.2.

#[export] Instance older_dec : RelDecision older.
Proof. unfold older. intros x y. apply _. Defined.

(** The second loop *)
Definition evict (items : list (bytes * logEntry)) (acc : gmap bytes logEntry * list (bytes * logEntry))
    : gmap bytes logEntry * list (bytes * logEntry) := drop_entries (λ _, false) items acc.

(** The cache after a cleanup, and the entries to summarize; [visit] and [visit'] are the
    orders of the two loops over the map.  A negative [MaxCacheSize] makes the index run out
    of [items]. *)
Definition sweep (now : Z) (visit visit' : list (bytes * logEntry) → list (bytes * logEntry)) (d : Engine)
    : res (gmap bytes logEntry * list (bytes * logEntry)) :=
  let '(c, emit) := expire now (visit (map_to_list (cache d))) d in
  if MaxCacheSize d <? Z.of_nat (size c) then
    let items := merge_sort older (visit' (map_to_list c)) in
    let removeCount := Z.of_nat (size c) - MaxCacheSize d in
    if len items <? removeCount then Panic
    else Ok (evict (take (Z.to_nat removeCount) items) (c, emit))
  else Ok (c, emit).

Definition summary (e : logEntry) : emission :=
  Emission (e_next e)
    (MkRecord (e_level e) (e_message e)
      (e_attrs e ++ [Attr (bs "duplicate_count") (IntValue (count e)); Attr (bs "original_msg") (StringValue (e_message e));
         Attr (bs "first_seen") (TimeValue (firstSeen e)); Attr (bs "last_seen") (TimeValue (lastSeen e))])
      (e_pc e)).

Definition performCleanup (now : Z) (visit visit' : list (bytes * logEntry) → list (bytes * logEntry)) (d : Engine)
    : res (Engine * list emission) :=
  '(c, emit) ← sweep now visit visit' d;
  Ok (with_cache d c, map (λ he : bytes * logEntry, summary he.2) emit).
End Engine.

(** ** The handler (dedup_handler.go) *)
Record dedupHandler := DedupHandler { h_next : nat; h_attrs : list attr; h_groups : list bytes }.

Section Handler.
Context `{L : DedupLib}.

Definition Handle (now : Z) (r : record) (h : dedupHandler) (d : Engine) : Engine * option emission :=
  handleRecord now r (h_attrs h) (h_next h) d.
End Handler.

(** [next'] is the downstream handler with the attributes or the group *)
Definition WithAttrs (next' : nat) (attrs : list attr) (h : dedupHandler) : dedupHandler :=
  DedupHandler next' (h_attrs h ++ attrs) (h_groups h).

Definition WithGroup (next' : nat) (name : bytes) (h : dedupHandler) : dedupHandler :=
  if bool_decide (name = []) then h else DedupHandler next' (h_attrs h) (h_groups h ++ [name]).

(** ** Runs *)
Inductive event : Type :=
| EHandle (now : Z) (r : record) (handlerAttrs : list attr) (next : nat)
| ECleanup (now : Z) (visit visit' : list (bytes * logEntry) → list (bytes * logEntry))
| EWindow (window : Z)
| EStart
| EStop.

(** What becomes visible of the record with a hash *)
Inductive obs : Type :=
| OPass (now : Z) (c : option Z)     (* passed on, with a count if there were duplicates *)
| OSuppress
| OSummary (c : Z).

Section Runs.
Context `{L : DedupLib}.

Definition step (d : Engine) (ev : event) : res (Engine * list (bytes * obs)) :=
  match ev with
  | EHandle now r ha next =>
      if enabled d then
        let h := hashRecordWithHandlerAttrs r ha in
        match track now r next h d with
        | (d, Suppress) => Ok (d, [(h, OSuppress)])
        | (d, Pass meta) => Ok (d, [(h, OPass now (option_map (λ m : Z * Z * Z, m.1.1) meta))])
        end
      else Ok (d, [])
  | ECleanup now visit visit' =>
      '(c, emit) ← sweep now visit visit' d;
      Ok (with_cache d c, map (λ he : bytes * logEntry, (he.1, OSummary (count he.2))) emit)
  | EWindow w => Ok (SetDuplicateLogWindow w d, [])
  | EStart => Ok (Start d, [])
  | EStop => Ok (Stop d, [])
  end.

Fixpoint run (d : Engine) (evs : list event) : res (Engine * list (bytes * obs)) :=
  match evs with
  | [] => Ok (d, [])
  | ev :: evs' =>
      '(d, tr) ← step d ev;
      '(d, tr') ← run d evs';
      Ok (d, tr ++ tr')
  end.

(** ** Accounting *)

(** The records with hash [h] that were suppressed, and those that were reported *)
Definition suppressed1 (h : bytes) (x : bytes * obs) : Z :=
  if bool_decide (x.1 = h) then match x.2 with OSuppress => 1 | _ => 0 end else 0.
Definition reported1 (h : bytes) (x : bytes * obs) : Z :=
  if bool_decide (x.1 = h) then
    match x.2 with
    | OPass _ (Some c) => c - 2    (* the count has the record before the window and this one *)
    | OSummary c => c - 1          (* and the record that passed *)
    | _ => 0
    end
  else 0.

Definition sum (f : bytes * obs → Z) (tr : list (bytes * obs)) : Z := foldr (λ x n, f x + n) 0 tr.
Definition suppressed (h : bytes) (tr : list (bytes * obs)) : Z := sum (suppressed1 h) tr.
Definition reported (h : bytes) (tr : list (bytes * obs)) : Z := sum (reported1 h) tr.

(** Those that are waiting in the cache *)
Definition pending (h : bytes) (c : gmap bytes logEntry) : Z :=
  match c !! h with Some e => count e - 1 | None => 0 end.

Definition wf (c : gmap bytes logEntry) : Prop := map_Forall (λ _ e, 1 <= count e) c.

Definition observed (emit : list (bytes * logEntry)) : list (bytes * obs) :=
  map (λ he : bytes * logEntry, (he.1, OSummary (count he.2))) emit.

Lemma sum_app f l1 l2 : sum f (l1 ++ l2) = sum f l1 + sum f l2.
Proof. unfold sum. induction l1 as [|x l1 IH]; cbn [foldr app]; [done|]. rewrite IH. lia. Qed.

Lemma toEmit_reported h h' e :
  1 <= count e → reported h (observed (toEmit h' e)) = if bool_decide (h' = h) then count e - 1 else 0.
Proof.
  intros He. unfold toEmit. case_if; cbn; unfold reported1; cbn; case_bool_decide; lia.
Qed.

Lemma pending_delete h h' c : pending h (delete h' c) = if bool_decide (h' = h) then 0 else pending h c.
Proof.
  unfold pending. case_bool_decide; [subst; by rewrite lookup_delete_eq|by rewrite lookup_delete_ne].
Qed.

(** [drop_entries] on entries of the cache *)
Lemma drop_entries_spec keep items : ∀ c emit,
  NoDup (items.*1) → (∀ h e, (h, e) ∈ items → c !! h = Some e) → wf c →
  let '(c', emit') := drop_entries keep items (c, emit) in
  (∀ h, reported h (observed emit') + pending h c' = reported h (observed emit) + pending h c) ∧
  (∀ h e, c' !! h = Some e ↔ c !! h = Some e ∧ ((h, e) ∈ items → keep e = true)).
Proof.
  induction items as [|[h0 e0] items IH]; intros c emit Hn Hin Hw.
  { cbn. split; [done|]. intros h e. split; [|by intros [? _]]. intros. split; [done|]. by intros ?%elem_of_nil. }
  apply NoDup_cons in Hn as [Hh0 Hn]. cbn [fst] in Hh0.
  assert (Hne : ∀ h e, (h, e) ∈ items → h ≠ h0).
  { intros h e He ->. apply Hh0. apply (list_elem_of_fmap_2 fst _ (h0, e)). done. }
  unfold drop_entries in *. cbn [fold_left fst snd]. destruct (keep e0) eqn:Ek.
  - specialize (IH c emit Hn (λ h e H, Hin h e (list_elem_of_further _ _ _ H)) Hw).
    destruct (fold_left _ items (c, emit)) as [c' emit']. destruct IH as [Hs Hc]. split; [done|].
    intros h e. rewrite Hc. split; intros [Hh He]; (split; [done|]); intros Hi; [|apply He; by right].
    apply elem_of_cons in Hi as [[= -> ->]|]; [done|by apply He].
  - specialize (IH (delete h0 c) (emit ++ toEmit h0 e0) Hn).
    destruct (fold_left _ items _) as [c' emit']. destruct IH as [Hs Hc].
    + intros h e He. rewrite lookup_delete_ne by (symmetry; by eapply Hne). apply Hin. by right.
    + by apply map_Forall_delete.
    + assert (H0 : c !! h0 = Some e0) by (apply Hin; left). split.
      * intros h. rewrite Hs. unfold observed. rewrite map_app. unfold reported. rewrite sum_app.
        fold (observed (toEmit h0 e0)). fold (reported h (observed (toEmit h0 e0))).
        rewrite (toEmit_reported _ _ _ (Hw _ _ H0)), pending_delete.
        case_bool_decide; [subst; unfold pending; rewrite H0; lia|lia].
      * intros h e. rewrite Hc. destruct (decide (h = h0)) as [->|Hne0].
        -- rewrite lookup_delete_eq. split; [by intros [? _]|]. intros [Hh He]. rewrite H0 in Hh. injection Hh as ->.
           rewrite He in Ek by left. done.
        -- rewrite lookup_delete_ne by done. split; intros [Hh He]; (split; [done|]); intros Hi; [|apply He; by right].
           apply elem_of_cons in Hi as [[= -> ->]|]; [done|by apply He].
Qed.

(** The orders in which Go may range over the map *)
Definition ordering (visit : list (bytes * logEntry) → list (bytes * logEntry)) : Prop := ∀ l, visit l ≡ₚ l.

Lemma visit_entries (visit : list (bytes * logEntry) → list (bytes * logEntry)) (c : gmap bytes logEntry) :
  ordering visit → NoDup ((visit (map_to_list c)).*1) ∧ (∀ h e, (h, e) ∈ visit (map_to_list c) ↔ c !! h = Some e).
Proof.
  unfold ordering. intros Hv. split.
  - rewrite Hv. apply NoDup_fst_map_to_list.
  - intros h e. rewrite (Hv (map_to_list c)). apply elem_of_map_to_list.
Qed.

Lemma drop_entries_size keep items : ∀ c emit,
  NoDup (items.*1) → (∀ h e, (h, e) ∈ items → c !! h = Some e) → Forall (λ he, keep he.2 = false) items →
  (size (drop_entries keep items (c, emit)).1 + length items = size c)%nat.
Proof.
  induction items as [|[h0 e0] items IH]; intros c emit Hn Hin Hk; [cbn; lia|].
  apply NoDup_cons in Hn as [Hh0 Hn]. apply Forall_cons in Hk as [Hk0 Hk]. cbn [fst snd] in *.
  unfold drop_entries in *. cbn [fold_left fst snd length]. rewrite Hk0.
  assert (H0 : c !! h0 = Some e0) by (apply Hin; left).
  specialize (IH (delete h0 c) (emit ++ toEmit h0 e0) Hn).
  rewrite map_size_delete, H0 in IH. assert (size c ≠ 0%nat) by (intros E; apply map_size_empty_inv in E; by subst).
  assert (Hgoal : (size (fold_left (λ acc he, if keep he.2 then acc else (delete he.1 acc.1, acc.2 ++ toEmit he.1 he.2))
    items (delete h0 c, emit ++ toEmit h0 e0)).1 + length items = pred (size c))%nat); [|lia].
  apply IH; [|done]. intros h e He. rewrite lookup_delete_ne; [apply Hin; by right|].
  intros <-. apply Hh0. apply (list_elem_of_fmap_2 fst _ (h0, e)). done.
Qed.

(** The cache and the summaries after a sweep *)
Record swept (now : Z) (d : Engine) (c : gmap bytes logEntry) (emit : list (bytes * logEntry)) : Prop := {
  swept_account h : reported h (observed emit) + pending h c = pending h (cache d);
  swept_size : Z.of_nat (size c) <= MaxCacheSize d;
  swept_kept h e : c !! h = Some e → cache d !! h = Some e ∧ now - lastSeen e <= CacheExpiry d;
  swept_evicted h e :
    cache d !! h = Some e → now - lastSeen e <= CacheExpiry d → c !! h = None →
    Z.of_nat (size c) = MaxCacheSize d ∧ ∀ h' e', c !! h' = Some e' → lastSeen e <= lastSeen e'
}.

Lemma sorted_split (l : list (bytes * logEntry)) n x y :
  StronglySorted older l → x ∈ take n l → y ∈ drop n l → older x y.
Proof.
  intros Hs Hx Hy. rewrite <- (take_drop n l) in Hs. revert Hs Hx.
  induction (take n l) as [|z l' IH]; intros Hs Hx; [by apply elem_of_nil in Hx|].
  cbn [app] in Hs. inversion Hs as [|? ? Hs' Hf]; subst. apply elem_of_cons in Hx as [->|Hx]; [|by apply IH].
  rewrite Forall_forall in Hf. apply Hf. apply elem_of_app. by right.
Qed.

#[local] Instance older_total : Total older.
Proof. intros x y. unfold older. lia. Qed.
#[local] Instance older_trans : Transitive older.
Proof. intros x y z. unfold older. lia. Qed.

Lemma sweep_spec now visit visit' d :
  ordering visit → ordering visit' → wf (cache d) → 0 <= MaxCacheSize d →
  ∃ c emit, sweep now visit visit' d = Ok (c, emit) ∧ swept now d c emit.
Proof.
  intros Hv Hv' Hw Hmax. unfold sweep, expire.
  destruct (visit_entries visit (cache d) Hv) as [Hn Hin].
  pose proof (drop_entries_spec (λ e, now - lastSeen e <=? CacheExpiry d) (visit (map_to_list (cache d))) (cache d) []
    Hn (λ h e, proj1 (Hin h e)) Hw) as H1.
  destruct (drop_entries _ _ (cache d, [])) as [c emit]. destruct H1 as [Ha Hc].
  assert (Hc' : ∀ h e, c !! h = Some e ↔ cache d !! h = Some e ∧ now - lastSeen e <= CacheExpiry d).
  { intros h e. rewrite Hc, Hin. split; intros [Hh He]; (split; [done|]); [apply Z.leb_le; auto|].
    intros _. by apply Z.leb_le. }
  assert (Hacc : ∀ h, reported h (observed emit) + pending h c = pending h (cache d)) by (intros h; by rewrite Ha).
  case_if.
  - destruct (visit_entries visit' c Hv') as [Hn2 Hin2].
    set (items := merge_sort older (visit' (map_to_list c))).
    assert (Hp : items ≡ₚ visit' (map_to_list c)) by apply merge_sort_Permutation.
    assert (Hlen : length items = size c).
    { rewrite Hp. unfold ordering in Hv'. rewrite (Hv' (map_to_list c)). apply length_map_to_list. }
    case_if; [unfold len in *; lia|].
    set (n := Z.to_nat (Z.of_nat (size c) - MaxCacheSize d)). unfold evict.
    assert (Hsub : ∀ x, x ∈ take n items → x ∈ items) by (intros x; apply subseteq_take).
    assert (Hntake : NoDup ((take n items).*1)).
    { rewrite fmap_take. eapply sublist_NoDup; [|apply sublist_take]. by rewrite Hp. }
    assert (Hitake : ∀ h e, (h, e) ∈ take n items → c !! h = Some e).
    { intros h e He. apply Hin2. rewrite <- Hp. by apply Hsub. }
    assert (Hw2 : wf c) by (intros h e He; apply Hc' in He as [He _]; by apply (Hw h e)).
    pose proof (drop_entries_spec (λ _, false) (take n items) c emit Hntake Hitake Hw2) as H2.
    pose proof (drop_entries_size (λ _, false) (take n items) c emit Hntake Hitake) as Hsz.
    destruct (drop_entries _ (take n items) (c, emit)) as [c2 emit2]. destruct H2 as [Ha2 Hc2].
    specialize (Hsz ltac:(apply Forall_true; done)). cbn [fst] in Hsz. rewrite length_take, Hlen in Hsz.
    exists c2, emit2. split; [done|]. split.
    + intros h. by rewrite Ha2, Hacc.
    + lia.
    + intros h e He. apply Hc2 in He as [He _]. by apply Hc'.
    + intros h e He Hex Hno. split; [lia|]. intros h' e' He'. apply Hc2 in He' as [He' Hn'].
      assert (Hce : c !! h = Some e) by (apply Hc'; done).
      assert (Hx : (h, e) ∈ take n items).
      { destruct (decide ((h, e) ∈ take n items)) as [|Hnot]; [done|].
        assert (c2 !! h = Some e) by (by apply Hc2). congruence. }
      assert (Hy : (h', e') ∈ drop n items).
      { assert (Hi : (h', e') ∈ items) by (rewrite Hp; by apply Hin2).
        rewrite <- (take_drop n items) in Hi. apply elem_of_app in Hi as [Hi|]; [by apply Hn' in Hi|done]. }
      apply (sorted_split items n (h, e) (h', e')); [|done|done]. by apply (StronglySorted_merge_sort older).
  - exists c, emit. split; [done|]. split; [done|lia|by intros h e ?%Hc'|].
    intros h e He Hex Hno. assert (c !! h = Some e) by (by apply Hc'). congruence.
Qed.

(** Go may visit the cache in any order. *)
Definition fair (ev : event) : Prop :=
  match ev with ECleanup _ visit visit' => ordering visit ∧ ordering visit' | _ => True end.

Lemma track_spec now r next h d :
  wf (cache d) →
  let '(d', o) := track now r next h d in
  wf (cache d') ∧ MaxCacheSize d' = MaxCacheSize d ∧
  ∀ h', pending h' (cache d') =
    pending h' (cache d) +
      (if bool_decide (h = h') then
         match o with Suppress => 1 | Pass None => 0 | Pass (Some (c, _, _)) => 2 - c end else 0).
Proof.
  intros Hw. unfold track. destruct (cache d !! h) as [e|] eqn:E.
  - assert (He : 1 <= count e) by (by apply (Hw h e)).
    case_if; (split_and!; [apply map_Forall_insert_2; cbn; [lia|done]|done|]); intros h'; unfold pending; cbn [cache with_cache];
      (case_bool_decide as Eh; [subst; rewrite lookup_insert_eq, E; cbn; lia|rewrite lookup_insert_ne by done; lia]).
  - split_and!; [apply map_Forall_insert_2; cbn; [lia|done]|done|]. intros h'. unfold pending. cbn [cache with_cache].
    case_bool_decide as Eh; [subst; rewrite lookup_insert_eq, E; cbn; lia|rewrite lookup_insert_ne by done; lia].
Qed.

Lemma suppressed_observed h emit : suppressed h (observed emit) = 0.
Proof.
  induction emit as [|[h' e] emit IH]; [done|].
  change (suppressed h (observed ((h', e) :: emit))) with (suppressed1 h (h', OSummary (count e)) + suppressed h (observed emit)).
  rewrite IH. unfold suppressed1. by case_bool_decide.
Qed.

Lemma step_account d ev :
  wf (cache d) → 0 <= MaxCacheSize d → fair ev →
  ∃ d' tr, step d ev = Ok (d', tr) ∧ wf (cache d') ∧ MaxCacheSize d' = MaxCacheSize d ∧
    ∀ h, suppressed h tr + pending h (cache d) = reported h tr + pending h (cache d').
Proof.
  intros Hw Hmax Hf. destruct ev as [now r ha next|now visit visit'|w| |]; cbn [step];
    try (by exists (SetDuplicateLogWindow w d), []); try (by eexists _, []).
  - destruct (enabled d); [|by exists d, []].
    set (h := hashRecordWithHandlerAttrs r ha).
    pose proof (track_spec now r next h d Hw) as Ht. destruct (track now r next h d) as [d' o].
    destruct Ht as (Hw' & Hm & Hp). destruct o as [|meta]; (eexists d', _; split; [done|]; split_and!; [done..|]);
      intros h'; specialize (Hp h'); unfold suppressed, reported, suppressed1, reported1, sum; cbn [foldr fst snd];
      case_bool_decide; try lia. destruct meta as [[[c f] l]|]; cbn [option_map fst] in *; lia.
  - destruct Hf as [Hv Hv']. destruct (sweep_spec now visit visit' d Hv Hv' Hw Hmax) as (c & emit & -> & Hs).
    cbn [mbind res_bind]. eexists _, _. split; [done|]. cbn [cache with_cache MaxCacheSize]. split_and!; [|done|].
    + intros h e He. apply (swept_kept _ _ _ _ Hs) in He as [He _]. by apply (Hw h e).
    + intros h. fold (observed emit). rewrite suppressed_observed, (swept_account _ _ _ _ Hs). lia.
Qed.

(** C32: No suppressed record is lost from the counts: whatever the order of records, cleanups
    and changes of the window, for each hash the suppressed records are exactly those that
    were reported, in a duplicate_count or a summary, and those still pending in the cache;
    and no cleanup panics. *)
Theorem suppressed_accounted cacheExpiry maxCacheSize window evs :
  0 <= default DefaultMaxCacheSize maxCacheSize → Forall fair evs →
  ∃ d tr, run (New cacheExpiry maxCacheSize window) evs = Ok (d, tr) ∧
    ∀ h, suppressed h tr = reported h tr + pending h (cache d).
Proof.
  intros Hmax Hf.
  assert (H : ∀ evs d, wf (cache d) → 0 <= MaxCacheSize d → Forall fair evs →
    ∃ d' tr, run d evs = Ok (d', tr) ∧
      ∀ h, suppressed h tr + pending h (cache d) = reported h tr + pending h (cache d')).
  { clear. induction evs as [|ev evs IH]; intros d Hw Hmax Hf; cbn [run]; [by exists d, []|].
    apply Forall_cons in Hf as [Hf1 Hf].
    destruct (step_account d ev Hw Hmax Hf1) as (d1 & tr1 & -> & Hw1 & Hm1 & H1). cbn [mbind res_bind].
    destruct (IH d1 Hw1 ltac:(lia) Hf) as (d2 & tr2 & -> & H2). cbn. exists d2, (tr1 ++ tr2). split; [done|].
    intros h. specialize (H1 h). specialize (H2 h). unfold suppressed, reported in *. rewrite !sum_app. lia. }
  destruct (H evs (New cacheExpiry maxCacheSize window)) as (d & tr & E & Ha); [done..|].
  exists d, tr. split; [done|]. intros h. specialize (Ha h). cbn [cache New] in Ha.
  unfold pending at 1 in Ha. rewrite lookup_empty in Ha. lia.
Qed.

(** A cleanup keeps the cache within its limit and keeps what it can: it succeeds, every
    entry that stays is unchanged and not expired, and an unexpired entry is evicted only if
    the cache is full of entries seen no earlier. *)
Theorem cleanup_keeps_newest now visit visit' d :
  ordering visit → ordering visit' → wf (cache d) → 0 <= MaxCacheSize d →
  ∃ d' out, performCleanup now visit visit' d = Ok (d', out) ∧ Z.of_nat (size (cache d')) <= MaxCacheSize d ∧
    (∀ h e, cache d' !! h = Some e → cache d !! h = Some e ∧ now - lastSeen e <= CacheExpiry d) ∧
    (∀ h e, cache d !! h = Some e → now - lastSeen e <= CacheExpiry d → cache d' !! h = None →
       Z.of_nat (size (cache d')) = MaxCacheSize d ∧
       ∀ h' e', cache d' !! h' = Some e' → lastSeen e <= lastSeen e').
Proof.
  intros Hv Hv' Hw Hmax. unfold performCleanup.
  destruct (sweep_spec now visit visit' d Hv Hv' Hw Hmax) as (c & emit & -> & [Ha Hs Hk He]).
  eexists _, _. split; [done|]. by split_and!.
Qed.

(** ** Spacing *)

(** The passes of the records with hash [h] are at least [w] apart. *)
Fixpoint spaced (w : Z) (h : bytes) (last : option Z) (tr : list (bytes * obs)) : Prop :=
  match tr with
  | [] => True
  | (h', OPass t _) :: tr' =>
      if bool_decide (h' = h) then
        match last with Some l => l + w <= t | None => True end ∧ spaced w h (Some t) tr'
      else spaced w h last tr'
  | _ :: tr' => spaced w h last tr'
  end.

Definition is_handle (ev : event) : bool := match ev with EHandle _ _ _ _ => true | _ => false end.

(** While only records arrive, records with the same content pass at least a window apart. *)
Theorem passes_spaced d evs d' tr h :
  enabled d = true → cache d = ∅ → Forall (λ ev, is_handle ev = true) evs →
  run d evs = Ok (d', tr) → spaced (duplicateLogWindow d) h None tr.
Proof.
  intros Hen Hc Hh.
  assert (H : ∀ evs d d' tr, enabled d = true → Forall (λ ev, is_handle ev = true) evs → run d evs = Ok (d', tr) →
    spaced (duplicateLogWindow d) h (firstSeen <$> cache d !! h) tr).
  { clear. induction evs as [|ev evs IH]; intros d d' tr Hen Hh; [by intros [= _ <-]|].
    apply Forall_cons in Hh as [Hev Hh]. destruct ev as [now r ha next| | | |]; try done. cbn [run step]. rewrite Hen.
    set (h0 := hashRecordWithHandlerAttrs r ha). unfold track.
    assert (Hnext : ∀ c x d' tr, enabled (with_cache d c) = true →
      ('(d1, tr1) ← run (with_cache d c) evs; Ok (d1, [x] ++ tr1)) = Ok (d', tr) →
      ∃ tr1, tr = x :: tr1 ∧ spaced (duplicateLogWindow d) h (firstSeen <$> c !! h) tr1).
    { intros c x d2 tr2 Hen2. destruct (run (with_cache d c) evs) as [[d1 tr1]|e| |] eqn:Er; try done.
      cbn. intros [= _ <-]. exists tr1. split; [done|]. apply (IH _ _ _ Hen2 Hh Er). }
    destruct (cache d !! h0) as [e|] eqn:E; [case_if|]; cbn [mbind res_bind]; intros Hrun;
      apply Hnext in Hrun as (tr1 & -> & Hs); try done; cbn [spaced].
    - case_bool_decide as Eh; [rewrite <- Eh in *; rewrite E; cbn; rewrite lookup_insert_eq in Hs; cbn in Hs; split; [lia|done]|].
      by rewrite lookup_insert_ne in Hs.
    - destruct (decide (h0 = h)) as [<-|Hne]; [rewrite lookup_insert_eq in Hs; by rewrite E|].
      by rewrite lookup_insert_ne in Hs.
    - case_bool_decide as Eh; [rewrite <- Eh in *; rewrite E; cbn; by rewrite lookup_insert_eq in Hs|].
      by rewrite lookup_insert_ne in Hs. }
  intros Hrun. specialize (H evs d d' tr Hen Hh Hrun). by rewrite Hc, lookup_empty in H.
Qed.

(** ** The hash *)
Lemma sift_id j l : sift j l = l.
Proof.
  destruct j as [|j]; [done|]. cbn [sift]. unfold less. rewrite Nat.even_succ, <- Nat.negb_even.
  destruct (Nat.even j); cbn [negb andb]; by rewrite (proj2 (Nat.ltb_ge _ _)) by lia.
Qed.

Lemma insertionSort_id l : insertionSort l = l.
Proof.
  unfold insertionSort. generalize (seq 1 (length l - 1)). intros js.
  induction js as [|j js IH]; [done|]. cbn [foldl]. by rewrite sift_id.
Qed.

(** The hashed text is not canonical.  With up to six pairs nothing is sorted, because the
    comparison looks at the parity of positions that are next to each other; and the text does
    not mark where keys and values end, so records with different attributes can have the same
    hash, whatever the hash function, and be suppressed as duplicates. *)
Theorem content_hash_not_canonical :
  (∀ keyvals, (length (filterPairs keyvals) <= 12)%nat →
    hashInput keyvals = bs "[" ++ join (bs " ") (filterPairs keyvals) ++ bs "]") ∧
  ∃ r1 r2, Attrs r1 ≠ Attrs r2 ∧ hashRecordWithHandlerAttrs r1 [] = hashRecordWithHandlerAttrs r2 [].
Proof.
  assert (H : ∀ keyvals, (length (filterPairs keyvals) <= 12)%nat →
    hashInput keyvals = bs "[" ++ join (bs " ") (filterPairs keyvals) ++ bs "]").
  { intros keyvals Hl. unfold hashInput, sortSlice. rewrite (proj2 (Nat.leb_le _ _) Hl). by rewrite insertionSort_id. }
  split; [done|].
  exists (MkRecord 0 (bs "m") [Attr (bs "a") (StringValue (bs "1 b 2"))] 0),
    (MkRecord 0 (bs "m") [Attr (bs "a") (StringValue (bs "1")); Attr (bs "b") (StringValue (bs "2"))] 0).
  split; [done|reflexivity].
Qed.
End Runs.

(** ** Witnesses *)
#[local] Instance toyLib : DedupLib := {| timeString _ := []; sha256hex s := s; pdqsort _ l := l |}.

Definition toyRecord (msg : string) : record := MkRecord 0 (bs msg) [Attr (bs "ts") (TimeValue 1)] 0.
Arguments toyRecord msg%_string.
Definition toyEvents : list event :=
  [EStart; EHandle 0 (toyRecord "a") [] 0; EHandle 1 (toyRecord "a") [] 0; EHandle 2 (toyRecord "b") [] 0;
   EHandle 12 (toyRecord "a") [] 0; EHandle 13 (toyRecord "a") [] 0; ECleanup 100 id id].

Lemma suppressed_accounted_witness :
  ∃ d tr, run (New (Some 20) None (Some 10)) toyEvents = Ok (d, tr) ∧
    suppressed (hashRecordWithHandlerAttrs (toyRecord "a") []) tr = 2 ∧
    reported (hashRecordWithHandlerAttrs (toyRecord "a") []) tr +
      pending (hashRecordWithHandlerAttrs (toyRecord "a") []) (cache d) = 2.
Proof.
  destruct (suppressed_accounted (Some 20) None (Some 10) toyEvents) as (d & tr & E & H).
  - done.
  - unfold toyEvents. rewrite !Forall_cons. split_and!; try exact I; [split; by intros l|by apply Forall_nil].
  - exists d, tr. split; [done|]. rewrite <- H.
    assert (Htr : tr = match run (New (Some 20) None (Some 10)) toyEvents with Ok (_, tr) => tr | _ => [] end) by (by rewrite E).
    rewrite Htr. split; vm_compute; reflexivity.
Defined.

Lemma cleanup_keeps_newest_witness :
  let d := MkEngine 20 1 (<[bs "x" := LogEntry 0 95 1 0 [] [] 0 0]> (<[bs "y" := LogEntry 0 99 1 0 [] [] 0 0]> ∅)) true 10 in
  ∃ d' out, performCleanup 100 id id d = Ok (d', out) ∧ Z.of_nat (size (cache d')) <= 1.
Proof.
  intros d. destruct (cleanup_keeps_newest 100 id id d) as (d' & out & E & Hs & _).
  - by intros l.
  - by intros l.
  - apply map_Forall_insert_2; [done|]. apply map_Forall_insert_2; [done|]. apply map_Forall_empty.
  - done.
  - by exists d', out.
Defined.

Lemma passes_spaced_witness :
  let d := Start (New None None (Some 10)) in
  let evs := [EHandle 0 (toyRecord "a") [] 0; EHandle 1 (toyRecord "a") [] 0; EHandle 12 (toyRecord "a") [] 0] in
  let h := hashRecordWithHandlerAttrs (toyRecord "a") [] in
  ∃ d' tr, run d evs = Ok (d', tr) ∧ spaced 10 h None tr ∧ map snd tr = [OPass 0 None; OSuppress; OPass 12 (Some 3)].
Proof.
  intros d evs h. destruct (run d evs) as [[d' tr]| | |] eqn:E; [|vm_compute in E; discriminate E..].
  exists d', tr. split; [done|]. split.
  - apply (passes_spaced d evs d' tr h); [done..| |exact E]. repeat constructor.
  - assert (Htr : tr = match run d evs with Ok (_, tr) => tr | _ => [] end) by (by rewrite E).
    rewrite Htr. vm_compute. reflexivity.
Defined.

Lemma content_hash_not_canonical_witness :
  hashInput [bs "z"; bs "1"; bs "a"; bs "2"] = bs "[z 1 a 2]".
Proof. apply (proj1 content_hash_not_canonical). vm_compute. lia. Defined.
End Dedup.
