(* ===== verification/Flags.v ===== *)
(** * ee/agent/flags: the flag controller

    A flag is read from a temporary override, else from the value the control server stored,
    else from the command line or a fixed default, and is then brought within its limits.
    Changes are announced to the observers of the flag. *)
From S2P Require Import Prelude Strings KVStore.
Set Warnings "-clear-no-such-hyp".

Module Flags.

(** ** Keys (keys/keys.go) *)
Module keys.
Definition KolideServerURL : bytes := bs "hostname".
Definition KolideHosted : bytes := bs "kolide_hosted".
Definition LoggingInterval : bytes := bs "logging_interval".
Definition OsquerydPath : bytes := bs "osqueryd_path".
Definition OsqueryHealthcheckStartupDelay : bytes := bs "osquery_healthcheck_startup_delay".
Definition RootDirectory : bytes := bs "root_directory".
Definition RootPEM : bytes := bs "root_pem".
Definition DesktopEnabled : bytes := bs "desktop_enabled_v1".
Definition DesktopUpdateInterval : bytes := bs "desktop_update_interval".
Definition DesktopMenuRefreshInterval : bytes := bs "desktop_menu_refresh_interval".
Definition DesktopGoMaxProcs : bytes := bs "desktop_go_max_procs".
Definition LauncherGoMaxProcs : bytes := bs "launcher_go_max_procs".
Definition DebugServerData : bytes := bs "debug_server_data".
Definition ForceControlSubsystems : bytes := bs "force_control_subsystems".
Definition ControlServerURL : bytes := bs "control_server_url".
Definition ControlRequestInterval : bytes := bs "control_request_interval".
Definition AllowOverlyBroadDt4aAcceleration : bytes := bs "allow_overly_broad_dt4a_acceleration".
Definition DisableControlTLS : bytes := bs "disable_control_tls".
Definition InsecureControlTLS : bytes := bs "insecure_control_tls".
Definition InsecureTLS : bytes := bs "insecure_tls".
Definition InsecureTransportTLS : bytes := bs "insecure_transport".
Definition IAmBreakingEELicense : bytes := bs "i-am-breaking-ee-license".
Definition Debug : bytes := bs "debug".
Definition DebugLogFile : bytes := bs "debug_log_file".
Definition OsqueryVerbose : bytes := bs "osquery_verbose".
Definition DistributedForwardingInterval : bytes := bs "osquery_distributed_forwarding_interval".
Definition WatchdogEnabled : bytes := bs "watchdog_enabled".
Definition WatchdogDelaySec : bytes := bs "watchdog_delay_sec".
Definition WatchdogMemoryLimitMB : bytes := bs "watchdog_memory_limit_mb".
Definition WatchdogUtilizationLimitPercent : bytes := bs "watchdog_utilization_limit_percent".
Definition Autoupdate : bytes := bs "autoupdate".
Definition TufServerURL : bytes := bs "tuf_url".
Definition MirrorServerURL : bytes := bs "mirror_url".
Definition AutoupdateInterval : bytes := bs "autoupdate_interval".
Definition UpdateChannel : bytes := bs "update_channel".
Definition AutoupdateInitialDelay : bytes := bs "autoupdater_initial_delay".
Definition AutoupdateDownloadSplay : bytes := bs "autoupdate_download_splay".
Definition UpdateDirectory : bytes := bs "update_directory".
Definition PinnedLauncherVersion : bytes := bs "pinned_launcher_version".
Definition PinnedOsquerydVersion : bytes := bs "pinned_osqueryd_version".
Definition ExportTraces : bytes := bs "export_traces".
Definition TraceSamplingRate : bytes := bs "trace_sampling_rate".
Definition TraceBatchTimeout : bytes := bs "trace_batch_timeout".
Definition LogIngestServerURL : bytes := bs "log_ingest_url".
Definition LogShippingLevel : bytes := bs "log_shipping_level".
Definition TraceIngestServerURL : bytes := bs "trace_ingest_url".
Definition DisableTraceIngestTLS : bytes := bs "disable_trace_ingest_tls".
Definition InModernStandby : bytes := bs "in_modern_standby".
Definition LocalDevelopmentPath : bytes := bs "localdev_path".
Definition LauncherWatchdogDisabled : bytes := bs "prevent_launcher_watchdog_installation".
Definition SystrayRestartEnabled : bytes := bs "systray_restart_enabled".
Definition CurrentRunningOsqueryVersion : bytes := bs "osquery_version".
Definition TableGenerateTimeout : bytes := bs "table_generate_timeout".
Definition UseCachedDataForScheduledQueries : bytes := bs "use_cached_data_for_scheduled_queries".
Definition CachedQueryResultsTTL : bytes := bs "cached_query_results_ttl".
Definition ResetOnHardwareChangeEnabled : bytes := bs "reset_on_hardware_change_enabled".
Definition PerformanceMonitoringEnabled : bytes := bs "performance_monitoring_enabled".
Definition DuplicateLogWindow : bytes := bs "duplicate_log_window".
Definition OsqueryPublisherURL : bytes := bs "osquery_publisher_url".
Definition OsqueryPublisherPercentEnabled : bytes := bs "osquery_publisher_percent_enabled".

Definition Intersection (a b : list bytes) : list bytes := filter (λ e, e ∈ a) b.
End keys.

Definition second : Z := 10 ^ 9.
Definition minute : Z := 60 * second.
Definition hour : Z := 60 * minute.

(** Library functions that are not modelled: time.ParseDuration, floating-point numbers, and
    semantic versions ([semverLess] is [None] when the first is not a version) *)
Class FlagsLib := {
  ParseDuration : bytes → option Z;
  F : Type;
  Flt : F → F → bool;
  Fzero : F;
  Fone : F;
  ParseFloat : bytes → option F;
  FormatFloat : F → bytes;
  semverLess : bytes → bytes → option bool
}.

(** A number without a unit is no duration, unless it is zero, and floats are printed so that
    they can be read back. *)
Class FlagsLaws `{FlagsLib} := {
  ParseDuration_plain n : - two63 <= n < two63 → ParseDuration (itoa n) = if n =? 0 then Some 0 else None;
  ParseFloat_FormatFloat f : ParseFloat (FormatFloat f) = Some f
}.

Section Controller.
Context {S : Type} `{KV : KVStore S} `{L : FlagsLib}.

(** The command line options the flags fall back on (launcher.Options) *)
Record Options := MkOptions {
  o_KolideServerURL : bytes;
  o_KolideHosted : bool;
  o_EnrollSecret : bytes;
  o_RootDirectory : bytes;
  o_OsquerydPath : bytes;
  o_RootPEM : bytes;
  o_LoggingInterval : Z;
  o_EnableInitialRunner : bool;
  o_ControlServerURL : bytes;
  o_ControlRequestInterval : Z;
  o_DisableControlTLS : bool;
  o_InsecureControlTLS : bool;
  o_InsecureTLS : bool;
  o_InsecureTransport : bool;
  o_IAmBreakingEELicense : bool;
  o_Debug : bool;
  o_DebugLogFile : bytes;
  o_OsqueryVerbose : bool;
  o_WatchdogEnabled : bool;
  o_WatchdogDelaySec : Z;
  o_WatchdogMemoryLimitMB : Z;
  o_WatchdogUtilizationLimitPercent : Z;
  o_Autoupdate : bool;
  o_TufServerURL : bytes;
  o_MirrorServerURL : bytes;
  o_AutoupdateInterval : Z;
  o_UpdateChannel : bytes;
  o_AutoupdateInitialDelay : Z;
  o_UpdateDirectory : bytes;
  o_ExportTraces : bool;
  o_TraceSamplingRate : F;
  o_LogIngestServerURL : bytes;
  o_TraceIngestServerURL : bytes;
  o_DisableTraceIngestTLS : bool;
  o_OsqueryHealthcheckStartupDelay : Z;
  o_LocalDevelopmentPath : bytes;
  o_Identifier : bytes;
  o_AutoupdateDownloadSplay : Z;
  o_OsqueryPublisherURL : bytes;
  o_OsqueryPublisherPercentEnabled : Z
}.

(** An override, and its timer: armed, or fired with the callback still to run *)
Inductive value : Type :=
| VDuration (v : Z)
| VInt (v : Z)
| VBool (v : bool)
| VString (v : bytes)
| VFloat (v : F).

Inductive timer : Type := Armed | Fired.

Record Override := MkOverride { ov_value : value; ov_timer : timer }.

Record controller := Controller {
  cmdLineOpts : Options;
  agentFlagsStore : option S;
  overrides : gmap bytes Override;
  overrideLocked : bool;                 (* overrideMutex is held by a call that never returns *)
  observers : gmap nat (list bytes)
}.

Definition with_store (fc : controller) (s : option S) : controller :=
  Controller (cmdLineOpts fc) s (overrides fc) (overrideLocked fc) (observers fc).
Definition with_overrides (fc : controller) (o : gmap bytes Override) : controller :=
  Controller (cmdLineOpts fc) (agentFlagsStore fc) o (overrideLocked fc) (observers fc).
Definition with_lock (fc : controller) (b : bool) : controller :=
  Controller (cmdLineOpts fc) (agentFlagsStore fc) (overrides fc) b (observers fc).
Definition with_observers (fc : controller) (o : gmap nat (list bytes)) : controller :=
  Controller (cmdLineOpts fc) (agentFlagsStore fc) (overrides fc) (overrideLocked fc) o.

Definition NewFlagController (opts : Options) (s : option S) : controller := Controller opts s ∅ false ∅.

(** ** Observers *)
Definition notification : Type := nat * list bytes.    (* FlagsChanged of an observer *)

Definition RegisterChangeObserver (observer : nat) (flagKeys : list bytes) (fc : controller) : controller :=
  with_observers fc (<[observer := default [] (observers fc !! observer) ++ flagKeys]> (observers fc)).

Definition DeregisterChangeObserver (observer : nat) (fc : controller) : controller :=
  with_observers fc (delete observer (observers fc)).

Definition notifyObservers (flagKeys : list bytes) (fc : controller) : list notification :=
  omap (λ ok : nat * list bytes,
    match keys.Intersection ok.2 flagKeys with [] => None | changed => Some (ok.1, changed) end)
    (map_to_list (observers fc)).

(** ** Stored values *)
Definition getControlServerValue (key : bytes) (fc : controller) : option bytes :=
  match agentFlagsStore fc with
  | None => None
  | Some s => match kv_Get s key with Ok v => v | _ => None end
  end.

Definition setControlServerValue (key value : bytes) (fc : controller)
    : controller * list notification * option err :=
  match agentFlagsStore fc with
  | None => (fc, [], Some (Errorf "agentFlagsStore is nil"))
  | Some s =>
      match kv_Set key value s with
      | (s, Some e) => (with_store fc (Some s), [], Some e)
      | (s, None) => (with_store fc (Some s), notifyObservers [key] fc, None)
      end
  end.

(** [Update]; [update] is the Update of the store, [updatedKeys] the keys in the order of the map *)
Definition Update (update : S → S * (list bytes * option err)) (updatedKeys : list bytes) (fc : controller)
    : res (controller * list notification * (list bytes * option err)) :=
  match agentFlagsStore fc with
  | None => Panic            (* a method of a nil store *)
  | Some s =>
      let '(s, (deletedKeys, e)) := update s in
      let changedKeys := updatedKeys ++ deletedKeys in
      Ok (with_store fc (Some s), notifyObservers changedKeys fc, (changedKeys, e))
  end.

(** ** Flag values (flag_value_*.go) *)
Definition clampValue (v minimum maximum : Z) : Z :=
  if v <? minimum then minimum else if maximum <? v then maximum else v.

Definition parseControlServerValue (defaultVal : Z) (controlServerValue : bytes) : Z :=
  match ParseDuration controlServerValue with
  | Some d => d
  | None => default defaultVal (Atoi controlServerValue)
  end.

Definition durationFlagValue_get (override : option value) (defaultVal minimum maximum : Z)
    (controlServerValue : option bytes) : Z :=
  let v := match controlServerValue with
           | Some b => parseControlServerValue defaultVal b
           | None => defaultVal
           end in
  let v := match override with Some (VDuration d) => d | _ => v end in
  clampValue v minimum maximum.

(** An override that is not an int is ignored, like one of another type of the other flags. *)
Definition intFlagValue_get (override : option value) (defaultVal minimum maximum : Z)
    (controlServerValue : option bytes) : Z :=
  let v := match controlServerValue with Some b => default defaultVal (Atoi b) | None => defaultVal end in
  let v := match override with Some (VInt z) => z | _ => v end in
  clampValue v minimum maximum.

Definition bytesToBool (b : bytes) : bool := bool_decide (b = bs "enabled").
Definition boolToBytes (enabled : bool) : bytes := if enabled then bs "enabled" else [].

Definition boolFlagValue_get (override : option value) (defaultVal : bool) (controlServerValue : option bytes) : bool :=
  let v := match controlServerValue with Some b => bytesToBool b | None => defaultVal end in
  match override with Some (VBool b) => b | _ => v end.

Definition stringFlagValue_get (override : option value) (sanitizer : bytes → bytes) (defaultVal : bytes)
    (controlServerValue : option bytes) : bytes :=
  let v := default defaultVal controlServerValue in
  let v := match override with Some (VString s) => s | _ => v end in
  sanitizer v.

Definition clampFloat64Value (v minimum maximum : F) : F :=
  if Flt v minimum then minimum else if Flt maximum v then maximum else v.

Definition float64FlagValue_get (override : option value) (defaultVal minimum maximum : F)
    (controlServerValue : option bytes) : F :=
  let v := match controlServerValue with Some b => default defaultVal (ParseFloat b) | None => defaultVal end in
  let v := match override with Some (VFloat f) => f | _ => v end in
  clampFloat64Value v minimum maximum.

Definition durationToBytes (d : Z) : bytes := itoa d.
Definition intToBytes (i : Z) : bytes := itoa i.
Definition float64ToBytes (f : F) : bytes := FormatFloat f.

(** ** Overrides *)
Definition overrideValue (key : bytes) (fc : controller) : option value := ov_value <$> overrides fc !! key.

(** [overrideFlag]: [None] when the call never returns.  Start stops the timer; when the timer
    has fired it then receives from the channel of the timer, which is nil for a timer of
    time.AfterFunc, so it blocks with the mutex held. *)
Definition overrideFlag (key : bytes) (v : value) (fc : controller) : controller * option (list notification) :=
  if overrideLocked fc then (fc, None)
  else
    match ov_timer <$> overrides fc !! key with
    | Some Fired => (with_lock fc true, None)
    | Some Armed | None =>
        let fc := with_overrides fc (<[key := MkOverride v Armed]> (overrides fc)) in
        (fc, Some (notifyObservers [key] fc))
    end.

(** The callback of the timer, overrideExpired *)
Definition overrideExpired (key : bytes) (fc : controller) : controller * option (list notification) :=
  if overrideLocked fc then (fc, None)
  else
    let fc := with_overrides fc (delete key (overrides fc)) in
    (fc, Some (notifyObservers [key] fc)).

(** ** Sanitizers *)
Definition SanitizeUpdateChannel (v : bytes) : bytes :=
  if bool_decide (v ∈ map bs ["stable"; "alpha"; "beta"; "nightly"]%string) then v else bs "stable".

Definition SanitizePinnedVersion (binary rawVersion : bytes) : bytes :=
  match semverLess rawVersion (bs "1.6.1") with
  | None => []
  | Some less =>
      if negb (bool_decide (binary = bs "launcher")) then rawVersion
      else if less then [] else rawVersion
  end.

(** [strings.ToLower] on ASCII; no other letter becomes one of a level's letters, but for the
    dotted capital I, which would make the default level *)
Definition toLower (s : bytes) : bytes :=
  map (λ b, if (65 <=? byte_Z b) && (byte_Z b <=? 90) then Z_byte (byte_Z b + 32) else b) s.

Definition sanitizeLogLevel (v : bytes) : bytes :=
  let v := toLower v in
  if bool_decide (v ∈ map bs ["debug"; "warn"; "info"; "error"]%string) then v else bs "info".

Definition DefaultLauncherIdentifier : bytes := bs "kolide-k2".

(** ** The flags (flag_controller.go)

    The getters of the flags that can be overridden take [overrideMutex] for reading (but for
    ExportTraces and TraceSamplingRate), so they too block while [overrideLocked]; what follows
    is what they return when they get it. *)
Definition SetKolideServerURL (v : bytes) : controller → controller * list notification * option err :=
  setControlServerValue keys.KolideServerURL v.

Definition KolideServerURL (fc : controller) : bytes :=
  stringFlagValue_get None id (o_KolideServerURL (cmdLineOpts fc))
    (getControlServerValue keys.KolideServerURL fc).

Definition SetKolideHosted (v : bool) : controller → controller * list notification * option err :=
  setControlServerValue keys.KolideHosted (boolToBytes v).

Definition KolideHosted (fc : controller) : bool :=
  boolFlagValue_get None (o_KolideHosted (cmdLineOpts fc)) (getControlServerValue keys.KolideHosted fc).

Definition EnrollSecret (fc : controller) : bytes :=
  stringFlagValue_get None id (o_EnrollSecret (cmdLineOpts fc)) None.

Definition RootDirectory (fc : controller) : bytes :=
  stringFlagValue_get None id (o_RootDirectory (cmdLineOpts fc)) None.

Definition OsquerydPath (fc : controller) : bytes :=
  stringFlagValue_get None id (o_OsquerydPath (cmdLineOpts fc)) None.

Definition RootPEM (fc : controller) : bytes :=
  stringFlagValue_get None id (o_RootPEM (cmdLineOpts fc)) None.

Definition SetLoggingInterval (v : Z) : controller → controller * list notification * option err :=
  setControlServerValue keys.LoggingInterval (durationToBytes v).

Definition LoggingInterval (fc : controller) : Z :=
  durationFlagValue_get None (o_LoggingInterval (cmdLineOpts fc)) (5 * second) (10 * minute)
    (getControlServerValue keys.LoggingInterval fc).

Definition EnableInitialRunner (fc : controller) : bool :=
  boolFlagValue_get None (o_EnableInitialRunner (cmdLineOpts fc)) None.

Definition SetDesktopEnabled (v : bool) : controller → controller * list notification * option err :=
  setControlServerValue keys.DesktopEnabled (boolToBytes v).

Definition DesktopEnabled (fc : controller) : bool :=
  boolFlagValue_get None false (getControlServerValue keys.DesktopEnabled fc).

Definition SetDesktopUpdateInterval (v : Z) : controller → controller * list notification * option err :=
  setControlServerValue keys.DesktopUpdateInterval (durationToBytes v).

Definition DesktopUpdateInterval (fc : controller) : Z :=
  durationFlagValue_get None (5 * second) (5 * second) (10 * minute)
    (getControlServerValue keys.DesktopUpdateInterval fc).

Definition SetDesktopMenuRefreshInterval (v : Z) : controller → controller * list notification * option err :=
  setControlServerValue keys.DesktopMenuRefreshInterval (durationToBytes v).

Definition DesktopMenuRefreshInterval (fc : controller) : Z :=
  durationFlagValue_get None (15 * minute) (5 * minute) (60 * minute)
    (getControlServerValue keys.DesktopMenuRefreshInterval fc).

Definition SetDesktopGoMaxProcs (v : Z) : controller → controller * list notification * option err :=
  setControlServerValue keys.DesktopGoMaxProcs (intToBytes v).

Definition DesktopGoMaxProcs (fc : controller) : Z :=
  intFlagValue_get None 2 0 16 (getControlServerValue keys.DesktopGoMaxProcs fc).

Definition SetLauncherGoMaxProcs (v : Z) : controller → controller * list notification * option err :=
  setControlServerValue keys.LauncherGoMaxProcs (intToBytes v).

Definition LauncherGoMaxProcs (fc : controller) : Z :=
  intFlagValue_get None 8 0 32 (getControlServerValue keys.LauncherGoMaxProcs fc).

Definition SetDebugServerData (v : bool) : controller → controller * list notification * option err :=
  setControlServerValue keys.DebugServerData (boolToBytes v).

Definition DebugServerData (fc : controller) : bool :=
  boolFlagValue_get None false (getControlServerValue keys.DebugServerData fc).

Definition SetForceControlSubsystems (v : bool) : controller → controller * list notification * option err :=
  setControlServerValue keys.ForceControlSubsystems (boolToBytes v).

Definition ForceControlSubsystems (fc : controller) : bool :=
  boolFlagValue_get None false (getControlServerValue keys.ForceControlSubsystems fc).

Definition SetControlServerURL (v : bytes) : controller → controller * list notification * option err :=
  setControlServerValue keys.ControlServerURL v.

Definition ControlServerURL (fc : controller) : bytes :=
  stringFlagValue_get None id (o_ControlServerURL (cmdLineOpts fc))
    (getControlServerValue keys.ControlServerURL fc).

Definition SetControlRequestInterval (v : Z) : controller → controller * list notification * option err :=
  setControlServerValue keys.ControlRequestInterval (durationToBytes v).

Definition SetControlRequestIntervalOverride (v : Z) : controller → controller * option (list notification) :=
  overrideFlag keys.ControlRequestInterval (VDuration v).

Definition ControlRequestInterval (fc : controller) : Z :=
  durationFlagValue_get (overrideValue keys.ControlRequestInterval fc) (o_ControlRequestInterval (cmdLineOpts fc)) (5 * second) (10 * minute)
    (getControlServerValue keys.ControlRequestInterval fc).

Definition SetAllowOverlyBroadDt4aAcceleration (v : bool) : controller → controller * list notification * option err :=
  setControlServerValue keys.AllowOverlyBroadDt4aAcceleration (boolToBytes v).

Definition AllowOverlyBroadDt4aAcceleration (fc : controller) : bool :=
  boolFlagValue_get None false (getControlServerValue keys.AllowOverlyBroadDt4aAcceleration fc).

Definition SetDisableControlTLS (v : bool) : controller → controller * list notification * option err :=
  setControlServerValue keys.DisableControlTLS (boolToBytes v).

Definition DisableControlTLS (fc : controller) : bool :=
  boolFlagValue_get None (o_DisableControlTLS (cmdLineOpts fc))
    (getControlServerValue keys.DisableControlTLS fc).

Definition SetInsecureControlTLS (v : bool) : controller → controller * list notification * option err :=
  setControlServerValue keys.InsecureControlTLS (boolToBytes v).

Definition InsecureControlTLS (fc : controller) : bool :=
  boolFlagValue_get None (o_InsecureControlTLS (cmdLineOpts fc))
    (getControlServerValue keys.InsecureControlTLS fc).

Definition SetInsecureTLS (v : bool) : controller → controller * list notification * option err :=
  setControlServerValue keys.InsecureTLS (boolToBytes v).

Definition InsecureTLS (fc : controller) : bool :=
  boolFlagValue_get None (o_InsecureTLS (cmdLineOpts fc)) (getControlServerValue keys.InsecureTLS fc).

Definition SetInsecureTransportTLS (v : bool) : controller → controller * list notification * option err :=
  setControlServerValue keys.InsecureTransportTLS (boolToBytes v).

Definition InsecureTransportTLS (fc : controller) : bool :=
  boolFlagValue_get None (o_InsecureTransport (cmdLineOpts fc))
    (getControlServerValue keys.InsecureTransportTLS fc).

Definition IAmBreakingEELicense (fc : controller) : bool :=
  boolFlagValue_get None (o_IAmBreakingEELicense (cmdLineOpts fc))
    (getControlServerValue keys.IAmBreakingEELicense fc).

Definition SetDebug (v : bool) : controller → controller * list notification * option err :=
  setControlServerValue keys.Debug (boolToBytes v).

Definition Debug (fc : controller) : bool :=
  boolFlagValue_get None (o_Debug (cmdLineOpts fc)) (getControlServerValue keys.Debug fc).

Definition DebugLogFile (fc : controller) : bytes :=
  stringFlagValue_get None id (o_DebugLogFile (cmdLineOpts fc)) (getControlServerValue keys.DebugLogFile fc).

Definition SetOsqueryVerbose (v : bool) : controller → controller * list notification * option err :=
  setControlServerValue keys.OsqueryVerbose (boolToBytes v).

Definition OsqueryVerbose (fc : controller) : bool :=
  boolFlagValue_get None (o_OsqueryVerbose (cmdLineOpts fc)) (getControlServerValue keys.OsqueryVerbose fc).

Definition SetDistributedForwardingInterval (v : Z) : controller → controller * list notification * option err :=
  setControlServerValue keys.DistributedForwardingInterval (durationToBytes v).

Definition SetDistributedForwardingIntervalOverride (v : Z) : controller → controller * option (list notification) :=
  overrideFlag keys.DistributedForwardingInterval (VDuration v).

Definition DistributedForwardingInterval (fc : controller) : Z :=
  durationFlagValue_get (overrideValue keys.DistributedForwardingInterval fc) (1 * minute) (5 * second) (5 * minute)
    (getControlServerValue keys.DistributedForwardingInterval fc).

Definition SetWatchdogEnabled (v : bool) : controller → controller * list notification * option err :=
  setControlServerValue keys.WatchdogEnabled (boolToBytes v).

Definition WatchdogEnabled (fc : controller) : bool :=
  boolFlagValue_get None (o_WatchdogEnabled (cmdLineOpts fc)) (getControlServerValue keys.WatchdogEnabled fc).

Definition SetWatchdogDelaySec (v : Z) : controller → controller * list notification * option err :=
  setControlServerValue keys.WatchdogDelaySec (intToBytes v).

Definition WatchdogDelaySec (fc : controller) : Z :=
  intFlagValue_get None (o_WatchdogDelaySec (cmdLineOpts fc)) 0 600
    (getControlServerValue keys.WatchdogDelaySec fc).

Definition SetWatchdogMemoryLimitMB (v : Z) : controller → controller * list notification * option err :=
  setControlServerValue keys.WatchdogMemoryLimitMB (intToBytes v).

Definition WatchdogMemoryLimitMB (fc : controller) : Z :=
  intFlagValue_get None (o_WatchdogMemoryLimitMB (cmdLineOpts fc)) 100 10000
    (getControlServerValue keys.WatchdogMemoryLimitMB fc).

Definition SetWatchdogUtilizationLimitPercent (v : Z) : controller → controller * list notification * option err :=
  setControlServerValue keys.WatchdogUtilizationLimitPercent (intToBytes v).

Definition WatchdogUtilizationLimitPercent (fc : controller) : Z :=
  intFlagValue_get None (o_WatchdogUtilizationLimitPercent (cmdLineOpts fc)) 5 100
    (getControlServerValue keys.WatchdogUtilizationLimitPercent fc).

Definition CurrentRunningOsqueryVersion (fc : controller) : bytes :=
  stringFlagValue_get None id [] (getControlServerValue keys.CurrentRunningOsqueryVersion fc).

Definition SetCurrentRunningOsqueryVersion (v : bytes) : controller → controller * list notification * option err :=
  setControlServerValue keys.CurrentRunningOsqueryVersion v.

Definition SetAutoupdate (v : bool) : controller → controller * list notification * option err :=
  setControlServerValue keys.Autoupdate (boolToBytes v).

Definition Autoupdate (fc : controller) : bool :=
  boolFlagValue_get None (o_Autoupdate (cmdLineOpts fc)) (getControlServerValue keys.Autoupdate fc).

Definition SetTufServerURL (v : bytes) : controller → controller * list notification * option err :=
  setControlServerValue keys.TufServerURL v.

Definition TufServerURL (fc : controller) : bytes :=
  stringFlagValue_get None id (o_TufServerURL (cmdLineOpts fc)) (getControlServerValue keys.TufServerURL fc).

Definition SetMirrorServerURL (v : bytes) : controller → controller * list notification * option err :=
  setControlServerValue keys.MirrorServerURL v.

Definition MirrorServerURL (fc : controller) : bytes :=
  stringFlagValue_get None id (o_MirrorServerURL (cmdLineOpts fc))
    (getControlServerValue keys.MirrorServerURL fc).

Definition SetAutoupdateInterval (v : Z) : controller → controller * list notification * option err :=
  setControlServerValue keys.AutoupdateInterval (durationToBytes v).

Definition SetAutoupdateIntervalOverride (v : Z) : controller → controller * option (list notification) :=
  overrideFlag keys.AutoupdateInterval (VDuration v).

Definition AutoupdateInterval (fc : controller) : Z :=
  durationFlagValue_get (overrideValue keys.AutoupdateInterval fc) (o_AutoupdateInterval (cmdLineOpts fc)) (1 * minute) (24 * hour)
    (getControlServerValue keys.AutoupdateInterval fc).

Definition SetUpdateChannel (v : bytes) : controller → controller * list notification * option err :=
  setControlServerValue keys.UpdateChannel v.

Definition UpdateChannel (fc : controller) : bytes :=
  stringFlagValue_get None SanitizeUpdateChannel (o_UpdateChannel (cmdLineOpts fc))
    (getControlServerValue keys.UpdateChannel fc).

Definition SetAutoupdateInitialDelay (v : Z) : controller → controller * list notification * option err :=
  setControlServerValue keys.AutoupdateInitialDelay (durationToBytes v).

Definition SetAutoupdateInitialDelayOverride (v : Z) : controller → controller * option (list notification) :=
  overrideFlag keys.AutoupdateInitialDelay (VDuration v).

Definition AutoupdateInitialDelay (fc : controller) : Z :=
  durationFlagValue_get (overrideValue keys.AutoupdateInitialDelay fc) (o_AutoupdateInitialDelay (cmdLineOpts fc)) (5 * second) (12 * hour)
    (getControlServerValue keys.AutoupdateInitialDelay fc).

Definition SetUpdateDirectory (v : bytes) : controller → controller * list notification * option err :=
  setControlServerValue keys.UpdateDirectory v.

Definition UpdateDirectory (fc : controller) : bytes :=
  stringFlagValue_get None id (o_UpdateDirectory (cmdLineOpts fc))
    (getControlServerValue keys.UpdateDirectory fc).

Definition SetPinnedLauncherVersion (v : bytes) : controller → controller * list notification * option err :=
  setControlServerValue keys.PinnedLauncherVersion v.

Definition PinnedLauncherVersion (fc : controller) : bytes :=
  stringFlagValue_get (overrideValue keys.PinnedLauncherVersion fc) (SanitizePinnedVersion (bs "launcher")) []
    (getControlServerValue keys.PinnedLauncherVersion fc).

Definition SetPinnedOsquerydVersion (v : bytes) : controller → controller * list notification * option err :=
  setControlServerValue keys.PinnedOsquerydVersion v.

Definition PinnedOsquerydVersion (fc : controller) : bytes :=
  stringFlagValue_get (overrideValue keys.PinnedOsquerydVersion fc) (SanitizePinnedVersion (bs "osqueryd")) []
    (getControlServerValue keys.PinnedOsquerydVersion fc).

Definition SetExportTraces (v : bool) : controller → controller * list notification * option err :=
  setControlServerValue keys.ExportTraces (boolToBytes v).

Definition SetExportTracesOverride (v : bool) : controller → controller * option (list notification) :=
  overrideFlag keys.ExportTraces (VBool v).

Definition ExportTraces (fc : controller) : bool :=
  boolFlagValue_get (overrideValue keys.ExportTraces fc) (o_ExportTraces (cmdLineOpts fc))
    (getControlServerValue keys.ExportTraces fc).

Definition SetLauncherWatchdogDisabled (v : bool) : controller → controller * list notification * option err :=
  setControlServerValue keys.LauncherWatchdogDisabled (boolToBytes v).

Definition LauncherWatchdogDisabled (fc : controller) : bool :=
  boolFlagValue_get None false (getControlServerValue keys.LauncherWatchdogDisabled fc).

Definition SetSystrayRestartEnabled (v : bool) : controller → controller * list notification * option err :=
  setControlServerValue keys.SystrayRestartEnabled (boolToBytes v).

Definition SystrayRestartEnabled (fc : controller) : bool :=
  boolFlagValue_get None false (getControlServerValue keys.SystrayRestartEnabled fc).

Definition SetTraceSamplingRate (v : F) : controller → controller * list notification * option err :=
  setControlServerValue keys.TraceSamplingRate (float64ToBytes v).

Definition SetTraceSamplingRateOverride (v : F) : controller → controller * option (list notification) :=
  overrideFlag keys.TraceSamplingRate (VFloat v).

Definition TraceSamplingRate (fc : controller) : F :=
  float64FlagValue_get (overrideValue keys.TraceSamplingRate fc) (o_TraceSamplingRate (cmdLineOpts fc)) Fzero Fone
    (getControlServerValue keys.TraceSamplingRate fc).

Definition SetTraceBatchTimeout (v : Z) : controller → controller * list notification * option err :=
  setControlServerValue keys.TraceBatchTimeout (durationToBytes v).

Definition TraceBatchTimeout (fc : controller) : Z :=
  durationFlagValue_get None (1 * minute) (5 * second) (1 * hour)
    (getControlServerValue keys.TraceBatchTimeout fc).

Definition SetLogIngestServerURL (v : bytes) : controller → controller * list notification * option err :=
  setControlServerValue keys.LogIngestServerURL v.

Definition LogIngestServerURL (fc : controller) : bytes :=
  stringFlagValue_get None id (o_LogIngestServerURL (cmdLineOpts fc))
    (getControlServerValue keys.LogIngestServerURL fc).

Definition SetLogShippingLevel (v : bytes) : controller → controller * list notification * option err :=
  setControlServerValue keys.LogShippingLevel v.

Definition SetLogShippingLevelOverride (v : bytes) : controller → controller * option (list notification) :=
  overrideFlag keys.LogShippingLevel (VString v).

Definition LogShippingLevel (fc : controller) : bytes :=
  stringFlagValue_get (overrideValue keys.LogShippingLevel fc) sanitizeLogLevel (bs "info")
    (getControlServerValue keys.LogShippingLevel fc).

Definition SetTraceIngestServerURL (v : bytes) : controller → controller * list notification * option err :=
  setControlServerValue keys.TraceIngestServerURL v.

Definition TraceIngestServerURL (fc : controller) : bytes :=
  stringFlagValue_get None id (o_TraceIngestServerURL (cmdLineOpts fc))
    (getControlServerValue keys.TraceIngestServerURL fc).

Definition SetDisableTraceIngestTLS (v : bool) : controller → controller * list notification * option err :=
  setControlServerValue keys.DisableTraceIngestTLS (boolToBytes v).

Definition DisableTraceIngestTLS (fc : controller) : bool :=
  boolFlagValue_get None (o_DisableTraceIngestTLS (cmdLineOpts fc))
    (getControlServerValue keys.DisableTraceIngestTLS fc).

Definition SetInModernStandby (v : bool) : controller → controller * list notification * option err :=
  setControlServerValue keys.InModernStandby (boolToBytes v).

Definition InModernStandby (fc : controller) : bool :=
  boolFlagValue_get None false (getControlServerValue keys.InModernStandby fc).

Definition SetOsqueryHealthcheckStartupDelay (v : Z) : controller → controller * list notification * option err :=
  setControlServerValue keys.OsqueryHealthcheckStartupDelay (durationToBytes v).

Definition OsqueryHealthcheckStartupDelay (fc : controller) : Z :=
  durationFlagValue_get None (o_OsqueryHealthcheckStartupDelay (cmdLineOpts fc)) (0 * second) (1 * hour)
    (getControlServerValue keys.OsqueryHealthcheckStartupDelay fc).

Definition LocalDevelopmentPath (fc : controller) : bytes :=
  stringFlagValue_get None id (o_LocalDevelopmentPath (cmdLineOpts fc)) None.

Definition Identifier (fc : controller) : bytes :=
  let identifier := stringFlagValue_get None id (o_Identifier (cmdLineOpts fc)) None in
  if bool_decide (TrimSpace identifier = []) then DefaultLauncherIdentifier else identifier.

Definition SetTableGenerateTimeout (v : Z) : controller → controller * list notification * option err :=
  setControlServerValue keys.TableGenerateTimeout (durationToBytes v).

Definition TableGenerateTimeout (fc : controller) : Z :=
  durationFlagValue_get None (4 * minute) (30 * second) (10 * minute)
    (getControlServerValue keys.TableGenerateTimeout fc).

Definition SetUseCachedDataForScheduledQueries (v : bool) : controller → controller * list notification * option err :=
  setControlServerValue keys.UseCachedDataForScheduledQueries (boolToBytes v).

Definition UseCachedDataForScheduledQueries (fc : controller) : bool :=
  boolFlagValue_get None false (getControlServerValue keys.UseCachedDataForScheduledQueries fc).

Definition SetCachedQueryResultsTTL (v : Z) : controller → controller * list notification * option err :=
  setControlServerValue keys.CachedQueryResultsTTL (durationToBytes v).

Definition CachedQueryResultsTTL (fc : controller) : Z :=
  durationFlagValue_get None (6 * hour) (90 * minute) (72 * hour)
    (getControlServerValue keys.CachedQueryResultsTTL fc).

Definition SetResetOnHardwareChangeEnabled (v : bool) : controller → controller * list notification * option err :=
  setControlServerValue keys.ResetOnHardwareChangeEnabled (boolToBytes v).

Definition ResetOnHardwareChangeEnabled (fc : controller) : bool :=
  boolFlagValue_get None false (getControlServerValue keys.ResetOnHardwareChangeEnabled fc).

Definition AutoupdateDownloadSplay (fc : controller) : Z :=
  durationFlagValue_get None (o_AutoupdateDownloadSplay (cmdLineOpts fc)) (0 * second) (72 * hour)
    (getControlServerValue keys.AutoupdateDownloadSplay fc).

Definition SetAutoupdateDownloadSplay (v : Z) : controller → controller * list notification * option err :=
  setControlServerValue keys.AutoupdateDownloadSplay (durationToBytes v).

Definition SetPerformanceMonitoringEnabled (v : bool) : controller → controller * list notification * option err :=
  setControlServerValue keys.PerformanceMonitoringEnabled (boolToBytes v).

Definition PerformanceMonitoringEnabled (fc : controller) : bool :=
  boolFlagValue_get None false (getControlServerValue keys.PerformanceMonitoringEnabled fc).

Definition SetDuplicateLogWindow (v : Z) : controller → controller * list notification * option err :=
  setControlServerValue keys.DuplicateLogWindow (durationToBytes v).

Definition DuplicateLogWindow (fc : controller) : Z :=
  durationFlagValue_get None (0 * second) (0 * second) (24 * hour)
    (getControlServerValue keys.DuplicateLogWindow fc).

Definition OsqueryPublisherURL (fc : controller) : bytes :=
  stringFlagValue_get None id (o_OsqueryPublisherURL (cmdLineOpts fc))
    (getControlServerValue keys.OsqueryPublisherURL fc).

Definition SetOsqueryPublisherURL (v : bytes) : controller → controller * list notification * option err :=
  setControlServerValue keys.OsqueryPublisherURL v.

Definition OsqueryPublisherPercentEnabled (fc : controller) : Z :=
  intFlagValue_get None (o_OsqueryPublisherPercentEnabled (cmdLineOpts fc)) 0 100
    (getControlServerValue keys.OsqueryPublisherPercentEnabled fc).

Definition SetOsqueryPublisherPercentEnabled (v : Z) : controller → controller * list notification * option err :=
  setControlServerValue keys.OsqueryPublisherPercentEnabled (intToBytes v).

(** The flags that can be set: key, getter, setter and limits *)
Inductive flag : Type :=
| DurationFlag (key : bytes) (get : controller → Z)
    (set : Z → controller → controller * list notification * option err) (minimum maximum : Z)
| IntFlag (key : bytes) (get : controller → Z)
    (set : Z → controller → controller * list notification * option err) (minimum maximum : Z)
| BoolFlag (key : bytes) (get : controller → bool)
    (set : bool → controller → controller * list notification * option err)
| StringFlag (key : bytes) (get : controller → bytes)
    (set : bytes → controller → controller * list notification * option err) (sanitizer : bytes → bytes)
| FloatFlag (key : bytes) (get : controller → F)
    (set : F → controller → controller * list notification * option err).

Definition flags : list flag :=
  [StringFlag keys.KolideServerURL KolideServerURL SetKolideServerURL id;
   BoolFlag keys.KolideHosted KolideHosted SetKolideHosted;
   DurationFlag keys.LoggingInterval LoggingInterval SetLoggingInterval (5 * second) (10 * minute);
   BoolFlag keys.DesktopEnabled DesktopEnabled SetDesktopEnabled;
   DurationFlag keys.DesktopUpdateInterval DesktopUpdateInterval SetDesktopUpdateInterval (5 * second) (10 * minute);
   DurationFlag keys.DesktopMenuRefreshInterval DesktopMenuRefreshInterval SetDesktopMenuRefreshInterval (5 * minute) (60 * minute);
   IntFlag keys.DesktopGoMaxProcs DesktopGoMaxProcs SetDesktopGoMaxProcs 0 16;
   IntFlag keys.LauncherGoMaxProcs LauncherGoMaxProcs SetLauncherGoMaxProcs 0 32;
   BoolFlag keys.DebugServerData DebugServerData SetDebugServerData;
   BoolFlag keys.ForceControlSubsystems ForceControlSubsystems SetForceControlSubsystems;
   StringFlag keys.ControlServerURL ControlServerURL SetControlServerURL id;
   DurationFlag keys.ControlRequestInterval ControlRequestInterval SetControlRequestInterval (5 * second) (10 * minute);
   BoolFlag keys.AllowOverlyBroadDt4aAcceleration AllowOverlyBroadDt4aAcceleration SetAllowOverlyBroadDt4aAcceleration;
   BoolFlag keys.DisableControlTLS DisableControlTLS SetDisableControlTLS;
   BoolFlag keys.InsecureControlTLS InsecureControlTLS SetInsecureControlTLS;
   BoolFlag keys.InsecureTLS InsecureTLS SetInsecureTLS;
   BoolFlag keys.InsecureTransportTLS InsecureTransportTLS SetInsecureTransportTLS;
   BoolFlag keys.Debug Debug SetDebug;
   BoolFlag keys.OsqueryVerbose OsqueryVerbose SetOsqueryVerbose;
   DurationFlag keys.DistributedForwardingInterval DistributedForwardingInterval SetDistributedForwardingInterval (5 * second) (5 * minute);
   BoolFlag keys.WatchdogEnabled WatchdogEnabled SetWatchdogEnabled;
   IntFlag keys.WatchdogDelaySec WatchdogDelaySec SetWatchdogDelaySec 0 600;
   IntFlag keys.WatchdogMemoryLimitMB WatchdogMemoryLimitMB SetWatchdogMemoryLimitMB 100 10000;
   IntFlag keys.WatchdogUtilizationLimitPercent WatchdogUtilizationLimitPercent SetWatchdogUtilizationLimitPercent 5 100;
   StringFlag keys.CurrentRunningOsqueryVersion CurrentRunningOsqueryVersion SetCurrentRunningOsqueryVersion id;
   BoolFlag keys.Autoupdate Autoupdate SetAutoupdate;
   StringFlag keys.TufServerURL TufServerURL SetTufServerURL id;
   StringFlag keys.MirrorServerURL MirrorServerURL SetMirrorServerURL id;
   DurationFlag keys.AutoupdateInterval AutoupdateInterval SetAutoupdateInterval (1 * minute) (24 * hour);
   StringFlag keys.UpdateChannel UpdateChannel SetUpdateChannel SanitizeUpdateChannel;
   DurationFlag keys.AutoupdateInitialDelay AutoupdateInitialDelay SetAutoupdateInitialDelay (5 * second) (12 * hour);
   StringFlag keys.UpdateDirectory UpdateDirectory SetUpdateDirectory id;
   StringFlag keys.PinnedLauncherVersion PinnedLauncherVersion SetPinnedLauncherVersion (SanitizePinnedVersion (bs "launcher"));
   StringFlag keys.PinnedOsquerydVersion PinnedOsquerydVersion SetPinnedOsquerydVersion (SanitizePinnedVersion (bs "osqueryd"));
   BoolFlag keys.ExportTraces ExportTraces SetExportTraces;
   BoolFlag keys.LauncherWatchdogDisabled LauncherWatchdogDisabled SetLauncherWatchdogDisabled;
   BoolFlag keys.SystrayRestartEnabled SystrayRestartEnabled SetSystrayRestartEnabled;
   FloatFlag keys.TraceSamplingRate TraceSamplingRate SetTraceSamplingRate;
   DurationFlag keys.TraceBatchTimeout TraceBatchTimeout SetTraceBatchTimeout (5 * second) (1 * hour);
   StringFlag keys.LogIngestServerURL LogIngestServerURL SetLogIngestServerURL id;
   StringFlag keys.LogShippingLevel LogShippingLevel SetLogShippingLevel sanitizeLogLevel;
   StringFlag keys.TraceIngestServerURL TraceIngestServerURL SetTraceIngestServerURL id;
   BoolFlag keys.DisableTraceIngestTLS DisableTraceIngestTLS SetDisableTraceIngestTLS;
   BoolFlag keys.InModernStandby InModernStandby SetInModernStandby;
   DurationFlag keys.OsqueryHealthcheckStartupDelay OsqueryHealthcheckStartupDelay SetOsqueryHealthcheckStartupDelay (0 * second) (1 * hour);
   DurationFlag keys.TableGenerateTimeout TableGenerateTimeout SetTableGenerateTimeout (30 * second) (10 * minute);
   BoolFlag keys.UseCachedDataForScheduledQueries UseCachedDataForScheduledQueries SetUseCachedDataForScheduledQueries;
   DurationFlag keys.CachedQueryResultsTTL CachedQueryResultsTTL SetCachedQueryResultsTTL (90 * minute) (72 * hour);
   BoolFlag keys.ResetOnHardwareChangeEnabled ResetOnHardwareChangeEnabled SetResetOnHardwareChangeEnabled;
   DurationFlag keys.AutoupdateDownloadSplay AutoupdateDownloadSplay SetAutoupdateDownloadSplay (0 * second) (72 * hour);
   BoolFlag keys.PerformanceMonitoringEnabled PerformanceMonitoringEnabled SetPerformanceMonitoringEnabled;
   DurationFlag keys.DuplicateLogWindow DuplicateLogWindow SetDuplicateLogWindow (0 * second) (24 * hour);
   StringFlag keys.OsqueryPublisherURL OsqueryPublisherURL SetOsqueryPublisherURL id;
   IntFlag keys.OsqueryPublisherPercentEnabled OsqueryPublisherPercentEnabled SetOsqueryPublisherPercentEnabled 0 100].

(** ** What the getters and setters have in common *)
Definition flag_key (f : flag) : bytes :=
  match f with
  | DurationFlag k _ _ _ _ | IntFlag k _ _ _ _ | BoolFlag k _ _ | StringFlag k _ _ _ | FloatFlag k _ _ => k
  end.

(** The flag reads the same in both states. *)
Definition flag_same (f : flag) (fc fc' : controller) : Prop :=
  match f with
  | DurationFlag _ get _ _ _ | IntFlag _ get _ _ _ => get fc' = get fc
  | BoolFlag _ get _ => get fc' = get fc
  | StringFlag _ get _ _ => get fc' = get fc
  | FloatFlag _ get _ => get fc' = get fc
  end.

(** A getter reads its override, a default that depends on the options, and its stored value. *)
Definition reads {T D} (k : bytes) (get : controller → T) (r : option value → D → option bytes → T) : Prop :=
  ∃ (ov : controller → option value) (d : controller → D),
    ((∀ fc, ov fc = None) ∨ (∀ fc, ov fc = overrideValue k fc)) ∧
    (∀ fc fc', cmdLineOpts fc' = cmdLineOpts fc → d fc' = d fc) ∧
    ∀ fc, get fc = r (ov fc) (d fc) (getControlServerValue k fc).

Definition shape (f : flag) : Prop :=
  match f with
  | DurationFlag k get set mn mx =>
      mn <= mx ∧ (∀ v, set v = setControlServerValue k (durationToBytes v)) ∧
      reads k get (λ o d c, durationFlagValue_get o d mn mx c)
  | IntFlag k get set mn mx =>
      mn <= mx ∧ (∀ v, set v = setControlServerValue k (intToBytes v)) ∧
      reads k get (λ o d c, intFlagValue_get o d mn mx c)
  | BoolFlag k get set =>
      (∀ v, set v = setControlServerValue k (boolToBytes v)) ∧ reads k get boolFlagValue_get
  | StringFlag k get set san =>
      (∀ v, set v = setControlServerValue k v) ∧ reads k get (λ o d c, stringFlagValue_get o san d c)
  | FloatFlag k get set =>
      (∀ v, set v = setControlServerValue k (float64ToBytes v)) ∧
      reads k get (λ o d c, float64FlagValue_get o d Fzero Fone c)
  end.

Ltac unfold_head t := match t with ?f _ => unfold_head f | ?f => unfold f end.
Ltac solve_reads :=
  eexists _, _; split; [|split; [|intros fc; match goal with |- ?g fc = _ => unfold_head g end; reflexivity]];
  [first [left; intros ?; reflexivity | right; intros ?; reflexivity]
  |intros ? ? E; cbn beta; rewrite ?E; reflexivity].
Ltac solve_shape :=
  cbn [shape]; try match goal with |- (_ <= _) ∧ _ => split; [vm_compute; discriminate|] end; split; [intros ?; reflexivity|solve_reads].

Lemma flags_shape : Forall shape flags.
Proof. unfold flags. repeat (apply Forall_cons; split; [solve_shape|]). apply Forall_nil. done. Qed.

Lemma reads_same {T D} k (get : controller → T) (r : option value → D → option bytes → T) fc fc' :
  reads k get r → cmdLineOpts fc' = cmdLineOpts fc → overrides fc' = overrides fc →
  getControlServerValue k fc' = getControlServerValue k fc → get fc' = get fc.
Proof.
  intros (ov & d & Hov & Hd & Hg) E1 E2 E3. rewrite !Hg, E3, (Hd fc fc' E1).
  assert (E : ov fc' = ov fc); [|by rewrite E].
  destruct Hov as [Hov|Hov]; rewrite !Hov; [done|]. unfold overrideValue. by rewrite E2.
Qed.

Lemma shape_same f fc fc' :
  shape f → cmdLineOpts fc' = cmdLineOpts fc → overrides fc' = overrides fc →
  getControlServerValue (flag_key f) fc' = getControlServerValue (flag_key f) fc → flag_same f fc fc'.
Proof.
  destruct f; cbn [shape flag_key flag_same]; intros Hs ? ? ?;
    repeat match goal with H : _ ∧ _ |- _ => destruct H end; by eapply reads_same.
Qed.

Lemma clampValue_range v mn mx : mn <= mx → mn <= clampValue v mn mx <= mx.
Proof. intros H. unfold clampValue. repeat case_if; lia. Qed.

(** C40: Whatever is stored, overridden or given on the command line, every duration and integer
    flag reads a value within its limits. *)
Theorem flags_within_limits fc :
  Forall (λ f, match f with
               | DurationFlag _ get _ mn mx | IntFlag _ get _ mn mx => mn <= get fc <= mx
               | _ => True
               end) flags.
Proof.
  eapply Forall_impl; [exact flags_shape|]. intros f Hf.
  destruct f; try done; destruct Hf as (Hmm & _ & ov & d & _ & _ & ->); by apply clampValue_range.
Qed.

Section Store.
Context `{!KVLaws S, !KVReliable S, !FlagsLaws}.

Definition store_ok (fc : controller) : Prop :=
  match agentFlagsStore fc with Some s => kv_ok s | None => True end.

Lemma setControlServerValue_spec k v fc :
  store_ok fc →
  let '(fc', _, e) := setControlServerValue k v fc in
  cmdLineOpts fc' = cmdLineOpts fc ∧ overrides fc' = overrides fc ∧
  (∀ k', k' ≠ k → getControlServerValue k' fc' = getControlServerValue k' fc) ∧
  (e = None → getControlServerValue k fc' = Some v).
Proof.
  unfold store_ok, setControlServerValue, getControlServerValue.
  destruct (agentFlagsStore fc) as [s|] eqn:Es; [|intros _; by rewrite Es]. intros Hok.
  destruct (kv_Set_spec k v s Hok) as [Hok' Hv]. destruct (kv_Set k v s) as [s' [e|]]; cbn [fst snd] in *;
    cbn [agentFlagsStore with_store cmdLineOpts overrides]; (split_and!; [done..|intros k' Hk'|]);
    rewrite ?kv_Get_reliable, ?Hv by done; [done|done|by rewrite lookup_insert_ne|]. intros _. by rewrite lookup_insert_eq.
Qed.

(** The other flags read as before. *)
Definition others_same (k : bytes) (fc fc' : controller) : Prop :=
  Forall (λ g, flag_key g ≠ k → flag_same g fc fc') flags.

Lemma set_others k v fc fc' n e :
  store_ok fc → setControlServerValue k v fc = (fc', n, e) → others_same k fc fc'.
Proof.
  intros Hok E. pose proof (setControlServerValue_spec k v fc Hok) as Hspec. rewrite E in Hspec.
  destruct Hspec as (H1 & H2 & H3 & _). eapply Forall_impl; [exact flags_shape|]. intros g Hg Hk.
  apply shape_same; auto.
Qed.

Lemma set_reads {T D} k (get : controller → T) (r : option value → D → option bytes → T) v fc fc' n :
  store_ok fc → reads k get r → overrideValue k fc = None →
  setControlServerValue k v fc = (fc', n, None) → ∃ d, get fc' = r None d (Some v).
Proof.
  intros Hok (ov & d & Hov & _ & Hg) Hno E.
  pose proof (setControlServerValue_spec k v fc Hok) as Hspec. rewrite E in Hspec. destruct Hspec as (_ & H2 & _ & H4).
  exists (d fc'). rewrite Hg, H4 by done. f_equal.
  destruct Hov as [Hov|Hov]; rewrite Hov; [done|]. unfold overrideValue in *. by rewrite H2.
Qed.

Definition sets_and_gets (f : flag) : Prop :=
  match f with
  | DurationFlag k get set mn mx | IntFlag k get set mn mx => ∀ v fc fc' n,
      store_ok fc → - two63 <= v < two63 → overrideValue k fc = None → set v fc = (fc', n, None) →
      get fc' = clampValue v mn mx ∧ others_same k fc fc'
  | BoolFlag k get set => ∀ v fc fc' n,
      store_ok fc → overrideValue k fc = None → set v fc = (fc', n, None) → get fc' = v ∧ others_same k fc fc'
  | StringFlag k get set san => ∀ v fc fc' n,
      store_ok fc → overrideValue k fc = None → set v fc = (fc', n, None) → get fc' = san v ∧ others_same k fc fc'
  | FloatFlag k get set => ∀ v fc fc' n,
      store_ok fc → overrideValue k fc = None → set v fc = (fc', n, None) →
      get fc' = clampFloat64Value v Fzero Fone ∧ others_same k fc fc'
  end.

(** A flag that was set reads back: without an override, each setter that succeeds makes
    its getter return the value, brought within the limits or sanitized, and changes no other
    flag. *)
Theorem set_then_get : Forall sets_and_gets flags.
Proof.
  eapply Forall_impl; [exact flags_shape|]. intros f Hf.
  destruct f as [k get set mn mx|k get set mn mx|k get set|k get set san|k get set]; cbn [shape sets_and_gets] in *.
  - destruct Hf as (_ & Hset & Hr). intros v fc fc' n Hok Hv Hno E. rewrite Hset in E.
    split; [|by eapply set_others]. destruct (set_reads k get _ _ _ _ _ Hok Hr Hno E) as [d ->].
    unfold durationFlagValue_get, parseControlServerValue, durationToBytes. f_equal.
    rewrite ParseDuration_plain, Atoi_itoa by done. by case_if; subst.
  - destruct Hf as (_ & Hset & Hr). intros v fc fc' n Hok Hv Hno E. rewrite Hset in E.
    split; [|by eapply set_others]. destruct (set_reads k get _ _ _ _ _ Hok Hr Hno E) as [d ->].
    unfold intFlagValue_get, intToBytes. by rewrite Atoi_itoa.
  - destruct Hf as (Hset & Hr). intros v fc fc' n Hok Hno E. rewrite Hset in E.
    split; [|by eapply set_others]. destruct (set_reads k get _ _ _ _ _ Hok Hr Hno E) as [d ->]. by destruct v.
  - destruct Hf as (Hset & Hr). intros v fc fc' n Hok Hno E. rewrite Hset in E.
    split; [|by eapply set_others]. by destruct (set_reads k get _ _ _ _ _ Hok Hr Hno E) as [d ->].
  - destruct Hf as (Hset & Hr). intros v fc fc' n Hok Hno E. rewrite Hset in E.
    split; [|by eapply set_others]. destruct (set_reads k get _ _ _ _ _ Hok Hr Hno E) as [d ->].
    unfold float64FlagValue_get, float64ToBytes. by rewrite ParseFloat_FormatFloat.
Qed.
End Store.

(** The keys are distinct, so [others_same] speaks of all the other flags. *)
Lemma flag_keys_distinct : NoDup (map flag_key flags).
Proof. refine (bool_decide_unpack _ _). vm_compute. exact I. Qed.

(** ** Overrides *)

(** The durations that can be overridden: key, getter, override and limits *)
Definition overridden : list (bytes * (controller → Z) * (Z → controller → controller * option (list notification)) * Z * Z) :=
  [(keys.ControlRequestInterval, ControlRequestInterval, SetControlRequestIntervalOverride, 5 * second, 10 * minute);
   (keys.DistributedForwardingInterval, DistributedForwardingInterval, SetDistributedForwardingIntervalOverride,
      5 * second, 5 * minute);
   (keys.AutoupdateInterval, AutoupdateInterval, SetAutoupdateIntervalOverride, 1 * minute, 24 * hour);
   (keys.AutoupdateInitialDelay, AutoupdateInitialDelay, SetAutoupdateInitialDelayOverride, 5 * second, 12 * hour)].

Lemma overrideFlag_spec k v fc fc' n :
  overrideFlag k v fc = (fc', Some n) →
  fc' = with_overrides fc (<[k := MkOverride v Armed]> (overrides fc)) ∧ n = notifyObservers [k] fc.
Proof.
  unfold overrideFlag. destruct (overrideLocked fc); [done|].
  destruct (ov_timer <$> overrides fc !! k) as [[]|]; by intros [= <- <-].
Qed.

Lemma overrideExpired_spec k fc fc' n :
  overrideExpired k fc = (fc', Some n) →
  fc' = with_overrides fc (delete k (overrides fc)) ∧ n = notifyObservers [k] fc.
Proof. unfold overrideExpired. destruct (overrideLocked fc); [done|]. by intros [= <- <-]. Qed.

(** An override takes effect at once and ends with its timer: while it is active the flag
    reads the override, within its limits; when it expires the flag reads what it read before;
    other overrides are not touched, and the observers of the flag hear of both changes. *)
Theorem override_lifecycle :
  Forall (λ '(k, get, override, mn, mx), ∀ v fc fc' n,
    override v fc = (fc', Some n) →
    get fc' = clampValue v mn mx ∧ n = notifyObservers [k] fc ∧
    (∀ k', k' ≠ k → overrides fc' !! k' = overrides fc !! k') ∧
    (∀ fc'' n', overrideExpired k fc' = (fc'', Some n') → overrides fc !! k = None →
       get fc'' = get fc ∧ overrides fc'' = overrides fc ∧ n' = n)) overridden.
Proof.
  unfold overridden. repeat (apply Forall_cons; split); [..|apply Forall_nil; done].
  all: intros v fc fc' n E; apply overrideFlag_spec in E as [-> ->]; split_and!; [|done|intros k' Hk'; by apply lookup_insert_ne|].
  all: try (match goal with |- ?g _ = _ => unfold_head g end; unfold overrideValue;
            cbn [overrides with_overrides]; by rewrite lookup_insert_eq).
  all: intros fc'' n' E Hno; apply overrideExpired_spec in E as [-> ->]; cbn [overrides with_overrides] in *;
    rewrite delete_insert_eq, (delete_id (overrides fc)) by done; (split_and!; [by destruct fc|done|done]).
Qed.

(** ** The race between an override and the timer of the one before *)
Inductive ostep : controller → controller → Prop :=
| o_override k v fc : ostep fc (overrideFlag k v fc).1
| o_fire k v fc :
    overrides fc !! k = Some (MkOverride v Armed) →
    ostep fc (with_overrides fc (<[k := MkOverride v Fired]> (overrides fc)))
| o_expire k v fc :
    overrides fc !! k = Some (MkOverride v Fired) → ostep fc (overrideExpired k fc).1.

Lemma locked_forever fc fc' : rtc ostep fc fc' → overrideLocked fc = true → overrideLocked fc' = true.
Proof.
  induction 1 as [|fc fc1 fc2 Hs _ IH]; [done|]. intros Hl. apply IH.
  destruct Hs as [k v fc|k v fc _|k v fc _]; unfold overrideFlag, overrideExpired; by rewrite ?Hl.
Qed.

(** If an override is set again after its timer fired but before the callback of the timer
    ran, the call blocks with the mutex held: from then on no override can be set and none
    expires. *)
Theorem override_race_deadlocks opts s k v :
  ∃ fc, rtc ostep (NewFlagController opts s) fc ∧ overrides fc !! k = Some (MkOverride v Fired) ∧
    ∀ fc', rtc ostep fc fc' → overrideLocked fc = true ∧
      (∀ k' w, overrideFlag k' w fc' = (fc', None)) ∧ (∀ k', overrideExpired k' fc' = (fc', None)).
Proof.
  set (fc0 := NewFlagController opts s).
  set (fc1 := with_overrides fc0 (<[k := MkOverride v Armed]> ∅)).
  set (fc2 := with_overrides fc1 (<[k := MkOverride v Fired]> (overrides fc1))).
  assert (H1 : overrides fc1 !! k = Some (MkOverride v Armed)) by apply lookup_insert_eq.
  assert (H2 : overrides fc2 !! k = Some (MkOverride v Fired)) by apply lookup_insert_eq.
  assert (E2 : (overrideFlag k v fc2).1 = with_lock fc2 true).
  { unfold overrideFlag. rewrite H2. done. }
  exists (with_lock fc2 true). split; [|split; [done|]].
  - eapply rtc_l; [apply (o_override k v)|]. eapply rtc_l; [apply (o_fire k v); exact H1|].
    eapply rtc_l; [|apply rtc_refl]. rewrite <- E2. apply o_override.
  - intros fc' Hr. split; [done|]. apply locked_forever in Hr; [|done].
    unfold overrideFlag, overrideExpired. by rewrite Hr.
Qed.

(** ** Bulk updates *)

(** An observer is told of a bulk update exactly when it observes a changed key, and exactly
    of those keys. *)
Lemma Update_notifies update updatedKeys fc fc' n changed e o ks :
  Update update updatedKeys fc = Ok (fc', n, (changed, e)) →
  (o, ks) ∈ n ↔ ks ≠ [] ∧ ∃ observed, observers fc !! o = Some observed ∧ ks = keys.Intersection observed changed.
Proof.
  unfold Update. destruct (agentFlagsStore fc) as [s|]; [|done]. destruct (update s) as [s' [deleted e']].
  intros [= _ <- <- _]. unfold notifyObservers. rewrite list_elem_of_omap. split.
  - intros ([o' observed] & Hin & Heq). apply elem_of_map_to_list in Hin. cbn [fst snd] in *.
    destruct (keys.Intersection observed _) as [|x l] eqn:E; [done|]. injection Heq as -> <-.
    split; [done|]. by exists observed.
  - intros (Hne & observed & Ho & ->). exists (o, observed). split; [by apply elem_of_map_to_list|].
    cbn [fst snd]. by destruct (keys.Intersection observed _).
Qed.
End Controller.

(** ** Witnesses *)
#[local] Instance toyLib : FlagsLib := {|
  ParseDuration b := if bool_decide (b = bs "0") then Some 0 else None;
  F := unit; Flt _ _ := false; Fzero := tt; Fone := tt; ParseFloat _ := Some tt; FormatFloat _ := bs "1";
  semverLess _ _ := None
|}.

Lemma itoa_zero n : - two63 <= n < two63 → itoa n = bs "0" ↔ n = 0.
Proof.
  intros Hn. split; [|by intros ->]. intros E.
  apply Atoi_itoa in Hn. rewrite E in Hn. by injection Hn as <-.
Qed.

#[local] Instance toyLaws : FlagsLaws.
Proof.
  split; [|by intros []]. intros n Hn. cbn. case_bool_decide as E.
  - apply itoa_zero in E; [|done]. by subst.
  - case_match; [|done]. exfalso. apply E, itoa_zero; [done|lia].
Qed.

Definition toyOptions : Options.
Proof. repeat first [exact []|exact false|exact 0|exact None|constructor]. Defined.

Definition toyController : controller :=
  RegisterChangeObserver 7 [keys.ControlRequestInterval] (NewFlagController toyOptions (Some InMemory.NewStore)).

(** An interval of two hours is stored, and read as the ten minutes it may be at most. *)
Lemma set_then_get_witness :
  let r := SetControlRequestInterval (2 * hour) toyController in
  ControlRequestInterval r.1.1 = 10 * minute ∧ r.1.2 = [(7%nat, [keys.ControlRequestInterval])] ∧
  others_same keys.ControlRequestInterval toyController r.1.1.
Proof.
  pose proof (set_then_get (S := InMemory.store)) as H. rewrite Forall_forall in H.
  assert (Hin : DurationFlag keys.ControlRequestInterval ControlRequestInterval SetControlRequestInterval
                  (5 * second) (10 * minute) ∈ flags (S := InMemory.store)).
  { unfold flags. repeat first [left | right]. }
  destruct (H _ Hin (2 * hour) toyController _ [(7%nat, [keys.ControlRequestInterval])] InMemory.wf_NewStore
    ltac:(vm_compute; split; [discriminate|reflexivity]) eq_refl eq_refl) as [Hget Hothers].
  split; [exact Hget|]. split; [reflexivity|exact Hothers].
Defined.

(** The interval is overridden with one minute, until the timer fires. *)
Lemma override_lifecycle_witness :
  ∃ fc' n, SetControlRequestIntervalOverride minute toyController = (fc', Some n) ∧
    ControlRequestInterval fc' = minute ∧
    ∀ fc'' n', overrideExpired keys.ControlRequestInterval fc' = (fc'', Some n') →
      ControlRequestInterval fc'' = ControlRequestInterval toyController.
Proof.
  eexists _, _. split; [reflexivity|].
  pose proof (override_lifecycle (S := InMemory.store)) as H. apply Forall_inv in H.
  destruct (H minute toyController _ _ eq_refl) as (Hget & _ & _ & Hexp). split; [exact Hget|].
  intros fc'' n' E. by apply (Hexp fc'' n' E).
Defined.

End Flags.
