(* ===== verification/Enrollment.v ===== *)
(** * ee/agent/storage and ee/agent/knapsack: keys and enrollments

    An enrollment's data is kept under keys made from the identifier of the enrollment
    ([KeyByIdentifier]).  The node key lives in the config store, the enrollment itself in a
    store of its own; [SaveEnrollment], [EnsureEnrollmentStored] and [DeleteEnrollment] keep
    the two in step. *)
From S2P Require Import Prelude Json Strings JsonRead KVStore.
Set Warnings "-clear-no-such-hyp".

Module Enrollment.

(** ** Keys (ee/agent/storage/keys.go) *)
Definition EnrollmentSecretTokenKey : bytes := bs "enrollment_secret".
Definition AgentIngesterAuthTokenKey : bytes := bs "agent_ingester_auth_token".
Definition AgentIngesterHPKEPublicKey : bytes := bs "agent_ingester_hpke_public_key".
Definition AgentIngesterHPKEPresharedKey : bytes := bs "agent_ingester_hpke_psk".
Definition IdentifierTypeEnrollment : bytes := bs "registration".
Definition defaultIdentifier : bytes := bs "default".
Definition keyDelimiter : byte := x3a.

Definition KeyByIdentifier (key identifierType identifier : bytes) : bytes :=
  if is_empty identifier || bool_decide (identifier = defaultIdentifier) then key
  else key ++ [keyDelimiter] ++ identifierType ++ [keyDelimiter] ++ identifier.

(** [bytes.SplitN(key, ":", 3)] has three parts when it finds two delimiters. *)
Definition SplitKey (key : bytes) : bytes * option bytes * bytes :=
  match cut [keyDelimiter] key with
  | Some (k, rest) =>
      match cut [keyDelimiter] rest with
      | Some (t, ident) => (k, Some t, ident)
      | None => (key, None, defaultIdentifier)
      end
  | None => (key, None, defaultIdentifier)
  end.

(** ** Enrollments (ee/agent/types/enrollment.go) *)
Definition DefaultEnrollmentID : bytes := bs "default".

Record enrollment := MkEnrollment {
  EnrollmentID : bytes;
  Munemo : bytes;
  EnrollmentSecret : bytes;
  NodeKey_ : bytes
}.

(** [json.Marshal]: the fields in the order of the struct, a blank secret omitted *)
Definition marshalEnrollment (e : enrollment) : bytes :=
  bs "{" ++ json_string (bs "registration_id") ++ bs ":" ++ json_string (EnrollmentID e) ++
  bs "," ++ json_string (bs "munemo") ++ bs ":" ++ json_string (Munemo e) ++
  (if is_empty (EnrollmentSecret e) then []
   else bs "," ++ json_string (bs "enrollment_secret") ++ bs ":" ++ json_string (EnrollmentSecret e)) ++
  bs "," ++ json_string (bs "node_key") ++ bs ":" ++ json_string (NodeKey_ e) ++ bs "}".

Definition enrollment_utf8 (e : enrollment) : Prop :=
  Forall (λ s, valid_utf8 s = true) [EnrollmentID e; Munemo e; EnrollmentSecret e; NodeKey_ e].

(** ** Enrollment details *)
Record EnrollmentDetails := MkDetails {
  OSVersion : bytes;
  OSBuildID : bytes;
  OSPlatform : bytes;
  Hostname : bytes;
  HardwareVendor : bytes;
  HardwareModel : bytes;
  HardwareSerial : bytes;
  OsqueryVersion : bytes;
  LauncherHardwareKey : bytes;
  LauncherHardwareKeySource : bytes;
  LauncherLocalKey : bytes;
  LauncherVersion : bytes;
  OSName : bytes;
  OSPlatformLike : bytes;
  GOOS : bytes;
  GOARCH : bytes;
  HardwareUUID : bytes
}.

(** A field of the new details replaces the old one unless it is blank. *)
Definition newer (old new : bytes) : bytes := if is_empty new then old else new.

Definition mergeEnrollmentDetails (oldDetails newDetails : EnrollmentDetails) : EnrollmentDetails :=
  MkDetails
    (newer (OSVersion oldDetails) (OSVersion newDetails))
    (newer (OSBuildID oldDetails) (OSBuildID newDetails))
    (newer (OSPlatform oldDetails) (OSPlatform newDetails))
    (newer (Hostname oldDetails) (Hostname newDetails))
    (newer (HardwareVendor oldDetails) (HardwareVendor newDetails))
    (newer (HardwareModel oldDetails) (HardwareModel newDetails))
    (newer (HardwareSerial oldDetails) (HardwareSerial newDetails))
    (newer (OsqueryVersion oldDetails) (OsqueryVersion newDetails))
    (newer (LauncherHardwareKey oldDetails) (LauncherHardwareKey newDetails))
    (newer (LauncherHardwareKeySource oldDetails) (LauncherHardwareKeySource newDetails))
    (newer (LauncherLocalKey oldDetails) (LauncherLocalKey newDetails))
    (newer (LauncherVersion oldDetails) (LauncherVersion newDetails))
    (newer (OSName oldDetails) (OSName newDetails))
    (newer (OSPlatformLike oldDetails) (OSPlatformLike newDetails))
    (newer (GOOS oldDetails) (GOOS newDetails))
    (newer (GOARCH oldDetails) (GOARCH newDetails))
    (newer (HardwareUUID oldDetails) (HardwareUUID newDetails)).

(** What is not modelled: decoding an enrollment, and the claim "organization" of an
    unverified JWT, printed with [%s] *)
Class EnrollLib := {
  unmarshalEnrollment : bytes → option enrollment;
  organization : bytes → res bytes
}.

Class EnrollLaws `{EnrollLib} := {
  unmarshal_marshal e : enrollment_utf8 e → unmarshalEnrollment (marshalEnrollment e) = Some e;
  unmarshal_utf8 raw e : unmarshalEnrollment raw = Some e → enrollment_utf8 e
}.

(** ** The knapsack's enrollment tracker (ee/agent/knapsack/knapsack.go) *)

(** The file of the enroll secret, as [os.Stat] and [os.ReadFile] see it *)
Inductive secretFile : Type :=
| NoFile
| Unreadable (e : err)
| Content (content : bytes).

(** ** Keys are read back *)
Lemma cut_delimiter k rest : keyDelimiter ∉ k → cut [keyDelimiter] (k ++ keyDelimiter :: rest) = Some (k, rest).
Proof.
  induction k as [|b k IH]; intros Hk; [done|]. apply not_elem_of_cons in Hk as [Hb Hk].
  cbn [cut has_prefix app]. rewrite andb_true_r.
  destruct (keyDelimiter =b b) eqn:E; [by apply Byte.byte_dec_bl in E|]. by rewrite IH.
Qed.

Lemma cut_no_delimiter k : keyDelimiter ∉ k → cut [keyDelimiter] k = None.
Proof.
  induction k as [|b k IH]; intros Hk; [done|]. apply not_elem_of_cons in Hk as [Hb Hk].
  cbn [cut has_prefix]. rewrite andb_true_r.
  destruct (keyDelimiter =b b) eqn:E; [by apply Byte.byte_dec_bl in E|]. by rewrite IH.
Qed.

(** [SplitKey] takes apart the keys [KeyByIdentifier] makes, for a key and a type without
    the delimiter (the identifier may contain it): it finds the identifier, or the default one
    when the key was made for the default or for no identifier. *)
Theorem SplitKey_KeyByIdentifier key identifierType identifier :
  keyDelimiter ∉ key → keyDelimiter ∉ identifierType →
  SplitKey (KeyByIdentifier key identifierType identifier) =
    if bool_decide (identifier = [] ∨ identifier = defaultIdentifier) then (key, None, defaultIdentifier)
    else (key, Some identifierType, identifier).
Proof.
  intros Hk Ht. unfold SplitKey, KeyByIdentifier.
  destruct (bool_decide_reflect (identifier = [] ∨ identifier = defaultIdentifier)) as [E|E].
  - assert (Eb : is_empty identifier || bool_decide (identifier = defaultIdentifier) = true).
    { destruct E as [-> | ->]; [done|]. by rewrite bool_decide_true, orb_true_r. }
    by rewrite Eb, cut_no_delimiter.
  - assert (Eb : is_empty identifier || bool_decide (identifier = defaultIdentifier) = false).
    { rewrite bool_decide_false by tauto. destruct identifier; [tauto|done]. }
    rewrite Eb. cbn [app]. by rewrite !cut_delimiter.
Qed.

(** So different enrollments have different keys. *)
Lemma nodeKey_injective id id' :
  KeyByIdentifier (bs "nodeKey") IdentifierTypeEnrollment id = KeyByIdentifier (bs "nodeKey") IdentifierTypeEnrollment id' →
  id = id' ∨ (id ∈ [[]; defaultIdentifier] ∧ id' ∈ [[]; defaultIdentifier]).
Proof.
  unfold KeyByIdentifier. intros E.
  destruct (is_empty id || bool_decide (id = defaultIdentifier)) eqn:E1;
    destruct (is_empty id' || bool_decide (id' = defaultIdentifier)) eqn:E2; try done.
  - right. apply orb_true_iff in E1, E2. rewrite !bool_decide_eq_true in *.
    destruct id, id'; set_solver.
  - left. by apply (app_inv_head (bs "nodeKey" ++ [keyDelimiter] ++ IdentifierTypeEnrollment ++ [keyDelimiter])).
Qed.

(** ** Merging details *)

(** Merging is an idempotent monoid with the blank details as unit: the order in which two
    sources of details are grouped does not matter, only which is newer. *)
Lemma newer_assoc x y z : newer (newer x y) z = newer x (newer y z).
Proof. by destruct y, z. Qed.

Lemma merge_assoc a b c :
  mergeEnrollmentDetails (mergeEnrollmentDetails a b) c = mergeEnrollmentDetails a (mergeEnrollmentDetails b c).
Proof. unfold mergeEnrollmentDetails. f_equal; apply newer_assoc. Qed.

Section Knapsack.
Context {S : Type} `{KV : KVStore S} `{L : EnrollLib}.

(** A store that was not configured is nil. *)
Record knapsack := Knapsack {
  ConfigStore : option S;
  EnrollmentStore : option S;
  TokenStore : option S;
  EnrollSecret : bytes;
  EnrollSecretPath : secretFile
}.

Definition with_config (k : knapsack) (s : S) : knapsack :=
  Knapsack (Some s) (EnrollmentStore k) (TokenStore k) (EnrollSecret k) (EnrollSecretPath k).
Definition with_enrollments (k : knapsack) (s : S) : knapsack :=
  Knapsack (ConfigStore k) (Some s) (TokenStore k) (EnrollSecret k) (EnrollSecretPath k).
Definition with_tokens (k : knapsack) (s : S) : knapsack :=
  Knapsack (ConfigStore k) (EnrollmentStore k) (Some s) (EnrollSecret k) (EnrollSecretPath k).

Definition nodeKeyKey : bytes := bs "nodeKey".
Definition nodeKeyKeyFor (enrollmentId : bytes) : bytes :=
  KeyByIdentifier nodeKeyKey IdentifierTypeEnrollment enrollmentId.

Definition ReadEnrollSecret (k : knapsack) : res bytes :=
  if negb (is_empty (EnrollSecret k)) then Ok (EnrollSecret k)
  else
    match EnrollSecretPath k with
    | Unreadable e => Err (Wrapf "could not read enroll secret path %s: %w" e)
    | Content content => Ok (TrimSpace content)
    | NoFile =>
        match TokenStore k with
        | None => Err (Errorf "token store not available")
        | Some store =>
            secret ← wrap "getting enrollment secret from token store: %w"
              (kv_Get store (KeyByIdentifier EnrollmentSecretTokenKey IdentifierTypeEnrollment DefaultEnrollmentID));
            match secret with
            | Some s => Ok s
            | None => Err (Errorf "enroll secret not set")
            end
        end
    end.

Definition NodeKey (enrollmentId : bytes) (k : knapsack) : res bytes :=
  match ConfigStore k with
  | None => Err (Errorf "no config store")
  | Some store =>
      key ← wrap "error getting node key: %w" (kv_Get store (nodeKeyKeyFor enrollmentId));
      Ok (default [] key)
  end.

(** [for ... ForEach]: the first enrollment that does not decode ends the call *)
Definition Enrollments (k : knapsack) : res (list enrollment) :=
  match EnrollmentStore k with
  | None => Err (Errorf "no enrollment store")
  | Some store =>
      let fn (_ v : bytes) (acc : list enrollment) :=
        match unmarshalEnrollment v with
        | Some e => (acc ++ [e], None)
        | None => (acc, Some (Errorf "unmarshalling enrollment %s"))
        end in
      match kv_ForEach fn store [] with
      | (l, None) => Ok l
      | (_, Some e) => Err (Wrapf "fetching enrollments from store: %w" e)
      end
  end.

(** The munemo that is saved: the one given, else the organization of the secret *)
Definition munemoFor (munemo secret : bytes) : res bytes :=
  if is_empty munemo && negb (is_empty secret) then wrap "parsing enrollment secret: %w" (organization secret)
  else Ok munemo.

Definition SaveEnrollment (enrollmentId munemo nodeKey enrollmentSecret : bytes) (k : knapsack)
    : knapsack * option err :=
  match ConfigStore k, EnrollmentStore k with
  | None, _ => (k, Some (Errorf "no config store"))
  | _, None => (k, Some (Errorf "no enrollment store"))
  | Some nodeKeyStore, Some enrollmentStore =>
      if is_empty munemo && is_empty enrollmentSecret
      then (k, Some (Errorf "munemo and enrollment secret cannot both be empty"))
      else if is_empty nodeKey then (k, Some (Errorf "node key cannot be empty"))
      else
        match munemoFor munemo enrollmentSecret with
        | Err e => (k, Some e)
        | Panic | NoFuel => (k, Some (Errorf "panic"))
        | Ok munemo =>
            match kv_Set (nodeKeyKeyFor enrollmentId) nodeKey nodeKeyStore with
            | (s, Some e) => (with_config k s, Some (Wrapf "setting node key in store: %w" e))
            | (s, None) =>
                let k := with_config k s in
                match kv_Set enrollmentId (marshalEnrollment (MkEnrollment enrollmentId munemo enrollmentSecret nodeKey))
                        enrollmentStore with
                | (s, Some e) => (with_enrollments k s, Some (Wrapf "adding enrollment to store: %w" e))
                | (s, None) => (with_enrollments k s, None)
                end
            end
        end
  end.

Definition EnsureEnrollmentStored (enrollmentId : bytes) (k : knapsack) : knapsack * option err :=
  match ConfigStore k, EnrollmentStore k with
  | None, _ => (k, Some (Errorf "no config store, cannot ensure enrollment is stored"))
  | _, None => (k, Some (Errorf "no enrollment store, cannot ensure enrollment is stored"))
  | Some nodeKeyStore, Some enrollmentStore =>
      match kv_Get nodeKeyStore (nodeKeyKeyFor enrollmentId) with
      | Err e => (k, Some (Wrapf "retrieving node key: %w" e))
      | Panic | NoFuel => (k, Some (Errorf "panic"))
      | Ok keyRaw =>
          let nodeKey := default [] keyRaw in
          if is_empty nodeKey
          then (k, Some (Errorf "no node key stored, cannot store enrollment (probably a new install)"))
          else
            match kv_Get enrollmentStore enrollmentId with
            | Err e => (k, Some (Wrapf "getting existing enrollment: %w" e))
            | Panic | NoFuel => (k, Some (Errorf "panic"))
            | Ok None =>
                match ReadEnrollSecret k with
                | Ok secret =>
                    match SaveEnrollment enrollmentId [] nodeKey secret k with
                    | (k, Some e) => (k, Some (Wrapf "saving new enrollment: %w" e))
                    | (k, None) => (k, None)
                    end
                | Err e => (k, Some (Wrapf "reading enrollment secret to create new enrollment: %w" e))
                | Panic | NoFuel => (k, Some (Errorf "panic"))
                end
            | Ok (Some raw) =>
                match unmarshalEnrollment raw with
                | None => (k, Some (Errorf "unmarshalling existing enrollment"))
                | Some e =>
                    if bool_decide (nodeKey = NodeKey_ e) then (k, None)
                    else
                      match kv_Set enrollmentId
                              (marshalEnrollment (MkEnrollment (EnrollmentID e) (Munemo e) (EnrollmentSecret e) nodeKey))
                              enrollmentStore with
                      | (s, Some e) => (with_enrollments k s, Some (Wrapf "updating enrollment in store: %w" e))
                      | (s, None) => (with_enrollments k s, None)
                      end
                end
            end
      end
  end.

Definition DeleteEnrollment (enrollmentId : bytes) (k : knapsack) : knapsack * option err :=
  match ConfigStore k, EnrollmentStore k with
  | None, _ => (k, Some (Errorf "no config store"))
  | _, None => (k, Some (Errorf "no enrollment store"))
  | Some nodeKeyStore, Some enrollmentStore =>
      match kv_Delete [nodeKeyKeyFor enrollmentId] nodeKeyStore with
      | (s, Some e) => (with_config k s, Some (Wrapf "deleting node key for %s: %w" e))
      | (s, None) =>
          let k := with_config k s in
          match kv_Delete [enrollmentId] enrollmentStore with
          | (s, Some e) => (with_enrollments k s, Some (Wrapf "deleting enrollment for %s: %w" e))
          | (s, None) => (with_enrollments k s, None)
          end
      end
  end.

Inductive status : Type := NoEnrollmentKey | Unenrolled | Enrolled.

Definition CurrentEnrollmentStatus (k : knapsack) : res status :=
  key ← wrap "getting node key from store: %w" (NodeKey DefaultEnrollmentID k);
  if negb (is_empty key) then Ok Enrolled
  else
    match ReadEnrollSecret k with
    | Ok secret => Ok (if is_empty secret then NoEnrollmentKey else Unenrolled)
    | _ => Ok NoEnrollmentKey
    end.

(** [PersistAgentIngesterKeys]: whether the publisher is pinged; [None] stands for no publisher *)
Definition setToken (key value : bytes) (sm : S * bool) : S * bool :=
  if is_empty value then sm
  else match kv_Set key value sm.1 with (s, Some _) => (s, sm.2) | (s, None) => (s, true) end.

Definition PersistAgentIngesterKeys (hasPublisher : bool) (authToken hpkePublicKey hpkePresharedKey : bytes)
    (k : knapsack) : knapsack * bool :=
  match TokenStore k with
  | Some store =>
      if hasPublisher then
        let sm := setToken AgentIngesterHPKEPresharedKey hpkePresharedKey
                    (setToken AgentIngesterHPKEPublicKey hpkePublicKey
                      (setToken AgentIngesterAuthTokenKey authToken (store, false))) in
        (with_tokens k sm.1, sm.2)
      else (k, false)
  | None => (k, false)
  end.

(** ** Promises *)
Definition knap_ok `{!KVLaws S} (k : knapsack) : Prop :=
  match ConfigStore k with Some s => kv_ok s | None => True end ∧
  match EnrollmentStore k with Some s => kv_ok s | None => True end.

(** The enrollment that is stored under an identifier *)
Definition stored (enrollmentId : bytes) (k : knapsack) : option enrollment :=
  match EnrollmentStore k with
  | Some s => match kv_Get s enrollmentId with Ok (Some raw) => unmarshalEnrollment raw | _ => None end
  | None => None
  end.

Section Laws.
Context `{!KVLaws S, !KVReliable S, !EnrollLaws}.

Lemma kv_Get_Set s k v k' :
  kv_ok s → (kv_Set k v s).2 = None →
  kv_ok (kv_Set k v s).1 ∧
  kv_Get (kv_Set k v s).1 k' = if bool_decide (k' = k) then Ok (Some v) else kv_Get s k'.
Proof.
  intros Hok E. destruct (kv_Set_spec k v s Hok) as [Hok' Hv]. rewrite E in Hv. split; [done|].
  rewrite !kv_Get_reliable, Hv by done. case_bool_decide as Ek; [by subst; rewrite lookup_insert_eq|].
  by rewrite lookup_insert_ne.
Qed.

Lemma kv_Get_Delete s k k' :
  kv_ok s → (kv_Delete [k] s).2 = None →
  kv_ok (kv_Delete [k] s).1 ∧
  kv_Get (kv_Delete [k] s).1 k' = if bool_decide (k' = k) then Ok None else kv_Get s k'.
Proof.
  intros Hok E. destruct (kv_Delete_spec [k] s Hok) as [Hok' Hv]. rewrite E in Hv. split; [done|].
  rewrite !kv_Get_reliable, Hv by done. cbn [foldl flip]. unfold flip.
  case_bool_decide as Ek; [by subst; rewrite lookup_delete_eq|]. by rewrite lookup_delete_ne.
Qed.

(** What a successful [SaveEnrollment] leaves behind *)
Lemma SaveEnrollment_spec id munemo nk secret k k' :
  knap_ok k → SaveEnrollment id munemo nk secret k = (k', None) →
  ∃ m, munemoFor munemo secret = Ok m ∧ nk ≠ [] ∧ knap_ok k' ∧
    (∀ id', NodeKey id' k' = if bool_decide (nodeKeyKeyFor id' = nodeKeyKeyFor id) then Ok nk else NodeKey id' k) ∧
    (∀ id', stored id' k' =
       if bool_decide (id' = id) then unmarshalEnrollment (marshalEnrollment (MkEnrollment id m secret nk))
       else stored id' k) ∧
    (∃ s, EnrollmentStore k' = Some s ∧
       kv_Get s id = Ok (Some (marshalEnrollment (MkEnrollment id m secret nk)))) ∧
    (∃ s, ConfigStore k' = Some s).
Proof.
  unfold SaveEnrollment, knap_ok, stored, NodeKey. destruct (ConfigStore k) as [cs|] eqn:Ec; [|done].
  destruct (EnrollmentStore k) as [es|] eqn:Ee; [|done]. intros [Hc He].
  destruct (is_empty munemo && is_empty secret); [done|]. destruct nk as [|x nk]; [done|]. cbn [is_empty].
  destruct (munemoFor munemo secret) as [m| | |]; [|done..].
  pose proof (kv_Get_Set cs (nodeKeyKeyFor id) (x :: nk)) as Hset1.
  destruct (kv_Set (nodeKeyKeyFor id) (x :: nk) cs) as [cs' [e|]]; [done|].
  pose proof (kv_Get_Set es id (marshalEnrollment (MkEnrollment id m secret (x :: nk)))) as Hset2.
  destruct (kv_Set id _ es) as [es' [e|]]; [done|]. intros [= <-]. cbn [fst snd] in *.
  exists m. cbn [ConfigStore EnrollmentStore with_config with_enrollments].
  split_and!; try done.
  - by destruct (Hset1 [] Hc eq_refl).
  - by destruct (Hset2 [] He eq_refl).
  - intros id'. destruct (Hset1 (nodeKeyKeyFor id') Hc eq_refl) as [_ ->]. by case_bool_decide.
  - intros id'. destruct (Hset2 id' He eq_refl) as [_ ->]. by case_bool_decide.
  - exists es'. split; [done|]. destruct (Hset2 id He eq_refl) as [_ ->]. by rewrite bool_decide_true.
  - by exists cs'.
Qed.

Lemma DeleteEnrollment_spec id k k' :
  knap_ok k → DeleteEnrollment id k = (k', None) →
  (∀ id', NodeKey id' k' = if bool_decide (nodeKeyKeyFor id' = nodeKeyKeyFor id) then Ok [] else NodeKey id' k) ∧
  (∀ id', stored id' k' = if bool_decide (id' = id) then None else stored id' k).
Proof.
  unfold DeleteEnrollment, knap_ok, stored, NodeKey. destruct (ConfigStore k) as [cs|] eqn:Ec; [|done].
  destruct (EnrollmentStore k) as [es|] eqn:Ee; [|done]. intros [Hc He].
  pose proof (kv_Get_Delete cs (nodeKeyKeyFor id)) as Hdel1.
  destruct (kv_Delete [nodeKeyKeyFor id] cs) as [cs' [e|]]; [done|].
  pose proof (kv_Get_Delete es id) as Hdel2.
  destruct (kv_Delete [id] es) as [es' [e|]]; [done|]. intros [= <-]. cbn [fst snd] in *.
  cbn [ConfigStore EnrollmentStore with_config with_enrollments]. split; intros id'.
  - destruct (Hdel1 (nodeKeyKeyFor id') Hc eq_refl) as [_ ->]. by case_bool_decide.
  - destruct (Hdel2 id' He eq_refl) as [_ ->]. by case_bool_decide.
Qed.

(** An enrollment that was saved is read back with its node key and ends with its deletion,
    and neither touches the enrollments under other identifiers. *)
Theorem enrollment_lifecycle id munemo nk secret k k1 :
  knap_ok k → SaveEnrollment id munemo nk secret k = (k1, None) →
  NodeKey id k1 = Ok nk ∧ nk ≠ [] ∧
  (∀ id', nodeKeyKeyFor id' ≠ nodeKeyKeyFor id → NodeKey id' k1 = NodeKey id' k ∧ stored id' k1 = stored id' k) ∧
  ∀ k2, DeleteEnrollment id k1 = (k2, None) →
    NodeKey id k2 = Ok [] ∧ stored id k2 = None ∧
    ∀ id', nodeKeyKeyFor id' ≠ nodeKeyKeyFor id → NodeKey id' k2 = NodeKey id' k ∧ stored id' k2 = stored id' k.
Proof.
  intros Hok (m & _ & Hnk & Hok1 & HN1 & HS1 & _)%SaveEnrollment_spec; [|done].
  assert (Hne : ∀ id', nodeKeyKeyFor id' ≠ nodeKeyKeyFor id → id' ≠ id) by (by intros ? Hx ->).
  split_and!; [by rewrite HN1, bool_decide_true|done| |].
  - intros id' Hx. by rewrite HN1, HS1, !bool_decide_false by auto.
  - intros k2 [HN2 HS2]%DeleteEnrollment_spec; [|done]. split_and!.
    + by rewrite HN2, bool_decide_true.
    + by rewrite HS2, bool_decide_true.
    + intros id' Hx. by rewrite HN2, HS2, HN1, HS1, !bool_decide_false by auto.
Qed.

Lemma EnsureEnrollmentStored_done id k nk e cs es raw :
  ConfigStore k = Some cs → EnrollmentStore k = Some es → kv_Get cs (nodeKeyKeyFor id) = Ok (Some nk) → nk ≠ [] →
  kv_Get es id = Ok (Some raw) → unmarshalEnrollment raw = Some e → NodeKey_ e = nk →
  EnsureEnrollmentStored id k = (k, None).
Proof.
  intros Ec Ee E1 Hnk E2 E3 E4. unfold EnsureEnrollmentStored. rewrite Ec, Ee, E1. cbn [default from_option].
  destruct nk as [|x nk]; [done|]. cbn [is_empty]. rewrite E2, E3. by rewrite bool_decide_true by done.
Qed.

(** The strings an enrollment is made of are valid UTF-8, which is what JSON keeps. *)
Definition strings_utf8 (id nk : bytes) (k : knapsack) : Prop :=
  valid_utf8 id = true ∧ valid_utf8 nk = true ∧
  ∀ secret, ReadEnrollSecret k = Ok secret →
    valid_utf8 secret = true ∧ ∀ m, munemoFor [] secret = Ok m → valid_utf8 m = true.

(** [EnsureEnrollmentStored], when it succeeds, leaves an enrollment stored whose node key
    is that of the config store, does not change the node key, and has nothing left to do when
    it is called again. *)
Theorem EnsureEnrollmentStored_syncs id nk k k' :
  knap_ok k → strings_utf8 id nk k → NodeKey id k = Ok nk → EnsureEnrollmentStored id k = (k', None) →
  nk ≠ [] ∧ NodeKey id k' = Ok nk ∧ (∃ e, stored id k' = Some e ∧ NodeKey_ e = nk) ∧
  EnsureEnrollmentStored id k' = (k', None).
Proof.
  intros Hok (Hid & Hnk & Hsecret) HN. pose proof Hok as [Hc He]. revert HN.
  unfold EnsureEnrollmentStored at 1, NodeKey at 1. destruct (ConfigStore k) as [cs|] eqn:Ec; [|done].
  destruct (EnrollmentStore k) as [es|] eqn:Ee; [|done].
  destruct (kv_Get cs (nodeKeyKeyFor id)) as [[key|]| | |] eqn:Ekey; try done; intros [= <-]; cbn [default from_option Datatypes.id].
  destruct key as [|x key]; [done|]. cbn [is_empty].
  destruct (kv_Get es id) as [[raw|]| | |] eqn:Eraw; try done.
  - destruct (unmarshalEnrollment raw) as [e|] eqn:Eun; [|done].
    assert (Hst : stored id k = Some e) by (unfold stored; by rewrite Ee, Eraw).
    case_bool_decide as Hkey.
    + intros [= <-]. split; [done|]. split; [unfold NodeKey; by rewrite Ec, Ekey|].
      split; [by exists e|]. by eapply EnsureEnrollmentStored_done.
    + set (e' := MkEnrollment (EnrollmentID e) (Munemo e) (EnrollmentSecret e) (x :: key)).
      pose proof (kv_Get_Set es id (marshalEnrollment e') id He) as Hset.
      destruct (kv_Set id (marshalEnrollment e') es) as [es' [e1|]]; [done|]. intros [= <-].
      destruct (Hset eq_refl) as [_ Hget]. rewrite bool_decide_true in Hget by done. cbn [fst] in Hget.
      assert (Hround : unmarshalEnrollment (marshalEnrollment e') = Some e').
      { apply unmarshal_marshal. apply unmarshal_utf8 in Eun. unfold enrollment_utf8 in *.
        cbn [e' EnrollmentID Munemo EnrollmentSecret NodeKey_]. by decompose_Forall. }
      split; [done|]. split; [unfold NodeKey; cbn [ConfigStore with_enrollments]; by rewrite Ec, Ekey|]. split.
      * exists e'. split; [|done]. unfold stored. cbn [EnrollmentStore with_enrollments]. by rewrite Hget.
      * by eapply EnsureEnrollmentStored_done.
  - destruct (ReadEnrollSecret k) as [secret| | |] eqn:Es; [|done..].
    destruct (SaveEnrollment id [] (x :: key) secret k) as [k1 [e1|]] eqn:E; [done|]. intros [= <-].
    apply SaveEnrollment_spec in E as (m & Hm & Hne & Hok1 & HN1 & HS1 & (es' & Ees & Hes) & (cs' & Ecs)); [|done].
    destruct (Hsecret secret eq_refl) as [Hs1 Hs2].
    assert (Hround : unmarshalEnrollment (marshalEnrollment (MkEnrollment id m secret (x :: key))) =
      Some (MkEnrollment id m secret (x :: key))).
    { apply unmarshal_marshal. unfold enrollment_utf8. cbn. repeat constructor; auto. }
    specialize (HN1 id). rewrite bool_decide_true in HN1 by done. specialize (HS1 id).
    rewrite bool_decide_true, Hround in HS1 by done. split; [done|]. split; [done|]. split; [by eexists|].
    eapply (EnsureEnrollmentStored_done _ _ (x :: key)); try done.
    revert HN1. unfold NodeKey. rewrite Ecs.
    destruct (kv_Get cs' (nodeKeyKeyFor id)) as [[key'|]| | |]; cbn; congruence.
Qed.

(** ** What the tracker does to the config store *)
Definition has (key v : bytes) (k : knapsack) : Prop :=
  knap_ok k ∧ ∃ s, ConfigStore k = Some s ∧ kv_Get s key = Ok (Some v).

Lemma kv_Set_other s k v key x :
  kv_ok s → k ≠ key → kv_Get s k = Ok (Some x) →
  kv_ok (kv_Set key v s).1 ∧ kv_Get (kv_Set key v s).1 k = Ok (Some x).
Proof.
  intros Hok Hne Hget. destruct (kv_Set_spec key v s Hok) as [Hok' Hv]. split; [done|].
  rewrite kv_Get_reliable, Hv by done. rewrite kv_Get_reliable in Hget by done.
  destruct (kv_Set key v s).2; [done|]. by rewrite lookup_insert_ne.
Qed.

Lemma kv_Delete_other s k key x :
  kv_ok s → k ≠ key → kv_Get s k = Ok (Some x) →
  kv_ok (kv_Delete [key] s).1 ∧ kv_Get (kv_Delete [key] s).1 k = Ok (Some x).
Proof.
  intros Hok Hne Hget. destruct (kv_Delete_spec [key] s Hok) as [Hok' Hv]. split; [done|].
  rewrite kv_Get_reliable, Hv by done. rewrite kv_Get_reliable in Hget by done.
  destruct (kv_Delete [key] s).2; [done|]. cbn [foldl]. unfold flip. by rewrite lookup_delete_ne.
Qed.

Lemma has_config key v k s :
  has key v k → kv_ok s → kv_Get s key = Ok (Some v) → has key v (with_config k s).
Proof. intros [[Hc He] _] Hs Hg. split; [by split|]. by exists s. Qed.

Lemma has_enrollments key v k s : has key v k → kv_ok s → has key v (with_enrollments k s).
Proof. intros [[Hc He] Hv] Hs. split; [by split|]. exact Hv. Qed.

(** Setting or deleting in either store *)
Lemma has_Set_config key v k id x s :
  has key v k → key ≠ id → ConfigStore k = Some s → has key v (with_config k (kv_Set id x s).1).
Proof.
  intros Hh Hne Es. pose proof Hh as [[Hc _] (s' & Es' & Hg)]. rewrite Es in Es'. injection Es' as <-.
  rewrite Es in Hc. destruct (kv_Set_other s key x id v Hc Hne Hg). by apply has_config.
Qed.

Lemma has_Delete_config key v k id s :
  has key v k → key ≠ id → ConfigStore k = Some s → has key v (with_config k (kv_Delete [id] s).1).
Proof.
  intros Hh Hne Es. pose proof Hh as [[Hc _] (s' & Es' & Hg)]. rewrite Es in Es'. injection Es' as <-.
  rewrite Es in Hc. destruct (kv_Delete_other s key id v Hc Hne Hg). by apply has_config.
Qed.

Lemma enrollments_ok k s : knap_ok k → EnrollmentStore k = Some s → kv_ok s.
Proof. intros [_ He] Es. by rewrite Es in He. Qed.

Lemma has_SaveEnrollment key v id munemo nk secret k :
  has key v k → key ≠ nodeKeyKeyFor id → has key v (SaveEnrollment id munemo nk secret k).1.
Proof.
  intros Hh Hne. unfold SaveEnrollment. destruct (ConfigStore k) as [cs|] eqn:Ec; [|done].
  destruct (EnrollmentStore k) as [es|] eqn:Ee; [|done].
  destruct (is_empty munemo && is_empty secret); [done|]. destruct (is_empty nk); [done|].
  destruct (munemoFor munemo secret) as [m| | |]; try done.
  pose proof (has_Set_config key v k _ nk cs Hh Hne Ec) as H1.
  destruct (kv_Set (nodeKeyKeyFor id) nk cs) as [cs' [e|]]; [done|]. cbn [fst] in H1.
  pose proof (kv_Set_spec id (marshalEnrollment (MkEnrollment id m secret nk)) es (enrollments_ok _ _ (proj1 Hh) Ee)) as [H2 _].
  destruct (kv_Set id _ es) as [es' [e|]]; by apply has_enrollments.
Qed.

Lemma has_DeleteEnrollment key v id k :
  has key v k → key ≠ nodeKeyKeyFor id → has key v (DeleteEnrollment id k).1.
Proof.
  intros Hh Hne. unfold DeleteEnrollment. destruct (ConfigStore k) as [cs|] eqn:Ec; [|done].
  destruct (EnrollmentStore k) as [es|] eqn:Ee; [|done].
  pose proof (has_Delete_config key v k _ cs Hh Hne Ec) as H1.
  destruct (kv_Delete [nodeKeyKeyFor id] cs) as [cs' [e|]]; [done|]. cbn [fst] in H1.
  pose proof (kv_Delete_spec [id] es (enrollments_ok _ _ (proj1 Hh) Ee)) as [H2 _].
  destruct (kv_Delete [id] es) as [es' [e|]]; by apply has_enrollments.
Qed.

Lemma has_EnsureEnrollmentStored key v id k :
  has key v k → key ≠ nodeKeyKeyFor id → has key v (EnsureEnrollmentStored id k).1.
Proof.
  intros Hh Hne. unfold EnsureEnrollmentStored. destruct (ConfigStore k) as [cs|] eqn:Ec; [|done].
  destruct (EnrollmentStore k) as [es|] eqn:Ee; [|done].
  destruct (kv_Get cs (nodeKeyKeyFor id)) as [raw| | |]; try done. destruct (is_empty (default [] raw)); [done|].
  destruct (kv_Get es id) as [[raw'|]| | |]; try done.
  - destruct (unmarshalEnrollment raw') as [e|]; [|done]. destruct (bool_decide _); [done|].
    pose proof (kv_Set_spec id (marshalEnrollment (MkEnrollment (EnrollmentID e) (Munemo e) (EnrollmentSecret e) (default [] raw)))
      es (enrollments_ok _ _ (proj1 Hh) Ee)) as [H2 _].
    destruct (kv_Set id _ es) as [es' [e'|]]; by apply has_enrollments.
  - destruct (ReadEnrollSecret k) as [secret| | |]; try done.
    pose proof (has_SaveEnrollment key v id [] (default [] raw) secret k Hh Hne) as H1.
    by destruct (SaveEnrollment id [] (default [] raw) secret k) as [k' [e|]].
Qed.

Lemma has_PersistAgentIngesterKeys key v b x y z k : has key v k → has key v (PersistAgentIngesterKeys b x y z k).1.
Proof.
  intros Hh. unfold PersistAgentIngesterKeys. destruct (TokenStore k); [|done]. by destruct b.
Qed.

(** When the stores accept it, an enrollment is saved. *)
Lemma SaveEnrollment_succeeds id nk secret m k cs es :
  knap_ok k → ConfigStore k = Some cs → EnrollmentStore k = Some es → id ≠ [] → nk ≠ [] → secret ≠ [] →
  munemoFor [] secret = Ok m → (SaveEnrollment id [] nk secret k).2 = None.
Proof.
  intros [Hc He] Ec Ee Hid Hnk Hs Hm. unfold SaveEnrollment. rewrite Ec in Hc |- *. rewrite Ee in He |- *.
  destruct secret as [|x secret]; [done|]. destruct nk as [|y nk]; [done|]. cbn [is_empty andb]. rewrite Hm.
  assert (Hk : nodeKeyKeyFor id ≠ []) by (unfold nodeKeyKeyFor, KeyByIdentifier; by case_if).
  pose proof (kv_Set_reliable (nodeKeyKeyFor id) (y :: nk) cs Hc Hk) as H1.
  destruct (kv_Set (nodeKeyKeyFor id) (y :: nk) cs) as [cs' [e|]]; [done|].
  pose proof (kv_Set_reliable id (marshalEnrollment (MkEnrollment id m (x :: secret) (y :: nk))) es He Hid) as H2.
  by destruct (kv_Set id _ es) as [es' [e|]].
Qed.

Lemma DeleteEnrollment_stores id k k' :
  knap_ok k → DeleteEnrollment id k = (k', None) →
  knap_ok k' ∧ ReadEnrollSecret k' = ReadEnrollSecret k ∧
  ∃ cs es, ConfigStore k' = Some cs ∧ EnrollmentStore k' = Some es.
Proof.
  unfold DeleteEnrollment, knap_ok. destruct (ConfigStore k) as [cs|] eqn:Ec; [|done].
  destruct (EnrollmentStore k) as [es|] eqn:Ee; [|done]. intros [Hc He].
  pose proof (kv_Delete_spec [nodeKeyKeyFor id] cs Hc) as [H1 _].
  destruct (kv_Delete [nodeKeyKeyFor id] cs) as [cs' [e|]]; [done|].
  pose proof (kv_Delete_spec [id] es He) as [H2 _].
  destruct (kv_Delete [id] es) as [es' [e|]]; [done|]. intros [= <-]. split_and!; [done..|]. by eexists _, _.
Qed.
End Laws.
End Knapsack.

(** ** Witnesses *)

(** A decoder for exactly the texts [marshalEnrollment] writes *)
Definition toyField (name : string) (s : bytes) : option (bytes * bytes) :=
  match cut_prefix (json_string (bs name) ++ bs ":" ++ [x22]) s with Some s => json_unchars s | None => None end.
Arguments toyField name%_string s.

Definition toyUnmarshal (s : bytes) : option enrollment :=
  match cut_prefix (bs "{") s with None => None | Some s =>
  match toyField "registration_id" s with None => None | Some (id, s) =>
  match cut_prefix (bs ",") s with None => None | Some s =>
  match toyField "munemo" s with None => None | Some (munemo, s) =>
  match cut_prefix (bs ",") s with None => None | Some s =>
  let '(secret, s) :=
    match toyField "enrollment_secret" s with
    | Some (secret, s) => (secret, default [] (cut_prefix (bs ",") s))
    | None => ([], s)
    end in
  match toyField "node_key" s with None => None | Some (nk, s) =>
    let e := MkEnrollment id munemo secret nk in
    if forallb valid_utf8 [id; munemo; secret; nk] then Some e else None
  end end end end end end.

#[local] Instance toyLib : EnrollLib := {|
  unmarshalEnrollment := toyUnmarshal; organization _ := Ok (bs "acme")
|}.

Lemma toyField_spec name v rest :
  valid_utf8 v = true → toyField name (json_string (bs name) ++ bs ":" ++ json_string v ++ rest) = Some (v, rest).
Proof.
  intros Hv. unfold toyField, json_string at 3. cbn [app].
  assert (E : json_string (bs name) ++ bs ":" ++ x22 :: (json_chars v ++ [x22]) ++ rest =
    (json_string (bs name) ++ bs ":" ++ [x22]) ++ json_chars v ++ x22 :: rest) by (by rewrite <- !app_assoc).
  cbn [app] in E. rewrite E. rewrite cut_prefix_app. by apply json_string_roundtrip.
Qed.

#[local] Instance toyLaws : EnrollLaws.
Proof.
  split.
  - intros [id m s nk] Hu. unfold enrollment_utf8 in Hu. cbn [EnrollmentID Munemo EnrollmentSecret NodeKey_] in Hu.
    rewrite !Forall_cons in Hu. destruct Hu as (Hid & Hm & Hs & Hnk & _).
    cbn [unmarshalEnrollment toyLib]. unfold toyUnmarshal, marshalEnrollment.
    cbn [EnrollmentID Munemo EnrollmentSecret NodeKey_].
    rewrite cut_prefix_app, toyField_spec, cut_prefix_app, toyField_spec by done.
    destruct s as [|x s]; cbn [is_empty].
    + rewrite app_nil_l, cut_prefix_app.
      assert (E : toyField "enrollment_secret" (json_string (bs "node_key") ++ bs ":" ++ json_string nk ++ bs "}") = None)
        by reflexivity.
      rewrite E, toyField_spec by done. cbn [forallb]. by rewrite Hid, Hm, Hnk.
    + rewrite <- !app_assoc, cut_prefix_app, toyField_spec by done. rewrite cut_prefix_app. cbn [default from_option Datatypes.id].
      rewrite toyField_spec by done. cbn [forallb]. by rewrite Hid, Hm, Hs, Hnk.
  - intros raw e. cbn [unmarshalEnrollment toyLib]. unfold toyUnmarshal.
    repeat match goal with |- context [match ?x with _ => _ end] => destruct x eqn:? end; try done; intros [= <-].
    all: unfold enrollment_utf8; cbn [EnrollmentID Munemo EnrollmentSecret NodeKey_]; cbn [forallb] in *; zbool; by repeat constructor.
Qed.
Definition toyKnapsack : @knapsack InMemory.store :=
  Knapsack (Some InMemory.NewStore) (Some InMemory.NewStore) None (bs "secret") NoFile.

Lemma toyKnapsack_ok : knap_ok toyKnapsack.
Proof. split; exact InMemory.wf_NewStore. Qed.

Lemma SplitKey_KeyByIdentifier_witness :
  SplitKey (KeyByIdentifier (bs "nodeKey") IdentifierTypeEnrollment (bs "a:b")) =
    (bs "nodeKey", Some (bs "registration"), bs "a:b").
Proof.
  rewrite SplitKey_KeyByIdentifier; [reflexivity|refine (bool_decide_unpack _ _); vm_compute; exact I..].
Defined.

Lemma enrollment_lifecycle_witness :
  let k1 := (SaveEnrollment (bs "x") (bs "acme") (bs "key") [] toyKnapsack).1 in
  NodeKey (bs "x") k1 = Ok (bs "key") ∧ NodeKey DefaultEnrollmentID k1 = Ok [] ∧
  NodeKey (bs "x") (DeleteEnrollment (bs "x") k1).1 = Ok [].
Proof.
  destruct (enrollment_lifecycle (bs "x") (bs "acme") (bs "key") [] toyKnapsack _ toyKnapsack_ok eq_refl)
    as (H1 & _ & H2 & H3).
  split; [exact H1|]. split; [exact (proj1 (H2 DefaultEnrollmentID ltac:(vm_compute; discriminate)))|].
  exact (proj1 (H3 _ eq_refl)).
Defined.

(** A node key of an older launcher, without an enrollment *)
Definition oldKnapsack : @knapsack InMemory.store :=
  with_config toyKnapsack (InMemory.Set_ (bs "nodeKey") (bs "key") InMemory.NewStore).1.

Lemma EnsureEnrollmentStored_syncs_witness :
  let k' := (EnsureEnrollmentStored DefaultEnrollmentID oldKnapsack).1 in
  stored DefaultEnrollmentID oldKnapsack = None ∧
  (∃ e, stored DefaultEnrollmentID k' = Some e ∧ NodeKey_ e = bs "key") ∧
  EnsureEnrollmentStored DefaultEnrollmentID k' = (k', None).
Proof.
  split; [reflexivity|].
  destruct (EnsureEnrollmentStored_syncs DefaultEnrollmentID (bs "key") oldKnapsack
    (EnsureEnrollmentStored DefaultEnrollmentID oldKnapsack).1) as (_ & _ & He & Hi); [| |reflexivity..|by split].
  - split; [apply (InMemory.wf_Set (bs "nodeKey")), InMemory.wf_NewStore|exact InMemory.wf_NewStore].
  - split; [done|]. split; [done|]. intros secret [= <-]. split; [done|]. by intros m [= <-].
Defined.

End Enrollment.
