(* ===== verification/Reset.v ===== *)
(** * ee/agent/reset.go: wiping the database when the hardware changes

    The launcher's database may be cloned with the disk it is on.  At startup the serial
    number and the hardware UUID that osquery reports are compared with the stored ones; when both
    changed (on Windows: the machine GUID) the stores are wiped and a record of the old
    installation is kept.  The stores are behind the interfaces of [KVStore]; osquery,
    crypto/x509 and the reading of JSON are parameters. *)
From S2P Require Import Prelude Json Strings JsonRead KVStore Enrollment.
Set Warnings "-clear-no-such-hyp".

(** What is called and not modelled *)
Record dbResetRecord := MkRecord {
  NodeKey : bytes;
  PubKeys : option (list (option bytes));
  Serial : bytes;
  HardwareUUID : bytes;
  Munemo : bytes;
  DeviceID : bytes;
  RemoteIP : bytes;
  TombstoneID : bytes;
  ResetTimestamp : Z;
  ResetReason : bytes
}.

Class ResetLib := {
  unmarshalRecords : bytes → option (list dbResetRecord);
  unmarshalRows : bytes → option (list (gmap bytes bytes));
  (* x509.ParseECPrivateKey and x509.MarshalPKIXPublicKey *)
  eccKey : Type;
  ParseECPrivateKey : bytes → option eccKey;
  MarshalPublic : eccKey → option bytes;
  (* osquery, run on a query: what it prints, and its error *)
  NewOsqueryProcess : bytes → option err;
  RunSql : bytes → bytes * option err
}.

Module Reset.

(** [json.Marshal] of the records *)
Definition json_nullable (b : option bytes) : bytes :=
  match b with None => bs "null" | Some b => json_bytes b end.

Definition json_pubKeys (l : option (list (option bytes))) : bytes :=
  match l with None => bs "null" | Some l => json_array (map json_nullable l) end.

Definition json_field (name : string) (v : bytes) : bytes := json_string (bs name) ++ bs ":" ++ v.

Definition marshalRecord (r : dbResetRecord) : bytes :=
  bs "{" ++ join (bs ",") [
    json_field "node_key" (json_string (NodeKey r));
    json_field "pub_keys" (json_pubKeys (PubKeys r));
    json_field "serial" (json_string (Serial r));
    json_field "hardware_uuid" (json_string (HardwareUUID r));
    json_field "munemo" (json_string (Munemo r));
    json_field "device_id" (json_string (DeviceID r));
    json_field "remote_ip" (json_string (RemoteIP r));
    json_field "tombstone_id" (json_string (TombstoneID r));
    json_field "reset_timestamp" (itoa (ResetTimestamp r));
    json_field "reset_reason" (json_string (ResetReason r))
  ] ++ bs "}".

Definition marshalRecords (l : list dbResetRecord) : bytes := json_array (map marshalRecord l).

Definition record_utf8 (r : dbResetRecord) : Prop :=
  Forall (λ s, valid_utf8 s = true)
    [NodeKey r; Serial r; HardwareUUID r; Munemo r; DeviceID r; RemoteIP r; TombstoneID r; ResetReason r].

End Reset.

Class ResetLaws `{ResetLib} := {
  unmarshal_records l : Forall Reset.record_utf8 l → unmarshalRecords (Reset.marshalRecords l) = Some l
}.

Module HardwareChange.
Import Reset.

Definition hostDataKeySerial : bytes := bs "serial".
Definition hostDataKeyHardwareUuid : bytes := bs "hardware_uuid".
Definition hostDataKeyMunemo : bytes := bs "munemo".
Definition hostDataKeyResetRecords : bytes := bs "reset_records".
Definition hostDataKeyMachineGuid : bytes := bs "machine_guid".

Definition ErrNewHardwareDetected : err :=
  Errorf "need to reload launcher: hardware change detected and database wiped".
Definition resetReasonNewHardwareOrEnrollmentDetected : bytes := bs "launcher detected new hardware or enrollment".
Definition UninitializedStorageError : err := Errorf "storage is uninitialized in knapsack".

(** Names of stores (ee/agent/storage/stores.go) *)
Definition ConfigStore : bytes := bs "config".
Definition PersistentHostDataStore : bytes := bs "persistent_host_data".
Definition ServerProvidedDataStore : bytes := bs "server_provided_data".
Definition EnrollmentStore : bytes := bs "registrations".
Definition TokenStore : bytes := bs "token_store".

Section Detector.
Context {S : Type} `{KV : KVStore S, !KVWipe S} `{L : ResetLib} `{EL : Enrollment.EnrollLib}.

Abbreviation stores := (gmap bytes S).

(** The surroundings of a check: the operating system, the readings, the flag, the clock, and the order in which Go
    happens to range over the stores *)
Record surroundings := Surroundings {
  GOOS : bytes;
  getSerialAndHardwareUUID : res (bytes * bytes);
  currentMachineGuid : res bytes;
  ResetOnHardwareChangeEnabled : bool;
  now : Z;
  storeOrder : list bytes
}.

(** A call on a store that is not there is a call on a nil interface. *)
Definition getKVStore (storeType : bytes) (k : stores) : res S :=
  match k !! storeType with Some s => Ok s | None => Panic end.

Definition Get (storeType key : bytes) (k : stores) : res (option bytes) :=
  s ← getKVStore storeType k; kv_Get s key.

Definition Set_ (storeType key value : bytes) (k : stores) : res (stores * option err) :=
  s ← getKVStore storeType k;
  let '(s', e) := kv_Set key value s in Ok (<[storeType := s']> k, e).

(** An error of a read is logged; what it returned is nil. *)
Definition logged {A} (m : res (option A)) : res (option A) :=
  match m with Err _ => Ok None | r => r end.

Definition valueChanged (currentValue dataKey : bytes) (k : stores) : res (stores * bool) :=
  match Get PersistentHostDataStore dataKey k with
  | Panic => Panic
  | NoFuel => NoFuel
  | Err _ => Ok (k, false)
  | Ok storedValue =>
      if is_empty (default [] storedValue) && negb (is_empty currentValue) then
        '(k, _) ← Set_ PersistentHostDataStore dataKey currentValue k;
        Ok (k, false)
      else
        match storedValue with
        | Some v => Ok (k, negb (bool_decide (currentValue = v)))
        | None => Ok (k, false)
        end
  end.

(** The enrollments are read as the knapsack does. *)
Definition EnrollmentIDs : list bytes := [Enrollment.DefaultEnrollmentID].

Definition Enrollments (k : stores) : res (list Enrollment.enrollment) :=
  Enrollment.Enrollments (Enrollment.Knapsack (k !! ConfigStore) (k !! EnrollmentStore) (k !! TokenStore) []
    Enrollment.NoFile).

Definition currentMunemo (k : stores) : res bytes :=
  enrollments ← wrap "getting enrollments from knapsack: %w" (Enrollments k);
  if is_empty enrollments then Err (Errorf "no enrollments in knapsack")
  else
    match List.find (λ e, bool_decide (Enrollment.EnrollmentID e = Enrollment.DefaultEnrollmentID)) enrollments with
    | Some e => Ok (Enrollment.Munemo e)
    | None => Err (Errorf "no enrollment found for `%s` enrollment ID, cannot find munemo")
    end.

Definition getLocalPubKey (k : stores) : res bytes :=
  localEccKeyRaw ← wrap "getting raw key from config store: %w" (Get ConfigStore (bs "localEccKey") k);
  match ParseECPrivateKey (default [] localEccKeyRaw) with
  | None => Err (Errorf "parsing key: %w")
  | Some localEccKey =>
      match MarshalPublic localEccKey with
      | None => Err (Errorf "marshalling pubkey: %w")
      | Some pubKeyBytes => Ok pubKeyBytes
      end
  end.

Definition GetResetRecords (k : stores) : res (list dbResetRecord) :=
  match k !! PersistentHostDataStore with
  | None => Err UninitializedStorageError
  | Some s =>
      resetRecordsRaw ← kv_Get s hostDataKeyResetRecords;
      let resetRecordsRaw := default [] resetRecordsRaw in
      if is_empty resetRecordsRaw then Ok []
      else
        match unmarshalRecords resetRecordsRaw with
        | Some resetRecords => Ok resetRecords
        | None => Err (Errorf "json.Unmarshal")
        end
  end.

(** The node keys of the enrollments that have one to read *)
Fixpoint nodeKeys (enrollmentIds : list bytes) (k : stores) : res (list bytes) :=
  match enrollmentIds with
  | [] => Ok []
  | enrollmentId :: ids =>
      match Get ConfigStore (Enrollment.nodeKeyKeyFor enrollmentId) k with
      | Ok nodeKey => rest ← nodeKeys ids k; Ok (default [] nodeKey :: rest)
      | Err _ => nodeKeys ids k
      | Panic => Panic
      | NoFuel => NoFuel
      end
  end.

Definition prepareDatabaseResetRecords (resetReason : bytes) (e : surroundings) (k : stores) : res bytes :=
  keys ← nodeKeys EnrollmentIDs k;
  localPubKey ← logged (pub ← getLocalPubKey k; Ok (Some pub));
  serial ← logged (Get PersistentHostDataStore hostDataKeySerial k);
  hardwareUuid ← logged (Get PersistentHostDataStore hostDataKeyHardwareUuid k);
  munemo ← logged (Get PersistentHostDataStore hostDataKeyMunemo k);
  deviceId ← logged (Get ServerProvidedDataStore (bs "device_id") k);
  remoteIp ← logged (Get ServerProvidedDataStore (bs "remote_ip") k);
  tombstoneId ← logged (Get ServerProvidedDataStore (bs "tombstone_id") k);
  let dataToStore :=
    MkRecord (join (bs ",") keys) (Some [localPubKey]) (default [] serial) (default [] hardwareUuid)
      (default [] munemo) (default [] deviceId) (default [] remoteIp) (default [] tombstoneId) (now e) resetReason in
  previousHostData ← wrap "getting previous host data from store: %w" (GetResetRecords k);
  Ok (marshalRecords (previousHostData ++ [dataToStore])).

Fixpoint wipe_loop (order : list bytes) (k : stores) : stores * option err :=
  match order with
  | [] => (k, None)
  | storeName :: order' =>
      match k !! storeName with
      | None => wipe_loop order' k
      | Some store =>
          match kv_DeleteAll store with
          | (store', Some e) => (<[storeName := store']> k, Some (Wrapf "deleting keys in store %s: %w" e))
          | (store', None) => wipe_loop order' (<[storeName := store']> k)
          end
      end
  end.

Definition wipeDatabase (e : surroundings) (k : stores) : stores * option err := wipe_loop (storeOrder e) k.

Definition ResetDatabase (resetReason : bytes) (e : surroundings) (k : stores) : res (stores * option err) :=
  match prepareDatabaseResetRecords resetReason e k with
  | Err er => Ok (k, Some er)
  | Panic => Panic
  | NoFuel => NoFuel
  | Ok backup =>
      match wipeDatabase e k with
      | (k, Some er) => Ok (k, Some er)
      | (k, None) => Set_ PersistentHostDataStore hostDataKeyResetRecords backup k
      end
  end.

(** The outcome of a reading: the value (blank after an error) and whether it changed *)
Definition checkReading (reading : res bytes) (dataKey : bytes) (k : stores) : res (stores * (bytes * bool)) :=
  match reading with
  | Err _ => Ok (k, ([], false))
  | Panic => Panic
  | NoFuel => NoFuel
  | Ok v => '(k, changed) ← valueChanged v dataKey k; Ok (k, (v, changed))
  end.

Definition setIf (cond : bool) (dataKey value : bytes) (k : stores) : res stores :=
  if cond then '(k, _) ← Set_ PersistentHostDataStore dataKey value k; Ok k else Ok k.

(** What the check reads, and what of it changed *)
Record readings := Readings {
  currentSerial : bytes; serialChanged : bool;
  currentHardwareUUID : bytes; hardwareUUIDChanged : bool;
  machineGuid : bytes; machineGuidChanged : bool;
  currentTenantMunemo : bytes; munemoChanged : bool
}.

Definition readSerial (e : surroundings) : res bytes := p ← getSerialAndHardwareUUID e; Ok (fst p).
Definition readHardwareUUID (e : surroundings) : res bytes := p ← getSerialAndHardwareUUID e; Ok (snd p).

Definition collectReadings (e : surroundings) (k : stores) : res (stores * readings) :=
  '(k, (serial, sc)) ← checkReading (readSerial e) hostDataKeySerial k;
  '(k, (uuid, uc)) ← checkReading (readHardwareUUID e) hostDataKeyHardwareUuid k;
  '(k, (guid, gc)) ← checkReading (currentMachineGuid e) hostDataKeyMachineGuid k;
  '(k, (munemo, mc)) ← checkReading (currentMunemo k) hostDataKeyMunemo k;
  Ok (k, Readings serial sc uuid uc guid gc munemo mc).

Definition remediationRequired (e : surroundings) (r : readings) : bool :=
  if bool_decide (GOOS e = bs "windows") then machineGuidChanged r else serialChanged r && hardwareUUIDChanged r.

(** What is stored for future checks *)
Definition storeReadings (r : readings) (remediationOccurred : bool) (k : stores) : res stores :=
  k ← setIf (serialChanged r || remediationOccurred) hostDataKeySerial (currentSerial r) k;
  k ← setIf (hardwareUUIDChanged r || remediationOccurred) hostDataKeyHardwareUuid (currentHardwareUUID r) k;
  k ← setIf (munemoChanged r || remediationOccurred) hostDataKeyMunemo (currentTenantMunemo r) k;
  setIf (machineGuidChanged r || remediationOccurred) hostDataKeyMachineGuid (machineGuid r) k.

Definition detectAndRemediateHardwareChange (e : surroundings) (k : stores) : res (stores * bool) :=
  '(k, r) ← collectReadings e k;
  '(k, remediationOccurred) ←
    (if remediationRequired e r && ResetOnHardwareChangeEnabled e then
       '(k, er) ← ResetDatabase resetReasonNewHardwareOrEnrollmentDetected e k;
       Ok (k, bool_decide (er = None))
     else Ok (k, false));
  k ← storeReadings r remediationOccurred k;
  Ok (k, remediationOccurred).

(** [Execute]: with the error it ends with; without one it waits for the interrupt *)
Definition Execute (e : surroundings) (k : stores) : res (stores * option err) :=
  '(k, remediationOccurred) ← detectAndRemediateHardwareChange e k;
  Ok (k, if remediationOccurred : bool then Some ErrNewHardwareDetected else None).

(** *** The readings *)
Definition hardwareQuery : bytes := bs "
	SELECT
		system_info.hardware_serial,
		system_info.uuid AS hardware_uuid
	FROM
		system_info;
".

Definition currentSerialAndHardwareUUID (osqPath : bytes) : res (bytes * bytes) :=
  if is_empty osqPath then Err (Errorf "could not get osqueryd path from knapsack")
  else
    match NewOsqueryProcess osqPath with
    | Some e => Err (Wrapf "could not create osquery process to determine hardware UUID or serial: %w" e)
    | None =>
        match RunSql hardwareQuery with
        | (_, Some e) => Err (Wrapf "querying hardware UUID and serial returned error: `%w`" e)
        | (out, None) =>
            match unmarshalRows out with
            | None => Err (Errorf "unmarshalling response: %w")
            | Some [] => Err (Errorf "no rows returned")
            | Some (row :: _) =>
                match row !! bs "hardware_serial" with
                | None => Err (Errorf "hardware_serial missing from results")
                | Some serial =>
                    match row !! bs "hardware_uuid" with
                    | None => Err (Errorf "hardware_uuid missing from results")
                    | Some hardwareUUID => Ok (serial, hardwareUUID)
                    end
                end
            end
        end
    end.

(** ** What the steps do to the stores *)
Context `{!KVLaws S, !KVWipeLaws S, !KVHealthy S} {RL : ResetLaws}.

Definition hostView (k : stores) : gmap bytes bytes := from_option kv_view ∅ (k !! PersistentHostDataStore).

(** The stores are in order, and those that are used exist. *)
Definition knapsack_ok (k : stores) : Prop :=
  (∀ n s, k !! n = Some s → kv_ok s) ∧
  ∀ n, n ∈ [ConfigStore; PersistentHostDataStore; ServerProvidedDataStore] → is_Some (k !! n).

Definition others (k k' : stores) : Prop := ∀ n, n ≠ PersistentHostDataStore → k' !! n = k !! n.

Lemma others_refl k : others k k.
Proof. done. Qed.

Lemma others_trans k1 k2 k3 : others k1 k2 → others k2 k3 → others k1 k3.
Proof. intros H1 H2 n Hn. by rewrite H2, H1. Qed.

Lemma Get_ok n key k : knapsack_ok k → n ∈ [ConfigStore; PersistentHostDataStore; ServerProvidedDataStore] →
  ∃ s, k !! n = Some s ∧ Get n key k = Ok (kv_view s !! key).
Proof.
  intros [Hok Hs] Hn. destruct (Hs n Hn) as [s E]. exists s. split; [done|].
  unfold Get, getKVStore. rewrite E. cbn. apply kv_Get_healthy. by eapply Hok.
Qed.

Lemma Get_host key k : knapsack_ok k → Get PersistentHostDataStore key k = Ok (hostView k !! key).
Proof.
  intros Hk. destruct (Get_ok PersistentHostDataStore key k Hk) as (s & E & ->); [by do 2 constructor|].
  unfold hostView. by rewrite E.
Qed.

Lemma all_ok_insert (k : stores) n s :
  (∀ m s', k !! m = Some s' → kv_ok s') → kv_ok s → ∀ m s', <[n := s]> k !! m = Some s' → kv_ok s'.
Proof.
  intros Hok Hs m s' Hm. destruct (decide (m = n)) as [->|Hn]; [rewrite lookup_insert_eq in Hm; by simplify_eq|].
  rewrite lookup_insert_ne in Hm by done. by eapply Hok.
Qed.

Lemma is_Some_insert (k : stores) n s m : is_Some (k !! m) → is_Some (<[n := s]> k !! m).
Proof. intros Hm. destruct (decide (m = n)) as [->|Hn]; [by rewrite lookup_insert_eq|by rewrite lookup_insert_ne]. Qed.

Lemma Set_host key v k : knapsack_ok k → ∃ k' er,
  Set_ PersistentHostDataStore key v k = Ok (k', er) ∧ knapsack_ok k' ∧ others k k' ∧
  hostView k' = match er with None => <[key := v]> (hostView k) | Some _ => hostView k end ∧
  (kv_fits key v → er = None).
Proof.
  intros [Hok Hs]. destruct (Hs PersistentHostDataStore) as [s E]; [by do 2 constructor|].
  pose proof (Hok _ _ E) as Hs'. destruct (kv_Set_spec key v s Hs') as [Hok' Hv].
  pose proof (kv_Set_healthy key v s Hs') as Hf.
  unfold Set_, getKVStore. rewrite E. cbn. destruct (kv_Set key v s) as [s' er]. cbn [fst snd] in *.
  exists (<[PersistentHostDataStore := s']> k), er. split; [done|].
  split; [split|split; [|split]].
  - by apply all_ok_insert.
  - intros n Hn. by apply is_Some_insert, Hs.
  - intros n Hn. by rewrite lookup_insert_ne.
  - unfold hostView. rewrite lookup_insert_eq, E. by destruct er.
  - done.
Qed.

(** A value that is stored already only changes when it differs; one that is not is stored. *)
Definition differs (stored : option bytes) (v : bytes) : Prop := ∃ old, stored = Some old ∧ old ≠ [] ∧ old ≠ v.

(** What a check before the reset does: it fills in what was blank *)
Definition surveyed (k k' : stores) : Prop :=
  knapsack_ok k' ∧ others k k' ∧
  (∀ key old, old ≠ [] → hostView k !! key = Some old → hostView k' !! key = Some old) ∧
  hostView k' !! hostDataKeyResetRecords = hostView k !! hostDataKeyResetRecords.

Lemma surveyed_trans k1 k2 k3 : surveyed k1 k2 → surveyed k2 k3 → surveyed k1 k3.
Proof.
  intros (A1 & A2 & A3 & A4) (B1 & B2 & B3 & B4). split; [done|]. split; [by eapply others_trans|].
  split; [|by rewrite B4]. eauto.
Qed.

Lemma valueChanged_spec v key k :
  knapsack_ok k → key ≠ hostDataKeyResetRecords → ∃ k' b,
    valueChanged v key k = Ok (k', b) ∧ surveyed k k' ∧
    (∀ key', key' ≠ key → hostView k' !! key' = hostView k !! key') ∧
    (b = true ↔ differs (hostView k !! key) v) ∧
    (b = false → kv_fits key v → ¬ differs (hostView k' !! key) v).
Proof.
  intros Hk Hr. unfold valueChanged. rewrite Get_host by done.
  destruct (is_empty (default [] (hostView k !! key)) && negb (is_empty v)) eqn:Eb; zbool.
  - destruct (Set_host key v k Hk) as (k' & er & -> & Hk' & Ho & Hv & Hf). cbn.
    exists k', false. split; [done|]. split; [split; [done|split; [done|]]|split; [|split]].
    + split.
      * intros key' old Hold Hl. rewrite Hv. destruct er; [done|]. destruct (decide (key' = key)) as [->|Hne];
          [rewrite Hl in *; by destruct old|by rewrite lookup_insert_ne].
      * rewrite Hv. destruct er; [done|]. by rewrite lookup_insert_ne.
    + intros key' Hne. rewrite Hv. destruct er; [done|]. by rewrite lookup_insert_ne.
    + split; [done|]. intros (old & Hl & Hold & _). rewrite Hl in *. by destruct old.
    + intros _ Hfit (old & Hl & _ & Hne). rewrite Hv, (Hf Hfit), lookup_insert_eq in Hl. by simplify_eq.
  - exists k, match hostView k !! key with Some v0 => negb (bool_decide (v = v0)) | None => false end.
    split; [by destruct (hostView k !! key)|].
    assert (Hd : match hostView k !! key with Some v0 => negb (bool_decide (v = v0)) | None => false end = true
                 ↔ differs (hostView k !! key) v).
    { destruct (hostView k !! key) as [old|]; [|by split; [|intros (? & ? & _)]]. cbn in Eb.
      rewrite negb_true_iff, bool_decide_eq_false. split.
      - intros Hne. exists old. split; [done|]. split; [|done]. intros ->. by destruct v.
      - intros (o & [= <-] & _ & Hne). done. }
    split; [done|]. split; [done|]. split; [exact Hd|].
    intros Hb _ Hdiff. apply Hd in Hdiff. congruence.
Qed.

Lemma surveyed_refl k : knapsack_ok k → surveyed k k.
Proof. by intros H. Qed.

(** One reading *)
Definition reads (reading : res bytes) (key : bytes) (k k' : stores) (v : bytes) (b : bool) : Prop :=
  surveyed k k' ∧
  (∀ key', key' ≠ key → hostView k' !! key' = hostView k !! key') ∧
  (reading = Ok v ∨ ∃ er, reading = Err er ∧ v = [] ∧ b = false) ∧
  (b = true ↔ ∃ v, reading = Ok v ∧ differs (hostView k !! key) v) ∧
  (b = false → ∀ v, reading = Ok v → kv_fits key v → ¬ differs (hostView k' !! key) v).

Lemma checkReading_spec reading key k :
  knapsack_ok k → key ≠ hostDataKeyResetRecords → returns reading → ∃ k' v b,
    checkReading reading key k = Ok (k', (v, b)) ∧ reads reading key k k' v b.
Proof.
  intros Hk Hr Hret. destruct reading as [v|er| |]; [| |by destruct Hret..]; unfold checkReading.
  - destruct (valueChanged_spec v key k Hk Hr) as (k' & b & -> & Hs & Ho & Hb & Hset). cbn.
    exists k', v, b. split; [done|]. split; [done|]. split; [done|]. split; [by left|]. split; [|intros E v' [= <-]; by apply Hset].
    rewrite Hb. split; [eauto|by intros (? & [= <-] & ?)].
  - exists k, [], false. split; [done|]. split; [by apply surveyed_refl|]. split; [done|].
    split; [right; by eexists|]. split; [|done]. split; [done|by intros (? & ? & ?)].
Qed.

Lemma currentMunemo_returns k : returns (currentMunemo k).
Proof.
  unfold currentMunemo, Enrollments, Enrollment.Enrollments. cbn [Enrollment.EnrollmentStore]. destruct (k !! EnrollmentStore) as [s|]; [|exact I].
  destruct (kv_ForEach _ s []) as [l [er|]]; [exact I|]. cbn. destruct (is_empty l); [exact I|].
  destruct (List.find _ _); exact I.
Qed.

(** *** The whole survey *)
Definition readable (e : surroundings) : Prop :=
  returns (getSerialAndHardwareUUID e) ∧ returns (currentMachineGuid e).

Definition serialDiffers (e : surroundings) (k : stores) : Prop :=
  ∃ s u, getSerialAndHardwareUUID e = Ok (s, u) ∧ differs (hostView k !! hostDataKeySerial) s.
Definition hardwareUUIDDiffers (e : surroundings) (k : stores) : Prop :=
  ∃ s u, getSerialAndHardwareUUID e = Ok (s, u) ∧ differs (hostView k !! hostDataKeyHardwareUuid) u.
Definition machineGuidDiffers (e : surroundings) (k : stores) : Prop :=
  ∃ g, currentMachineGuid e = Ok g ∧ differs (hostView k !! hostDataKeyMachineGuid) g.

(** What counts as new hardware *)
Definition hardwareChanged (e : surroundings) (k : stores) : Prop :=
  if bool_decide (GOOS e = bs "windows") then machineGuidDiffers e k else serialDiffers e k ∧ hardwareUUIDDiffers e k.

Record collected (e : surroundings) (k k1 : stores) (r : readings) : Prop := {
  c_surveyed : surveyed k k1;
  c_serial : serialChanged r = true ↔ serialDiffers e k;
  c_uuid : hardwareUUIDChanged r = true ↔ hardwareUUIDDiffers e k;
  c_guid : machineGuidChanged r = true ↔ machineGuidDiffers e k;
  c_read s u : getSerialAndHardwareUUID e = Ok (s, u) → currentSerial r = s ∧ currentHardwareUUID r = u;
  c_read_guid g : currentMachineGuid e = Ok g → machineGuid r = g;
  c_settled_serial s u : serialChanged r = false → getSerialAndHardwareUUID e = Ok (s, u) →
    kv_fits hostDataKeySerial s → ¬ differs (hostView k1 !! hostDataKeySerial) s;
  c_settled_guid g : machineGuidChanged r = false → currentMachineGuid e = Ok g →
    kv_fits hostDataKeyMachineGuid g → ¬ differs (hostView k1 !! hostDataKeyMachineGuid) g
}.

Lemma collectReadings_spec e k :
  knapsack_ok k → readable e → ∃ k1 r, collectReadings e k = Ok (k1, r) ∧ collected e k k1 r.
Proof.
  intros Hk [Hs Hg]. unfold collectReadings.
  destruct (checkReading_spec (readSerial e) hostDataKeySerial k Hk)
    as (k1 & s & sc & -> & Hs1 & Ho1 & Hv1 & Hb1 & Hn1); [done|unfold readSerial; by destruct (getSerialAndHardwareUUID e)|];
    cbn beta iota delta [mbind res_bind].
  destruct (checkReading_spec (readHardwareUUID e) hostDataKeyHardwareUuid k1)
    as (k2 & u & uc & -> & Hs2 & Ho2 & Hv2 & Hb2 & Hn2);
    [apply Hs1|done|unfold readHardwareUUID; by destruct (getSerialAndHardwareUUID e)|]; cbn beta iota delta [mbind res_bind].
  destruct (checkReading_spec (currentMachineGuid e) hostDataKeyMachineGuid k2)
    as (k3 & g & gc & -> & Hs3 & Ho3 & Hv3 & Hb3 & Hn3); [apply Hs2|done|done|]; cbn beta iota delta [mbind res_bind].
  destruct (checkReading_spec (currentMunemo k3) hostDataKeyMunemo k3)
    as (k4 & m & mc & -> & Hs4 & Ho4 & _); [apply Hs3|done|apply currentMunemo_returns|]; cbn beta iota delta [mbind res_bind].
  eexists k4, _. split; [reflexivity|]. rewrite Ho1 in Hb2 by done. rewrite Ho2, Ho1 in Hb3 by done.
  unfold readSerial, readHardwareUUID in *.
  split; cbn [serialChanged hardwareUUIDChanged machineGuidChanged currentSerial currentHardwareUUID machineGuid].
  - by do 3 (eapply surveyed_trans; [eassumption|]).
  - rewrite Hb1. unfold serialDiffers. destruct (getSerialAndHardwareUUID e) as [[s0 u0]| | |]; cbn; naive_solver.
  - rewrite Hb2. unfold hardwareUUIDDiffers. destruct (getSerialAndHardwareUUID e) as [[s0 u0]| | |]; cbn; naive_solver.
  - done.
  - intros s0 u0 E. rewrite E in *. cbn in Hv1, Hv2. by destruct Hv1 as [?|(? & ? & ?)], Hv2 as [?|(? & ? & ?)]; simplify_eq.
  - intros g0 E. rewrite E in *. by destruct Hv3 as [?|(? & ? & ?)]; simplify_eq.
  - intros s0 u0 E Er Hf. rewrite Ho4, Ho3, Ho2 by done. apply Hn1; [done| |done]. by rewrite Er.
  - intros g0 E Er Hf. rewrite Ho4 by done. by apply Hn3.
Qed.

(** *** Storing the readings *)
Lemma setIf_spec c key v k : knapsack_ok k → ∃ k',
  setIf c key v k = Ok k' ∧ knapsack_ok k' ∧ others k k' ∧
  (∀ key', key' ≠ key → hostView k' !! key' = hostView k !! key') ∧
  (c = true → kv_fits key v → hostView k' !! key = Some v) ∧
  (c = false → hostView k' !! key = hostView k !! key).
Proof.
  intros Hk. unfold setIf. destruct c; [|by exists k].
  destruct (Set_host key v k Hk) as (k' & er & -> & Hk' & Ho & Hv & Hf). exists k'. split; [done|].
  split; [done|]. split; [done|]. rewrite Hv. split; [|split; [|done]].
  - intros key' Hne. destruct er; [done|]. by rewrite lookup_insert_ne.
  - intros _ Hfit. by rewrite (Hf Hfit), lookup_insert_eq.
Qed.

Lemma storeReadings_spec r occ k : knapsack_ok k → ∃ k',
  storeReadings r occ k = Ok k' ∧ knapsack_ok k' ∧ others k k' ∧
  hostView k' !! hostDataKeyResetRecords = hostView k !! hostDataKeyResetRecords ∧
  (∀ key, hostView k !! key = hostView k' !! key ∨
     key ∈ [hostDataKeySerial; hostDataKeyHardwareUuid; hostDataKeyMunemo; hostDataKeyMachineGuid]) ∧
  (serialChanged r || occ = true → kv_fits hostDataKeySerial (currentSerial r) →
     hostView k' !! hostDataKeySerial = Some (currentSerial r)) ∧
  (serialChanged r || occ = false → hostView k' !! hostDataKeySerial = hostView k !! hostDataKeySerial) ∧
  (machineGuidChanged r || occ = true → kv_fits hostDataKeyMachineGuid (machineGuid r) →
     hostView k' !! hostDataKeyMachineGuid = Some (machineGuid r)) ∧
  (machineGuidChanged r || occ = false → hostView k' !! hostDataKeyMachineGuid = hostView k !! hostDataKeyMachineGuid).
Proof.
  intros Hk. unfold storeReadings.
  destruct (setIf_spec (serialChanged r || occ) hostDataKeySerial (currentSerial r) k Hk)
    as (k1 & -> & Hk1 & O1 & S1 & T1 & F1); cbn beta iota delta [mbind res_bind].
  destruct (setIf_spec (hardwareUUIDChanged r || occ) hostDataKeyHardwareUuid (currentHardwareUUID r) k1 Hk1)
    as (k2 & -> & Hk2 & O2 & S2 & _); cbn beta iota delta [mbind res_bind].
  destruct (setIf_spec (munemoChanged r || occ) hostDataKeyMunemo (currentTenantMunemo r) k2 Hk2)
    as (k3 & -> & Hk3 & O3 & S3 & _); cbn beta iota delta [mbind res_bind].
  destruct (setIf_spec (machineGuidChanged r || occ) hostDataKeyMachineGuid (machineGuid r) k3 Hk3)
    as (k4 & -> & Hk4 & O4 & S4 & T4 & F4).
  exists k4. split; [done|]. split; [done|]. split; [do 3 (eapply others_trans; [eassumption|]); done|].
  split; [by rewrite S4, S3, S2, S1|]. split; [|split; [|split; [|split]]].
  - intros key. destruct (decide (key ∈ [hostDataKeySerial; hostDataKeyHardwareUuid; hostDataKeyMunemo;
      hostDataKeyMachineGuid])) as [Hin|Hn]; [by right|left].
    rewrite !not_elem_of_cons in Hn. destruct Hn as (N1 & N2 & N3 & N4 & _). by rewrite S4, S3, S2, S1.
  - intros E Hf. rewrite S4, S3, S2 by done. by apply T1.
  - intros E. rewrite S4, S3, S2 by done. by apply F1.
  - done.
  - intros E. by rewrite F4, S3, S2, S1.
Qed.

(** *** Wiping *)
Lemma wipe_loop_spec order : ∀ k k' er,
  (∀ n s, k !! n = Some s → kv_ok s) → wipe_loop order k = (k', er) →
  (∀ n s', k' !! n = Some s' → kv_ok s') ∧
  (∀ n, is_Some (k !! n) → is_Some (k' !! n)) ∧
  (∀ n s', k' !! n = Some s' → ∃ s, k !! n = Some s ∧ (kv_view s' = kv_view s ∨ kv_view s' = ∅)) ∧
  (er = None → ∀ n s', n ∈ order → k' !! n = Some s' → kv_view s' = ∅).
Proof.
  induction order as [|n0 order IH]; intros k k' er Hok; cbn [wipe_loop].
  { intros [= <- <-]. split; [done|]. split; [done|]. split; [eauto|]. by intros _ n s' ?%elem_of_nil. }
  destruct (k !! n0) as [s0|] eqn:E0.
  - destruct (kv_DeleteAll_spec s0 (Hok _ _ E0)) as [Hok0 Hv0]. destruct (kv_DeleteAll s0) as [s1 [e|]]; cbn [fst snd] in *.
    + intros [= <- <-]. split; [|split; [|split; [|done]]].
      * by apply all_ok_insert.
      * intros n. apply is_Some_insert.
      * intros n s' Hs'. destruct (decide (n = n0)) as [->|Hn];
          [rewrite lookup_insert_eq in Hs'; simplify_eq; eauto|rewrite lookup_insert_ne in Hs' by done; eauto].
    + intros E. destruct (IH (<[n0 := s1]> k) k' er) as (H1 & H2 & H3 & H4); [by apply all_ok_insert|done|].
      assert (H3' : ∀ n s', k' !! n = Some s' → ∃ s, k !! n = Some s ∧
        (kv_view s' = kv_view s ∧ n ≠ n0 ∨ kv_view s' = ∅)).
      { intros n s' Hs'. destruct (H3 n s' Hs') as (s & Hs & Hv). destruct (decide (n = n0)) as [->|Hn].
        - rewrite lookup_insert_eq in Hs. simplify_eq. exists s0. split; [done|right]. destruct Hv; congruence.
        - rewrite lookup_insert_ne in Hs by done. exists s. split; [done|]. tauto. }
      split; [done|]. split; [|split].
      * intros n Hn. by apply H2, is_Some_insert.
      * intros n s' Hs'. destruct (H3' n s' Hs') as (s & Hs & Hv). exists s. split; [done|]. tauto.
      * intros Er n s' [->|Hin]%elem_of_cons Hs'; [|by eapply H4].
        destruct (H3' n0 s' Hs') as (s & _ & [[_ ?]|?]); done.
  - intros E. destruct (IH k k' er Hok E) as (H1 & H2 & H3 & H4). split; [done|]. split; [done|]. split; [done|].
    intros Er n s' [->|Hin]%elem_of_cons Hs'; [|by eapply H4].
    destruct (H3 _ _ Hs') as (s & Hs & _). congruence.
Qed.

(** *** The record of what is wiped *)
Definition storeView (n : bytes) (k : stores) : gmap bytes bytes := from_option kv_view ∅ (k !! n).

Definition record_of (k : stores) (resetReason : bytes) (e : surroundings) : dbResetRecord :=
  MkRecord (default [] (storeView ConfigStore k !! Enrollment.nodeKeyKey))
    (Some [match getLocalPubKey k with Ok pub => Some pub | _ => None end])
    (default [] (hostView k !! hostDataKeySerial)) (default [] (hostView k !! hostDataKeyHardwareUuid))
    (default [] (hostView k !! hostDataKeyMunemo))
    (default [] (storeView ServerProvidedDataStore k !! bs "device_id"))
    (default [] (storeView ServerProvidedDataStore k !! bs "remote_ip"))
    (default [] (storeView ServerProvidedDataStore k !! bs "tombstone_id")) (now e) resetReason.

Lemma GetResetRecords_spec k : knapsack_ok k →
  GetResetRecords k =
    match hostView k !! hostDataKeyResetRecords with
    | Some (b :: raw) =>
        match unmarshalRecords (b :: raw) with Some l => Ok l | None => Err (Errorf "json.Unmarshal") end
    | _ => Ok []
    end.
Proof.
  intros [Hok Hs]. unfold GetResetRecords, hostView. destruct (Hs PersistentHostDataStore) as [s E]; [by do 2 constructor|].
  rewrite E. rewrite kv_Get_healthy by (by eapply Hok). cbn. by destruct (kv_view s !! _) as [[|b raw]|].
Qed.

Lemma Get_view n key k : knapsack_ok k → n ∈ [ConfigStore; PersistentHostDataStore; ServerProvidedDataStore] →
  Get n key k = Ok (storeView n k !! key).
Proof. intros Hk Hn. destruct (Get_ok n key k Hk Hn) as (s & E & ->). unfold storeView. by rewrite E. Qed.

Lemma logged_pub k : knapsack_ok k →
  logged (pub ← getLocalPubKey k; Ok (Some pub)) = Ok match getLocalPubKey k with Ok pub => Some pub | _ => None end.
Proof.
  intros Hk. unfold getLocalPubKey. rewrite Get_view by (done || by constructor). cbn.
  destruct (ParseECPrivateKey _) as [key|]; [|done]. cbn. by destruct (MarshalPublic key).
Qed.

Lemma prepare_spec resetReason e k : knapsack_ok k →
  prepareDatabaseResetRecords resetReason e k =
    rs ← wrap "getting previous host data from store: %w" (GetResetRecords k);
    Ok (marshalRecords (rs ++ [record_of k resetReason e])).
Proof.
  intros Hk. unfold prepareDatabaseResetRecords, nodeKeys, EnrollmentIDs.
  rewrite logged_pub, !Get_view by (done || set_solver). reflexivity.
Qed.

(** *** The reset *)
Definition covers (e : surroundings) (k : stores) : Prop := ∀ n, is_Some (k !! n) → n ∈ storeOrder e.

Lemma storeView_wiped n k k' :
  (∀ n s', k' !! n = Some s' → ∃ s, k !! n = Some s ∧ (kv_view s' = kv_view s ∨ kv_view s' = ∅)) →
  storeView n k' = storeView n k ∨ storeView n k' = ∅.
Proof.
  intros H3. unfold storeView. destruct (k' !! n) as [s'|] eqn:E; [|by right].
  destruct (H3 n s' E) as (s & -> & Hv). exact Hv.
Qed.

Lemma ResetDatabase_spec resetReason e k : knapsack_ok k → ∃ k' er,
  ResetDatabase resetReason e k = Ok (k', er) ∧ knapsack_ok k' ∧
  (er = None → covers e k → ∃ rs, GetResetRecords k = Ok rs ∧
     hostView k' = {[hostDataKeyResetRecords := marshalRecords (rs ++ [record_of k resetReason e])]} ∧
     ∀ n, n ≠ PersistentHostDataStore → storeView n k' = ∅) ∧
  (∀ rs, GetResetRecords k = Ok rs → (wipeDatabase e k).2 = None →
     kv_fits hostDataKeyResetRecords (marshalRecords (rs ++ [record_of k resetReason e])) → er = None).
Proof.
  intros Hk. unfold ResetDatabase. rewrite prepare_spec by done. unfold wipeDatabase.
  destruct (GetResetRecords k) as [rs|er0| |] eqn:Er; cbn [wrap mbind res_bind].
  3,4: rewrite GetResetRecords_spec in Er by done; by repeat case_match.
  2: { exists k. eexists. by split. }
  destruct (wipe_loop (storeOrder e) k) as [k1 er1] eqn:Ew.
  destruct (wipe_loop_spec _ _ _ _ (proj1 Hk) Ew) as (H1 & H2 & H3 & H4).
  assert (Hk1 : knapsack_ok k1) by (split; [done|intros n Hn; by apply H2, Hk]).
  destruct er1 as [er1|]; [by eexists k1, _|].
  destruct (Set_host hostDataKeyResetRecords (marshalRecords (rs ++ [record_of k resetReason e])) k1 Hk1)
    as (k2 & er2 & E2 & Hk2 & Ho & Hv & Hf).
  exists k2, er2. split; [done|]. split; [done|]. split; [|by intros rs' [= <-] _; apply Hf].
  intros -> Hc. exists rs. split; [done|].
  assert (Hwiped : ∀ n, storeView n k1 = ∅).
  { intros n. unfold storeView. destruct (k1 !! n) as [s1|] eqn:E1; [|done]. cbn. eapply H4; [done| |exact E1].
    destruct (H3 n s1 E1) as (s & Es & _). apply Hc. by rewrite Es. }
  split.
  - rewrite Hv. pose proof (Hwiped PersistentHostDataStore) as Hw. unfold storeView in Hw. unfold hostView. by rewrite Hw.
  - intros n Hn. rewrite <- (Hwiped n). unfold storeView. by rewrite Ho.
Qed.

Lemma detect_cases e k : knapsack_ok k → readable e → ∃ k1 r k2 occ k3,
  collectReadings e k = Ok (k1, r) ∧ collected e k k1 r ∧
  (remediationRequired e r = true ↔ hardwareChanged e k) ∧
  (if remediationRequired e r && ResetOnHardwareChangeEnabled e
   then ∃ er, ResetDatabase resetReasonNewHardwareOrEnrollmentDetected e k1 = Ok (k2, er) ∧ occ = bool_decide (er = None)
   else k2 = k1 ∧ occ = false) ∧
  knapsack_ok k2 ∧ storeReadings r occ k2 = Ok k3 ∧ knapsack_ok k3 ∧
  detectAndRemediateHardwareChange e k = Ok (k3, occ).
Proof.
  intros Hk Hr. destruct (collectReadings_spec e k Hk Hr) as (k1 & r & E1 & C). pose proof (c_surveyed _ _ _ _ C) as (Hk1 & _).
  exists k1, r. assert (Hreq : remediationRequired e r = true ↔ hardwareChanged e k).
  { unfold remediationRequired, hardwareChanged. case_bool_decide; [apply C|].
    by rewrite andb_true_iff, (c_serial _ _ _ _ C), (c_uuid _ _ _ _ C). }
  unfold detectAndRemediateHardwareChange. rewrite E1. cbn beta iota delta [mbind res_bind].
  destruct (remediationRequired e r && ResetOnHardwareChangeEnabled e) eqn:Eb.
  - destruct (ResetDatabase_spec resetReasonNewHardwareOrEnrollmentDetected e k1 Hk1) as (k2 & er & E2 & Hk2 & _).
    destruct (storeReadings_spec r (bool_decide (er = None)) k2 Hk2) as (k3 & E3 & Hk3 & _).
    exists k2, (bool_decide (er = None)), k3. do 3 (split; [done|]). split; [by exists er|]. do 3 (split; [done|]).
    rewrite E2. cbn beta iota delta [mbind res_bind]. by rewrite E3.
  - destruct (storeReadings_spec r false k1 Hk1) as (k3 & E3 & Hk3 & _).
    exists k1, false, k3. do 7 (split; [done|]). cbn beta iota delta [mbind res_bind]. by rewrite E3.
Qed.

Lemma wipe_loop_app l1 l2 : ∀ k,
  wipe_loop (l1 ++ l2) k =
    match wipe_loop l1 k with (k', None) => wipe_loop l2 k' | r => r end.
Proof.
  induction l1 as [|n l1 IH]; intros k; cbn [app wipe_loop]; [done|]. destruct (k !! n) as [s|]; [|apply IH].
  destruct (kv_DeleteAll s) as [s' [er|]]; [done|apply IH].
Qed.

(** Stores that can be wiped are, and the others are not touched. *)
Lemma wipe_loop_succeeds order : ∀ k,
  NoDup order → (∀ n s, n ∈ order → k !! n = Some s → (kv_DeleteAll s).2 = None) →
  ∃ k', wipe_loop order k = (k', None) ∧ ∀ n, n ∉ order → k' !! n = k !! n.
Proof.
  induction order as [|n order IH]; intros k Hd Hw; cbn [wipe_loop]; [by exists k|]. apply NoDup_cons in Hd as [Hn Hd].
  destruct (k !! n) as [s|] eqn:E.
  - specialize (Hw n s (list_elem_of_here _ _) E) as Es. destruct (kv_DeleteAll s) as [s' er]. cbn in Es. subst er.
    destruct (IH (<[n := s']> k) Hd) as (k' & -> & Hf).
    + intros m sm Hm Em. rewrite lookup_insert_ne in Em by congruence. eapply Hw; [by right|done].
    + exists k'. split; [done|]. intros m [Hm1 Hm2]%not_elem_of_cons. by rewrite Hf, lookup_insert_ne.
  - destruct (IH k Hd) as (k' & -> & Hf); [intros m sm Hm; apply Hw; by right|].
    exists k'. split; [done|]. by intros m [_ ?]%not_elem_of_cons; apply Hf.
Qed.

(** What a check that reports a wipe has done *)
Lemma remediated_spec e k k' :
  knapsack_ok k → readable e → covers e k → detectAndRemediateHardwareChange e k = Ok (k', true) →
  ResetOnHardwareChangeEnabled e = true ∧ hardwareChanged e k ∧
  (∀ n, n ≠ PersistentHostDataStore → storeView n k' = ∅) ∧
  (∀ key, is_Some (hostView k' !! key) →
     key ∈ [hostDataKeySerial; hostDataKeyHardwareUuid; hostDataKeyMunemo; hostDataKeyMachineGuid; hostDataKeyResetRecords]) ∧
  ∃ rs r, GetResetRecords k = Ok rs ∧
    hostView k' !! hostDataKeyResetRecords = Some (marshalRecords (rs ++ [r])) ∧
    (Forall record_utf8 (rs ++ [r]) → GetResetRecords k' = Ok (rs ++ [r])) ∧
    NodeKey r = default [] (storeView ConfigStore k !! Enrollment.nodeKeyKey) ∧
    (∀ old, old ≠ [] → hostView k !! hostDataKeySerial = Some old → Serial r = old) ∧
    (∀ old, old ≠ [] → hostView k !! hostDataKeyHardwareUuid = Some old → HardwareUUID r = old) ∧
    ResetTimestamp r = now e ∧ ResetReason r = resetReasonNewHardwareOrEnrollmentDetected.
Proof.
  intros Hk Hr Hc E. destruct (detect_cases e k Hk Hr) as (k1 & r & k2 & occ & k3 & _ & C & Hreq & Hres & Hk2 & E3 & Hk3 & E').
  rewrite E' in E. injection E as -> ->. destruct (remediationRequired e r); [|by destruct Hres].
  destruct (ResetOnHardwareChangeEnabled e); [|by destruct Hres]. cbn [andb] in Hres. destruct Hres as (er & Er & Hocc).
  assert (er = None) as -> by (symmetry in Hocc; by apply bool_decide_eq_true in Hocc).
  pose proof (c_surveyed _ _ _ _ C) as Hs. destruct Hs as (Hk1 & Ho & Hkept & Hrec).
  destruct (ResetDatabase_spec resetReasonNewHardwareOrEnrollmentDetected e k1 Hk1) as (k2' & er & Er' & _ & Hspec & _).
  rewrite Er in Er'. injection Er' as <- <-. destruct Hspec as (rs & Hrs & Hv & Hw); [done| |].
  { intros n Hn. apply Hc. destruct (decide (n = PersistentHostDataStore)) as [->|Hne]; [apply Hk; by do 2 constructor|].
    by rewrite <- Ho. }
  destruct (storeReadings_spec r true k2 Hk2) as (k3 & E3' & _ & Ho3 & Hrr & Hkeys & _). rewrite E3 in E3'. injection E3' as <-.
  split; [done|]. split; [by apply Hreq|]. split; [|split].
  - intros n Hn. unfold storeView. rewrite Ho3 by done. by apply Hw.
  - intros key Hkey. destruct (Hkeys key) as [Ek|Hin]; [|set_solver]. rewrite <- Ek, Hv, lookup_singleton_is_Some in Hkey.
    subst key. by do 4 right; left.
  - exists rs, (record_of k1 resetReasonNewHardwareOrEnrollmentDetected e). rewrite Hrr, Hv, lookup_singleton_eq.
    split; [by rewrite (GetResetRecords_spec k1), Hrec, <- GetResetRecords_spec in Hrs|]. split; [done|].
    split; [|split; [|split; [|split; [|done]]]].
    + intros Hu. rewrite GetResetRecords_spec, Hrr, Hv, lookup_singleton_eq by done.
      pose proof (unmarshal_records _ Hu) as Hm. revert Hm. by destruct (marshalRecords _) eqn:?; [|intros ->].
    + unfold record_of, storeView. cbn [NodeKey]. by rewrite Ho.
    + intros old Hold Hl. cbn [record_of Serial]. by rewrite (Hkept _ _ Hold Hl).
    + intros old Hold Hl. cbn [record_of HardwareUUID]. by rewrite (Hkept _ _ Hold Hl).
Qed.

(** C11: A check that finds the flag off, or the hardware unchanged, wipes nothing: it returns false, the other stores are
    the same, and of the host data only the readings are brought up to date.  (The hardware changed when the serial
    number and the hardware UUID both differ from stored ones that are not blank; on Windows, when the machine GUID
    does.)  A check that returns true has found both; then every other store is empty, the host data hold
    the readings and the reset records only, and these are the records there were, followed by one of the old
    installation: its node key and the old serial number and UUID.  A check that finds both and returns false has tried the
    reset and got an error; the other stores are as that left them, which is not said here.  The stores are in order,
    those the check uses exist, the readings do not panic, and the wipe goes over all stores. *)
Theorem remediation_wipes e k k' b :
  knapsack_ok k → readable e → covers e k → detectAndRemediateHardwareChange e k = Ok (k', b) →
  (ResetOnHardwareChangeEnabled e = false ∨ ¬ hardwareChanged e k →
     b = false ∧ (∀ n, n ≠ PersistentHostDataStore → k' !! n = k !! n) ∧
     (∀ key old, old ≠ [] → hostView k !! key = Some old →
        key ∉ [hostDataKeySerial; hostDataKeyHardwareUuid; hostDataKeyMunemo; hostDataKeyMachineGuid] →
        hostView k' !! key = Some old)) ∧
  (b = true →
     ResetOnHardwareChangeEnabled e = true ∧ hardwareChanged e k ∧
     (∀ n, n ≠ PersistentHostDataStore → storeView n k' = ∅) ∧
     (∀ key, is_Some (hostView k' !! key) →
        key ∈ [hostDataKeySerial; hostDataKeyHardwareUuid; hostDataKeyMunemo; hostDataKeyMachineGuid; hostDataKeyResetRecords]) ∧
     ∃ rs r, GetResetRecords k = Ok rs ∧
       hostView k' !! hostDataKeyResetRecords = Some (marshalRecords (rs ++ [r])) ∧
       (Forall record_utf8 (rs ++ [r]) → GetResetRecords k' = Ok (rs ++ [r])) ∧
       NodeKey r = default [] (storeView ConfigStore k !! Enrollment.nodeKeyKey) ∧
       (∀ old, old ≠ [] → hostView k !! hostDataKeySerial = Some old → Serial r = old) ∧
       (∀ old, old ≠ [] → hostView k !! hostDataKeyHardwareUuid = Some old → HardwareUUID r = old) ∧
       ResetTimestamp r = now e ∧ ResetReason r = resetReasonNewHardwareOrEnrollmentDetected) ∧
  (b = false → ResetOnHardwareChangeEnabled e = true → hardwareChanged e k →
     ∃ k1 k2 er, others k k1 ∧ ResetDatabase resetReasonNewHardwareOrEnrollmentDetected e k1 = Ok (k2, Some er) ∧
       others k2 k').
Proof.
  intros Hk Hr Hc E. split; [|split].
  - intros Hoff. destruct (detect_cases e k Hk Hr) as (k1 & r & k2 & occ & k3 & _ & C & Hreq & Hres & _ & E3 & _ & E').
    rewrite E' in E. injection E as -> ->.
    assert (remediationRequired e r && ResetOnHardwareChangeEnabled e = false) as Hno.
    { destruct Hoff as [->|Hno]; [apply andb_false_r|]. apply andb_false_iff. left. apply not_true_iff_false. by rewrite Hreq. }
    rewrite Hno in Hres. destruct Hres as [-> ->]. pose proof (c_surveyed _ _ _ _ C) as (Hk1 & Ho & Hkept & _).
    destruct (storeReadings_spec r false k1 Hk1) as (k3' & E3' & _ & Ho3 & _ & Hkeys & _). rewrite E3 in E3'. injection E3' as <-.
    split; [done|]. split; [intros n Hn; by rewrite Ho3, Ho|]. intros key old Hold Hl Hkey.
    destruct (Hkeys key) as [Ek|Hin]; [|done]. rewrite <- Ek. by apply Hkept.
  - intros ->. by apply remediated_spec.
  - intros -> Hen Hch. destruct (detect_cases e k Hk Hr) as (k1 & r & k2 & occ & k3 & _ & C & Hreq & Hres & Hk2 & E3 & _ & E').
    rewrite E' in E. injection E as -> ->. rewrite (proj2 Hreq Hch), Hen in Hres. cbn [andb] in Hres.
    destruct Hres as ([er|] & Er & Hocc); [|done]. pose proof (c_surveyed _ _ _ _ C) as (_ & Ho & _).
    destruct (storeReadings_spec r false k2 Hk2) as (k3' & E3' & _ & Ho3 & _). rewrite E3 in E3'. injection E3' as <-.
    by exists k1, k2, er.
Qed.

(** A check never asks for another: once it has run, whatever came of it (a reset, a reset that failed,
    or none because the flag is off), a check with the same readings leaves the database alone, provided
    the store can hold the readings.  So there is no loop of resets; neither is a reset that
    failed tried again. *)
Theorem check_settles e e' k k1 b :
  knapsack_ok k → readable e →
  GOOS e' = GOOS e → getSerialAndHardwareUUID e' = getSerialAndHardwareUUID e → currentMachineGuid e' = currentMachineGuid e →
  (∀ s u, getSerialAndHardwareUUID e = Ok (s, u) → kv_fits hostDataKeySerial s) →
  (∀ g, currentMachineGuid e = Ok g → kv_fits hostDataKeyMachineGuid g) →
  detectAndRemediateHardwareChange e k = Ok (k1, b) →
  ∃ k2, detectAndRemediateHardwareChange e' k1 = Ok (k2, false).
Proof.
  intros Hk Hr Eos Eread Eguid Hfs Hfg E.
  destruct (detect_cases e k Hk Hr) as (ka & r & kb & occ & k3 & _ & C & Hreq & Hres & Hkb & E3 & Hk1 & E').
  rewrite E' in E. injection E as -> ->.
  destruct (storeReadings_spec r b kb Hkb) as (k1' & E3' & _ & _ & _ & _ & Hs1 & Hs2 & Hg1 & Hg2).
  rewrite E3 in E3'. injection E3' as <-.
  assert (Hr' : readable e') by (unfold readable; by rewrite Eread, Eguid).
  destruct (detect_cases e' k1 Hk1 Hr') as (ka' & r' & kb' & occ' & k2 & _ & _ & Hreq' & Hres' & _ & _ & _ & E'').
  exists k2. rewrite E''. do 2 f_equal. destruct (remediationRequired e' r') eqn:Ereq'; [|by destruct Hres'].
  exfalso. pose proof (proj1 Hreq' eq_refl) as Hch. unfold hardwareChanged in Hch. rewrite Eos in Hch.
  unfold remediationRequired in Hreq, Hres. case_bool_decide.
  - destruct Hch as (g & Eg & Hd). rewrite Eguid in Eg. destruct (machineGuidChanged r) eqn:Ec.
    + rewrite Hg1 in Hd; [|done|rewrite (c_read_guid _ _ _ _ C g Eg); by apply Hfg].
      rewrite (c_read_guid _ _ _ _ C g Eg) in Hd. by destruct Hd as (? & [= <-] & _ & ?).
    + destruct Hres as [-> ->]. rewrite Hg2 in Hd by done. by apply (c_settled_guid _ _ _ _ C g Ec Eg (Hfg _ Eg)).
  - destruct Hch as ((s & u & Es & Hd) & _). rewrite Eread in Es. destruct (c_read _ _ _ _ C s u Es) as [Ecs _].
    destruct (serialChanged r) eqn:Ec.
    + rewrite Hs1 in Hd; [|done|rewrite Ecs; by eapply Hfs]. rewrite Ecs in Hd. by destruct Hd as (? & [= <-] & _ & ?).
    + destruct Hres as [-> ->]. rewrite Hs2 in Hd by done. by apply (c_settled_serial _ _ _ _ C s u Ec Es (Hfs _ _ Es)).
Qed.

(** A wipe that fails at some store after the one with the host data leaves no trace of the earlier
    resets: [ResetDatabase] stores the records again only after it has wiped every store, and so
    they are gone, with the serial number and everything else in the host data. *)
Theorem wipe_failure_loses_records resetReason e k pre mid post bad sbad er rs :
  knapsack_ok k → NoDup (storeOrder e) → storeOrder e = (pre ++ PersistentHostDataStore :: mid) ++ bad :: post →
  (∀ n s, n ∈ pre ++ PersistentHostDataStore :: mid → k !! n = Some s → (kv_DeleteAll s).2 = None) →
  k !! bad = Some sbad → (kv_DeleteAll sbad).2 = Some er →
  GetResetRecords k = Ok rs →
  ∃ k' er', ResetDatabase resetReason e k = Ok (k', Some er') ∧ hostView k' = ∅ ∧ GetResetRecords k' = Ok [].
Proof.
  intros Hk Hnd Eo Hw Hbad Hfail Hrs. unfold ResetDatabase, wipeDatabase. rewrite prepare_spec, Hrs by done.
  cbn [wrap mbind res_bind]. rewrite Eo in *. apply NoDup_app in Hnd as (Hnd1 & Hdisj & Hnd2).
  destruct (wipe_loop_succeeds _ k Hnd1 Hw) as (k1 & E1 & Hf1). rewrite wipe_loop_app, E1. cbn [wipe_loop].
  rewrite Hf1, Hbad by (intros Hin; by apply (Hdisj bad Hin), list_elem_of_here).
  destruct (wipe_loop_spec _ _ _ _ (proj1 Hk) E1) as (H1 & H2 & _ & H4).
  pose proof (kv_DeleteAll_spec sbad (proj1 Hk _ _ Hbad)) as [Hok _].
  destruct (kv_DeleteAll sbad) as [s' er']. cbn in Hfail, Hok. subst er'.
  eexists _, _. split; [done|]. set (k' := <[bad := s']> k1).
  assert (Hk' : knapsack_ok k').
  { split; [by apply all_ok_insert|]. intros n Hn. by apply is_Some_insert, H2, Hk. }
  assert (Hv : hostView k' = ∅).
  { unfold hostView, k'. rewrite lookup_insert_ne
      by (intros ->; apply (Hdisj PersistentHostDataStore); [set_solver|by left]).
    destruct (k1 !! PersistentHostDataStore) as [s1|] eqn:Es; [|done]. cbn. eapply H4; [done| |exact Es]. set_solver. }
  split; [done|]. rewrite GetResetRecords_spec, Hv by done. by rewrite lookup_empty.
Qed.

(** When the hardware changed and the flag is on, the check wipes the database and ends the launcher with
    [ErrNewHardwareDetected], as long as the earlier records can be read and the stores can be wiped and written. *)
Theorem change_remediated e k k1 r rs :
  knapsack_ok k → readable e → ResetOnHardwareChangeEnabled e = true → hardwareChanged e k →
  collectReadings e k = Ok (k1, r) → GetResetRecords k = Ok rs → (wipeDatabase e k1).2 = None →
  kv_fits hostDataKeyResetRecords (marshalRecords (rs ++ [record_of k1 resetReasonNewHardwareOrEnrollmentDetected e])) →
  ∃ k', Execute e k = Ok (k', Some ErrNewHardwareDetected).
Proof.
  intros Hk Hr Hen Hch Ec Hrs Hw Hf.
  destruct (detect_cases e k Hk Hr) as (k1' & r' & k2 & occ & k3 & Ec' & C & Hreq & Hres & _ & _ & _ & E).
  rewrite Ec in Ec'. injection Ec' as <- <-. exists k3. unfold Execute. rewrite E. cbn. do 2 f_equal.
  rewrite (proj2 Hreq Hch), Hen in Hres. cbn [andb] in Hres. destruct Hres as (er & Er & ->).
  pose proof (c_surveyed _ _ _ _ C) as (Hk1 & _ & _ & Hrec).
  destruct (ResetDatabase_spec resetReasonNewHardwareOrEnrollmentDetected e k1 Hk1) as (k2' & er' & Er' & _ & _ & Hs).
  rewrite Er in Er'. injection Er' as <- <-. rewrite (Hs rs) by (done || by rewrite GetResetRecords_spec, Hrec, <- GetResetRecords_spec).
  done.
Qed.

End Detector.

(** ** Examples

    A reader of the records as [marshalRecords] writes them *)
Definition p_record : parser dbResetRecord := λ s,
  '(nodeKey, s) ← p_field (bs "{") "node_key" p_string s;
  '(pubKeys, s) ← p_field (bs ",") "pub_keys" (p_nullable (p_array (p_nullable p_bytes))) s;
  '(serial, s) ← p_field (bs ",") "serial" p_string s;
  '(uuid, s) ← p_field (bs ",") "hardware_uuid" p_string s;
  '(munemo, s) ← p_field (bs ",") "munemo" p_string s;
  '(deviceId, s) ← p_field (bs ",") "device_id" p_string s;
  '(remoteIp, s) ← p_field (bs ",") "remote_ip" p_string s;
  '(tombstoneId, s) ← p_field (bs ",") "tombstone_id" p_string s;
  '(timestamp, s) ← p_field (bs ",") "reset_timestamp" read_int s;
  '(reason, s) ← p_field (bs ",") "reset_reason" p_string s;
  s ← cut_prefix (bs "}") s;
  Some (MkRecord nodeKey pubKeys serial uuid munemo deviceId remoteIp tombstoneId timestamp reason, s).

Lemma p_field_app {A} before name (p : parser A) t :
  p_field before name p (before ++ json_string (bs name) ++ bs ":" ++ t) = p t.
Proof.
  unfold p_field. assert (E : before ++ json_string (bs name) ++ bs ":" ++ t =
    (before ++ json_string (bs name) ++ bs ":") ++ t) by (by rewrite <- !app_assoc).
  by rewrite E, cut_prefix_app.
Qed.

Lemma read_int_comma z rest : read_int (itoa z ++ bs "," ++ rest) = Some (z, bs "," ++ rest).
Proof. by apply (read_int_itoa z x2c). Qed.

Lemma p_pubkeys_inverts :
  inverts (p_nullable (p_array (p_nullable p_bytes)))
    json_pubKeys (λ _, True).
Proof.
  assert (H1 : inverts (p_nullable p_bytes) json_nullable (λ o, from_option (λ _, True) True o)).
  { apply p_nullable_inverts; [exact p_bytes_inverts|]. intros a. by eexists; left. }
  assert (H2 : inverts (p_array (p_nullable p_bytes)) (λ l, json_array (map json_nullable l)) (Forall (λ o, from_option (λ _, True) True o))).
  { apply p_array_inverts; [exact H1|]. intros [a|]; by eexists _, _. }
  intros o rest _. apply (p_nullable_inverts _ _ _ H2); [intros a; by eexists; right|].
  destruct o as [l|]; [|done]. cbn. apply Forall_true. by intros [].
Qed.

Lemma p_record_inverts : inverts p_record marshalRecord record_utf8.
Proof.
  intros [nk pk se hu mu di ri ti ts re] rest Hu. unfold record_utf8 in Hu. rewrite !Forall_cons in Hu.
  destruct Hu as (H1 & H2 & H3 & H4 & H5 & H6 & H7 & H8 & _).
  cbn [NodeKey Serial HardwareUUID Munemo DeviceID RemoteIP TombstoneID ResetReason] in *.
  unfold marshalRecord, json_field. cbn [join NodeKey PubKeys Serial HardwareUUID Munemo DeviceID RemoteIP TombstoneID
    ResetTimestamp ResetReason]. rewrite <- !app_assoc. unfold p_record.
  repeat (rewrite p_field_app; first
    [ match goal with H : valid_utf8 ?s = true |- context [p_string (json_string ?s ++ ?t)] =>
        rewrite (p_string_inverts s t H) end
    | match goal with |- context [json_pubKeys ?o ++ ?t] => rewrite (p_pubkeys_inverts o t I) end
    | rewrite read_int_comma ]; cbn beta iota delta [mbind option_bind]).
  by rewrite cut_prefix_app.
Qed.

Definition p_records (s : bytes) : option (list dbResetRecord) :=
  match p_array p_record s with Some (l, []) => Some l | _ => None end.

#[local] Instance toyLib : ResetLib := {|
  unmarshalRecords := p_records; unmarshalRows _ := None;
  eccKey := bytes; ParseECPrivateKey raw := if is_empty raw then None else Some raw; MarshalPublic key := Some (take 4 key);
  NewOsqueryProcess _ := None; RunSql _ := ([], None)
|}.

#[local] Instance toyLaws : ResetLaws.
Proof.
  split. intros l Hl. cbn [unmarshalRecords toyLib]. unfold p_records, marshalRecords.
  rewrite <- (app_nil_r (json_array _)), (p_array_inverts _ _ _ p_record_inverts); [done| |done].
  intros r. by eexists _, _.
Qed.

#[local] Instance toyEnrollments : Enrollment.EnrollLib := {|
  Enrollment.unmarshalEnrollment _ := None; Enrollment.organization _ := Ok []
|}.

(** A database that was moved to a machine with another serial number and UUID *)
Definition oldStores : gmap bytes InMemory.store :=
  list_to_map [
    (ConfigStore, (InMemory.Set_ (bs "nodeKey") (bs "node") InMemory.NewStore).1);
    (PersistentHostDataStore,
      (InMemory.Set_ hostDataKeyHardwareUuid (bs "u0") (InMemory.Set_ hostDataKeySerial (bs "s0") InMemory.NewStore).1).1);
    (ServerProvidedDataStore, InMemory.NewStore)].

Definition newMachine : surroundings :=
  Surroundings (bs "linux") (Ok (bs "s1", bs "u1")) (Ok []) true 7
    [ConfigStore; PersistentHostDataStore; ServerProvidedDataStore].

Definition outcome (m : res (gmap bytes InMemory.store * bool)) : option bool :=
  match m with Ok (_, b) => Some b | _ => None end.

Lemma remediated : outcome (detectAndRemediateHardwareChange newMachine oldStores) = Some true.
Proof. vm_compute. reflexivity. Qed.

Lemma stores_ok {S} `{KVLaws S} (l : list (bytes * S)) :
  Forall (λ ns, kv_ok ns.2) l → ∀ n s, (list_to_map l : gmap bytes S) !! n = Some s → kv_ok s.
Proof. rewrite Forall_forall. intros Hl n s Hs%elem_of_list_to_map_2. exact (Hl _ Hs). Qed.

Lemma stores_present {S} (l : list (bytes * S)) n : n ∈ l.*1 → is_Some ((list_to_map l : gmap bytes S) !! n).
Proof.
  intros Hn. destruct ((list_to_map l : gmap bytes S) !! n) eqn:E; [done|]. by apply not_elem_of_list_to_map in E.
Qed.

Lemma oldStores_ok : knapsack_ok oldStores.
Proof.
  split.
  - apply stores_ok, Forall_cons; split; [apply (InMemory.wf_Set (bs "nodeKey")), InMemory.wf_NewStore|].
    apply Forall_cons; split; [|apply Forall_singleton, InMemory.wf_NewStore].
    apply (InMemory.wf_Set hostDataKeyHardwareUuid), (InMemory.wf_Set hostDataKeySerial), InMemory.wf_NewStore.
  - intros n Hn. by apply stores_present.
Qed.

Lemma oldStores_covered : covers newMachine oldStores.
Proof. intros n [s Hs%elem_of_list_to_map_2]. exact (list_elem_of_fmap_2 fst _ _ Hs). Qed.

Lemma remediation_wipes_witness :
  ∃ k' r, detectAndRemediateHardwareChange newMachine oldStores = Ok (k', true) ∧
    hostView k' !! hostDataKeyResetRecords = Some (marshalRecords [r]) ∧ Serial r = bs "s0" ∧ storeView ConfigStore k' = ∅.
Proof.
  pose proof remediated as Ho. destruct (detectAndRemediateHardwareChange newMachine oldStores) as [[k' b]| | |] eqn:E; try discriminate Ho.
  injection Ho as ->.
  destruct (remediation_wipes newMachine oldStores k' true oldStores_ok (conj I I) oldStores_covered E) as (_ & Htrue & _).
  destruct (Htrue eq_refl) as (_ & _ & Hw & _ & rs & r & Hrs & Hv & _ & _ & Hs & _).
  exists k', r. split; [exact eq_refl|]. assert (Ers : rs = []) by (vm_compute in Hrs; congruence).
  rewrite Ers in Hv. split; [exact Hv|]. split; [|apply Hw; discriminate].
  apply Hs; [discriminate|vm_compute; reflexivity].
Defined.

Lemma check_settles_witness :
  ∃ k1 k2, detectAndRemediateHardwareChange newMachine oldStores = Ok (k1, true) ∧
    detectAndRemediateHardwareChange newMachine k1 = Ok (k2, false).
Proof.
  pose proof remediated as Ho. destruct (detectAndRemediateHardwareChange newMachine oldStores) as [[k' b]| | |] eqn:E; try discriminate Ho.
  injection Ho as ->.
  destruct (check_settles newMachine newMachine oldStores k' true oldStores_ok (conj I I) eq_refl eq_refl eq_refl) as [k2 E2];
    [intros s u _; discriminate|intros g _; discriminate|exact E|].
  exists k', k2. split; [reflexivity|exact E2].
Defined.

Lemma oldStores_wiped :
  match collectReadings newMachine oldStores with Ok (k, _) => (wipeDatabase newMachine k).2 = None | _ => False end.
Proof. vm_compute. reflexivity. Qed.

Lemma change_remediated_witness :
  ∃ k', Execute newMachine oldStores = Ok (k', Some ErrNewHardwareDetected).
Proof.
  pose proof oldStores_wiped as Hw.
  destruct (collectReadings newMachine oldStores) as [[k1 r]| | |] eqn:E; [|destruct Hw..].
  apply (change_remediated newMachine oldStores k1 r [] oldStores_ok (conj I I) eq_refl); [|exact E| |exact Hw|discriminate].
  - split; eexists _, _; (split; [reflexivity|]); eexists; (split; [vm_compute; reflexivity|]); split; discriminate.
  - vm_compute. reflexivity.
Defined.

(** In-memory stores, of which some cannot be emptied *)
Definition disk : Type := bool * InMemory.store.
#[local] Instance disk_store : KVStore disk := {
  kv_Get s := InMemory.Get s.2;
  kv_Set k v s := let '(s', e) := InMemory.Set_ k v s.2 in ((s.1, s'), e);
  kv_Delete ks s := let '(s', e) := InMemory.Delete ks s.2 in ((s.1, s'), e);
  kv_entries s := InMemory.entries s.2
}.
#[local] Program Instance disk_laws : KVLaws disk := { kv_ok s := kv_ok s.2; kv_view s := kv_view s.2 }.
Next Obligation. intros [b s] k Hs. exact (kv_Get_spec s k Hs). Qed.
Next Obligation. intros k v [b s] Hs. pose proof (kv_Set_spec k v s Hs) as Hk. cbn in *. by destruct (InMemory.Set_ k v s). Qed.
Next Obligation. intros ks [b s] Hs. pose proof (kv_Delete_spec ks s Hs) as Hk. cbn in *. by destruct (InMemory.Delete ks s). Qed.
Next Obligation. intros [b s] Hs. exact (kv_entries_spec s Hs). Qed.
#[local] Program Instance disk_healthy : KVHealthy disk := { kv_fits k _ := k ≠ [] }.
Next Obligation. intros k v [b s] Hs Hk. pose proof (kv_Set_healthy k v s Hs Hk) as H2. cbn in *. by destruct (InMemory.Set_ k v s). Qed.
Next Obligation. intros [b s] k Hs. exact (kv_Get_healthy s k Hs). Qed.
#[local] Instance disk_wipe : KVWipe disk := {
  kv_DeleteAll s := if s.1 then (s, Some (Errorf "deleting bucket: %w"))
                    else let '(s', e) := InMemory.DeleteAll s.2 in ((s.1, s'), e)
}.
#[local] Program Instance disk_wipe_laws : KVWipeLaws disk.
Next Obligation.
  intros [[] s] Hs; [done|]. pose proof (kv_DeleteAll_spec s Hs) as Hk. cbn in *. by destruct (InMemory.DeleteAll s).
Qed.

Definition oldRecord : dbResetRecord :=
  MkRecord (bs "node") None (bs "s0") (bs "u0") [] [] [] [] 5 (bs "why").

Definition stuckStores : gmap bytes disk :=
  list_to_map [(ConfigStore, (true, InMemory.NewStore));
    (PersistentHostDataStore, (false, (InMemory.Set_ hostDataKeyResetRecords (marshalRecords [oldRecord]) InMemory.NewStore).1));
    (ServerProvidedDataStore, (false, InMemory.NewStore))].

Definition hostFirst : surroundings :=
  Surroundings (bs "linux") (Ok (bs "s1", bs "u1")) (Ok []) true 7 [PersistentHostDataStore; ConfigStore].

Lemma wipe_failure_loses_records_witness :
  GetResetRecords stuckStores = Ok [oldRecord] ∧
  ∃ k' er', ResetDatabase (bs "why") hostFirst stuckStores = Ok (k', Some er') ∧ GetResetRecords k' = Ok [].
Proof.
  split; [vm_compute; reflexivity|].
  destruct (wipe_failure_loses_records (bs "why") hostFirst stuckStores [] [] [] ConfigStore (true, InMemory.NewStore)
    (Errorf "deleting bucket: %w") [oldRecord]) as (k' & er' & E & _ & Hr).
  - split.
    + apply stores_ok, Forall_cons; split; [exact InMemory.wf_NewStore|].
      apply Forall_cons; split; [|apply Forall_singleton, InMemory.wf_NewStore].
      apply (InMemory.wf_Set hostDataKeyResetRecords), InMemory.wf_NewStore.
    + intros n Hn. by apply stores_present.
  - apply (bool_decide_unpack _). vm_compute. exact I.
  - reflexivity.
  - intros n s ->%list_elem_of_singleton Hs. vm_compute in Hs. injection Hs as <-. reflexivity.
  - vm_compute. reflexivity.
  - reflexivity.
  - vm_compute. reflexivity.
  - exists k', er'. split; [exact E|exact Hr].
Defined.

End HardwareChange.
