(* ===== verification/Sqlite.v ===== *)
(** * ee/agent/storage/sqlite and ee/agent/startupsettings: the database of startup settings

    kv.sqlite holds the settings the launcher reads before its other stores are open, and the logs
    of the watchdog.  The code builds SQL statements; the engine that runs them is the class
    [SqliteLib], and [SqliteLaws] says what SQLite documents of the statements used here. *)
From S2P Require Import Prelude Json Strings KVStore Enrollment.
Set Warnings "-clear-no-such-hyp".

(** [strings.Repeat] *)
Definition Repeat (s : bytes) (count : nat) : bytes := concat (replicate count s).

(** A value bound to a parameter or read from a row *)
Inductive sqlval : Type := VText (s : bytes) | VInt (z : Z) | VBlob (s : bytes) | VNull.

Inductive upResult : Type :=
| UpOk
| UpNoChange
| UpDirty (version : Z)
| UpError (msg : bytes).

Class SqliteLib := {
  db : Type;
  emptyDb : db;                                          (* what an empty file holds *)
  sql_Exec : bytes → list sqlval → db → db * option err;
  (* the rows, and the error that ended the iteration *)
  sql_Query : bytes → list sqlval → db → db * res (list (list sqlval) * option err);
  sql_Begin : db → option err;
  sql_Commit : db → db → option err;                     (* of a transaction that leads from one state to the other *)
  migrate_Up : db → db * upResult;
  migrate_Force : Z → db → db * option err
}.

Module Sqlite.

(** *** Statements *)
Definition selectSql (table : bytes) : bytes := bs "SELECT value FROM " ++ table ++ bs " WHERE name = ?;".

Definition upsertSql (table valueStr : bytes) : bytes :=
  bs "
INSERT INTO " ++ table ++ bs " (name, value)
VALUES " ++ valueStr ++ bs "
ON CONFLICT (name) DO UPDATE SET value=excluded.value;".

Definition deleteSql (table inStr : bytes) : bytes :=
  bs "DELETE FROM " ++ table ++ bs " WHERE name NOT IN (" ++ inStr ++ bs ") RETURNING name;".

Definition insertLogSql (table pk valueColumn : bytes) : bytes :=
  bs "INSERT INTO " ++ table ++ bs " (" ++ pk ++ bs ", " ++ valueColumn ++ bs ") VALUES (?, ?)".

Definition selectLogSql (table pk valueColumn : bytes) : bytes :=
  bs "SELECT rowid, " ++ pk ++ bs ", " ++ valueColumn ++ bs " FROM " ++ table ++ bs ";".

Definition deleteLogSql (table paramQs : bytes) : bytes :=
  bs "DELETE FROM " ++ table ++ bs " WHERE rowid IN (" ++ paramQs ++ bs ")".

Definition pairArgs (kvPairs : list (bytes * bytes)) : list sqlval :=
  concat (map (λ kv, [VText kv.1; VText kv.2]) kvPairs).

End Sqlite.

(** What SQLite documents: statements on a table with columns (name, value), and on one of logs.  A
    statement that fails changes nothing. *)
Class SqliteLaws `{SqliteLib} := {
  kvTable : bytes → db → option (gmap bytes bytes);
  logTable : bytes → db → option (list (Z * (Z * bytes)));
  select_spec t k d m :
    kvTable t d = Some m →
    (∃ e, sql_Query (Sqlite.selectSql t) [VText k] d = (d, Err e)) ∨
    sql_Query (Sqlite.selectSql t) [VText k] d =
      (d, Ok (match m !! k with Some v => [[VText v]] | None => [] end, None));
  upsert_spec t pairs d m :
    kvTable t d = Some m → pairs ≠ [] →
    match sql_Exec (Sqlite.upsertSql t (join (bs ",") (replicate (length pairs) (bs "(?, ?)")))) (Sqlite.pairArgs pairs) d with
    | (d', None) => kvTable t d' = Some (foldl (λ m kv, <[kv.1 := kv.2]> m) m pairs) ∧ ∀ t', t' ≠ t → kvTable t' d' = kvTable t' d ∧ logTable t' d' = logTable t' d
    | (d', Some _) => d' = d
    end;
  prune_spec t names d m :
    kvTable t d = Some m → names ≠ [] →
    match sql_Query (Sqlite.deleteSql t (join (bs ",") (replicate (length names) (bs "?")))) (map VText names) d with
    | (d', Ok (rows, e)) =>
        kvTable t d' = Some (filter (λ kv, kv.1 ∈ names) m) ∧
        (∃ n deleted, rows = map (λ k, [VText k]) (take n deleted) ∧ (e = None → take n deleted = deleted) ∧
           deleted ≡ₚ (map_to_list (filter (λ kv, kv.1 ∉ names) m)).*1) ∧
        ∀ t', t' ≠ t → kvTable t' d' = kvTable t' d ∧ logTable t' d' = logTable t' d
    | (d', Err _) => d' = d
    | (_, _) => False
    end;
  insertLog_spec t v ts d l :
    logTable t d = Some l →
    match sql_Exec (Sqlite.insertLogSql t (bs "timestamp") (bs "log")) [VInt ts; VBlob v] d with
    | (d', None) => ∃ rowid, (rowid ∉ l.*1) ∧ logTable t d' = Some (l ++ [(rowid, (ts, v))])
    | (d', Some _) => d' = d
    end;
  selectLog_spec t d l :
    logTable t d = Some l →
    (∃ e, sql_Query (Sqlite.selectLogSql t (bs "timestamp") (bs "log")) [] d = (d, Err e)) ∨
    ∃ n e, sql_Query (Sqlite.selectLogSql t (bs "timestamp") (bs "log")) [] d =
      (d, Ok (map (λ r, [VInt r.1; VInt r.2.1; VBlob r.2.2]) (take n l), e)) ∧ (e = None → take n l = l);
  deleteLog_spec t ids d l :
    logTable t d = Some l → ids ≠ [] →
    match sql_Exec (Sqlite.deleteLogSql t (join (bs ",") (replicate (length ids) (bs "?")))) (map VInt ids) d with
    | (d', None) => logTable t d' = Some (filter (λ r, r.1 ∉ ids) l)
    | (d', Some _) => d' = d
    end
}.

Module SqliteStore.
Import Sqlite.

Inductive storeName : Type := StartupSettingsStore | WatchdogLogStore | OtherStore.

Definition storeName_String (s : storeName) : bytes :=
  match s with
  | StartupSettingsStore => bs "startup_settings"
  | WatchdogLogStore => bs "watchdog_logs"
  | OtherStore => []
  end.

Record sqliteColumns := Columns { pk : bytes; valueColumn : bytes; isLogstore : bool }.

Section Store.
Context `{L : SqliteLib}.

(** [None] is a nil store.  The connection is the state of the database. *)
Record t := Store { conn : db; readOnly : bool; tableName : bytes }.
Definition store : Type := option t.

Definition with_conn (s : t) (d : db) : t := Store d (readOnly s) (tableName s).
Definition nil_err : err := Errorf "store is nil".

Definition Get (key : bytes) (s : store) : res (option bytes) :=
  match s with
  | None => Err nil_err
  | Some s =>
      match sql_Query (selectSql (tableName s)) [VText key] (conn s) with
      | (_, Ok ([], None)) => Ok None
      | (_, Ok ([], Some e)) => Err (Wrapf "querying key `%s`: %w" e)
      | (_, Ok ([VText v] :: _, _)) | (_, Ok ([VBlob v] :: _, _)) => Ok (Some v)
      | (_, Ok (_, _)) => Err (Errorf "querying key `%s`: %w")       (* Scan *)
      | (_, Err e) => Err (Wrapf "querying key `%s`: %w" e)
      | (_, Panic) => Panic
      | (_, NoFuel) => NoFuel
      end
  end.

Definition Set_ (key value : bytes) (s : store) : store * option err :=
  match s with
  | None => (s, Some nil_err)
  | Some st =>
      if readOnly st then (s, Some (Errorf "cannot perform set with RO connection"))
      else if is_empty key then (s, Some (Errorf "key is blank"))
      else
        match sql_Exec (upsertSql (tableName st) (bs "(?, ?)")) [VText key; VText value] (conn st) with
        | (d, Some e) => (Some (with_conn st d), Some (Wrapf "upserting into %s: %w" e))
        | (d, None) => (Some (with_conn st d), None)
        end
  end.

(** The loop over the rows of deleted keys *)
Fixpoint scanKeys (rows : list (list sqlval)) : res (list bytes) :=
  match rows with
  | [] => Ok []
  | [VText k] :: rows | [VBlob k] :: rows => l ← scanKeys rows; Ok (k :: l)
  | _ :: _ => Err (Errorf "scanning deleted key: %w")
  end.

(** [Update]: [kvPairs] in the order Go ranges over the map.  A transaction works on a copy of the database,
    which a rollback, or a commit that fails, drops; that the iteration over the deleted keys broke
    off is only logged. *)
Definition Update (kvPairs : list (bytes * bytes)) (s : store) : store * res (list bytes) :=
  match s with
  | None => (s, Err nil_err)
  | Some st =>
      if readOnly st then (s, Err (Errorf "cannot perform update with RO connection"))
      else if is_empty kvPairs then (s, Ok [])
      else
        match sql_Begin (conn st) with
        | Some e => (s, Err (Wrapf "beginning transaction: %w" e))
        | None =>
            let valueStr := TrimRight (Repeat (bs "(?, ?),") (length kvPairs)) x2c in
            match sql_Exec (upsertSql (tableName st) valueStr) (pairArgs kvPairs) (conn st) with
            | (_, Some e) => (s, Err (Wrapf "upserting into %s: %w" e))
            | (tx, None) =>
                let inStr := TrimRight (Repeat (bs "?,") (length kvPairs)) x2c in
                match sql_Query (deleteSql (tableName st) inStr) (map VText kvPairs.*1) tx with
                | (_, Err e) => (s, Err (Wrapf "deleting keys: %w" e))
                | (_, Panic) => (s, Panic)
                | (_, NoFuel) => (s, NoFuel)
                | (tx, Ok (rows, _)) =>
                    match scanKeys rows with
                    | Ok deletedKeys =>
                        match sql_Commit (conn st) tx with
                        | Some e => (s, Err (Wrapf "committing transaction: %w" e))
                        | None => (Some (with_conn st tx), Ok deletedKeys)
                        end
                    | r => (s, r)
                    end
                end
            end
        end
  end.

(** *** The log store (logstore_sqlite.go) *)
Definition getColumns (s : t) : option sqliteColumns :=
  if bool_decide (tableName s = storeName_String StartupSettingsStore) then Some (Columns (bs "name") (bs "value") false)
  else if bool_decide (tableName s = storeName_String WatchdogLogStore) then Some (Columns (bs "timestamp") (bs "log") true)
  else None.

(** The columns are looked up before the receiver is compared with nil: a nil store panics. *)
Definition AppendValue (timestamp : Z) (value : bytes) (s : store) : res (store * option err) :=
  match s with
  | None => Panic
  | Some st =>
      Ok match getColumns st with
         | None => (s, Some nil_err)
         | Some colInfo =>
             if readOnly st then (s, Some (Errorf "cannot perform update with RO connection"))
             else if negb (isLogstore colInfo)
             then (s, Some (Errorf "this table type does not support adding values by timestamp"))
             else
               match sql_Exec (insertLogSql (tableName st) (pk colInfo) (valueColumn colInfo))
                       [VInt timestamp; VBlob value] (conn st) with
               | (d, Some e) => (Some (with_conn st d), Some (Wrapf "appending row into %s: %w" e))
               | (d, None) => (Some (with_conn st d), None)
               end
         end
  end.

Definition DeleteRows (rowids : list Z) (s : store) : store * option err :=
  match s with
  | None => (s, Some nil_err)
  | Some st =>
      if readOnly st then (s, Some (Errorf "cannot perform deletes with RO connection"))
      else if is_empty rowids then (s, None)
      else
        let paramQs := Repeat (bs "?,") (length rowids) in
        let paramQs := take (length paramQs - 1) paramQs in
        match sql_Exec (deleteLogSql (tableName st) paramQs) (map VInt rowids) (conn st) with
        | (d, Some e) => (Some (with_conn st d), Some (Wrapf "deleting row from %s: %w" e))
        | (d, None) => (Some (with_conn st d), None)
        end
  end.

(** [ForEach(fn)]: as for the key/value stores, [fn] works on a state of its own *)
Fixpoint forEachRow {A} (fn : Z → Z → bytes → A → A * option err) (rows : list (list sqlval)) (a : A) : A * option err :=
  match rows with
  | [] => (a, None)
  | [VInt rowid; VInt timestamp; VText v] :: rows | [VInt rowid; VInt timestamp; VBlob v] :: rows =>
      match fn rowid timestamp v a with
      | (a, Some e) => (a, Some (Wrapf "caller error during foreach iteration: %w" e))
      | (a, None) => forEachRow fn rows a
      end
  | _ :: _ => (a, Some (Errorf "scanning foreach query: %w"))
  end.

Definition ForEach {A} (fn : Z → Z → bytes → A → A * option err) (s : store) (a : A) : res (A * option err) :=
  match s with
  | None => Panic
  | Some st =>
      match getColumns st with
      | None => Ok (a, Some nil_err)
      | Some colInfo =>
          if negb (isLogstore colInfo) then Ok (a, Some (Errorf "this table type is not supported for timestamped iteration"))
          else
            match sql_Query (selectLogSql (tableName st) (pk colInfo) (valueColumn colInfo)) [] (conn st) with
            | (_, Ok (rows, _)) => Ok (forEachRow fn rows a)
            | (_, Err e) => Ok (a, Some (Wrapf "issuing foreach query: %w" e))
            | (_, Panic) => Panic
            | (_, NoFuel) => NoFuel
            end
      end
  end.

(** [Write]: with the bytes written *)
Definition Write (now : Z) (p : bytes) (s : store) : res (store * (Z * option err)) :=
  match s with
  | None => Panic
  | Some st =>
      if readOnly st then Ok (s, (0, Some (Errorf "cannot perform write with RO connection")))
      else
        match getColumns st with
        | None => Ok (s, (0, Some nil_err))
        | Some colInfo =>
            if negb (isLogstore colInfo)
            then Ok (s, (0, Some (Errorf "this table type is not supported for timestamped logging")))
            else
              '(s, e) ← AppendValue now p s;
              Ok (s, match e with Some e => (0, Some e) | None => (len p, None) end)
        end
  end.

(** *** Opening the database *)
Inductive statResult : Type := StatExists | StatNotExist | StatError (e : err).

(** What the host answers while the database is opened *)
Record openEnv := OpenEnv {
  stat : statResult;
  open_ : option err;          (* sql.Open *)
  quickCheck : res bytes;      (* pragma quick_check *)
  removed : bool;              (* os.Remove *)
  create : option err;         (* os.Create *)
  ping : option err
}.

Definition validateDb (e : openEnv) : option err :=
  match stat e with
  | StatNotExist => Some (Errorf "db does not exist at %s")
  | StatError er => Some (Wrapf "determining if db exists: %w" er)
  | StatExists =>
      match open_ e with
      | Some er => Some (Wrapf "creating connection: %w" er)
      | None =>
          match quickCheck e with
          | Ok r => if bool_decide (r = bs "ok") then None else Some (Errorf "quick check did not pass: %s")
          | Err er => Some (Wrapf "running quick check: %w" er)
          | Panic | NoFuel => Some (Errorf "panic")
          end
      end
  end.

(** [validatedDbConn]: with what the file holds afterwards *)
Definition validatedDbConn (e : openEnv) (file : db) : db * res unit :=
  let connect d :=
    match open_ e with
    | Some er => (d, Err (Wrapf "opening startup db in %s: %w" er))
    | None =>
        match ping e with
        | Some er => (d, Err (Wrapf "establishing valid connection to startup db: ping error: %w" er))
        | None => (d, Ok tt)
        end
    end in
  match validateDb e with
  | None => connect file
  | Some _ =>
      match create e with
      | Some er => (if removed e then emptyDb else file, Err (Wrapf "creating file at %s: %w" er))
      | None => connect emptyDb
      end
  end.

(** [regexp.MustCompile(`no migration found for version \d+`)] *)
Fixpoint isMissingMigrationError (msg : bytes) : bool :=
  match cut_prefix (bs "no migration found for version ") msg with
  | Some (c :: _) => match digit c with Some _ => true | None => false end
  | _ => false
  end || match msg with [] => false | _ :: msg => isMissingMigrationError msg end.

Definition migrate (d : db) : db * option err :=
  match migrate_Up d with
  | (d, UpOk) | (d, UpNoChange) => (d, None)
  | (d, UpError msg) =>
      if isMissingMigrationError msg then (d, None) else (d, Some (Errorf "running migrations: %w"))
  | (d, UpDirty version) =>
      match migrate_Force version d with
      | (d, Some e) => (d, Some (Wrapf "forcing migration version %d: %w" e))
      | (d, None) => (d, None)
      end
  end.

Definition OpenRO (e : openEnv) (name : storeName) (file : db) : res store :=
  if is_empty (storeName_String name) then Err (Errorf "unsupported table %d")
  else
    match open_ e with
    | Some er => Err (Wrapf "opening startup db in %s: %w" er)
    | None => Ok (Some (Store file true (storeName_String name)))
    end.

Definition OpenRW (e : openEnv) (name : storeName) (file : db) : db * res store :=
  if is_empty (storeName_String name) then (file, Err (Errorf "unsupported table %d"))
  else
    match validatedDbConn e file with
    | (file, Ok _) =>
        match migrate file with
        | (file, Some er) => (file, Err (Wrapf "migrating the database: %w" er))
        | (file, None) => (file, Ok (Some (Store file false (storeName_String name))))
        end
    | (file, Err er) => (file, Err (Wrapf "opening startup db in %s: %w" er))
    | (file, Panic) => (file, Panic)
    | (file, NoFuel) => (file, NoFuel)
    end.

(** ** Facts *)
Context {SL : SqliteLaws}.

Lemma concat_replicate_join (p : bytes) n : p ≠ [] →
  concat (replicate (Datatypes.S n) (p ++ [x2c])) = join (bs ",") (replicate (Datatypes.S n) p) ++ [x2c].
Proof.
  intros Hp. induction n as [|n IH]; [cbn; by rewrite app_nil_r|].
  change (replicate (Datatypes.S (Datatypes.S n)) ?x) with (x :: replicate (Datatypes.S n) x).
  change (concat ((p ++ [x2c]) :: ?l)) with ((p ++ [x2c]) ++ concat l). rewrite IH.
  change (join (bs ",") (p :: replicate (Datatypes.S n) p)) with (p ++ bs "," ++ join (bs ",") (replicate (Datatypes.S n) p)).
  by rewrite <- !app_assoc.
Qed.

Lemma join_last (p : bytes) b n : ∃ q, join (bs ",") (replicate (Datatypes.S n) (p ++ [b])) = q ++ [b].
Proof.
  induction n as [|n [q IH]]; [by exists p|]. exists ((p ++ [b]) ++ bs "," ++ q).
  change (replicate (Datatypes.S (Datatypes.S n)) ?x) with (x :: replicate (Datatypes.S n) x).
  change (join (bs ",") (?x :: replicate (Datatypes.S n) ?x)) with (x ++ bs "," ++ join (bs ",") (replicate (Datatypes.S n) x)).
  rewrite IH. by rewrite <- !app_assoc.
Qed.

Lemma TrimRight_snoc s b c : (b =b c) = false → TrimRight ((s ++ [b]) ++ [c]) c = s ++ [b].
Proof.
  intros Hb. unfold TrimRight. rewrite !reverse_snoc. cbn [trim_left_char]. rewrite eqb_refl, Hb.
  by rewrite reverse_cons, reverse_involutive.
Qed.

(** The placeholders the code builds: as many as there are values, separated by commas *)
Lemma placeholders (p : bytes) b n : (b =b x2c) = false →
  TrimRight (Repeat ((p ++ [b]) ++ [x2c]) (Datatypes.S n)) x2c = join (bs ",") (replicate (Datatypes.S n) (p ++ [b])).
Proof.
  intros Hb. unfold Repeat. rewrite concat_replicate_join by (by destruct p).
  destruct (join_last p b n) as [q ->]. by apply TrimRight_snoc.
Qed.

Lemma value_placeholders {A} (l : list A) : l ≠ [] →
  TrimRight (Repeat (bs "(?, ?),") (length l)) x2c = join (bs ",") (replicate (length l) (bs "(?, ?)")).
Proof. intros Hl. destruct l as [|x l]; [done|]. exact (placeholders (bs "(?, ?") x29 (length l) eq_refl). Qed.

Lemma name_placeholders {A} (l : list A) : l ≠ [] →
  TrimRight (Repeat (bs "?,") (length l)) x2c = join (bs ",") (replicate (length l) (bs "?")).
Proof. intros Hl. destruct l as [|x l]; [done|]. exact (placeholders [] x3f (length l) eq_refl). Qed.

(** [paramQs[:len(paramQs)-1]] *)
Lemma param_placeholders {A} (l : list A) : l ≠ [] →
  take (length (Repeat (bs "?,") (length l)) - 1) (Repeat (bs "?,") (length l)) = join (bs ",") (replicate (length l) (bs "?")).
Proof.
  intros Hl. destruct l as [|x l]; [done|]. unfold Repeat. cbn [length]. change (bs "?,") with (bs "?" ++ [x2c]).
  rewrite (concat_replicate_join (bs "?") (length l)) by done.
  rewrite length_app. cbn [length]. rewrite Nat.add_sub. apply take_app_length.
Qed.

Lemma scanKeys_names names : scanKeys (map (λ k, [VText k]) names) = Ok names.
Proof. induction names as [|k names IH]; [done|]. cbn. by rewrite IH. Qed.

Lemma insert_pairs (pairs : list (bytes * bytes)) (m : gmap bytes bytes) k :
  NoDup (pairs.*1) →
  foldl (λ (m : gmap bytes bytes) kv, <[kv.1 := kv.2]> m) m pairs !! k =
    match (list_to_map pairs : gmap bytes bytes) !! k with Some v => Some v | None => m !! k end.
Proof.
  revert m. induction pairs as [|[k0 v0] pairs IH]; intros m Hn; cbn [foldl list_to_map foldr]; [by rewrite lookup_empty|].
  apply NoDup_cons in Hn as [Hk Hn]. cbn [fst] in Hk. rewrite IH by done. cbn [fst snd uncurry].
  destruct (decide (k = k0)) as [->|Hne].
  - rewrite lookup_insert_eq. apply not_elem_of_list_to_map in Hk. rewrite Hk. by rewrite lookup_insert_eq.
  - by rewrite !lookup_insert_ne.
Qed.

(** What an update leaves in a table *)
Definition tables_kept (t : bytes) (d d' : db) : Prop :=
  ∀ t', t' ≠ t → kvTable t' d' = kvTable t' d ∧ logTable t' d' = logTable t' d.

Lemma pairs_filtered (pairs : list (bytes * bytes)) (m : gmap bytes bytes) :
  NoDup pairs.*1 →
  filter (λ kv, kv.1 ∈ pairs.*1) (foldl (λ (m : gmap bytes bytes) kv, <[kv.1 := kv.2]> m) m pairs) = list_to_map pairs.
Proof.
  intros Hnd. apply map_eq. intros k. apply option_eq. intros v. rewrite map_lookup_filter_Some, insert_pairs by done. cbn [fst].
  destruct ((list_to_map pairs : gmap bytes bytes) !! k) as [w|] eqn:E.
  - apply elem_of_list_to_map_2 in E. apply (list_elem_of_fmap_2 fst) in E. by split; [intros [? _]|intros ?; split].
  - apply not_elem_of_list_to_map in E. by split; [intros [_ ?]|].
Qed.

Lemma stale_keys (pairs : list (bytes * bytes)) (m : gmap bytes bytes) :
  NoDup pairs.*1 →
  filter (λ kv, kv.1 ∉ pairs.*1) (foldl (λ (m : gmap bytes bytes) kv, <[kv.1 := kv.2]> m) m pairs) =
  filter (λ kv, kv.1 ∉ pairs.*1) m.
Proof.
  intros Hnd. apply map_eq. intros k. apply option_eq. intros v. rewrite !map_lookup_filter_Some, insert_pairs by done. cbn [fst].
  destruct ((list_to_map pairs : gmap bytes bytes) !! k) as [w|] eqn:E; [|done].
  apply elem_of_list_to_map_2 in E. apply (list_elem_of_fmap_2 fst) in E. by split; intros [_ ?].
Qed.

(** [Update] is atomic: it fails and leaves the database as it was, or the table holds exactly the pairs
    given and no other table changed.  The keys it returns were deleted: all that were stored and
    are not given, or only some of them, when the iteration over them breaks off, which is not reported. *)
Lemma Update_spec (kvPairs : list (bytes * bytes)) st m :
  kvTable (tableName st) (conn st) = Some m → readOnly st = false → kvPairs ≠ [] → NoDup kvPairs.*1 →
  (∃ e, Update kvPairs (Some st) = (Some st, Err e)) ∨
  ∃ d n deleted, Update kvPairs (Some st) = (Some (with_conn st d), Ok (take n deleted)) ∧
    kvTable (tableName st) d = Some (list_to_map kvPairs) ∧ tables_kept (tableName st) (conn st) d ∧
    deleted ≡ₚ (map_to_list (filter (λ kv, kv.1 ∉ kvPairs.*1) m)).*1.
Proof.
  intros Hm Hrw Hne Hnd. unfold Update. rewrite Hrw. destruct kvPairs as [|kv kvPairs']; [done|]. cbn [is_empty].
  set (pairs := kv :: kvPairs') in *.
  destruct (sql_Begin (conn st)) as [e|]; [left; by eexists|]. rewrite value_placeholders, name_placeholders by done.
  pose proof (upsert_spec (tableName st) pairs (conn st) m Hm Hne) as Hu.
  destruct (sql_Exec _ (pairArgs pairs) (conn st)) as [d1 [e|]]; [left; by eexists|]. destruct Hu as [Hm1 Hk1].
  pose proof (prune_spec (tableName st) pairs.*1 d1 _ Hm1 (λ E, Hne (fmap_nil_inv _ _ E))) as Hp. rewrite length_fmap in Hp.
  destruct (sql_Query _ (map VText pairs.*1) d1) as [d2 [[rows re]|e| |]]; [|left; by eexists|by destruct Hp..].
  destruct Hp as (Hm2 & (n & deleted & -> & _ & Hdel) & Hk2). rewrite scanKeys_names.
  destruct (sql_Commit (conn st) d2) as [e|]; [left; by eexists|right].
  exists d2, n, deleted. split; [done|]. split; [by rewrite Hm2, pairs_filtered|]. split; [|by rewrite stale_keys in Hdel].
  intros t' Ht. destruct (Hk2 t' Ht) as [-> ->], (Hk1 t' Ht) as [-> ->]. done.
Qed.

(** Nothing to store deletes nothing, where the interface says that keys that are not given are deleted. *)
Lemma Update_empty st : readOnly st = false → Update [] (Some st) = (Some st, Ok []).
Proof. unfold Update. by intros ->. Qed.

Lemma Get_spec key st m :
  kvTable (tableName st) (conn st) = Some m → Get key (Some st) = Ok (m !! key) ∨ ∃ e, Get key (Some st) = Err e.
Proof.
  intros Hm. unfold Get. destruct (select_spec (tableName st) key (conn st) m Hm) as [[e ->]| ->]; [right; by eexists|left].
  by destruct (m !! key).
Qed.

Lemma Set_spec key value st m :
  kvTable (tableName st) (conn st) = Some m →
  (∃ e, Set_ key value (Some st) = (Some st, Some e)) ∨
  ∃ d, Set_ key value (Some st) = (Some (with_conn st d), None) ∧ key ≠ [] ∧ readOnly st = false ∧
    kvTable (tableName st) d = Some (<[key := value]> m) ∧ tables_kept (tableName st) (conn st) d.
Proof.
  intros Hm. unfold Set_. destruct (readOnly st) eqn:Er; [left; by eexists|].
  destruct key as [|b key]; [left; by eexists|]. cbn [is_empty].
  pose proof (upsert_spec (tableName st) [(b :: key, value)] (conn st) m Hm ltac:(done)) as Hu. cbn in Hu.
  destruct (sql_Exec _ _ _) as [d [e|]] eqn:E; [left; subst d; by destruct st; eexists|right]. destruct Hu as [H1 H2]. by exists d.
Qed.

(** *** The log store *)
Definition collect (rowid timestamp : Z) (v : bytes) (acc : list (Z * (Z * bytes))) : list (Z * (Z * bytes)) * option err :=
  (acc ++ [(rowid, (timestamp, v))], None).

Lemma forEachRow_collect (l acc : list (Z * (Z * bytes))) :
  forEachRow collect (map (λ r, [VInt r.1; VInt r.2.1; VBlob r.2.2]) l) acc = (acc ++ l, None).
Proof.
  revert acc. induction l as [|[r [ts v]] l IH]; intros acc; cbn; [by rewrite app_nil_r|]. by rewrite IH, <- app_assoc.
Qed.

Definition is_watchdog (s : t) (l : list (Z * (Z * bytes))) : Prop :=
  tableName s = storeName_String WatchdogLogStore ∧ logTable (tableName s) (conn s) = Some l.

(** A log that [Write] accepts comes last in the table and is given to [ForEach] after those before it, an error leaves the
    logs as they were, and [DeleteRows] takes out the rows it is given.  [ForEach] does not report an
    iteration that breaks off: it then has seen a prefix. *)
Theorem logs_in_order now p st l : is_watchdog st l → readOnly st = false →
  (∃ e, Write now p (Some st) = Ok (Some st, (0, Some e))) ∨
  ∃ st' rowid, Write now p (Some st) = Ok (Some st', (len p, None)) ∧ is_watchdog st' (l ++ [(rowid, (now, p))]) ∧
    (rowid ∉ l.*1) ∧
    ((∃ e, ForEach collect (Some st') [] = Ok ([], Some e)) ∨
     ∃ n, ForEach collect (Some st') [] = Ok (take n (l ++ [(rowid, (now, p))]), None)) ∧
    ((∃ e, DeleteRows [rowid] (Some st') = (Some st', Some e)) ∨
     ∃ st'', DeleteRows [rowid] (Some st') = (Some st'', None) ∧ is_watchdog st'' l).
Proof.
  intros [Hn Hl] Hrw. unfold Write, AppendValue, ForEach, DeleteRows.
  assert (Hc : ∀ s, tableName s = storeName_String WatchdogLogStore → getColumns s = Some (Columns (bs "timestamp") (bs "log") true)).
  { intros s Hs. unfold getColumns. by rewrite Hs. }
  rewrite Hrw, (Hc st Hn). cbn [negb isLogstore pk valueColumn mbind res_bind].
  pose proof (insertLog_spec (tableName st) p now (conn st) l Hl) as Hi.
  destruct (sql_Exec (insertLogSql _ _ _) _ _) as [d [e|]]; [left; subst d; destruct st; by eexists|right].
  destruct Hi as (rowid & Hr & Hl'). exists (with_conn st d), rowid.
  assert (Hw : is_watchdog (with_conn st d) (l ++ [(rowid, (now, p))])) by done.
  split; [done|]. split; [done|]. split; [done|]. rewrite (Hc (with_conn st d) Hn).
  cbn [negb isLogstore pk valueColumn with_conn conn tableName readOnly is_empty]. rewrite ?Hrw. split.
  - destruct (selectLog_spec (tableName st) d _ Hl') as [[e ->]|(n & e & -> & _)]; [left; by eexists|right]. exists n.
    by rewrite forEachRow_collect.
  - rewrite (param_placeholders [rowid]) by done.
    pose proof (deleteLog_spec (tableName st) [rowid] d _ Hl' ltac:(done)) as Hd.
    destruct (sql_Exec (deleteLogSql _ _) _ _) as [d' [e|]]; [left; subst d'; by eexists|right]. eexists. split; [done|].
    split; [done|]. cbn [with_conn conn tableName]. rewrite Hd, filter_app, filter_cons_False by (cbn; set_solver).
    rewrite filter_nil, app_nil_r, filter_all; [done|]. apply Forall_forall. intros x Hx Hin.
    apply list_elem_of_singleton in Hin. apply Hr. rewrite <- Hin. by apply (list_elem_of_fmap_2 fst).
Qed.

(** *** Opening *)

(** Opening for writing succeeds when the file can be created and opened and the migrations run; a file that passes its check keeps
    what it holds.  But any failure of the check, and not only a check that finds the database corrupt, has
    the file replaced: everything stored is lost when the check cannot be run (the database is locked, the
    file cannot be looked up). *)
Theorem OpenRW_outcomes e name file :
  name ≠ OtherStore → open_ e = None → create e = None → ping e = None →
  (∀ d, (migrate d).2 = None) →
  (validateDb e = None → OpenRW e name file = ((migrate file).1, Ok (Some (Store (migrate file).1 false (storeName_String name))))) ∧
  (∀ er, (quickCheck e = Err er ∨ stat e = StatError er) →
     OpenRW e name file = ((migrate emptyDb).1, Ok (Some (Store (migrate emptyDb).1 false (storeName_String name))))).
Proof.
  intros Hn Ho Hc Hp Hm. unfold OpenRW. assert (Ene : is_empty (storeName_String name) = false) by (by destruct name).
  rewrite Ene. unfold validatedDbConn. rewrite Ho, Hc, Hp. split.
  - intros ->. specialize (Hm file). by destruct (migrate file) as [d [er|]].
  - intros er Her. assert (Hv : ∃ er', validateDb e = Some er').
    { unfold validateDb. rewrite Ho. destruct (stat e); [|by eexists..]. destruct Her as [->|?]; [by eexists|done]. }
    destruct Hv as [er' ->]. specialize (Hm emptyDb). by destruct (migrate emptyDb) as [d [er0|]].
Qed.

End Store.
End SqliteStore.

(** ** Examples: a database with the two tables *)
Module SqliteExamples.
Import Sqlite SqliteStore.

Record tables := Tables { settings : gmap bytes bytes; logs : list (Z * (Z * bytes)) }.

Fixpoint pairsOf (args : list sqlval) : option (list (bytes * bytes)) :=
  match args with
  | [] => Some []
  | VText k :: VText v :: args => match pairsOf args with Some l => Some ((k, v) :: l) | None => None end
  | _ => None
  end.

Fixpoint textsOf (args : list sqlval) : option (list bytes) :=
  match args with
  | [] => Some []
  | VText k :: args => match textsOf args with Some l => Some (k :: l) | None => None end
  | _ => None
  end.

Fixpoint intsOf (args : list sqlval) : option (list Z) :=
  match args with
  | [] => Some []
  | VInt k :: args => match intsOf args with Some l => Some (k :: l) | None => None end
  | _ => None
  end.

Definition ss : bytes := storeName_String StartupSettingsStore.
Definition wl : bytes := storeName_String WatchdogLogStore.
Definition no_such : err := Errorf "no such statement".

Definition nextRow (l : list (Z * (Z * bytes))) : Z := foldr Z.max 0 l.*1 + 1.

Definition exec (sql : bytes) (args : list sqlval) (d : tables) : tables * option err :=
  match pairsOf args, intsOf args, args with
  | Some ((_ :: _) as pairs), _, _ =>
      if bool_decide (sql = upsertSql ss (join (bs ",") (replicate (length pairs) (bs "(?, ?)"))))
      then (Tables (foldl (λ m kv, <[kv.1 := kv.2]> m) (settings d) pairs) (logs d), None)
      else (d, Some no_such)
  | _, Some ((_ :: _) as ids), _ =>
      if bool_decide (sql = deleteLogSql wl (join (bs ",") (replicate (length ids) (bs "?"))))
      then (Tables (settings d) (filter (λ r, r.1 ∉ ids) (logs d)), None)
      else (d, Some no_such)
  | _, _, [VInt ts; VBlob v] =>
      if bool_decide (sql = insertLogSql wl (bs "timestamp") (bs "log"))
      then (Tables (settings d) (logs d ++ [(nextRow (logs d), (ts, v))]), None)
      else (d, Some no_such)
  | _, _, _ => (d, Some no_such)
  end.

Definition query (sql : bytes) (args : list sqlval) (d : tables) : tables * res (list (list sqlval) * option err) :=
  if bool_decide (sql = selectLogSql wl (bs "timestamp") (bs "log")) then
    (d, Ok (map (λ r, [VInt r.1; VInt r.2.1; VBlob r.2.2]) (logs d), None))
  else
    match textsOf args with
    | Some ((k :: _) as names) =>
        if bool_decide (sql = selectSql ss)
        then (d, Ok (match settings d !! k with Some v => [[VText v]] | None => [] end, None))
        else if bool_decide (sql = deleteSql ss (join (bs ",") (replicate (length names) (bs "?"))))
        then (Tables (filter (λ kv, kv.1 ∈ names) (settings d)) (logs d),
              Ok (map (λ k, [VText k]) (map_to_list (filter (λ kv, kv.1 ∉ names) (settings d))).*1, None))
        else (d, Err no_such)
    | _ => (d, Err no_such)
    end.

#[export] Instance toyLib : SqliteLib := {|
  db := tables; emptyDb := Tables ∅ []; sql_Exec := exec; sql_Query := query; sql_Begin _ := None; sql_Commit _ _ := None;
  migrate_Up d := (d, UpNoChange); migrate_Force _ d := (d, None)
|}.

Lemma pairsOf_args pairs : pairsOf (pairArgs pairs) = Some pairs.
Proof. induction pairs as [|[k v] pairs IH]; [done|]. unfold pairArgs in *. cbn. by rewrite IH. Qed.

Lemma textsOf_map names : textsOf (map VText names) = Some names.
Proof. induction names as [|k names IH]; [done|]. cbn. by rewrite IH. Qed.

Lemma intsOf_map ids : intsOf (map VInt ids) = Some ids.
Proof. induction ids as [|k ids IH]; [done|]. cbn. by rewrite IH. Qed.

Lemma nextRow_fresh l : nextRow l ∉ l.*1.
Proof.
  unfold nextRow. assert (Hb : ∀ x, x ∈ l.*1 → x <= foldr Z.max 0 l.*1).
  { generalize l.*1 as k. induction k as [|y k IH]; intros x Hx; [by apply elem_of_nil in Hx|].
    cbn. apply elem_of_cons in Hx as [->|Hx]; [lia|]. specialize (IH x Hx). lia. }
  intros Hx%Hb. lia.
Qed.

#[export] Instance toyLaws : SqliteLaws.
Proof.
  refine {|
    kvTable t (d : @db toyLib) := if bool_decide (t = ss) then Some (settings d) else None;
    logTable t (d : @db toyLib) := if bool_decide (t = wl) then Some (logs d) else None
  |}.
  - intros t k d m Hm. case_bool_decide as Ht; [|done]. injection Hm as <-. right. subst t.
    unfold sql_Query, toyLib, query. rewrite bool_decide_false by (intros E; discriminate E). cbn [textsOf].
    by rewrite bool_decide_true.
  - intros t pairs d m Hm Hne. case_bool_decide as Ht; [|done]. injection Hm as <-. subst t.
    unfold sql_Exec, toyLib, exec. rewrite pairsOf_args. destruct pairs as [|p pairs]; [done|]. rewrite bool_decide_true by done.
    split; [done|]. intros t' Ht'. split; [by rewrite bool_decide_false|reflexivity].
  - intros t names d m Hm Hne. case_bool_decide as Ht; [|done]. injection Hm as <-. subst t.
    unfold sql_Query, toyLib, query. rewrite bool_decide_false by (intros E; discriminate E). rewrite textsOf_map.
    destruct names as [|k names]; [done|]. rewrite bool_decide_false by (intros E; discriminate E). rewrite bool_decide_true by done.
    split; [done|]. split; [|intros t' Ht'; split; [by rewrite bool_decide_false|reflexivity]].
    eexists (length _), _. by rewrite firstn_all.
  - intros t v ts d l Hl. case_bool_decide as Ht; [|done]. injection Hl as <-. subst t.
    unfold sql_Exec, toyLib, exec. cbn [pairsOf intsOf]. rewrite bool_decide_true by done. eexists. split; [apply nextRow_fresh|done].
  - intros t d l Hl. case_bool_decide as Ht; [|done]. injection Hl as <-. subst t. right.
    exists (length (logs d)), None. rewrite firstn_all. done.
  - intros t ids d l Hl Hne. case_bool_decide as Ht; [|done]. injection Hl as <-. subst t.
    unfold sql_Exec, toyLib, exec. rewrite intsOf_map. destruct ids as [|i ids]; [done|]. cbn [map pairsOf].
    by rewrite bool_decide_true.
Defined.

Lemma Get_settings key (d : @db toyLib) ro : Get key (Some (Store d ro ss)) = Ok (settings d !! key).
Proof.
  unfold Get, sql_Query, toyLib, query. cbn [tableName conn]. rewrite bool_decide_false by (intros Ed; discriminate Ed).
  cbn [textsOf]. rewrite bool_decide_true by done. by destruct (settings d !! key).
Qed.

Definition settingsStore : t := Store (Tables {[bs "old" := bs "x"]} []) false ss.

Example Update_example :
  ∃ d n deleted, Update [(bs "a", bs "1"); (bs "b", bs "2")] (Some settingsStore) = (Some (with_conn settingsStore d), Ok (take n deleted)) ∧
    kvTable ss d = Some (list_to_map [(bs "a", bs "1"); (bs "b", bs "2")]) ∧ deleted ≡ₚ [bs "old"].
Proof.
  destruct (Update_spec [(bs "a", bs "1"); (bs "b", bs "2")] settingsStore {[bs "old" := bs "x"]}) as [[e E]|(d & n & deleted & H1 & H2 & _ & H3)].
  - reflexivity.
  - reflexivity.
  - discriminate.
  - apply (bool_decide_unpack _). vm_compute. exact I.
  - exfalso. assert (Ho : match (Update [(bs "a", bs "1"); (bs "b", bs "2")] (Some settingsStore)).2 with Ok _ => True | _ => False end)
      by (vm_compute; exact I). rewrite E in Ho. exact Ho.
  - exists d, n, deleted. split; [exact H1|]. split; [exact H2|]. etrans; [exact H3|]. vm_compute. reflexivity.
Qed.

Definition logStore : t := Store (Tables ∅ [(1, (5, bs "up"))]) false wl.

Lemma logStore_logs : is_watchdog logStore [(1, (5, bs "up"))].
Proof. split; [reflexivity|]. vm_compute. reflexivity. Qed.

Lemma logs_in_order_witness :
  ∃ st' rowid, Write 7 (bs "down") (Some logStore) = Ok (Some st', (4, None)) ∧
    is_watchdog st' [(1, (5, bs "up")); (rowid, (7, bs "down"))].
Proof.
  destruct (logs_in_order 7 (bs "down") logStore [(1, (5, bs "up"))] logStore_logs eq_refl) as [[e E]|(st' & rowid & H1 & H2 & _)].
  - exfalso. assert (Ho : match Write 7 (bs "down") (Some logStore) with Ok (_, (_, None)) => True | _ => False end)
      by (vm_compute; exact I). rewrite E in Ho. exact Ho.
  - exists st', rowid. split; [exact H1|exact H2].
Defined.

(** A database with a setting, behind a check that could not be run *)
Definition locked : openEnv := OpenEnv StatExists None (Err (Errorf "database is locked")) true None None.

Definition oldDb : @db toyLib := Tables {[bs "old" := bs "x"]} [].

Lemma OpenRW_outcomes_witness : (OpenRW locked StartupSettingsStore oldDb).1 = Tables ∅ [].
Proof.
  assert (Hn : StartupSettingsStore ≠ OtherStore) by discriminate.
  rewrite (proj2 (OpenRW_outcomes locked StartupSettingsStore oldDb Hn eq_refl eq_refl eq_refl (λ d, eq_refl))
    (Errorf "database is locked") (or_introl eq_refl)).
  reflexivity.
Defined.

End SqliteExamples.
