(* ===== verification/StartupSettings.v ===== *)
(** * ee/agent/startupsettings: what the launcher needs before its stores are open

    [WriteSettings] copies the flags that choose versions, and the table configurations of each enrollment, from the knapsack to
    the sqlite store; the next launcher reads them there with a read-only connection. *)
From S2P Require Import Prelude Json Strings KVStore Enrollment Sqlite.
Set Warnings "-clear-no-such-hyp".

(** [json.Unmarshal] into a [map[string]json.RawMessage]: [Some None] for null; a raw value is given as
    [json.Marshal] writes it *)
Class SettingsJSON := { unmarshalObject : bytes → option (option (gmap bytes bytes)) }.

Module StartupSettings.
Import SqliteStore.

Section Settings.
Context {S : Type} `{KV : KVStore S} `{J : SettingsJSON} `{L : SqliteLib}.

Record knapsack := Knapsack {
  UpdateChannel : bytes;
  PinnedLauncherVersion : bytes;
  PinnedOsquerydVersion : bytes;
  ConfigStore : S;
  KatcConfigStore : S
}.

Definition EnrollmentIDs : list bytes := [Enrollment.DefaultEnrollmentID].

(** [storedFlags]: the flags and their getters *)
Definition storedFlags (k : knapsack) : list (bytes * bytes) :=
  [(bs "update_channel", UpdateChannel k); (bs "pinned_launcher_version", PinnedLauncherVersion k);
   (bs "pinned_osqueryd_version", PinnedOsquerydVersion k)].

Definition extractAutoTableConstructionConfig (enrollmentId : bytes) (k : knapsack) : res bytes :=
  osqConfig ← wrap "could not get osquery config from store: %w"
    (kv_Get (ConfigStore k) (Enrollment.KeyByIdentifier (bs "config") Enrollment.IdentifierTypeEnrollment enrollmentId));
  match unmarshalObject (default [] osqConfig) with
  | None => Err (Errorf "could not unmarshal osquery config: %w")
  | Some None => Ok (bs "null")
  | Some (Some configUnmarshalled) =>
      Ok (json_object (λ raw, raw) (filter (λ kv, kv.1 = bs "auto_table_construction") configUnmarshalled))
  end.

Definition extractKATCConstructionConfig (enrollmentId : bytes) (k : knapsack) : res bytes :=
  let fn (key v : bytes) (kolideCfg : gmap bytes bytes) :=
    let '(key, _, identifier) := Enrollment.SplitKey key in
    (if bool_decide (identifier = enrollmentId) then <[key := v]> kolideCfg else kolideCfg, None) in
  match kv_ForEach fn (KatcConfigStore k) ∅ with
  | (_, Some e) => Err (Wrapf "could not get Kolide ATC config from store: %w" e)
  | (kolideCfg, None) => Ok (json_object json_string kolideCfg)
  end.

(** What an enrollment adds: a configuration that cannot be extracted is logged and left out *)
Definition put (key : bytes) (r : res bytes) (m : gmap bytes bytes) : gmap bytes bytes :=
  match r with Ok v => <[key := v]> m | _ => m end.

Definition keyFor (key : string) (enrollmentId : bytes) : bytes :=
  Enrollment.KeyByIdentifier (bs key) Enrollment.IdentifierTypeEnrollment enrollmentId.

Definition enrollmentSettings (k : knapsack) (m : gmap bytes bytes) (enrollmentId : bytes) : gmap bytes bytes :=
  put (keyFor "katc_config" enrollmentId) (extractKATCConstructionConfig enrollmentId k)
    (put (keyFor "auto_table_construction" enrollmentId) (extractAutoTableConstructionConfig enrollmentId k) m).

Definition updatedFlags (k : knapsack) : gmap bytes bytes :=
  foldl (enrollmentSettings k)
    (<[bs "use_tuf_autoupdater" := bs "enabled"]>
      (foldl (λ m kv, <[kv.1 := kv.2]> m) ∅ (storedFlags k)))
    EnrollmentIDs.

(** [order]: the order in which Go ranges over a map *)
Definition WriteSettings (order : gmap bytes bytes → list (bytes * bytes)) (k : knapsack) (kvStore : store) : store * option err :=
  match Update (order (updatedFlags k)) kvStore with
  | (s, Err e) => (s, Some (Wrapf "writing settings: %w" e))
  | (s, Ok _) => (s, None)
  | (s, _) => (s, Some (Errorf "panic"))
  end.

(** [Ping] and [FlagsChanged] write the settings and log an error. *)
Definition Ping (order : gmap bytes bytes → list (bytes * bytes)) (k : knapsack) (kvStore : store) : store :=
  (WriteSettings order k kvStore).1.
Definition FlagsChanged (order : gmap bytes bytes → list (bytes * bytes)) (k : knapsack) (kvStore : store) : store :=
  (WriteSettings order k kvStore).1.

(** The reader (reader.go) *)
Definition Reader_Get (flagKey : bytes) (kvStore : store) : res bytes :=
  flagValue ← wrap "getting flag value %s: %w" (Get flagKey kvStore); Ok (default [] flagValue).

(** ** What a reader sees *)
Context {SL : SqliteLaws}.

Lemma put_other key r m x : x ≠ key → put key r m !! x = m !! x.
Proof. intros Hx. destruct r; cbn [put]; [by rewrite lookup_insert_ne|done..]. Qed.

(** The settings, read off: three flags, one constant, and the configurations that could be extracted *)
Lemma updatedFlags_lookup k :
  updatedFlags k !! bs "update_channel" = Some (UpdateChannel k) ∧
  updatedFlags k !! bs "pinned_launcher_version" = Some (PinnedLauncherVersion k) ∧
  updatedFlags k !! bs "pinned_osqueryd_version" = Some (PinnedOsquerydVersion k) ∧
  updatedFlags k !! bs "auto_table_construction" =
    match extractAutoTableConstructionConfig Enrollment.DefaultEnrollmentID k with Ok v => Some v | _ => None end ∧
  updatedFlags k !! bs "katc_config" =
    match extractKATCConstructionConfig Enrollment.DefaultEnrollmentID k with Ok v => Some v | _ => None end.
Proof.
  unfold updatedFlags, EnrollmentIDs. cbn [foldl storedFlags]. unfold enrollmentSettings.
  change (keyFor "katc_config" Enrollment.DefaultEnrollmentID) with (bs "katc_config").
  change (keyFor "auto_table_construction" Enrollment.DefaultEnrollmentID) with (bs "auto_table_construction").
  repeat split; rewrite ?put_other by (intros E; discriminate E); cbn [fst snd].
  1-3: repeat (rewrite lookup_insert_eq || rewrite lookup_insert_ne by (intros E; discriminate E)); done.
  - destruct (extractAutoTableConstructionConfig _ k); cbn [put];
      rewrite ?lookup_insert_eq; repeat rewrite lookup_insert_ne by (intros E; discriminate E); by rewrite ?lookup_empty.
  - destruct (extractKATCConstructionConfig _ k); cbn [put]; [by rewrite lookup_insert_eq|..].
    all: rewrite put_other by (intros E; discriminate E).
    all: repeat rewrite lookup_insert_ne by (intros E; discriminate E); by rewrite ?lookup_empty.
Qed.

Lemma updatedFlags_some k : updatedFlags k ≠ ∅.
Proof. intros E. pose proof (proj1 (updatedFlags_lookup k)) as H. rewrite E, lookup_empty in H. discriminate H. Qed.

Lemma WriteSettings_cases order k st m :
  (∀ m', order m' ≡ₚ map_to_list m') →
  kvTable (tableName st) (conn st) = Some m → readOnly st = false →
  (∃ e, WriteSettings order k (Some st) = (Some st, Some e)) ∨
  ∃ d, WriteSettings order k (Some st) = (Some (with_conn st d), None) ∧
    kvTable (tableName st) d = Some (updatedFlags k) ∧ tables_kept (tableName st) (conn st) d.
Proof.
  intros Ho Hm Hrw. unfold WriteSettings. pose proof (Ho (updatedFlags k)) as Hp.
  assert (Hnd : NoDup (order (updatedFlags k)).*1) by (rewrite Hp; apply NoDup_fst_map_to_list).
  assert (Hne : order (updatedFlags k) ≠ []).
  { intros E. rewrite E in Hp. apply (updatedFlags_some k), map_to_list_empty_iff. by apply Permutation_nil. }
  destruct (Update_spec (order (updatedFlags k)) st m Hm Hrw Hne Hnd) as [[e ->]|(d & n & deleted & -> & Hd & Hkept & _)];
    [left; by eexists|right]. exists d. split; [done|]. split; [|done]. rewrite Hd. f_equal.
  rewrite <- (list_to_map_to_list (updatedFlags k)) at 2. by apply list_to_map_proper.
Qed.

(** After settings are written, a launcher that opens the database reads exactly them: the knapsack's value
    of each flag and each table configuration that could be extracted, and a blank value for every other key (a read
    may still fail).  When writing fails the database is as it was. *)
Theorem settings_read_back order k st m :
  (∀ m', order m' ≡ₚ map_to_list m') →
  kvTable (tableName st) (conn st) = Some m → readOnly st = false →
  match WriteSettings order k (Some st) with
  | (s', Some _) => s' = Some st
  | (s', None) => ∃ st', s' = Some st' ∧ tables_kept (tableName st) (conn st) (conn st') ∧ ∀ key,
      let r := Reader_Get key (Some (Store (conn st') true (tableName st))) in
      r = Ok (default [] (updatedFlags k !! key)) ∨ ∃ er, r = Err er
  end.
Proof.
  intros Ho Hm Hrw. destruct (WriteSettings_cases order k st m Ho Hm Hrw) as [[e ->]|(d & -> & Hd & Hkept)]; [done|].
  exists (with_conn st d). split; [done|]. split; [done|]. intros key. cbn zeta. cbn [with_conn conn]. unfold Reader_Get.
  destruct (Get_spec key (Store d true (tableName st)) _ Hd) as [->|[er ->]]; [by left|right; by eexists].
Qed.

(** A configuration that cannot be read at the moment is erased from the database: when the config store fails, or
    holds what does not decode, the write deletes the table configuration stored before, which the next
    launcher needs at startup. *)
Theorem failed_extract_erases order k st m e old :
  (∀ m', order m' ≡ₚ map_to_list m') →
  kvTable (tableName st) (conn st) = Some m → readOnly st = false →
  m !! bs "auto_table_construction" = Some old →
  extractAutoTableConstructionConfig Enrollment.DefaultEnrollmentID k = Err e →
  match WriteSettings order k (Some st) with
  | (s', Some _) => s' = Some st
  | (s', None) => ∃ st' m', s' = Some st' ∧ kvTable (tableName st) (conn st') = Some m' ∧
      m' !! bs "auto_table_construction" = None
  end.
Proof.
  intros Ho Hm Hrw _ Hex. destruct (WriteSettings_cases order k st m Ho Hm Hrw) as [[er ->]|(d & -> & Hd & _)]; [done|].
  exists (with_conn st d), (updatedFlags k). split; [done|]. split; [done|].
  destruct (updatedFlags_lookup k) as (_ & _ & _ & Ha & _). by rewrite Ha, Hex.
Qed.

End Settings.
(** ** Examples *)
#[local] Instance toyJSON : SettingsJSON := {| unmarshalObject raw := if is_empty raw then None else Some (Some ∅) |}.

Definition fresh : @knapsack InMemory.store :=
  Knapsack (bs "stable") [] (bs "5.0.0") InMemory.NewStore InMemory.NewStore.

Import SqliteExamples.

Definition earlier : @db toyLib := Tables {[bs "auto_table_construction" := bs "{}"]} [].
Definition before : t := Store earlier false ss.

Definition written : bool := match WriteSettings map_to_list fresh (Some before) with (_, None) => true | _ => false end.

Lemma settings_written : written = true.
Proof. vm_compute. reflexivity. Qed.

Lemma settings_read_back_witness :
  ∃ st', WriteSettings map_to_list fresh (Some before) = (Some st', None) ∧
    Reader_Get (bs "update_channel") (Some (Store (conn st') true ss)) = Ok (bs "stable").
Proof.
  pose proof (settings_read_back map_to_list fresh before {[bs "auto_table_construction" := bs "{}"]}
    (λ m', Permutation_refl _) eq_refl eq_refl) as Hr.
  pose proof settings_written as Hw. unfold written in Hw.
  destruct (WriteSettings map_to_list fresh (Some before)) as [s' [e|]]; [discriminate Hw|].
  destruct Hr as (st' & -> & _ & Hr). exists st'. split; [reflexivity|].
  destruct (Hr (bs "update_channel")) as [E|[er E]].
  - etransitivity; [exact E|]. rewrite (proj1 (updatedFlags_lookup fresh)). reflexivity.
  - exfalso. change (tableName before) with ss in E. unfold Reader_Get in E. rewrite (Get_settings (bs "update_channel") (conn st') true) in E. discriminate E.
Defined.

Lemma failed_extract_erases_witness :
  ∃ st' m', WriteSettings map_to_list fresh (Some before) = (Some st', None) ∧
    kvTable ss (conn st') = Some m' ∧ m' !! bs "auto_table_construction" = None.
Proof.
  pose proof (failed_extract_erases map_to_list fresh before {[bs "auto_table_construction" := bs "{}"]} _ (bs "{}")
    (λ m', Permutation_refl _) eq_refl eq_refl (lookup_singleton_eq _ _) eq_refl) as Hr.
  pose proof settings_written as Hw. unfold written in Hw.
  destruct (WriteSettings map_to_list fresh (Some before)) as [s' [e|]]; [discriminate Hw|].
  destruct Hr as (st' & m' & -> & Hm & Hn). exists st', m'. split; [reflexivity|]. split; [exact Hm|exact Hn].
Defined.

End StartupSettings.
