(* ===== verification/Publication.v ===== *)
(** * pkg/osquery: the size of log batches (log_publication_state.go)

    The limit on the bytes of a batch follows the network: a batch that fails slowly lowers
    it, a full batch that is sent raises it, never outside its bounds. *)
From S2P Require Import Prelude.

Module Publication.

Definition minBytesPerBatch : Z := 524288.
Definition batchIncrementAmount : Z := 524288.
Definition maxPublicationDuration : Z := 20 * 10 ^ 9.

Definition minInt (a b : Z) : Z := if a <? b then a else b.
Definition maxInt (a b : Z) : Z := if b <? a then a else b.

(** [currentBatchStartTime] is [None] for the zero time, which is longer ago than any duration *)
Record logPublicationState := State {
  maxBytesPerBatch : Z;
  currentMaxBytesPerBatch : Z;
  currentBatchBufferFilled : bool;
  currentBatchStartTime : option Z
}.

Definition NewLogPublicationState (maxBytesPerBatch : Z) : logPublicationState :=
  State maxBytesPerBatch maxBytesPerBatch false None.

Definition BeginBatch (startTime : Z) (bufferFilled : bool) (lps : logPublicationState) : logPublicationState :=
  State (maxBytesPerBatch lps) (currentMaxBytesPerBatch lps) bufferFilled (Some startTime).

Definition with_current (lps : logPublicationState) (z : Z) : logPublicationState :=
  State (maxBytesPerBatch lps) z (currentBatchBufferFilled lps) (currentBatchStartTime lps).

Definition reduceBatchThreshold (lps : logPublicationState) : logPublicationState :=
  if currentMaxBytesPerBatch lps <=? minBytesPerBatch then lps
  else with_current lps (maxInt (currentMaxBytesPerBatch lps - batchIncrementAmount) minBytesPerBatch).

Definition increaseBatchThreshold (lps : logPublicationState) : logPublicationState :=
  if maxBytesPerBatch lps <=? currentMaxBytesPerBatch lps then lps
  else with_current lps (minInt (currentMaxBytesPerBatch lps + batchIncrementAmount) (maxBytesPerBatch lps)).

Definition failedSlowly (now : Z) (lps : logPublicationState) : bool :=
  match currentBatchStartTime lps with
  | Some start => negb (now - start <? maxPublicationDuration)
  | None => true
  end.

(** [EndBatch]; the logs are not looked at *)
Definition EndBatch (now : Z) (successful : bool) (lps : logPublicationState) : logPublicationState :=
  let lps' :=
    if successful && negb (currentBatchBufferFilled lps) then lps
    else if negb successful && negb (failedSlowly now lps) then lps
    else if successful then increaseBatchThreshold lps
    else reduceBatchThreshold lps in
  State (maxBytesPerBatch lps') (currentMaxBytesPerBatch lps') false None.

Definition ExceedsMaxBatchThreshold (amountBytes : Z) (lps : logPublicationState) : bool :=
  maxBytesPerBatch lps <? amountBytes.
Definition ExceedsCurrentBatchThreshold (amountBytes : Z) (lps : logPublicationState) : bool :=
  currentMaxBytesPerBatch lps <? amountBytes.

(** ** The limit stays within its bounds *)
Definition limits (max : Z) (lps : logPublicationState) : Prop :=
  maxBytesPerBatch lps = max ∧ Z.min minBytesPerBatch max <= currentMaxBytesPerBatch lps <= max.

Lemma limits_New max : limits max (NewLogPublicationState max).
Proof. unfold limits. cbn [NewLogPublicationState maxBytesPerBatch currentMaxBytesPerBatch]. lia. Qed.

Lemma limits_Begin max t filled lps : limits max lps → limits max (BeginBatch t filled lps).
Proof. done. Qed.

Lemma limits_reduce max lps : limits max lps → limits max (reduceBatchThreshold lps).
Proof.
  unfold limits, reduceBatchThreshold, maxInt, minBytesPerBatch, batchIncrementAmount. intros [H1 H2].
  case_if; [done|]. cbn [with_current maxBytesPerBatch currentMaxBytesPerBatch]. split; [done|]. case_if; lia.
Qed.

Lemma limits_increase max lps : limits max lps → limits max (increaseBatchThreshold lps).
Proof.
  unfold limits, increaseBatchThreshold, minInt, minBytesPerBatch, batchIncrementAmount. intros [H1 H2].
  case_if; [done|]. cbn [with_current maxBytesPerBatch currentMaxBytesPerBatch]. split; [done|]. case_if; lia.
Qed.

Lemma limits_End max now ok lps : limits max lps → limits max (EndBatch now ok lps).
Proof.
  intros H. unfold EndBatch. repeat case_if; unfold limits in *;
    cbn [maxBytesPerBatch currentMaxBytesPerBatch]; auto using limits_reduce, limits_increase.
  - by apply limits_increase in H.
  - by apply limits_reduce in H.
Qed.

(** One batch: whether its buffer was filled, how long it took and whether it was sent *)
Record batch := Batch { filled : bool; took : Z; sent : bool }.

Definition run_batch (now : Z) (lps : logPublicationState) (b : batch) : logPublicationState :=
  EndBatch (now + took b) (sent b) (BeginBatch now (filled b) lps).

(** What a batch does to the limit *)
Lemma run_batch_current now lps b :
  currentMaxBytesPerBatch (run_batch now lps b) =
    let c := currentMaxBytesPerBatch lps in
    if sent b then if filled b && (c <? maxBytesPerBatch lps) then Z.min (c + batchIncrementAmount) (maxBytesPerBatch lps) else c
    else if (maxPublicationDuration <=? took b) && (minBytesPerBatch <? c) then Z.max (c - batchIncrementAmount) minBytesPerBatch
    else c.
Proof.
  unfold run_batch, EndBatch, failedSlowly, increaseBatchThreshold, reduceBatchThreshold, minInt, maxInt, minBytesPerBatch,
    batchIncrementAmount.
  cbn [BeginBatch currentBatchBufferFilled currentBatchStartTime currentMaxBytesPerBatch maxBytesPerBatch].
  replace (now + took b - now) with (took b) by lia.
  destruct (sent b), (filled b); cbn [andb negb]; try done;
    repeat (match goal with
            | |- context [?x <? ?y] => destruct (Z.ltb_spec x y)
            | |- context [?x <=? ?y] => destruct (Z.leb_spec x y)
            end; cbn [andb negb currentMaxBytesPerBatch with_current maxBytesPerBatch]); first [lia|reflexivity].
Qed.

Lemma run_batch_max now lps b : maxBytesPerBatch (run_batch now lps b) = maxBytesPerBatch lps.
Proof.
  unfold run_batch, EndBatch, increaseBatchThreshold, reduceBatchThreshold. by repeat case_if.
Qed.

(** Whatever happens to the batches, the limit stays between half a megabyte and the
    configured maximum (at the maximum, when that is smaller). *)
Theorem limit_bounds max (batches : list (Z * batch)) :
  limits max (foldl (λ lps nb, run_batch nb.1 lps nb.2) (NewLogPublicationState max) batches).
Proof.
  assert (H : ∀ lps, limits max lps → limits max (foldl (λ lps nb, run_batch nb.1 lps nb.2) lps batches)).
  { induction batches as [|b l IH]; intros lps Hl; [done|]. apply IH. by apply limits_End. }
  apply H, limits_New.
Qed.

(** The limit recovers: after [n] batches that fail slowly followed by as many full batches
    that are sent, the limit is back where it was or at the maximum; while failing it reaches
    the minimum after [max / 0.5MB] batches. *)
Theorem limit_recovers max n now :
  minBytesPerBatch <= max →
  let fails := repeat (Batch true maxPublicationDuration false) n in
  let sends := repeat (Batch true 0 true) n in
  let low := foldl (run_batch now) (NewLogPublicationState max) fails in
  currentMaxBytesPerBatch low = Z.max (max - Z.of_nat n * batchIncrementAmount) minBytesPerBatch ∧
  currentMaxBytesPerBatch (foldl (run_batch now) low sends) = max.
Proof.
  intros Hmax fails sends low.
  assert (Hfail : ∀ k lps, maxBytesPerBatch lps = max → minBytesPerBatch <= currentMaxBytesPerBatch lps →
    let lps' := foldl (run_batch now) lps (repeat (Batch true maxPublicationDuration false) k) in
    maxBytesPerBatch lps' = max ∧
    currentMaxBytesPerBatch lps' = Z.max (currentMaxBytesPerBatch lps - Z.of_nat k * batchIncrementAmount) minBytesPerBatch).
  { induction k as [|k IH]; intros lps H1 H2; cbn [repeat foldl]; [split; [done|lia]|].
    pose proof (run_batch_current now lps (Batch true maxPublicationDuration false)) as E.
    cbn [sent took filled] in E. rewrite Z.leb_refl in E. cbn [andb] in E. cbv zeta in E.
    destruct (IH (run_batch now lps (Batch true maxPublicationDuration false))) as [IH1 IH2].
    - by rewrite run_batch_max.
    - rewrite E. case_if; lia.
    - split; [done|]. rewrite IH2, E. unfold minBytesPerBatch, batchIncrementAmount in *. case_if; lia. }
  assert (Hsend : ∀ k lps, maxBytesPerBatch lps = max → currentMaxBytesPerBatch lps <= max →
    currentMaxBytesPerBatch (foldl (run_batch now) lps (repeat (Batch true 0 true) k)) =
      Z.min (currentMaxBytesPerBatch lps + Z.of_nat k * batchIncrementAmount) max).
  { induction k as [|k IH]; intros lps H1 H2; cbn [repeat foldl]; [lia|].
    pose proof (run_batch_current now lps (Batch true 0 true)) as E.
    cbn [sent took filled] in E. cbn [andb] in E. cbv zeta in E. rewrite IH.
    - rewrite E, H1. unfold batchIncrementAmount in *. case_if; lia.
    - by rewrite run_batch_max.
    - rewrite E, H1. case_if; lia. }
  destruct (Hfail n (NewLogPublicationState max) eq_refl Hmax) as [H1 H2]. split; [exact H2|].
  unfold low, sends, fails. rewrite Hsend; [|done|rewrite H2; cbn [NewLogPublicationState currentMaxBytesPerBatch]; unfold batchIncrementAmount; lia].
  rewrite H2. cbn [NewLogPublicationState currentMaxBytesPerBatch]. unfold minBytesPerBatch, batchIncrementAmount in *. lia.
Qed.

Lemma limit_recovers_witness :
  let low := foldl (run_batch 0) (NewLogPublicationState (3 * 2 ^ 20)) (repeat (Batch true maxPublicationDuration false) 8) in
  currentMaxBytesPerBatch low = minBytesPerBatch ∧
  currentMaxBytesPerBatch (foldl (run_batch 0) low (repeat (Batch true 0 true) 8)) = 3 * 2 ^ 20.
Proof. apply (limit_recovers (3 * 2 ^ 20) 8 0). vm_compute. discriminate. Defined.
End Publication.
