(* ===== verification/Extension.v ===== *)
(** * pkg/osquery: the osquery extension (extension.go)

    The extension stands between osquery and the server: it enrolls the host, hands out the
    configuration and the distributed queries, and ships the buffered logs in batches.  Every
    request may be answered with "node invalid", which leads to one re-enrollment and one
    more attempt. *)
From S2P Require Import Prelude Strings KVStore Flags Enrollment Publication.
Set Warnings "-clear-no-such-hyp".
Import Enrollment Publication.

Module Extension.

Definition uuidKey : bytes := bs "uuid".
Definition configKey : bytes := bs "config".
Definition defaultMaxBytesPerBatch : Z := Z.shiftl 3 20.
Definition defaultLoggingInterval : Z := 60 * Flags.second.
Definition defaultMaxBufferedLogs : Z := 500000.
Definition osqueryDistributedInterval : Z := 5.

(** Log types (osquery-go's logger package) *)
Inductive logType : Type :=
| LogTypeString | LogTypeSnapshot | LogTypeHealth | LogTypeInit | LogTypeStatus | OtherLogType.

(** An error of the service: [errors.Is(err, ErrDeviceDisabled{})] and [isNodeInvalidErr(err)] *)
Record svcErr := SvcErr { deviceDisabled : bool; unauthenticated : bool; cause : err }.

Definition isNodeInvalidErr (e : option svcErr) : bool :=
  match e with Some e => unauthenticated e | None => false end.

Record enrollResponse := EnrollResponse {
  NodeInvalid : bool;
  DeploymentURLs : option (bytes * bytes * bytes);   (* enrollment, control server, osquery publisher *)
  WrongRegion : bool;
  r_NodeKey : bytes;
  AgentIngesterToken : bytes;
  AgentIngesterHPKEPublicKey : bytes;
  AgentIngesterHPKEPresharedKey : bytes
}.

(** What leaves the launcher, and the end of the process.  [acked]: the server accepted the logs *)
Inductive event (R : Type) : Type :=
| EvEnroll (secret identifier : bytes)
| EvConfig (nodeKey : bytes)
| EvLogs (nodeKey : bytes) (typ : logType) (logs : list bytes) (acked : bool)
| EvQueries (nodeKey : bytes)
| EvResults (nodeKey : bytes) (results : list R)
| EvIngestLogs (typ : logType) (logs : list bytes)
| EvIngestResults (results : list R)
| EvPing
| EvWriteSettings
| EvNotify (n : list Flags.notification)
| EvUninstall.                                       (* uninstall.Uninstall ends in os.Exit *)
Arguments EvEnroll {R}. Arguments EvConfig {R}. Arguments EvLogs {R}. Arguments EvQueries {R}.
Arguments EvResults {R}. Arguments EvIngestLogs {R}. Arguments EvIngestResults {R}. Arguments EvPing {R}.
Arguments EvWriteSettings {R}. Arguments EvNotify {R}. Arguments EvUninstall {R}.

(** JSON objects, as far as the options need them: [decodeObject] is [json.Unmarshal] into a
    map ([Some None] for the text "null", which leaves the map nil) *)
Class OptionsJSON := {
  any : Type;
  decodeObject : bytes → option (option (gmap bytes any));
  encodeObject : gmap bytes any → option bytes;
  asObject : any → option (gmap bytes any);
  ofObject : gmap bytes any → any;
  ofBool : bool → any;
  ofInt : Z → any
}.

(** A reply and the time until it came *)
Record reply (A : Type) := Reply { took : Z; val : A }.
Arguments Reply {A}. Arguments took {A}. Arguments val {A}.

(** The world: what the server answers, given everything sent before.  [R] and [Q] are the types of
    results and queries of osquery-go. *)
Record world (R Q : Type) := World {
  RequestEnrollment : list (event R) → bytes → bytes → reply (option enrollResponse * option svcErr);
  RequestConfig : list (event R) → bytes → reply (bytes * bool * option svcErr);
  PublishLogs : list (event R) → bytes → logType → list bytes → reply (bool * option svcErr);
  RequestQueries : list (event R) → bytes → reply (Q * bool * option svcErr);
  PublishResults : list (event R) → bytes → list R → reply (bool * option svcErr);
  NewRandomUUID : list (event R) → option bytes;
  LatestInstanceUptimeMinutes : list (event R) → option Z
}.
Arguments RequestEnrollment {R Q}. Arguments RequestConfig {R Q}. Arguments PublishLogs {R Q}.
Arguments RequestQueries {R Q}. Arguments PublishResults {R Q}. Arguments NewRandomUUID {R Q}.
Arguments LatestInstanceUptimeMinutes {R Q}.

(** [GetQueriesResult] *)
Record queriesResult (Q : Type) := QueriesResult { Queries : Q; AccelerateSeconds : Z }.
Arguments QueriesResult {Q}. Arguments Queries {Q}. Arguments AccelerateSeconds {Q}.

(** Sets the osquery options of startup and of later; both keep the distributed interval. *)
Definition startupVerbose : bool := true.
Definition postStartupVerbose : bool := false.

Section Extension.
Context {S : Type} `{KV : KVStore S} `{AP : !KVAppend S} `{EL : EnrollLib} `{FL : Flags.FlagsLib} `{OJ : OptionsJSON}.
Context {R Q : Type}.
Variable w : world R (queriesResult Q).
Variable noQueries : Q.                     (* of an empty GetQueriesResult *)
Variable parseUUID : bytes → option bytes.  (* uuid.ParseBytes, printed *)
Variable enrollmentId : bytes.
Variable hasPublisher : bool.

Record ExtensionOpts := Opts { MaxBytesPerBatch : Z; LoggingInterval : Z; MaxBufferedLogs : Z }.

Record extension := Ext {
  opts : ExtensionOpts;
  knap : @knapsack S;
  flagc : @Flags.controller S _;
  StatusLogsStore : S;
  ResultLogsStore : S;
  publication : logPublicationState;
  lastRequestQueriesTimestamp : Z;
  distributedForwardingInterval : Z;
  forwardAllDistributedUntil : Z;
  interrupted : bool;
  now : Z;                                  (* time.Now(), in nanoseconds *)
  trace : list (event R)
}.

Definition with_knap (e : extension) (k : knapsack) : extension :=
  Ext (opts e) k (flagc e) (StatusLogsStore e) (ResultLogsStore e) (publication e) (lastRequestQueriesTimestamp e)
    (distributedForwardingInterval e) (forwardAllDistributedUntil e) (interrupted e) (now e) (trace e).
Definition with_flags (e : extension) (fc : Flags.controller) : extension :=
  Ext (opts e) (knap e) fc (StatusLogsStore e) (ResultLogsStore e) (publication e) (lastRequestQueriesTimestamp e)
    (distributedForwardingInterval e) (forwardAllDistributedUntil e) (interrupted e) (now e) (trace e).
Definition with_stores (e : extension) (st rs : S) : extension :=
  Ext (opts e) (knap e) (flagc e) st rs (publication e) (lastRequestQueriesTimestamp e)
    (distributedForwardingInterval e) (forwardAllDistributedUntil e) (interrupted e) (now e) (trace e).
Definition with_publication (e : extension) (p : logPublicationState) : extension :=
  Ext (opts e) (knap e) (flagc e) (StatusLogsStore e) (ResultLogsStore e) p (lastRequestQueriesTimestamp e)
    (distributedForwardingInterval e) (forwardAllDistributedUntil e) (interrupted e) (now e) (trace e).
Definition with_queries (e : extension) (last interval until : Z) : extension :=
  Ext (opts e) (knap e) (flagc e) (StatusLogsStore e) (ResultLogsStore e) (publication e) last interval until
    (interrupted e) (now e) (trace e).
Definition with_interrupted (e : extension) : extension :=
  Ext (opts e) (knap e) (flagc e) (StatusLogsStore e) (ResultLogsStore e) (publication e) (lastRequestQueriesTimestamp e)
    (distributedForwardingInterval e) (forwardAllDistributedUntil e) true (now e) (trace e).
Definition emit (ev : event R) (took : Z) (e : extension) : extension :=
  Ext (opts e) (knap e) (flagc e) (StatusLogsStore e) (ResultLogsStore e) (publication e) (lastRequestQueriesTimestamp e)
    (distributedForwardingInterval e) (forwardAllDistributedUntil e) (interrupted e) (now e + took) (trace e ++ [ev]).

(** [time.Now().Unix()] *)
Definition unix (e : extension) : Z := now e / Flags.second.

(** ** The host identifier *)
Definition uuidKeyFor : bytes := KeyByIdentifier uuidKey IdentifierTypeEnrollment enrollmentId.
Definition configKeyFor : bytes := KeyByIdentifier configKey IdentifierTypeEnrollment enrollmentId.

Definition IdentifierFromDB (newUUID : option bytes) (configStore : S) : S * res bytes :=
  let uuidBytes := match kv_Get configStore uuidKeyFor with Ok v => default [] v | _ => [] end in
  match parseUUID uuidBytes with
  | Some identifier => (configStore, Ok identifier)
  | None =>
      match newUUID with
      | None => (configStore, Err (Errorf "generating new UUID"))
      | Some identifier =>
          match kv_Set uuidKeyFor identifier configStore with
          | (s, Some e) => (s, Err (Wrapf "saving new UUID: %w" e))
          | (s, None) => (s, Ok identifier)
          end
      end
  end.

(** A nil config store panics. *)
Definition getHostIdentifier (e : extension) : extension * res bytes :=
  match ConfigStore (knap e) with
  | None => (e, Panic)
  | Some s =>
      let '(s, r) := IdentifierFromDB (NewRandomUUID w (trace e)) s in
      (with_knap e (with_config (knap e) s), r)
  end.

(** [Config] *)
Definition Config (getter : S) : res bytes :=
  key ← wrap "error getting config key: %w" (kv_Get getter configKeyFor);
  Ok (default [] key).

(** ** Enrollment *)
Definition nodeKey (e : extension) : bytes :=
  match NodeKey enrollmentId (knap e) with Ok k => k | _ => [] end.

Definition enrolled (e : extension) : bool := negb (is_empty (nodeKey e)).

(** One of the three URLs of a response: set when it is there and differs *)
Definition updateURL (current : Flags.controller → bytes)
    (set : bytes → Flags.controller → Flags.controller * list Flags.notification * option err)
    (url : bytes) (e : extension) : extension :=
  if negb (is_empty url) && negb (bool_decide (url = current (flagc e))) then
    let '(fc, n, _) := set url (flagc e) in emit (EvNotify n) 0 (with_flags e fc)
  else e.

Definition updateURLs (urls : option (bytes * bytes * bytes)) (e : extension) : extension :=
  match urls with
  | None => e
  | Some (enrollment, control, publisher) =>
      updateURL Flags.OsqueryPublisherURL Flags.SetOsqueryPublisherURL publisher
        (updateURL Flags.ControlServerURL Flags.SetControlServerURL control
          (updateURL Flags.KolideServerURL Flags.SetKolideServerURL enrollment e))
  end.

Definition uninstall (e : extension) : extension := emit EvUninstall 0 e.

(** [Enroll]: the node key, whether the node is invalid, and the error.  The enrollment details
    are left out of the request, and the wait for them counts as time of the request. *)
Definition Enroll (e : extension) : extension * (bytes * bool * option err) :=
  let currentNodeKey := nodeKey e in
  if negb (is_empty currentNodeKey) then
    (with_knap e (EnsureEnrollmentStored enrollmentId (knap e)).1, (currentNodeKey, false, None))
  else
    match ReadEnrollSecret (knap e) with
    | Ok enrollSecret =>
        match getHostIdentifier e with
        | (e, Ok identifier) =>
            let r := RequestEnrollment w (trace e) enrollSecret identifier in
            let e := emit (EvEnroll enrollSecret identifier) (took r) e in
            let '(resp, err) := val r in
            match err with
            | Some se =>
                if deviceDisabled se
                then (uninstall e, ([], true, Some (Wrapf "device disabled, should have uninstalled: %w" (cause se))))
                else if unauthenticated se
                then (e, ([], true, Some (Wrapf "enrollment invalid: %w" (cause se))))
                else (e, ([], true, Some (Wrapf "transport error getting queries: %w" (cause se))))
            | None =>
                match resp with
                | None => (e, ([], false, Some (Errorf "node received empty response")))
                | Some resp =>
                    if NodeInvalid resp
                    then (e, ([], true, Some (Wrapf "enrollment invalid: %w" (Errorf "no further error"))))
                    else
                      let e := updateURLs (DeploymentURLs resp) e in
                      if WrongRegion resp
                      then (e, ([], false, Some (Errorf "wrong region, updated deployment URLs to try again later")))
                      else if is_empty (r_NodeKey resp)
                      then (e, ([], false, Some (Errorf "valid node received empty response")))
                      else
                        let e := with_knap e (SaveEnrollment enrollmentId [] (r_NodeKey resp) enrollSecret (knap e)).1 in
                        let '(k, ping) := PersistAgentIngesterKeys hasPublisher (AgentIngesterToken resp)
                            (AgentIngesterHPKEPublicKey resp) (AgentIngesterHPKEPresharedKey resp) (knap e) in
                        let e := with_knap e k in
                        ((if ping then emit EvPing 0 e else e), (r_NodeKey resp, false, None))
                end
            end
        | (e, Err er) => (e, ([], true, Some (Wrapf "generating UUID: %w" er)))
        | (e, _) => (e, ([], true, Some (Errorf "panic")))
        end
    | Err er => (e, ([], true, Some (Wrapf "could not read enroll secret, assuming launcher secretless installation, cannot enroll: %w" er)))
    | _ => (e, ([], true, Some (Errorf "panic")))
    end.

(** [RequireReenroll]: without a secret there is no way back, so the enrollment stays. *)
Definition RequireReenroll (e : extension) : extension :=
  match ReadEnrollSecret (knap e) with
  | Ok enrollSecret =>
      if is_empty enrollSecret then e
      else with_knap e (DeleteEnrollment enrollmentId (knap e)).1
  | _ => e
  end.

(** The start of every request: the node key, or a new one from an enrollment *)
Definition nodeKeyOrEnroll (e : extension) : extension * res bytes :=
  if is_empty (nodeKey e) then
    let '(e, (newNodeKey, invalid, er)) := Enroll e in
    match er with
    | Some er => (e, Err (Wrapf "enrolling: key empty: %v; node invalid: %v; err: %w" er))
    | None =>
        if is_empty newNodeKey || invalid
        then (e, Err (Errorf "enrolling: key empty: %v; node invalid: %v; err: %w"))
        else (e, Ok newNodeKey)
    end
  else (e, Ok (nodeKey e)).

(** What follows an answer "node invalid": [retry] is the second attempt, [None] on the second attempt *)
Definition reenroll {A} (retry : option (extension → extension * res A)) (disabled : err) (e : extension)
    : extension * res A :=
  match retry with
  | None => (e, Err disabled)
  | Some again =>
      let '(e, (_, invalid, er)) := Enroll (RequireReenroll e) in
      match er with
      | Some er => (e, Err (Wrapf "enrollment invalid, reenrollment errored: %w" er))
      | None =>
          if invalid then (e, Err (Errorf "enrollment invalid, reenrollment invalid"))
          else again e
      end
  end.

(** ** Logs *)
Definition storeForLogType (typ : logType) (e : extension) : res S :=
  match typ with
  | LogTypeString | LogTypeSnapshot => Ok (ResultLogsStore e)
  | LogTypeStatus => Ok (StatusLogsStore e)
  | LogTypeHealth | LogTypeInit => Err (Errorf "storing log type %v is unsupported")
  | OtherLogType => Err (Errorf "unknown log type: %v")
  end.

Definition setStore (typ : logType) (s : S) (e : extension) : extension :=
  match typ with
  | LogTypeString | LogTypeSnapshot => with_stores e (StatusLogsStore e) s
  | LogTypeStatus => with_stores e s (ResultLogsStore e)
  | _ => e
  end.

(** The writer's walk over the buffer: logs, their ids, and their bytes so far.  A log that is too
    big for any batch is only marked for deletion; the walk stops before a log that does not fit. *)
Definition iterationTerminated : err := Errorf "ceasing kv store iteration".

Definition collect (lps : logPublicationState) (k v : bytes) (acc : list bytes * list bytes * Z)
    : (list bytes * list bytes * Z) * option err :=
  let '(logs, logIDs, totalBytes) := acc in
  if ExceedsMaxBatchThreshold (len v) lps then ((logs, logIDs ++ [k], totalBytes), None)
  else if ExceedsCurrentBatchThreshold (totalBytes + len v) lps && (0 <? totalBytes)
  then (acc, Some iterationTerminated)
  else ((logs ++ [v], logIDs ++ [k], totalBytes + len v), None).

Definition endBatch (ok : bool) (e : extension) : extension :=
  with_publication e (EndBatch (now e) ok (publication e)).

(** One attempt of [writeLogsWithReenroll]; then the two of them *)
Definition writeLogsOnce (retry : option (extension → extension * res unit)) (typ : logType) (logs : list bytes)
    (e : extension) : extension * res unit :=
  match nodeKeyOrEnroll e with
  | (e, Ok nodeKey) =>
      let r := PublishLogs w (trace e) nodeKey typ logs in
      let '(invalid, err) := val r in
      let acked := negb invalid && match err with None => true | Some _ => false end in
      let e := emit (EvLogs nodeKey typ logs acked) (took r) e in
      match err with
      | Some se =>
          if deviceDisabled se
          then (uninstall e, Err (Wrapf "device disabled, should have uninstalled: %w" (cause se)))
          else (endBatch false e, Err (Wrapf "transport error sending logs: %w" (cause se)))
      | None =>
          if negb (invalid || isNodeInvalidErr err) then (endBatch true e, Ok tt)
          else reenroll retry (Errorf "enrollment invalid, reenroll disabled") e
      end
  | (e, Err er) => (e, Err er)
  | (e, Panic) => (e, Panic)
  | (e, NoFuel) => (e, NoFuel)
  end.

Definition writeLogsWithReenroll (typ : logType) (logs : list bytes) : extension → extension * res unit :=
  writeLogsOnce (Some (writeLogsOnce None typ logs)) typ logs.

Definition writeBufferedLogsForType (typ : logType) (e : extension) : extension * res unit :=
  match storeForLogType typ e with
  | Ok store =>
      let '((logs, logIDs, _), er) := kv_ForEach (collect (publication e)) store ([], [], 0) in
      let bufferFilled := bool_decide (er = Some iterationTerminated) in
      match (if bufferFilled then None else er) with
      | Some er => (e, Err (Wrapf "reading buffered logs: %w" er))
      | None =>
          if is_empty logs then (e, Ok tt)
          else
            let e := with_publication e (BeginBatch (now e) bufferFilled (publication e)) in
            match writeLogsWithReenroll typ logs e with
            | (e, Ok _) =>
                let e := emit (EvIngestLogs typ logs) 0 e in
                match storeForLogType typ e with
                | Ok store =>
                    let '(store, er) := kv_Delete logIDs store in
                    (setStore typ store e, match er with None => Ok tt | Some er => Err (Wrapf "deleting sent logs: %w" er) end)
                | _ => (e, Panic)
                end
            | (e, r) => (e, wrap "writing logs: %w" r)
            end
      end
  | Err er => (e, Err er)
  | _ => (e, Panic)
  end.

(** [purgeBufferedLogsForType]: the ids of the first logs, after as many nil ids as are to be deleted *)
Definition pick (deleteCount : Z) (k _ : bytes) (acc : list bytes * Z) : (list bytes * Z) * option err :=
  if deleteCount <=? acc.2 then (acc, Some iterationTerminated) else ((acc.1 ++ [k], acc.2 + 1), None).

Definition purgeBufferedLogsForType (typ : logType) (e : extension) : extension * res unit :=
  match storeForLogType typ e with
  | Ok store =>
      match kv_Count store with
      | Ok totalCount =>
          let deleteCount := totalCount - MaxBufferedLogs (opts e) in
          if deleteCount <=? 0 then (e, Ok tt)
          else
            let '((logIDs, _), er) := kv_ForEach (pick deleteCount) store (repeat [] (Z.to_nat deleteCount), 0) in
            match (if bool_decide (er = Some iterationTerminated) then None else er) with
            | Some er => (e, Err (Wrapf "collecting overflowed log keys for deletion: %w" er))
            | None =>
                let '(store, er) := kv_Delete logIDs store in
                (setStore typ store e, match er with None => Ok tt | Some er => Err er end)
            end
      | Err er => (e, Err er)
      | Panic => (e, Panic)
      | NoFuel => (e, NoFuel)
      end
  | Err er => (e, Err er)
  | _ => (e, Panic)
  end.

(** [writeAndPurgeLogs]: the errors are only logged. *)
Definition writeAndPurgeType (typ : logType) (e : extension) : extension :=
  (purgeBufferedLogsForType typ (writeBufferedLogsForType typ e).1).1.

Definition writeAndPurgeLogs (e : extension) : extension :=
  writeAndPurgeType LogTypeString (writeAndPurgeType LogTypeStatus e).

Definition LogString (typ : logType) (logText : bytes) (e : extension) : extension * res unit :=
  match typ with
  | LogTypeInit => (e, Ok tt)
  | _ =>
      match storeForLogType typ e with
      | Ok store =>
          let '(store, er) := kv_AppendValues [logText] store in
          (setStore typ store e, match er with None => Ok tt | Some er => Err er end)
      | Err er => (e, Err (Wrapf "unknown log type: %w" er))
      | _ => (e, Panic)
      end
  end.

(** ** Distributed queries *)
Definition getQueriesOnce (retry : option (extension → extension * res (queriesResult Q))) (e : extension)
    : extension * res (queriesResult Q) :=
  match nodeKeyOrEnroll e with
  | (e, Ok nodeKey) =>
      let r := RequestQueries w (trace e) nodeKey in
      let e := emit (EvQueries nodeKey) (took r) e in
      let '(queries, invalid, err) := val r in
      match err with
      | Some se =>
          if deviceDisabled se
          then (uninstall e, Err (Wrapf "device disabled, should have uninstalled: %w" (cause se)))
          else if unauthenticated se
          then reenroll retry (Wrapf "enrollment invalid, reenroll disabled: %w" (cause se)) e
          else (e, Err (Wrapf "transport error getting queries: %w" (cause se)))
      | None =>
          if invalid then reenroll retry (Wrapf "enrollment invalid, reenroll disabled: %w" (Errorf "no further error")) e
          else (e, Ok queries)
      end
  | (e, Err er) => (e, Err er)
  | (e, Panic) => (e, Panic)
  | (e, NoFuel) => (e, NoFuel)
  end.

Definition getQueriesWithReenroll : extension → extension * res (queriesResult Q) :=
  getQueriesOnce (Some (getQueriesOnce None)).

Definition GetQueries (e : extension) : extension * res (queriesResult Q) :=
  let t := unix e in
  if (forwardAllDistributedUntil e <=? t) && (t <? lastRequestQueriesTimestamp e + distributedForwardingInterval e)
  then (e, Ok (QueriesResult noQueries 0))
  else
    let e := with_queries e t (distributedForwardingInterval e) (forwardAllDistributedUntil e) in
    match getQueriesWithReenroll e with
    | (e, Ok queries) =>
        ((if 0 <? AccelerateSeconds queries
          then with_queries e (lastRequestQueriesTimestamp e) (distributedForwardingInterval e) (unix e + AccelerateSeconds queries)
          else e), Ok queries)
    | (e, r) => (e, r)
    end.

Definition writeResultsOnce (retry : option (extension → extension * res unit)) (results : list R) (e : extension)
    : extension * res unit :=
  match nodeKeyOrEnroll e with
  | (e, Ok nodeKey) =>
      let r := PublishResults w (trace e) nodeKey results in
      let e := emit (EvResults nodeKey results) (took r) e in
      let '(invalid, err) := val r in
      let again := reenroll retry (Errorf "enrollment invalid, reenroll disabled") e in
      match err with
      | Some se =>
          if deviceDisabled se
          then (uninstall e, Err (Wrapf "device disabled, should have uninstalled: %w" (cause se)))
          else if unauthenticated se then again
          else (e, Err (Wrapf "transport error getting queries: %w" (cause se)))
      | None => if invalid then again else (emit (EvIngestResults results) 0 e, Ok tt)
      end
  | (e, Err er) => (e, Err er)
  | (e, Panic) => (e, Panic)
  | (e, NoFuel) => (e, NoFuel)
  end.

Definition WriteResults (results : list R) : extension → extension * res unit :=
  writeResultsOnce (Some (writeResultsOnce None results)) results.

(** ** Configuration *)

(** [setOsqueryOptions]; a config that is the JSON text "null" leaves the map nil, and storing
    the options in it panics. *)
Definition setOsqueryOptions (verbose : bool) (config : bytes) : res bytes :=
  let optsToSet : gmap bytes any :=
    <[bs "verbose" := ofBool verbose]> (<[bs "distributed_interval" := ofInt osqueryDistributedInterval]> ∅) in
  match (if is_empty config then Some (Some ∅) else decodeObject config) with
  | None => Ok config
  | Some None => Panic
  | Some (Some cfg) =>
      match (match cfg !! bs "options" with Some cfgOpts => asObject cfgOpts | None => Some ∅ end) with
      | None => Ok config
      | Some opts => Ok (default config (encodeObject (<[bs "options" := ofObject (optsToSet ∪ opts)]> cfg)))
      end
  end.

Definition osqueryVerbose (e : extension) : bool :=
  match LatestInstanceUptimeMinutes w (trace e) with
  | Some uptimeMins => if 10 <=? uptimeMins then postStartupVerbose else startupVerbose
  | None => startupVerbose
  end.

Definition useCachedTables (e : extension) (config : bytes) : bytes :=
  if Flags.UseCachedDataForScheduledQueries (flagc e)
  then ReplaceAll (bs "kolide_windows_updates") (bs "kolide_windows_updates_cached") config
  else config.

Definition generateConfigsOnce (retry : option (extension → extension * res bytes)) (e : extension)
    : extension * res bytes :=
  match nodeKeyOrEnroll e with
  | (e, Ok nodeKey) =>
      let r := RequestConfig w (trace e) nodeKey in
      let e := emit (EvConfig nodeKey) (took r) e in
      let '(config, invalid, err) := val r in
      match err with
      | Some se =>
          if deviceDisabled se
          then (uninstall e, Err (Wrapf "device disabled, should have uninstalled: %w" (cause se)))
          else if unauthenticated se
          then reenroll retry (Wrapf "enrollment invalid, reenroll disabled: %w" (cause se)) e
          else (e, Err (Wrapf "transport error getting queries: %w" (cause se)))
      | None =>
          if invalid then reenroll retry (Wrapf "enrollment invalid, reenroll disabled: %w" (Errorf "no further error")) e
          else
            (e, config ← setOsqueryOptions (osqueryVerbose e) config; Ok (useCachedTables e config))
      end
  | (e, Err er) => (e, Err er)
  | (e, Panic) => (e, Panic)
  | (e, NoFuel) => (e, NoFuel)
  end.

Definition generateConfigsWithReenroll : extension → extension * res bytes :=
  generateConfigsOnce (Some (generateConfigsOnce None)).

(** [GenerateConfigs]: the value under "config".  The last good config is cached, and used when
    the server gives none. *)
Definition GenerateConfigs (e : extension) : extension * res bytes :=
  match generateConfigsWithReenroll e with
  | (e, Ok config) =>
      match ConfigStore (knap e) with
      | None => (e, Panic)
      | Some s =>
          let e := with_knap e (with_config (knap e) (kv_Set configKeyFor config s).1) in
          (emit EvWriteSettings 0 e, Ok config)
      end
  | (e, Err er) =>
      match ConfigStore (knap e) with
      | None => (e, Panic)
      | Some s =>
          let confBytes := match kv_Get s configKeyFor with Ok v => default [] v | _ => [] end in
          if is_empty confBytes then
            if negb (enrolled e) then (e, Ok (bs "{}"))
            else (e, Err (Wrapf "loading config failed, no cached config: %w" er))
          else (e, Ok confBytes)
      end
  | (e, r) => (e, r)
  end.

(** ** Life cycle *)

(** The observer the extension is to the flag controller *)
Variable observer : nat.

Definition defaults (o : ExtensionOpts) : ExtensionOpts :=
  Opts (if MaxBytesPerBatch o =? 0 then defaultMaxBytesPerBatch else MaxBytesPerBatch o)
    (if LoggingInterval o =? 0 then defaultLoggingInterval else LoggingInterval o)
    (if MaxBufferedLogs o =? 0 then defaultMaxBufferedLogs else MaxBufferedLogs o).

(** [int64(d.Seconds())] *)
Definition seconds (d : Z) : Z := Z.quot d Flags.second.

Definition NewExtension (o : ExtensionOpts) (k : knapsack) (fc : Flags.controller) (status results : S) (t : Z)
    : extension :=
  let o := defaults o in
  let e := Ext o k (Flags.RegisterChangeObserver observer [Flags.keys.DistributedForwardingInterval; Flags.keys.KolideServerURL] fc)
    status results (NewLogPublicationState (MaxBytesPerBatch o)) 0 (seconds (Flags.DistributedForwardingInterval fc))
    (t / Flags.second + 120) false t [] in
  (getHostIdentifier e).1.

(** [Execute]: [ticks] is when the ticker fires, until the extension is shut down *)
Definition at_time (t : Z) (e : extension) : extension :=
  Ext (opts e) (knap e) (flagc e) (StatusLogsStore e) (ResultLogsStore e) (publication e) (lastRequestQueriesTimestamp e)
    (distributedForwardingInterval e) (forwardAllDistributedUntil e) (interrupted e) t (trace e).

Definition Execute (ticks : list Z) (e : extension) : extension :=
  let e := with_knap e (EnsureEnrollmentStored enrollmentId (knap e)).1 in
  foldl (λ e t, writeAndPurgeLogs (at_time t e)) (writeAndPurgeLogs e) ticks.

(** A second call does nothing; the first closes [done]. *)
Definition Shutdown (e : extension) : extension :=
  if interrupted e then e
  else with_interrupted (with_flags e (Flags.DeregisterChangeObserver observer (flagc e))).

(** [FlagsChanged]; a new client after a change of the URL is the same world *)
Definition FlagsChanged (flagKeys : list bytes) (e : extension) : extension :=
  if bool_decide (Flags.keys.DistributedForwardingInterval ∈ flagKeys)
  then with_queries e (lastRequestQueriesTimestamp e) (seconds (Flags.DistributedForwardingInterval (flagc e)))
         (forwardAllDistributedUntil e)
  else e.

(** ** What the requests leave alone

    [frame P e e']: the buffers, the batch state and the options are the same, and only events
    that satisfy [P] were added. *)
Definition frame (P : event R → Prop) (e e' : extension) : Prop :=
  StatusLogsStore e' = StatusLogsStore e ∧ ResultLogsStore e' = ResultLogsStore e ∧
  publication e' = publication e ∧ opts e' = opts e ∧
  ∃ evs, trace e' = trace e ++ evs ∧ Forall P evs.

#[local] Instance frame_preorder P : PreOrder (frame P).
Proof.
  split.
  - intros e. split_and!; try done. exists []. by rewrite app_nil_r.
  - intros e1 e2 e3 (A1 & A2 & A3 & A4 & evs1 & A5 & A6) (B1 & B2 & B3 & B4 & evs2 & B5 & B6).
    split_and!; [congruence..|]. exists (evs1 ++ evs2). rewrite B5, A5, <- app_assoc. split; [done|].
    by apply Forall_app.
Qed.

Lemma frame_knap P e e' k : frame P e e' → frame P e (with_knap e' k).
Proof. done. Qed.
Lemma frame_flags P e e' fc : frame P e e' → frame P e (with_flags e' fc).
Proof. done. Qed.
Lemma frame_queries P e e' a b c : frame P e e' → frame P e (with_queries e' a b c).
Proof. done. Qed.
Lemma frame_emit P e e' ev t : P ev → frame P e e' → frame P e (emit ev t e').
Proof.
  intros HP (A1 & A2 & A3 & A4 & evs & A5 & A6). split_and!; try done. exists (evs ++ [ev]).
  cbn [emit trace]. rewrite A5, app_assoc. split; [done|]. apply Forall_app. split; [done|by constructor].
Qed.

(** Events of an enrollment *)
Definition enrolling (ev : event R) : Prop :=
  match ev with EvEnroll _ _ | EvPing | EvNotify _ | EvUninstall => True | _ => False end.

Ltac frames := repeat first [reflexivity | apply frame_knap | apply frame_flags | apply frame_queries
  | (apply frame_emit; [exact I|])].

Lemma frame_updateURLs P urls e e' :
  (∀ n, P (EvNotify n)) → frame P e e' → frame P e (updateURLs urls e').
Proof.
  intros HP H0. destruct urls as [[[a b] c]|]; [|done]. unfold updateURLs.
  assert (Hu : ∀ get set u x, frame P e x → frame P e (updateURL get set u x)).
  { intros get set u x Hx. unfold updateURL. case_if; [|done]. destruct (set u (flagc x)) as [[fc n] er].
    apply frame_emit; [done|]. by apply frame_flags. }
  auto.
Qed.

Lemma frame_getHostIdentifier P e : frame P e (getHostIdentifier e).1.
Proof.
  unfold getHostIdentifier. destruct (ConfigStore (knap e)); [|done].
  destruct (IdentifierFromDB _ _). frames.
Qed.

Lemma frame_Enroll e : frame enrolling e (Enroll e).1.
Proof.
  unfold Enroll. case_if; [frames|]. destruct (ReadEnrollSecret (knap e)) as [secret|er| |]; try done.
  pose proof (frame_getHostIdentifier enrolling e) as Hid.
  destruct (getHostIdentifier e) as [e1 [ident|er| |]]; try done. cbn [fst] in Hid.
  destruct (val _) as [resp [se|]].
  { repeat case_if; unfold uninstall; repeat (apply frame_emit; [exact I|]); exact Hid. }
  destruct resp as [resp|]; [|by apply frame_emit].
  destruct (NodeInvalid resp); [by apply frame_emit|].
  assert (H2 : frame enrolling e (updateURLs (DeploymentURLs resp)
    (emit (EvEnroll secret ident) (took (RequestEnrollment w (trace e1) secret ident)) e1))).
  { apply frame_updateURLs; [done|]. by apply frame_emit. }
  destruct (WrongRegion resp); [exact H2|]. destruct (is_empty (r_NodeKey resp)); [exact H2|].
  destruct (PersistAgentIngesterKeys _ _ _ _ _) as [k ping]. destruct ping; cbn [fst];
    [apply frame_emit; [exact I|]|]; by do 2 apply frame_knap.
Qed.

Lemma frame_nodeKeyOrEnroll e : frame enrolling e (nodeKeyOrEnroll e).1.
Proof.
  unfold nodeKeyOrEnroll. case_if; [|done]. pose proof (frame_Enroll e) as Hf.
  destruct (Enroll e) as [e1 [[nk invalid] [er|]]]; [done|]. by destruct (is_empty nk || invalid).
Qed.

Lemma nodeKeyOrEnroll_key e e' nk : nodeKeyOrEnroll e = (e', Ok nk) → nk ≠ [].
Proof.
  unfold nodeKeyOrEnroll. destruct (is_empty (nodeKey e)) eqn:E.
  - destruct (Enroll e) as [e1 [[nk' invalid] [er|]]]; [done|].
    destruct (is_empty nk') eqn:E'; cbn [orb]; [done|]. destruct invalid; [done|]. intros [= _ <-].
    by intros ->.
  - intros [= _ <-]. by intros Hx; rewrite Hx in E.
Qed.

Lemma frame_RequireReenroll P e : frame P e (RequireReenroll e).
Proof.
  unfold RequireReenroll. destruct (ReadEnrollSecret (knap e)); try done. case_if; [done|]. frames.
Qed.

(** ** Shipping logs *)
Definition acked (evs : list (event R)) : list (logType * list bytes) :=
  omap (λ ev, match ev with EvLogs _ typ logs true => Some (typ, logs) | _ => None end) evs.

Lemma acked_app evs evs' : acked (evs ++ evs') = acked evs ++ acked evs'.
Proof. apply omap_app. Qed.

Lemma acked_enrolling evs : Forall enrolling evs → acked evs = [].
Proof. induction 1 as [|ev evs Hev _ IH]; [done|]. unfold acked in *. by destruct ev; cbn. Qed.

(** An attempt to ship [logs]: [ships e e' r] *)
Definition shipping (typ : logType) (logs : list bytes) (ev : event R) : Prop :=
  match ev with
  | EvLogs nk typ' logs' _ => nk ≠ [] ∧ typ' = typ ∧ logs' = logs
  | ev => enrolling ev
  end.

Record ships (typ : logType) (logs : list bytes) (e e' : extension) (r : res unit) : Prop := {
  ships_status : StatusLogsStore e' = StatusLogsStore e;
  ships_results : ResultLogsStore e' = ResultLogsStore e;
  ships_opts : opts e' = opts e;
  ships_limits max : limits max (publication e) → limits max (publication e');
  ships_trace : ∃ evs, trace e' = trace e ++ evs ∧ Forall (shipping typ logs) evs ∧
    acked evs = match r with Ok _ => [(typ, logs)] | _ => [] end
}.

Lemma enrolling_shipping typ logs evs : Forall enrolling evs → Forall (shipping typ logs) evs.
Proof. intros He. eapply Forall_impl; [exact He|]. by intros []. Qed.

Lemma frame_ships typ logs e1 e2 e3 r : frame enrolling e1 e2 → ships typ logs e2 e3 r → ships typ logs e1 e3 r.
Proof.
  intros (A1 & A2 & A3 & A4 & evs1 & A5 & A6) [B1 B2 B3 B4 (evs2 & B5 & B6 & B7)].
  constructor; [congruence..| |].
  - intros max. rewrite <- A3. apply B4.
  - exists (evs1 ++ evs2). rewrite B5, A5, app_assoc. split_and!; [done| |].
    + apply Forall_app. split; [by apply enrolling_shipping|done].
    + by rewrite acked_app, acked_enrolling.
Qed.

Lemma ships_frame typ logs e1 e2 r : frame enrolling e1 e2 → (∀ u, r ≠ Ok u) → ships typ logs e1 e2 r.
Proof.
  intros (A1 & A2 & A3 & A4 & evs1 & A5 & A6) Hr. constructor; [done..|by rewrite A3|].
  exists evs1. split_and!; [done|by apply enrolling_shipping|].
  rewrite acked_enrolling by done. destruct r; [by destruct (Hr a)|done..].
Qed.

(** A request that was not accepted, followed by the rest of an attempt *)
Lemma emit_ships typ logs e e' r nk t :
  nk ≠ [] → ships typ logs (emit (EvLogs nk typ logs false) t e) e' r → ships typ logs e e' r.
Proof.
  intros Hnk [B1 B2 B3 B4 (evs & B5 & B6 & B7)]. constructor; [done..|].
  exists (EvLogs nk typ logs false :: evs). cbn [emit trace] in B5. rewrite B5, <- app_assoc.
  split_and!; [done|by constructor|done].
Qed.

Lemma frame_ships_reenroll typ logs retry disabled e e' r :
  (∀ again, retry = Some again → ∀ e e' r, again e = (e', r) → ships typ logs e e' r) →
  reenroll retry disabled e = (e', r) → ships typ logs e e' r.
Proof.
  intros Hretry. unfold reenroll. destruct retry as [again|].
  - pose proof (frame_Enroll (RequireReenroll e)) as Hf.
    destruct (Enroll (RequireReenroll e)) as [e1 [[nk invalid] er]]. cbn [fst] in Hf.
    assert (Hf1 : frame enrolling e e1) by (etrans; [apply frame_RequireReenroll|exact Hf]).
    destruct er as [er|]; [by intros [= <- <-]; apply ships_frame|].
    destruct invalid; [by intros [= <- <-]; apply ships_frame|].
    intros E. eapply frame_ships; [exact Hf1|]. by eapply Hretry.
  - intros [= <- <-]. by apply ships_frame.
Qed.

Lemma writeLogsOnce_ships retry typ logs e e' r :
  (∀ again, retry = Some again → ∀ e e' r, again e = (e', r) → ships typ logs e e' r) →
  writeLogsOnce retry typ logs e = (e', r) → ships typ logs e e' r.
Proof.
  intros Hretry. unfold writeLogsOnce. pose proof (frame_nodeKeyOrEnroll e) as Hf.
  pose proof (nodeKeyOrEnroll_key e) as Hnk.
  destruct (nodeKeyOrEnroll e) as [e1 [nk|er| |]]; cbn [fst] in Hf;
    [|by intros [= <- <-]; apply ships_frame..].
  specialize (Hnk e1 nk eq_refl). intros E. eapply frame_ships; [exact Hf|]. revert E.
  destruct (val (PublishLogs w (trace e1) nk typ logs)) as [invalid [se|]]; cbn [isNodeInvalidErr].
  - rewrite andb_false_r. case_if; intros [= <- <-].
    + eapply emit_ships; [done|]. apply ships_frame; [by apply frame_emit|done].
    + eapply emit_ships; [done|]. constructor; [done..| |by exists []; rewrite app_nil_r].
      intros max Hm. by apply limits_End.
  - rewrite andb_true_r, orb_false_r. destruct invalid; cbn [negb].
    + intros E. eapply emit_ships; [done|]. by eapply frame_ships_reenroll.
    + intros [= <- <-]. constructor; [done..|intros max Hm; by apply limits_End|].
      eexists. cbn [endBatch with_publication emit trace]. split_and!; [done|by repeat constructor|done].
Qed.

Lemma writeLogs_ships typ logs e e' r : writeLogsWithReenroll typ logs e = (e', r) → ships typ logs e e' r.
Proof.
  apply writeLogsOnce_ships. intros again [= <-] e1 e1' r1. by apply writeLogsOnce_ships.
Qed.

(** ** The other requests *)
Definition requesting (ev : event R) : Prop :=
  match ev with
  | EvLogs _ _ _ _ => False
  | EvConfig nk | EvQueries nk | EvResults nk _ => nk ≠ []
  | _ => True
  end.

Lemma frame_weaken (P P' : event R → Prop) e e' : (∀ ev, P ev → P' ev) → frame P e e' → frame P' e e'.
Proof.
  intros HP (A1 & A2 & A3 & A4 & evs & A5 & A6). split_and!; try done. exists evs. split; [done|].
  eapply Forall_impl; [exact A6|done].
Qed.

Lemma frame_enrolling e e' : frame enrolling e e' → frame requesting e e'.
Proof. apply frame_weaken. by intros []. Qed.

Lemma frame_reenroll {A} (retry : option (extension → extension * res A)) disabled e :
  (∀ again, retry = Some again → ∀ e, frame requesting e (again e).1) →
  frame requesting e (reenroll retry disabled e).1.
Proof.
  intros Hretry. unfold reenroll. destruct retry as [again|]; [|done].
  pose proof (frame_Enroll (RequireReenroll e)) as Hf.
  destruct (Enroll (RequireReenroll e)) as [e1 [[nk invalid] er]]. cbn [fst] in Hf.
  assert (Hf1 : frame requesting e e1) by (etrans; [apply frame_RequireReenroll|by apply frame_enrolling]).
  destruct er; [done|]. destruct invalid; [done|]. etrans; [exact Hf1|]. by apply Hretry.
Qed.

(** The shape of a request: a node key, the request, and what follows its answer *)
Lemma frame_request {A} e (f : extension → bytes → extension * res A) :
  (∀ e nk, nk ≠ [] → frame requesting e (f e nk).1) →
  frame requesting e
    (match nodeKeyOrEnroll e with
     | (e, Ok nk) => f e nk | (e, Err er) => (e, Err er) | (e, Panic) => (e, Panic) | (e, NoFuel) => (e, NoFuel)
     end).1.
Proof.
  intros Hf. pose proof (frame_nodeKeyOrEnroll e) as H1. pose proof (nodeKeyOrEnroll_key e) as H2.
  destruct (nodeKeyOrEnroll e) as [e1 [nk|er| |]]; cbn [fst] in *; apply frame_enrolling in H1; try done.
  etrans; [exact H1|]. apply Hf. by eapply H2.
Qed.

Ltac frame_answer Hretry :=
  apply frame_request; intros e1 nk Hnk; cbv zeta;
  repeat match goal with |- context [match ?x with _ => _ end] => destruct x end;
  repeat first [ apply frame_emit; [by cbn|]
               | etrans; [|apply frame_reenroll; exact Hretry]; apply frame_emit; [by cbn|reflexivity]
               | reflexivity ].

Lemma frame_getQueriesOnce retry e :
  (∀ again, retry = Some again → ∀ e, frame requesting e (again e).1) → frame requesting e (getQueriesOnce retry e).1.
Proof. intros Hretry. unfold getQueriesOnce. frame_answer Hretry. Qed.

Lemma frame_getQueries e : frame requesting e (getQueriesWithReenroll e).1.
Proof.
  apply frame_getQueriesOnce. intros again [= <-] e1. by apply frame_getQueriesOnce.
Qed.

Lemma frame_GetQueries e : frame requesting e (GetQueries e).1.
Proof.
  unfold GetQueries. case_if; [done|]. set (e0 := with_queries _ _ _ _).
  assert (H0 : frame requesting e e0) by (apply frame_queries; reflexivity).
  pose proof (frame_getQueries e0) as Hf.
  destruct (getQueriesWithReenroll e0) as [e1 [q|er| |]]; cbn [fst] in *; [|by etrans..].
  destruct (0 <? AccelerateSeconds q); [apply frame_queries|]; by etrans.
Qed.

Lemma frame_writeResultsOnce retry rs e :
  (∀ again, retry = Some again → ∀ e, frame requesting e (again e).1) → frame requesting e (writeResultsOnce retry rs e).1.
Proof. intros Hretry. unfold writeResultsOnce. frame_answer Hretry. Qed.

Lemma frame_WriteResults rs e : frame requesting e (WriteResults rs e).1.
Proof.
  apply frame_writeResultsOnce. intros again [= <-] e1. by apply frame_writeResultsOnce.
Qed.

Lemma frame_generateConfigsOnce retry e :
  (∀ again, retry = Some again → ∀ e, frame requesting e (again e).1) → frame requesting e (generateConfigsOnce retry e).1.
Proof. intros Hretry. unfold generateConfigsOnce. frame_answer Hretry. Qed.

Lemma frame_GenerateConfigs e : frame requesting e (GenerateConfigs e).1.
Proof.
  unfold GenerateConfigs.
  assert (Hf : frame requesting e (generateConfigsWithReenroll e).1).
  { apply frame_generateConfigsOnce. intros again [= <-] e1. by apply frame_generateConfigsOnce. }
  destruct (generateConfigsWithReenroll e) as [e1 [c|er| |]]; cbn [fst] in *; [| |done..].
  - destruct (ConfigStore (knap e1)); [|done]. apply frame_emit; [done|]. by apply frame_knap.
  - destruct (ConfigStore (knap e1)); [|done]. by repeat case_if.
Qed.

Lemma acked_requesting evs : Forall requesting evs → acked evs = [].
Proof. induction 1 as [|ev evs Hev _ IH]; [done|]. unfold acked in *. by destruct ev; cbn. Qed.

(** ** How much a call sends

    [sends a b e e']: at most [a] requests, each with a node key, and at most [b] enrollments *)
Definition request (ev : event R) : bool :=
  match ev with EvConfig _ | EvLogs _ _ _ _ | EvQueries _ | EvResults _ _ => true | _ => false end.
Definition enrollment_request (ev : event R) : bool := match ev with EvEnroll _ _ => true | _ => false end.

Definition keyed (ev : event R) : Prop :=
  match ev with EvConfig nk | EvLogs nk _ _ _ | EvQueries nk | EvResults nk _ => nk ≠ [] | _ => True end.

Definition sends (a b : nat) (e e' : extension) : Prop :=
  ∃ evs, trace e' = trace e ++ evs ∧ Forall keyed evs ∧
    (length (List.filter request evs) <= a)%nat ∧ (length (List.filter enrollment_request evs) <= b)%nat.

Lemma sends_trans a b c d e1 e2 e3 : sends a b e1 e2 → sends c d e2 e3 → sends (a + c) (b + d) e1 e3.
Proof.
  intros (evs1 & E1 & K1 & A1 & B1) (evs2 & E2 & K2 & A2 & B2). exists (evs1 ++ evs2).
  rewrite E2, E1, <- app_assoc, !List.filter_app, !length_app. split_and!; [done|by apply Forall_app|lia..].
Qed.

Lemma sends_refl e e' : trace e' = trace e → sends 0 0 e e'.
Proof. intros E. exists []. rewrite app_nil_r. split_and!; [done|constructor|cbn; lia..]. Qed.

Lemma sends_le a b a' b' e e' : (a <= a')%nat → (b <= b')%nat → sends a b e e' → sends a' b' e e'.
Proof. intros Ha Hb (evs & E & K & A & B). exists evs. split_and!; [done..|lia|lia]. Qed.

Lemma sends_emit ev t e :
  keyed ev → sends (if request ev then 1 else 0) (if enrollment_request ev then 1 else 0) e (emit ev t e).
Proof.
  intros Hk. exists [ev]. split_and!; [done|by constructor| |]; cbn [List.filter];
    [destruct (request ev)|destruct (enrollment_request ev)]; cbn; lia.
Qed.

Lemma sends_trans0 a b e1 e2 e3 : sends a b e1 e2 → sends 0 0 e2 e3 → sends a b e1 e3.
Proof. intros H1 H2. pose proof (sends_trans _ _ _ _ _ _ _ H1 H2) as H3. by rewrite !Nat.add_0_r in H3. Qed.

Lemma sends_updateURLs urls e : sends 0 0 e (updateURLs urls e).
Proof.
  destruct urls as [[[a b] c]|]; [|by apply sends_refl]. unfold updateURLs.
  assert (Hu : ∀ get set u x, sends 0 0 x (updateURL get set u x)).
  { intros get set u x. unfold updateURL. case_if; [|by apply sends_refl].
    destruct (set u (flagc x)) as [[fc n] er]. by apply (sends_emit (EvNotify n) 0 (with_flags x fc)). }
  eapply sends_trans0; [|apply Hu]. eapply sends_trans0; [|apply Hu]. apply Hu.
Qed.

Lemma trace_getHostIdentifier e : trace (getHostIdentifier e).1 = trace e.
Proof.
  unfold getHostIdentifier. destruct (ConfigStore (knap e)); [|done]. by destruct (IdentifierFromDB _ _).
Qed.

Lemma sends_Enroll e : sends 0 1 e (Enroll e).1.
Proof.
  assert (Hr : ∀ e', trace e' = trace e → sends 0 1 e e').
  { intros e' E. apply (sends_le 0 0); [lia..|]. by apply sends_refl. }
  unfold Enroll. case_if; [by apply Hr|]. destruct (ReadEnrollSecret (knap e)) as [secret|er| |]; try by apply Hr.
  pose proof (trace_getHostIdentifier e) as Hid.
  destruct (getHostIdentifier e) as [e1 [ident|er| |]]; cbn [fst] in Hid; try by apply Hr.
  set (ev := EvEnroll secret ident).
  assert (Hev : ∀ t, sends 0 1 e (emit ev t e1)).
  { intros t. apply (sends_trans 0 0 0 1 e e1); [by apply sends_refl|]. by apply (sends_emit ev). }
  destruct (val _) as [resp [se|]].
  { repeat case_if; try apply Hev. eapply sends_trans0; [apply Hev|]. by apply (sends_emit EvUninstall). }
  destruct resp as [resp|]; [|apply Hev]. destruct (NodeInvalid resp); [apply Hev|].
  assert (Hu : sends 0 1 e (updateURLs (DeploymentURLs resp)
    (emit ev (took (RequestEnrollment w (trace e1) secret ident)) e1))).
  { eapply sends_trans0; [apply Hev|]. apply sends_updateURLs. }
  destruct (WrongRegion resp); [exact Hu|]. destruct (is_empty (r_NodeKey resp)); [exact Hu|].
  destruct (PersistAgentIngesterKeys _ _ _ _ _) as [k ping]. destruct ping; cbn [fst].
  - eapply sends_trans0; [exact Hu|]. by apply (sends_emit EvPing 0 (with_knap (with_knap _ _) k)).
  - exact Hu.
Qed.

Lemma sends_nodeKeyOrEnroll e : sends 0 1 e (nodeKeyOrEnroll e).1.
Proof.
  unfold nodeKeyOrEnroll. case_if; [|apply (sends_le 0 0); [lia..|by apply sends_refl]].
  pose proof (sends_Enroll e) as Hf.
  destruct (Enroll e) as [e1 [[nk invalid] [er|]]]; [done|]. by destruct (is_empty nk || invalid).
Qed.

Lemma sends_reenroll {A} (retry : option (extension → extension * res A)) disabled a b e :
  (∀ again, retry = Some again → ∀ e, sends a b e (again e).1) →
  sends a (match retry with Some _ => Datatypes.S b | None => b end) e (reenroll retry disabled e).1.
Proof.
  intros Hretry. unfold reenroll. destruct retry as [again|]; [|apply (sends_le 0 0); [lia..|by apply sends_refl]].
  assert (Hz : ∀ e' : extension, sends 0 1 e e' → sends a (Datatypes.S b) e e') by (intros e'; apply sends_le; lia).
  pose proof (sends_Enroll (RequireReenroll e)) as Hf.
  destruct (Enroll (RequireReenroll e)) as [e1 [[nk invalid] er]]. cbn [fst] in Hf.
  assert (Hf1 : sends 0 1 e e1).
  { apply (sends_trans 0 0 0 1 e (RequireReenroll e)); [|done]. apply sends_refl.
    unfold RequireReenroll. destruct (ReadEnrollSecret (knap e)); try done. by case_if. }
  destruct er; [by apply Hz|]. destruct invalid; [by apply Hz|].
  change (Datatypes.S b) with (1 + b)%nat. apply (sends_trans 0 1 a b e e1); [done|]. by apply Hretry.
Qed.

(** A request: an enrollment at most, the request, and perhaps a second attempt *)
Lemma sends_request {A} e (f : extension → bytes → extension * res A) a b :
  (∀ e nk, nk ≠ [] → sends a b e (f e nk).1) →
  sends a (Datatypes.S b) e
    (match nodeKeyOrEnroll e with
     | (e, Ok nk) => f e nk | (e, Err er) => (e, Err er) | (e, Panic) => (e, Panic) | (e, NoFuel) => (e, NoFuel)
     end).1.
Proof.
  intros Hf. pose proof (sends_nodeKeyOrEnroll e) as H1. pose proof (nodeKeyOrEnroll_key e) as H2.
  destruct (nodeKeyOrEnroll e) as [e1 [nk|er| |]]; cbn [fst] in *; try (eapply sends_le; [| |exact H1]; lia).
  apply (sends_trans 0 1 a b e e1); [done|]. apply Hf. by eapply H2.
Qed.

(** One attempt, when the next one sends at most [a] requests and [b] enrollments *)
Ltac sends_answer Hretry :=
  match goal with |- sends _ (Datatypes.S ?bound) _ _ => set (B := bound) end;
  apply sends_request; intros e1 nk Hnk; cbv zeta;
  repeat match goal with |- context [match ?x with _ => _ end] => destruct x end;
  first [ eapply (sends_trans 1 0); [|apply sends_reenroll; exact Hretry]; by apply sends_emit
        | eapply (sends_le 1 0); [lia..|];
          first [ by apply sends_emit | eapply sends_trans0; [|by apply sends_emit]; by apply sends_emit ] ].

Lemma sends_writeLogsOnce retry typ logs a b e :
  (∀ again, retry = Some again → ∀ e, sends a b e (again e).1) →
  sends (1 + a) (Datatypes.S (match retry with Some _ => Datatypes.S b | None => b end)) e (writeLogsOnce retry typ logs e).1.
Proof.
  intros Hretry. unfold writeLogsOnce. sends_answer Hretry.
Qed.

Lemma sends_getQueriesOnce retry a b e :
  (∀ again, retry = Some again → ∀ e, sends a b e (again e).1) →
  sends (1 + a) (Datatypes.S (match retry with Some _ => Datatypes.S b | None => b end)) e (getQueriesOnce retry e).1.
Proof. intros Hretry. unfold getQueriesOnce. sends_answer Hretry. Qed.

Lemma sends_writeResultsOnce retry rs a b e :
  (∀ again, retry = Some again → ∀ e, sends a b e (again e).1) →
  sends (1 + a) (Datatypes.S (match retry with Some _ => Datatypes.S b | None => b end)) e (writeResultsOnce retry rs e).1.
Proof. intros Hretry. unfold writeResultsOnce. sends_answer Hretry. Qed.

Lemma sends_generateConfigsOnce retry a b e :
  (∀ again, retry = Some again → ∀ e, sends a b e (again e).1) →
  sends (1 + a) (Datatypes.S (match retry with Some _ => Datatypes.S b | None => b end)) e (generateConfigsOnce retry e).1.
Proof. intros Hretry. unfold generateConfigsOnce. sends_answer Hretry. Qed.

(** ** The buffers *)
Inductive kind : Type := StatusKind | ResultKind.
#[local] Instance kind_eq_dec : EqDecision kind. Proof. solve_decision. Defined.

Definition kindOf (typ : logType) : option kind :=
  match typ with
  | LogTypeString | LogTypeSnapshot => Some ResultKind
  | LogTypeStatus => Some StatusKind
  | _ => None
  end.

Definition storeOf (k : kind) (e : extension) : S :=
  match k with StatusKind => StatusLogsStore e | ResultKind => ResultLogsStore e end.

(** The logs of a kind that the server accepted, in order *)
Definition delivered (k : kind) (evs : list (event R)) : list bytes :=
  concat (map snd (filter (λ tl, kindOf tl.1 = Some k) (acked evs))).

Lemma delivered_app k evs evs' : delivered k (evs ++ evs') = delivered k evs ++ delivered k evs'.
Proof. unfold delivered. by rewrite acked_app, filter_app, map_app, concat_app. Qed.

(** The logs that are not too big for any batch *)
Definition small (M : Z) (l : list bytes) : list bytes := filter (λ v, len v <= M) l.

Lemma small_app M l l' : small M (l ++ l') = small M l ++ small M l'.
Proof. apply filter_app. Qed.

Definition batchBytes (l : list bytes) : Z := foldr (λ v n, len v + n) 0 l.

Lemma batchBytes_app l l' : batchBytes (l ++ l') = batchBytes l + batchBytes l'.
Proof.
  induction l as [|v l IH]; [done|].
  change (len v + batchBytes (l ++ l') = (len v + batchBytes l) + batchBytes l'). lia.
Qed.

(** What the writer takes: a prefix of the buffer, without the logs that are too big *)
Lemma forEach_collect lps l : ∀ logs ids er r,
  forEach (collect lps) l (logs, ids, batchBytes logs) = (r, er) →
  ∃ taken rest, l = taken ++ rest ∧
    r = (logs ++ small (maxBytesPerBatch lps) taken.*2, ids ++ taken.*1,
         batchBytes (logs ++ small (maxBytesPerBatch lps) taken.*2)) ∧
    (er = None ∧ rest = [] ∨ er = Some iterationTerminated ∧ rest ≠ []).
Proof.
  induction l as [|[k v] l IH]; intros logs ids er r; cbn [forEach].
  { intros [= <- <-]. exists [], []. rewrite !app_nil_r. auto. }
  unfold collect at 1. unfold ExceedsMaxBatchThreshold, ExceedsCurrentBatchThreshold.
  destruct (maxBytesPerBatch lps <? len v) eqn:E1; zbool.
  - intros (taken & rest & -> & -> & Hr)%IH. exists ((k, v) :: taken), rest. split; [done|]. split; [|done].
    cbn [fmap list_fmap fst snd]. unfold small. rewrite filter_cons_False by lia. by rewrite <- app_assoc.
  - destruct ((currentMaxBytesPerBatch lps <? batchBytes logs + len v) && (0 <? batchBytes logs)).
    + intros [= <- <-]. exists [], ((k, v) :: l). rewrite !app_nil_r. auto.
    + replace (batchBytes logs + len v) with (batchBytes (logs ++ [v])) by (rewrite batchBytes_app; change (batchBytes [v]) with (len v + 0); lia).
      intros (taken & rest & -> & -> & Hr)%IH. exists ((k, v) :: taken), rest. split; [done|]. split; [|done].
      cbn [fmap list_fmap fst snd]. unfold small. rewrite filter_cons_True by lia. by rewrite <- !app_assoc.
Qed.

Section Buffers.
Context `{LL : !KVLogLaws S}.

Section Account.
(** [N] is the limit of the buffers, and [kept k] says that the buffer of [k] is never over it. *)
Context (N : Z) (kept : kind → Prop).

(** The account of a kind of logs: [L] is what was logged, [room] what can still be, and [B] bounds what is buffered *)
Record inv (M : Z) (room : nat) (k : kind) (B : Z) (L : list bytes) (e : extension) : Prop := {
  inv_ok : log_ok (storeOf k e) room;
  inv_limits : limits M (publication e);
  inv_sub : delivered k (trace e) ++ small M (log_view (storeOf k e)).*2 `sublist_of` small M L;
  inv_all : kept k →
    delivered k (trace e) ++ small M (log_view (storeOf k e)).*2 = small M L ∧ len (log_view (storeOf k e)) <= B;
  inv_max : MaxBufferedLogs (opts e) = N
}.

Lemma storeOf_setStore k typ s e :
  storeOf k (setStore typ s e) = if bool_decide (kindOf typ = Some k) then s else storeOf k e.
Proof. by destruct typ, k. Qed.

Lemma setStore_same typ s e :
  publication (setStore typ s e) = publication e ∧ opts (setStore typ s e) = opts e ∧ trace (setStore typ s e) = trace e.
Proof. by destruct typ. Qed.

Lemma storeForLogType_kind typ e s :
  storeForLogType typ e = Ok s → ∃ k, kindOf typ = Some k ∧ s = storeOf k e.
Proof. destruct typ; intros [= <-]; eauto. Qed.

(** Changes that the account does not see *)
Lemma inv_same M room k B L e e' evs :
  inv M room k B L e → storeOf k e' = storeOf k e → limits M (publication e') → opts e' = opts e →
  trace e' = trace e ++ evs → delivered k evs = [] → inv M room k B L e'.
Proof.
  intros [H1 H2 H3 H4 Hm] Es Hl Eo Et Ed.
  assert (E : delivered k (trace e') = delivered k (trace e)) by (by rewrite Et, delivered_app, Ed, app_nil_r).
  constructor; rewrite ?Es, ?E, ?Eo; done.
Qed.

Lemma delivered_quiet k evs : acked evs = [] → delivered k evs = [].
Proof. intros E. unfold delivered. by rewrite E. Qed.

Lemma inv_frame P M room k B L e e' :
  (∀ evs, Forall P evs → acked evs = []) → frame P e e' → inv M room k B L e → inv M room k B L e'.
Proof.
  intros HP (A1 & A2 & A3 & A4 & evs & A5 & A6) Hi.
  eapply (inv_same _ _ _ _ _ e e' evs); eauto using delivered_quiet.
  - by destruct k.
  - rewrite A3. apply Hi.
Qed.

Lemma filter_none {A} (P : A → Prop) `{!∀ x, Decision (P x)} (l : list A) :
  Forall (λ x, ¬ P x) l → filter P l = [].
Proof. induction 1 as [|x l Hx _ IH]; [done|]. by rewrite filter_cons_False. Qed.

(** Deleting from a store what was taken from its front *)
Lemma log_delete_prefix s n taken rest ids :
  log_ok s n → log_view s = taken ++ rest → (∀ i, i ∈ ids ↔ i ∈ taken.*1 ∨ i = [] ∧ i ∈ ids) →
  log_ok (kv_Delete ids s).1 n ∧ (kv_Delete ids s).2 = None ∧ log_view (kv_Delete ids s).1 = rest.
Proof.
  intros Hok Ev Hids. destruct (log_delete ids s n Hok) as (H1 & H2 & H3). split_and!; [done..|].
  destruct (log_keys s n Hok) as [Hnd Hblank]. rewrite H3, Ev. rewrite Ev, fmap_app in Hnd, Hblank.
  apply NoDup_app in Hnd as (_ & Hdisj & _).
  rewrite filter_app. replace rest with ([] ++ rest) at 2 by done. f_equal.
  - apply filter_none, Forall_forall. intros kv Hkv Hno. apply Hno, Hids. left. by apply list_elem_of_fmap_2.
  - apply filter_all, Forall_forall. intros kv Hkv Hin. apply Hids in Hin as [Hin|[Hin _]].
    + apply (Hdisj kv.1 Hin). by apply list_elem_of_fmap_2.
    + apply Hblank. rewrite elem_of_app. right. rewrite <- Hin. by apply list_elem_of_fmap_2.
Qed.

Lemma limits_max M lps : limits M lps → maxBytesPerBatch lps = M.
Proof. by intros [? _]. Qed.

Lemma inv_write M room k B L typ e :
  inv M room k B L e → (∀ k', ∃ n, log_ok (storeOf k' e) n) → inv M room k B L (writeBufferedLogsForType typ e).1.
Proof.
  intros Hi Hall. unfold writeBufferedLogsForType.
  destruct (storeForLogType typ e) as [store|er| |] eqn:Es; [|done..].
  apply storeForLogType_kind in Es as (k0 & Hk0 & ->). destruct (Hall k0) as [n0 Hn0].
  unfold kv_ForEach. rewrite (log_entries_spec _ _ Hn0).
  destruct (forEach _ _ _) as [[[logs ids] tot] er] eqn:Ef.
  apply (forEach_collect _ _ []) in Ef as (taken & rest & Ev & [= -> -> _] & Her).
  set (M' := maxBytesPerBatch (publication e)) in *. cbn [app].
  assert (Hfail : (if bool_decide (er = Some iterationTerminated) then None else er) = None).
  { destruct Her as [[-> _] | [-> _]]; [done|by rewrite bool_decide_true]. }
  rewrite Hfail. destruct (is_empty (small M' taken.*2)) eqn:Eempty; [exact Hi|].
  set (b := bool_decide _). set (e0 := with_publication e (BeginBatch (now e) b (publication e))).
  assert (Hi0 : inv M room k B L e0).
  { apply (inv_same _ _ _ _ _ e e0 []); [done|by destruct k|apply Hi|done|by rewrite app_nil_r|done]. }
  destruct (writeLogsWithReenroll typ (small M' taken.*2) e0) as [e1 r] eqn:Ew.
  apply writeLogs_ships in Ew as [W1 W2 W3 W4 (evs & W5 & _ & W6)].
  assert (Hst : ∀ k', storeOf k' e1 = storeOf k' e) by by intros []; cbn [storeOf]; rewrite ?W1, ?W2.
  assert (Hl1 : limits M (publication e1)) by (apply W4, Hi0).
  destruct r as [u|er'| |]; [|eapply (inv_same _ _ _ _ _ e0 e1 evs); eauto using delivered_quiet; by destruct k..].
  set (e2 := emit _ _ e1).
  assert (Es2 : storeForLogType typ e2 = Ok (storeOf k0 e)).
  { rewrite <- Hst. clear -Hk0. destruct typ; cbn in Hk0; try discriminate; injection Hk0 as <-; reflexivity. }
  rewrite Es2. set (es := taken.*1).
  destruct (log_delete_prefix (storeOf k0 e) n0 taken rest es Hn0 Ev) as (_ & Hd2 & _); [set_solver|].
  destruct (kv_Delete es (storeOf k0 e)) as [store' er'] eqn:Edel. cbn [snd] in Hd2. subst er'. cbn [fst].
  assert (Et : trace (setStore typ store' e2) = trace e ++ (evs ++ [EvIngestLogs typ (small M' taken.*2)])).
  { rewrite (proj2 (proj2 (setStore_same typ store' e2))). cbn [e2 emit trace]. by rewrite W5, app_assoc. }
  destruct (decide (k = k0)) as [->|Hne].
  - destruct Hi as [H1 H2 H3 H4 Hm].
    destruct (log_delete_prefix (storeOf k0 e) room taken rest es H1 Ev) as (D1 & _ & D3); [set_solver|].
    rewrite Edel in D1, D3. cbn [fst] in D1, D3.
    assert (Edlv : delivered k0 (trace (setStore typ store' e2)) = delivered k0 (trace e) ++ small M taken.*2).
    { rewrite Et, delivered_app. f_equal. unfold delivered. rewrite acked_app, W6. cbn [app acked omap list_omap].
      rewrite filter_cons_True by done. cbn. rewrite app_nil_r. unfold M'. by rewrite (limits_max M). }
    assert (Esm : small M (log_view (storeOf k0 e)).*2 = small M taken.*2 ++ small M rest.*2).
    { by rewrite Ev, fmap_app, small_app. }
    destruct (setStore_same typ store' e2) as (P1 & P2 & _).
    constructor; rewrite ?storeOf_setStore, ?(bool_decide_true (kindOf typ = Some k0)) by done.
    + done.
    + rewrite P1. exact Hl1.
    + by rewrite Edlv, D3, <- app_assoc, <- Esm.
    + intros Hlen. destruct (H4 Hlen) as [H5 H6].
      rewrite Edlv, D3, <- app_assoc, <- Esm. split; [done|]. rewrite Ev, len_app in H6.
      pose proof (len_nonneg taken). lia.
    + rewrite P2. cbn [e2 emit opts]. by rewrite W3.
  - assert (Hk : kindOf typ ≠ Some k) by congruence. destruct (setStore_same typ store' e2) as (P1 & P2 & _).
    eapply (inv_same _ _ _ _ _ e _ _ Hi); [| | |exact Et|].
    + rewrite storeOf_setStore, bool_decide_false by done. rewrite <- Hst. by destruct k.
    + rewrite P1. exact Hl1.
    + rewrite P2. cbn [e2 emit opts]. by rewrite W3.
    + unfold delivered. rewrite acked_app, W6. cbn [app acked omap list_omap]. by rewrite filter_cons_False.
Qed.

Lemma forEach_pick dc l : ∀ ids c,
  c <= dc → ∃ er n, forEach (pick dc) l (ids, c) = ((ids ++ (take (Z.to_nat (dc - c)) l).*1, n), er) ∧
    (er = None ∨ er = Some iterationTerminated).
Proof.
  induction l as [|[k v] l IH]; intros ids c Hc; cbn [forEach].
  { rewrite take_nil, app_nil_r. eauto. }
  unfold pick at 1. cbn [fst snd]. destruct (dc <=? c) eqn:E; zbool.
  - replace (Z.to_nat (dc - c)) with 0%nat by lia. rewrite take_0, app_nil_r. eauto.
  - destruct (IH (ids ++ [k]) (c + 1) ltac:(lia)) as (er & n & -> & Her). exists er, n. split; [|done].
    replace (Z.to_nat (dc - c)) with (Datatypes.S (Z.to_nat (dc - (c + 1)))) by lia.
    cbn [take firstn fmap list_fmap fst]. by rewrite <- app_assoc.
Qed.

(** What a purge does to a buffer: the oldest logs over the limit go. *)
Lemma purge_spec typ e n s :
  storeForLogType typ e = Ok s → log_ok s n →
  ∃ s' r, purgeBufferedLogsForType typ e = (setStore typ s' e, r) ∧ log_ok s' n ∧
    log_view s' = drop (Z.to_nat (len (log_view s) - MaxBufferedLogs (opts e))) (log_view s) ∧
    ∀ m, log_ok s m → log_ok s' m.
Proof.
  intros Es Hok. unfold purgeBufferedLogsForType. rewrite Es, (log_count s n Hok).
  set (dc := len (log_view s) - MaxBufferedLogs (opts e)).
  destruct (dc <=? 0) eqn:E; zbool.
  { exists s. exists (Ok tt). replace (Z.to_nat dc) with 0%nat by lia. split_and!; try done.
    destruct typ; try discriminate; injection Es as <-; by destruct e. }
  unfold kv_ForEach. rewrite (log_entries_spec s n Hok).
  destruct (forEach_pick dc (log_view s) (repeat [] (Z.to_nat dc)) 0 ltac:(lia)) as (er & m & -> & Her).
  replace (dc - 0) with dc by lia.
  assert (Hfail : (if bool_decide (er = Some iterationTerminated) then None else er) = None).
  { destruct Her as [-> | ->]; [done|by rewrite bool_decide_true]. }
  rewrite Hfail. set (ids := repeat [] (Z.to_nat dc) ++ (take (Z.to_nat dc) (log_view s)).*1).
  assert (Hids : ∀ i, i ∈ ids ↔ i ∈ (take (Z.to_nat dc) (log_view s)).*1 ∨ i = [] ∧ i ∈ ids).
  { intros i. unfold ids. rewrite !elem_of_app. split; [|tauto]. intros [Hi|Hi]; [|by left].
    right. split; [|by left]. apply list_elem_of_In, repeat_spec in Hi. done. }
  assert (Hsplit : log_view s = take (Z.to_nat dc) (log_view s) ++ drop (Z.to_nat dc) (log_view s))
    by (by rewrite take_drop).
  pose proof (log_delete_prefix s n _ _ ids Hok Hsplit Hids) as (D1 & D2 & D3).
  assert (Hall : ∀ m', log_ok s m' → log_ok (kv_Delete ids s).1 m').
  { intros m' Hm'. by destruct (log_delete ids s m' Hm'). }
  destruct (kv_Delete ids s) as [s' er']. cbn [fst snd] in *. subst er'. eauto 10.
Qed.

Lemma inv_purge M room k B L typ e : (kept k → B <= N) →
  inv M room k B L e → (∀ k', ∃ n, log_ok (storeOf k' e) n) → inv M room k B L (purgeBufferedLogsForType typ e).1.
Proof.
  intros HB Hi Hall. destruct (storeForLogType typ e) as [s|er| |] eqn:Es;
    [|by unfold purgeBufferedLogsForType; rewrite Es..].
  pose proof Es as (k0 & Hk0 & ->)%storeForLogType_kind. destruct (Hall k0) as [n0 Hn0].
  destruct (purge_spec typ e n0 _ Es Hn0) as (s' & r & -> & Hok' & Hv & Hroom). cbn [fst].
  destruct (setStore_same typ s' e) as (P1 & P2 & P3).
  destruct (decide (k = k0)) as [->|Hne].
  - destruct Hi as [H1 H2 H3 H4 Hm].
    constructor; rewrite ?storeOf_setStore, ?(bool_decide_true (kindOf typ = Some k0)), ?P1, ?P2, ?P3, ?Hv by done; auto.
    + etrans; [|exact H3]. apply sublist_app; [done|].
      generalize (Z.to_nat (len (log_view (storeOf k0 e)) - MaxBufferedLogs (opts e))). intros m.
      rewrite <- (take_drop m (log_view (storeOf k0 e))) at 2. rewrite fmap_app, small_app. by apply sublist_inserts_l.
    + intros Hlen. destruct (H4 Hlen) as [H5 H6]. specialize (HB Hlen). rewrite Hm.
      replace (Z.to_nat _) with 0%nat by lia. by rewrite drop_0.
  - apply (inv_same _ _ _ _ _ e _ [] Hi); rewrite ?P1, ?P2, ?P3, ?app_nil_r; try done; [|apply Hi].
    rewrite storeOf_setStore, bool_decide_false; [done|]. congruence.
Qed.

Lemma inv_more M room k B L e : inv M room k B L e → inv M room k (B + 1) L e.
Proof. intros [H1 H2 H3 H4 Hm]. constructor; try done. intros Hk. destruct (H4 Hk). split; [done|lia]. Qed.

(** What is logged of a kind by a call of [LogString] *)
Definition loggedBy (k : kind) (typ : logType) (text : bytes) : list bytes :=
  if bool_decide (kindOf typ = Some k) then [text] else [].

Lemma inv_LogString M room k B L typ text e :
  inv M (length (loggedBy k typ text) + room) k B L e → (∀ k', ∃ n, log_ok (storeOf k' e) (Datatypes.S n)) →
  log_fits text →
  inv M room k (B + 1) (L ++ loggedBy k typ text) (LogString typ text e).1.
Proof.
  intros Hi Hall Hfits. unfold loggedBy in *.
  destruct (storeForLogType typ e) as [s|er| |] eqn:Es.
  - pose proof Es as (k0 & Hk0 & ->)%storeForLogType_kind.
    assert (E : LogString typ text e =
      (setStore typ (kv_AppendValues [text] (storeOf k0 e)).1 e,
       match (kv_AppendValues [text] (storeOf k0 e)).2 with None => Ok tt | Some er => Err er end)).
    { unfold LogString. rewrite Es. destruct (kv_AppendValues _ _). by destruct typ. }
    rewrite E. cbn [fst]. destruct (setStore_same typ (kv_AppendValues [text] (storeOf k0 e)).1 e) as (P1 & P2 & P3).
    destruct (decide (k = k0)) as [->|Hne].
    + rewrite bool_decide_true in * by done. cbn [length Nat.add] in Hi. destruct Hi as [H1 H2 H3 H4 Hm].
      destruct (log_append text _ _ H1 Hfits) as (A1 & _ & i & A2).
      constructor; rewrite ?storeOf_setStore, ?(bool_decide_true (kindOf typ = Some k0)), ?P1, ?P2, ?P3, ?A2 by done; auto.
      * rewrite fmap_app, !small_app, app_assoc. by apply sublist_app.
      * intros Hlen. destruct (H4 Hlen) as [H5 H6].
        rewrite fmap_app, !small_app, app_assoc, H5, len_app. split; [done|]. change (len [(i, text)]) with 1. lia.
    + assert (Hk : kindOf typ ≠ Some k) by congruence. rewrite bool_decide_false in * by done.
      rewrite app_nil_r. apply inv_more, (inv_same _ _ _ _ _ e _ [] Hi); rewrite ?P1, ?P2, ?P3, ?app_nil_r; try done; [|apply Hi].
      by rewrite storeOf_setStore, bool_decide_false.
  - assert (Hk : kindOf typ ≠ Some k) by by destruct typ, k. rewrite bool_decide_false in * by done.
    rewrite app_nil_r. apply inv_more. unfold LogString. rewrite Es. by destruct typ.
  - by destruct typ.
  - by destruct typ.
Qed.

(** ** Any sequence of calls *)
Inductive op : Type :=
| OTime (t : Z)
| OLog (typ : logType) (text : bytes)
| OTick
| OGetQueries
| OGenerateConfigs
| OWriteResults (results : list R)
| OFlagsChanged (flagKeys : list bytes)
| OShutdown.

Definition apply_op (e : extension) (o : op) : extension :=
  match o with
  | OTime t => at_time t e
  | OLog typ text => (LogString typ text e).1
  | OTick => writeAndPurgeLogs e
  | OGetQueries => (GetQueries e).1
  | OGenerateConfigs => (GenerateConfigs e).1
  | OWriteResults results => (WriteResults results e).1
  | OFlagsChanged flagKeys => FlagsChanged flagKeys e
  | OShutdown => Shutdown e
  end.

Definition logged (k : kind) (ops : list op) : list bytes :=
  concat (map (λ o, match o with OLog typ text => loggedBy k typ text | _ => [] end) ops).

(** The texts that are logged fit into the stores. *)
Definition op_fits (o : op) : Prop := match o with OLog _ text => log_fits text | _ => True end.

(** Between calls nothing is asked of what is buffered, but the limit where it is kept. *)
Definition invs (M : Z) (room : nat) (L : kind → list bytes) (e : extension) : Prop := ∀ k, ∃ B, inv M room k B (L k) e.

Definition bounded (M : Z) (room : nat) (L : kind → list bytes) (e : extension) : Prop := ∀ k, inv M room k N (L k) e.

Lemma invs_bounded M room L e :
  invs M room L e → (∀ k, kept k → len (log_view (storeOf k e)) <= N) → bounded M room L e.
Proof.
  intros Hi Hk k. destruct (Hi k) as (B & [H1 H2 H3 H4 Hm]). constructor; try done.
  intros Hkk. split; [by apply H4|by apply Hk].
Qed.

Lemma bounded_ok M room L e : bounded M room L e → ∀ k, ∃ n, log_ok (storeOf k e) n.
Proof. intros H0 k. exists room. apply (inv_ok _ _ _ _ _ _ (H0 k)). Qed.

Lemma inv_less M room k B L e : inv M (Datatypes.S room) k B L e → inv M room k B L e.
Proof. intros [H1 H2 H3 H4 Hm]. constructor; auto using log_less. Qed.

Lemma bounded_tick M room L typ e : bounded M room L e → bounded M room L (writeAndPurgeType typ e).
Proof.
  intros Hi. assert (Hw : bounded M room L (writeBufferedLogsForType typ e).1).
  { intros k. apply inv_write; [apply Hi|by eapply bounded_ok]. }
  intros k. apply inv_purge; [lia|apply Hw|by eapply bounded_ok].
Qed.

Lemma bounded_op M room L e o :
  bounded M (Datatypes.S room) L e → op_fits o →
  invs M room (λ k, L k ++ logged k [o]) (apply_op e o).
Proof.
  intros Hi Ho.
  assert (Hs : bounded M room L e) by (intros k; by apply inv_less).
  assert (Hf : ∀ e', frame requesting e e' → invs M room (λ k, L k ++ []) e').
  { intros e' He k. exists N. rewrite app_nil_r. eapply inv_frame; [apply acked_requesting|exact He|apply Hs]. }
  destruct o; cbn [apply_op].
  - apply Hf. exact (reflexivity (R := frame requesting) e).
  - intros k. exists (N + 1). unfold logged. cbn [map concat]. rewrite app_nil_r. apply inv_LogString.
    + unfold loggedBy. case_bool_decide; [apply Hi|apply Hs].
    + intros k'. exists room. apply (inv_ok _ _ _ _ _ _ (Hi k')).
    + exact Ho.
  - unfold logged. cbn [map concat app]. intros k. exists N. rewrite app_nil_r. by apply bounded_tick, bounded_tick.
  - apply Hf, frame_GetQueries.
  - apply Hf, frame_GenerateConfigs.
  - apply Hf, frame_WriteResults.
  - apply Hf. unfold FlagsChanged. case_bool_decide; [apply frame_queries|]; reflexivity.
  - apply Hf. unfold Shutdown. destruct (interrupted e); [reflexivity|]. exact (reflexivity (R := frame requesting) e).
Qed.

Lemma invs_ops M ops : ∀ room L e,
  Forall op_fits ops →
  (∀ k, kept k → ∀ past, past `prefix_of` ops → len (log_view (storeOf k (foldl apply_op e past))) <= N) →
  invs M (length ops + room) L e → invs M room (λ k, L k ++ logged k ops) (foldl apply_op e ops).
Proof.
  induction ops as [|o ops IH]; intros room L e Hops Hk Hi; cbn [foldl].
  - intros k. unfold logged. cbn [map concat]. rewrite app_nil_r. apply Hi.
  - apply Forall_cons in Hops as [Ho Hops].
    assert (Hb : bounded M (length (o :: ops) + room) L e)
      by (apply invs_bounded; [done|]; intros k Hkk; apply (Hk k Hkk []), prefix_nil).
    intros k. pose proof (IH room _ (apply_op e o) Hops (λ k Hkk past Hp, Hk k Hkk (o :: past) (prefix_cons o past ops Hp))
      (bounded_op M _ L e o Hb Ho) k) as Hr. cbn beta in Hr.
    replace (logged k (o :: ops)) with (logged k [o] ++ logged k ops); [by rewrite app_assoc|].
    unfold logged. cbn [map concat]. by rewrite app_nil_r.
Qed.
End Account.

Lemma NewExtension_spec o k fc st rs t :
  let e := NewExtension o k fc st rs t in
  StatusLogsStore e = st ∧ ResultLogsStore e = rs ∧ trace e = [] ∧ opts e = defaults o ∧
  limits (MaxBytesPerBatch (defaults o)) (publication e).
Proof.
  unfold NewExtension. set (e0 := Ext _ _ _ _ _ _ _ _ _ _ _ _).
  assert (H0 : ∀ e, frame enrolling e0 e → (StatusLogsStore e = st ∧ ResultLogsStore e = rs ∧
    opts e = defaults o ∧ limits (MaxBytesPerBatch (defaults o)) (publication e))).
  { intros e (A1 & A2 & A3 & A4 & _). rewrite A1, A2, A3, A4. split_and!; try done. apply limits_New. }
  destruct (H0 _ (frame_getHostIdentifier enrolling e0)) as (? & ? & ? & ?). split_and!; try done.
  unfold getHostIdentifier. destruct (ConfigStore (knap e0)); [|done]. by destruct (IdentifierFromDB _ _).
Qed.

(** C2: No log is lost from a buffer that was never full, sent twice or out of order: for any answers of the server and
    any sequence of calls, what the server accepted of a kind of logs, followed by what is still buffered, is a
    subsequence of all logs of that kind, those left over from before included; and it is the whole sequence,
    but for the logs bigger than a batch may be, as long as the buffer never held more logs than it may.  The
    stores must have room for the logs, each of which fits, and delete what they are told to. *)
Theorem logs_accounted o k fc st rs t ops kd :
  log_ok st (length ops) → log_ok rs (length ops) → Forall op_fits ops →
  let after past := foldl apply_op (NewExtension o k fc st rs t) past in
  let M := MaxBytesPerBatch (defaults o) in
  let L := (log_view (match kd with StatusKind => st | ResultKind => rs end)).*2 ++ logged kd ops in
  let seen := delivered kd (trace (after ops)) ++ small M (log_view (storeOf kd (after ops))).*2 in
  seen `sublist_of` small M L ∧
  ((∀ past, past `prefix_of` ops → len (log_view (storeOf kd (after past))) <= MaxBufferedLogs (defaults o)) →
   seen = small M L).
Proof.
  intros Hst Hrs Hops. destruct (NewExtension_spec o k fc st rs t) as (E1 & E2 & E3 & E4 & E5).
  set (e0 := NewExtension o k fc st rs t) in *. cbv zeta.
  set (N := MaxBufferedLogs (defaults o)).
  set (kept := λ k, ∀ past, past `prefix_of` ops → len (log_view (storeOf k (foldl apply_op e0 past))) <= N).
  assert (Hi : invs N kept (MaxBytesPerBatch (defaults o)) (length ops + 0) (λ k, (log_view (storeOf k e0)).*2) e0).
  { intros k'. exists (len (log_view (storeOf k' e0))). rewrite Nat.add_0_r. constructor; [| |by rewrite E3| |by rewrite E4].
    - destruct k'; cbn [storeOf]; by rewrite ?E1, ?E2.
    - exact E5.
    - intros _. by rewrite E3. }
  destruct (invs_ops N kept _ ops 0 _ e0 Hops (λ k Hk, Hk) Hi kd) as (B & [_ _ H3 H4 _]). cbn beta in H3, H4.
  assert (Ev : log_view (storeOf kd e0) = log_view (match kd with StatusKind => st | ResultKind => rs end)).
  { destruct kd; cbn [storeOf]; by rewrite ?E1, ?E2. }
  rewrite Ev in H3, H4. split; [exact H3|]. intros Hlen. by destruct (H4 Hlen).
Qed.
End Buffers.

(** Each call ends after at most two attempts: whatever the server answers, it sends at most
    two requests and three enrollments, and no request without a node key. *)
Theorem attempts_bounded typ logs results e :
  sends 2 3 e (writeLogsWithReenroll typ logs e).1 ∧ sends 2 3 e (GetQueries e).1 ∧
  sends 2 3 e (WriteResults results e).1 ∧ sends 2 3 e (GenerateConfigs e).1.
Proof.
  split_and!.
  - apply (sends_writeLogsOnce (Some (writeLogsOnce None typ logs)) typ logs 1 1). intros again [= <-] e1. by apply (sends_writeLogsOnce None typ logs 0 0).
  - unfold GetQueries. case_if; [apply (sends_le 0 0); [lia..|by apply sends_refl]|]. set (e0 := with_queries _ _ _ _).
    assert (H0 : sends 2 3 e (getQueriesWithReenroll e0).1).
    { apply (sends_trans 0 0 2 3 e e0); [by apply sends_refl|].
      apply (sends_getQueriesOnce (Some (getQueriesOnce None)) 1 1). intros again [= <-] e1. by apply (sends_getQueriesOnce None 0 0). }
    destruct (getQueriesWithReenroll e0) as [e1 [q|er| |]]; cbn [fst] in *; try done. by case_if.
  - apply (sends_writeResultsOnce (Some (writeResultsOnce None results)) results 1 1). intros again [= <-] e1. by apply (sends_writeResultsOnce None results 0 0).
  - unfold GenerateConfigs.
    assert (H0 : sends 2 3 e (generateConfigsWithReenroll e).1).
    { apply (sends_generateConfigsOnce (Some (generateConfigsOnce None)) 1 1). intros again [= <-] e1. by apply (sends_generateConfigsOnce None 0 0). }
    destruct (generateConfigsWithReenroll e) as [e1 [c|er| |]]; cbn [fst] in *; try done.
    + destruct (ConfigStore (knap e1)); [|done]. eapply sends_trans0; [exact H0|].
      by apply (sends_emit EvWriteSettings 0 (with_knap e1 (with_config (knap e1) (kv_Set configKeyFor c s).1))).
    + destruct (ConfigStore (knap e1)); [|done]. by repeat case_if.
Qed.

(** ** Throttling *)
Definition timing (e : extension) : Z * Z * Z :=
  (lastRequestQueriesTimestamp e, distributedForwardingInterval e, forwardAllDistributedUntil e).

Lemma timing_Enroll e : timing (Enroll e).1 = timing e.
Proof.
  assert (Hid : timing (getHostIdentifier e).1 = timing e).
  { unfold getHostIdentifier. destruct (ConfigStore (knap e)); [|done]. by destruct (IdentifierFromDB _ _). }
  assert (Hu : ∀ urls e0, timing (updateURLs urls e0) = timing e0).
  { intros [[[a b] c]|] e0; [|done]. unfold updateURLs.
    assert (H1 : ∀ get set u x, timing (updateURL get set u x) = timing x).
    { intros get set u x. unfold updateURL. case_if; [|done]. by destruct (set u (flagc x)) as [[fc n] er]. }
    by rewrite !H1. }
  unfold Enroll. case_if; [done|]. destruct (ReadEnrollSecret (knap e)) as [secret|er| |]; try done.
  destruct (getHostIdentifier e) as [e1 [ident|er| |]]; cbn [fst] in Hid; try done.
  destruct (val _) as [resp [se|]]; [by repeat case_if|].
  destruct resp as [resp|]; [|done]. destruct (NodeInvalid resp); [done|].
  set (e2 := emit _ _ e1). specialize (Hu (DeploymentURLs resp) e2).
  assert (H2 : timing (updateURLs (DeploymentURLs resp) e2) = timing e) by (by rewrite Hu).
  destruct (WrongRegion resp); [done|]. destruct (is_empty (r_NodeKey resp)); [done|].
  destruct (PersistAgentIngesterKeys _ _ _ _ _) as [k ping]. by destruct ping.
Qed.

Lemma timing_getQueriesOnce retry e :
  (∀ again, retry = Some again → ∀ e, timing (again e).1 = timing e) → timing (getQueriesOnce retry e).1 = timing e.
Proof.
  intros Hretry.
  assert (Hr : ∀ d e0, timing (reenroll retry d e0).1 = timing e0).
  { intros d e0. unfold reenroll. destruct retry as [again|]; [|done].
    assert (H1 : timing (RequireReenroll e0) = timing e0).
    { unfold RequireReenroll. destruct (ReadEnrollSecret (knap e0)); try done. by case_if. }
    pose proof (timing_Enroll (RequireReenroll e0)) as H2.
    destruct (Enroll (RequireReenroll e0)) as [e1 [[nk invalid] [er|]]]; cbn [fst] in *; [by rewrite H2|].
    destruct invalid; cbn [fst]; [by rewrite H2|]. rewrite Hretry by done. by rewrite H2. }
  unfold getQueriesOnce.
  assert (Hn : timing (nodeKeyOrEnroll e).1 = timing e).
  { unfold nodeKeyOrEnroll. case_if; [|done]. pose proof (timing_Enroll e) as H1.
    destruct (Enroll e) as [e1 [[nk invalid] [er|]]]; [done|]. by destruct (is_empty nk || invalid). }
  destruct (nodeKeyOrEnroll e) as [e1 [nk|er| |]]; cbn [fst] in Hn; try done. cbv zeta.
  destruct (val _) as [[q invalid] [se|]]; [destruct (deviceDisabled se); [done|]; destruct (unauthenticated se); [|done]|
    destruct invalid; [|done]]; by rewrite Hr.
Qed.

Definition throttled (e : extension) : bool :=
  (forwardAllDistributedUntil e <=? unix e) && (unix e <? lastRequestQueriesTimestamp e + distributedForwardingInterval e).

(** After a call that asked the server for queries, a call within the forwarding interval
    sends nothing and returns no queries, unless all calls are to be forwarded; and all are for
    as many seconds as the server asked for. *)
Theorem GetQueries_spaced e e1 r t :
  throttled e = false → GetQueries e = (e1, r) →
  (forwardAllDistributedUntil e1 <= t / Flags.second < unix e + distributedForwardingInterval e →
     GetQueries (at_time t e1) = (at_time t e1, Ok (QueriesResult noQueries 0))) ∧
  (t / Flags.second < forwardAllDistributedUntil e1 → throttled (at_time t e1) = false) ∧
  (∀ q, r = Ok q → 0 < AccelerateSeconds q → forwardAllDistributedUntil e1 = unix e1 + AccelerateSeconds q).
Proof.
  intros Ht E. assert (Ht1 : lastRequestQueriesTimestamp e1 = unix e ∧
    distributedForwardingInterval e1 = distributedForwardingInterval e ∧
    (∀ q, r = Ok q → 0 < AccelerateSeconds q → forwardAllDistributedUntil e1 = unix e1 + AccelerateSeconds q)).
  { unfold GetQueries in E. unfold throttled in Ht. rewrite Ht in E. revert E. set (e0 := with_queries _ _ _ _).
    assert (H0 : timing (getQueriesWithReenroll e0).1 = timing e0).
    { apply timing_getQueriesOnce. intros again [= <-] e2. by apply timing_getQueriesOnce. }
    destruct (getQueriesWithReenroll e0) as [e2 [q|er| |]]; cbn [fst] in H0; injection H0 as T1 T2 T3;
      intros [= <- <-]; [|by split_and!..].
    destruct (0 <? AccelerateSeconds q) eqn:Ea; zbool; split_and!; try done; intros q' [= <-]; [done|lia]. }
  destruct Ht1 as (T1 & T2 & T3). split_and!; [|intros Hlt|exact T3].
  - intros [H1 H2]. unfold GetQueries, unix.
    cbn [at_time forwardAllDistributedUntil lastRequestQueriesTimestamp distributedForwardingInterval now].
    rewrite T1, T2, (proj2 (Z.leb_le _ _)), (proj2 (Z.ltb_lt _ _)) by done. done.
  - unfold throttled, unix. cbn [at_time forwardAllDistributedUntil now].
    by rewrite (proj2 (Z.leb_gt _ _)).
Qed.


(** ** The cached configuration *)
Section Cached.
Context `{KL : !KVLaws S, KR : !KVReliable S}.

Definition holds (c : bytes) (e : extension) : Prop := has configKeyFor c (knap e).

Lemma config_not_nodeKey : configKeyFor ≠ nodeKeyKeyFor enrollmentId.
Proof. unfold configKeyFor, nodeKeyKeyFor, KeyByIdentifier. by case_if. Qed.

Lemma config_not_uuid : configKeyFor ≠ uuidKeyFor.
Proof. unfold configKeyFor, uuidKeyFor, KeyByIdentifier. by case_if. Qed.

Lemma holds_getHostIdentifier c e : holds c e → holds c (getHostIdentifier e).1.
Proof.
  intros Hh. unfold getHostIdentifier. destruct (ConfigStore (knap e)) as [s|] eqn:Es; [|done].
  pose proof (has_Set_config configKeyFor c (knap e) uuidKeyFor) as Hset. unfold IdentifierFromDB.
  destruct (parseUUID _); cbn [fst].
  { destruct Hh as [Hok (s' & Es' & Hg)]. rewrite Es in Es'. injection Es' as <-.
    apply has_config; [split; [done|by exists s]| |done]. destruct Hok as [Hc _]. by rewrite Es in Hc. }
  destruct (NewRandomUUID w (trace e)) as [u|]; cbn [fst].
  - specialize (Hset u s Hh config_not_uuid Es). by destruct (kv_Set uuidKeyFor u s) as [s' [er|]].
  - destruct Hh as [Hok (s' & Es' & Hg)]. rewrite Es in Es'. injection Es' as <-.
    apply has_config; [split; [done|by exists s]| |done]. destruct Hok as [Hc _]. by rewrite Es in Hc.
Qed.

Lemma holds_updateURLs c urls e : holds c e → holds c (updateURLs urls e).
Proof.
  intros Hh. destruct urls as [[[a b] d]|]; [|done]. unfold updateURLs.
  assert (Hu : ∀ get set u x, holds c x → holds c (updateURL get set u x)).
  { intros get set u x Hx. unfold updateURL. case_if; [|done]. by destruct (set u (flagc x)) as [[fc n] er]. }
  auto.
Qed.

Lemma holds_Enroll c e : holds c e → holds c (Enroll e).1.
Proof.
  intros Hh. unfold Enroll. case_if; [by apply has_EnsureEnrollmentStored, config_not_nodeKey|].
  destruct (ReadEnrollSecret (knap e)) as [secret|er| |]; try done.
  pose proof (holds_getHostIdentifier c e Hh) as Hid.
  destruct (getHostIdentifier e) as [e1 [ident|er| |]]; cbn [fst] in Hid; try done.
  destruct (val _) as [resp [se|]]; [by repeat case_if|].
  destruct resp as [resp|]; [|done]. destruct (NodeInvalid resp); [done|].
  set (e2 := emit _ _ e1). assert (H2 : holds c (updateURLs (DeploymentURLs resp) e2)) by by apply holds_updateURLs.
  destruct (WrongRegion resp); [done|]. destruct (is_empty (r_NodeKey resp)); [done|].
  set (k1 := (SaveEnrollment _ _ _ _ _).1). set (e3 := with_knap _ k1).
  assert (H3 : holds c e3) by by apply has_SaveEnrollment, config_not_nodeKey.
  pose proof (has_PersistAgentIngesterKeys configKeyFor c hasPublisher (AgentIngesterToken resp)
    (AgentIngesterHPKEPublicKey resp) (AgentIngesterHPKEPresharedKey resp) (knap e3) H3) as H4.
  destruct (PersistAgentIngesterKeys _ _ _ _ (knap e3)) as [k ping]. by destruct ping.
Qed.

Lemma holds_generateConfigsOnce c retry e :
  (∀ again, retry = Some again → ∀ e, holds c e → holds c (again e).1) →
  holds c e → holds c (generateConfigsOnce retry e).1.
Proof.
  intros Hretry Hh.
  assert (Hr : ∀ d e0, holds c e0 → holds c (reenroll retry d e0).1).
  { intros d e0 H0. unfold reenroll. destruct retry as [again|]; [|done].
    assert (H1 : holds c (RequireReenroll e0)).
    { unfold RequireReenroll. destruct (ReadEnrollSecret (knap e0)); try done. case_if; [done|].
      by apply has_DeleteEnrollment, config_not_nodeKey. }
    apply holds_Enroll in H1.
    destruct (Enroll (RequireReenroll e0)) as [e1 [[nk invalid] [er|]]]; [done|].
    destruct invalid; [done|]. by apply Hretry. }
  unfold generateConfigsOnce.
  assert (Hn : holds c (nodeKeyOrEnroll e).1).
  { unfold nodeKeyOrEnroll. case_if; [|done]. pose proof (holds_Enroll c e Hh) as H1.
    destruct (Enroll e) as [e1 [[nk invalid] [er|]]]; [done|]. by destruct (is_empty nk || invalid). }
  destruct (nodeKeyOrEnroll e) as [e1 [nk|er| |]]; cbn [fst] in Hn; try done. cbv zeta.
  destruct (val _) as [[config invalid] [se|]];
    [destruct (deviceDisabled se); [done|]; destruct (unauthenticated se); [|done]|destruct invalid; [|done]];
    by apply Hr.
Qed.

(** C17: A configuration the server once gave is not lost: as long as the server gives none, for
    whatever reason, [GenerateConfigs] returns the last one it gave, through any number of
    failing calls. *)
Theorem config_survives_outage e e0 e1 c n :
  knap_ok (knap e0) → generateConfigsWithReenroll e = (e0, Ok c) → GenerateConfigs e = (e1, Ok c) → c ≠ [] →
  let calls := Nat.iter n (λ x, (GenerateConfigs x).1) e1 in
  (∀ m, (m < n)%nat → ∃ x er, generateConfigsWithReenroll (Nat.iter m (λ x, (GenerateConfigs x).1) e1) = (x, Err er)) →
  ∀ x er, generateConfigsWithReenroll calls = (x, Err er) → GenerateConfigs calls = (x, Ok c).
Proof.
  intros Hok Eg Ec Hc calls Hfail.
  assert (H1 : holds c e1).
  { unfold GenerateConfigs in Ec. rewrite Eg in Ec. destruct (ConfigStore (knap e0)) as [s|] eqn:Es; [|done].
    injection Ec as <-. unfold holds. cbn [emit with_knap knap]. destruct Hok as [Hcs Hes]. rewrite Es in Hcs.
    destruct (kv_Set_spec configKeyFor c s Hcs) as [Hok' Hv].
    assert (Hset : (kv_Set configKeyFor c s).2 = None).
    { apply kv_Set_reliable; [done|]. unfold configKeyFor, KeyByIdentifier. by case_if. }
    split; [by split|]. eexists. split; [done|]. rewrite kv_Get_reliable, Hv, Hset by done. by rewrite lookup_insert_eq. }
  assert (Hkeep : ∀ x y er, holds c x → generateConfigsWithReenroll x = (y, Err er) →
    holds c y ∧ GenerateConfigs x = (y, Ok c)).
  { intros x y er Hx E. assert (Hy : holds c y).
    { change y with (y, @Err bytes er).1. rewrite <- E. apply holds_generateConfigsOnce; [|done].
      intros again [= <-] z Hz. by apply holds_generateConfigsOnce. }
    split; [done|]. unfold GenerateConfigs. rewrite E. destruct Hy as [_ (s & Es & Hg)]. rewrite Es, Hg.
    cbn [default from_option Datatypes.id]. by destruct c. }
  assert (Hcalls : holds c calls).
  { unfold calls. clear calls. induction n as [|n IH]; [done|]. cbn [Nat.iter nat_rect].
    destruct (Hfail n ltac:(lia)) as (y & er & E).
    destruct (Hkeep _ y er (IH (λ m Hm, Hfail m ltac:(lia))) E) as [Hy Ey].
    change (holds c (GenerateConfigs (Nat.iter n (λ x, (GenerateConfigs x).1) e1)).1). by rewrite Ey. }
  intros x er E. by destruct (Hkeep calls x er Hcalls E).
Qed.

(** ** Re-enrollment *)

(** A server that has forgotten node key [nk], gives out [nk'] for the enroll secret, and accepts the logs
    under [nk'] *)
Record reenrolls (typ : logType) (logs : list bytes) (secret nk nk' : bytes) : Prop := {
  re_forgot tr : val (PublishLogs w tr nk typ logs) = (true, None);
  re_enroll tr ident : ∃ resp, val (RequestEnrollment w tr secret ident) = (Some resp, None) ∧
    NodeInvalid resp = false ∧ WrongRegion resp = false ∧ r_NodeKey resp = nk';
  re_accepts tr : val (PublishLogs w tr nk' typ logs) = (false, None);
  re_uuid tr : is_Some (NewRandomUUID w tr)
}.

Lemma getHostIdentifier_ok e cs :
  knap_ok (knap e) → ConfigStore (knap e) = Some cs → is_Some (NewRandomUUID w (trace e)) →
  ∃ e1 ident cs', getHostIdentifier e = (e1, Ok ident) ∧ knap_ok (knap e1) ∧ ConfigStore (knap e1) = Some cs' ∧
    EnrollmentStore (knap e1) = EnrollmentStore (knap e) ∧ ReadEnrollSecret (knap e1) = ReadEnrollSecret (knap e).
Proof.
  intros [Hc He] Es [u Hu]. unfold getHostIdentifier, IdentifierFromDB. rewrite Es, Hu in *.
  destruct (parseUUID _) as [ident|].
  { do 3 eexists. split; [done|]. split_and!; done. }
  destruct (kv_Set_spec uuidKeyFor u cs Hc) as [Hok _].
  assert (Hset : (kv_Set uuidKeyFor u cs).2 = None).
  { apply kv_Set_reliable; [done|]. unfold uuidKeyFor, KeyByIdentifier. by case_if. }
  destruct (kv_Set uuidKeyFor u cs) as [cs' er]. cbn [fst snd] in *. subst er.
  do 3 eexists. split; [done|]. split_and!; done.
Qed.

Lemma updateURLs_knap urls e : knap (updateURLs urls e) = knap e.
Proof.
  destruct urls as [[[a b] c]|]; [|done]. unfold updateURLs.
  assert (Hu : ∀ get set u x, knap (updateURL get set u x) = knap x).
  { intros get set u x. unfold updateURL. case_if; [|done]. by destruct (set u (flagc x)) as [[fc n] er]. }
  by rewrite !Hu.
Qed.

Lemma Enroll_fresh e secret m nk' cs es :
  knap_ok (knap e) → ConfigStore (knap e) = Some cs → EnrollmentStore (knap e) = Some es → enrollmentId ≠ [] →
  nodeKey e = [] → ReadEnrollSecret (knap e) = Ok secret → secret ≠ [] → munemoFor [] secret = Ok m → nk' ≠ [] →
  (∀ tr, is_Some (NewRandomUUID w tr)) →
  (∀ tr ident, ∃ resp, val (RequestEnrollment w tr secret ident) = (Some resp, None) ∧
    NodeInvalid resp = false ∧ WrongRegion resp = false ∧ r_NodeKey resp = nk') →
  ∃ e1, Enroll e = (e1, (nk', false, None)) ∧ nodeKey e1 = nk'.
Proof.
  intros Hok Ec Ee Hid Hno Hs Hsne Hm Hnk' Huuid Hresp. unfold Enroll. rewrite Hno. cbn [is_empty negb]. rewrite Hs.
  destruct (getHostIdentifier_ok e cs Hok Ec (Huuid _)) as (e1 & ident & cs1 & -> & Hok1 & Ec1 & Ee1 & _).
  destruct (Hresp (trace e1) ident) as (resp & -> & -> & Hregion & Hkey). rewrite Hregion, Hkey.
  destruct nk' as [|x nk']; [done|]. cbn [is_empty]. set (e2 := updateURLs _ _).
  assert (Ek : knap e2 = knap e1) by (unfold e2; by rewrite updateURLs_knap).
  assert (Hsave : (SaveEnrollment enrollmentId [] (x :: nk') secret (knap e2)).2 = None).
  { rewrite Ek. rewrite Ee in Ee1. by eapply SaveEnrollment_succeeds. }
  destruct (SaveEnrollment enrollmentId [] (x :: nk') secret (knap e2)) as [k1 er] eqn:Esave.
  cbn [snd] in Hsave. subst er. apply SaveEnrollment_spec in Esave as (_ & _ & _ & _ & HN & _); [|by rewrite Ek].
  specialize (HN enrollmentId). rewrite bool_decide_true in HN by done. cbn [fst].
  set (e3 := with_knap e2 k1). destruct (PersistAgentIngesterKeys _ _ _ _ (knap e3)) as [k ping] eqn:Ep.
  assert (HNk : NodeKey enrollmentId k = Ok (x :: nk')).
  { rewrite <- HN. unfold PersistAgentIngesterKeys in Ep.
    destruct (TokenStore (knap e3)); [destruct hasPublisher|]; by injection Ep as <- _. }
  eexists. split; [done|]. unfold nodeKey. by destruct ping; cbn [knap emit with_knap]; rewrite HNk.
Qed.

(** C18: A node key the server has forgotten does not stop the logs: the call sends them under the old key, which the
    server rejects, enrolls again, and then sends the same logs under the new key, once, which the server
    accepts; it succeeds and keeps the new key.  There is an enroll secret, of a readable kind, the stores are
    in order and the old enrollment can be deleted, and the server rejects the old key, answers an enrollment with that
    secret with the new key, and accepts the logs under it. *)
Theorem shipping_recovers typ logs e secret m nk nk' :
  knap_ok (knap e) → enrollmentId ≠ [] → nodeKey e = nk → nk ≠ [] → nk' ≠ [] →
  ReadEnrollSecret (knap e) = Ok secret → secret ≠ [] → munemoFor [] secret = Ok m →
  (DeleteEnrollment enrollmentId (knap e)).2 = None → reenrolls typ logs secret nk nk' →
  ∃ e' evs, writeLogsWithReenroll typ logs e = (e', Ok tt) ∧ nodeKey e' = nk' ∧
    trace e' = trace e ++ [EvLogs nk typ logs false] ++ evs ++ [EvLogs nk' typ logs true] ∧ Forall enrolling evs.
Proof.
  intros Hok Hid Hnk Hne Hne' Hs Hsne Hm Hdel [Hforgot Hresp Haccepts Huuid].
  unfold writeLogsWithReenroll, writeLogsOnce at 1, nodeKeyOrEnroll at 1. rewrite Hnk.
  destruct nk as [|x nk]; [done|]. cbn [is_empty]. rewrite Hforgot. cbn [isNodeInvalidErr orb negb andb].
  set (e1 := emit _ _ e). unfold reenroll at 1.
  assert (Ek1 : knap e1 = knap e) by done.
  unfold RequireReenroll. rewrite Ek1, Hs. destruct secret as [|y secret]; [done|]. cbn [is_empty].
  destruct (DeleteEnrollment enrollmentId (knap e)) as [k2 er] eqn:Ed. cbn [snd] in Hdel. subst er.
  pose proof (DeleteEnrollment_stores _ _ _ Hok Ed) as (Hok2 & Hs2 & cs & es & Ec & Ee).
  pose proof (DeleteEnrollment_spec _ _ _ Hok Ed) as [HN2 _].
  cbn [fst]. set (e2 := with_knap e1 k2).
  destruct (Enroll_fresh e2 (y :: secret) m nk' cs es Hok2 Ec Ee Hid) as (e3 & E3 & Hk3); try done.
  { unfold nodeKey. cbn [e2 with_knap knap]. specialize (HN2 enrollmentId). rewrite bool_decide_true in HN2 by done. by rewrite HN2. }
  { cbn [e2 with_knap knap]. by rewrite Hs2. }
  pose proof (frame_Enroll e2) as (_ & _ & _ & _ & evs & Htr & Hevs). rewrite E3 in Htr |- *. cbn [fst] in Htr.
  unfold writeLogsOnce, nodeKeyOrEnroll. rewrite Hk3.
  destruct nk' as [|z nk']; [done|]. cbn [is_empty]. rewrite Haccepts. cbn [isNodeInvalidErr orb negb andb].
  eexists _, evs. split; [done|]. split; [exact Hk3|]. split; [|done].
  unfold endBatch. cbn [with_publication emit trace]. rewrite Htr. cbn [e2 e1 with_knap emit trace]. by rewrite <- !app_assoc.
Qed.
End Cached.

(** ** Osquery options *)
Class OptionsLaws := {
  asObject_ofObject m : asObject (ofObject m) = Some m;
  decode_encode m : ∃ b, encodeObject m = Some b ∧ decodeObject b = Some (Some m)
}.

(** Setting the options keeps every other setting and option of the config, and a config that
    is not an object, or whose options are not, is left as it is. *)
Lemma setOsqueryOptions_sets `{!OptionsLaws} verbose config cfg old :
  config ≠ [] → decodeObject config = Some (Some cfg) →
  match cfg !! bs "options" with Some o => asObject o | None => Some ∅ end = Some old →
  ∃ config' cfg' new, setOsqueryOptions verbose config = Ok config' ∧ decodeObject config' = Some (Some cfg') ∧
    (∀ k, k ≠ bs "options" → cfg' !! k = cfg !! k) ∧
    cfg' !! bs "options" = Some (ofObject new) ∧
    new !! bs "verbose" = Some (ofBool verbose) ∧
    new !! bs "distributed_interval" = Some (ofInt osqueryDistributedInterval) ∧
    (∀ k, k ≠ bs "verbose" → k ≠ bs "distributed_interval" → new !! k = old !! k).
Proof.
  intros Hne Hd Ho. unfold setOsqueryOptions. destruct config as [|x config]; [done|]. cbn [is_empty]. rewrite Hd, Ho.
  set (set_ := <[bs "verbose" := _]> _). set (new := set_ ∪ old).
  destruct (decode_encode (<[bs "options" := ofObject new]> cfg)) as (b & -> & Hb). cbn [default from_option].
  exists b, (<[bs "options" := ofObject new]> cfg), new. split_and!; try done.
  - intros k Hk. by rewrite lookup_insert_ne.
  - by rewrite lookup_insert_eq.
  - unfold new, set_. rewrite lookup_union_l'; by rewrite lookup_insert_eq.
  - unfold new, set_. rewrite lookup_union_l'; rewrite lookup_insert_ne, lookup_insert_eq by done; done.
  - intros k H1 H2. unfold new, set_. rewrite lookup_union_r; [done|]. by rewrite !lookup_insert_ne.
Qed.

(** The text "null" is valid JSON, but no map the options could be stored in. *)
Lemma null_config_panics verbose config :
  config ≠ [] → decodeObject config = Some None → setOsqueryOptions verbose config = Panic.
Proof. intros Hne Hd. unfold setOsqueryOptions. destruct config; [done|]. cbn [is_empty]. by rewrite Hd. Qed.

(** ** Corner cases of shipping *)

(** Logs that are too big for any batch are not deleted as long as nothing else is buffered. *)
Lemma oversized_logs_stay `{LL : !KVLogLaws S} typ e s n :
  storeForLogType typ e = Ok s → log_ok s n →
  Forall (λ kv, maxBytesPerBatch (publication e) < len kv.2) (log_view s) →
  writeBufferedLogsForType typ e = (e, Ok tt).
Proof.
  intros Es Hok Hbig. unfold writeBufferedLogsForType. rewrite Es. unfold kv_ForEach.
  rewrite (log_entries_spec s n Hok).
  destruct (forEach _ _ _) as [[[logs ids] tot] er] eqn:Ef.
  apply (forEach_collect _ _ []) in Ef as (taken & rest & Ev & [= -> -> _] & Her). cbn [app].
  assert (E : small (maxBytesPerBatch (publication e)) taken.*2 = []).
  { apply filter_none, Forall_fmap. rewrite Ev in Hbig. apply Forall_app in Hbig as [Hbig _].
    eapply Forall_impl; [exact Hbig|]. intros kv Hkv. cbn in *. lia. }
  rewrite E. cbn [is_empty].
  assert (Hfail : (if bool_decide (er = Some iterationTerminated) then None else er) = None).
  { destruct Her as [[-> _] | [-> _]]; [done|by rewrite bool_decide_true]. }
  by rewrite Hfail.
Qed.

(** An "unauthenticated" error does not lead to a new enrollment when logs are shipped, as it does for
    the other requests: the test for it comes after the return. *)
Lemma unauthenticated_logs_fail typ logs e invalid er :
  nodeKey e ≠ [] →
  val (PublishLogs w (trace e) (nodeKey e) typ logs) = (invalid, Some (SvcErr false true er)) →
  ∃ e', writeLogsWithReenroll typ logs e = (e', Err (Wrapf "transport error sending logs: %w" er)) ∧
    trace e' = trace e ++ [EvLogs (nodeKey e) typ logs false].
Proof.
  intros Hk Hv. unfold writeLogsWithReenroll, writeLogsOnce at 1, nodeKeyOrEnroll at 1.
  destruct (nodeKey e) as [|x nk] eqn:E; [done|]. cbn [is_empty]. rewrite Hv. cbn [deviceDisabled cause].
  rewrite andb_false_r. eexists. split; done.
Qed.
End Extension.

(** ** Witnesses *)
#[local] Existing Instance Enrollment.toyLib.
#[local] Existing Instance Flags.toyLib.
#[local] Instance toyJSON : OptionsJSON := {|
  any := unit; decodeObject _ := None; encodeObject _ := None; asObject _ := None; ofObject _ := tt; ofBool _ := tt; ofInt _ := tt
|}.

(** A server that knows the node key "new" only, and gives a configuration until the first was written *)
Definition toyWorld : world unit (queriesResult unit) := {|
  RequestEnrollment _ _ _ := Reply 1 (Some (EnrollResponse false None false (bs "new") [] [] []), None);
  RequestConfig tr _ :=
    Reply 1 (if existsb (λ ev, match ev with EvWriteSettings => true | _ => false end) tr
             then ([], false, Some (SvcErr false false (Errorf "down"))) else (bs "cfg", false, None));
  PublishLogs _ nk _ _ := Reply 1 (negb (bool_decide (nk = bs "new")), None);
  RequestQueries _ _ := Reply 1 (QueriesResult tt 7, false, None);
  PublishResults _ _ _ := Reply 1 (false, None);
  NewRandomUUID _ := Some (bs "uuid");
  LatestInstanceUptimeMinutes _ := None
|}.

Definition toyFlags : Flags.controller := Flags.NewFlagController Flags.toyOptions (Some InMemory.NewStore).

Definition toyParse (b : bytes) : option bytes := if is_empty b then None else Some b.

(** An extension that holds the node key "old" *)
Definition toyExtension : extension :=
  NewExtension toyWorld toyParse DefaultEnrollmentID 1%nat (Opts 3 0 0)
    (with_config toyKnapsack (InMemory.Set_ (bs "nodeKey") (bs "old") InMemory.NewStore).1) toyFlags
    InMemory.NewStore InMemory.NewStore 0.

Lemma toyExtension_ok : knap_ok (knap toyExtension).
Proof.
  split; [|exact InMemory.wf_NewStore].
  assert (H : InMemory.wf_store (InMemory.Set_ (bs "uuid") (bs "uuid")
    (InMemory.Set_ (bs "nodeKey") (bs "old") InMemory.NewStore).1).1)
    by apply InMemory.wf_Set, InMemory.wf_Set, InMemory.wf_NewStore.
  exact H.
Qed.

Lemma NewStore_log_ok n : Z.of_nat n < two64 → log_ok InMemory.NewStore n.
Proof.
  intros Hn. split; [apply InMemory.wf_empty|]. split; [|exact Hn]. split; [done|].
  intros m Hm. apply (lookup_empty (M := gmap bytes)).
Qed.

(** Two result logs and one that is too big are shipped, and a last one is buffered. *)
Lemma logs_accounted_witness :
  let ops := [OLog LogTypeString (bs "a"); OLog LogTypeString (bs "large"); OLog LogTypeSnapshot (bs "b");
              OTick; OLog LogTypeString (bs "c")] in
  let e := foldl (apply_op toyWorld tt toyParse DefaultEnrollmentID false 1%nat)
             (NewExtension toyWorld toyParse DefaultEnrollmentID 1%nat (Opts 3 0 0) toyKnapsack toyFlags
                InMemory.NewStore InMemory.NewStore 0) ops in
  delivered ResultKind (trace e) = [bs "a"; bs "b"] ∧
  delivered ResultKind (trace e) ++ small 3 (log_view (storeOf ResultKind e)).*2 = [bs "a"; bs "b"; bs "c"].
Proof.
  intros ops e. split; [vm_compute; reflexivity|].
  destruct (logs_accounted toyWorld tt toyParse DefaultEnrollmentID false 1%nat (Opts 3 0 0) toyKnapsack toyFlags
    InMemory.NewStore InMemory.NewStore 0 ops ResultKind) as [_ Hall];
    [apply NewStore_log_ok; reflexivity..|by repeat constructor|].
  etrans; [apply Hall; intros past Hp|vm_compute; reflexivity].
  assert (Hle : forallb (λ n, len (log_view (storeOf ResultKind (foldl (apply_op toyWorld tt toyParse DefaultEnrollmentID false 1%nat)
    (NewExtension toyWorld toyParse DefaultEnrollmentID 1%nat (Opts 3 0 0) toyKnapsack toyFlags
       InMemory.NewStore InMemory.NewStore 0) (take n ops)))) <=? MaxBufferedLogs (defaults (Opts 3 0 0))) (seq 0 6) = true)
    by (vm_compute; reflexivity).
  rewrite forallb_forall in Hle. specialize (Hle (length past)). pose proof (prefix_length _ _ Hp) as Hl.
  destruct Hp as [rest Hp]. replace past with (take (length past) ops) by (rewrite Hp; apply take_app_length).
  apply Z.leb_le, Hle, in_seq. change (length ops) with 5%nat in Hl. lia.
Defined.

(** The first two minutes, all calls are forwarded; the answer asks for seven seconds more. *)
Lemma GetQueries_spaced_witness :
  let e := at_time (130 * Flags.second) toyExtension in
  let e1 := (GetQueries toyWorld tt toyParse DefaultEnrollmentID false e).1 in
  throttled e = false ∧ forwardAllDistributedUntil e1 = 137 ∧
  throttled (at_time (136 * Flags.second) e1) = false ∧
  (GetQueries toyWorld tt toyParse DefaultEnrollmentID false (at_time (137 * Flags.second) e1)).2 = Ok (QueriesResult tt 0).
Proof.
  intros e e1. assert (E : GetQueries toyWorld tt toyParse DefaultEnrollmentID false e = (e1, Ok (QueriesResult tt 7)))
    by (vm_compute; reflexivity).
  destruct (GetQueries_spaced toyWorld tt toyParse DefaultEnrollmentID false e e1 (Ok (QueriesResult tt 7)) (137 * Flags.second)
    eq_refl E) as (H1 & _ & H3).
  destruct (GetQueries_spaced toyWorld tt toyParse DefaultEnrollmentID false e e1 (Ok (QueriesResult tt 7)) (136 * Flags.second)
    eq_refl E) as (_ & H2 & _).
  split; [reflexivity|]. split; [exact (H3 _ eq_refl eq_refl)|]. split; [apply H2; vm_compute; reflexivity|].
  rewrite H1; [reflexivity|]. vm_compute. split; [discriminate|reflexivity].
Defined.

(** One configuration, and then the server is down. *)
Lemma config_survives_outage_witness :
  let gen := GenerateConfigs toyWorld toyParse DefaultEnrollmentID false in
  let e1 := (gen toyExtension).1 in
  (gen toyExtension).2 = Ok (bs "cfg") ∧ (gen (gen e1).1).2 = Ok (bs "cfg").
Proof.
  intros gen e1. split; [vm_compute; reflexivity|].
  set (e0 := (generateConfigsWithReenroll toyWorld toyParse DefaultEnrollmentID false toyExtension).1).
  pose proof (config_survives_outage toyWorld toyParse DefaultEnrollmentID false toyExtension e0 e1 (bs "cfg") 1) as H.
  specialize (H toyExtension_ok ltac:(vm_compute; reflexivity) ltac:(vm_compute; reflexivity) ltac:(discriminate)).
  set (down := Wrapf "transport error getting queries: %w" (Errorf "down")).
  assert (Hdown : ∀ y : extension, (generateConfigsWithReenroll toyWorld toyParse DefaultEnrollmentID false y).2 = Err down →
    ∃ x, generateConfigsWithReenroll toyWorld toyParse DefaultEnrollmentID false y = (x, Err down)).
  { intros y Hy. destruct (generateConfigsWithReenroll _ _ _ _ y) as [x r]. cbn [snd] in Hy. subst r. by exists x. }
  destruct (Hdown e1 ltac:(vm_compute; reflexivity)) as [x1 E1].
  destruct (Hdown (gen e1).1 ltac:(vm_compute; reflexivity)) as [x2 E2].
  assert (Hfirst : ∀ m, (m < 1)%nat → ∃ x er, generateConfigsWithReenroll toyWorld toyParse DefaultEnrollmentID false
    (Nat.iter m (λ x, (GenerateConfigs toyWorld toyParse DefaultEnrollmentID false x).1) e1) = (x, Err er)).
  { intros [|m] Hm; [|exfalso; lia]. exists x1, down. exact E1. }
  rewrite (H Hfirst x2 down E2 : gen (gen e1).1 = (x2, Ok (bs "cfg"))). reflexivity.
Defined.

(** The node key "old" is unknown; the logs arrive under "new". *)
Lemma shipping_recovers_witness :
  ∃ e' evs, writeLogsWithReenroll toyWorld toyParse DefaultEnrollmentID false LogTypeString [bs "a"] toyExtension = (e', Ok tt) ∧
    nodeKey DefaultEnrollmentID e' = bs "new" ∧
    trace e' = trace toyExtension ++ [EvLogs (bs "old") LogTypeString [bs "a"] false] ++ evs ++
      [EvLogs (bs "new") LogTypeString [bs "a"] true] ∧ Forall enrolling evs.
Proof.
  apply (shipping_recovers toyWorld toyParse DefaultEnrollmentID false LogTypeString [bs "a"] toyExtension (bs "secret")
    (bs "acme") (bs "old") (bs "new")); try done.
  - exact toyExtension_ok.
  - split; intros; [reflexivity|by eexists|reflexivity|by eexists].
Defined.
End Extension.
