(* ===== verification/Publisher.v ===== *)
(** * ee/osquerypublisher: publication of osquery's logs and results to the agent ingester

    After the server has accepted a batch of logs the extension hands it to this client as well
    ([Extension.EvIngestLogs]).  The client cuts it into requests of bounded size, compresses and encrypts each
    for the ingester (HPKE, with a pre-shared key), and sends them one after another.  Its keys and the metadata
    that routes a request are cached from the stores. *)
From S2P Require Import Prelude Json Strings KVStore Enrollment Http.
Set Warnings "-clear-no-such-hyp".

(** github.com/cloudflare/circl/hpke with the suite of the client; [entropy] is what is read from rand.Reader *)
Class Hpke := {
  pubKey : Type;
  sender : Type;
  sealer : Type;
  entropy : Type;
  UnmarshalBinaryPublicKey : bytes → option pubKey;
  NewSender : pubKey → bytes → option sender;
  SetupPSK : entropy → sender → bytes → bytes → option (bytes * sealer);   (* the key, its identifier *)
  Setup : entropy → sender → option (bytes * sealer);
  Seal : sealer → bytes → bytes → option bytes                             (* the plaintext, the data authenticated *)
}.

(** What the holder of the private key computes, and that it recovers what was sealed *)
Class HpkeLaws `{Hpke} := {
  privKey : Type;
  publicKey : privKey → bytes;
  OpenPSK : privKey → bytes → bytes → bytes → bytes → bytes → bytes → option bytes;  (* info, psk, its id, enc, aad, ct *)
  Open : privKey → bytes → bytes → bytes → bytes → option bytes;                     (* info, enc, aad, ct *)
  OpenPSK_Seal sk pk info s r psk pskID enc sl pt aad ct :
    UnmarshalBinaryPublicKey (publicKey sk) = Some pk → NewSender pk info = Some s →
    SetupPSK r s psk pskID = Some (enc, sl) → Seal sl pt aad = Some ct → OpenPSK sk info psk pskID enc aad ct = Some pt;
  Open_Seal sk pk info s r enc sl pt aad ct :
    UnmarshalBinaryPublicKey (publicKey sk) = Some pk → NewSender pk info = Some s →
    Setup r s = Some (enc, sl) → Seal sl pt aad = Some ct → Open sk info enc aad ct = Some pt
}.

(** compress/zlib, writing to memory *)
Class Zlib := {
  deflate : bytes → bytes;
  inflate : bytes → option bytes;
  inflate_deflate s : inflate (deflate s) = Some s
}.

Module Publisher.

Definition maxRequestSizeBytes : Z := 1024 * 1024.
Definition publicationPathLogs : bytes := bs "logs".
Definition publicationPathResults : bytes := bs "results".

(** ** Keys and encryption (encryption.go) *)

Definition keyDelimiter : bytes := bs ":".
Definition currentEncryptedBlobVersion : Z := 1.
Definition hpkeDomain : bytes := bs "AGENT_INGESTER_UPLOAD_ENC_V1".
Definition payloadAAD : bytes := bs "HPKE-PSK-X25519-HKDF-SHA256-AES-256-GCM".
Definition metadataAAD : bytes := bs "HPKE-BASE-X25519-HKDF-SHA256-AES-256-GCM".

Record KeyData := MkKeyData { Key : bytes; KeyID : bytes }.

Record EncryptedBlob := MkBlob {
  Version : Z;
  HPKEKeyID : bytes;
  PSKID : bytes;
  EncapsulatedKey : bytes;
  Ciphertext : bytes;
  MetadataEncapsulatedKey : bytes;
  MetadataCiphertext : bytes
}.

(** [json.Marshal] of a struct: its fields in order *)
Definition json_field (f : string * bytes) : bytes := json_string (bs f.1) ++ bs ":" ++ f.2.
Definition json_struct (fields : list (string * bytes)) : bytes := bs "{" ++ join (bs ",") (map json_field fields) ++ bs "}".

Definition marshalBlob (b : EncryptedBlob) : bytes :=
  json_struct [("version"%string, itoa (Version b)); ("hpke_key_id"%string, json_string (HPKEKeyID b));
    ("psk_id"%string, json_string (PSKID b)); ("encapsulated_key"%string, json_string (EncapsulatedKey b));
    ("ciphertext"%string, json_string (Ciphertext b));
    ("metadata_encapsulated_key"%string, json_string (MetadataEncapsulatedKey b));
    ("metadata_ciphertext"%string, json_string (MetadataCiphertext b))].

Definition marshalMetadata (DeviceID OrganizationID : bytes) : bytes :=
  json_struct [("device_id"%string, json_string DeviceID); ("organization_id"%string, json_string OrganizationID)].

Definition parseKeyData (concatenated : bytes) : res KeyData :=
  match cut keyDelimiter concatenated with
  | None => Err (Errorf "invalid key data format: expected 'keyID:Key', got %d parts")
  | Some (keyID, keyB64) =>
      if is_empty keyID then Err (Errorf "invalid key data format: key ID is empty")
      else if is_empty keyB64 then Err (Errorf "invalid key data format: key data is empty")
      else match Http.DecodeString Http.StdEncoding keyB64 with
           | Some key => Ok (MkKeyData key keyID)
           | None => Err (Errorf "failed to b64 decode key: %w")
           end
  end.

Definition orErr {A} (msg : string) (o : option A) : res A :=
  match o with Some a => Ok a | None => Err (Errorf msg) end.
Arguments orErr {A} msg%_string o.

Section Lib.
Context `{HP : Hpke} `{ZL : Zlib}.

Definition encryptWithHPKE (r : entropy * entropy) (plaintext : bytes) (hpkeKey psk : KeyData) (metadataJSON : bytes)
    : res EncryptedBlob :=
  if is_empty metadataJSON then Err (Errorf "metadata JSON is empty")
  else
    pkR ← orErr "failed to unmarshal HPKE public key: %w" (UnmarshalBinaryPublicKey (Key hpkeKey));
    snd ← orErr "failed to create HPKE sender: %w" (NewSender pkR hpkeDomain);
    '(encapsulatedKey, sl) ← orErr "failed to setup HPKE PSK encryption: %w" (SetupPSK r.1 snd (Key psk) (KeyID psk));
    ciphertext ← orErr "failed to encrypt plaintext: %w" (Seal sl plaintext payloadAAD);
    metaSender ← orErr "failed to create HPKE sender for metadata: %w" (NewSender pkR hpkeDomain);
    '(metadataEncapsulatedKey, metadataSealer) ←
      orErr "failed to setup HPKE base encryption for metadata: %w" (Setup r.2 metaSender);
    metadataCiphertext ← orErr "failed to encrypt metadata: %w" (Seal metadataSealer metadataJSON metadataAAD);
    Ok (MkBlob currentEncryptedBlobVersion (KeyID hpkeKey) (KeyID psk) (base64 encapsulatedKey) (base64 ciphertext)
          (base64 metadataEncapsulatedKey) (base64 metadataCiphertext)).

(** ** Batches *)
Section Batches.
Context {A : Type}.
Variable marshal : A → option bytes.    (* json.Marshal of an item *)

Fixpoint batch_loop (logs : list A) (batches : list (list A)) (currentBatch : list A) (currentLogBatchSize : Z) : list (list A) :=
  match logs with
  | [] => match currentBatch with [] => batches | _ => batches ++ [currentBatch] end
  | log :: logs' =>
      match marshal log with
      | None => batch_loop logs' batches currentBatch currentLogBatchSize
      | Some rawLog =>
          let logLength := len rawLog in
          if maxRequestSizeBytes <? logLength then batch_loop logs' (batches ++ [[log]]) currentBatch currentLogBatchSize
          else if maxRequestSizeBytes <? currentLogBatchSize + logLength then
            batch_loop logs' (batches ++ [currentBatch]) [log] logLength
          else batch_loop logs' batches (currentBatch ++ [log]) (currentLogBatchSize + logLength)
      end
  end.

Definition batchRequest (logs : list A) : list (list A) := batch_loop logs [] [] 0.
End Batches.

(** ** The client (client.go) *)

Record LogPublisherClient := Client {
  authTokens : gmap bytes bytes;
  hpkeKeys : gmap bytes KeyData;
  psks : gmap bytes KeyData;
  metadataJSON : option bytes;
  zlibWriter : bool              (* whether it is there: [Close] drops it *)
}.

(** What the client asks of the knapsack *)
Record knapsack (S : Type) := Knapsack {
  OsqueryPublisherURL : bytes;
  OsqueryPublisherPercentEnabled : Z;
  TokenStore : S;
  ServerProvidedDataStore : option S
}.
Arguments Knapsack {S}. Arguments OsqueryPublisherURL {S}. Arguments OsqueryPublisherPercentEnabled {S}.
Arguments TokenStore {S}. Arguments ServerProvidedDataStore {S}.


Section Stores.
Context {S : Type} `{KV : KVStore S}.

(** A value that is there and not empty *)
Definition fetched (s : S) (k : bytes) : option bytes :=
  match kv_Get s k with Ok (Some (b :: v)) => Some (b :: v) | _ => None end.

Definition refreshServerMetadata (k : knapsack S) (lpc : LogPublisherClient) : LogPublisherClient :=
  let store m := Client (authTokens lpc) (hpkeKeys lpc) (psks lpc) m (zlibWriter lpc) in
  match ServerProvidedDataStore k with
  | None => lpc
  | Some s =>
      match kv_Get s (bs "device_id"), kv_Get s (bs "organization_id") with
      | Ok deviceID, Ok organizationID =>
          let deviceID := default [] deviceID in
          let organizationID := default [] organizationID in
          if is_empty deviceID || is_empty organizationID then store None
          else store (Some (marshalMetadata deviceID organizationID))
      | _, _ => lpc
      end
  end.

Definition refreshKey (s : S) (key : bytes) (m : gmap bytes KeyData) : gmap bytes KeyData :=
  match fetched s key with
  | Some raw => match parseKeyData raw with Ok d => <[Enrollment.DefaultEnrollmentID := d]> m | _ => m end
  | None => m
  end.

Definition refreshTokenCache (k : knapsack S) (lpc : LogPublisherClient) : LogPublisherClient :=
  if is_empty (OsqueryPublisherURL k) || (OsqueryPublisherPercentEnabled k =? 0) then lpc
  else
    Client
      (match fetched (TokenStore k) Enrollment.AgentIngesterAuthTokenKey with
       | Some newToken => <[Enrollment.DefaultEnrollmentID := newToken]> (authTokens lpc)
       | None => authTokens lpc
       end)
      (refreshKey (TokenStore k) Enrollment.AgentIngesterHPKEPublicKey (hpkeKeys lpc))
      (refreshKey (TokenStore k) Enrollment.AgentIngesterHPKEPresharedKey (psks lpc))
      (metadataJSON lpc) (zlibWriter lpc).

Definition NewLogPublisherClient (k : knapsack S) : LogPublisherClient :=
  refreshServerMetadata k (refreshTokenCache k (Client ∅ ∅ ∅ None true)).

Definition Ping (k : knapsack S) (lpc : LogPublisherClient) : LogPublisherClient :=
  refreshTokenCache k (refreshServerMetadata k lpc).
End Stores.

Definition Close (lpc : LogPublisherClient) : LogPublisherClient :=
  Client (authTokens lpc) (hpkeKeys lpc) (psks lpc) (metadataJSON lpc) false.

Definition getTokenForEnrollment (lpc : LogPublisherClient) (enrollmentID : bytes) : bytes :=
  default [] (authTokens lpc !! enrollmentID).
Definition getHPKEKeyForEnrollment (lpc : LogPublisherClient) (enrollmentID : bytes) : option KeyData := hpkeKeys lpc !! enrollmentID.
Definition getPSKForEnrollment (lpc : LogPublisherClient) (enrollmentID : bytes) : option KeyData := psks lpc !! enrollmentID.

(** Writing to memory does not fail; without the writer it is a nil pointer. *)
Definition compressPayload (lpc : LogPublisherClient) (src : bytes) : res bytes :=
  if zlibWriter lpc then Ok (deflate src) else Panic.

(** [random] is rand.Intn(101) *)
Definition shouldPublishLogs {S} (k : knapsack S) (random : Z) : bool :=
  if is_empty (OsqueryPublisherURL k) then false
  else if OsqueryPublisherPercentEnabled k =? 0 then false
  else random <=? OsqueryPublisherPercentEnabled k.

Record OsqueryPublicationResponse := Response_ { Status : bytes; IngestedBytes : Z; LogCount : Z; Message : bytes }.

Record request := Request_ { url : bytes; contentType : bytes; authorization : bytes; body : bytes }.

(** What comes of a request, given those sent before: an error, or a status and a body that is read or not *)
Record world := World {
  validURL : bytes → bool;                         (* http.NewRequest accepts it *)
  Do : list request → request → option (Z * option bytes);
  randomness : list request → entropy * entropy;
  decodeResponse : bytes → option OsqueryPublicationResponse    (* json.Unmarshal *)
}.
Variable w : world.

Definition publish {S} (k : knapsack S) (lpc : LogPublisherClient) (payload : option bytes) (publicationPath : bytes)
    (sent : list request) : res OsqueryPublicationResponse * list request :=
  let prepared :=
    metadataJSON ← match metadataJSON lpc with
                   | Some (b :: m) => Ok (b :: m)
                   | _ => Err (Errorf "no publication metadata available, skipping publication")
                   end;
    let authToken := getTokenForEnrollment lpc Enrollment.DefaultEnrollmentID in
    _ ← (if is_empty authToken then Err (Errorf "no auth token found for enrollment: %s") else Ok ());
    hpkeKey ← orErr "no HPKE key available for enrollment '%s'" (getHPKEKeyForEnrollment lpc Enrollment.DefaultEnrollmentID);
    psk ← orErr "no PSK available for enrollment '%s'" (getPSKForEnrollment lpc Enrollment.DefaultEnrollmentID);
    jsonData ← orErr "marshaling unencrypted request payload: %w" payload;
    jsonData ← compressPayload lpc jsonData;
    encryptedBlob ← wrap "failed to encrypt payload with HPKE: %w"
                      (encryptWithHPKE (randomness w sent) jsonData hpkeKey psk metadataJSON);
    let url := OsqueryPublisherURL k ++ bs "/" ++ publicationPath in
    _ ← (if validURL w url then Ok () else Err (Errorf "creating request: %w"));
    Ok (Request_ url (bs "application/json") (bs "Bearer " ++ authToken) (marshalBlob encryptedBlob)) in
  match prepared with
  | Ok req =>
      ('(statusCode, body) ← orErr "issuing publication request: %w" (Do w sent req);
       body ← orErr "reading publication response: %w" body;
       publicationResponse ← orErr "unable to unmarshal agent-ingester response: %w" (decodeResponse w body);
       if statusCode =? 200 then Ok publicationResponse else Err (Errorf "agent-ingester returned status %d: %s"),
       sent ++ [req])
  | Err e => (Err e, sent)
  | Panic => (Panic, sent)
  | NoFuel => (NoFuel, sent)
  end.

Section Publication.
Context {S A : Type}.
Variable k : knapsack S.
Variable lpc : LogPublisherClient.
Variable payload : list A → option bytes.
Variable publicationPath : bytes.

(** The batches one after another, up to the first error *)
Fixpoint publishBatches (batches : list (list A)) (pubResponse : OsqueryPublicationResponse) (sent : list request)
    : res OsqueryPublicationResponse * list request :=
  match batches with
  | [] => (Ok pubResponse, sent)
  | batch :: batches' =>
      match publish k lpc (payload batch) publicationPath sent with
      | (Ok resp, sent) =>
          publishBatches batches'
            (Response_ (Status resp) (to_int64 (IngestedBytes pubResponse + IngestedBytes resp))
               (to_int64 (LogCount pubResponse + LogCount resp)) (Message pubResponse)) sent
      | (o, sent) => (o, sent)
      end
  end.
End Publication.

Definition emptyResponse : OsqueryPublicationResponse := Response_ [] 0 0 [].

(** The request for a batch of logs; the type of the logs is a number of osquery-go *)
Definition marshalLogs (logType : Z) (logs : list bytes) : option bytes :=
  Some (json_struct [("log_type"%string, itoa logType); ("logs"%string, json_array (map json_string logs))]).

(** [None] in place of a response: nothing is published *)
Definition PublishLogs {S} (k : knapsack S) (lpc : LogPublisherClient) (random logType : Z) (logs : list bytes) (sent : list request)
    : res (option OsqueryPublicationResponse) * list request :=
  if shouldPublishLogs k random then
    let '(o, sent) := publishBatches k lpc (marshalLogs logType) publicationPathLogs
                        (batchRequest (λ log, Some (json_string log)) logs) emptyResponse sent in
    (r ← o; Ok (Some r), sent)
  else (Ok None, sent).

(** Results of osquery-go, with their JSON *)
Definition marshalResults {R} (marshal : R → option bytes) (results : list R) : option bytes :=
  l ← mapM marshal results; Some (json_struct [("results"%string, json_array l)]).

Definition PublishResults {S R} (marshal : R → option bytes) (k : knapsack S) (lpc : LogPublisherClient) (random : Z) (results : list R)
    (sent : list request) : res (option OsqueryPublicationResponse) * list request :=
  if shouldPublishLogs k random then
    let '(o, sent) := publishBatches k lpc (marshalResults marshal) publicationPathResults
                        (batchRequest marshal results) emptyResponse sent in
    (r ← o; Ok (Some r), sent)
  else (Ok None, sent).

(** ** Batches keep everything, in requests of bounded size *)

Section BatchFacts.
Context {A : Type}.
Variable marshal : A → option bytes.

Definition size (log : A) : Z := match marshal log with Some raw => len raw | None => 0 end.
Definition total_size (b : list A) : Z := foldr (λ log n, size log + n) 0 b.
Definition marshals (log : A) : bool := match marshal log with Some _ => true | None => false end.
Definition fits (log : A) : bool := marshals log && (size log <=? maxRequestSizeBytes).
Definition batch_fits (b : list A) : bool := total_size b <=? maxRequestSizeBytes.

(** What a batch is: some items that fit together, or one that does not fit alone *)
Definition good_batch (b : list A) : Prop :=
  b ≠ [] ∧ if batch_fits b then Forall (λ log, fits log = true) b else ∃ log, b = [log] ∧ fits log = false.

Lemma total_size_app b c : total_size (b ++ c) = total_size b + total_size c.
Proof.
  induction b as [|x b IH]; [done|]. change (size x + total_size (b ++ c) = size x + total_size b + total_size c). lia.
Qed.

Lemma total_size_one log : total_size [log] = size log.
Proof. apply Z.add_0_r. Qed.

Lemma batch_loop_spec logs : ∀ batches cur,
  Forall (λ log, fits log = true) cur → total_size cur <= maxRequestSizeBytes →
  ∃ l, batch_loop marshal logs batches cur (total_size cur) = batches ++ l ∧ Forall good_batch l ∧
    concat l ≡ₚ cur ++ List.filter marshals logs ∧
    concat (List.filter batch_fits l) = cur ++ List.filter fits logs.
Proof.
  induction logs as [|log logs IH]; intros batches cur Hc Hs; cbn [batch_loop List.filter].
  { destruct cur as [|x cur]; [exists []; by rewrite app_nil_r|]. exists [x :: cur].
    assert (batch_fits (x :: cur) = true) as Hf by (by apply Z.leb_le).
    split_and!; [done| |cbn [concat]; by rewrite !app_nil_r|cbn [List.filter]; rewrite Hf; cbn [concat]; by rewrite !app_nil_r].
    constructor; [|constructor]. split; [done|]. by rewrite Hf. }
  destruct (marshal log) as [raw|] eqn:Em.
  2:{ assert (marshals log = false ∧ fits log = false) as [-> ->] by (unfold fits, marshals; by rewrite Em). by apply IH. }
  assert (Hm : marshals log = true) by (unfold marshals; by rewrite Em).
  assert (Hsize : size log = len raw) by (unfold size; by rewrite Em).
  assert (Hfits : fits log = (len raw <=? maxRequestSizeBytes)) by (unfold fits; by rewrite Hm, Hsize).
  rewrite Hm, Hfits.
  destruct (maxRequestSizeBytes <? len raw) eqn:E1.
  { apply Z.ltb_lt in E1. rewrite (proj2 (Z.leb_gt _ _)) in * by done.
    destruct (IH (batches ++ [[log]]) cur Hc Hs) as (l & -> & Hg & Hp & Ho). exists ([log] :: l).
    assert (Hf : batch_fits [log] = false) by (apply Z.leb_gt; rewrite total_size_one; lia).
    split_and!; [by rewrite <- app_assoc| |cbn [concat app]; rewrite Hp; apply Permutation_middle|cbn [List.filter]; by rewrite Hf].
    constructor; [|done]. split; [done|]. rewrite Hf. by exists log. }
  apply Z.ltb_ge in E1. rewrite (proj2 (Z.leb_le _ _)) in * by done. rewrite <- Hsize.
  destruct (maxRequestSizeBytes <? total_size cur + size log) eqn:E2.
  - apply Z.ltb_lt in E2. assert (Hn : cur ≠ []) by (intros ->; change (total_size []) with 0 in E2; lia).
    rewrite <- (total_size_one log).
    destruct (IH (batches ++ [cur]) [log]) as (l & -> & Hg & Hp & Ho); [by constructor|rewrite total_size_one; lia|]. exists (cur :: l).
    assert (Hf : batch_fits cur = true) by (by apply Z.leb_le).
    split_and!; [by rewrite <- app_assoc| |cbn [concat]; by rewrite Hp|cbn [List.filter]; rewrite Hf; cbn [concat]; by rewrite Ho].
    constructor; [|done]. split; [done|]. by rewrite Hf.
  - apply Z.ltb_ge in E2. assert (Ht : total_size cur + size log = total_size (cur ++ [log])).
    { by rewrite total_size_app, total_size_one. }
    rewrite Ht in *. destruct (IH batches (cur ++ [log])) as (l & -> & Hg & Hp & Ho); [|done|].
    { apply Forall_app; split; [done|by constructor]. }
    exists l. by rewrite <- app_assoc in Hp, Ho.
Qed.

(** Cutting items into batches loses none that has a JSON form and doubles none.  A batch is within the limit
    or a single item beyond it; those within the limit keep the order of the items, while an item beyond it
    overtakes the ones before it that still wait for their batch to fill. *)
Theorem batchRequest_spec logs :
  Forall good_batch (batchRequest marshal logs) ∧
  concat (batchRequest marshal logs) ≡ₚ List.filter marshals logs ∧
  concat (List.filter batch_fits (batchRequest marshal logs)) = List.filter fits logs.
Proof. destruct (batch_loop_spec logs [] []) as (l & E & Hg & Hp & Ho); [constructor|done|]. unfold batchRequest. change 0 with (total_size []). by rewrite E. Qed.
End BatchFacts.

(** A request may still be beyond the limit: the separators between the items do not count. *)
Lemma separators_not_counted logType n :
  Z.of_nat n * 2 <= maxRequestSizeBytes → n ≠ 0%nat →
  batchRequest (λ log, Some (json_string log)) (repeat [] n) = [repeat [] n] ∧
  ∃ payload, marshalLogs logType (repeat [] n) = Some payload ∧ Z.of_nat n * 3 <= len payload.
Proof.
  intros Hn Hz. split.
  - assert (Hl : ∀ m cur, total_size (λ log, Some (json_string log)) cur + Z.of_nat m * 2 <= maxRequestSizeBytes →
      batch_loop (λ log, Some (json_string log)) (repeat [] m) [] cur (total_size (λ log, Some (json_string log)) cur) =
        match cur ++ repeat [] m with [] => [] | b => [b] end).
    { induction m as [|m IH]; intros cur Hc; cbn [repeat batch_loop]; [rewrite app_nil_r; by destruct cur|].
      change (len (json_string [])) with 2. rewrite (proj2 (Z.ltb_ge _ _)) by (by vm_compute).
      rewrite (proj2 (Z.ltb_ge _ _)) by lia.
      assert (Ht : total_size (λ log, Some (json_string log)) (cur ++ [[]]) = total_size (λ log, Some (json_string log)) cur + 2)
        by (by rewrite total_size_app, total_size_one).
      rewrite <- Ht, IH by lia. by rewrite <- app_assoc. }
    destruct n as [|n]; [done|]. apply (Hl (Datatypes.S n) []). change (total_size _ []) with 0. lia.
  - eexists. split; [reflexivity|].
    assert (Hj : ∀ m, len (join (bs ",") (map json_string (repeat [] (Datatypes.S m)))) = Z.of_nat m * 3 + 2).
    { induction m as [|m IH]; [done|].
      change (join _ _) with (json_string [] ++ bs "," ++ join (bs ",") (map json_string (repeat [] (Datatypes.S m)))).
      unfold len in *. rewrite !length_app. change (length (json_string [])) with 2%nat. change (length (bs ",")) with 1%nat. lia. }
    destruct n as [|n]; [done|]. specialize (Hj n).
    unfold json_array. generalize dependent (join (bs ",") (map json_string (repeat [] (Datatypes.S n)))). intros items Hj.
    unfold json_struct. cbn [map join]. unfold json_field. cbn [fst snd]. unfold len in *.
    rewrite !length_app. change (length (bs "{")) with 1%nat. lia.
Qed.

(** ** The ingester reads what was published *)

(** What the ingester does with a request: it has the private key of the public one, and the pre-shared key *)
Definition ingest `{!HpkeLaws} (sk : privKey) (psk : bytes) (blob : EncryptedBlob) : option (bytes * bytes) :=
  encapsulatedKey ← Http.DecodeString Http.StdEncoding (EncapsulatedKey blob);
  ciphertext ← Http.DecodeString Http.StdEncoding (Ciphertext blob);
  compressed ← OpenPSK sk hpkeDomain psk (PSKID blob) encapsulatedKey payloadAAD ciphertext;
  payload ← inflate compressed;
  metadataEncapsulatedKey ← Http.DecodeString Http.StdEncoding (MetadataEncapsulatedKey blob);
  metadataCiphertext ← Http.DecodeString Http.StdEncoding (MetadataCiphertext blob);
  metadata ← Open sk hpkeDomain metadataEncapsulatedKey metadataAAD metadataCiphertext;
  Some (payload, metadata).

Lemma orErr_Ok {B} msg (o : option B) b : orErr msg o = Ok b → o = Some b.
Proof. destruct o; [by intros [= ->]|done]. Qed.

Lemma ingest_encrypt `{!HpkeLaws} sk id psk r payload metadata blob :
  encryptWithHPKE r (deflate payload) (MkKeyData (publicKey sk) id) psk metadata = Ok blob →
  ingest sk (Key psk) blob = Some (payload, metadata).
Proof.
  unfold encryptWithHPKE. destruct (is_empty metadata); [done|]. cbn [Key].
  destruct (UnmarshalBinaryPublicKey _) as [pk|] eqn:Epk; [|done]. cbn [orErr mbind res_bind].
  destruct (NewSender pk hpkeDomain) as [s|] eqn:Es; [|done]. cbn [orErr mbind res_bind].
  destruct (SetupPSK _ _ _ _) as [[enc sl]|] eqn:E1; [|done]. cbn [orErr mbind res_bind].
  destruct (Seal sl _ _) as [ct|] eqn:E2; [|done]. cbn [orErr mbind res_bind].
  destruct (Setup _ _) as [[menc msl]|] eqn:E3; [|done]. cbn [orErr mbind res_bind].
  destruct (Seal msl _ _) as [mct|] eqn:E4; [|done]. cbn [orErr mbind res_bind]. intros [= <-].
  unfold ingest. cbn [EncapsulatedKey Ciphertext PSKID MetadataEncapsulatedKey MetadataCiphertext].
  rewrite !Http.DecodeString_base64. cbn [mbind option_bind].
  rewrite (OpenPSK_Seal _ _ _ _ _ _ _ _ _ _ _ _ Epk Es E1 E2). cbn [mbind option_bind].
  rewrite inflate_deflate. cbn [mbind option_bind]. by rewrite (Open_Seal _ _ _ _ _ _ _ _ _ _ Epk Es E3 E4).
Qed.

(** ** Publication *)
Section Delivery.
Context `{!HpkeLaws} {S : Type}.
Variable k : knapsack S.
Variable sk : privKey.
Variable psk : KeyData.
Variables token id metadata : bytes.

(** The client has the keys of an ingester, and metadata *)
Definition configured (lpc : LogPublisherClient) : Prop :=
  authTokens lpc !! Enrollment.DefaultEnrollmentID = Some token ∧ token ≠ [] ∧
  hpkeKeys lpc !! Enrollment.DefaultEnrollmentID = Some (MkKeyData (publicKey sk) id) ∧
  psks lpc !! Enrollment.DefaultEnrollmentID = Some psk ∧
  metadataJSON lpc = Some metadata ∧ metadata ≠ [].

(** A request from which the ingester reads [payload] *)
Definition carries (path payload : bytes) (req : request) : Prop :=
  url req = OsqueryPublisherURL k ++ bs "/" ++ path ∧ authorization req = bs "Bearer " ++ token ∧
  ∃ blob, body req = marshalBlob blob ∧ HPKEKeyID blob = id ∧ ingest sk (Key psk) blob = Some (payload, metadata).

Definition accepts (sent : list request) (req : request) (resp : OsqueryPublicationResponse) : Prop :=
  ∃ b, Do w sent req = Some (200, Some b) ∧ decodeResponse w b = Some resp.

(** Requests for batches, in order, each accepted *)
Inductive delivered {A} (payload : list A → option bytes) (path : bytes) :
    list request → list (list A) → list request → list OsqueryPublicationResponse → Prop :=
| delivered_nil sent : delivered payload path sent [] [] []
| delivered_cons sent b bs p req reqs resp resps :
    payload b = Some p → carries path p req → accepts sent req resp → delivered payload path (sent ++ [req]) bs reqs resps →
    delivered payload path sent (b :: bs) (req :: reqs) (resp :: resps).

Definition addResponse (pubResponse resp : OsqueryPublicationResponse) : OsqueryPublicationResponse :=
  Response_ (Status resp) (to_int64 (IngestedBytes pubResponse + IngestedBytes resp))
    (to_int64 (LogCount pubResponse + LogCount resp)) (Message pubResponse).

Lemma encrypt_id r pt key psk' m blob : encryptWithHPKE r pt key psk' m = Ok blob → HPKEKeyID blob = KeyID key.
Proof.
  unfold encryptWithHPKE. destruct (is_empty m); [done|].
  repeat (match goal with |- context [orErr _ ?o] => destruct o as [?|]; [cbn [orErr mbind res_bind]|done] end;
    try match goal with |- context [let '(_, _) := ?p in _] => destruct p end).
  by intros [= <-].
Qed.

(** One request, with what came of it *)
Lemma publish_spec lpc payload path sent o sent' :
  configured lpc → zlibWriter lpc = true → publish k lpc payload path sent = (o, sent') →
  (∃ e, o = Err e ∧ sent' = sent) ∨
  ∃ p req, payload = Some p ∧ sent' = sent ++ [req] ∧ carries path p req ∧
    ((∃ e, o = Err e) ∨ ∃ resp, o = Ok resp ∧ accepts sent req resp).
Proof.
  intros (Ht & Htn & Hk & Hp & Hm & Hmn) Hz. unfold publish. rewrite Hm. destruct metadata as [|b m] eqn:Emeta; [done|].
  unfold getTokenForEnrollment, getHPKEKeyForEnrollment, getPSKForEnrollment. rewrite Ht, Hk, Hp.
  destruct token as [|tb tok] eqn:Etok; [done|]. cbn [mbind res_bind orErr default from_option Datatypes.id is_empty].
  destruct payload as [p|]; cbn [orErr mbind res_bind]; [|intros [= <- <-]; left; by eexists].
  unfold compressPayload. rewrite Hz. cbn [mbind res_bind].
  destruct (encryptWithHPKE _ _ _ _ _) as [blob|e| |] eqn:Ee; cbn [wrap mbind res_bind].
  2:{ intros [= <- <-]. left. by eexists. }
  2,3: exfalso; revert Ee; clear; unfold encryptWithHPKE; destruct (is_empty _); [done|];
    repeat (match goal with |- context [orErr _ ?o] => destruct o as [?|]; [cbn [orErr mbind res_bind]|done] end;
      try match goal with |- context [let '(_, _) := ?p in _] => destruct p end); done.
  destruct (validURL w _); cbn [mbind res_bind]; [|intros [= <- <-]; left; by eexists].
  set (req := Request_ _ _ _ _). intros E. right. exists p, req. injection E as Eo <-. split_and!; [done..| |].
  { split; [done|]. split; [by rewrite Etok|]. exists blob. split; [done|]. split; [apply (encrypt_id _ _ _ _ _ _ Ee)|].
    rewrite Emeta. by apply (ingest_encrypt sk id psk (randomness w sent)). }
  unfold accepts. destruct (Do w sent req) as [[st [body|]]|]; cbn [orErr mbind res_bind] in Eo; [|left; by eexists..].
  destruct (decodeResponse w body) as [resp|] eqn:Ed; cbn [orErr mbind res_bind] in Eo; [|left; by eexists].
  destruct (st =? 200) eqn:E200; [|left; by eexists]. apply Z.eqb_eq in E200 as ->.
  right. exists resp. split; [done|]. by exists body.
Qed.

Lemma publishBatches_spec {A} (payload : list A → option bytes) path lpc : configured lpc → zlibWriter lpc = true → ∀ batches pub sent o sent',
  publishBatches k lpc payload path batches pub sent = (o, sent') →
  ∃ sentBatches rest reqs resps, batches = sentBatches ++ rest ∧ delivered payload path sent sentBatches reqs resps ∧
    match o with
    | Ok r => rest = [] ∧ sent' = sent ++ reqs ∧ r = foldl addResponse pub resps
    | Err _ => ∃ b rest', rest = b :: rest' ∧
        (sent' = sent ++ reqs ∨ ∃ p req, payload b = Some p ∧ carries path p req ∧ sent' = sent ++ reqs ++ [req])
    | _ => False
    end.
Proof.
  intros Hc Hz. induction batches as [|b batches IH]; intros pub sent o sent' E; cbn [publishBatches] in E.
  { injection E as <- <-. exists [], [], [], []. split_and!; [done|constructor|done|by rewrite app_nil_r|done]. }
  destruct (publish k lpc (payload b) path sent) as [o1 sent1] eqn:E1.
  apply publish_spec in E1 as [(e & -> & ->)|(p & req & Ep & -> & Hcar & Hans)]; [| |done..].
  { injection E as <- <-. exists [], (b :: batches), [], []. split_and!; [done|constructor|]. exists b, batches. split; [done|left; by rewrite app_nil_r]. }
  destruct Hans as [[e ->]|(resp & -> & Hacc)].
  { injection E as <- <-. exists [], (b :: batches), [], []. split_and!; [done|constructor|]. exists b, batches. split; [done|right; by exists p, req]. }
  apply IH in E as (sb & rest & reqs & resps & -> & Hd & Ho).
  exists (b :: sb), rest, (req :: reqs), (resp :: resps). split_and!; [done|by econstructor|].
  destruct o; [| |done..].
  - destruct Ho as (-> & -> & ->). split_and!; [done|by rewrite <- app_assoc|done].
  - destruct Ho as (b' & rest' & -> & Ho). exists b', rest'. split; [done|].
    destruct Ho as [->|(p' & req' & Ep' & Hcar' & ->)]; [left; by rewrite <- app_assoc|].
    right. exists p', req'. by rewrite <- app_assoc.
Qed.

(** The size of a batch of logs: of their JSON forms, without what stands between them *)
Definition batchSize (b : list bytes) : Z := total_size (λ log, Some (json_string log)) b.

(** A division of the logs into batches for the ingester: it has every log once, a batch is not empty and within the
    limit, or one log that is beyond it, and the logs that are within the limit keep their order. *)
Record divides (logs : list bytes) (batches : list (list bytes)) : Prop := {
  div_all : concat batches ≡ₚ logs;
  div_size b : b ∈ batches → b ≠ [] ∧ (batchSize b <= maxRequestSizeBytes ∨ ∃ log, b = [log]);
  div_order : concat (filter (λ b, batchSize b <= maxRequestSizeBytes) batches) =
    filter (λ log, batchSize [log] <= maxRequestSizeBytes) logs
}.

Lemma List_filter_eq {A} (f : A → bool) (P : A → Prop) `{!∀ x, Decision (P x)} (l : list A) :
  (∀ x, f x = true ↔ P x) → List.filter f l = filter P l.
Proof.
  intros Hf. induction l as [|x l IH]; [done|]. cbn [List.filter]. rewrite filter_cons, IH. specialize (Hf x).
  destruct (f x), (decide (P x)) as [Hx|Hx]; try done; exfalso; [by apply Hx, Hf|by apply Hf in Hx].
Qed.

Lemma batchRequest_divides logs : divides logs (batchRequest (λ log, Some (json_string log)) logs).
Proof.
  destruct (batchRequest_spec (λ log, Some (json_string log)) logs) as (Hg & Hp & Ho). constructor.
  - rewrite Hp. clear. induction logs as [|log logs IH]; [done|]. cbn [List.filter marshals]. by rewrite IH.
  - intros b Hb. rewrite Forall_forall in Hg. destruct (Hg b Hb) as [Hn Hs]. split; [done|]. unfold batchSize.
    unfold batch_fits in Hs. destruct (Z.leb_spec (total_size (λ log, Some (json_string log)) b) maxRequestSizeBytes); [by left|right].
    destruct Hs as (log & -> & _). by exists log.
  - rewrite <- (List_filter_eq (batch_fits (λ log, Some (json_string log)))) by (intros; apply Z.leb_le).
    rewrite Ho. apply List_filter_eq. intros log. unfold batchSize. rewrite total_size_one. apply Z.leb_le.
Qed.

(** C16: With publication on, logs reach the ingester in batches, one request each: the batches have every log once, and
    the logs within the limit of a request in order (one beyond it makes a batch of its own, which may overtake).  After a
    success the ingester has accepted a request for every batch, in order, and the response sums up its
    answers; after an error it has accepted those before the failing batch, whose request may have been sent, and nothing
    after it is sent.  From each request the ingester reads the batch and the metadata of the device.  With publication
    off, nothing is sent and the call succeeds.  The client has its token, keys and metadata, and was not closed. *)
Theorem PublishLogs_delivers lpc random logType logs sent o sent' :
  configured lpc → zlibWriter lpc = true → PublishLogs k lpc random logType logs sent = (o, sent') →
  let payload := marshalLogs logType in
  if shouldPublishLogs k random then
    ∃ sentBatches rest reqs resps, divides logs (sentBatches ++ rest) ∧
      delivered payload publicationPathLogs sent sentBatches reqs resps ∧
      match o with
      | Ok r => rest = [] ∧ sent' = sent ++ reqs ∧ r = Some (foldl addResponse emptyResponse resps)
      | Err _ => ∃ b rest', rest = b :: rest' ∧
          (sent' = sent ++ reqs ∨
           ∃ p req, payload b = Some p ∧ carries publicationPathLogs p req ∧ sent' = sent ++ reqs ++ [req])
      | _ => False
      end
  else o = Ok None ∧ sent' = sent.
Proof.
  intros Hc Hz. unfold PublishLogs. cbv zeta. destruct (shouldPublishLogs k random); [|by intros [= <- <-]].
  pose proof (batchRequest_divides logs) as Hdiv.
  destruct (publishBatches _ _ _ _ _ _ _) as [o1 sent1] eqn:E.
  apply publishBatches_spec in E as (sb & rest & reqs & resps & E & Hd & Ho); [|done..]. rewrite E in Hdiv.
  intros [= <- <-]. exists sb, rest, reqs, resps. split_and!; [done..|]. destruct o1; cbn [mbind res_bind]; [|done..].
  destruct Ho as (-> & -> & ->). done.
Qed.

(** A client that was closed panics when it has something to publish. *)
Theorem publish_after_Close lpc random logType log logs sent :
  configured lpc → shouldPublishLogs k random = true →
  PublishLogs k (Close lpc) random logType (log :: logs) sent = (Panic, sent).
Proof.
  intros (Ht & Htn & Hk & Hp & Hm & Hmn) Hs. unfold PublishLogs. rewrite Hs.
  destruct (batchRequest _ (log :: logs)) as [|b batches] eqn:E.
  { destruct (batchRequest_spec (λ log, Some (json_string log)) (log :: logs)) as (_ & Hperm & _).
    rewrite E in Hperm. cbn [List.filter marshals concat] in Hperm. by apply Permutation_nil_cons in Hperm. }
  cbn [publishBatches]. unfold publish. cbn [Close metadataJSON]. rewrite Hm. destruct metadata as [|mb m]; [done|].
  unfold getTokenForEnrollment, getHPKEKeyForEnrollment, getPSKForEnrollment. cbn [Close authTokens hpkeKeys psks].
  rewrite Ht, Hk, Hp. by destruct token.
Qed.

(** *** Keys and metadata *)

Definition keyData (id key : bytes) : bytes := id ++ keyDelimiter ++ base64 key.

Lemma parse_keyData id' key : id' ≠ [] → Enrollment.keyDelimiter ∉ id' → key ≠ [] → parseKeyData (keyData id' key) = Ok (MkKeyData key id').
Proof.
  intros Hi Hd Hk. unfold parseKeyData, keyData. change (keyDelimiter ++ base64 key) with (Enrollment.keyDelimiter :: base64 key).
  change keyDelimiter with [Enrollment.keyDelimiter]. rewrite Enrollment.cut_delimiter by done.
  destruct id' as [|b id']; [done|]. cbn [is_empty]. rewrite Http.DecodeString_base64.
  destruct (base64 key) as [|c s] eqn:E; [|done]. by destruct key as [|? [|? [|? ?]]].
Qed.

Lemma setToken_sets `{KL : KVLaws S} `{KR : !KVReliable S} key v s m :
  kv_ok s → key ≠ [] → v ≠ [] →
  ∃ s1, Enrollment.setToken key v (s, m) = (s1, true) ∧ kv_ok s1 ∧
    ∀ k', kv_Get s1 k' = if bool_decide (k' = key) then Ok (Some v) else kv_Get s k'.
Proof.
  intros Hok Hk Hv. unfold Enrollment.setToken. destruct v as [|b v]; [done|]. cbn [is_empty fst snd].
  pose proof (kv_Set_reliable key (b :: v) s Hok Hk) as E.
  pose proof (λ k', Enrollment.kv_Get_Set s key (b :: v) k' Hok E) as Hg.
  destruct (kv_Set key (b :: v) s) as [s1 [e|]]; [done|]. exists s1. split; [done|]. split; [apply (Hg [])|apply Hg].
Qed.

(** The keys the server sends with an enrollment are those the client publishes with from then on: storing them
    pings the client, which finds them in the store, parses them, and takes the identifiers of the server's
    data as its metadata. *)
Theorem enrollment_configures `{KL : KVLaws S} `{KR : !KVReliable S} ek (s sp : S) lpc device organization :
  Enrollment.TokenStore ek = Some s → kv_ok s → token ≠ [] →
  id ≠ [] → Enrollment.keyDelimiter ∉ id → publicKey sk ≠ [] →
  KeyID psk ≠ [] → Enrollment.keyDelimiter ∉ KeyID psk → Key psk ≠ [] →
  kv_Get sp (bs "device_id") = Ok (Some device) → kv_Get sp (bs "organization_id") = Ok (Some organization) →
  device ≠ [] → organization ≠ [] → metadata = marshalMetadata device organization →
  OsqueryPublisherURL k ≠ [] → OsqueryPublisherPercentEnabled k ≠ 0 →
  let '(ek', ping) := Enrollment.PersistAgentIngesterKeys true token (keyData id (publicKey sk)) (keyData (KeyID psk) (Key psk)) ek in
  ping = true ∧ ∃ s', Enrollment.TokenStore ek' = Some s' ∧
    configured (Ping (Knapsack (OsqueryPublisherURL k) (OsqueryPublisherPercentEnabled k) s' (Some sp)) lpc).
Proof.
  intros Es Hok Ht Hi Hid Hpk Hp Hpd Hpsk Hdev Horg Hdn Hon Hmeta Hurl Hpct.
  unfold Enrollment.PersistAgentIngesterKeys. rewrite Es.
  assert (Hkd : ∀ i key, i ≠ [] → keyData i key ≠ []) by (intros i key; unfold keyData; by destruct i).
  destruct (setToken_sets Enrollment.AgentIngesterAuthTokenKey token s false) as (s1 & -> & Hok1 & G1); [done..|].
  destruct (setToken_sets Enrollment.AgentIngesterHPKEPublicKey (keyData id (publicKey sk)) s1 true) as (s2 & -> & Hok2 & G2); [by auto..|].
  destruct (setToken_sets Enrollment.AgentIngesterHPKEPresharedKey (keyData (KeyID psk) (Key psk)) s2 true) as (s3 & -> & _ & G3);
    [by auto..|].
  split; [done|]. exists s3. split; [done|].
  assert (Ga : fetched s3 Enrollment.AgentIngesterAuthTokenKey = Some token).
  { unfold fetched. rewrite G3, G2, G1. cbn. by destruct token. }
  assert (Gh : fetched s3 Enrollment.AgentIngesterHPKEPublicKey = Some (keyData id (publicKey sk))).
  { unfold fetched. rewrite G3, G2. cbn. specialize (Hkd id (publicKey sk) Hi). by destruct (keyData _ _). }
  assert (Gp : fetched s3 Enrollment.AgentIngesterHPKEPresharedKey = Some (keyData (KeyID psk) (Key psk))).
  { unfold fetched. rewrite G3. cbn. specialize (Hkd _ (Key psk) Hp). by destruct (keyData _ _). }
  unfold Ping, refreshTokenCache. cbn [OsqueryPublisherURL OsqueryPublisherPercentEnabled TokenStore].
  destruct (OsqueryPublisherURL k) as [|u url]; [done|]. rewrite (proj2 (Z.eqb_neq _ _)) by done. cbn [is_empty orb].
  rewrite Ga. unfold refreshKey. rewrite Gh, Gp, !parse_keyData by done.
  unfold configured. cbn [authTokens hpkeKeys psks metadataJSON]. rewrite !lookup_insert_eq.
  unfold refreshServerMetadata. cbn [ServerProvidedDataStore]. rewrite Hdev, Horg.
  destruct device; [done|]. destruct organization; [done|]. split_and!; try done; [by destruct psk|by rewrite Hmeta..].
Qed.
End Delivery.

(** The share of calls that publish is one more than the percentage, out of 101 random numbers: one percent
    publishes nearly two in a hundred. *)
Theorem publication_share {S} (k : knapsack S) :
  OsqueryPublisherURL k ≠ [] → 0 < OsqueryPublisherPercentEnabled k <= 100 →
  len (List.filter (shouldPublishLogs k) (seqZ 0 101)) = OsqueryPublisherPercentEnabled k + 1.
Proof.
  intros Hu Hp. destruct k as [u p ts sp]. cbn [OsqueryPublisherURL OsqueryPublisherPercentEnabled] in *.
  assert (Hl : ∀ n a, 0 <= a → a <= p + 1 → p + 1 <= a + Z.of_nat n →
    len (List.filter (shouldPublishLogs (Knapsack u p ts sp)) (seqZ a (Z.of_nat n))) = p + 1 - a).
  { induction n as [|n IH]; intros a Ha Hap Hpn; [rewrite seqZ_nil by lia; change (len _) with 0; lia|].
    rewrite seqZ_cons by lia. replace (Z.pred (Z.of_nat (Datatypes.S n))) with (Z.of_nat n) by lia. cbn [List.filter].
    assert (shouldPublishLogs (Knapsack u p ts sp) a = (a <=? p)) as ->.
    { unfold shouldPublishLogs. cbn [OsqueryPublisherURL OsqueryPublisherPercentEnabled]. destruct u; [done|].
      rewrite (proj2 (Z.eqb_neq _ _)) by lia. done. }
    destruct (a <=? p) eqn:E; [apply Z.leb_le in E|apply Z.leb_gt in E].
    - specialize (IH (Z.succ a)). unfold len in *. cbn [length]. lia.
    - assert (Hnone : ∀ m b, p < b → List.filter (shouldPublishLogs (Knapsack u p ts sp)) (seqZ b (Z.of_nat m)) = []).
      { induction m as [|m IHm]; intros b Hb; [done|]. rewrite seqZ_cons by lia.
        replace (Z.pred (Z.of_nat (Datatypes.S m))) with (Z.of_nat m) by lia. cbn [List.filter].
        assert (shouldPublishLogs (Knapsack u p ts sp) b = false) as ->; [|apply IHm; lia].
        unfold shouldPublishLogs. cbn [OsqueryPublisherURL OsqueryPublisherPercentEnabled]. destruct u; [done|].
        rewrite (proj2 (Z.eqb_neq _ _)) by lia. by apply Z.leb_gt. }
      rewrite Hnone by lia. unfold len. cbn [length]. lia. }
  change 101 with (Z.of_nat 101). rewrite (Hl 101%nat 0) by lia. lia.
Qed.
End Lib.

(** ** Witnesses *)

(** Keys of 4 bytes, and texts that are only turned around *)
Definition toyHpke : Hpke := {|
  pubKey := bytes; sender := bytes * bytes; sealer := bytes; entropy := bytes;
  UnmarshalBinaryPublicKey b := if (length b =? 4)%nat then Some b else None;
  NewSender pk info := Some (pk, info);
  SetupPSK r s k i := Some (r, k);
  Setup r s := Some (r, []);
  Seal sl pt aad := Some (reverse pt)
|}.
#[refine] Definition toyHpkeLaws : @HpkeLaws toyHpke := {|
  privKey := bytes : Type; publicKey sk := sk : bytes;
  OpenPSK sk info k i enc aad ct := Some (reverse ct);
  Open sk info enc aad ct := Some (reverse ct)
|}.
Proof. all: cbn; intros; simplify_eq; by rewrite reverse_involutive. Defined.
#[refine] Definition toyZlib : Zlib := {| deflate s := x78 :: s; inflate s := match s with _ :: s => Some s | [] => None end |}.
Proof. done. Defined.

Definition toyWorld : @world toyHpke := @World toyHpke (λ _, true) (λ _ _, Some (200, Some (bs "{}"))) (λ _, ([x01], [x02]))
  (λ _, Some (Response_ (bs "ok") 10 2 [])).
Definition toyKnapsack : knapsack () := Knapsack () (bs "https://ingest") 40 tt None.
Definition toyMetadata : bytes := marshalMetadata (bs "7") (bs "9").
Definition toyClient : LogPublisherClient :=
  Client {[Enrollment.DefaultEnrollmentID := bs "token"]} {[Enrollment.DefaultEnrollmentID := MkKeyData (bs "pkey") (bs "k1")]}
    {[Enrollment.DefaultEnrollmentID := MkKeyData (bs "psk") (bs "p1")]} (Some toyMetadata) true.

Lemma toy_configured : @configured toyHpke toyHpkeLaws (bs "pkey") (MkKeyData (bs "psk") (bs "p1")) (bs "token") (bs "k1") toyMetadata toyClient.
Proof. by split_and!. Qed.

Definition toy_published : res (option OsqueryPublicationResponse) * list request :=
  @PublishLogs toyHpke toyZlib toyWorld () toyKnapsack toyClient 40 0 [bs "a"; bs "b"] [].

Lemma toy_published_ok : match toy_published.1 with Ok (Some _) => true | _ => false end = true.
Proof. vm_compute. reflexivity. Qed.

Lemma PublishLogs_delivers_witness :
  ∃ batches reqs resps, concat batches ≡ₚ [bs "a"; bs "b"] ∧
    @delivered toyHpke toyZlib toyWorld toyHpkeLaws () toyKnapsack (bs "pkey") (MkKeyData (bs "psk") (bs "p1")) (bs "token") (bs "k1")
      toyMetadata bytes (marshalLogs 0) publicationPathLogs [] batches reqs resps ∧
    toy_published = (Ok (Some (foldl addResponse emptyResponse resps)), reqs).
Proof.
  pose proof toy_published_ok as Hok. destruct toy_published as [o sent'] eqn:E.
  pose proof (@PublishLogs_delivers toyHpke toyZlib toyWorld toyHpkeLaws () toyKnapsack (bs "pkey") (MkKeyData (bs "psk") (bs "p1"))
    (bs "token") (bs "k1") toyMetadata toyClient 40 0 [bs "a"; bs "b"] [] o sent' toy_configured eq_refl E) as Hp.
  cbv zeta in Hp. change (shouldPublishLogs toyKnapsack 40) with true in Hp. cbv iota in Hp.
  destruct Hp as (sb & rest & reqs & resps & Hdiv & Hd & Ho). destruct o as [[r|]| | |]; try discriminate Hok.
  destruct Ho as (-> & -> & Er). injection Er as ->. rewrite app_nil_r in Hdiv. exists sb, reqs, resps.
  split; [apply Hdiv|]. split; [exact Hd|reflexivity].
Defined.

Lemma publish_after_Close_witness :
  @PublishLogs toyHpke toyZlib toyWorld () toyKnapsack (Close toyClient) 40 0 [bs "a"] [] = (Panic, []).
Proof. exact (@publish_after_Close toyHpke toyZlib toyWorld toyHpkeLaws () toyKnapsack _ _ _ _ _ toyClient 40 0 (bs "a") [] [] toy_configured eq_refl). Defined.

Definition toyTokens : @Enrollment.knapsack InMemory.store :=
  Enrollment.with_tokens (Enrollment.Knapsack None None None (bs "secret") Enrollment.NoFile) InMemory.NewStore.
Definition toyServerData : InMemory.store :=
  (InMemory.Set_ (bs "organization_id") (bs "9") (InMemory.Set_ (bs "device_id") (bs "7") InMemory.NewStore).1).1.

Lemma enrollment_configures_witness :
  let '(ek, ping) := Enrollment.PersistAgentIngesterKeys true (bs "token") (keyData (bs "k1") (bs "pkey")) (keyData (bs "p1") (bs "psk")) toyTokens in
  ping = true ∧ ∃ s, Enrollment.TokenStore ek = Some s ∧
    @configured toyHpke toyHpkeLaws (bs "pkey") (MkKeyData (bs "psk") (bs "p1")) (bs "token") (bs "k1") toyMetadata
      (Ping (Knapsack InMemory.store (bs "https://ingest") 40 s (Some toyServerData)) toyClient).
Proof.
  apply (@enrollment_configures toyHpke toyHpkeLaws InMemory.store (Knapsack InMemory.store (bs "https://ingest") 40 InMemory.NewStore None)
    (bs "pkey") (MkKeyData (bs "psk") (bs "p1")) (bs "token") (bs "k1") toyMetadata _ _ _ toyTokens InMemory.NewStore toyServerData toyClient
    (bs "7") (bs "9")); try done; try (by apply (bool_decide_unpack _)). exact InMemory.wf_NewStore.
Defined.

Lemma publication_share_witness : len (List.filter (shouldPublishLogs toyKnapsack) (seqZ 0 101)) = 41.
Proof. apply (publication_share toyKnapsack); [done|]. by split. Defined.
End Publisher.
