(* ===== verification/Runner.v ===== *)
(** * pkg/osquery/runtime: the runner, which keeps one osquery instance per enrollment (runner.go)

    A worker per enrollment launches an instance, waits until it has exited, and launches the next one.  Shutdown,
    restarts, changes of flags and of the table configuration come from other goroutines.  A step is what one of them
    does while it holds the lock of the instances, or a single load, swap or close of what they share; a run
    is any sequence of steps.  Of an instance the runner sees whether its group has been cancelled. *)
From S2P Require Import Prelude.
Set Warnings "-clear-no-such-hyp".

Module Runner.

(** Where a worker is in [runInstance] and [launchInstanceWithRetries] *)
Inductive place :=
| Check                    (* about to load [interrupted] *)
| Add                      (* about to make an instance *)
| Launching (n : nat)      (* in its [Launch] *)
| Retry                    (* the select after a failed launch *)
| Watch (n : nat)          (* receiving from its [Exited] *)
| Decide                   (* the select after it exited *)
| Wait                     (* in [WaitShutdown] *)
| Stopped (e : option err).

Inductive shutdownPlace := NotCalled | Swapped | Closed | Complete.

Record runner := Run_ {
  workers : gmap bytes place;         (* by enrollment *)
  instances : gmap bytes nat;         (* the instance of an enrollment, by number *)
  exited : list bool;                 (* whether an instance has been told to exit, or has exited by itself *)
  interrupted : bool;
  closed : bool;                      (* [shutdown] *)
  shutdown : shutdownPlace;           (* the one call of [Shutdown] that goes on *)
  inModernStandby : bool;             (* of the knapsack *)
  needsRestart : bool
}.

Definition New (enrollmentIds : list bytes) (standby : bool) : runner :=
  Run_ (list_to_map (map (λ id, (id, Check)) enrollmentIds)) ∅ [] false false NotCalled standby false.

Definition with_worker (id : bytes) (p : place) (r : runner) : runner :=
  Run_ (<[id := p]> (workers r)) (instances r) (exited r) (interrupted r) (closed r) (shutdown r) (inModernStandby r) (needsRestart r).
Definition with_exited (e : list bool) (r : runner) : runner :=
  Run_ (workers r) (instances r) e (interrupted r) (closed r) (shutdown r) (inModernStandby r) (needsRestart r).
Definition with_restart (b : bool) (r : runner) : runner :=
  Run_ (workers r) (instances r) (exited r) (interrupted r) (closed r) (shutdown r) (inModernStandby r) b.

(** [BeginShutdown] of one instance *)
Definition BeginShutdown (n : nat) (r : runner) : runner := with_exited (<[n := true]> (exited r)) r.

(** [triggerShutdownForInstances]: of all that are in the map; its waiting ends after 30 seconds at most *)
Definition triggerShutdownForInstances (r : runner) : runner :=
  with_exited (imap (λ n b, b || bool_decide (n ∈ (map_to_list (instances r)).*2)) (exited r)) r.

(** [Restart], under the restart lock *)
Definition Restart (r : runner) : runner :=
  if inModernStandby r then with_restart true r else triggerShutdownForInstances (with_restart false r).

(** The flags the runner observes *)
Inductive flagKey := WatchdogEnabled | WatchdogMemoryLimitMB | WatchdogUtilizationLimitPercent | WatchdogDelaySec | InModernStandby.
#[export] Instance flagKey_eq_dec : EqDecision flagKey.
Proof. solve_decision. Defined.

Definition FlagsChanged (flagKeys : list flagKey) (r : runner) : runner :=
  if bool_decide (flagKeys = [InModernStandby]) && negb (needsRestart r) then r else Restart r.

(** [Ping]: [reloaded] says whether the instances took the new configuration *)
Definition Ping (reloaded : bool) (r : runner) : runner := if reloaded then r else Restart r.

Inductive step :=
| CheckInterrupted (id : bytes)
| AddInstance (id : bytes)
| Launched (id : bytes)
| LaunchFailed (id : bytes)
| RetryStops (id : bytes)              (* the select finds [shutdown] closed *)
| RetryAgain (id : bytes)              (* ten seconds have passed *)
| SeesExit (id : bytes)
| Decides (id : bytes)
| Waited (id : bytes)
| InstanceExits (n : nat)              (* osquery ends by itself *)
| ShutdownSwap | ShutdownClose | ShutdownTrigger
| Standby (b : bool)                   (* the flag changes; its observers are told later *)
| DoFlagsChanged (flagKeys : list flagKey)
| DoPing (reloaded : bool)
| DoRestart.

Definition halted (msg : string) : place := Stopped (Some (Errorf msg)).
Arguments halted msg%_string.

Definition perform (s : step) (r : runner) : option runner :=
  match s with
  | CheckInterrupted id =>
      match workers r !! id with
      | Some Check =>
          Some (if interrupted r
                then with_worker id (halted "runner received shutdown, halting before initiating launching instance for %s") r
                else with_worker id Add r)
      | _ => None
      end
  | AddInstance id =>
      match workers r !! id with
      | Some Add =>
          let n := length (exited r) in
          Some (Run_ (<[id := Launching n]> (workers r)) (<[id := n]> (instances r)) (exited r ++ [false])
                  (interrupted r) (closed r) (shutdown r) (inModernStandby r) (needsRestart r))
      | _ => None
      end
  | Launched id => match workers r !! id with Some (Launching n) => Some (with_worker id (Watch n) r) | _ => None end
  | LaunchFailed id =>
      match workers r !! id with Some (Launching n) => Some (with_worker id Retry (BeginShutdown n r)) | _ => None end
  | RetryStops id =>
      match workers r !! id with
      | Some Retry =>
          if closed r then Some (with_worker id (halted "runner received shutdown, halting before successfully launching instance for %s") r)
          else None
      | _ => None
      end
  | RetryAgain id => match workers r !! id with Some Retry => Some (with_worker id Check r) | _ => None end
  | SeesExit id =>
      match workers r !! id with
      | Some (Watch n) => match exited r !! n with Some true => Some (with_worker id Decide r) | _ => None end
      | _ => None
      end
  | Decides id =>
      match workers r !! id with Some Decide => Some (with_worker id (if closed r then Stopped None else Wait) r) | _ => None end
  | Waited id => match workers r !! id with Some Wait => Some (with_worker id Check r) | _ => None end
  | InstanceExits n => if (n <? length (exited r))%nat then Some (BeginShutdown n r) else None
  | ShutdownSwap =>
      Some (if interrupted r then r
            else Run_ (workers r) (instances r) (exited r) true (closed r) Swapped (inModernStandby r) (needsRestart r))
  | ShutdownClose =>
      match shutdown r with
      | Swapped => Some (Run_ (workers r) (instances r) (exited r) (interrupted r) true Closed (inModernStandby r) (needsRestart r))
      | _ => None
      end
  | ShutdownTrigger =>
      match shutdown r with
      | Closed =>
          let r := triggerShutdownForInstances r in
          Some (Run_ (workers r) (instances r) (exited r) (interrupted r) (closed r) Complete (inModernStandby r) (needsRestart r))
      | _ => None
      end
  | Standby b => Some (Run_ (workers r) (instances r) (exited r) (interrupted r) (closed r) (shutdown r) b (needsRestart r))
  | DoFlagsChanged flagKeys => Some (FlagsChanged flagKeys r)
  | DoPing reloaded => Some (Ping reloaded r)
  | DoRestart => Some (Restart r)
  end.

Fixpoint run (l : list step) (r : runner) : option runner :=
  match l with [] => Some r | s :: l' => r ← perform s r; run l' r end.

Definition reachable (r : runner) : Prop := ∃ ids standby l, run l (New ids standby) = Some r.

(** Questions of the rest of the launcher; [healthy] is an instance's answer *)
Definition Query {A} (query : nat → res A) (default_id : bytes) (r : runner) : res A :=
  match instances r !! default_id with
  | Some n => query n
  | None => Err (Errorf "no default instance exists, cannot query")
  end.

Inductive InstanceStatus := NotStarted | Unhealthy | Healthy_.

Definition status (healthy : nat → option err) (r : runner) (id : bytes) : InstanceStatus :=
  match instances r !! id with
  | None => NotStarted
  | Some n => match healthy n with Some _ => Unhealthy | None => Healthy_ end
  end.

Definition InstanceStatuses (enrollmentIds : list bytes) (healthy : nat → option err) (r : runner) : list (bytes * InstanceStatus) :=
  map (λ id, (id, status healthy r id)) enrollmentIds.

Definition Healthy (enrollmentIds : list bytes) (healthy : nat → option err) (r : runner) : option err :=
  let failing id :=
    match instances r !! id with
    | None => Some (Errorf "running instance does not exist for %s")
    | Some n => match healthy n with Some e => Some (Wrapf "healthcheck error for %s: %w" e) | None => None end
    end in
  match omap failing enrollmentIds with [] => None | _ => Some (Errorf "healthchecking all instances: %+v") end.

(** ** One live instance per enrollment *)

Definition live (r : runner) (n : nat) : Prop := exited r !! n = Some false.

(** The instance a worker is at *)
Definition holds (p : place) : option nat :=
  match p with Launching n | Watch n => Some n | _ => None end.

Record inv (r : runner) : Prop := {
  inv_live n : live r n → ∃ id p, workers r !! id = Some p ∧ holds p = Some n;
  inv_holds id p n : workers r !! id = Some p → holds p = Some n → instances r !! id = Some n ∧ (n < length (exited r))%nat;
  inv_known id n : instances r !! id = Some n → (n < length (exited r))%nat;
  inv_distinct id id' n : instances r !! id = Some n → instances r !! id' = Some n → id = id';
  inv_closed : closed r = match shutdown r with Closed | Complete => true | _ => false end;
  inv_interrupted : interrupted r = match shutdown r with NotCalled => false | _ => true end
}.

Lemma inv_New ids standby : inv (New ids standby).
Proof.
  split; cbn [New workers instances exited closed shutdown interrupted]; try done.
  intros id p n Hp Hh. apply elem_of_list_to_map_2, list_elem_of_In, in_map_iff in Hp as (i & [= <- <-] & _). done.
Qed.

(** Nothing comes alive but in [AddInstance]. *)
Lemma inv_exits e r : length e = length (exited r) → (∀ n, e !! n = Some false → exited r !! n = Some false) →
  inv r → inv (with_exited e r).
Proof.
  intros Hl He [H1 H2 H3 H4 H5 H6]. split; cbn [with_exited workers instances exited closed shutdown interrupted]; try done.
  - intros n Hn. apply H1, He, Hn.
  - intros id p n Hp Hh. rewrite Hl. by apply (H2 id p n).
  - intros id n Hn. rewrite Hl. by apply (H3 id n).
Qed.

Lemma inv_BeginShutdown n r : inv r → inv (BeginShutdown n r).
Proof.
  apply inv_exits; [apply length_insert|]. intros m Hm. destruct (decide (n = m)) as [<-|Hne].
  - destruct (decide (n < length (exited r))%nat) as [Hlt|Hge].
    + by rewrite list_lookup_insert_eq in Hm.
    + apply lookup_lt_Some in Hm. rewrite length_insert in Hm. lia.
  - by rewrite list_lookup_insert_ne in Hm.
Qed.

Lemma inv_trigger r : inv r → inv (triggerShutdownForInstances r).
Proof.
  apply inv_exits; [apply length_imap|]. intros n Hn. rewrite list_lookup_imap in Hn.
  destruct (exited r !! n) as [[|]|] eqn:E; [|done|done]. by cbn in Hn.
Qed.

Lemma inv_restart b r : inv r → inv (with_restart b r).
Proof. by intros [H1 H2 H3 H4 H5 H6]. Qed.

Lemma inv_Restart r : inv r → inv (Restart r).
Proof. intros Hr. unfold Restart. destruct (inModernStandby r); [by apply inv_restart|by apply inv_trigger, inv_restart]. Qed.

(** A worker leaves an instance only when that has exited. *)
Lemma inv_with_worker id p p' r : inv r → workers r !! id = Some p →
  holds p' = holds p ∨ (holds p' = None ∧ ∀ n, holds p = Some n → exited r !! n = Some true) → inv (with_worker id p' r).
Proof.
  intros [H1 H2 H3 H4 H5 H6] Hp Hh. split; cbn [with_worker workers instances exited closed shutdown interrupted]; try done.
  - intros n Hn. destruct (H1 n Hn) as (id' & q & Hq & Hqh). destruct (decide (id = id')) as [<-|Hne].
    + rewrite Hp in Hq. injection Hq as <-. destruct Hh as [Hh|[_ Hh]].
      * exists id, p'. rewrite lookup_insert_eq. split; [done|congruence].
      * specialize (Hh n Hqh). unfold live in Hn. cbn in Hn. congruence.
    + exists id', q. by rewrite lookup_insert_ne.
  - intros id' q n Hq Hqh. destruct (decide (id = id')) as [<-|Hne].
    + rewrite lookup_insert_eq in Hq. injection Hq as <-. apply (H2 id p); [done|]. destruct Hh as [Hh|[Hh _]]; congruence.
    + rewrite lookup_insert_ne in Hq by done. by apply (H2 id' q).
Qed.

Lemma inv_AddInstance id r : inv r → workers r !! id = Some Add → ∀ r', perform (AddInstance id) r = Some r' → inv r'.
Proof.
  intros [H1 H2 H3 H4 H5 H6] Hp r' E. cbn [perform] in E. rewrite Hp in E. injection E as <-.
  split; cbn [workers instances exited closed shutdown interrupted]; try done.
  - intros n Hn. unfold live in Hn. cbn in Hn. apply lookup_app_Some in Hn as [Hn|[Hge Hn]].
    + destruct (H1 n Hn) as (id' & q & Hq & Hqh). exists id', q. rewrite lookup_insert_ne; [done|].
      intros ->. rewrite Hp in Hq. by injection Hq as <-.
    + apply list_lookup_singleton_Some in Hn as [Hn _]. exists id, (Launching (length (exited r))).
      rewrite lookup_insert_eq. split; [done|]. cbn. f_equal. lia.
  - intros id' q n Hq Hqh. rewrite length_app. cbn [length]. destruct (decide (id = id')) as [<-|Hne].
    + rewrite lookup_insert_eq in Hq. injection Hq as <-. injection Hqh as <-. rewrite lookup_insert_eq. split; [done|lia].
    + rewrite lookup_insert_ne in Hq by done. rewrite lookup_insert_ne by done. destruct (H2 id' q n Hq Hqh). split; [done|lia].
  - intros id' n Hn. rewrite length_app. cbn [length]. destruct (decide (id = id')) as [<-|Hne].
    + rewrite lookup_insert_eq in Hn. injection Hn as <-. lia.
    + rewrite lookup_insert_ne in Hn by done. specialize (H3 id' n Hn). lia.
  - intros a b n Ha Hb.
    destruct (decide (id = a)) as [<-|Hna], (decide (id = b)) as [<-|Hnb]; [done|..].
    + rewrite lookup_insert_eq in Ha. rewrite lookup_insert_ne in Hb by done. injection Ha as <-. specialize (H3 b _ Hb). lia.
    + rewrite lookup_insert_eq in Hb. rewrite lookup_insert_ne in Ha by done. injection Hb as <-. specialize (H3 a _ Ha). lia.
    + rewrite lookup_insert_ne in Ha, Hb by done. by apply (H4 a b n).
Qed.

Lemma inv_perform s r r' : inv r → perform s r = Some r' → inv r'.
Proof.
  intros Hr E. destruct s as [id|id|id|id|id|id|id|id|id|n| | | |b|keys|ok|]; cbn [perform] in E.
  - destruct (workers r !! id) as [[]|] eqn:Hw; try done. injection E as <-.
    destruct (interrupted r); eapply inv_with_worker; eauto.
  - destruct (workers r !! id) as [[]|] eqn:Hw; try done. eapply inv_AddInstance; [done|exact Hw|]. cbn [perform]. by rewrite Hw.
  - destruct (workers r !! id) as [[]|] eqn:Hw; try done. injection E as <-. eapply inv_with_worker; eauto.
  - destruct (workers r !! id) as [[| |n| | | | |]|] eqn:Hw; try done. injection E as <-.
    eapply inv_with_worker; [by apply inv_BeginShutdown|exact Hw|]. right. split; [done|]. intros m [= <-].
    cbn [BeginShutdown with_exited exited]. apply list_lookup_insert_eq. by destruct (inv_holds r Hr id _ n Hw eq_refl).
  - destruct (workers r !! id) as [[]|] eqn:Hw; try done. destruct (closed r); [|done]. injection E as <-. eapply inv_with_worker; eauto.
  - destruct (workers r !! id) as [[]|] eqn:Hw; try done. injection E as <-. eapply inv_with_worker; eauto.
  - destruct (workers r !! id) as [[| | | |n| | |]|] eqn:Hw; try done. destruct (exited r !! n) as [[|]|] eqn:En; try done.
    injection E as <-. eapply inv_with_worker; [done|exact Hw|]. right. split; [done|]. by intros m [= <-].
  - destruct (workers r !! id) as [[]|] eqn:Hw; try done. injection E as <-. destruct (closed r); eapply inv_with_worker; eauto.
  - destruct (workers r !! id) as [[]|] eqn:Hw; try done. injection E as <-. eapply inv_with_worker; eauto.
  - destruct (n <? length (exited r))%nat; [|done]. injection E as <-. by apply inv_BeginShutdown.
  - injection E as <-. destruct (interrupted r) eqn:Ei; [done|]. destruct Hr as [H1 H2 H3 H4 H5 H6].
    split; try done. cbn. rewrite H5. rewrite Ei in H6. by destruct (shutdown r).
  - destruct (shutdown r) eqn:Es; try done. injection E as <-. destruct Hr as [H1 H2 H3 H4 H5 H6].
    split; try done. cbn. by rewrite H6, Es.
  - destruct (shutdown r) eqn:Es; try done. injection E as <-. pose proof (inv_trigger r Hr) as [H1 H2 H3 H4 H5 H6].
    split; try done; cbn in *; by rewrite ?H5, ?H6, Es.
  - injection E as <-. by destruct Hr as [H1 H2 H3 H4 H5 H6].
  - injection E as <-. unfold FlagsChanged. case_match; [done|by apply inv_Restart].
  - injection E as <-. unfold Ping. destruct ok; [done|by apply inv_Restart].
  - injection E as <-. by apply inv_Restart.
Qed.

Lemma runner_inv_run l : ∀ r r', inv r → run l r = Some r' → inv r'.
Proof.
  induction l as [|s l IH]; intros r r' Hr E; cbn [run] in E; [by simplify_eq|].
  destruct (perform s r) as [r1|] eqn:E1; [|done]. eapply IH; [|exact E]. by eapply inv_perform.
Qed.

Lemma runner_reachable_inv r : reachable r → inv r.
Proof. intros (ids & b & l & E). eapply runner_inv_run; [apply inv_New|exact E]. Qed.

Lemma runner_run_app l k r : run (l ++ k) r = (r' ← run l r; run k r').
Proof. revert r. induction l as [|s l IH]; intros r; [done|]. cbn [run app]. destruct (perform s r); [apply IH|done]. Qed.

Lemma reachable_run l r r' : reachable r → run l r = Some r' → reachable r'.
Proof. intros (ids & b & k & E) E'. exists ids, b, (k ++ l). by rewrite runner_run_app, E. Qed.

(** In every interleaving an instance that lives is the one its worker launches or watches, and is in the map, where
    restarts and shutdowns find it; an enrollment never has two. *)
Theorem one_instance r n :
  reachable r → live r n →
  ∃ id p, workers r !! id = Some p ∧ holds p = Some n ∧ instances r !! id = Some n ∧
    ∀ id' m, instances r !! id' = Some m → id' = id ↔ m = n.
Proof.
  intros Hr%runner_reachable_inv Hn. destruct (inv_live r Hr n Hn) as (id & p & Hp & Hh).
  destruct (inv_holds r Hr id p n Hp Hh) as [Hi _]. exists id, p. split_and!; [done..|].
  intros id' m Hm. split; [intros ->; congruence|intros ->; by apply (inv_distinct r Hr id' id n)].
Qed.

(** ** Restarts *)

Lemma triggered r n id : instances r !! id = Some n → (n < length (exited r))%nat →
  exited (triggerShutdownForInstances r) !! n = Some true.
Proof.
  intros Hi Hn. cbn [triggerShutdownForInstances with_exited exited]. rewrite list_lookup_imap.
  destruct (lookup_lt_is_Some_2 _ _ Hn) as [b ->]. cbn [fmap option_fmap option_map]. f_equal.
  rewrite bool_decide_eq_true_2; [by rewrite orb_true_r|]. apply list_elem_of_fmap. exists (id, n).
  split; [done|]. by apply elem_of_map_to_list.
Qed.

Lemma triggered_keeps r n : exited r !! n = Some true → exited (triggerShutdownForInstances r) !! n = Some true.
Proof. intros Hn. cbn [triggerShutdownForInstances with_exited exited]. by rewrite list_lookup_imap, Hn. Qed.

Lemma Restart_keeps r n : exited r !! n = Some true → exited (Restart r) !! n = Some true.
Proof. intros Hn. unfold Restart. destruct (inModernStandby r); [done|by apply triggered_keeps]. Qed.

(** What has exited stays so. *)
Lemma exited_stays s r r' n : perform s r = Some r' → exited r !! n = Some true → exited r' !! n = Some true.
Proof.
  intros E Hn.
  assert (Hb : ∀ m, exited (BeginShutdown m r) !! n = Some true).
  { intros m. cbn [BeginShutdown with_exited exited]. destruct (decide (m = n)) as [->|]; [|by rewrite list_lookup_insert_ne].
    apply list_lookup_insert_eq. by eapply lookup_lt_Some. }
  destruct s as [id|id|id|id|id|id|id|id|id|m| | | |b|keys|ok|]; cbn [perform] in E;
    try (destruct (workers r !! id) as [[]|]; try done).
  - injection E as <-. by destruct (interrupted r).
  - injection E as <-. cbn [exited]. by apply lookup_app_l_Some.
  - by injection E as <-.
  - injection E as <-. apply Hb.
  - destruct (closed r); [|done]. by injection E as <-.
  - by injection E as <-.
  - destruct (exited r !! n0) as [[|]|]; try done. by injection E as <-.
  - by injection E as <-.
  - by injection E as <-.
  - destruct (m <? length (exited r))%nat; [|done]. injection E as <-. apply Hb.
  - injection E as <-. by destruct (interrupted r).
  - destruct (shutdown r); try done. by injection E as <-.
  - destruct (shutdown r); try done. injection E as <-. by apply triggered_keeps.
  - by injection E as <-.
  - injection E as <-. unfold FlagsChanged. case_match; [done|by apply Restart_keeps].
  - injection E as <-. unfold Ping. destruct ok; [done|by apply Restart_keeps].
  - injection E as <-. by apply Restart_keeps.
Qed.

Lemma exited_stays_run l : ∀ r r' n, run l r = Some r' → exited r !! n = Some true → exited r' !! n = Some true.
Proof.
  induction l as [|s l IH]; intros r r' n E Hn; cbn [run] in E; [by simplify_eq|].
  destruct (perform s r) as [r1|] eqn:E1; [|done]. eapply IH; [exact E|]. by eapply exited_stays.
Qed.

(** A restart that is pending is cleared only by a restart. *)
Lemma clears_pending s r r' n : inv r → needsRestart r = true → live r n → perform s r = Some r' →
  needsRestart r' = true ∨ exited r' !! n = Some true.
Proof.
  intros Hr Hp Hn E. destruct (inv_live r Hr n Hn) as (id0 & p & Hp0 & Hh).
  destruct (inv_holds r Hr id0 p n Hp0 Hh) as [Hi Hlt].
  assert (HR : needsRestart (Restart r) = true ∨ exited (Restart r) !! n = Some true).
  { unfold Restart. destruct (inModernStandby r); [by left|]. right.
    by apply (triggered (with_restart false r) n id0). }
  destruct s as [id|id|id|id|id|id|id|id|id|m| | | |b|keys|ok|]; cbn [perform] in E;
    try (destruct (workers r !! id) as [[]|]; try done); try (injection E as <-; by left).
  - injection E as <-. left. by destruct (interrupted r).
  - destruct (closed r); [|done]. injection E as <-. by left.
  - destruct (exited r !! n0) as [[|]|]; try done. injection E as <-. by left.
  - destruct (m <? length (exited r))%nat; [|done]. injection E as <-. by left.
  - injection E as <-. left. by destruct (interrupted r).
  - destruct (shutdown r); try done. injection E as <-. by left.
  - destruct (shutdown r); try done. injection E as <-. by left.
  - injection E as <-. unfold FlagsChanged. case_match; [by left|exact HR].
  - injection E as <-. unfold Ping. destruct ok; [by left|exact HR].
  - injection E as <-. exact HR.
Qed.

(** A pending restart stays pending until the instances of its time have been told to exit. *)
Lemma pending_kept l r r' n :
  reachable r → needsRestart r = true → live r n → run l r = Some r' →
  (needsRestart r' = true ∨ exited r' !! n = Some true) ∧
  (inModernStandby r' = false → exited (FlagsChanged [InModernStandby] r') !! n = Some true).
Proof.
  intros Hr Hp Hn E.
  assert (Hl : exited r' !! n = Some true ∨ needsRestart r' = true ∧ live r' n).
  { revert r Hr Hp Hn E. induction l as [|s l IH]; intros r Hr Hp Hn E; cbn [run] in E; [simplify_eq; by right|].
    destruct (perform s r) as [r1|] eqn:E1; [|done]. cbn [mbind option_bind] in E.
    destruct (exited r1 !! n) as [[|]|] eqn:Ex.
    - left. by eapply exited_stays_run.
    - destruct (clears_pending s r r1 n (runner_reachable_inv _ Hr) Hp Hn E1) as [Hp1|]; [|congruence].
      apply (IH r1); [|done..]. apply (reachable_run [s] r); [done|]. cbn [run]. by rewrite E1.
    - exfalso. assert (Hlt : (n < length (exited r1))%nat); [|apply lookup_lt_is_Some_2 in Hlt as [? ?]; congruence].
      pose proof (lookup_lt_Some _ _ _ Hn). enough (length (exited r) <= length (exited r1))%nat by lia.
      clear -E1. assert (Ht : ∀ r0, length (exited (triggerShutdownForInstances r0)) = length (exited r0))
        by (intros; apply length_imap).
      assert (HR : length (exited (Restart r)) = length (exited r)) by (unfold Restart; destruct (inModernStandby r); [done|exact (Ht (with_restart false r))]).
      destruct s as [id|id|id|id|id|id|id|id|id|m| | | |b|keys|ok|]; cbn [perform] in E1;
        try (destruct (workers r !! id) as [[]|]; try done); repeat (case_match; try done); simplify_eq; try done.
      all: cbn [exited BeginShutdown with_worker with_exited]; rewrite ?length_app, ?length_insert, ?Ht; try lia.
      all: unfold FlagsChanged, Ping; repeat case_match; lia. }
  split; [destruct Hl as [|[]]; auto|]. intros Hs.
  destruct Hl as [Hx|[Hp' Hn']].
  - unfold FlagsChanged. case_match; [done|by apply Restart_keeps].
  - unfold FlagsChanged. rewrite Hp', andb_false_r. unfold Restart. rewrite Hs.
    pose proof (runner_reachable_inv _ (reachable_run l r r' Hr E)) as Hr'.
    destruct (inv_live r' Hr' n Hn') as (id & p & Hq & Hh). destruct (inv_holds r' Hr' id p n Hq Hh) as [Hi Hlt].
    by apply (triggered (with_restart false r') n id).
Qed.

(** The calls that restart the instances *)
Definition asks_restart (s : step) : Prop :=
  match s with
  | DoRestart | DoPing false => True
  | DoFlagsChanged flagKeys => flagKeys ≠ [InModernStandby]
  | _ => False
  end.

Lemma asked_in_standby s r : asks_restart s → inModernStandby r = true → perform s r = Some (with_restart true r).
Proof.
  intros Hs Hst. assert (HR : Restart r = with_restart true r) by (unfold Restart; by rewrite Hst).
  destruct s as [id|id|id|id|id|id|id|id|id|m| | | |b|keys|[|]|]; try done; cbn [perform]; f_equal; [|done..].
  unfold FlagsChanged. by rewrite bool_decide_eq_false_2.
Qed.

(** C25: A restart asked for in modern standby, by a call of [Restart], a change of flags other than that of
    the standby alone or a [Ping] whose reload fails, is not lost: whatever steps follow, it stays pending
    until every instance that ran when it was asked for has exited or been told to; and the notification of
    a change of the standby alone, when the standby is over by then, tells them to if they still run. *)
Theorem pending_restart_kept s l r r' n :
  reachable r → inModernStandby r = true → live r n → asks_restart s → run (s :: l) r = Some r' →
  (needsRestart r' = true ∨ exited r' !! n = Some true) ∧
  (inModernStandby r' = false → exited (FlagsChanged [InModernStandby] r') !! n = Some true).
Proof.
  intros Hr Hst Hn Hs E. cbn [run] in E. pose proof (asked_in_standby s r Hs Hst) as Hp. rewrite Hp in E.
  apply (pending_kept l (with_restart true r) r' n); [|done..].
  apply (reachable_run [s] r); [done|]. cbn [run]. by rewrite Hp.
Qed.

(** ** Shutdown *)

(** Nothing lives, and nothing comes alive any more. *)
Definition quiet (r : runner) : Prop :=
  interrupted r = true ∧ closed r = true ∧ (∀ n, ¬ live r n) ∧ ∀ id, workers r !! id ≠ Some Add.

Lemma quiet_with_worker id p r : quiet r → p ≠ Add → quiet (with_worker id p r).
Proof.
  intros (Hi & Hc & Hl & Ha) Hp. split_and!; [done..|]. intros id'. cbn [with_worker workers].
  destruct (decide (id = id')) as [<-|Hne]; [rewrite lookup_insert_eq; congruence|by rewrite lookup_insert_ne].
Qed.

Lemma quiet_exits e r : (∀ n, e !! n = Some false → exited r !! n = Some false) → quiet r → quiet (with_exited e r).
Proof. intros He (Hi & Hc & Hl & Ha). split_and!; [done..| |done]. intros n Hn. by apply (Hl n), He. Qed.

Lemma quiet_BeginShutdown n r : quiet r → quiet (BeginShutdown n r).
Proof.
  apply quiet_exits. intros m Hm. destruct (decide (n = m)) as [<-|Hne]; [|by rewrite list_lookup_insert_ne in Hm].
  destruct (decide (n < length (exited r))%nat) as [Hlt|Hge]; [by rewrite list_lookup_insert_eq in Hm|].
  apply lookup_lt_Some in Hm. rewrite length_insert in Hm. lia.
Qed.

Lemma trigger_alive r n : exited (triggerShutdownForInstances r) !! n = Some false → exited r !! n = Some false.
Proof.
  cbn [triggerShutdownForInstances with_exited exited]. rewrite list_lookup_imap.
  by destruct (exited r !! n) as [[|]|].
Qed.

Lemma quiet_Restart r : quiet r → quiet (Restart r).
Proof. intros Hq. unfold Restart. destruct (inModernStandby r); [done|]. apply quiet_exits; [apply (trigger_alive (with_restart false r))|done]. Qed.

Lemma quiet_perform s r r' : quiet r → perform s r = Some r' → quiet r'.
Proof.
  intros Hq E. pose proof Hq as (Hi & Hc & Hl & Ha).
  destruct s as [id|id|id|id|id|id|id|id|id|m| | | |b|keys|ok|]; cbn [perform] in E;
    try (destruct (workers r !! id) as [[]|] eqn:Hw; try done).
  - injection E as <-. rewrite Hi. by apply quiet_with_worker.
  - by destruct (Ha id).
  - injection E as <-. by apply quiet_with_worker.
  - injection E as <-. apply quiet_with_worker; [by apply quiet_BeginShutdown|done].
  - destruct (closed r); [|done]. injection E as <-. by apply quiet_with_worker.
  - injection E as <-. by apply quiet_with_worker.
  - destruct (exited r !! n) as [[|]|]; try done. injection E as <-. by apply quiet_with_worker.
  - injection E as <-. apply quiet_with_worker; [done|]. by destruct (closed r).
  - injection E as <-. by apply quiet_with_worker.
  - destruct (m <? length (exited r))%nat; [|done]. injection E as <-. by apply quiet_BeginShutdown.
  - injection E as <-. by rewrite Hi.
  - destruct (shutdown r); try done. injection E as <-. by split_and!.
  - destruct (shutdown r); try done. injection E as <-. split_and!; [done..| |done].
    intros n Hn. apply (Hl n), trigger_alive, Hn.
  - injection E as <-. by split_and!.
  - injection E as <-. unfold FlagsChanged. case_match; [done|by apply quiet_Restart].
  - injection E as <-. unfold Ping. destruct ok; [done|by apply quiet_Restart].
  - injection E as <-. by apply quiet_Restart.
Qed.

Lemma quiet_run l : ∀ r r', quiet r → run l r = Some r' → quiet r'.
Proof.
  induction l as [|s l IH]; intros r r' Hq E; cbn [run] in E; [by simplify_eq|].
  destruct (perform s r) as [r1|] eqn:E1; [|done]. eapply IH; [|exact E]. by eapply quiet_perform.
Qed.

(** What a worker of a quiet runner does until it stops *)
Definition rest_of (id : bytes) (p : place) : list step :=
  match p with
  | Check => [CheckInterrupted id]
  | Launching n => [LaunchFailed id; RetryStops id]
  | Retry => [RetryStops id]
  | Watch n => [SeesExit id; Decides id]
  | Decide => [Decides id]
  | Wait => [Waited id; CheckInterrupted id]
  | Add | Stopped _ => []
  end.

Lemma stop_worker id p r : inv r → quiet r → workers r !! id = Some p →
  ∃ r' e, run (rest_of id p) r = Some r' ∧ workers r' = <[id := Stopped e]> (workers r).
Proof.
  intros Hr (Hi & Hc & Hl & Ha) Hp.
  destruct p as [| |n| |n| | |e]; cbn [rest_of run perform].
  - rewrite Hp. cbn [mbind option_bind]. rewrite Hi. by eexists _, _.
  - by destruct (Ha id).
  - rewrite Hp. cbn [mbind option_bind with_worker workers BeginShutdown with_exited closed]. rewrite lookup_insert_eq, Hc.
    cbn [mbind option_bind]. eexists _, _. split; [reflexivity|]. cbn [with_worker workers]. by rewrite insert_insert_eq.
  - rewrite Hp, Hc. cbn [mbind option_bind]. by eexists _, _.
  - rewrite Hp. destruct (inv_holds r Hr id _ n Hp eq_refl) as [_ Hn]. apply lookup_lt_is_Some_2 in Hn as [b Hb].
    rewrite Hb. destruct b; [|by destruct (Hl n)]. cbn [mbind option_bind with_worker workers closed]. rewrite lookup_insert_eq, Hc.
    cbn [mbind option_bind]. eexists _, _. split; [reflexivity|]. cbn [with_worker workers]. by rewrite insert_insert_eq.
  - rewrite Hp, Hc. cbn [mbind option_bind]. by eexists _, _.
  - rewrite Hp. cbn [mbind option_bind with_worker workers interrupted]. rewrite lookup_insert_eq, Hi.
    cbn [mbind option_bind]. eexists _, _. split; [reflexivity|]. cbn [with_worker workers]. by rewrite insert_insert_eq.
  - exists r, e. split; [done|]. by rewrite insert_id.
Qed.

Definition all_stopped (r : runner) : Prop := ∀ id p, workers r !! id = Some p → ∃ e, p = Stopped e.

Lemma stop_workers (ids : list bytes) : ∀ r, inv r → quiet r → ∃ l r', run l r = Some r' ∧ inv r' ∧ quiet r' ∧
  (∀ id : bytes, id ∈ ids → ∀ p, workers r' !! id = Some p → ∃ e, p = Stopped e) ∧
  (∀ id : bytes, id ∉ ids → workers r' !! id = workers r !! id).
Proof.
  induction ids as [|id ids IH]; intros r Hr Hq.
  { exists [], r. split_and!; try done. intros id Hin. by apply not_elem_of_nil in Hin. }
  destruct (IH r Hr Hq) as (l & r1 & E1 & Hr1 & Hq1 & H1 & H2).
  destruct (workers r1 !! id) as [p|] eqn:Hp.
  - destruct (stop_worker id p r1 Hr1 Hq1 Hp) as (r2 & e & E2 & Hw).
    exists (l ++ rest_of id p), r2. rewrite runner_run_app, E1. cbn [mbind option_bind].
    split_and!; [done|by eapply runner_inv_run|by eapply quiet_run| |].
    + intros id' Hin q Hq'. rewrite Hw in Hq'. destruct (decide (id = id')) as [<-|Hne].
      * rewrite lookup_insert_eq in Hq'. injection Hq' as <-. by exists e.
      * rewrite lookup_insert_ne in Hq' by done. apply elem_of_cons in Hin as [->|Hin]; [done|]. by apply (H1 id').
    + intros id' Hin. apply not_elem_of_cons in Hin as [Hne Hin]. rewrite Hw, lookup_insert_ne by done. by apply H2.
  - exists l, r1. split_and!; [done..| |].
    + intros id' Hin q Hq'. apply elem_of_cons in Hin as [->|Hin]; [congruence|by apply (H1 id')].
    + intros id' Hin. apply not_elem_of_cons in Hin as [Hne Hin]. by apply H2.
Qed.

(** C24: When Shutdown ends while no worker is about to make an instance, then no instance lives from then on, whatever
    else is called, and from every later state all workers can stop, so that Run returns. *)
Theorem Shutdown_stops r r' :
  reachable r → perform ShutdownTrigger r = Some r' → (∀ id, workers r !! id ≠ Some Add) →
  ∀ l r'', run l r' = Some r'' → (∀ n, ¬ live r'' n) ∧ ∃ l' r3, run l' r'' = Some r3 ∧ all_stopped r3.
Proof.
  intros Hr E Ha l r'' E'. pose proof (runner_reachable_inv r Hr) as Hinv.
  assert (Hinv' : inv r') by (by eapply inv_perform).
  assert (Hq : quiet r').
  { cbn [perform] in E. destruct (shutdown r) eqn:Es; try done. injection E as <-.
    split_and!; [cbn; by rewrite (inv_interrupted r Hinv), Es|cbn; by rewrite (inv_closed r Hinv), Es| |done].
    intros n Hn. unfold live in Hn. cbn [exited] in Hn. pose proof (trigger_alive r n Hn) as Hlive.
    destruct (inv_live r Hinv n Hlive) as (id & p & Hp & Hh). destruct (inv_holds r Hinv id p n Hp Hh) as [Hi Hlt].
    pose proof (triggered r n id Hi Hlt) as Ht.
    assert (Some false = Some true) as [=]. transitivity (exited (triggerShutdownForInstances r) !! n); [symmetry; exact Hn|exact Ht]. }
  assert (Hq'' : quiet r'') by (by eapply quiet_run). split; [apply Hq''|].
  destruct (stop_workers (map_to_list (workers r'')).*1 r'') as (l' & r3 & E3 & _ & _ & Hs & Hk); [by eapply runner_inv_run|done|].
  exists l', r3. split; [done|]. intros id p Hp.
  destruct (decide (id ∈ (map_to_list (workers r'')).*1)) as [Hin|Hin]; [by apply (Hs id)|].
  exfalso. rewrite (Hk id Hin) in Hp. apply Hin, list_elem_of_fmap. exists (id, p). split; [done|]. by apply elem_of_map_to_list.
Qed.

(** *** The race *)

Definition race (id : bytes) : list step :=
  [CheckInterrupted id; ShutdownSwap; ShutdownClose; ShutdownTrigger; AddInstance id; Launched id].

Lemma race_ends id standby :
  run (race id) (New [id] standby) = Some (Run_ {[id := Watch 0]} {[id := 0%nat]} [false] true true Complete standby false).
Proof.
  unfold race, New. cbn [run map list_to_map foldr fst snd].
  cbn [perform workers]. rewrite lookup_insert_eq.
  cbn [mbind option_bind interrupted with_worker workers instances exited closed shutdown inModernStandby needsRestart perform
       triggerShutdownForInstances with_exited imap length app].
  rewrite lookup_insert_eq. cbn [mbind option_bind workers]. rewrite lookup_insert_eq. cbn [mbind option_bind with_worker].
  rewrite !insert_insert_eq. unfold with_worker. cbn [workers]. by rewrite insert_insert_eq.
Qed.

(** Shutdown is complete, and the one worker watches an instance that lives. *)
Definition stranded (id : bytes) (r : runner) : Prop :=
  shutdown r = Complete ∧ interrupted r = true ∧ workers r = {[id := Watch 0]} ∧ live r 0.

(** The steps that could still end the instance: its own exit, and restarts *)
Definition rescues (s : step) : bool :=
  match s with InstanceExits _ | DoFlagsChanged _ | DoPing _ | DoRestart => true | _ => false end.

Lemma stranded_stays id0 s r r' : rescues s = false → stranded id0 r → perform s r = Some r' → stranded id0 r'.
Proof.
  intros Hs (Hc & Hi & Hw & Hl) E.
  assert (Hid : ∀ id p, workers r !! id = Some p → p = Watch 0).
  { intros id p. rewrite Hw. by intros [_ <-]%lookup_singleton_Some. }
  destruct s as [id|id|id|id|id|id|id|id|id|m| | | |b|keys|ok|]; try done; cbn [perform] in E;
    try (destruct (workers r !! id) as [p|] eqn:Hp; [rewrite (Hid id p Hp) in E|]; done).
  - destruct (workers r !! id) as [p|] eqn:Hp; [|done]. rewrite (Hid id p Hp) in E. unfold live in Hl. by rewrite Hl in E.
  - injection E as <-. by rewrite Hi.
  - by rewrite Hc in E.
  - by rewrite Hc in E.
  - injection E as <-. done.
Qed.

(** C23: Shutdown can miss an instance: between the worker's look at [interrupted] and its entry in the map the whole of
    Shutdown fits.  Then the instance is launched and watched after Shutdown has returned, and as long as it does
    not exit by itself and no restart, change of flags or ping comes, the worker never stops; calling Shutdown again
    does nothing. *)
Theorem Shutdown_misses_launch id standby :
  ∃ r, run (race id) (New [id] standby) = Some r ∧ stranded id r ∧
    ∀ l r', forallb (λ s, negb (rescues s)) l = true → run l r = Some r' → stranded id r' ∧ ¬ all_stopped r'.
Proof.
  eexists. split; [apply race_ends|]. set (r := Run_ _ _ _ _ _ _ _ _).
  assert (H0 : stranded id r) by done. split; [exact H0|]. clearbody r. intros l. revert r H0.
  induction l as [|s l IH]; intros r H0 r' Hl E; cbn [run forallb] in *.
  - injection E as <-. split; [done|]. intros Hall. destruct H0 as (_ & _ & Hw & _).
    destruct (Hall id (Watch 0)); [by rewrite Hw, lookup_singleton_eq|done].
  - apply andb_prop in Hl as [Hs Hl]. destruct (perform s r) as [r1|] eqn:E1; [|done].
    apply (IH r1); [|done..]. by apply (stranded_stays id s r r1); [apply negb_true_iff|..].
Qed.

(** *** Witnesses *)

(** One worker watches its first instance. *)
Definition start (id : bytes) : list step := [CheckInterrupted id; AddInstance id; Launched id].

Lemma started id standby :
  run (start id) (New [id] standby) = Some (Run_ {[id := Watch 0]} {[id := 0%nat]} [false] false false NotCalled standby false).
Proof.
  unfold start, New. cbn [run map list_to_map foldr fst snd].
  cbn [perform workers]. rewrite lookup_insert_eq.
  cbn [mbind option_bind interrupted with_worker workers instances exited closed shutdown inModernStandby needsRestart perform length app].
  rewrite lookup_insert_eq. cbn [mbind option_bind workers]. rewrite lookup_insert_eq. cbn [mbind option_bind].
  rewrite !insert_insert_eq. unfold with_worker. cbn [workers]. by rewrite insert_insert_eq.
Qed.

Lemma started_reachable id standby l r :
  run l (Run_ {[id := Watch 0]} {[id := 0%nat]} [false] false false NotCalled standby false) = Some r → reachable r.
Proof. intros E. exists [id], standby, (start id ++ l). by rewrite runner_run_app, started. Qed.

Lemma one_instance_witness :
  let id := bs "default" in
  ∃ id' p, workers (Run_ {[id := Watch 0]} {[id := 0%nat]} [false] false false NotCalled false false) !! id' = Some p ∧
    holds p = Some 0%nat.
Proof.
  intros id.
  destruct (one_instance (Run_ {[id := Watch 0]} {[id := 0%nat]} [false] false false NotCalled false false) 0) as (id' & p & H1 & H2 & _);
    [by apply (started_reachable id false [])|done|by exists id', p].
Defined.

Lemma pending_restart_kept_witness :
  let id := bs "default" in
  let r := Run_ {[id := Watch 0]} {[id := 0%nat]} [false] false false NotCalled true false in
  ∃ r', run [DoRestart; Standby false] r = Some r' ∧ exited (FlagsChanged [InModernStandby] r') !! 0%nat = Some true.
Proof.
  intros id r. eexists. split; [reflexivity|].
  refine (proj2 (pending_restart_kept DoRestart [Standby false] r _ 0 (started_reachable id true [] r eq_refl)
    eq_refl eq_refl I eq_refl) eq_refl).
Defined.

Lemma Shutdown_stops_witness :
  let id := bs "default" in
  let r := Run_ {[id := Watch 0]} {[id := 0%nat]} [false] true true Closed false false in
  ∃ r', perform ShutdownTrigger r = Some r' ∧ ∃ l' r3, run l' r' = Some r3 ∧ all_stopped r3.
Proof.
  intros id r. eexists. split; [reflexivity|].
  assert (run [ShutdownSwap; ShutdownClose] (Run_ {[id := Watch 0]} {[id := 0%nat]} [false] false false NotCalled false false) = Some r)
    as E1 by reflexivity.
  assert (Ha : ∀ id', workers r !! id' ≠ Some Add) by (intros id' Hw; cbn [r workers] in Hw; by apply lookup_singleton_Some in Hw as [_ [=]]).
  exact (proj2 (Shutdown_stops r _ (started_reachable id false _ _ E1) eq_refl Ha [] _ eq_refl)).
Defined.
End Runner.
