(* ===== verification/Paths.v ===== *)
(** * path/filepath on a Unix host: [Clean], [Join], [Base]

    A path is cleaned through the stack of its components; the lemmas relate prefixes of
    cleaned paths to prefixes of stacks. *)
From S2P Require Import Prelude Json.
Set Warnings "-clear-no-such-hyp".

Definition Separator : byte := x2f.
Definition dot : bytes := bs ".".
Definition dotdot : bytes := bs "..".

(** The pieces of [s] between separators *)
Fixpoint components (s : bytes) : list bytes :=
  match s with
  | [] => [[]]
  | b :: s' =>
      if b =b Separator then [] :: components s'
      else match components s' with c :: cs => (b :: c) :: cs | [] => [[b]] end
  end.

(** One component met by [Clean]: [st] is the cleaned path so far, last component first *)
Definition push (rooted : bool) (st : list bytes) (c : bytes) : list bytes :=
  if bool_decide (c = [] ∨ c = dot) then st
  else if bool_decide (c = dotdot) then
    match st with
    | [] => if rooted then [] else [c]
    | t :: st' => if bool_decide (t = dotdot) then c :: st else st'
    end
  else c :: st.

Definition rooted (p : bytes) : bool := match p with b :: _ => b =b Separator | [] => false end.

Definition stack (r : bool) (st : list bytes) (p : bytes) : list bytes := foldl (push r) st (components p).

Definition render (r : bool) (st : list bytes) : bytes :=
  let out := join [Separator] (reverse st) in
  if r then Separator :: out else match st with [] => dot | _ => out end.

Definition Clean (p : bytes) : bytes :=
  match p with [] => dot | _ => render (rooted p) (stack (rooted p) [] p) end.

(** [Join] ignores the empty elements before the first other one *)
Fixpoint Join (elem : list bytes) : bytes :=
  match elem with
  | [] => []
  | [] :: elem' => Join elem'
  | _ => Clean (join [Separator] elem)
  end.

(** [Base]: the last component, once the trailing separators are gone *)
Fixpoint trim_seps (p : bytes) : bytes :=
  match p with b :: p' => if b =b Separator then trim_seps p' else p | [] => [] end.

Definition Base (p : bytes) : bytes :=
  match p with
  | [] => dot
  | _ =>
      match default [] (last (components (reverse (trim_seps (reverse p))))) with
      | [] => [Separator]
      | c => c
      end
  end.

Example Clean_tests : map Clean [bs ""; bs "/"; bs "a//b/./c/.."; bs "/../x"; bs "../../x/../y"; bs "a/.."] =
  [bs "."; bs "/"; bs "a/b"; bs "/x"; bs "../../y"; bs "."].
Proof. vm_compute. reflexivity. Qed.

Example Base_tests : map Base [bs ""; bs "/"; bs "a/b"; bs "/a/b//"; bs "b"] =
  [bs "."; bs "/"; bs "b"; bs "b"; bs "b"].
Proof. vm_compute. reflexivity. Qed.

(** ** Facts *)

(** A component as [Clean] leaves it *)
Definition plain (c : bytes) : Prop := c ≠ [] ∧ c ≠ dot ∧ Separator ∉ c.
(** ... in a rooted path *)
Definition name (c : bytes) : Prop := plain c ∧ c ≠ dotdot.

Lemma components_app a b : components (a ++ Separator :: b) = components a ++ components b.
Proof.
  induction a as [|c a IH]; cbn [app components]; [by rewrite eqb_refl|].
  destruct (c =b Separator); [by rewrite IH|]. rewrite IH.
  assert (components a ≠ []) by (destruct a as [|x a']; cbn; [done|destruct (x =b _); [done|by destruct (components a')]]).
  by destruct (components a).
Qed.

Lemma components_nosep c : Separator ∉ c → components c = [c].
Proof.
  induction c as [|b c IH]; intros Hc; [done|]. cbn [components].
  apply not_elem_of_cons in Hc as [Hb Hc]. rewrite (IH Hc).
  destruct (b =b Separator) eqn:E; [|done]. by apply eqb_eq in E.
Qed.

Lemma elem_of_components c p : c ∈ components p → Separator ∉ c.
Proof.
  revert c. induction p as [|b p IH]; cbn [components]; intros c.
  { rewrite list_elem_of_singleton. intros ->. apply not_elem_of_nil. }
  destruct (b =b Separator) eqn:E.
  { rewrite elem_of_cons. intros [->|Hc]; [apply not_elem_of_nil|by apply IH]. }
  destruct (components p) as [|c' cs] eqn:Ec.
  - rewrite list_elem_of_singleton. intros -> Hc. apply list_elem_of_singleton in Hc as <-. by rewrite eqb_refl in E.
  - rewrite elem_of_cons. intros [->|Hc]; [|apply IH; set_solver].
    intros Hs. apply elem_of_cons in Hs as [<-|Hs]; [by rewrite eqb_refl in E|]. revert Hs. apply IH. set_solver.
Qed.

Lemma components_join l : l ≠ [] → Forall (λ c, Separator ∉ c) l → components (join [Separator] l) = l.
Proof.
  induction l as [|c l IH]; [done|]. intros _ [Hc Hl]%Forall_cons.
  destruct l as [|d l]; [by apply components_nosep|].
  change (join [Separator] (c :: d :: l)) with (c ++ Separator :: join [Separator] (d :: l)).
  rewrite components_app, components_nosep by done. cbn [app]. by rewrite IH.
Qed.

Lemma stack_app r st a b : stack r st (a ++ Separator :: b) = stack r (stack r st a) b.
Proof. unfold stack. by rewrite components_app, foldl_app. Qed.

Lemma push_plain r st c : Separator ∉ c → Forall plain st → Forall plain (push r st c).
Proof.
  intros Hc Hst. unfold push. case_bool_decide as H1; [done|]. case_bool_decide as H2.
  - assert (plain c) by (subst; by split_and!).
    destruct st as [|t st]; [destruct r; [done|by constructor]|].
    apply Forall_cons in Hst as [Ht Hst]. case_bool_decide; [|done]. constructor; [done|by constructor].
  - constructor; [|done]. unfold plain. naive_solver.
Qed.

Lemma push_name st c : Separator ∉ c → Forall name st → Forall name (push true st c).
Proof.
  intros Hc Hst. unfold push. case_bool_decide as H1; [done|]. case_bool_decide as H2.
  - destruct st as [|t st]; [done|]. apply Forall_cons in Hst as [Ht Hst].
    rewrite bool_decide_eq_false_2 by apply Ht. done.
  - constructor; [|done]. unfold name, plain. naive_solver.
Qed.

Lemma stack_plain r st p : Forall plain st → Forall plain (stack r st p).
Proof.
  unfold stack. pose proof (elem_of_components) as Hc. specialize (λ c, Hc c p). revert st Hc.
  induction (components p) as [|c cs IH]; intros st Hc Hst; [done|]. cbn [foldl].
  apply IH; [set_solver|]. apply push_plain; [apply Hc; set_solver|done].
Qed.

Lemma stack_name st p : Forall name st → Forall name (stack true st p).
Proof.
  unfold stack. pose proof (elem_of_components) as Hc. specialize (λ c, Hc c p). revert st Hc.
  induction (components p) as [|c cs IH]; intros st Hc Hst; [done|]. cbn [foldl].
  apply IH; [set_solver|]. apply push_name; [apply Hc; set_solver|done].
Qed.

(** Pushing names puts them on the stack. *)
Lemma push_name_on r st c : name c → push r st c = c :: st.
Proof.
  intros [(H1 & H2 & H3) H4]. unfold push. rewrite !bool_decide_eq_false_2; naive_solver.
Qed.

Lemma foldl_push_names r st l : Forall name l → foldl (push r) st l = reverse l ++ st.
Proof.
  revert st. induction l as [|c l IH]; intros st Hl; [done|]. apply Forall_cons in Hl as [Hc Hl].
  cbn [foldl]. rewrite push_name_on, IH by done. by rewrite reverse_cons, <- app_assoc.
Qed.

(** A cleaned absolute path, pushed on any stack, adds its own components. *)
Lemma stack_render r st d : Forall name d → stack r st (render true d) = d ++ st.
Proof.
  intros Hd. unfold stack, render. cbn [components]. rewrite eqb_refl. cbn [foldl].
  change (push r st []) with st. destruct d as [|c d]; [done|].
  rewrite components_join, foldl_push_names.
  - by rewrite reverse_involutive.
  - apply Forall_reverse, Hd.
  - intros Hn. apply (f_equal length) in Hn. by rewrite length_reverse in Hn.
  - apply Forall_reverse. eapply Forall_impl; [exact Hd|]. intros x Hx. apply Hx.
Qed.

Lemma components_not_nil p : components p ≠ [].
Proof. destruct p as [|b p]; cbn [components]; [done|]. destruct (b =b Separator); [done|by destruct (components p)]. Qed.

Lemma join_app l q : l ≠ [] → q ≠ [] →
  join [Separator] (l ++ q) = join [Separator] l ++ Separator :: join [Separator] q.
Proof.
  intros Hl Hq. induction l as [|c l IH]; [done|]. destruct l as [|d l].
  - by destruct q.
  - change (join [Separator] ((c :: d :: l) ++ q)) with (c ++ Separator :: join [Separator] ((d :: l) ++ q)).
    rewrite IH by done.
    change (join [Separator] (c :: d :: l)) with (c ++ Separator :: join [Separator] (d :: l)).
    by rewrite <- app_assoc.
Qed.

Lemma join_prefix l l' k : l ≠ [] → Forall (λ c, Separator ∉ c) l → Forall (λ c, Separator ∉ c) l' →
  join [Separator] l' = join [Separator] l ++ Separator :: k → ∃ q, q ≠ [] ∧ l' = l ++ q.
Proof.
  intros Hl Hpl Hpl' Hk. exists (components k). split; [apply components_not_nil|].
  assert (l' ≠ []) by (intros ->; by destruct (join [Separator] l)).
  rewrite <- (components_join l'), Hk, components_app, components_join by done. done.
Qed.

Lemma plain_nosep l : Forall plain l → Forall (λ c, Separator ∉ c) (reverse l).
Proof. intros Hl. apply Forall_reverse. eapply Forall_impl; [exact Hl|]. intros x Hx. apply Hx. Qed.

Lemma reverse_not_nil {A} (l : list A) : l ≠ [] → reverse l ≠ [].
Proof. intros Hl Hn. apply (f_equal length) in Hn. rewrite length_reverse in Hn. by destruct l. Qed.

(** A cleaned path with a separator after it is a prefix of another one, both absolute or both
    relative, just when the second lies strictly below the first. *)
Lemma render_below r st st' : Forall plain st → Forall plain st' →
  has_prefix (render r st ++ [Separator]) (render r st') = true ↔
  st ≠ [] ∧ ∃ q, q ≠ [] ∧ reverse st' = reverse st ++ q.
Proof.
  intros Hst Hst'. rewrite has_prefix_spec. pose proof (plain_nosep _ Hst) as Hn.
  pose proof (plain_nosep _ Hst') as Hn'. split.
  - intros [k Hk]. rewrite <- app_assoc in Hk. cbn [app] in Hk. destruct st as [|c st].
    + exfalso. destruct st' as [|c' st']; [by destruct r|].
      assert (Hj : ∃ a, (a = [] ∨ a = dot) ∧ join [Separator] (reverse (c' :: st')) = a ++ Separator :: k).
      { destruct r; [|exists dot; split; [by right|exact Hk]]. exists []. split; [by left|]. by injection Hk. }
      destruct Hj as (a & Ha & Hj). destruct (join_prefix [a] (reverse (c' :: st')) k) as (q & _ & Hq); try done.
      { constructor; [|done]. destruct Ha as [-> | ->]; [apply not_elem_of_nil|]. by intros [?|?%elem_of_nil]%elem_of_cons. }
      assert (Hin : a ∈ c' :: st') by (rewrite <- elem_of_reverse, Hq; set_solver).
      rewrite Forall_forall in Hst'. destruct (Hst' a Hin) as (? & ? & _). naive_solver.
    + split; [done|]. apply (join_prefix _ _ k); [by apply reverse_not_nil|done|done|].
      destruct r; [by injection Hk|]. destruct st' as [|c' st']; [|exact Hk]. exfalso.
      apply (f_equal components) in Hk. cbn [render] in Hk.
      rewrite components_app, components_join in Hk; [|by apply reverse_not_nil|done].
      change (components dot) with [dot] in Hk. apply (f_equal length) in Hk.
      rewrite length_app, length_reverse in Hk. cbn in Hk.
      pose proof (components_not_nil k). destruct (components k); [done|]. cbn in Hk. lia.
  - intros (Hne & q & Hq & Hr). exists (join [Separator] q).
    assert (Hj : join [Separator] (reverse st') = join [Separator] (reverse st) ++ Separator :: join [Separator] q)
      by (rewrite Hr; apply join_app; [by apply reverse_not_nil|done]).
    unfold render. rewrite Hj. rewrite <- app_assoc. destruct r; [done|].
    destruct st as [|c st]; [done|]. destruct st' as [|c' st']; [|done].
    apply (f_equal length) in Hr. rewrite length_app, !length_reverse in Hr. cbn in Hr. lia.
Qed.

(** [Join] of two elements *)
Lemma Join_pair d f : d ≠ [] →
  Join [d; f] = render (rooted d) (stack (rooted d) (stack (rooted d) [] d) f).
Proof.
  intros Hd. destruct d as [|b d]; [done|]. rewrite <- stack_app. reflexivity.
Qed.

Lemma Clean_stack d : d ≠ [] → Clean d = render (rooted d) (stack (rooted d) [] d).
Proof. by destruct d. Qed.

(** A name joined to a directory comes after the same bytes whatever the name. *)
Lemma Join_name d : ∃ pre, ∀ f, name f → Join [d; f] = pre ++ f.
Proof.
  destruct d as [|b d].
  { exists []. intros f [(H1 & H2 & H3) H4]. cbn [Join]. destruct f as [|c f]; [done|].
    cbn [Join join]. unfold Clean, stack. rewrite components_nosep by done. cbn [foldl].
    rewrite push_name_on by done. assert (rooted (c :: f) = false) as ->; [|done].
    cbn [rooted]. destruct (c =b Separator) eqn:E; [|done]. apply eqb_eq in E. subst. exfalso. apply H3. left. }
  set (r := rooted (b :: d)). set (st := stack r [] (b :: d)).
  exists (match st with
          | [] => if r then [Separator] else []
          | _ => (if r then [Separator] else []) ++ join [Separator] (reverse st) ++ [Separator]
          end).
  intros f Hf. rewrite Join_pair by done. fold r st. unfold stack.
  rewrite components_nosep by apply Hf. cbn [foldl]. rewrite push_name_on by done.
  unfold render. rewrite reverse_cons. destruct st as [|c st]; [by destruct r|].
  rewrite join_app by (done || by apply reverse_not_nil). change (join [Separator] [f]) with f.
  destruct r; cbn [app]; by rewrite <- app_assoc.
Qed.
