(* ===== verification/Snake.v ===== *)
(** * pkg/snake: camelCase to snake_case and back

    [CamelToSnake] walks over the runes of the string but cuts its bytes: positions agree as long
    as the string is ASCII, where the walk stays in bounds; elsewhere words are cut in the middle
    of a character, and a string can be found on which the slice is out of range. *)
From S2P Require Import Prelude Json Strings.

(** What the code uses of package unicode and of strings.ToLower and ToUpper, on a rune given by its bytes *)
Class Unicode := {
  IsUpper : bytes → bool;
  runeToUpper : bytes → bytes;
  ToLower : bytes → bytes;
  ToUpper : bytes → bytes;
  IsUpper_byte b : IsUpper [b] = in_range 65 90 b
}.

Module Snake.

(** [[]rune(s)]: an invalid byte is a rune of its own *)
Fixpoint runes_loop (fuel : nat) (s : bytes) : list bytes :=
  match fuel, s with
  | S fuel', _ :: _ => let n := Nat.max 1 (rune_size s) in take n s :: runes_loop fuel' (drop n s)
  | _, _ => []
  end.
Definition runes (s : bytes) : list bytes := runes_loop (length s) s.

Definition commonInitialisms : list bytes := map bs
  ["ACL"; "API"; "ASCII"; "CPU"; "CSS"; "DNS"; "EOF"; "ETA"; "GPU"; "GUID"; "HTML"; "HTTP"; "HTTPS"; "ID"; "IP";
   "JSON"; "LHS"; "OS"; "QPS"; "RAM"; "RHS"; "RPC"; "SLA"; "SMTP"; "SQL"; "SSH"; "TCP"; "TLS"; "TTL"; "UDP"; "UI";
   "UID"; "UUID"; "URI"; "URL"; "UTF8"; "VM"; "XML"; "XMPP"; "XSRF"; "XSS"; "OAuth"]%string.

(** The longest initialism at the front *)
Definition startsWithInitialism (s : bytes) : bytes :=
  foldl (λ initialism i,
    if (i <=? length s)%nat && bool_decide (take i s ∈ commonInitialisms) then take i s else initialism) [] (seq 1 5).

(** [s[i:j]] *)
Definition slice {A} (s : list A) (i j : nat) : res (list A) :=
  if (i <=? j)%nat && (j <=? length s)%nat then Ok (take (j - i) (drop i s)) else Panic.

Section Lib.
Context `{U : Unicode}.

(** The loop, with the position after the last word *)
Fixpoint camel_loop (fuel : nat) (s : bytes) (rs : list bytes) (i lastPos : nat) (words : list bytes)
    : res (list bytes * nat) :=
  match fuel with
  | O => NoFuel
  | S fuel' =>
      match rs !! i with
      | None => Ok (words, lastPos)
      | Some r =>
          if (i =? 0)%nat || negb (IsUpper r) then camel_loop fuel' s rs (S i) lastPos words
          else
            rest ← slice s lastPos (length s);
            match startsWithInitialism rest with
            | [] =>
                word ← slice s lastPos i;
                camel_loop fuel' s rs (S i) i (words ++ [word])
            | initialism =>
                let i := (i + length initialism - 1)%nat in
                camel_loop fuel' s rs (S i) i (words ++ [initialism])
            end
      end
  end.

Definition CamelToSnake (s : bytes) : res bytes :=
  '(words, lastPos) ← camel_loop (S (length (runes s))) s (runes s) 0 0 [];
  rest ← slice s lastPos (length s);
  Ok (ToLower (join (bs "_") (match rest with [] => words | _ => words ++ [rest] end))).

(** [strings.Split(s, "_")] *)
Fixpoint split (sep : byte) (s : bytes) : list bytes :=
  match s with
  | [] => [[]]
  | b :: s' =>
      if b =b sep then [] :: split sep s'
      else match split sep s' with w :: ws => (b :: w) :: ws | [] => [[b]] end
  end.

Definition snakeToCamelException (word : bytes) : option bytes :=
  if bool_decide (word = bs "oauth") then Some (bs "OAuth") else None.

Definition camelWord (shouldCapitalize : bool) (word : bytes) : bytes :=
  match snakeToCamelException word with
  | Some exception => exception
  | None =>
      if shouldCapitalize && bool_decide (ToUpper word ∈ commonInitialisms) then ToUpper word
      else if shouldCapitalize then
        match runes word with r :: rs => concat (runeToUpper r :: rs) | [] => word end
      else word
  end.

Definition convertSnakeToCamel (s : bytes) (upperFirst : bool) : bytes :=
  concat (imap (λ i word, camelWord (upperFirst || (0 <? i)%nat) word) (split x5f s)).

Definition SnakeToCamel (s : bytes) : bytes := convertSnakeToCamel s true.
Definition SnakeToCamelLower (s : bytes) : bytes := convertSnakeToCamel s false.

(** ** Strings of ASCII characters *)
Definition ascii (s : bytes) : Prop := Forall (λ b, byte_Z b < 128) s.

Lemma rune_size_ascii b s : byte_Z b < 128 → rune_size (b :: s) = 0%nat.
Proof.
  intros Hb. unfold rune_size. destruct s as [|c s]; [done|].
  assert (Hr : ∀ lo hi, 128 <= lo → in_range lo hi b = false).
  { intros lo hi Hlo. unfold in_range. apply andb_false_iff. left. apply Z.leb_gt. lia. }
  rewrite !Hr by lia. cbn [andb]. destruct s as [|d s]; [done|].
  assert ((byte_Z b =? 0xe0) = false) as -> by (apply Z.eqb_neq; lia).
  assert ((byte_Z b =? 0xed) = false) as -> by (apply Z.eqb_neq; lia).
  cbn [andb]. destruct s as [|e s]; [done|].
  assert ((byte_Z b =? 0xf0) = false) as -> by (apply Z.eqb_neq; lia).
  assert ((byte_Z b =? 0xf4) = false) as -> by (apply Z.eqb_neq; lia). done.
Qed.

Lemma runes_ascii s : ascii s → runes s = map (λ b, [b]) s.
Proof.
  intros Hs. unfold runes. induction Hs as [|b s Hb Hs IH]; [done|].
  cbn [length runes_loop]. rewrite rune_size_ascii by done.
  change ([b] :: runes_loop (length s) s = [b] :: map (λ b, [b]) s). by rewrite IH.
Qed.

(** The second letter of an initialism is a capital. *)
Lemma initialism_capital s w :
  startsWithInitialism s = w → w = [] ∨
  ∃ k b, w = take k s ∧ length w = k ∧ (2 <= k <= 5)%nat ∧ s !! 1%nat = Some b ∧ in_range 65 90 b = true.
Proof.
  assert (Hin : Forall (λ i, match i with _ :: b :: _ => in_range 65 90 b = true | _ => False end) commonInitialisms).
  { unfold commonInitialisms. cbn. repeat constructor. }
  rewrite Forall_forall in Hin. unfold startsWithInitialism.
  assert (Hk : ∀ k ini, (k <= 5)%nat →
    (ini = [] ∨ ∃ k b, ini = take k s ∧ length ini = k ∧ (2 <= k <= 5)%nat ∧ s !! 1%nat = Some b ∧ in_range 65 90 b = true) →
    let w := if (k <=? length s)%nat && bool_decide (take k s ∈ commonInitialisms) then take k s else ini in
    w = [] ∨ ∃ k b, w = take k s ∧ length w = k ∧ (2 <= k <= 5)%nat ∧ s !! 1%nat = Some b ∧ in_range 65 90 b = true).
  { intros k ini Hk5 Hini. cbv zeta. destruct (k <=? length s)%nat eqn:Hl; [|done]. cbn [andb].
    case_bool_decide as Hm; [|done]. right. apply Nat.leb_le in Hl. pose proof (Hin _ Hm) as Hc.
    destruct s as [|a [|b s]]; destruct k as [|[|k]]; try done.
    exists (S (S k)), b. split_and!; try done; try lia. rewrite length_take. cbn in *. lia. }
  intros <-. cbn [seq foldl]. repeat (apply Hk; [lia|]). by left.
Qed.

Lemma slice_Ok {A} (s : list A) i j : (i <= j <= length s)%nat → slice s i j = Ok (take (j - i) (drop i s)).
Proof. intros H. unfold slice. rewrite (leb_correct i j), (leb_correct j) by lia. done. Qed.

(** Where the walk is: no capital between the last word and the position *)
Definition in_word (s : bytes) (i lastPos : nat) : Prop :=
  (lastPos <= i)%nat ∧ (i = 0%nat → lastPos = 0%nat) ∧ (0 < i → lastPos < i)%nat ∧ (lastPos <= length s)%nat ∧
  ∀ j b, (lastPos < j < i)%nat → s !! j = Some b → in_range 65 90 b = false.

Lemma in_word_next s i lastPos b :
  in_word s i lastPos → s !! i = Some b → (i = 0%nat ∨ in_range 65 90 b = false) → in_word s (S i) lastPos.
Proof.
  intros (H1 & H0 & H2 & H3 & H4) Hb Hu. repeat split; try lia. intros j c Hj Hc.
  assert (j < i ∨ j = i)%nat as [?| ->] by lia; [by apply (H4 j c); [lia|]|].
  rewrite Hb in Hc. simplify_eq. destruct Hu as [->|?]; [lia|done].
Qed.

Lemma in_word_new s i : (0 < i <= length s)%nat → in_word s (S i) i.
Proof. intros Hi. repeat split; lia. Qed.

Lemma camel_loop_ascii s fuel i lastPos words :
  in_word s i lastPos → (length s < fuel + i)%nat → (0 < fuel)%nat →
  ∃ words' lastPos', camel_loop fuel s (map (λ b, [b]) s) i lastPos words = Ok (words', lastPos') ∧ (lastPos' <= length s)%nat.
Proof.
  revert i lastPos words; induction fuel as [|fuel IH]; intros i lastPos words Hw Hf Hp; [lia|]. cbn [camel_loop].
  change (map (λ b, [b]) s) with ((λ b, [b]) <$> s) at 1. rewrite list_lookup_fmap.
  destruct (s !! i) as [b|] eqn:Eb; cbn [fmap option_fmap option_map]; [|by eexists _, _; split; [|apply Hw]].
  pose proof (lookup_lt_Some _ _ _ Eb) as Hi. rewrite IsUpper_byte.
  destruct (i =? 0)%nat eqn:E0; cbn [orb].
  { apply Nat.eqb_eq in E0. apply IH; [by eapply in_word_next; eauto|lia..]. }
  apply Nat.eqb_neq in E0. destruct (in_range 65 90 b) eqn:Eu; cbn [negb].
  2:{ apply IH; [by eapply in_word_next; eauto|lia..]. }
  destruct Hw as (H1 & H0 & H2 & H3 & H4). rewrite (slice_Ok s lastPos (length s)) by lia. cbn [mbind res_bind].
  set (rest := take (length s - lastPos) _). destruct (startsWithInitialism rest) as [|c w] eqn:Ew.
  { rewrite (slice_Ok s lastPos i) by lia. cbn [mbind res_bind]. apply IH; [apply in_word_new|..]; lia. }
  assert (Hlen : (length rest <= length s - lastPos)%nat) by (unfold rest; rewrite length_take, length_drop; lia).
  destruct (initialism_capital rest _ Ew) as [|(k & d & Ek & Hk & Hk5 & Hd & Hcap)]; [done|].
  assert (Hi1 : i = S lastPos).
  { destruct (decide (i = S lastPos)) as [|Hne]; [done|exfalso].
    assert (Hsd : s !! S lastPos = Some d).
    { unfold rest in Hd. rewrite lookup_take_Some, lookup_drop in Hd. destruct Hd as [Hd _]. by rewrite Nat.add_1_r in Hd. }
    rewrite (H4 (S lastPos) d) in Hcap by (done || lia). done. }
  assert (Hkl : (k <= length rest)%nat) by (rewrite Ek, length_take in Hk; lia).
  rewrite Hk. apply IH; [apply in_word_new|..]; lia.
Qed.

(** On ASCII strings the conversion stays within the string, whatever initialisms it meets. *)
Theorem CamelToSnake_ascii s : ascii s → returns (CamelToSnake s).
Proof.
  intros Hs. unfold CamelToSnake. rewrite runes_ascii, length_map by done.
  destruct (camel_loop_ascii s (S (length s)) 0 0 []) as (words & lastPos & -> & Hl); [|lia..|].
  { repeat split; lia. }
  cbn [mbind res_bind]. by rewrite slice_Ok by lia.
Qed.

(** ** Other strings *)

(** One step of the walk: over a character that is no capital, to a new word, past an initialism *)
Lemma camel_lower fuel s rs i lastPos words b :
  rs !! i = Some [b] → in_range 65 90 b = false →
  camel_loop (S fuel) s rs i lastPos words = camel_loop fuel s rs (S i) lastPos words.
Proof. intros E Hb. cbn [camel_loop]. rewrite E, IsUpper_byte, Hb. by rewrite orb_true_r. Qed.

Lemma camel_word fuel s rs i lastPos words b rest word :
  rs !! S i = Some [b] → in_range 65 90 b = true → slice s lastPos (length s) = Ok rest →
  startsWithInitialism rest = [] → slice s lastPos (S i) = Ok word →
  camel_loop (S fuel) s rs (S i) lastPos words = camel_loop fuel s rs (S (S i)) (S i) (words ++ [word]).
Proof.
  intros E Hb Hr Hi Hw. cbn [camel_loop]. rewrite E, IsUpper_byte, Hb. cbn [Nat.eqb negb orb].
  rewrite Hr. cbn [mbind res_bind]. rewrite Hi, Hw. done.
Qed.

Lemma camel_initialism fuel s rs i lastPos words b rest ini :
  rs !! S i = Some [b] → in_range 65 90 b = true → slice s lastPos (length s) = Ok rest →
  startsWithInitialism rest = ini → ini ≠ [] → let i' := (S i + length ini - 1)%nat in
  camel_loop (S fuel) s rs (S i) lastPos words = camel_loop fuel s rs (S i') i' (words ++ [ini]).
Proof.
  intros E Hb Hr Hi Hne. cbv zeta. cbn [camel_loop]. rewrite E, IsUpper_byte, Hb. cbn [Nat.eqb negb orb].
  rewrite Hr. cbn [mbind res_bind]. rewrite Hi. by destruct ini.
Qed.

Lemma camel_first fuel s rs lastPos words r :
  rs !! 0%nat = Some r → camel_loop (S fuel) s rs 0 lastPos words = camel_loop fuel s rs 1 lastPos words.
Proof. intros E. cbn [camel_loop]. by rewrite E. Qed.

Ltac camel :=
  repeat first
    [ erewrite camel_first by reflexivity
    | erewrite camel_lower by reflexivity
    | erewrite camel_word by reflexivity
    | erewrite camel_initialism by first [reflexivity | discriminate] ].

Lemma CamelToSnake_userID : CamelToSnake (bs "userID") = Ok (ToLower (bs "user_ID")).
Proof. unfold CamelToSnake. change (S (length _)) with 7%nat. camel. reflexivity. Qed.

(** Positions of runes are used as positions of bytes: a word is cut one byte early. *)
Lemma CamelToSnake_splits_runes :
  CamelToSnake ([xc3; xa9] ++ bs "tatId") = Ok (ToLower ([xc3; xa9] ++ bs "ta_tId")).
Proof. unfold CamelToSnake. change (S (length _)) with 7%nat. camel. reflexivity. Qed.

(** A key such as "éOAuthX" makes the conversion panic: the walk over its runes is behind that over its
    bytes, the initialism it meets ends beyond the end of the string, and the rest is sliced from there. *)
Theorem CamelToSnake_panics :
  CamelToSnake ([xc3; xa9] ++ bs "OAuthX") = Panic.
Proof. unfold CamelToSnake. change (S (length _)) with 8%nat. camel. reflexivity. Qed.
End Lib.

(** Letters of ASCII only *)
#[export, refine] Instance exampleUnicode : Unicode := {|
  IsUpper r := match r with [b] => in_range 65 90 b | _ => false end;
  runeToUpper r := match r with [b] => if in_range 97 122 b then [Z_byte (byte_Z b - 32)] else [b] | _ => r end;
  ToLower := map (λ b, if in_range 65 90 b then Z_byte (byte_Z b + 32) else b);
  ToUpper := map (λ b, if in_range 97 122 b then Z_byte (byte_Z b - 32) else b)
|}.
Proof. done. Defined.

Lemma CamelToSnake_ascii_witness : returns (CamelToSnake (bs "userHTTPServerID")).
Proof. apply CamelToSnake_ascii. vm_compute. repeat constructor. Defined.

Example SnakeToCamel_example : SnakeToCamel (bs "user_id") = bs "UserID".
Proof. reflexivity. Qed.
Example CamelToSnake_example : CamelToSnake (bs "userIDAndURL") = Ok (bs "user_id_and_url").
Proof. reflexivity. Qed.
(** The longest initialism wins. *)
Example CamelToSnake_longest : CamelToSnake (bs "HTTPServer") = Ok (bs "https_erver").
Proof. reflexivity. Qed.
End Snake.
