(* ===== verification/KatcConstraints.v ===== *)
(** * ee/katc/table.go: constraints on the path

    Before it opens a database, a table configured by the server checks its path against the
    constraints of the query; osquery applies the constraints again to the rows.  LIKE and GLOB become regular
    expressions.  The fragment of package regexp they are written in (quoted characters, [.], [.*] and
    the flag [(?i)]) is parsed and matched here; other expressions go to the engine, a parameter.
    The theorems say that no database SQLite would accept is left out. *)
From S2P Require Import Prelude Json Strings Snake.
Import Snake.

(** Package regexp beyond the fragment, and simple case folding of a rune *)
Class Regexp := {
  engine : bytes → option (bytes → bool);
  foldRune : bytes → bytes;
  foldRune_ascii b : in_range 65 90 b = true → foldRune [b] = foldRune [Z_byte (byte_Z b + 32)]
}.

Module Constraints.

(** ** The fragment of package regexp *)
Inductive item := Lit (r : bytes) | AnyOne | AnyStar.

Definition metachars : bytes := bs "\.+*?()|[]{}^$".
Definition isMeta (b : byte) : bool := existsb (Byte.eqb b) metachars.

(** [regexp.QuoteMeta] *)
Definition quoteByte (b : byte) : bytes := if isMeta b then [x5c; b] else [b].
Definition QuoteMeta (s : bytes) : bytes := flat_map quoteByte s.

Fixpoint parse_items (fuel : nat) (s : bytes) : option (list item) :=
  match fuel, s with
  | _, [] => Some []
  | O, _ => None
  | S fuel', b :: s' =>
      if b =b x5c then
        match s' with
        | c :: s'' => if isMeta c then cons (Lit [c]) <$> parse_items fuel' s'' else None
        | [] => None
        end
      else if b =b x2e then
        match s' with
        | x2a :: s'' => cons AnyStar <$> parse_items fuel' s''
        | _ => cons AnyOne <$> parse_items fuel' s'
        end
      else if isMeta b then None
      else
        match rune_size s with
        | O => if byte_Z b <? 128 then cons (Lit [b]) <$> parse_items fuel' s' else None
        | n => cons (Lit (take n s)) <$> parse_items fuel' (drop n s)
        end
  end.

Section Lib.
Context `{R : Regexp}.

Definition eqRune (ci : bool) (a b : bytes) : bool :=
  if ci then bool_decide (foldRune a = foldRune b) else bool_decide (a = b).

Definition newline : bytes := [x0a].

(** The items match the runes up to some position. *)
Fixpoint match_items (ci : bool) (items : list item) (s : list bytes) : bool :=
  match items with
  | [] => true
  | Lit r :: items' => match s with c :: s' => eqRune ci r c && match_items ci items' s' | [] => false end
  | AnyOne :: items' =>
      match s with c :: s' => negb (bool_decide (c = newline)) && match_items ci items' s' | [] => false end
  | AnyStar :: items' =>
      (fix star (s : list bytes) : bool :=
         match_items ci items' s ||
         match s with c :: s' => negb (bool_decide (c = newline)) && star s' | [] => false end) s
  end.

(** They match from some position on. *)
Fixpoint search (ci : bool) (items : list item) (s : list bytes) : bool :=
  match_items ci items s || match s with _ :: s' => search ci items s' | [] => false end.

(** An invalid byte of the text is the replacement character. *)
Definition textRune (r : bytes) : bytes :=
  match r with [b] => if byte_Z b <? 128 then r else [xef; xbf; xbd] | _ => r end.

Definition MatchString (ci : bool) (items : list item) (s : bytes) : bool :=
  search ci items (map textRune (runes s)).

(** [regexp.Compile] *)
Definition Compile (expr : bytes) : option (bytes → bool) :=
  let '(ci, body) := match cut_prefix (bs "(?i)") expr with Some body => (true, body) | None => (false, expr) end in
  match parse_items (length body) body with
  | Some items => Some (MatchString ci items)
  | None => engine expr
  end.

(** ** Constraints *)
Inductive operator := OperatorEquals | OperatorLike | OperatorGlob | OperatorRegexp | OperatorOther (n : Z).
Record Constraint_ := MkConstraint { Operator : operator; Expression : bytes }.

(** [queryContext.Constraints] *)
Definition QueryContext := gmap bytes (list Constraint_).

Definition pathColumnName : bytes := bs "path".

Definition getPathConstraint (queryContext : QueryContext) : option (list Constraint_) :=
  queryContext !! pathColumnName.

Definition likeRegexpStr (expr : bytes) : bytes :=
  bs "(?i)" ++ ReplaceAll (bs "_") (bs ".") (ReplaceAll (bs "%") (bs ".*") (QuoteMeta expr)).

Definition globRegexpStr (expr : bytes) : bytes :=
  ReplaceAll (bs "\?") (bs ".") (ReplaceAll (bs "\*") (bs ".*") (QuoteMeta expr)).

(** One constraint; the text is that of the error of a bad expression *)
Definition regexpMatches (msg : string) (expr path : bytes) : res bool :=
  match Compile expr with
  | None => Err (Errorf msg)
  | Some r => Ok (r path)
  end.

Definition checkConstraint (path : bytes) (c : Constraint_) : res bool :=
  match Operator c with
  | OperatorEquals => Ok (bool_decide (path = Expression c))
  | OperatorLike => regexpMatches "invalid LIKE statement: %w" (likeRegexpStr (Expression c)) path
  | OperatorGlob => regexpMatches "invalid GLOB statement: %w" (globRegexpStr (Expression c)) path
  | OperatorRegexp => regexpMatches "invalid regex: %w" (Expression c) path
  | OperatorOther _ => Err (Errorf "operator %v not valid path constraint")
  end.

Fixpoint checkConstraints (path : bytes) (l : list Constraint_) : res bool :=
  match l with
  | [] => Ok true
  | c :: l' => ok ← checkConstraint path c; match ok with true => checkConstraints path l' | false => Ok false end
  end.

Definition checkPathConstraints (path : bytes) (pathConstraints : option (list Constraint_)) : res bool :=
  match pathConstraints with
  | None => Ok true
  | Some l => checkConstraints path l
  end.

(** ** What SQLite's operators accept *)

(** Letters of ASCII without their case *)
Definition lower (r : bytes) : bytes :=
  match r with [b] => if in_range 65 90 b then [Z_byte (byte_Z b + 32)] else r | _ => r end.

Inductive LIKE : list bytes → list bytes → Prop :=
| like_end : LIKE [] []
| like_percent p s s' : LIKE p s' → LIKE ([x25] :: p) (s ++ s')
| like_underscore p c s : LIKE p s → LIKE ([x5f] :: p) (c :: s)
| like_char p a c s : a ≠ [x25] → a ≠ [x5f] → lower a = lower c → LIKE p s → LIKE (a :: p) (c :: s).

(** Without sets of characters in brackets *)
Inductive GLOB : list bytes → list bytes → Prop :=
| glob_end : GLOB [] []
| glob_star p s s' : GLOB p s' → GLOB ([x2a] :: p) (s ++ s')
| glob_question p c s : GLOB p s → GLOB ([x3f] :: p) (c :: s)
| glob_char p a s : a ≠ [x2a] → a ≠ [x3f] → a ≠ [x5b] → GLOB p s → GLOB (a :: p) (a :: s).

(** Every byte is part of a character. *)
Definition utf8 (s : bytes) : Prop := Forall (λ r, match r with [b] => byte_Z b < 128 | _ => True end) (runes s).

(** ** Rewriting the expression *)
Definition replaced (c : byte) (new : bytes) (f : byte → bytes) (b : byte) : bytes := if b =b c then new else f b.

Lemma replace_all_app fuel old new a s :
  cut old (a ++ s) = match cut old s with Some (before, after) => Some (a ++ before, after) | None => None end →
  replace_all fuel old new (a ++ s) = a ++ replace_all fuel old new s.
Proof.
  intros E. destruct fuel as [|fuel]; [done|]. cbn [replace_all]. rewrite E.
  destruct (cut old s) as [[before after]|]; [|done]. by rewrite <- app_assoc.
Qed.

(** Replacing what stands for the byte [c] in a string written byte by byte *)
Lemma replace_all_flat_map c old new (f : byte → bytes) s fuel :
  f c = old → (∀ rest, cut old (old ++ rest) = Some ([], rest)) → (0 < length old)%nat →
  (∀ b s, (b =b c) = false →
     cut old (f b ++ flat_map f s) =
     match cut old (flat_map f s) with Some (before, after) => Some (f b ++ before, after) | None => None end) →
  (length (flat_map f s) <= fuel)%nat →
  replace_all fuel old new (flat_map f s) = flat_map (replaced c new f) s.
Proof.
  intros Hc Hold Hpos Hinert. revert fuel; induction s as [|b s IH]; intros fuel Hf; cbn [flat_map].
  - destruct fuel as [|fuel]; [done|]. cbn [replace_all]. destruct (cut old []) as [[before after]|] eqn:E; [|done].
    apply cut_Some in E. destruct before, old; by cbn in *; try lia.
  - unfold replaced at 1. destruct (b =b c) eqn:Eb.
    + apply eqb_eq in Eb as ->. cbn [flat_map] in Hf. rewrite Hc, length_app in Hf. rewrite Hc.
      destruct fuel as [|fuel]; [lia|]. cbn [replace_all]. rewrite Hold. cbn [app]. f_equal. apply IH. lia.
    + rewrite replace_all_app by by apply Hinert. f_equal. apply IH. cbn [flat_map] in Hf. rewrite length_app in Hf. lia.
Qed.

Lemma cut_inert old a s :
  (∀ i, (i < length a)%nat → has_prefix old (drop i (a ++ s)) = false) →
  cut old (a ++ s) = match cut old s with Some (before, after) => Some (a ++ before, after) | None => None end.
Proof.
  induction a as [|b a IH]; intros H.
  - cbn [app]. by destruct (cut old s) as [[before after]|].
  - cbn [app cut]. pose proof (H 0%nat ltac:(cbn; lia)) as E. cbn [drop app] in E. rewrite E, IH.
    + by destruct (cut old s) as [[before after]|].
    + intros i Hi. apply (H (S i)). cbn. lia.
Qed.

(** What no expression writes at the front of a byte *)
Definition starts_not (c : byte) (s : bytes) : bool := match s with b :: _ => negb (b =b c) | [] => true end.

Lemma flat_map_starts_not c (f : byte → bytes) s :
  (∀ b, f b ≠ [] ∧ starts_not c (f b) = true) → starts_not c (flat_map f s) = true.
Proof. intros H. destruct s as [|b s]; [done|]. cbn [flat_map]. destruct (H b) as [? ?]. by destruct (f b). Qed.

(** A byte written as [a] has no occurrence of the pattern, whatever follows that does not start with [c]. *)
Definition inert (old : bytes) (c : byte) (a : bytes) : bool :=
  match old, a with
  | [o], [x] => negb (o =b x)
  | [o], [x; y] => negb (o =b x) && negb (o =b y)
  | [o; o'], [x] => negb (o =b x) || (o' =b c)
  | [o; o'], [x; y] => (negb (o =b x) || negb (o' =b y)) && (negb (o =b y) || (o' =b c))
  | _, _ => false
  end.

Lemma inert_cut old c a s :
  inert old c a = true → (length old = 1%nat ∨ starts_not c s = true) →
  cut old (a ++ s) = match cut old s with Some (before, after) => Some (a ++ before, after) | None => None end.
Proof.
  intros Ha Hs. apply cut_inert. intros i Hi.
  assert (Hc : ∀ o', (length old = 2)%nat → (o' =b c) = true → match s with b :: _ => (o' =b b) = false | [] => True end).
  { intros o' Hl Ho. destruct Hs as [|Hs]; [lia|]. destruct s as [|b s]; [done|]. cbn in Hs. apply eqb_eq in Ho as ->.
    apply negb_true_iff in Hs. destruct (c =b b) eqn:E; [|done]. apply eqb_eq in E as ->. by rewrite eqb_refl in Hs. }
  destruct old as [|o [|o' [|? ?]]], a as [|x [|y [|? ?]]]; try discriminate Ha; destruct i as [|[|i]]; cbn [length] in Hi; try lia;
    cbn [drop app has_prefix inert] in *; repeat rewrite ?andb_true_iff, ?orb_true_iff, ?negb_true_iff in Ha.
  - by rewrite Ha.
  - by rewrite (proj1 Ha).
  - by rewrite (proj2 Ha).
  - destruct Ha as [->|Ho]; [done|]. specialize (Hc o' eq_refl Ho). destruct s; [apply andb_false_r|]. cbn [has_prefix]. rewrite Hc. apply andb_false_r.
  - destruct Ha as [[->| ->] _]; [done|apply andb_false_r].
  - destruct Ha as [_ [->|Ho]]; [done|]. specialize (Hc o' eq_refl Ho). destruct s; [apply andb_false_r|]. cbn [has_prefix]. rewrite Hc. apply andb_false_r.
Qed.

(** Replacing on strings written byte by byte, when every byte passes the test: it is the pattern and stands for
    [c], or it has no part in an occurrence of the pattern *)
Definition writes (old : bytes) (c : byte) (f : byte → bytes) (b : byte) : bool :=
  let c' := List.last old c in
  ((length old =? 1)%nat || (negb (is_empty (f b)) && starts_not c' (f b))) && ((b =b c) || inert old c' (f b)).

Lemma ReplaceAll_flat_map c old new (f : byte → bytes) s :
  f c = old → (∀ rest, cut old (old ++ rest) = Some ([], rest)) → (0 < length old)%nat →
  (∀ b, writes old c f b = true) →
  ReplaceAll old new (flat_map f s) = flat_map (replaced c new f) s.
Proof.
  intros Hc Hold Hpos Hw. apply (replace_all_flat_map c); try done. intros b s' Hb. apply (inert_cut _ (List.last old c)).
  - specialize (Hw b). unfold writes in Hw. cbv zeta in Hw. rewrite Hb in Hw. by apply andb_true_iff in Hw as [_ Hw].
  - destruct (decide (length old = 1%nat)) as [|Hl]; [by left|right]. apply flat_map_starts_not. intros b'.
    specialize (Hw b'). unfold writes in Hw. cbv zeta in Hw. rewrite (proj2 (Nat.eqb_neq _ _) Hl) in Hw. cbn [orb] in Hw.
    apply andb_true_iff in Hw as [[Hn Hst]%andb_true_iff _]. split; [|done]. by destruct (f b').
Qed.

Definition likeByte : byte → bytes := replaced x5f (bs ".") (replaced x25 (bs ".*") quoteByte).
Definition globByte : byte → bytes := replaced x3f (bs ".") (replaced x2a (bs ".*") quoteByte).

Lemma all_bytes (P : byte → bool) : forallb (λ n, P (Z_byte (Z.of_nat n))) (seq 0 256) = true → ∀ b, P b = true.
Proof.
  intros H b. rewrite forallb_forall in H. specialize (H (Z.to_nat (byte_Z b))). pose proof (byte_Z_range b).
  rewrite Z2Nat.id, Z_byte_Z in H by lia. apply H, in_seq. lia.
Qed.

Ltac written := first [done | reflexivity | cbn; lia | apply all_bytes; vm_compute; reflexivity].

Lemma likeRegexp_bytes expr : likeRegexpStr expr = bs "(?i)" ++ flat_map likeByte expr.
Proof.
  unfold likeRegexpStr, QuoteMeta. f_equal. rewrite (ReplaceAll_flat_map x25) by written.
  by rewrite (ReplaceAll_flat_map x5f) by written.
Qed.

Lemma globRegexp_bytes expr : globRegexpStr expr = flat_map globByte expr.
Proof.
  unfold globRegexpStr, QuoteMeta. rewrite (ReplaceAll_flat_map x2a) by written.
  by rewrite (ReplaceAll_flat_map x3f) by written.
Qed.

(** ** Parsing the expression back *)
Definition likeItem (r : bytes) : item :=
  if bool_decide (r = [x25]) then AnyStar else if bool_decide (r = [x5f]) then AnyOne else Lit r.
Definition globItem (r : bytes) : item :=
  if bool_decide (r = [x2a]) then AnyStar else if bool_decide (r = [x3f]) then AnyOne else Lit r.

(** How a byte of the expression may be written, and what it is parsed as *)
Definition parses (f : byte → bytes) (g : bytes → item) (b : byte) : bool :=
  match g [b] with
  | Lit r => bool_decide (r = [b]) && bool_decide (f b = quoteByte b)
  | AnyStar => bool_decide (f b = [x2e; x2a])
  | AnyOne => bool_decide (f b = [x2e])
  end.

(** Bytes beyond ASCII are written as they are *)
Definition plain (f : byte → bytes) (b : byte) : bool :=
  (byte_Z b <? 128) || match f b with [x] => (x =b b) && negb (isMeta b) | _ => false end.

(** The bytes of a character decide its size. *)
Lemma rune_size_take s n s' : rune_size s = S n → rune_size (take (S n) s ++ s') = S n.
Proof.
  destruct s as [|b [|c s]]; try done. unfold rune_size. cbv zeta.
  destruct (in_range 0xc2 0xdf b && in_range 0x80 0xbf c) eqn:E1.
  { intros [= <-]. cbn [take app]. by rewrite E1. }
  destruct s as [|d s]; [done|].
  destruct ((if byte_Z b =? 0xe0 then in_range 0xa0 0xbf c else if byte_Z b =? 0xed then in_range 0x80 0x9f c
    else in_range 0xe1 0xef b && in_range 0x80 0xbf c) && in_range 0x80 0xbf d) eqn:E2.
  { intros [= <-]. cbn [take app]. by rewrite E1, E2. }
  destruct s as [|e s]; [done|].
  destruct ((if byte_Z b =? 0xf0 then in_range 0x90 0xbf c else if byte_Z b =? 0xf4 then in_range 0x80 0x8f c
    else in_range 0xf1 0xf3 b && in_range 0x80 0xbf c) && in_range 0x80 0xbf d && in_range 0x80 0xbf e) eqn:E3; [|done].
  intros [= <-]. cbn [take app]. by rewrite E1, E2, E3.
Qed.

Lemma rune_size_high s n : rune_size s = S n →
  (S n <= length s)%nat ∧ (2 <= S n)%nat ∧ Forall (λ b, 128 <= byte_Z b) (take (S n) s).
Proof.
  assert (Hr : ∀ lo hi b, 128 <= lo → in_range lo hi b = true → 128 <= byte_Z b).
  { intros lo hi b Hlo [H _]%andb_true_iff. zbool. lia. }
  destruct s as [|b [|c s]]; try done. unfold rune_size. cbv zeta.
  destruct (in_range 0xc2 0xdf b && in_range 0x80 0xbf c) eqn:E1.
  { apply andb_true_iff in E1 as [H1 H2]. intros [= <-]. cbn. split_and!; [lia..|].
    repeat constructor; (eapply Hr; [|eassumption]; lia). }
  destruct s as [|d s]; [done|]. destruct (_ && in_range 0x80 0xbf d) eqn:E2.
  { apply andb_true_iff in E2 as [H1 H2]. intros [= <-]. cbn. split_and!; [lia..|].
    assert (128 <= byte_Z b ∧ 128 <= byte_Z c) as [? ?].
    { destruct (byte_Z b =? 0xe0) eqn:?; [|destruct (byte_Z b =? 0xed) eqn:?; [|apply andb_true_iff in H1 as [? ?]]];
        zbool; (split; [first [lia | eapply Hr; [|eassumption]; lia]|eapply Hr; [|eassumption]; lia]). }
    repeat constructor; try done. eapply Hr; [|eassumption]; lia. }
  destruct s as [|e s]; [done|]. destruct (_ && in_range 0x80 0xbf e) eqn:E3; [|done].
  apply andb_true_iff in E3 as [[H1 H2]%andb_true_iff H3]. intros [= <-]. cbn. split_and!; [lia..|].
  assert (128 <= byte_Z b ∧ 128 <= byte_Z c) as [? ?].
  { destruct (byte_Z b =? 0xf0) eqn:?; [|destruct (byte_Z b =? 0xf4) eqn:?; [|apply andb_true_iff in H1 as [? ?]]];
      zbool; (split; [first [lia | eapply Hr; [|eassumption]; lia]|eapply Hr; [|eassumption]; lia]). }
  repeat constructor; try done; (eapply Hr; [|eassumption]; lia).
Qed.

Lemma flat_map_high (f : byte → bytes) a :
  (∀ b, plain f b = true) → Forall (λ b, 128 <= byte_Z b) a → flat_map f a = a ∧ Forall (λ b, isMeta b = false) a.
Proof.
  intros Hf. induction 1 as [|b a Hb Ha IH]; [done|]. destruct IH as [IH1 IH2]. specialize (Hf b). unfold plain in Hf.
  apply orb_true_iff in Hf as [?|Hf]; [zbool; lia|]. cbn [flat_map]. rewrite IH1.
  destruct (f b) as [|x [|? ?]] eqn:E; try discriminate Hf.
  apply andb_true_iff in Hf as [->%eqb_eq Hm%negb_true_iff]. split; [done|by constructor].
Qed.

Lemma runes_fuel fuel s : (length s <= fuel)%nat → runes_loop fuel s = runes s.
Proof.
  unfold runes. revert s. assert (H : ∀ fuel fuel' s, (length s <= fuel)%nat → (length s <= fuel')%nat →
    runes_loop fuel s = runes_loop fuel' s).
  { clear. induction fuel as [|fuel IH]; intros fuel' s H1 H2.
    - destruct s; cbn in *; [|lia]. by destruct fuel'.
    - destruct fuel' as [|fuel']; destruct s as [|b s]; cbn [length] in *; try done; try lia. cbn [runes_loop]. cbv zeta.
      f_equal. apply IH; rewrite length_drop; cbn [length]; lia. }
  intros s Hs. by apply H.
Qed.

Lemma runes_cons b s : let n := Nat.max 1 (rune_size (b :: s)) in runes (b :: s) = take n (b :: s) :: runes (drop n (b :: s)).
Proof.
  intros n. unfold runes at 1. cbn [length runes_loop]. cbv zeta. f_equal. apply runes_fuel.
  rewrite length_drop. cbn [length]. subst n. lia.
Qed.

Lemma parse_written (f : byte → bytes) (g : bytes → item) s :
  (∀ b, parses f g b = true) → (∀ b, plain f b = true) → (∀ r, (2 <= length r)%nat → g r = Lit r) →
  (∀ b, negb (is_empty (f b)) && starts_not x2a (f b) = true) →
  utf8 s → ∀ fuel, (length (flat_map f s) <= fuel)%nat → parse_items fuel (flat_map f s) = Some (map g (runes s)).
Proof.
  intros Hp Hpl Hg Hst. induction s as [s IH] using (induction_ltof1 _ (@length byte)). unfold ltof in IH. intros Hu fuel Hf.
  destruct s as [|b s]; [by destruct fuel|]. unfold utf8 in Hu. rewrite runes_cons in Hu |- *. cbv zeta in Hu |- *.
  apply Forall_cons in Hu as [Hb Hu].
  assert (Hnext : ∀ y, starts_not x2a (flat_map f y) = true).
  { intros y. apply flat_map_starts_not. intros b'. specialize (Hst b'). apply andb_true_iff in Hst as [H1 H2]. split; [|done]. by destruct (f b'). }
  destruct (rune_size (b :: s)) as [|n] eqn:En.
  - cbn [Nat.max take drop map] in *. change (take 0 s) with (@nil byte) in *. change (drop 0 s) with s in *.
    cbn [flat_map] in Hf |- *. specialize (Hp b). unfold parses in Hp.
    assert (Hrest : ∀ k, (length (flat_map f s) <= k)%nat → parse_items k (flat_map f s) = Some (map g (runes s))).
    { apply IH; [cbn; lia|exact Hu]. }
    assert (Hs := Hnext s).
    destruct (g [b]) as [r| |] eqn:Eg.
    + apply andb_true_iff in Hp as [Hr Hq]. apply bool_decide_eq_true in Hr as ->. apply bool_decide_eq_true in Hq.
      rewrite Hq in Hf |- *. unfold quoteByte in Hf |- *. destruct (isMeta b) eqn:Em.
      * destruct fuel as [|fuel]; [cbn in Hf; lia|]. cbn [app parse_items]. change (x5c =b x5c) with true. cbv iota.
        rewrite Em, Hrest; [by rewrite ?Eg|cbn in Hf; lia].
      * destruct fuel as [|fuel]; [cbn in Hf; lia|]. cbn [app parse_items].
        assert ((b =b x5c) = false) as -> by (destruct (b =b x5c) eqn:E; [apply eqb_eq in E as ->; done|done]).
        assert ((b =b x2e) = false) as -> by (destruct (b =b x2e) eqn:E; [apply eqb_eq in E as ->; done|done]).
        rewrite Em, rune_size_ascii by done. rewrite (proj2 (Z.ltb_lt _ _) Hb).
        rewrite Hrest; [by rewrite ?Eg|cbn in Hf; lia].
    + apply bool_decide_eq_true in Hp. rewrite Hp in Hf |- *. destruct fuel as [|fuel]; [cbn in Hf; lia|].
      cbn [app parse_items]. change (x2e =b x5c) with false. change (x2e =b x2e) with true. cbv iota.
      assert (Hr : parse_items fuel (flat_map f s) = Some (map g (runes s))) by (apply Hrest; cbn in Hf; lia).
      transitivity (cons AnyOne <$> parse_items fuel (flat_map f s)); [|by rewrite Hr].
      clear -Hs. destruct (flat_map f s) as [|c y]; [done|]. cbn in Hs. by destruct c.
    + apply bool_decide_eq_true in Hp. rewrite Hp in Hf |- *. destruct fuel as [|fuel]; [cbn in Hf; lia|].
      cbn [app parse_items]. change (x2e =b x5c) with false. change (x2e =b x2e) with true. cbv iota.
      rewrite Hrest; [by rewrite ?Eg|cbn in Hf; lia].
  - destruct (rune_size_high _ _ En) as (Hl & H2 & Hh).
    rewrite (Nat.max_r 1 (S n)) in * by lia. set (r := take (S n) (b :: s)) in *. set (k := drop (S n) (b :: s)) in *.
    assert (Es : b :: s = r ++ k) by (symmetry; apply take_drop).
    destruct (flat_map_high f r Hpl Hh) as [Ef Hm].
    assert (Efs : flat_map f (b :: s) = r ++ flat_map f k) by (rewrite Es, flat_map_app; by rewrite Ef).
    rewrite Efs in Hf |- *. rewrite length_app in Hf.
    assert (Hrl : length r = S n) by (unfold r; rewrite length_take; lia).
    pose proof (rune_size_take _ _ (flat_map f k) En) as Hsz. fold r in Hsz.
    destruct r as [|c r'] eqn:Er; [done|]. destruct fuel as [|fuel]; [cbn in Hf; lia|]. cbn [app parse_items].
    apply Forall_cons in Hm as [Hmc Hm]. apply Forall_cons in Hh as [Hhc Hh].
    assert ((c =b x5c) = false) as -> by (destruct (c =b x5c) eqn:E; [apply eqb_eq in E as ->; done|done]).
    assert ((c =b x2e) = false) as -> by (destruct (c =b x2e) eqn:E; [apply eqb_eq in E as ->; done|done]).
    rewrite Hmc. cbn [app] in Hsz. rewrite Hsz. rewrite <- Hrl. change (c :: r' ++ flat_map f k) with ((c :: r') ++ flat_map f k).
    rewrite take_app_length, drop_app_length. cbn [map]. rewrite Hg by (rewrite Hrl; lia).
    rewrite IH; [done| |exact Hu|cbn [length] in Hf; lia].
    assert (length (b :: s) = (length (c :: r') + length k)%nat) as -> by (rewrite Es; apply length_app). cbn. lia.
Qed.

(** ** Matching *)
Lemma fold_lower r : foldRune r = foldRune (lower r).
Proof.
  unfold lower. destruct r as [|b [|? ?]]; try done. destruct (in_range 65 90 b) eqn:E; [|done]. by apply foldRune_ascii.
Qed.

Lemma eqRune_refl ci r : eqRune ci r r = true.
Proof. unfold eqRune. destruct ci; by apply bool_decide_eq_true. Qed.

Lemma match_Lit ci r items c s : match_items ci (Lit r :: items) (c :: s) = eqRune ci r c && match_items ci items s.
Proof. reflexivity. Qed.
Lemma match_AnyOne ci items c s : c ≠ newline → match_items ci (AnyOne :: items) (c :: s) = match_items ci items s.
Proof. intros H. change (negb (bool_decide (c = newline)) && match_items ci items s = match_items ci items s). by rewrite bool_decide_eq_false_2. Qed.
Lemma match_AnyStar ci items c s : c ≠ newline →
  match_items ci (AnyStar :: items) (c :: s) = match_items ci items (c :: s) || match_items ci (AnyStar :: items) s.
Proof.
  intros H. change (match_items ci items (c :: s) || negb (bool_decide (c = newline)) && match_items ci (AnyStar :: items) s =
    match_items ci items (c :: s) || match_items ci (AnyStar :: items) s). by rewrite bool_decide_eq_false_2.
Qed.

Lemma star_skip ci items s s' :
  Forall (λ r, r ≠ newline) s → match_items ci (AnyStar :: items) s' = true →
  match_items ci (AnyStar :: items) (s ++ s') = true.
Proof.
  intros Hs H. induction Hs as [|c s Hc Hs IH]; [done|]. cbn [app]. rewrite match_AnyStar by done.
  apply orb_true_iff. by right.
Qed.

Lemma star_here ci items s : match_items ci items s = true → match_items ci (AnyStar :: items) s = true.
Proof.
  intros H. destruct s as [|c s].
  - change (match_items ci items [] || false = true). by rewrite H.
  - change (match_items ci items (c :: s) || negb (bool_decide (c = newline)) && match_items ci (AnyStar :: items) s = true). by rewrite H.
Qed.

Lemma LIKE_match p s : LIKE p s → Forall (λ r, r ≠ newline) s → match_items true (map likeItem p) s = true.
Proof.
  induction 1 as [|p s s' _ IH|p c s _ IH|p a c s Ha1 Ha2 Hl _ IH]; intros Hs; cbn [map].
  - done.
  - apply Forall_app in Hs as [Hs Hs']. change (likeItem [x25]) with AnyStar. apply star_skip, star_here, IH; done.
  - apply Forall_cons in Hs as [Hc Hs]. change (likeItem [x5f]) with AnyOne.
    rewrite match_AnyOne by done. by apply IH.
  - apply Forall_cons in Hs as [Hc Hs].
    assert (likeItem a = Lit a) as -> by (unfold likeItem; by rewrite (bool_decide_eq_false_2 _ Ha1), (bool_decide_eq_false_2 _ Ha2)).
    rewrite match_Lit.
    rewrite (IH Hs), andb_true_r. unfold eqRune. apply bool_decide_eq_true.
    by rewrite (fold_lower a), (fold_lower c), Hl.
Qed.

Lemma GLOB_match p s : GLOB p s → Forall (λ r, r ≠ newline) s → match_items false (map globItem p) s = true.
Proof.
  induction 1 as [|p s s' _ IH|p c s _ IH|p a s Ha1 Ha2 _ _ IH]; intros Hs; cbn [map].
  - done.
  - apply Forall_app in Hs as [Hs Hs']. change (globItem [x2a]) with AnyStar. apply star_skip, star_here, IH; done.
  - apply Forall_cons in Hs as [Hc Hs]. change (globItem [x3f]) with AnyOne.
    rewrite match_AnyOne by done. by apply IH.
  - apply Forall_cons in Hs as [Hc Hs].
    assert (globItem a = Lit a) as -> by (unfold globItem; by rewrite (bool_decide_eq_false_2 _ Ha1), (bool_decide_eq_false_2 _ Ha2)).
    rewrite match_Lit.
    by rewrite eqRune_refl, IH.
Qed.

Lemma search_here ci items s : match_items ci items s = true → search ci items s = true.
Proof. intros H. destruct s; cbn [search]; by rewrite H. Qed.

Lemma textRune_utf8 s : utf8 s → map textRune (runes s) = runes s.
Proof.
  unfold utf8. induction 1 as [|r l Hr Hl IH]; [done|]. cbn [map]. rewrite IH. f_equal. unfold textRune.
  destruct r as [|b [|? ?]]; try done. by rewrite (proj2 (Z.ltb_lt _ _) Hr).
Qed.

Lemma likeItem_long r : (2 <= length r)%nat → likeItem r = Lit r.
Proof. intros H. unfold likeItem. by repeat (case_bool_decide; [subst; cbn in H; lia|]). Qed.
Lemma globItem_long r : (2 <= length r)%nat → globItem r = Lit r.
Proof. intros H. unfold globItem. by repeat (case_bool_decide; [subst; cbn in H; lia|]). Qed.

Lemma like_Compile expr : utf8 expr → Compile (likeRegexpStr expr) = Some (MatchString true (map likeItem (runes expr))).
Proof.
  intros Hu. rewrite likeRegexp_bytes. unfold Compile.
  assert (cut_prefix (bs "(?i)") (bs "(?i)" ++ flat_map likeByte expr) = Some (flat_map likeByte expr)) as ->.
  { unfold cut_prefix. assert (has_prefix (bs "(?i)") (bs "(?i)" ++ flat_map likeByte expr) = true) as ->
      by (apply has_prefix_spec; by eexists). by rewrite drop_app_length. }
  rewrite (parse_written likeByte likeItem); try done.
  1,2: apply all_bytes; vm_compute; reflexivity.
  - apply likeItem_long.
  - apply all_bytes; vm_compute; reflexivity.
Qed.

(** An expression that does not begin with the flag *)
Lemma glob_Compile expr : utf8 expr → Compile (globRegexpStr expr) = Some (MatchString false (map globItem (runes expr))).
Proof.
  intros Hu. rewrite globRegexp_bytes. unfold Compile.
  assert (cut_prefix (bs "(?i)") (flat_map globByte expr) = None) as ->.
  { unfold cut_prefix. destruct (has_prefix (bs "(?i)") (flat_map globByte expr)) eqn:E; [|done]. exfalso.
    destruct expr as [|b expr]; [done|]. cbn [flat_map] in E.
    pose proof (all_bytes (λ b, starts_not x28 (globByte b) && negb (is_empty (globByte b))) ltac:(vm_compute; reflexivity) b) as H.
    cbv beta in H. destruct (globByte b) as [|c y]; [by rewrite andb_false_r in H|]. 
    apply has_prefix_spec in E as [k Hk]. cbn [app] in Hk. injection Hk as -> _. discriminate H. }
  rewrite (parse_written globByte globItem); try done.
  1,2: apply all_bytes; vm_compute; reflexivity.
  - apply globItem_long.
  - apply all_bytes; vm_compute; reflexivity.
Qed.

(** A constraint as SQLite decides it *)
Definition sqlite_accepts (path : bytes) (c : Constraint_) : Prop :=
  match Operator c with
  | OperatorEquals => path = Expression c
  | OperatorLike => utf8 (Expression c) ∧ LIKE (runes (Expression c)) (runes path)
  | OperatorGlob => utf8 (Expression c) ∧ GLOB (runes (Expression c)) (runes path)
  | _ => False
  end.

(** C26: A database whose path is UTF-8 without a line break is not left out if osquery would keep it: when SQLite
    accepts the path under every constraint (equality, LIKE, GLOB without sets in brackets, with patterns in UTF-8), it
    passes the check, which compiles them to regular expressions.  (With a line break or a set in brackets it may be
    left out: [glob_line_break], [glob_set_literal].) *)
Theorem accepted_paths_pass path l :
  utf8 path → Forall (λ r, r ≠ newline) (runes path) → Forall (sqlite_accepts path) l →
  checkPathConstraints path (Some l) = Ok true.
Proof.
  intros Hu Hn. cbn [checkPathConstraints]. induction 1 as [|c l Hc Hl IH]; [done|]. cbn [checkConstraints].
  assert (checkConstraint path c = Ok true) as ->; [|exact IH].
  unfold sqlite_accepts in Hc. unfold checkConstraint. destruct (Operator c); try done.
  - f_equal. by apply bool_decide_eq_true.
  - destruct Hc as [He Hc]. unfold regexpMatches. rewrite like_Compile by done. f_equal. unfold MatchString.
    rewrite textRune_utf8 by done. by apply search_here, LIKE_match.
  - destruct Hc as [He Hc]. unfold regexpMatches. rewrite glob_Compile by done. f_equal. unfold MatchString.
    rewrite textRune_utf8 by done. by apply search_here, GLOB_match.
Qed.

(** ** Where the check differs from SQLite *)

(** A set of characters in a GLOB is taken literally: the database is left out. *)
Lemma glob_set_literal :
  checkPathConstraints (bs "/a.db") (Some [MkConstraint OperatorGlob (bs "/[ab].db")]) = Ok false.
Proof. reflexivity. Qed.

(** The dot does not match a line break: such a path is left out, too. *)
Lemma glob_line_break :
  GLOB (runes (bs "/a*b")) (runes (bs "/a" ++ newline ++ bs "b")) ∧
  checkPathConstraints (bs "/a" ++ newline ++ bs "b") (Some [MkConstraint OperatorGlob (bs "/a*b")]) = Ok false.
Proof.
  split; [|reflexivity]. do 2 (apply glob_char; [done..|]). apply (glob_star [[x62]] [[x0a]] [[x62]]).
  apply glob_char; [done..|]. apply glob_end.
Qed.
End Lib.

(** Folding the letters of ASCII only *)
#[export, refine] Instance exampleRegexp : Regexp := {|
  engine _ := None;
  foldRune r := match r with [b] => if in_range 65 90 b then [Z_byte (byte_Z b + 32)] else r | _ => r end
|}.
Proof. intros b Hb. rewrite Hb. by destruct b. Defined.

Ltac compute_runes :=
  match goal with
  | |- ?R (runes ?a) (runes ?b) =>
      let x := eval vm_compute in (runes a) in let y := eval vm_compute in (runes b) in change (R x y)
  end.

Lemma example_like : LIKE (runes (bs "/u/%.db")) (runes (bs "/U/xy.db")).
Proof.
  compute_runes. do 3 (apply like_char; [discriminate..|reflexivity|]). apply (like_percent _ [[x78]; [x79]]).
  repeat (apply like_char; [discriminate..|reflexivity|]). apply like_end.
Qed.

Lemma example_glob : GLOB (runes (bs "/?/*.db")) (runes (bs "/U/xy.db")).
Proof.
  compute_runes. apply glob_char; [discriminate..|]. apply glob_question. apply glob_char; [discriminate..|].
  apply (glob_star _ [[x78]; [x79]]). repeat (apply glob_char; [discriminate..|]). apply glob_end.
Qed.

Lemma accepted_paths_pass_witness :
  @checkPathConstraints exampleRegexp (bs "/U/xy.db")
    (Some [MkConstraint OperatorLike (bs "/u/%.db"); MkConstraint OperatorGlob (bs "/?/*.db")]) = Ok true.
Proof.
  apply accepted_paths_pass.
  - vm_compute. repeat constructor.
  - vm_compute. repeat constructor; discriminate.
  - constructor; [|constructor; [|constructor]]; (split; [vm_compute; repeat constructor|]); [exact example_like|exact example_glob].
Defined.
End Constraints.
