(* ===== verification/KatcTable.v ===== *)
(** * ee/katc: the tables the server configures

    A configuration names a source (SQLite, LevelDB or IndexedDB databases found by a pattern), a query, and steps that
    transform every row; [generate] answers a query of osquery.  The steps run the deserializers of
    [KatcFirefox], [KatcWebkit] and [IdbValues]; with [DataFlatten] the rows go through [Flatten].  Rows
    are maps of strings: a nil value and an empty one are the same column. *)
From S2P Require Import Prelude Json Strings Paths Snake IdbValues KatcFirefox KatcWebkit IdbQuery Flatten KatcConstraints.
Set Warnings "-clear-no-such-hyp".

Abbreviation row := (gmap bytes bytes) (only parsing).

(** The order in which Go ranges over a map is not specified. *)
Class MapOrder := {
  range : gmap bytes bytes → list (bytes * bytes);
  range_perm m : range m ≡ₚ map_to_list m
}.

(** Decoders of other modules *)
Class Codecs := {
  snappyDecode : bytes → option bytes;                  (* snappy.Decode *)
  zstdDecodeAll : bytes → option bytes;                 (* the DecodeAll of a zstd decoder *)
  utf16 : bool → bool → bytes → option bytes            (* unicode.UTF16: big endian, use the byte order mark *)
}.

Module Transform.

(** ** Row transformations *)

(** Every value decoded, or an error *)
Definition decodeValues (msg : string) (decode : bytes → option bytes) (r : row) : res (list row) :=
  match mapM (λ '(k, v), pair k <$> decode v) (map_to_list r) with
  | Some l => Ok [list_to_map l]
  | None => Err (Errorf msg)
  end.
Arguments decodeValues msg%_string decode r.

(** hex.go *)
Definition hexValue (v : bytes) : option bytes :=
  filter (λ b, b ≠ x00) <$> Webkit.hexDecode (trim_suffix (bs "'") (trim_prefix (bs "X'") v)).

Definition hexDecode : row → res (list row) := decodeValues "decoding data for key %s: %w" hexValue.

(** zstd.go *)
Definition zstdMagicNumber : Z := 0xFD2FB528.
Definition detectZstdCompressed (data : bytes) : bool :=
  if len data <? 6 then false else le_value (take 4 data) =? zstdMagicNumber.

Section Lib.
Context `{C : Codecs} `{U : Unicode} `{MO : MapOrder} `{G : Values.GoLib} `{Ch : Charsets}.

Definition zstdDecode : row → res (list row) :=
  decodeValues "decoding data for key %s: %w" (λ v, if detectZstdCompressed v then zstdDecodeAll v else Some v).

(** snappy.go *)
Definition snappyDecode_ : row → res (list row) := decodeValues "decoding data for key %s: %w" snappyDecode.

(** utf16.go *)
Definition utf16DecodeValue (v : bytes) : option bytes :=
  match v with
  | b0 :: b1 :: _ =>
      if (b0 =b xff) && (b1 =b xfe) then utf16 false true v
      else if (b0 =b xfe) && (b1 =b xff) then utf16 true true v
      else if b0 =b x00 then utf16 true false v
      else if b1 =b x00 then utf16 false false v
      else Some v
  | _ => Some v
  end.
Definition utf16Decode : row → res (list row) := decodeValues "decoding UTF-16 for key %s: %w" utf16DecodeValue.

(** case.go: of two columns that get the same name the one ranged over last stays *)
Fixpoint snakeKeys (l : list (bytes * bytes)) (snakeCaseRow : row) : res row :=
  match l with
  | [] => Ok snakeCaseRow
  | (k, v) :: l' => snakeCaseKey ← Snake.CamelToSnake k; snakeKeys l' (<[snakeCaseKey := v]> snakeCaseRow)
  end.
Definition camelToSnake (r : row) : res (list row) := snakeCaseRow ← snakeKeys (range r) ∅; Ok [snakeCaseRow].

(** Nil values as empty ones *)
Definition casts (l : list (gmap bytes (option bytes))) : list row := map (λ r, default [] <$> r) l.

(** ** Steps *)
Inductive rowTransformStep :=
| snappyDecodeTransformStep | hexDecodeTransformStep | zstdDecodeTransformStep | deserializeFirefoxTransformStep
| deserializeChromeTransformStep | deserializeWebkitTransformStep | camelToSnakeTransformStep | utf16DecodeTransformStep.

(** [rowTransformStep.UnmarshalJSON], of the string *)
Definition step_name (s : rowTransformStep) : bytes :=
  match s with
  | snappyDecodeTransformStep => bs "snappy"
  | hexDecodeTransformStep => bs "hex"
  | zstdDecodeTransformStep => bs "zstd"
  | deserializeFirefoxTransformStep => bs "deserialize_firefox"
  | deserializeChromeTransformStep => bs "deserialize_chrome"
  | deserializeWebkitTransformStep => bs "deserialize_webkit"
  | camelToSnakeTransformStep => bs "camel_to_snake"
  | utf16DecodeTransformStep => bs "utf16_decode"
  end.

Definition steps : list rowTransformStep :=
  [snappyDecodeTransformStep; hexDecodeTransformStep; utf16DecodeTransformStep; zstdDecodeTransformStep;
   deserializeFirefoxTransformStep; deserializeChromeTransformStep; deserializeWebkitTransformStep; camelToSnakeTransformStep].

Definition UnmarshalStep (s : bytes) : res rowTransformStep :=
  match List.find (λ t, bool_decide (step_name t = s)) steps with
  | Some t => Ok t
  | None => Err (Errorf "unknown data processing step %s")
  end.

Definition transformFunc (s : rowTransformStep) (r : row) : res (list row) :=
  match s with
  | snappyDecodeTransformStep => snappyDecode_ r
  | hexDecodeTransformStep => hexDecode r
  | zstdDecodeTransformStep => zstdDecode r
  | deserializeFirefoxTransformStep => l ← Firefox.deserializeFirefox r; Ok (casts l)
  | deserializeChromeTransformStep => Values.DeserializeChrome r
  | deserializeWebkitTransformStep => l ← Webkit.deserializeWebkit r; Ok (casts l)
  | camelToSnakeTransformStep => camelToSnake r
  | utf16DecodeTransformStep => utf16Decode r
  end.

(** One step over a batch: a row that fails is logged and left out; a panic is not caught. *)
Fixpoint nextBatch (s : rowTransformStep) (rowBatch : list row) : res (list row) :=
  match rowBatch with
  | [] => Ok []
  | r :: rowBatch' =>
      match transformFunc s r with
      | Ok transformedRows => rest ← nextBatch s rowBatch'; Ok (transformedRows ++ rest)
      | Err _ => nextBatch s rowBatch'
      | Panic => Panic
      | NoFuel => NoFuel
      end
  end.

Fixpoint runSteps (l : list rowTransformStep) (rowBatch : list row) : res (list row) :=
  match l with
  | [] => Ok rowBatch
  | s :: l' => batch ← nextBatch s rowBatch; runSteps l' batch
  end.
End Lib.
End Transform.

(** ** Sources *)

(** What reading the files and databases of the host gives *)
Class Host := {
  GOOS : bytes;
  Glob : bytes → res (list bytes);                      (* filepath.Glob *)
  MkdirTemp : bytes → res bytes;                        (* agent.MkdirTemp *)
  Open : bytes → option err;                            (* opening, creating, copying and closing a file *)
  Create : bytes → option err;
  Copy : bytes → bytes → option err;
  CloseFile : bytes → option err;
  Exists : bytes → bool;                                (* os.Stat without an error *)
  sqlOpen : bytes → option err;                         (* sql.Open of a database file *)
  sqlQuery : bytes → bytes → res (list bytes * list (res (list bytes)));   (* columns, and the scanned rows *)
  openLevelDB : bytes → bytes → res (Query.DB * bytes)  (* a copy, opened with a comparer, and where it is *)
}.

Module Sources.

Record sourceData := SourceData { sourcePath : bytes; rows : list row }.

Inductive katcSourceType := sqliteSourceType | indexeddbLeveldbSourceType | leveldbSourceType.

Definition source_name (t : katcSourceType) : bytes :=
  match t with
  | sqliteSourceType => bs "sqlite"
  | indexeddbLeveldbSourceType => bs "indexeddb_leveldb"
  | leveldbSourceType => bs "leveldb"
  end.

Definition UnmarshalSourceType (s : bytes) : res katcSourceType :=
  match List.find (λ t, bool_decide (source_name t = s)) [sqliteSourceType; indexeddbLeveldbSourceType; leveldbSourceType] with
  | Some t => Ok t
  | None => Err (Errorf "unknown table type %s")
  end.

(** [comparerOption.UnmarshalJSON], of the string *)
Definition UnmarshalComparer (s : bytes) : res bytes :=
  if bool_decide (s ∈ [bs ""; bs "null"]) then Ok (bs "idb_cmp1")
  else if bool_decide (s ∈ [bs "historical_bytewise"; bs "default_bytewise"; bs "idb_cmp1"]) then Ok s
  else Err (Errorf "unknown comparer %q").

(** [filepath.Dir] *)
Fixpoint to_last_sep (p : bytes) : bytes :=
  match p with b :: p' => if b =b Separator then p else to_last_sep p' | [] => [] end.
Definition Dir (p : bytes) : bytes := Clean (reverse (to_last_sep (reverse p))).

Definition sourcePatternToGlobbablePattern (sourcePattern : bytes) : bytes := ReplaceAll (bs "%") (bs "*") sourcePattern.

Section Lib.
Context `{H : Host} `{R : Regexp} `{L : Query.ChromeLib}.

(** *** Copies of SQLite databases

    The temporary directories there are, as a list *)
Definition temps := list bytes.

Definition failed {A} (o : option err) (msg : string) (k : res A) : res A :=
  match o with Some e => Err (Wrapf msg e) | None => k end.
Arguments failed {A} o msg%_string k.

Definition copyFile (srcPath destDir : bytes) : res bytes :=
  failed (Open srcPath) "opening %s: %w"
    (let destPath := Join [destDir; Base srcPath] in
     failed (Create destPath) "creating %s: %w"
       (failed (Copy srcPath destPath) "copying %s to %s: %w"
          (failed (CloseFile destPath) "writing %s to %s: %w" (Ok destPath)))).

(** The auxiliary files that exist are copied, too. *)
Fixpoint copyAux (path dbCopyDir : bytes) (suffixes : list bytes) : option err :=
  match suffixes with
  | [] => None
  | suffix :: suffixes' =>
      if Exists (path ++ suffix) then
        match copyFile (path ++ suffix) dbCopyDir with
        | Err e => Some (Wrapf "copying %s: %w" e)
        | _ => copyAux path dbCopyDir suffixes'
        end
      else copyAux path dbCopyDir suffixes'
  end.

(** The location of the copy, empty when there is none, and the error *)
Definition copySqliteDb (path : bytes) (t : temps) : bytes * option err * temps :=
  match MkdirTemp (bs "sqlite-temp") with
  | Ok dbCopyDir =>
      let t := t ++ [dbCopyDir] in
      match copyFile path dbCopyDir with
      | Ok dbCopyDest => (dbCopyDest, copyAux path dbCopyDir [bs "-wal"; bs "-shm"], t)
      | Err e => ([], Some (Wrapf "copying %s: %w" e), t)
      | _ => ([], None, t)
      end
  | Err e => ([], Some (Wrapf "making temporary directory: %w" e), t)
  | _ => ([], None, t)
  end.

Definition RemoveAll (d : bytes) (t : temps) : temps := filter (λ x, x ≠ d) t.

(** [row[columns[i]] = rawResult[i]] *)
Definition scanRow (columns values : list bytes) : row := foldl (λ r '(c, v), <[c := v]> r) ∅ (zip columns values).

Fixpoint scanRows (columns : list bytes) (l : list (res (list bytes))) : res (list row) :=
  match l with
  | [] => Ok []
  | v :: l' =>
      values ← wrap "scanning query results: %w" v;
      rest ← scanRows columns l';
      Ok (scanRow columns values :: rest)
  end.

Definition querySqliteDb (path query : bytes) (t : temps) : res (list row) * temps :=
  let '(tempDbCopyLocation, e, t) := copySqliteDb path t in
  match e with
  | Some e =>
      (Err (Wrapf "unable to copy db: %w" e),
       if is_empty tempDbCopyLocation then t else RemoveAll (Dir tempDbCopyLocation) t)
  | None =>
      (failed (sqlOpen tempDbCopyLocation) "opening sqlite db: %w"
         ('(columns, scanned) ← wrap "running query: %w" (sqlQuery tempDbCopyLocation query);
          scanRows columns scanned),
       RemoveAll (Dir tempDbCopyLocation) t)
  end.

(** The databases a pattern finds, those the constraints leave out apart *)
Fixpoint validPaths (pathConstraints : option (list Constraints.Constraint_)) (paths : list bytes) : list (res bytes) :=
  match paths with
  | [] => []
  | p :: paths' =>
      match Constraints.checkPathConstraints p pathConstraints with
      | Ok true => Ok p :: validPaths pathConstraints paths'
      | Ok false => validPaths pathConstraints paths'
      | Err e => [Err (Wrapf "checking source path constraints: %w" e)]
      | Panic => [Panic]
      | NoFuel => [NoFuel]
      end
  end.

Definition globbed (msg : string) (pathConstraints : option (list Constraints.Constraint_)) (sourcePath : bytes) : list (res bytes) :=
  match Glob (sourcePatternToGlobbablePattern sourcePath) with
  | Ok paths => validPaths pathConstraints paths
  | Err e => [Err (Wrapf msg e)]
  | Panic => [Panic]
  | NoFuel => [NoFuel]
  end.

(** The databases of all the patterns; an error ends the list *)
Definition databases (msg : string) (sourcePaths : list bytes) (queryContext : Constraints.QueryContext) : list (res bytes) :=
  flat_map (globbed msg (Constraints.getPathConstraint queryContext)) sourcePaths.
Arguments databases msg%_string sourcePaths queryContext.

Fixpoint sqliteLoop (query : bytes) (dbs : list (res bytes)) (results : list sourceData) (t : temps) : res (list sourceData) * temps :=
  match dbs with
  | [] => (Ok results, t)
  | Ok sqliteDb :: dbs' =>
      let '(rowsFromDb, t) := querySqliteDb sqliteDb query t in
      match rowsFromDb with
      | Ok rowsFromDb => sqliteLoop query dbs' (results ++ [SourceData sqliteDb rowsFromDb]) t
      | Err _ => sqliteLoop query dbs' results t
      | Panic => (Panic, t)
      | NoFuel => (NoFuel, t)
      end
  | Err e :: _ => (Err e, t)
  | Panic :: _ => (Panic, t)
  | NoFuel :: _ => (NoFuel, t)
  end.

Definition sqliteData (sourcePaths : list bytes) (query : bytes) (queryContext : Constraints.QueryContext) (t : temps)
    : res (list sourceData) * temps :=
  sqliteLoop query (databases "globbing for files with pattern %s: %w" sourcePaths queryContext) [] t.

(** *** LevelDB *)
Definition extractLeveldbQueryTargets (query : bytes) : gset bytes :=
  list_to_set (filter (λ k, k ≠ []) (Snake.split x2c query)).

Definition queryLeveldb (path : bytes) (allowedKeyMap : gset bytes) (comparer : bytes) : res (list row) :=
  '(db, _) ← openLevelDB path comparer;
  let kept := filter (λ kv : bytes * bytes, allowedKeyMap = ∅ ∨ kv.1 ∈ allowedKeyMap) (Query.entries db) in
  match Query.iterError db with
  | Some e => Err (Wrapf "iterator error: %w" e)
  | None => Ok (map (λ '(k, v), <[bs "value" := v]> {[bs "key" := k]}) kept)
  end.

(** Another source stops at the first error. *)
Fixpoint queryAll (query : bytes → res (list row)) (msg : string) (dbs : list (res bytes)) : res (list sourceData) :=
  match dbs with
  | [] => Ok []
  | p :: dbs' =>
      dbPath ← p;
      rowsFromDb ← wrap msg (query dbPath);
      results ← queryAll query msg dbs';
      Ok (SourceData dbPath rowsFromDb :: results)
  end.
Arguments queryAll query msg%_string dbs.

Definition leveldbData (sourcePaths : list bytes) (comparer query : bytes) (queryContext : Constraints.QueryContext) : res (list sourceData) :=
  queryAll (λ dbPath, queryLeveldb dbPath (extractLeveldbQueryTargets query) comparer) "querying leveldb at %s: %w"
    (databases "globbing for leveldb files: %w" sourcePaths queryContext).

(** *** IndexedDB over LevelDB *)
Definition extractIndexeddbQueryTargets (query : bytes) : res (bytes * bytes) :=
  match Snake.split x2e query with
  | [dbName; objectStoreName] =>
      if is_empty dbName then Err (Errorf "missing db name in query `%s`")
      else if is_empty objectStoreName then Err (Errorf "missing object store name in query `%s`")
      else Ok (dbName, objectStoreName)
  | _ => Err (Errorf "unable to extract query targets from query: expected `<db name>.<obj store name>`, got `%s`")
  end.

(** [QueryIndexeddbObjectStore]; the fuel bounds how often a value is wrapped *)
Definition QueryIndexeddbObjectStore (fuel : nat) (dbLocation dbName objectStoreName comparer : bytes) : res (list row) :=
  '(db, tempDbCopyLocation) ← openLevelDB dbLocation comparer;
  '(objs, e) ← Query.queryObjectStore fuel db dbLocation tempDbCopyLocation dbName objectStoreName;
  match e with Some e => Err e | None => Ok objs end.

(** One pattern: the targets are extracted after the files are found. *)
Definition indexeddbPattern (fuel : nat) (comparer query : bytes) (queryContext : Constraints.QueryContext) (sourcePath : bytes)
    : res (list sourceData) :=
  leveldbs ← wrap "globbing for leveldb files: %w" (Glob (sourcePatternToGlobbablePattern sourcePath));
  '(dbName, objectStoreName) ← wrap "getting db and object store names: %w" (extractIndexeddbQueryTargets query);
  queryAll (λ db, QueryIndexeddbObjectStore fuel db dbName objectStoreName comparer) "querying %s: %w"
    (validPaths (Constraints.getPathConstraint queryContext) leveldbs).

Fixpoint indexeddbLeveldbData (fuel : nat) (sourcePaths : list bytes) (comparer query : bytes) (queryContext : Constraints.QueryContext)
    : res (list sourceData) :=
  match sourcePaths with
  | [] => Ok []
  | sourcePath :: sourcePaths' =>
      l ← indexeddbPattern fuel comparer query queryContext sourcePath;
      rest ← indexeddbLeveldbData fuel sourcePaths' comparer query queryContext;
      Ok (l ++ rest)
  end.

(** [katcSourceType.dataFunc] *)
Definition dataFunc (s : katcSourceType) (fuel : nat) (sourcePaths : list bytes) (comparer query : bytes)
    (queryContext : Constraints.QueryContext) (t : temps) : res (list sourceData) * temps :=
  match s with
  | sqliteSourceType => sqliteData sourcePaths query queryContext t
  | indexeddbLeveldbSourceType => (indexeddbLeveldbData fuel sourcePaths comparer query queryContext, t)
  | leveldbSourceType => (leveldbData sourcePaths comparer query queryContext, t)
  end.
End Lib.
End Sources.

(** ** ee/tables/tablehelpers and dataflattentable: constraints, columns and rows of flattened data *)
Module TableHelpers.

Record constraintOptions := MkConstraintOptions { allowedCharacters : bytes; allowedValues : list bytes; defaults : list bytes }.

Definition OnlyAllowedCharacters (co : constraintOptions) (input : bytes) : bool :=
  is_empty (allowedCharacters co) || forallb (λ char, bool_decide (char ∈ Snake.runes (allowedCharacters co))) (Snake.runes input).

(** The expressions of a column, each once, in some order *)
Definition GetConstraints (queryContext : Constraints.QueryContext) (columnName : bytes) (co : constraintOptions) : list bytes :=
  match queryContext !! columnName with
  | None | Some [] => defaults co
  | Some q =>
      let allowed c :=
        if is_empty (allowedValues co) then OnlyAllowedCharacters co (Constraints.Expression c)
        else bool_decide (Constraints.Expression c ∈ allowedValues co) in
      remove_dups (map Constraints.Expression (List.filter allowed q))
  end.

Definition WithDefaults (d : list bytes) : constraintOptions := MkConstraintOptions [] [] d.

(** [Columns] of dataflattentable *)
Definition Columns (additional : list bytes) : list bytes :=
  map bs ["fullkey"; "parent"; "key"; "value"; "query"; "prefilter"]%string ++ additional.

Definition ToMap (rows : list Flatten.row) (query prefilter : bytes) (rowData : row) : list row :=
  map (λ r,
    let '(p, k) := Flatten.ParentKey r (bs "/") in
    <[bs "prefilter" := prefilter]> (<[bs "query" := query]> (<[bs "value" := Flatten.Value r]> (<[bs "key" := k]>
      (<[bs "parent" := p]> (<[bs "fullkey" := Flatten.StringPath r (bs "/")]> rowData)))))) rows.

(** A compiled prefilter and its expression; nil is [None] *)
Definition prefilter := option (Flatten.Prefilter * bytes).
Definition Expr (p : prefilter) : bytes := from_option snd [] p.
Definition Opts (p : prefilter) : list Flatten.FlattenOpts :=
  match p with Some (prg, _) => [Flatten.WithPrefilter (Some prg)] | None => [] end.

Class Cel := { NewPrefilter : bytes → option Flatten.Prefilter (* the CEL compiler *) }.

Definition ExtractPrefilterFromQuery `{Cel} (queryContext : Constraints.QueryContext) : res prefilter :=
  match GetConstraints queryContext (bs "prefilter") (WithDefaults []) with
  | [] => Ok None
  | [prefilterExpr] =>
      if is_empty (TrimSpace prefilterExpr) then Ok None
      else match NewPrefilter prefilterExpr with
           | Some prg => Ok (Some (prg, prefilterExpr))
           | None => Err (Errorf "creating prefilter: %w")
           end
  | _ => Err (Errorf "got %d prefilter constraints, expected only 1")
  end.
End TableHelpers.

Module Table.
Import Transform Sources TableHelpers.

(** ** Configuration *)
Record katcTableDefinition := Definition_ {
  SourceType : option katcSourceType;
  SourcePaths : option (list bytes);
  SourceQuery : option bytes;
  RowTransformSteps : option (list rowTransformStep);
  Comparer : option bytes;
  DataFlatten : option bool
}.
Record katcTableConfigOverlay := Overlay { Filters : gmap bytes bytes; overlayDefinition : katcTableDefinition }.
Record katcTableConfig := Config {
  ConfigColumns : list bytes; configDefinition : katcTableDefinition; Overlays : list katcTableConfigOverlay
}.

Record katcTable := MkTable {
  tableName : bytes;
  sourceType : option katcSourceType;   (* the zero value has no dataFunc *)
  sourcePaths : list bytes;
  sourceQuery : bytes;
  comparer : bytes;
  rowTransformSteps : list rowTransformStep;
  dataFlatten : bool;
  columnLookup : gset bytes
}.

Definition pathColumnName : bytes := Constraints.pathColumnName.

(** The fields a definition sets *)
Definition define (d : katcTableDefinition) (k : katcTable) : katcTable :=
  MkTable (tableName k)
    (match SourceType d with Some s => Some s | None => sourceType k end)
    (default (sourcePaths k) (SourcePaths d)) (default (sourceQuery k) (SourceQuery d))
    (default (comparer k) (Comparer d)) (default (rowTransformSteps k) (RowTransformSteps d))
    (default (dataFlatten k) (DataFlatten d)) (columnLookup k).

Section Lib.
Context `{H : Host} `{R : Regexp} `{L : Query.ChromeLib} `{C : Codecs} `{U : Unicode} `{MO : MapOrder}
  `{G : Values.GoLib} `{Ch : Charsets} `{FL : Flatten.FlattenLib} `{Ce : Cel}.

Definition filtersMatch (filters : gmap bytes bytes) : bool :=
  match filters !! bs "goos" with Some goos => bool_decide (goos = GOOS) | None => false end.

(** The first overlay whose filters match, and no other *)
Definition applyOverlay (overlays : list katcTableConfigOverlay) (k : katcTable) : katcTable :=
  match List.find (λ o, filtersMatch (Filters o)) overlays with
  | Some o => define (overlayDefinition o) k
  | None => k
  end.

(** The table, and its columns *)
Definition newKatcTable (name : bytes) (cfg : katcTableConfig) : katcTable * list bytes :=
  let k := define (configDefinition cfg) (MkTable name None [] [] (bs "idb_cmp1") [] false ∅) in
  let k := applyOverlay (Overlays cfg) k in
  let columns := pathColumnName :: (if dataFlatten k then Columns [] else ConfigColumns cfg) in
  (MkTable (tableName k) (sourceType k) (sourcePaths k) (sourceQuery k) (comparer k) (rowTransformSteps k)
     (dataFlatten k) (list_to_set columns), columns).

Definition leveldbExpectedColumns : list bytes := [bs "key"; bs "value"; pathColumnName].

Definition validateLeveldbTableColumns (columns : list bytes) : res () :=
  if forallb (λ c, bool_decide (c ∈ leveldbExpectedColumns)) columns then Ok ()
  else Err (Errorf "unsupported column %s for leveldb table").

(** [ConstructKATCTables]: the tables of the configurations that parse, in the order they are ranged over; [parse] is
    json.Unmarshal into the configuration *)
Definition ConstructKATCTables (parse : bytes → option katcTableConfig) (config : gmap bytes bytes) : list (katcTable * list bytes) :=
  omap (λ '(name, tableConfigStr),
    cfg ← parse tableConfigStr;
    let '(t, columns) := newKatcTable name cfg in
    match sourceType t with
    | Some leveldbSourceType =>
        match validateLeveldbTableColumns columns with Ok _ => Some (t, columns) | _ => None end
    | _ => Some (t, columns)
    end) (range config).

(** ** Flattening (dataflatten.go) *)
Definition maxRecursiveUnmarshalDepth : nat := 100.

(** [recursivelyUnmarshal] at a depth [n - 1] below the maximum; [json] is json.Unmarshal *)
Fixpoint recursivelyUnmarshal (json : bytes → option Flatten.data) (n : nat) (d : Flatten.data) : Flatten.data :=
  match n with
  | O => d
  | S n' =>
      match d with
      | Flatten.DMap m => Flatten.DMap (map (λ '(k, v), (k, recursivelyUnmarshal json n' v)) m)
      | Flatten.DArray l => Flatten.DArray (map (recursivelyUnmarshal json n') l)
      | Flatten.DString s => match json s with Some j => recursivelyUnmarshal json n' j | None => d end
      | _ => d
      end
  end.

Definition flattenRow (json : bytes → option Flatten.data) (fuel : nat) (r : row) (path dataQuery : bytes) (p : prefilter)
    : res (list row) :=
  let flatInput := Flatten.DMap (map (λ '(k, v),
    (k, recursivelyUnmarshal json (S maxRecursiveUnmarshalDepth) (Flatten.DString v))) (range r)) in
  flatRows ← wrap "flattening row: %w"
    (Flatten.Flatten fuel flatInput (Flatten.WithQuery (Snake.split x2f dataQuery) :: Opts p));
  Ok (ToMap flatRows dataQuery (Expr p) {[pathColumnName := path]}).

(** ** generate *)

(** The rows of one transformed row: with the path, unless it has a column of that name *)
Fixpoint flattenQueries (json : bytes → option Flatten.data) (fuel : nat) (r : row) (path : bytes) (p : prefilter)
    (dataQueries : list bytes) : res (list row) :=
  match dataQueries with
  | [] => Ok []
  | dataQuery :: dataQueries' =>
      match flattenRow json fuel r path dataQuery p with
      | Ok flatRows => rest ← flattenQueries json fuel r path p dataQueries'; Ok (flatRows ++ rest)
      | Err _ => flattenQueries json fuel r path p dataQueries'
      | Panic => Panic
      | NoFuel => NoFuel
      end
  end.

Definition finish (json : bytes → option Flatten.data) (fuel : nat) (k : katcTable) (p : prefilter) (dataQueries : list bytes)
    (path : bytes) (r : row) : res (list row) :=
  if dataFlatten k then flattenQueries json fuel r path p dataQueries
  else Ok [r ∪ {[pathColumnName := path]}].

(** [concat <$> mapM f l] *)
Fixpoint collect {A B : Type} (f : A → res (list B)) (l : list A) : res (list B) :=
  match l with
  | [] => Ok []
  | a :: l' => x ← f a; rest ← collect f l'; Ok (x ++ rest)
  end.

Definition processRow (json : bytes → option Flatten.data) (fuel : nat) (k : katcTable) (p : prefilter) (dataQueries : list bytes)
    (path : bytes) (dataRawRow : row) : res (list row) :=
  rowBatch ← runSteps (rowTransformSteps k) [dataRawRow];
  collect (finish json fuel k p dataQueries path) rowBatch.

Definition filteredRow (k : katcTable) (r : row) : row := filter (λ cv, cv.1 ∈ columnLookup k) r.

Definition generate (json : bytes → option Flatten.data) (fuel : nat) (k : katcTable) (queryContext : Constraints.QueryContext) (t : temps)
    : res (list row) * temps :=
  match sourceType k with
  | None => (Err (Errorf "table source type not set"), t)
  | Some s =>
      let '(dataRaw, t) := dataFunc s fuel (sourcePaths k) (comparer k) (sourceQuery k) queryContext t in
      (dataRaw ← wrap "fetching data: %w" dataRaw;
       let dataQueries := if dataFlatten k then GetConstraints queryContext (bs "query") (WithDefaults [bs "*"]) else [] in
       p ← (if dataFlatten k then wrap "extracting prefilter from query context: %w" (ExtractPrefilterFromQuery queryContext)
            else Ok None);
       transformedResults ← collect (λ s, collect (processRow json fuel k p dataQueries (sourcePath s)) (rows s)) dataRaw;
       Ok (map (filteredRow k) transformedResults), t)
  end.
End Lib.
End Table.
