(* ===== verification/KatcTableFacts.v ===== *)
(** * ee/katc: what the tables report

    The rows of a batch are processed one by one; stored objects come out as rows of the table; temporary copies
    of databases are removed, but for one case; overlays; and what a panic costs. *)
From S2P Require Import Prelude Json Strings Paths Snake IdbValues IdbTotal IdbCodec KatcFirefox KatcWebkit KatcWebkitCodec.
From S2P Require Import IdbQuery Flatten KatcConstraints KatcTable.
Set Warnings "-clear-no-such-hyp".
Import Transform Sources TableHelpers Table.

Module KatcFacts.

(** ** Temporary directories *)

Lemma to_last_sep_name c p : Separator ∉ c → to_last_sep (c ++ Separator :: p) = Separator :: p.
Proof.
  induction c as [|b c IH]; intros Hc; [by cbn [app to_last_sep]; rewrite eqb_refl|].
  apply not_elem_of_cons in Hc as [Hb Hc]. cbn [app to_last_sep].
  destruct (b =b Separator) eqn:E; [apply eqb_eq in E; congruence|by apply IH].
Qed.

(** The directory of a file joined to a clean absolute path is that path. *)
Lemma Dir_Join d c : Forall name d → name c → Dir (Join [Paths.render true d; c]) = Paths.render true d.
Proof.
  intros Hd Hc. rewrite Join_pair by done. change (rooted (Paths.render true d)) with true.
  rewrite stack_render, app_nil_r by done. unfold stack. rewrite components_nosep by apply Hc. cbn [foldl].
  rewrite push_name_on by done. unfold Dir.
  assert (E : ∃ pre, Paths.render true (c :: d) = pre ++ Separator :: c ∧
    stack true [] (pre ++ [Separator]) = d ∧ rooted (pre ++ [Separator]) = true).
  { destruct d as [|e d].
    - exists []. by split_and!.
    - exists (Paths.render true (e :: d)). split_and!; [|by rewrite stack_app, stack_render, app_nil_r|done].
      unfold Paths.render. rewrite (reverse_cons (e :: d) c). rewrite join_app; [done| |done]. by apply reverse_not_nil. }
  destruct E as (pre & -> & Es & Er).
  rewrite reverse_app, reverse_cons, <- app_assoc. cbn [app].
  rewrite to_last_sep_name by (rewrite elem_of_reverse; apply Hc).
  rewrite reverse_cons, reverse_involutive. rewrite Clean_stack by (by destruct pre).
  by rewrite Er, Es.
Qed.

Lemma RemoveAll_new d t : d ∉ t → RemoveAll d (t ++ [d]) = t.
Proof.
  unfold RemoveAll, temps in *. intros Hd. induction t as [|x t IH]; cbn [app].
  - by rewrite filter_cons_False by auto.
  - apply not_elem_of_cons in Hd as [Hx Hd]. by rewrite filter_cons_True, IH by congruence.
Qed.

(** An absolute path as [Clean] leaves it *)
Definition clean_path (p : bytes) : Prop := ∃ d, Forall name d ∧ p = Paths.render true d.

Section Copies.
Context `{H : Host}.

Lemma copyFile_dest src d dest : copyFile src d = Ok dest → dest = Join [d; Base src].
Proof. unfold copyFile, failed. cbv zeta. repeat case_match; congruence. Qed.

Lemma copySqliteDb_Ok path d t dest : MkdirTemp (bs "sqlite-temp") = Ok d → copyFile path d = Ok dest →
  copySqliteDb path t = (dest, copyAux path d [bs "-wal"; bs "-shm"], t ++ [d]).
Proof. unfold copySqliteDb. by intros -> ->. Qed.

Lemma copySqliteDb_Err path d t e : MkdirTemp (bs "sqlite-temp") = Ok d → copyFile path d = Err e →
  copySqliteDb path t = ([], Some (Wrapf "copying %s: %w" e), t ++ [d]).
Proof. unfold copySqliteDb. by intros -> ->. Qed.

Lemma copyFile_cases src d : (∃ dest, copyFile src d = Ok dest) ∨ (∃ e, copyFile src d = Err e).
Proof. unfold copyFile, failed. cbv zeta. repeat case_match; eauto. Qed.

(** Querying a SQLite database makes a temporary directory for copies and, whether the auxiliary files can
    be copied, the database can be opened and the query succeeds or not, leaves none behind - unless
    copying the database itself fails: then the location is lost, and the directory stays. *)
Theorem querySqliteDb_temps path query t dir :
  MkdirTemp (bs "sqlite-temp") = Ok dir → clean_path dir → name (Base path) → dir ∉ t →
  (querySqliteDb path query t).2 = match copyFile path dir with Ok _ => t | _ => t ++ [dir] end.
Proof.
  intros Hm (d & Hd & ->) Hb Ht. unfold querySqliteDb.
  destruct (copyFile_cases path (Paths.render true d)) as [[dest E]|[e E]]; rewrite E.
  - rewrite (copySqliteDb_Ok _ _ _ _ Hm E). apply copyFile_dest in E as ->.
    assert (E0 : is_empty (Join [Paths.render true d; Base path]) = false) by by rewrite Join_pair.
    by destruct (copyAux _ _ _); cbn [snd]; [rewrite E0|]; rewrite Dir_Join, RemoveAll_new.
  - by rewrite (copySqliteDb_Err _ _ _ _ Hm E).
Qed.
End Copies.

(** ** Rows one by one *)

Section Rows.
Context `{C : Codecs} `{U : Unicode} `{MO : MapOrder} `{G : Values.GoLib} `{Ch : Charsets}.

Lemma collect_app_Ok {A B : Type} (f : A → res (list B)) l k out :
  collect f (l ++ k) = Ok out ↔ ∃ x y, collect f l = Ok x ∧ collect f k = Ok y ∧ out = x ++ y.
Proof.
  revert out. induction l as [|a l IH]; intros out; cbn [app collect].
  { split; [intros E; by exists [], out|]. by intros (x & y & [= <-] & E & ->). }
  destruct (f a) as [x| | |]; [|naive_solver..]. cbn [mbind res_bind].
  split.
  - destruct (collect f (l ++ k)) as [z| | |] eqn:E; [|done..]. intros [= <-].
    destruct (proj1 (IH z) eq_refl) as (x' & y & -> & -> & ->). exists (x ++ x'), y. by rewrite app_assoc.
  - destruct (collect f l) as [x'| | |] eqn:E; [|naive_solver..]. cbn [mbind res_bind].
    intros (? & y & [= <-] & E' & ->). assert (collect f (l ++ k) = Ok (x' ++ y)) as ->; [by apply IH; eauto|].
    cbn [mbind res_bind]. by rewrite app_assoc.
Qed.

Lemma collect_no_error {A B : Type} (f : A → res (list B)) l e :
  (∀ a e, f a ≠ Err e) → collect f l ≠ Err e.
Proof.
  intros Hf. induction l as [|a l IH]; [done|]. cbn [collect].
  destruct (f a) as [x|e'| |] eqn:E; [|by destruct (Hf a e')|done..]. cbn [mbind res_bind]. by destruct (collect f l).
Qed.

(** A step is a [collect] that leaves out the rows that fail. *)
Definition oneRow (s : rowTransformStep) (r : row) : res (list row) :=
  match transformFunc s r with Err _ => Ok [] | o => o end.

Lemma nextBatch_collect s l : nextBatch s l = collect (oneRow s) l.
Proof.
  induction l as [|r l IH]; [done|]. cbn [nextBatch collect]. rewrite IH.
  assert (oneRow s r = match transformFunc s r with Err _ => Ok [] | o => o end) as -> by done.
  destruct (transformFunc s r) as [x|e| |]; try reflexivity. cbn [mbind res_bind]. by destruct (collect _ l).
Qed.

Lemma runSteps_app_Ok l a b out :
  runSteps l (a ++ b) = Ok out ↔ ∃ x y, runSteps l a = Ok x ∧ runSteps l b = Ok y ∧ out = x ++ y.
Proof.
  revert a b out. induction l as [|s l IH]; intros a b out; cbn [runSteps].
  { split; [intros [= <-]; by exists a, b|]. by intros (x & y & [= <-] & [= <-] & ->). }
  rewrite !nextBatch_collect. split.
  - destruct (collect _ (a ++ b)) as [c| | |] eqn:E; [|done..].
    apply collect_app_Ok in E as (x & y & -> & -> & ->). cbn [mbind res_bind]. apply IH.
  - destruct (collect _ a) as [x| | |] eqn:Ea; [|naive_solver..].
    destruct (collect _ b) as [y| | |] eqn:Eb; [|naive_solver..]. cbn [mbind res_bind]. intros Hxy.
    assert (collect (oneRow s) (a ++ b) = Ok (x ++ y)) as ->; [by apply collect_app_Ok; eauto|].
    by apply IH.
Qed.

(** What the steps give for each row of a batch *)
Definition one_by_one (l : list rowTransformStep) (batch : list row) : res (list row) :=
  collect (λ r, runSteps l [r]) batch.

(** However many rows the steps before made of one, every row is transformed on its own: the steps
    over a batch give the rows they give for each of its rows, in order; one that fails is missing alone. *)
Theorem runSteps_rowwise l batch out :
  runSteps l batch = Ok out ↔ one_by_one l batch = Ok out.
Proof.
  unfold one_by_one.
  revert out. induction batch as [|r batch IH]; intros out; cbn [collect].
  { induction l as [|s l IH]; [done|exact IH]. }
  change (r :: batch) with ([r] ++ batch). rewrite runSteps_app_Ok. split.
  - intros (x & y & -> & E%IH & ->). by rewrite E.
  - destruct (runSteps l [r]) as [x| | |]; [|done..]. cbn [mbind res_bind].
    destruct (collect _ batch) as [y| | |]; [|done..]. intros [= <-]. exists x, y. naive_solver.
Qed.

(** Failures of steps are never failures of the table. *)
Lemma runSteps_no_error l batch e : runSteps l batch ≠ Err e.
Proof.
  revert batch. induction l as [|s l IH]; intros batch; [done|]. cbn [runSteps]. rewrite nextBatch_collect.
  assert (∀ e, collect (oneRow s) batch ≠ Err e) as Hc.
  { intros e0. apply collect_no_error. intros r e'. unfold oneRow. by destruct (transformFunc s r). }
  destruct (collect _ batch) as [b|e'| |]; cbn [mbind res_bind]; [apply IH|by destruct (Hc e')|done..].
Qed.
End Rows.

(** ** Tables *)

Section Tables.
Context `{H : Host} `{R : Regexp} `{L : Query.ChromeLib} `{C : Codecs} `{U : Unicode} `{MO : MapOrder}
  `{G : Values.GoLib} `{Ch : Charsets} `{FL : Flatten.FlattenLib} `{Ce : Cel}.

(** *** Configuration *)

(** The fields of [d], overridden by those [o] sets *)
Definition overridden (d o : katcTableDefinition) : katcTableDefinition :=
  Definition_ (match SourceType o with Some s => Some s | None => SourceType d end)
    (match SourcePaths o with Some s => Some s | None => SourcePaths d end)
    (match SourceQuery o with Some s => Some s | None => SourceQuery d end)
    (match RowTransformSteps o with Some s => Some s | None => RowTransformSteps d end)
    (match Comparer o with Some s => Some s | None => Comparer d end)
    (match DataFlatten o with Some s => Some s | None => DataFlatten d end).

Lemma define_overridden d o k : define o (define d k) = define (overridden d o) k.
Proof. by destruct o as [[] [] [] [] [] []]. Qed.

(** Overlays change a table by exactly the fields of the first one for this operating system: later ones
    for it, and those for others, do nothing. *)
Theorem newKatcTable_overlays name columns d before o after :
  Forall (λ o, filtersMatch (Filters o) = false) before → filtersMatch (Filters o) = true →
  newKatcTable name (Config columns d (before ++ o :: after)) =
    newKatcTable name (Config columns (overridden d (overlayDefinition o)) []).
Proof.
  intros Hb Ho. unfold newKatcTable. cbn [configDefinition Overlays]. cbv zeta.
  assert (∀ k, applyOverlay (before ++ o :: after) k = define (overlayDefinition o) k) as ->.
  { intros k. unfold applyOverlay. induction Hb as [|x l Hx _ IH]; cbn [app List.find]; [by rewrite Ho|by rewrite Hx]. }
  by rewrite define_overridden.
Qed.

(** The tables constructed are those of the configurations that parse, whatever the order they are ranged
    over, save those over LevelDB that ask for columns there are not. *)
Theorem ConstructKATCTables_spec parse config k columns :
  (k, columns) ∈ ConstructKATCTables parse config ↔
  ∃ name s cfg, config !! name = Some s ∧ parse s = Some cfg ∧ newKatcTable name cfg = (k, columns) ∧
    (sourceType k = Some leveldbSourceType → Forall (λ c, c ∈ leveldbExpectedColumns) columns).
Proof.
  assert (Hv : validateLeveldbTableColumns columns = Ok () ↔ Forall (λ c, c ∈ leveldbExpectedColumns) columns).
  { unfold validateLeveldbTableColumns. rewrite Forall_forall.
    assert (Hb : ∀ c, bool_decide (c ∈ leveldbExpectedColumns) = true ↔ c ∈ leveldbExpectedColumns)
      by (intros c; apply bool_decide_eq_true).
    destruct (forallb _ _) eqn:E; split; try done; intros Hc.
    - intros c Hin. apply Hb. eapply forallb_forall in E; [exact E|by apply list_elem_of_In].
    - exfalso. rewrite (proj2 (forallb_forall _ _)) in E; [done|].
      intros c Hin. apply Hb, Hc. by apply list_elem_of_In. }
  unfold ConstructKATCTables. rewrite list_elem_of_omap. split.
  - intros ([name s] & Hin & E). rewrite range_perm, elem_of_map_to_list in Hin.
    destruct (parse s) as [cfg|] eqn:Ep; [|done]. cbn [mbind option_bind] in E.
    exists name, s, cfg. destruct (newKatcTable name cfg) as [k' columns']. do 2 (split; [done|]).
    destruct (sourceType k') as [[| |]|] eqn:Et; [injection E as -> ->; split; [done|congruence]..| |
      injection E as -> ->; split; [done|congruence]].
    destruct (validateLeveldbTableColumns columns') as [[]| | |] eqn:Ev; [|done..]. injection E as -> ->.
    split; [done|]. intros _. by apply Hv.
  - intros (name & s & cfg & Hin & Ep & E & Hl). exists (name, s). rewrite range_perm, elem_of_map_to_list.
    split; [done|]. rewrite Ep. cbn [mbind option_bind]. rewrite E.
    destruct (sourceType k) as [[| |]|] eqn:Et; try done. by rewrite (proj2 Hv (Hl eq_refl)).
Qed.
(** *** The databases a query reaches *)

Definition accepted (queryContext : Constraints.QueryContext) (path : bytes) : Prop :=
  Constraints.checkPathConstraints path (Constraints.getPathConstraint queryContext) = Ok true.

Definition all_accepted (queryContext : Constraints.QueryContext) (dbs : list (res bytes)) : Prop :=
  ∀ db, Ok db ∈ dbs → accepted queryContext db.

Lemma validPaths_accepted qc paths : all_accepted qc (validPaths (Constraints.getPathConstraint qc) paths).
Proof.
  intros db. induction paths as [|p paths IH]; cbn [validPaths]; [by intros ?%not_elem_of_nil|].
  destruct (Constraints.checkPathConstraints _ _) as [[|]|e| |] eqn:E; [|done|..];
    [|by intros ?%list_elem_of_singleton..].
  intros [[= ->]|Hin]%elem_of_cons; [exact E|by apply IH].
Qed.

Lemma databases_accepted msg sourcePaths qc : all_accepted qc (databases msg sourcePaths qc).
Proof.
  intros db. unfold databases. induction sourcePaths as [|p l IH]; cbn [flat_map]; [by intros ?%not_elem_of_nil|].
  rewrite elem_of_app. intros [Hin|]; [|auto]. unfold globbed in Hin.
  destruct (Glob _); [by eapply validPaths_accepted| | |]; by apply list_elem_of_singleton in Hin.
Qed.

Lemma sqliteLoop_accepted qc query dbs results t l t' :
  all_accepted qc dbs → Forall (λ s, accepted qc (sourcePath s)) results →
  sqliteLoop query dbs results t = (Ok l, t') → Forall (λ s, accepted qc (sourcePath s)) l.
Proof.
  revert results t. induction dbs as [|db dbs IH]; cbn [sqliteLoop]; intros results t Hd Hr E; [by simplify_eq|].
  assert (Hd' : all_accepted qc dbs) by (intros x Hx; apply Hd; by right).
  destruct db as [db| | |]; try done. destruct (querySqliteDb db query t) as [[rows| | |] t1]; try done.
  - eapply (IH _ _ Hd'); [|exact E]. apply Forall_app; split; [done|]. apply Forall_singleton, Hd. by left.
  - by eapply (IH _ _ Hd').
Qed.

Lemma queryAll_accepted qc query msg dbs l :
  all_accepted qc dbs → queryAll query msg dbs = Ok l → Forall (λ s, accepted qc (sourcePath s)) l.
Proof.
  revert l. induction dbs as [|db dbs IH]; cbn [queryAll]; intros l Hd E; [by simplify_eq|].
  destruct db as [db| | |]; try done. cbn [mbind res_bind] in E.
  destruct (wrap msg (query db)) as [rows| | |]; try done. cbn [mbind res_bind] in E.
  destruct (queryAll query msg dbs) as [l'| | |]; try done. injection E as <-.
  constructor; [apply Hd; by left|]. apply IH; [|done]. intros x Hx. apply Hd. by right.
Qed.

Lemma indexeddbLeveldbData_accepted qc fuel sourcePaths comparer query l :
  indexeddbLeveldbData fuel sourcePaths comparer query qc = Ok l → Forall (λ s, accepted qc (sourcePath s)) l.
Proof.
  revert l. induction sourcePaths as [|p ps IH]; cbn [indexeddbLeveldbData]; intros l E; [by simplify_eq|].
  destruct (indexeddbPattern _ _ _ _ _) as [l1| | |] eqn:E1; try done. cbn [mbind res_bind] in E.
  destruct (indexeddbLeveldbData _ _ _ _ _) as [l2| | |]; try done. injection E as <-.
  apply Forall_app; split; [|by apply IH]. unfold indexeddbPattern in E1.
  destruct (Glob _) as [paths| | |]; try done. cbn [wrap mbind res_bind] in E1.
  destruct (extractIndexeddbQueryTargets query) as [[a b]| | |]; try done. cbn [wrap mbind res_bind] in E1.
  eapply queryAll_accepted; [apply validPaths_accepted|exact E1].
Qed.

Lemma dataFunc_accepted s fuel sourcePaths comparer query qc t l t' :
  dataFunc s fuel sourcePaths comparer query qc t = (Ok l, t') → Forall (λ s, accepted qc (sourcePath s)) l.
Proof.
  destruct s; cbn [dataFunc].
  - eapply sqliteLoop_accepted; [apply databases_accepted|constructor].
  - intros [= E _]. by eapply indexeddbLeveldbData_accepted.
  - intros [= E _]. by eapply queryAll_accepted; [apply databases_accepted|].
Qed.

Lemma elem_of_collect {A B : Type} (f : A → res (list B)) l out b :
  collect f l = Ok out → b ∈ out → ∃ a o, a ∈ l ∧ f a = Ok o ∧ b ∈ o.
Proof.
  revert out. induction l as [|a l IH]; intros out E Hb; cbn [collect] in E; [simplify_eq; by apply not_elem_of_nil in Hb|].
  destruct (f a) as [o| | |] eqn:Ea; try done. cbn [mbind res_bind] in E.
  destruct (collect f l) as [o'| | |]; try done. injection E as <-.
  apply elem_of_app in Hb as [Hb|Hb]; [exists a, o; split; [by left|done]|].
  destruct (IH o' eq_refl Hb) as (a' & o2 & Hin & E2 & Hb2). exists a', o2. split; [by right|done].
Qed.

Lemma flattenQueries_path json fuel r path p qs out x :
  flattenQueries json fuel r path p qs = Ok out → x ∈ out → x !! pathColumnName = Some path.
Proof.
  revert out. induction qs as [|q qs IH]; intros out E Hx; cbn [flattenQueries] in E; [simplify_eq; by apply not_elem_of_nil in Hx|].
  destruct (flattenRow _ _ _ _ _ _) as [o| | |] eqn:Eo; try done; [|by eapply IH].
  destruct (flattenQueries _ _ _ _ _ _) as [o'| | |]; try done. injection E as <-.
  apply elem_of_app in Hx as [Hx|Hx]; [|by eapply IH]. clear IH. unfold flattenRow in Eo.
  destruct (Flatten.Flatten _ _ _) as [fr| | |]; try done. injection Eo as <-.
  unfold ToMap in Hx. apply list_elem_of_In, in_map_iff in Hx as (fr0 & <- & _).
  destruct (Flatten.ParentKey fr0 (bs "/")) as [pa k]. do 6 rewrite lookup_insert_ne by discriminate. apply lookup_singleton_eq.
Qed.

(** Every row a table reports has the columns of the table only, and a path; with flattening, and also when no
    column of its own has that name, it is that of a database the constraints of the query accept. *)
Theorem generate_rows json fuel name cfg queryContext t out t' r :
  let '(k, columns) := newKatcTable name cfg in
  generate json fuel k queryContext t = (Ok out, t') → r ∈ out →
  (∀ c, is_Some (r !! c) → c ∈ columns) ∧
  ∃ path, accepted queryContext path ∧ is_Some (r !! pathColumnName) ∧
    (r !! pathColumnName = Some path ∨ dataFlatten k = false ∧
     ∃ raw batch r', runSteps (rowTransformSteps k) [raw] = Ok batch ∧ r' ∈ batch ∧ r !! pathColumnName = r' !! pathColumnName).
Proof.
  assert (∃ k columns, newKatcTable name cfg = (k, columns) ∧ columnLookup k = list_to_set columns ∧ pathColumnName ∈ columns)
    as (k & columns & -> & Hc & Hp).
  { unfold newKatcTable. cbv zeta. do 2 eexists. split; [reflexivity|]. split; [done|by left]. }
  unfold generate. intros E Hr. destruct (sourceType k) as [s|]; [|done].
  destruct (dataFunc _ _ _ _ _ _ _) as [data t1] eqn:Ed. injection E as E <-.
  destruct data as [data| | |]; try done. cbn [wrap mbind res_bind] in E. apply dataFunc_accepted in Ed.
  match type of E with (?m ≫= _) = _ => destruct m as [p| | |]; try done end. cbn [mbind res_bind] in E.
  match type of E with context [processRow json fuel k p ?q] => set (qs := q) in E end.
  destruct (collect _ data) as [rs| | |] eqn:Ec; try done. injection E as <-.
  apply list_elem_of_In, in_map_iff in Hr as (r0 & <- & Hr0%list_elem_of_In). split.
  { intros c [v Hv]. unfold filteredRow in Hv. apply map_lookup_filter_Some in Hv as [_ Hv].
    rewrite Hc in Hv. by apply elem_of_list_to_set in Hv. }
  assert (Hl : filteredRow k r0 !! pathColumnName = r0 !! pathColumnName).
  { unfold filteredRow. rewrite map_lookup_filter. destruct (r0 !! pathColumnName); [|done]. cbn [mbind option_bind].
    rewrite option_guard_True; [done|]. rewrite Hc. by apply elem_of_list_to_set. }
  rewrite Hl. eapply elem_of_collect in Ec as (src & o & Hsrc & Eo & Ho); [|exact Hr0].
  eapply elem_of_collect in Eo as (raw & o' & _ & Eo & Ho'); [|exact Ho].
  exists (sourcePath src). rewrite Forall_forall in Ed. split; [by apply Ed|].
  unfold processRow in Eo. destruct (runSteps _ _) as [batch| | |] eqn:Eb; try done. cbn [mbind res_bind] in Eo.
  eapply elem_of_collect in Eo as (r' & o2 & Hr' & E2 & Ho2); [|exact Ho'].
  unfold finish in E2. destruct (dataFlatten k) eqn:Ef.
  { pose proof (flattenQueries_path _ _ _ _ _ _ _ _ E2 Ho2) as Hpath. rewrite Hpath. split; [done|by left]. }
  injection E2 as <-. apply list_elem_of_singleton in Ho2 as ->.
  destruct (r' !! pathColumnName) as [v|] eqn:Ev.
  - rewrite (lookup_union_Some_l _ _ _ _ Ev). split; [done|]. right. split; [done|]. exists raw, batch, r'. by rewrite Ev.
  - rewrite lookup_union_r, lookup_singleton_eq by done. split; [done|by left].
Qed.
(** *** Stored values and corrupt ones *)

Lemma collect_processRow json fuel k p qs path l : dataFlatten k = false →
  collect (processRow json fuel k p qs path) l =
    (batch ← collect (λ r, runSteps (rowTransformSteps k) [r]) l; Ok (map (λ r, r ∪ {[pathColumnName := path]}) batch)).
Proof.
  intros Hf.
  assert (Hc : ∀ b, collect (finish json fuel k p qs path) b = Ok (map (λ r, r ∪ {[pathColumnName := path]}) b)).
  { induction b as [|r b IH]; [done|]. cbn [collect map]. rewrite IH.
    assert (finish json fuel k p qs path r = Ok [r ∪ {[pathColumnName := path]}]) as -> by (unfold finish; by rewrite Hf). done. }
  induction l as [|r l IH]; [done|]. cbn [collect]. rewrite IH.
  assert (processRow json fuel k p qs path r = (b ← runSteps (rowTransformSteps k) [r]; Ok (map (λ r, r ∪ {[pathColumnName := path]}) b))) as ->.
  { unfold processRow. destruct (runSteps _ _); [apply Hc|reflexivity..]. }
  destruct (runSteps _ [r]) as [b| | |]; try reflexivity. cbn [mbind res_bind].
  destruct (collect (λ r, runSteps (rowTransformSteps k) [r]) l); try reflexivity. cbn [mbind res_bind]. by rewrite map_app.
Qed.

(** The table of one database without flattening *)
Lemma generate_one_database json fuel k queryContext t t' pattern path rowsFromDb out :
  sourceType k = Some sqliteSourceType → sourcePaths k = [pattern] → dataFlatten k = false →
  Glob (sourcePatternToGlobbablePattern pattern) = Ok [path] → accepted queryContext path →
  querySqliteDb path (sourceQuery k) t = (Ok rowsFromDb, t') →
  one_by_one (rowTransformSteps k) rowsFromDb = out →
  generate json fuel k queryContext t =
    (batch ← out; Ok (map (λ r, filteredRow k (r ∪ {[pathColumnName := path]})) batch), t').
Proof.
  intros Hs Hp Hf Hg Ha Hq Hc. unfold generate. rewrite Hs, Hp, Hf. cbn [dataFunc]. unfold sqliteData, databases.
  cbn [flat_map]. unfold globbed. rewrite Hg. cbn [validPaths]. unfold accepted in Ha. rewrite Ha.
  cbn [app sqliteLoop]. rewrite Hq. cbn [sqliteLoop wrap mbind res_bind app collect]. f_equal. unfold one_by_one in Hc. subst out. cbn [sourcePath rows].
  rewrite collect_processRow by done. destruct (collect _ _) as [b| | |]; [|done..].
  cbn [mbind res_bind]. by rewrite app_nil_r, map_map.
Qed.

(** A database that can be copied and queried *)
Definition readable (path query : bytes) (columns : list bytes) (values : list (list bytes)) (t : temps) : Prop :=
  ∃ dir dest, MkdirTemp (bs "sqlite-temp") = Ok dir ∧ clean_path dir ∧ name (Base path) ∧
    (dir ∉ t) ∧ copyFile path dir = Ok dest ∧ copyAux path dir [bs "-wal"; bs "-shm"] = None ∧
    sqlOpen dest = None ∧ sqlQuery dest query = Ok (columns, map Ok values).

Lemma scanRows_Ok columns values : scanRows columns (map Ok values) = Ok (map (scanRow columns) values).
Proof. induction values as [|v values IH]; [done|]. cbn [map scanRows wrap mbind res_bind]. by rewrite IH. Qed.

Lemma querySqliteDb_readable path query columns values t :
  readable path query columns values t → querySqliteDb path query t = (Ok (map (scanRow columns) values), t).
Proof.
  intros (dir & dest & Hm & (d & Hd & ->) & Hb & Ht & Hc & Ha & Ho & Hq). unfold querySqliteDb.
  rewrite (copySqliteDb_Ok _ _ _ _ Hm Hc), Ha, Ho. cbn [failed]. rewrite Hq. cbn [wrap mbind res_bind].
  rewrite scanRows_Ok. apply copyFile_dest in Hc as ->. by rewrite Dir_Join, RemoveAll_new.
Qed.

(** An object WebKit stored, as the buffer in its database, and the row it should become *)
Definition stored (o : Z * list (WebkitCodec.wkstr * WebkitCodec.wkval) * bytes) (obj : gmap bytes (option bytes)) : Prop :=
  let '(version, props, _) := o in
  WebkitCodec.wf_u32 version ∧ IdbCodec.all (λ '(k, v), WebkitCodec.wf_str k ∧ WebkitCodec.wf v) props ∧
  WebkitCodec.render_row props = Some obj.

Definition buffer (o : Z * list (WebkitCodec.wkstr * WebkitCodec.wkval) * bytes) : bytes :=
  let '(version, props, trailing) := o in WebkitCodec.enc_row version props ++ trailing.

Lemma deserializeWebkit_step o obj : stored o obj →
  runSteps [deserializeWebkitTransformStep] [WebkitCodec.wk_row (buffer o)] = Ok [default [] <$> obj].
Proof.
  destruct o as [[version props] trailing]. intros (Hv & Hp & Hr). cbn [runSteps nextBatch transformFunc buffer].
  rewrite WebkitCodec.deserializeWebkit_row.
  by destruct (WebkitCodec.Deserialize_stored version props obj trailing Hv Hp Hr) as [w ->].
Qed.

(** C15: A table that reads the column "data" of a SQLite database in which WebKit stored objects and deserializes
    it reports exactly these objects: one row for each, in the order of the database, with the path added; and
    nothing of the copy it read from is left behind. *)
Theorem stored_objects_reported json fuel k queryContext t pattern path objects objs :
  sourceType k = Some sqliteSourceType → sourcePaths k = [pattern] → dataFlatten k = false →
  rowTransformSteps k = [deserializeWebkitTransformStep] →
  Glob (sourcePatternToGlobbablePattern pattern) = Ok [path] → accepted queryContext path →
  readable path (sourceQuery k) [bs "data"] (map (λ o, [WebkitCodec.quoted_blob (buffer o)]) objects) t →
  Forall2 stored objects objs →
  generate json fuel k queryContext t =
    (Ok (map (λ obj, filteredRow k ((default [] <$> obj) ∪ {[pathColumnName := path]})) objs), t).
Proof.
  intros Hs Hp Hf Hl Hg Ha Hr Ho. apply querySqliteDb_readable in Hr.
  erewrite generate_one_database; [|done..|exact Hr|reflexivity].
  unfold one_by_one. rewrite Hl, map_map. change (λ x, scanRow _ _) with (λ o, WebkitCodec.wk_row (buffer o)).
  assert (collect (λ r, runSteps [deserializeWebkitTransformStep] [r]) (map (λ o, WebkitCodec.wk_row (buffer o)) objects) =
    Ok (map (fmap (default [])) objs)) as ->.
  { clear Hr. induction Ho as [|o obj objects objs Ho _ IH]; [done|]. cbn [map collect].
    by rewrite (deserializeWebkit_step o obj Ho), IH. }
  cbn [mbind res_bind]. by rewrite map_map.
Qed.

Lemma collect_panic {A B : Type} (f : A → res (list B)) l a :
  (∀ a e, f a ≠ Err e) → (∀ a, f a ≠ NoFuel) → a ∈ l → f a = Panic → collect f l = Panic.
Proof.
  intros He Hn Hin Ha. induction Hin as [a l|a b l Hin IH]; cbn [collect]; [by rewrite Ha|]. rewrite (IH Ha).
  destruct (f b) eqn:E; [done|by destruct (He b e)|done|by destruct (Hn b)].
Qed.

Lemma deserialize_step_total r : runSteps [deserializeWebkitTransformStep] [r] ≠ NoFuel.
Proof.
  cbn [runSteps nextBatch transformFunc]. pose proof (WebkitTotal.deserializeWebkit_completes r) as Hc. unfold IdbTotal.completes in Hc.
  by destruct (Webkit.deserializeWebkit r).
Qed.

(** Where other corrupt values are left out of the result, one whose array buffer claims more than can be allocated
    makes the table panic, whatever the other rows are. *)
Lemma generate_corrupt json fuel k queryContext t pattern path objects version key subtag offset length n rest :
  sourceType k = Some sqliteSourceType → sourcePaths k = [pattern] → dataFlatten k = false →
  rowTransformSteps k = [deserializeWebkitTransformStep] →
  Glob (sourcePatternToGlobbablePattern pattern) = Ok [path] → accepted queryContext path →
  readable path (sourceQuery k) [bs "data"] (map (λ l, [WebkitCodec.quoted_blob l]) objects) t →
  WebkitCodec.corrupt_object version key subtag offset length n rest ∈ objects →
  WebkitCodec.wf_u32 version → WebkitCodec.wf_str key → 0 <= offset < two64 → 0 <= length < two64 → Values.maxAlloc < n < two64 →
  generate json fuel k queryContext t = (Panic, t).
Proof.
  intros Hs Hp Hf Hl Hg Ha Hr Hin Hv Hk Hof Hle Hn. apply querySqliteDb_readable in Hr.
  erewrite generate_one_database; [|done..|exact Hr|reflexivity].
  unfold one_by_one. rewrite Hl, map_map. change (λ x, scanRow _ _) with WebkitCodec.wk_row.
  rewrite (collect_panic _ _ (WebkitCodec.wk_row (WebkitCodec.corrupt_object version key subtag offset length n rest))); [done|..].
  - intros r e. apply runSteps_no_error.
  - apply deserialize_step_total.
  - apply list_elem_of_In, in_map, list_elem_of_In, Hin.
  - cbn [runSteps nextBatch transformFunc].
    by rewrite WebkitCodec.deserializeWebkit_row, WebkitCodec.Deserialize_corrupt.
Qed.
End Tables.

(** ** Witnesses *)

Definition exampleQuery : bytes := bs "SELECT data FROM records;".
Definition examplePath : bytes := bs "/home/u/app.db".
Definition exampleTemp : list bytes := [bs "sqlite-temp1"; bs "tmp"].

(** One database with the values given, and one that cannot be opened *)
Definition exampleHost (values : list bytes) : Host := {|
  GOOS := bs "linux";
  Glob _ := Ok [examplePath];
  MkdirTemp _ := Ok (Paths.render true exampleTemp);
  Open p := if bool_decide (p = bs "/home/u/locked.db") then Some (Errorf "permission denied") else None;
  Create _ := None;
  Copy _ _ := None;
  CloseFile _ := None;
  Exists p := bool_decide (p = examplePath ++ bs "-wal");
  sqlOpen _ := None;
  sqlQuery _ q := if bool_decide (q = exampleQuery) then Ok ([bs "data"], map (λ l, Ok [WebkitCodec.quoted_blob l]) values)
                  else Err (Errorf "no such column");
  openLevelDB _ _ := Err (Errorf "not a leveldb")
|}.

#[refine] Definition exampleOrder : MapOrder := {| range := map_to_list |}.
Proof. done. Defined.
Definition exampleCodecs : Codecs := {| KatcTable.snappyDecode := Some; zstdDecodeAll := Some; utf16 _ _ := Some |}.
Definition exampleFlatten : Flatten.FlattenLib := {| Flatten.FormatFloat _ _ := []; Flatten.plistUnmarshal _ := None |}.
Definition exampleCel : Cel := {| NewPrefilter _ := None |}.

Definition exampleTable : katcTable :=
  MkTable (bs "katc_app") (Some sqliteSourceType) [bs "/home/%/app.db"] exampleQuery (bs "idb_cmp1")
    [deserializeWebkitTransformStep] false (list_to_set [pathColumnName; bs "id"]).

Lemma is_name c : bool_decide ((c ≠ [] ∧ c ≠ dot ∧ Separator ∉ c) ∧ c ≠ dotdot) = true → name c.
Proof. intros Hc. by apply bool_decide_eq_true in Hc. Qed.

Lemma exampleTemp_clean : clean_path (Paths.render true exampleTemp).
Proof. exists exampleTemp. split; [|done]. repeat constructor; by apply is_name. Qed.

Lemma querySqliteDb_temps_witness :
  (@querySqliteDb (exampleHost []) (bs "/home/u/locked.db") exampleQuery [bs "/tmp/other"]).2 =
    [bs "/tmp/other"; bs "/tmp/sqlite-temp1"].
Proof.
  apply (@querySqliteDb_temps (exampleHost []) (bs "/home/u/locked.db") exampleQuery [bs "/tmp/other"] (Paths.render true exampleTemp));
    [reflexivity|exact exampleTemp_clean|by apply is_name|by apply (bool_decide_unpack _)].
Defined.

Lemma example_readable values :
  @readable (exampleHost values) examplePath exampleQuery [bs "data"] (map (λ l, [WebkitCodec.quoted_blob l]) values) [].
Proof.
  exists (Paths.render true exampleTemp), (bs "/tmp/sqlite-temp1/app.db"). split_and!; try done; try apply exampleTemp_clean.
  - by apply is_name.
  - apply not_elem_of_nil.
  - cbn [sqlQuery exampleHost]. rewrite bool_decide_eq_true_2 by done. by rewrite map_map.
Qed.

Lemma stored_objects_reported_witness :
  @generate (exampleHost [buffer (15, WebkitCodec.example_props, [x2a])]) Constraints.exampleRegexp Query.exampleLib exampleCodecs
    Snake.exampleUnicode exampleOrder IdbCodec.exampleLib WebkitCodec.exampleCharsets exampleFlatten exampleCel (λ _, None) 1
    exampleTable ∅ [] =
  (Ok [filteredRow exampleTable ((default [] <$> default ∅ (@WebkitCodec.render_row IdbCodec.exampleLib WebkitCodec.exampleCharsets
    WebkitCodec.example_props)) ∪ {[pathColumnName := examplePath]})], []).
Proof.
  pose proof WebkitCodec.example_rendered as He.
  destruct (@WebkitCodec.render_row IdbCodec.exampleLib WebkitCodec.exampleCharsets WebkitCodec.example_props) as [obj|] eqn:E; [|discriminate He].
  apply (@stored_objects_reported (exampleHost [buffer (15, WebkitCodec.example_props, [x2a])]) Constraints.exampleRegexp Query.exampleLib exampleCodecs
    Snake.exampleUnicode exampleOrder IdbCodec.exampleLib WebkitCodec.exampleCharsets exampleFlatten exampleCel (λ _, None) 1
    exampleTable ∅ [] (bs "/home/%/app.db") examplePath [(15, WebkitCodec.example_props, [x2a])] [obj]);
    try reflexivity.
  - exact (example_readable [_]).
  - constructor; [|constructor]. split; [|split]; [vm_compute; split; [discriminate|reflexivity]|exact WebkitCodec.wk_example_wf|exact E].
Defined.

Definition example_corrupt : bytes := WebkitCodec.corrupt_object 15 (WebkitCodec.Latin1 (bs "id")) x02 0 0 (2 ^ 62) [].

Lemma example_corrupt_panics :
  @generate (exampleHost [buffer (15, WebkitCodec.example_props, []); example_corrupt]) Constraints.exampleRegexp Query.exampleLib exampleCodecs
    Snake.exampleUnicode exampleOrder IdbCodec.exampleLib WebkitCodec.exampleCharsets exampleFlatten exampleCel (λ _, None) 1
    exampleTable ∅ [] = (Panic, []).
Proof.
  apply (@generate_corrupt (exampleHost [buffer (15, WebkitCodec.example_props, []); example_corrupt]) Constraints.exampleRegexp
    Query.exampleLib exampleCodecs Snake.exampleUnicode exampleOrder IdbCodec.exampleLib WebkitCodec.exampleCharsets exampleFlatten exampleCel
    (λ _, None) 1 exampleTable ∅ [] (bs "/home/%/app.db") examplePath [buffer (15, WebkitCodec.example_props, []); example_corrupt]
    15 (WebkitCodec.Latin1 (bs "id")) x02 0 0 (2 ^ 62) []);
    [reflexivity..| | | | | | |]; try (vm_compute; repeat split; try discriminate; eauto; fail).
  - exact (example_readable [_; _]).
  - right. left.
Qed.

Lemma newKatcTable_overlays_witness :
  let none := Definition_ None None None None None None in
  @newKatcTable (exampleHost []) (bs "t") (Config [bs "id"] none
    ([Overlay {[bs "goos" := bs "darwin"]} none] ++ Overlay {[bs "goos" := bs "linux"]} (Definition_ None None (Some (bs "q")) None None None) :: [])) =
  @newKatcTable (exampleHost []) (bs "t") (Config [bs "id"] (overridden none (Definition_ None None (Some (bs "q")) None None None)) []).
Proof.
  intros none. apply (@newKatcTable_overlays (exampleHost [])); [repeat constructor|reflexivity].
Defined.

Definition exampleConfig : katcTableConfig :=
  Config [bs "data"] (Definition_ (Some sqliteSourceType) (Some [bs "/home/%/app.db"]) (Some exampleQuery) None None None) [].

Definition example_generated : res (list row) * temps :=
  @generate (exampleHost [[x2a]]) Constraints.exampleRegexp Query.exampleLib exampleCodecs Snake.exampleUnicode exampleOrder
    IdbCodec.exampleLib WebkitCodec.exampleCharsets exampleFlatten exampleCel (λ _, None) 1
    (@newKatcTable (exampleHost [[x2a]]) (bs "katc_app") exampleConfig).1 ∅ [].

Lemma example_generated_one : match example_generated with (Ok out, _) => (length out =? 1)%nat | _ => false end = true.
Proof. vm_compute. reflexivity. Qed.

Lemma generate_rows_witness :
  match example_generated with
  | (Ok out, _) => length out = 1%nat ∧ ∀ r, r ∈ out → (∀ c, is_Some (r !! c) → c ∈ [pathColumnName; bs "data"])
  | _ => False
  end.
Proof.
  pose proof example_generated_one as Hl. destruct example_generated as [[out| | |] t] eqn:E; try discriminate Hl.
  split; [by apply Nat.eqb_eq|]. intros r Hr.
  pose proof (@generate_rows (exampleHost [[x2a]]) Constraints.exampleRegexp Query.exampleLib exampleCodecs Snake.exampleUnicode exampleOrder
    IdbCodec.exampleLib WebkitCodec.exampleCharsets exampleFlatten exampleCel (λ _, None) 1 (bs "katc_app") exampleConfig ∅ [] out t r) as Hg.
  exact (proj1 (Hg E Hr)).
Defined.
End KatcFacts.
