(* ===== verification/ExecParsers.v ===== *)
(** * ee/tables/execparsers: what commands print, as rows

    Each parser goes over the lines bufio.Scanner finds in the output of a command.  This file has those
    whose results are rows of strings; [ExecNested] has the others.  A row is an association list in the order its keys were set;
    they leave as JSON, which sorts them.  The regular expressions are matched by functions of their own. *)
From S2P Require Import Prelude Json Strings Http Decoders.
Set Warnings "-clear-no-such-hyp".
Import Decoders.Delimited.

(** [strings.ToLower] on what is all ASCII; beyond, Unicode has its say *)
Class Lower := {
  ToLower : bytes → bytes;
  ToLower_ascii s : forallb (in_range 0 127) s = true → ToLower s = map Http.lowerByte s
}.

#[export] Instance ascii_lower : Lower := {| ToLower := map Http.lowerByte; ToLower_ascii s _ := eq_refl |}.

Definition Row : Type := list (bytes * bytes).

(** [m[k] = v] *)
Fixpoint put {V} (k : bytes) (v : V) (m : list (bytes * V)) : list (bytes * V) :=
  match m with
  | [] => [(k, v)]
  | (k', v') :: m' => if bool_decide (k' = k) then (k, v) :: m' else (k', v') :: put k v m'
  end.

(** [m[k]] *)
Fixpoint get {V} (k : bytes) (m : list (bytes * V)) : option V :=
  match m with
  | [] => None
  | (k', v) :: m' => if bool_decide (k' = k) then Some v else get k m'
  end.

(** [\s] and the like in regular expressions *)
Definition re_space (b : byte) : bool := (b =b x09) || (b =b x0a) || (b =b x0c) || (b =b x0d) || (b =b x20).
Definition re_digit : byte → bool := in_range 48 57.
Definition re_alnum (b : byte) : bool := re_digit b || in_range 97 122 b.

Definition ltrim (s : bytes) : bytes := (span re_space s).2.
Definition rtrim (s : bytes) : bytes := reverse (ltrim (reverse s)).

Module ExecParsers.
Section Lib.
Context `{LO : Lower}.

(** ** apt, dnf *)
Definition aptLine (line : bytes) : option Row :=
  match Split line (bs "/") with
  | pair0 :: pair1 :: _ =>
      let packageName := ToLower (TrimSpace pair0) in
      if is_empty packageName then None
      else
        let values := Split pair1 (bs " ") in
        match values !! 0%nat, values !! 1%nat, values !! 5%nat with
        | Some v0, Some v1, Some v5 =>
            Some [(bs "package", packageName); (bs "sources", TrimSpace v0); (bs "update_version", TrimSpace v1);
                  (bs "current_version", TrimRight (TrimSpace v5) x5d)]
        | _, _, _ => None
        end
  | _ => None
  end.

Definition aptParse (raw : bytes) : list Row := omap aptLine (scan_lines raw).

Definition dnfLine (line : bytes) : option Row :=
  match Fields line with
  | [f0; f1; f2] =>
      match cut_last x2e f0 with
      | Some (name, _) => Some [(bs "package", TrimSpace name); (bs "version", TrimSpace f1); (bs "source", TrimSpace f2)]
      | None => None
      end
  | _ => None
  end.

Definition dnfParse (raw : bytes) : list Row := omap dnfLine (scan_lines raw).

(** ** dpkg *)
Definition dpkgKeys : list bytes :=
  map bs ["package"; "essential"; "priority"; "section"; "version"; "description"; "build-essential"]%string.

Definition dpkgField (line : bytes) (row : Row) : Row :=
  match cut (bs ": ") line with
  | Some (kv0, kv1) =>
      let key := ToLower (TrimSpace kv0) in
      if bool_decide (key ∈ dpkgKeys) then put key (TrimSpace kv1) row else row
  | None => row
  end.

Definition flush (row : Row) : list Row := if is_empty row then [] else [row].

Fixpoint dpkg_loop (lines : list bytes) (row : Row) : list Row :=
  match lines with
  | [] => flush row
  | line :: lines =>
      if is_empty line && negb (is_empty row) then row :: dpkg_loop lines [] else dpkg_loop lines (dpkgField line row)
  end.

Definition dpkgParse (raw : bytes) : list Row := dpkg_loop (scan_lines raw) [].

(** ** rpm *)
Definition rpmKeys : list bytes :=
  map bs ["name"; "version"; "release"; "install date"; "group"; "build date"; "summary"; "description"]%string.

Definition description : bytes := bs "description".

(** The key a line starts with, and what follows its colon, if it has one *)
Definition rpmSplit (line : bytes) : bytes * option bytes :=
  match cut (bs ":") line with
  | Some (kv0, kv1) => (ToLower (TrimSpace kv0), Some kv1)
  | None => (ToLower (TrimSpace line), None)
  end.

Fixpoint rpm_loop (lines : list bytes) (results : list Row) (row : Row) (readingDesc : bool) : res (list Row) :=
  match lines with
  | [] => Ok (results ++ flush row)
  | line :: lines =>
      let '(key, rest) := rpmSplit line in
      if bool_decide (key ∈ rpmKeys) then
        let '(results, row, readingDesc) :=
          if bool_decide (key = description) then (results, row, true)
          else if readingDesc then (results ++ [row], [], false)
          else (results, row, false) in
        match rest with
        | Some kv1 => rpm_loop lines results (put key (TrimSpace kv1) row) readingDesc
        | None => Panic                               (* kv[1] *)
        end
      else if readingDesc then
        rpm_loop lines results
          (put description (TrimSpace (default [] (get description row) ++ bs " " ++ TrimSpace line)) row) readingDesc
      else rpm_loop lines results row readingDesc
  end.

Definition rpmParse (raw : bytes) : res (list Row) := rpm_loop (scan_lines raw) [] [] false.

(** ** data_table *)
Record tableParser := TableParser { skipLines : nat; headers : list bytes; delimiter : bytes }.

Inductive parserOpt := WithSkipLines (n : nat) | WithHeaders (h : list bytes) | WithDelimiter (d : bytes).

Definition NewParser (opts : list parserOpt) : tableParser :=
  foldl (λ p o, match o with
                | WithSkipLines n => TableParser n (headers p) (delimiter p)
                | WithHeaders h => TableParser (skipLines p) h (delimiter p)
                | WithDelimiter d => TableParser (skipLines p) (headers p) d
                end) (TableParser 0 [] []) opts.

Definition lineSplit (p : tableParser) (line : bytes) (headerCount : nat) : list bytes :=
  if is_empty (delimiter p) then Fields line
  else if (0 <? headerCount)%nat then SplitN line (delimiter p) headerCount
  else Split line (delimiter p).

Fixpoint skip (n : nat) (lines : list bytes) : option (list bytes) :=
  match n, lines with
  | O, _ => Some lines
  | S _, [] => None
  | S n, _ :: lines => skip n lines
  end.

(** A row: fields beyond the headers, or headers beyond the fields, are left out *)
Definition tableRow (hs fields : list bytes) : Row :=
  foldl (λ r '(h, f), put (TrimSpace h) (TrimSpace f) r) [] (zip hs fields).

Fixpoint table_loop (p : tableParser) (hs : list bytes) (lines : list bytes) : list Row :=
  match lines with
  | [] => []
  | line :: lines =>
      if is_empty hs then
        if is_empty (TrimSpace line) then table_loop p hs lines else table_loop p (lineSplit p line 0) lines
      else tableRow hs (lineSplit p line (length hs)) :: table_loop p hs lines
  end.

Definition parseLines (p : tableParser) (raw : bytes) : res (list Row) :=
  match skip (skipLines p) (scan_lines raw) with
  | None => Err (Errorf "skipped past all lines of data")
  | Some lines => Ok (table_loop p (headers p) lines)
  end.

(** ** simple_array *)
Fixpoint chunks (l found : list bytes) : res (list bytes) :=
  match l with
  | [] => Ok found
  | chunk :: l =>
      let chunk := Trim (TrimSpace chunk) x22 in
      if is_empty chunk then chunks l found
      else if contains (bs " ") chunk then Err (Errorf "malformed chunk: %s in line %s")
      else chunks l (found ++ [chunk])
  end.

Fixpoint array_loop (lines found : list bytes) : res (list bytes) :=
  match lines with
  | [] => Ok found
  | line :: lines => found ← chunks (Split line (bs ",")) found; array_loop lines found
  end.

Definition simpleArrayParse (raw : bytes) : res (list bytes) := array_loop (scan_lines raw) [].

(** ** dsregcmd *)

(** [^\s*\+\-+\+\s*$] *)
Definition isStartHeader (line : bytes) : bool :=
  match ltrim line with
  | x2b :: l =>
      match span (Byte.eqb x2d) l with
      | (_ :: _, x2b :: rest) => forallb re_space rest
      | _ => false
      end
  | _ => false
  end.

(** [^\s*\|\s*(.+?)\s*\|\s*$]: the submatch.  The closing bar is the last one of the line; when there is only space
    inside, the last of it is the title. *)
Definition title (line : bytes) : option bytes :=
  match ltrim line with
  | x7c :: l =>
      match cut_last x7c l with
      | Some (inner, rest) =>
          if forallb re_space rest then
            match ltrim inner with
            | [] => match last inner with Some c => Some [c] | None => None end
            | t => Some (rtrim t)
            end
          else None
      | None => None
      end
  | _ => None
  end.

(** [^\s*(.*?)\s*:\s*(.*?)\s*$] *)
Definition dsregLine (line : bytes) : option (bytes * bytes) :=
  match cut (bs ":") line with
  | Some (k, v) => Some (rtrim (ltrim k), rtrim (ltrim v))
  | None => None
  end.

Fixpoint dsreg_loop (lines : list bytes) (section : bytes) (results : list (bytes * Row)) : res (list (bytes * Row)) :=
  match lines with
  | [] => Ok results
  | line :: lines =>
      if isStartHeader line then
        match lines with
        | [] => Err (Errorf "failed to read second section header line")
        | second :: lines =>
            match title second with
            | None => Err (Errorf "failed to parse section header, no second line: %s")
            | Some t =>
                match lines with
                | [] => Err (Errorf "failed to read third section header line")
                | third :: lines =>
                    if isStartHeader third then dsreg_loop lines t (put t [] results)
                    else Err (Errorf "third section header line mismatch: %s")
                end
            end
        end
      else
        match dsregLine line with
        | Some (k, v) =>
            if is_empty section then Err (Errorf "Found line before section header: %s")
            else dsreg_loop lines section (put section (put k v (default [] (get section results))) results)
        | None => dsreg_loop lines section results
        end
  end.

Definition parseDsreg (raw : bytes) : res (list (bytes * Row)) := dsreg_loop (scan_lines raw) [] [].

(** ** socketfilterfw *)
Definition sanitizeState (state : bytes) : bytes :=
  if bool_decide (state ∈ map bs ["0"; "off"; "disabled"; "4"]%string) then bs "0"
  else if bool_decide (state ∈ map bs ["1"; "2"; "on"; "enabled"; "connections"]%string) then bs "1"
  else if bool_decide (state ∈ map bs ["throttled"; "brief"; "detail"]%string) then state
  else [].

(** [(?:\s\(state:\s)([0-9]+)] at the front *)
Definition stateHere (s : bytes) : option bytes :=
  match s with
  | b :: s =>
      if re_space b && has_prefix (bs "(state:") s then
        match drop 7 s with
        | c :: s => if re_space c then match span re_digit s with ([], _) => None | (ds, _) => Some ds end else None
        | [] => None
        end
      else None
  | [] => None
  end.

(** [appRegex]: the first group is greedy, so the last place counts *)
Fixpoint appMatch (line : bytes) : option (bytes * bytes) :=
  match line with
  | [] => None
  | b :: line' =>
      match appMatch line' with
      | Some (name, ds) => Some (b :: name, ds)
      | None => match stateHere line with Some ds => Some ([], ds) | None => None end
      end
  end.

Definition parseAppList (line : bytes) : option Row :=
  match appMatch line with
  | Some (name, state) => Some [(bs "name", name); (bs "allow_incoming_connections", sanitizeState state)]
  | None => None
  end.

Definition features : list (bytes * bytes) :=
  map (λ '(a, b), (bs a, bs b))
    [("state", "global_state_enabled"); ("block", "block_all_enabled"); ("built-in", "allow_built-in_signed_enabled");
     ("downloaded", "allow_downloaded_signed_enabled"); ("stealth", "stealth_enabled"); ("log mode", "logging_enabled");
     ("log option", "logging_option")]%string.

(** [(?:.*\s)([0-9a-z]+)] at the front: after the last space that such a character follows *)
Fixpoint lastWord (s : bytes) : option bytes :=
  match s with
  | [] => None
  | b :: s' =>
      match lastWord s' with
      | Some w => Some w
      | None => if re_space b then match span re_alnum s' with ([], _) => None | (w, _) => Some w end else None
      end
  end.

(** [lineRegex]: at the first feature for which the rest matches, too *)
Fixpoint lineMatch (s : bytes) : option (bytes * bytes) :=
  let here :=
    match List.find (λ f, has_prefix f.1 s) features with
    | Some (name, key) => match lastWord (drop (length name) s) with Some w => Some (key, w) | None => None end
    | None => None
    end in
  match here, s with
  | Some m, _ => Some m
  | None, _ :: s' => lineMatch s'
  | None, [] => None
  end.

Definition parseLine (line : bytes) : option (bytes * bytes) :=
  match lineMatch (ToLower line) with Some (key, state) => Some (key, sanitizeState state) | None => None end.

Fixpoint filter_loop (lines : list bytes) (results : list Row) (row : Row) (parseAppData : bool) : list Row :=
  match lines with
  | [] => results ++ flush row
  | line :: lines =>
      if contains (bs "Total number of apps") line then filter_loop lines results row true
      else
        match (if parseAppData then parseAppList line else None) with
        | Some appRow => filter_loop lines (results ++ [appRow]) row parseAppData
        | None =>
            let row := match parseLine line with Some (k, v) => put k v row | None => row end in
            filter_loop lines results row parseAppData
        end
  end.

Definition socketfilterfwParse (raw : bytes) : list Row := filter_loop (scan_lines raw) [] [] false.

(** ** What a parser sees of the output *)
Lemma split_lines_app a : ∀ line rest, split_lines line (a ++ x0a :: rest) = split_lines line (a ++ [x0a]) ++ split_lines [] rest.
Proof.
  induction a as [|b a IH]; intros line rest; cbn [app split_lines]; [done|].
  destruct (b =b x0a); [|apply IH]. by rewrite IH.
Qed.

Lemma until_too_long_app l k : until_too_long (l ++ k) = until_too_long l ++ (if forallb (λ x, len x <? maxScanTokenSize) l then until_too_long k else []).
Proof. induction l as [|x l IH]; [done|]. cbn [app until_too_long forallb]. destruct (len x <? maxScanTokenSize); [cbn; by rewrite IH|done]. Qed.

Lemma scan_lines_long pre long rest :
  (∀ b, b ∈ long → (b =b x0a) = false) → maxScanTokenSize <= len long →
  scan_lines (pre ++ x0a :: long ++ x0a :: rest) = scan_lines (pre ++ [x0a]).
Proof.
  intros Hl Hlen. unfold scan_lines. rewrite split_lines_app, until_too_long_app.
  pose proof (long_line_hides_rest long rest Hl Hlen) as H. unfold scan_lines in H. cbn [app] in H. rewrite H.
  case_if; by rewrite ?app_nil_r.
Qed.

(** A line of 64 KiB or more ends the output for every parser that scans lines: what comes after it, and it itself, could
    as well not be there, and no parser says so: it returns what it returns for the shorter output. *)
Theorem long_line_truncates p pre long rest :
  (∀ b, b ∈ long → (b =b x0a) = false) → maxScanTokenSize <= len long →
  let raw := pre ++ x0a :: long ++ x0a :: rest in
  let seen := pre ++ [x0a] in
  aptParse raw = aptParse seen ∧ dnfParse raw = dnfParse seen ∧ dpkgParse raw = dpkgParse seen ∧ rpmParse raw = rpmParse seen ∧
  parseLines p raw = parseLines p seen ∧ simpleArrayParse raw = simpleArrayParse seen ∧ parseDsreg raw = parseDsreg seen ∧
  socketfilterfwParse raw = socketfilterfwParse seen.
Proof.
  intros Hl Hlen raw seen. pose proof (scan_lines_long pre long rest Hl Hlen) as H. fold raw seen in H.
  unfold aptParse, dnfParse, dpkgParse, rpmParse, parseLines, simpleArrayParse, parseDsreg, socketfilterfwParse.
  rewrite H. by split_and!.
Qed.

(** ** rpm *)

(** A line that is the name of a field and has no colon *)
Definition bare (line : bytes) : bool :=
  match cut (bs ":") line with None => bool_decide (ToLower (TrimSpace line) ∈ rpmKeys) | Some _ => false end.

Lemma rpm_loop_result lines : ∀ results row readingDesc,
  match rpm_loop lines results row readingDesc with
  | Ok _ => existsb bare lines = false
  | Panic => existsb bare lines = true
  | _ => False
  end.
Proof.
  induction lines as [|line lines IH]; intros results row readingDesc; cbn [rpm_loop existsb]; [done|].
  assert (Hb : bare line = match cut (bs ":") line with None => bool_decide (ToLower (TrimSpace line) ∈ rpmKeys) | Some _ => false end)
    by done.
  rewrite Hb. clear Hb. unfold rpmSplit. destruct (cut (bs ":") line) as [[kv0 kv1]|]; cbn [orb].
  - destruct (bool_decide (_ ∈ rpmKeys)); [|destruct readingDesc; apply IH].
    destruct (bool_decide (_ = description)); [apply IH|]. destruct readingDesc; apply IH.
  - destruct (bool_decide (_ ∈ rpmKeys)); cbn [orb]; [|destruct readingDesc; apply IH].
    destruct (bool_decide (_ = description)); [done|]. by destruct readingDesc.
Qed.

(** C29: A description line that consists of the name of a field ("Summary", "group") panics the parser, which takes the part
    after a colon that is not there; every other output is parsed. *)
Theorem rpmParse_outcome raw :
  match rpmParse raw with
  | Ok _ => ∀ line, line ∈ scan_lines raw → bare line = false
  | Panic => ∃ line, line ∈ scan_lines raw ∧ bare line = true
  | _ => False
  end.
Proof.
  unfold rpmParse. pose proof (rpm_loop_result (scan_lines raw) [] [] false) as H.
  destruct (rpm_loop _ _ _ _); try done.
  - intros line Hin. apply not_true_is_false. intros Hb. enough (existsb bare (scan_lines raw) = true) by congruence.
    apply existsb_exists. exists line. by rewrite <- list_elem_of_In.
  - apply existsb_exists in H as (line & Hin & Hb). exists line. by rewrite list_elem_of_In.
Qed.

(** ** dpkg *)

(** The stanzas between empty lines *)
Fixpoint stanzas (cur lines : list bytes) : list (list bytes) :=
  match lines with
  | [] => [cur]
  | line :: lines => if is_empty line then cur :: stanzas [] lines else stanzas (cur ++ [line]) lines
  end.

Definition stanza (lines : list bytes) : Row := foldl (λ row line, dpkgField line row) [] lines.

Lemma dpkgField_empty row : dpkgField [] row = row.
Proof. done. Qed.

Lemma dpkg_loop_stanzas lines : ∀ cur,
  dpkg_loop lines (stanza cur) = List.filter (λ row, negb (is_empty row)) (map stanza (stanzas cur lines)).
Proof.
  induction lines as [|line lines IH]; intros cur; cbn [dpkg_loop stanzas map List.filter].
  - unfold flush. by destruct (stanza cur).
  - destruct line as [|b line]; cbn [is_empty andb].
    + cbn [map List.filter]. rewrite <- IH. destruct (stanza cur) eqn:E; cbn [is_empty negb]; [by rewrite dpkgField_empty|done].
    + rewrite <- IH. f_equal. unfold stanza. by rewrite foldl_app.
Qed.

(** dpkgParse gives a row for each stanza that has a field it knows, made of that stanza's fields alone. *)
Theorem dpkgParse_stanzas raw :
  dpkgParse raw = List.filter (λ row, negb (is_empty row)) (map stanza (stanzas [] (scan_lines raw))).
Proof. apply (dpkg_loop_stanzas (scan_lines raw) []). Qed.
End Lib.

Lemma long_line_truncates_witness :
  let long := replicate (Z.to_nat maxScanTokenSize) x61 in
  dpkgParse (bs "Package: a" ++ x0a :: long ++ x0a :: bs "Version: 1") = dpkgParse (bs "Package: a" ++ [x0a]).
Proof.
  intros long. assert (H1 : ∀ b, b ∈ long → (b =b x0a) = false).
  { intros b Hb. unfold long in Hb. apply elem_of_replicate in Hb as [-> _]. reflexivity. }
  assert (H2 : maxScanTokenSize <= len long).
  { unfold long, len. rewrite length_replicate, Z2Nat.id; [apply Z.le_refl|by vm_compute]. }
  clearbody long.
  destruct (long_line_truncates (NewParser []) (bs "Package: a") long (bs "Version: 1") H1 H2) as (_ & _ & H & _). exact H.
Defined.

Lemma rpm_example :
  let lines l := concat (map (λ s, bs s ++ [x0a]) l) in
  rpmParse (lines ["Name: a"; "Description:"; "What this is about."]%string) =
    Ok [[(bs "name", bs "a"); (bs "description", bs "What this is about.")]] ∧
  rpmParse (lines ["Name: a"; "Description:"; "Summary"]%string) = Panic.
Proof. by vm_compute. Qed.
End ExecParsers.
