(* ===== verification/ExecNested.v ===== *)
(** * ee/tables/execparsers: output with nested data

    Keys and values with dots in their keys, repcli's sections by indentation, remotectl's devices, and the lists
    of softwareupdate, whose one parser is shared by all queries of two tables. *)
From S2P Require Import Prelude Json Strings Http Decoders ExecParsers.
Set Warnings "-clear-no-such-hyp,-register-all".
Import Decoders.Delimited.

(** ** key_value *)
Module KeyValue.

Inductive value := VString (s : bytes) | VArray (l : list value) | VMap (m : list (bytes * value)).

Definition setValueWithDuplicates (result : list (bytes * value)) (key v : bytes) : list (bytes * value) :=
  put key (match get key result with
           | Some (VArray l) => VArray (l ++ [VString v])
           | Some existing => VArray [existing; VString v]
           | None => VString v
           end) result.

(** The nested maps are updated in place; a path that meets something else replaces it. *)
Fixpoint setNestedValueWithDuplicates (current : list (bytes * value)) (parts : list bytes) (v : bytes) : list (bytes * value) :=
  match parts with
  | [] => current
  | [finalKey] => setValueWithDuplicates current finalKey v
  | part :: parts =>
      let nested := match get part current with Some (VMap m) => m | _ => [] end in
      put part (VMap (setNestedValueWithDuplicates nested parts v)) current
  end.

Definition unquote (value : bytes) : bytes :=
  if (2 <=? length value)%nat &&
     ((has_prefix [x22] value && has_suffix [x22] value) || (has_prefix [x27] value && has_suffix [x27] value))
  then drop 1 (take (length value - 1) value) else value.

Definition keyAndValue (kvDelimiter line : bytes) : option (bytes * bytes) :=
  let line := TrimSpace line in
  if is_empty line || has_prefix (bs "#") line || has_prefix (bs "//") line then None
  else match cut kvDelimiter line with Some (k, v) => Some (TrimSpace k, unquote (TrimSpace v)) | None => None end.

Definition assign (result : list (bytes * value)) (kv : bytes * bytes) : list (bytes * value) :=
  if contains (bs ".") kv.1 then setNestedValueWithDuplicates result (Split kv.1 (bs ".")) kv.2
  else setValueWithDuplicates result kv.1 kv.2.

Definition normalise (content : bytes) : bytes :=
  ReplaceAll [x0d] [x0a] (ReplaceAll [x0d; x0a] [x0a] (trim_prefix [xef; xbb; xbf] content)).

(** The delimiter is not empty. *)
Definition parseKeyValue (kvDelimiter raw : bytes) : list (bytes * value) :=
  foldl assign [] (omap (keyAndValue kvDelimiter) (Split (normalise raw) [x0a])).

(** The value that the assignments of one key come to *)
Definition collected (vs : list bytes) : option value :=
  match vs with [] => None | [v] => Some (VString v) | _ => Some (VArray (map VString vs)) end.

Definition values_of (k : bytes) (kvs : list (bytes * bytes)) : list bytes := omap (λ kv, if bool_decide (kv.1 = k) then Some kv.2 else None) kvs.

Lemma get_put {V} k k' (v : V) m : get k' (put k v m) = if bool_decide (k = k') then Some v else get k' m.
Proof.
  induction m as [|[k2 v2] m IH]; cbn [put get]; [done|].
  destruct (decide (k2 = k)) as [->|Hne].
  - rewrite (bool_decide_eq_true_2 (k = k)) by done. cbn [get]. by destruct (bool_decide (k = k')).
  - rewrite (bool_decide_eq_false_2 (k2 = k)) by done. cbn [get]. rewrite IH.
    destruct (decide (k2 = k')) as [->|Hne2]; [|by rewrite bool_decide_eq_false_2 by done].
    rewrite (bool_decide_eq_true_2 (k' = k')) by done. by rewrite bool_decide_eq_false_2 by done.
Qed.

(** A dotted key does not lead to [k]. *)
Definition apart (k : bytes) (kv : bytes * bytes) : bool :=
  negb (contains (bs ".") kv.1) || negb (bool_decide (head (Split kv.1 (bs ".")) = Some k)).

Lemma nested_apart parts v k : ∀ m, parts ≠ [] → head parts ≠ Some k → get k (setNestedValueWithDuplicates m parts v) = get k m.
Proof.
  intros m Hne Hh. destruct parts as [|p [|q ps]]; [done|..]; cbn [setNestedValueWithDuplicates head] in *;
    unfold setValueWithDuplicates; rewrite get_put, bool_decide_eq_false_2 by congruence; done.
Qed.

Lemma Split_cons s sep : Split s sep ≠ [].
Proof. unfold Split. destruct (length s); cbn [split_loop]; [done|]. by destruct (cut sep s) as [[]|]. Qed.

Lemma assign_collects k kvs : contains (bs ".") k = false → ∀ done_ m,
  forallb (apart k) kvs = true → get k m = collected done_ → get k (foldl assign m kvs) = collected (done_ ++ values_of k kvs).
Proof.
  intros Hk. induction kvs as [|[k' v] kvs IH]; intros done_ m Ha Hm; cbn [foldl forallb] in *; [by rewrite app_nil_r|].
  apply andb_prop in Ha as [Ha Has]. unfold values_of. cbn [omap list_omap fst snd].
  unfold assign at 2. cbn [fst snd]. unfold apart in Ha. cbn [fst] in Ha.
  destruct (contains (bs ".") k') eqn:Hd.
  - cbn [negb orb] in Ha. apply negb_true_iff, bool_decide_eq_false in Ha.
    rewrite (bool_decide_eq_false_2 (k' = k)) by congruence. apply IH; [done|].
    rewrite nested_apart; [done|apply Split_cons|done].
  - unfold setValueWithDuplicates. destruct (decide (k' = k)) as [->|Hne].
    + rewrite bool_decide_eq_true_2 by done. rewrite cons_middle, (app_assoc done_ [v]).
      apply IH; [done|]. rewrite get_put, bool_decide_eq_true_2, Hm by done.
      destruct done_ as [|a [|b l]]; [done|done|]. cbn [collected app map]. by rewrite map_app.
    + rewrite bool_decide_eq_false_2 by done. apply IH; [done|]. by rewrite get_put, bool_decide_eq_false_2 by done.
Qed.

(** Under a key without dots stands what its lines assign, in their order: nothing, the one value, or an array of all
    of them, as long as no dotted key leads there. *)
Theorem parseKeyValue_collects d raw k :
  let kvs := omap (keyAndValue d) (Split (normalise raw) [x0a]) in
  contains (bs ".") k = false → forallb (apart k) kvs = true → get k (parseKeyValue d raw) = collected (values_of k kvs).
Proof. intros kvs Hk Ha. unfold parseKeyValue. fold kvs. by rewrite (assign_collects k kvs Hk [] []). Qed.

Lemma parseKeyValue_collects_witness :
  let raw := concat (map (λ s, bs s ++ [x0a]) ["# settings"; "a=1"; "b.c='2'"; "a = 3"]%string) in
  get (bs "a") (parseKeyValue (bs "=") raw) = Some (VArray [VString (bs "1"); VString (bs "3")]).
Proof. intros raw. rewrite (parseKeyValue_collects (bs "=") raw (bs "a")); by vm_compute. Defined.
End KeyValue.

(** ** repcli *)
Module Repcli.

Record repcliLine := Line { isSectionHeader : bool; indentLevel : nat; key : bytes; lineValue : bytes }.

Inductive result := RString (s : bytes) | RStrings (l : list bytes) | RMap (m : list (bytes * result)).
Definition resultMap : Type := list (bytes * result).

Section Lib.
Context `{LO : Lower}.

Definition formatKey (key : bytes) : bytes := join (bs "_") (Fields (TrimSpace (ToLower key))).

Definition parseLine (line : bytes) : option repcliLine :=
  match line with
  | [] => None
  | _ =>
      match cut (bs ":") line with
      | None => None
      | Some (kv0, kv1) =>
          let indentLen := (length kv0 - length (trim_left (length kv0) spaces kv0))%nat in
          let formattedValue := TrimSpace kv1 in
          Some (Line (is_empty formattedValue) indentLen (formatKey kv0) formattedValue)
      end
  end.

(** The loop over the sections of the path, from the one at [idx] *)
Fixpoint updated (currentPaths : list repcliLine) (idx : nat) (rest : list repcliLine) (newSection : repcliLine) : list repcliLine :=
  match rest with
  | [] => currentPaths ++ [newSection]
  | sectionLine :: rest =>
      if (indentLevel sectionLine <? indentLevel newSection)%nat then updated currentPaths (S idx) rest newSection
      else if (indentLevel newSection <? indentLevel sectionLine)%nat then
        if (idx =? 0)%nat then [newSection] else take (idx - 1) currentPaths ++ [newSection]
      else take idx currentPaths ++ [newSection]
  end.

Definition updatedKeyPaths (currentPaths : list repcliLine) (newSection : repcliLine) : list repcliLine :=
  updated currentPaths 0 currentPaths newSection.

Fixpoint setNestedValue (results : resultMap) (lines : list (bytes * bytes)) : resultMap :=
  match lines with
  | [] => results
  | [(k, v)] =>
      put k (match get k results with
             | Some (RStrings knownValue) => RStrings (knownValue ++ [v])
             | Some (RString knownValue) => RStrings [knownValue; v]
             | Some (RMap _) | None => RString v
             end) results
  | (k, _) :: lines =>
      let existing := match get k results with Some (RMap m) => m | _ => [] end in
      put k (RMap (setNestedValue existing lines)) results
  end.

Definition pairs (path : list repcliLine) : list (bytes * bytes) := map (λ l, (key l, lineValue l)) path.

Definition takeLine (st : list repcliLine * resultMap) (line : repcliLine) : list repcliLine * resultMap :=
  let '(currentKeyPaths, results) := st in
  let currentKeyPaths := updatedKeyPaths currentKeyPaths line in
  (currentKeyPaths, if isSectionHeader line then results else setNestedValue results (pairs currentKeyPaths)).

Definition repcliParse (raw : bytes) : resultMap := (foldl takeLine ([], []) (omap parseLine (scan_lines raw))).2.

(** *** Where a line belongs *)

(** Each section of a path is indented more than the one before it. *)
Fixpoint nested (path : list repcliLine) : Prop :=
  match path with
  | l :: (l' :: _) as rest => (indentLevel l < indentLevel l')%nat ∧ nested rest
  | _ => True
  end.

(** The sections a line is indented under *)
Definition ancestors (path : list repcliLine) (n : nat) : list repcliLine :=
  List.filter (λ l, (indentLevel l <? n)%nat) path.

(** A line returns to a level that no section on the path has, between two that are there. *)
Definition between (path : list repcliLine) (n : nat) : bool :=
  negb (existsb (λ l, (indentLevel l =? n)%nat) path) && existsb (λ l, (n <? indentLevel l)%nat) path.

Lemma nested_above l path : nested (l :: path) → ∀ l', l' ∈ path → (indentLevel l < indentLevel l')%nat.
Proof.
  revert l. induction path as [|m path IH]; intros l Hn l' Hin; [by apply not_elem_of_nil in Hin|].
  destruct Hn as [Hlt Hn]. apply elem_of_cons in Hin as [->|Hin]; [done|]. specialize (IH m Hn l' Hin). lia.
Qed.

Lemma nested_tail l path : nested (l :: path) → nested path.
Proof. destruct path; [done|by intros []]. Qed.

Lemma filter_all_false {A} (p : A → bool) l : (∀ x, x ∈ l → p x = false) → List.filter p l = [].
Proof.
  induction l as [|x l IH]; intros H; [done|]. cbn [List.filter]. rewrite H by (by left). apply IH. intros y Hy. apply H. by right.
Qed.

Lemma existsb_none {A} (p : A → bool) l : (∀ x, x ∈ l → p x = false) → existsb p l = false.
Proof. induction l as [|x l IH]; intros H; [done|]. cbn [existsb]. rewrite H by (by left). apply IH. intros y Hy. apply H. by right. Qed.

Lemma updated_spec new rest : ∀ pre, nested rest → Forall (λ l, (indentLevel l < indentLevel new)%nat) pre →
  updated (pre ++ rest) (length pre) rest new =
    (if between rest (indentLevel new) then removelast (pre ++ ancestors rest (indentLevel new)) else pre ++ ancestors rest (indentLevel new))
    ++ [new].
Proof.
  induction rest as [|l rest IH]; intros pre Hn Hpre; cbn [updated]; [by rewrite !app_nil_r|].
  unfold ancestors, between. cbn [List.filter existsb].
  destruct (indentLevel l <? indentLevel new)%nat eqn:Hlt.
  - apply Nat.ltb_lt in Hlt. rewrite (proj2 (Nat.eqb_neq _ _)) by lia. rewrite (proj2 (Nat.ltb_ge (indentLevel new) (indentLevel l))) by lia.
    cbn [orb]. specialize (IH (pre ++ [l]) (nested_tail _ _ Hn)). rewrite length_app, <- !app_assoc in IH. cbn [length app] in IH.
    rewrite Nat.add_1_r in IH. apply IH. apply Forall_app. by repeat constructor.
  - apply Nat.ltb_ge in Hlt. pose proof (nested_above _ _ Hn) as Habove.
    rewrite (filter_all_false _ rest) by (intros x Hx; specialize (Habove x Hx); apply Nat.ltb_ge; lia). rewrite app_nil_r.
    destruct (indentLevel new <? indentLevel l)%nat eqn:Hgt.
    + apply Nat.ltb_lt in Hgt. rewrite (proj2 (Nat.eqb_neq (indentLevel l) (indentLevel new))) by lia. cbn [orb].
      rewrite (existsb_none (λ l0, (indentLevel l0 =? indentLevel new)%nat)) by (intros x Hx; specialize (Habove x Hx); apply Nat.eqb_neq; lia).
      cbn [negb andb]. destruct pre as [|a pre] using rev_ind; [done|]. rewrite removelast_last, length_app. cbn [length].
      rewrite Nat.add_1_r. cbn [Nat.eqb Nat.sub]. rewrite Nat.sub_0_r, <- app_assoc. by rewrite take_app_length.
    + apply Nat.ltb_ge in Hgt. rewrite (proj2 (Nat.eqb_eq (indentLevel l) (indentLevel new))) by lia. cbn [orb negb andb]. by rewrite take_app_length.
Qed.

Lemma nested_ancestors path n : nested path → nested (ancestors path n) ∧ Forall (λ l, (indentLevel l < n)%nat) (ancestors path n).
Proof.
  unfold ancestors. induction path as [|l path IH]; intros Hn; [done|]. cbn [List.filter].
  destruct (IH (nested_tail _ _ Hn)) as [H1 H2]. destruct (indentLevel l <? n)%nat eqn:E; [|done]. apply Nat.ltb_lt in E.
  split; [|by constructor]. destruct (List.filter _ path) as [|m f] eqn:Ef; [done|]. split; [|done].
  apply (nested_above _ _ Hn). assert (m ∈ List.filter (λ l, (indentLevel l <? n)%nat) path) as Hm by (rewrite Ef; by left).
  rewrite list_elem_of_In in *. by apply filter_In in Hm as [? _].
Qed.

Lemma nested_snoc path new : nested path → Forall (λ l, (indentLevel l < indentLevel new)%nat) path → nested (path ++ [new]).
Proof.
  induction path as [|l path IH]; intros Hn Hf; [done|]. inversion Hf as [|? ? Hl Hf']; subst.
  specialize (IH (nested_tail _ _ Hn) Hf'). destruct path as [|m path]; [done|]. destruct Hn as [Hlt _]. by split.
Qed.

Lemma nested_removelast path : nested path → nested (removelast path).
Proof.
  induction path as [|l path IH]; intros Hn; [done|]. cbn [removelast]. destruct path as [|m path]; [done|].
  specialize (IH (nested_tail _ _ Hn)). destruct Hn as [Hlt _]. cbn [removelast] in *. destruct path as [|m2 path]; [done|]. by split.
Qed.

Lemma Forall_removelast {A} (P : A → Prop) l : Forall P l → Forall P (removelast l).
Proof. induction 1 as [|x l Hx Hl IH]; [constructor|]. cbn [removelast]. destruct l; [constructor|by constructor]. Qed.

(** Along any output the path stays properly nested, and a line is put under the sections that are indented less
    than it; but when it goes back to a level between two on the path, under all of them but the innermost, so
    that its value is reported under the wrong section. *)
Theorem updatedKeyPaths_spec lines st l :
  st = foldl takeLine ([], []) lines →
  nested st.1 ∧
  updatedKeyPaths st.1 l =
    (if between st.1 (indentLevel l) then removelast (ancestors st.1 (indentLevel l)) else ancestors st.1 (indentLevel l)) ++ [l].
Proof.
  intros ->. assert (Hn : nested (foldl takeLine ([], []) lines).1).
  { induction lines as [|l' lines IH] using rev_ind; [done|]. rewrite foldl_app. cbn [foldl].
    destruct (foldl takeLine _ lines) as [path results]. cbn [takeLine fst] in *. unfold updatedKeyPaths.
    pose proof (updated_spec l' path [] IH (Forall_nil_2 _)) as E. cbn [app length] in E. rewrite E. clear E. destruct (nested_ancestors path (indentLevel l') IH) as [H1 H2].
    destruct (between _ _); apply nested_snoc; [by apply nested_removelast|by apply Forall_removelast|done|done]. }
  split; [done|]. exact (updated_spec l _ [] Hn (Forall_nil_2 _)).
Qed.
End Lib.

Lemma updatedKeyPaths_spec_witness :
  let lines := [Line true 0 (bs "a") []; Line true 4 (bs "b") []; Line false 8 (bs "c") (bs "1")] in
  map key (updatedKeyPaths (foldl takeLine ([], []) lines).1 (Line false 6 (bs "d") (bs "2"))) = [bs "a"; bs "d"].
Proof.
  intros lines. destruct (updatedKeyPaths_spec lines _ (Line false 6 (bs "d") (bs "2")) eq_refl) as [_ ->]. reflexivity.
Defined.

(** The value of d, inside section b, is reported as a/d. *)
Lemma wrong_section :
  let raw := concat (map (λ s, bs s ++ [x0a]) ["A:"; "    B:"; "        c: 1"; "      d: 2"]%string) in
  repcliParse raw = [(bs "a", RMap [(bs "b", RMap [(bs "c", RString (bs "1"))]); (bs "d", RString (bs "2"))])].
Proof. by vm_compute. Qed.
End Repcli.

(** ** remotectl *)
Module Remotectl.

Inductive value :=
| VString (s : bytes)
| VStrings (l : list bytes)                    (* []string *)
| VMap (m : list (bytes * value))
| VMaps (l : list (list (bytes * value))).     (* []map[string]any *)
Definition dict : Type := list (bytes * value).

(** [p.lastReadLine], and what the scanner has left *)
Definition input : Type := bytes * list bytes.

Definition starts (prefix : string) (line : bytes) : bool := has_prefix (bs prefix) (TrimSpace line).

(** [strings.LastIndex(line, tab)] *)
Definition getCurrentIndentationLevel (line : bytes) : Z :=
  match cut_last x09 line with Some (before, _) => len before | None => -1 end.

Definition extractKeyValue (line delimiter : bytes) : res (bytes * bytes) :=
  match Split line delimiter with
  | [k; v] => Ok (TrimSpace k, TrimSpace v)
  | _ => Err (Errorf "top-level key/value pair `%s` in remotectl output is in an unexpected format")
  end.
Definition extractPropertyKeyValue (line : bytes) : res (bytes * bytes) := extractKeyValue line (bs "=>").
Definition extractTopLevelKeyValue (line : bytes) : res (bytes * bytes) := extractKeyValue line (bs ":").

Fixpoint parseFeatures (lines : list bytes) (featuresResults : dict) : res (dict * input) :=
  match lines with
  | [] => Err (Errorf "unexpected end to features list")
  | line :: lines =>
      let last := TrimSpace line in
      if bool_decide (last = bs "]") then Ok (featuresResults, (last, lines))
      else '(k, v) ← extractKeyValue last (bs ":"); parseFeatures lines (put k (VString v) featuresResults)
  end.

Fixpoint parseDictionary (fuel : nat) (lines : list bytes) (dictionaryResults : dict) : res (dict * input) :=
  match fuel with
  | O => NoFuel
  | S fuel =>
      match lines with
      | [] => Err (Errorf "unexpected end to dictionary")
      | line :: lines =>
          let last := TrimSpace line in
          if bool_decide (last = bs "}") then Ok (dictionaryResults, (last, lines))
          else if has_prefix (bs "Features") last then
            '(f, (_, lines)) ← parseFeatures lines [];
            parseDictionary fuel lines (put (bs "Features") (VMap f) dictionaryResults)
          else if has_prefix (bs "EncryptedRemoteXPCPopulatedOIDs") last then
            '(f, (_, lines)) ← parseFeatures lines [];
            parseDictionary fuel lines (put (bs "EncryptedRemoteXPCPopulatedOIDs") (VMap f) dictionaryResults)
          else '(k, v) ← extractPropertyKeyValue last; parseDictionary fuel lines (put k (VString v) dictionaryResults)
      end
  end.

Fixpoint parseStringArray (starting : Z) (last : bytes) (lines arrayResults : list bytes) : list bytes * input :=
  match lines with
  | [] => (arrayResults, (last, []))
  | line :: lines =>
      let current := getCurrentIndentationLevel line in
      if current <=? starting then (arrayResults, (line, lines))
      else parseStringArray starting line lines (if current =? starting + 1 then arrayResults ++ [TrimSpace line] else arrayResults)
  end.

(** The last of the items, which is a map that is updated in place; there is none at first *)
Definition updateLast (f : dict → dict) (arrayResults : list dict) : res (list dict) :=
  match last arrayResults with Some item => Ok (removelast arrayResults ++ [f item]) | None => Panic end.

(** The items, whether the input has ended, and the input *)
Fixpoint parseObjectArray (fuel : nat) (starting : Z) (last : bytes) (lines : list bytes) (arrayResults : list dict)
    : res (list dict * bool * input) :=
  match fuel with
  | O => NoFuel
  | S fuel =>
      match lines with
      | [] => Ok (arrayResults, true, (last, []))
      | line :: lines =>
          let current := getCurrentIndentationLevel line in
          if current <=? starting then Ok (arrayResults, false, (line, lines))
          else if current =? starting + 1 then
            parseObjectArray fuel starting line lines (arrayResults ++ [[(bs "Name", VString (TrimSpace line))]])
          else
            _ ← updateLast id arrayResults;
            if starts "Properties:" line then
              '(d, (last, lines)) ← parseDictionary fuel lines [];
              arrayResults ← updateLast (put (bs "Properties") (VMap d)) arrayResults;
              parseObjectArray fuel starting last lines arrayResults
            else
              '(k, v) ← extractTopLevelKeyValue line;
              arrayResults ← updateLast (put k (VString v)) arrayResults;
              parseObjectArray fuel starting line lines arrayResults
      end
  end.

Fixpoint parseKeyValList (starting : Z) (last : bytes) (lines : list bytes) (listResults : dict) : res (dict * input) :=
  match lines with
  | [] => Ok (listResults, (last, []))
  | line :: lines =>
      if getCurrentIndentationLevel line <=? starting then Ok (listResults, (line, lines))
      else '(k, v) ← extractTopLevelKeyValue line; parseKeyValList starting line lines (put k (VString v) listResults)
  end.

(** [Services] or [Local Services], if the line is its title *)
Definition objects (title name : string) (fuel : nat) (dev : dict) (inp : input) : res (dict * bool * input) :=
  let '(last, lines) := inp in
  if starts title last then
    '(items, eof, inp) ← parseObjectArray fuel (getCurrentIndentationLevel last) last lines [];
    Ok (put (bs name) (VMaps items) dev, eof, inp)
  else Ok (dev, false, inp).

Definition isDeviceDelimiter (line : bytes) : bool := is_empty (TrimSpace line).

Fixpoint parseDevice (fuel : nat) (last : bytes) (lines : list bytes) (dev : dict) : res (dict * input) :=
  match fuel with
  | O => NoFuel
  | S fuel =>
      match lines with
      | [] => Ok (dev, (last, []))
      | line :: lines =>
          let '(dev, inp) :=
            if starts "Heartbeat:" line then
              let '(heartbeats, inp) := parseStringArray (getCurrentIndentationLevel line) line lines [] in
              (put (bs "Heartbeat") (VStrings heartbeats) dev, inp)
            else (dev, (line, lines)) in
          '(dev, eof, inp) ← objects "Services:" "Services" fuel dev inp;
          if (eof : bool) then Ok (dev, inp)
          else
            '(dev, eof, inp) ← objects "Local Services:" "Local Services" fuel dev inp;
            if (eof : bool) then Ok (dev, inp)
            else
              let '(last, lines) := inp in
              if starts "Properties:" last then
                '(d, (last, lines)) ← parseDictionary fuel lines [];
                parseDevice fuel last lines (put (bs "Properties") (VMap d) dev)
              else
                '(dev, (last, lines)) ←
                  (if starts "Identity:" last then
                     '(identity, inp) ← parseKeyValList (getCurrentIndentationLevel last) last lines [];
                     Ok (put (bs "Identity") (VMap identity) dev, inp)
                   else Ok (dev, (last, lines)));
                if isDeviceDelimiter last then Ok (dev, (last, lines))
                else '(k, v) ← extractTopLevelKeyValue last; parseDevice fuel last lines (put k (VString v) dev)
      end
  end.

Definition isDeviceName (line : bytes) : bool := negb (has_prefix [x09] line).
Definition extractDeviceName (line : bytes) : bytes := TrimSpace (trim_prefix (bs "Found") line).

Fixpoint dumpstate (fuel : nat) (lines : list bytes) (results : list (bytes * dict)) : res (list (bytes * dict)) :=
  match fuel with
  | O => NoFuel
  | S fuel =>
      match lines with
      | [] => Ok results
      | line :: lines =>
          if isDeviceName line then
            '(dev, (_, lines)) ← parseDevice fuel line lines [];
            dumpstate fuel lines (put (extractDeviceName line) dev results)
          else Err (Errorf "no device name(s) given in remotectl dumpstate output")
      end
  end.

(** One more than there are lines *)
Definition parseDumpstate (raw : bytes) : res (list (bytes * dict)) :=
  let lines := scan_lines raw in dumpstate (S (length lines)) lines [].

(** *** It comes to an end *)

(** What is left is shorter; a panic or an error ends everything. *)
Definition consumes {A} (n : nat) (r : res (A * input)) : Prop :=
  match r with Ok (_, (_, rest)) => (length rest <= n)%nat | NoFuel => False | Err _ | Panic => True end.

Lemma extract_fuel line d : extractKeyValue line d ≠ NoFuel.
Proof. unfold extractKeyValue. by destruct (Split line d) as [|? [|? [|]]]. Qed.

Lemma parseFeatures_consumes lines : ∀ acc, consumes (length lines) (parseFeatures lines acc).
Proof.
  induction lines as [|line lines IH]; intros acc; cbn [parseFeatures]; [done|].
  case_bool_decide; [cbn; lia|]. destruct (extractKeyValue _ _) as [[k v]| | |] eqn:E; try done; [|by apply extract_fuel in E].
  cbn [mbind res_bind]. specialize (IH (put k (VString v) acc)). unfold consumes in *. cbn [length].
  destruct (parseFeatures lines _) as [[? [? ?]]| | |]; try done; lia.
Qed.

Lemma parseDictionary_consumes fuel : ∀ lines acc, (length lines < fuel)%nat → consumes (length lines) (parseDictionary fuel lines acc).
Proof.
  induction fuel as [|fuel IH]; intros lines acc Hf; [lia|]. destruct lines as [|line lines]; [done|]. cbn [parseDictionary length] in *.
  case_bool_decide; [cbn; lia|].
  assert (Hgo : ∀ lines' acc', (length lines' <= length lines)%nat → consumes (S (length lines)) (parseDictionary fuel lines' acc')).
  { intros lines' acc' Hl. specialize (IH lines' acc' ltac:(lia)). unfold consumes in *.
    destruct (parseDictionary _ _ _) as [[? [? ?]]| | |]; try done; lia. }
  pose proof (parseFeatures_consumes lines []) as Hfe.
  case_if; [|case_if].
  - destruct (parseFeatures lines []) as [[f [? ?]]| | |]; try done. by apply Hgo.
  - destruct (parseFeatures lines []) as [[f [? ?]]| | |]; try done. by apply Hgo.
  - unfold extractPropertyKeyValue. destruct (extractKeyValue _ _) as [[k v]| | |] eqn:E; try done; [|by apply extract_fuel in E].
    by apply Hgo.
Qed.

Lemma parseStringArray_consumes starting lines : ∀ last acc, (length (parseStringArray starting last lines acc).2.2 <= length lines)%nat.
Proof.
  induction lines as [|line lines IH]; intros last acc; cbn [parseStringArray]; [done|]. case_if; [cbn; lia|]. cbn [length].
  specialize (IH line (if getCurrentIndentationLevel line =? starting + 1 then acc ++ [TrimSpace line] else acc)). lia.
Qed.

Lemma parseKeyValList_consumes starting lines : ∀ last acc, consumes (length lines) (parseKeyValList starting last lines acc).
Proof.
  induction lines as [|line lines IH]; intros last acc; cbn [parseKeyValList]; [cbn; lia|]. case_if; [cbn; lia|].
  unfold extractTopLevelKeyValue. destruct (extractKeyValue _ _) as [[k v]| | |] eqn:E; try done; [|by apply extract_fuel in E].
  cbn [mbind res_bind]. specialize (IH line (put k (VString v) acc)). unfold consumes in *. cbn [length].
  destruct (parseKeyValList _ _ _ _) as [[? [? ?]]| | |]; try done; lia.
Qed.

Lemma updateLast_fuel f l : updateLast f l ≠ NoFuel.
Proof. unfold updateLast. by destruct (last l). Qed.

Lemma parseObjectArray_consumes fuel starting : ∀ last lines acc, (length lines < fuel)%nat →
  consumes (length lines) (parseObjectArray fuel starting last lines acc).
Proof.
  induction fuel as [|fuel IH]; intros last lines acc Hf; [lia|]. destruct lines as [|line lines]; [cbn; lia|]. cbn [parseObjectArray length] in *.
  assert (Hgo : ∀ last' lines' acc', (length lines' <= length lines)%nat →
    consumes (S (length lines)) (parseObjectArray fuel starting last' lines' acc')).
  { intros last' lines' acc' Hl. specialize (IH last' lines' acc' ltac:(lia)). unfold consumes in *.
    destruct (parseObjectArray _ _ _ _ _) as [[? [? ?]]| | |]; try done; lia. }
  case_if; [cbn; lia|]. case_if; [by apply Hgo|].
  destruct (updateLast id acc) eqn:E0; try done; [|by apply updateLast_fuel in E0]. cbn [mbind res_bind]. clear E0.
  case_if.
  - pose proof (parseDictionary_consumes fuel lines [] ltac:(lia)) as Hd.
    destruct (parseDictionary fuel lines []) as [[d [l2 lines2]]| | |]; try done. cbn [mbind res_bind].
    destruct (updateLast _ acc) eqn:E1; try done; [|by apply updateLast_fuel in E1]. cbn [mbind res_bind]. by apply Hgo.
  - unfold extractTopLevelKeyValue. destruct (extractKeyValue _ _) as [[k v]| | |] eqn:E; try done; [|by apply extract_fuel in E].
    cbn [mbind res_bind]. destruct (updateLast _ acc) eqn:E1; try done; [|by apply updateLast_fuel in E1]. by apply Hgo.
Qed.

Lemma objects_consumes title name fuel dev inp : (length inp.2 < fuel)%nat → consumes (length inp.2) (objects title name fuel dev inp).
Proof.
  destruct inp as [l lines]. intros Hf. unfold objects. case_if; [|cbn; lia].
  pose proof (parseObjectArray_consumes fuel (getCurrentIndentationLevel l) l lines [] Hf) as H.
  by destruct (parseObjectArray _ _ _ _ _) as [[[? ?] [? ?]]| | |].
Qed.

Lemma parseDevice_consumes fuel : ∀ last lines dev, (length lines < fuel)%nat → consumes (length lines) (parseDevice fuel last lines dev).
Proof.
  induction fuel as [|fuel IH]; intros last lines dev Hf; [lia|]. destruct lines as [|line lines]; [cbn; lia|]. cbn [parseDevice length] in *.
  assert (Hgo : ∀ last' lines' dev', (length lines' <= length lines)%nat → consumes (S (length lines)) (parseDevice fuel last' lines' dev')).
  { intros last' lines' dev' Hl. specialize (IH last' lines' dev' ltac:(lia)). unfold consumes in *.
    destruct (parseDevice _ _ _ _) as [[? [? ?]]| | |]; try done; lia. }
  set (hb := if starts "Heartbeat:" line then _ else _).
  assert (Hhb : (length hb.2.2 <= length lines)%nat).
  { unfold hb. case_if; [|cbn; lia]. pose proof (parseStringArray_consumes (getCurrentIndentationLevel line) lines line []).
    by destruct (parseStringArray _ _ _ _) as [? [? ?]]. }
  clearbody hb. destruct hb as [dev1 inp1]. cbn [snd] in Hhb.
  pose proof (objects_consumes "Services:" "Services" fuel dev1 inp1 ltac:(lia)) as H2.
  destruct (objects _ _ _ dev1 inp1) as [[[dev2 eof2] [l2 lines2]]| | |]; try done. cbn [mbind res_bind consumes] in *.
  destruct eof2; [cbn; lia|].
  pose proof (objects_consumes "Local Services:" "Local Services" fuel dev2 (l2, lines2) ltac:(cbn; lia)) as H3. cbn [snd] in H3.
  destruct (objects _ _ _ dev2 (l2, lines2)) as [[[dev3 eof3] [l3 lines3]]| | |]; try done. cbn [mbind res_bind consumes] in *.
  destruct eof3; [cbn; lia|]. case_if.
  - pose proof (parseDictionary_consumes fuel lines3 [] ltac:(lia)) as Hd.
    destruct (parseDictionary fuel lines3 []) as [[d [l4 lines4]]| | |]; try done. cbn [mbind res_bind consumes] in *. apply Hgo. lia.
  - set (id_ := if starts "Identity:" l3 then _ else _).
    assert (Hid : consumes (length lines3) id_).
    { unfold id_. case_if; [|cbn; lia]. pose proof (parseKeyValList_consumes (getCurrentIndentationLevel l3) lines3 l3 []) as Hk.
      by destruct (parseKeyValList _ _ _ _) as [[? [? ?]]| | |]. }
    clearbody id_. destruct id_ as [[dev4 [l4 lines4]]| | |]; try done. cbn [mbind res_bind consumes] in *.
    case_if; [cbn; lia|].
    unfold extractTopLevelKeyValue. destruct (extractKeyValue _ _) as [[k v]| | |] eqn:E; try done; [|by apply extract_fuel in E].
    apply Hgo. lia.
Qed.

Lemma dumpstate_ends fuel : ∀ lines results, (length lines < fuel)%nat → dumpstate fuel lines results ≠ NoFuel.
Proof.
  induction fuel as [|fuel IH]; intros lines results Hf; [lia|]. destruct lines as [|line lines]; [done|]. cbn [dumpstate length] in *.
  case_if; [|done]. pose proof (parseDevice_consumes fuel line lines [] ltac:(lia)) as Hd.
  destruct (parseDevice _ _ _ _) as [[dev [l2 lines2]]| | |]; try done. cbn [mbind res_bind consumes] in *. apply IH. lia.
Qed.

(** remotectl's parser comes to an end on any output: every line is read once. *)
Theorem parseDumpstate_terminates raw : parseDumpstate raw ≠ NoFuel.
Proof. apply dumpstate_ends. lia. Qed.

Definition text (l : list bytes) : bytes := concat (map (λ s, s ++ [x0a]) l).
Definition tabs (n : nat) (s : string) : bytes := replicate n x09 ++ bs s.
Arguments tabs n s%_string.

(** Properties before the first item of an array panic; a device whose last section is Heartbeat fails the parser, and one
    with Identity in front of Services does, too; with Identity last, its last pair is the device's as well. *)
Lemma remotectl_examples :
  parseDumpstate (text [tabs 0%nat "Found a (b)"; tabs 1%nat "Services:"; tabs 3%nat "Version: 1"]) = Panic ∧
  returns (parseDumpstate (text [tabs 0%nat "Found a (b)"; tabs 1%nat "Heartbeat:"; tabs 2%nat "com.apple"])) ∧
  (∀ r, parseDumpstate (text [tabs 0%nat "Found a (b)"; tabs 1%nat "Heartbeat:"; tabs 2%nat "com.apple"]) ≠ Ok r) ∧
  (∀ r, parseDumpstate (text [tabs 0%nat "Found a (b)"; tabs 1%nat "Identity:"; tabs 2%nat "k: v"; tabs 1%nat "Services:"; tabs 2%nat "com.apple"]) ≠ Ok r) ∧
  parseDumpstate (text [tabs 0%nat "Found a (b)"; tabs 1%nat "Identity:"; tabs 2%nat "k: v"]) =
    Ok [(bs "a (b)", [(bs "Identity", VMap [(bs "k", VString (bs "v"))]); (bs "k", VString (bs "v"))])].
Proof. split_and!; [by vm_compute|by vm_compute|intros r; vm_compute; done|intros r; vm_compute; done|by vm_compute]. Qed.
End Remotectl.

(** ** softwareupdate

    The package has one parser, which holds the scanner; two tables use it, and up to five queries of each run at a
    time.  A step of a query is what it does between two uses of the scanner. *)
Module Softwareupdate.

Inductive query :=
| Fresh (raw : bytes)
| Top (results : list Row)                       (* the loop is about to scan *)
| Labelled (results : list Row) (label : bytes)  (* parseUpdate is about to scan *)
| Returned (results : list Row) (e : option err).

Fixpoint attributes (l : list bytes) (result : Row) : option Row :=
  match l with
  | [] => Some result
  | attr :: l => match cut (bs ":") attr with Some (k, v) => attributes l (put (TrimSpace k) (TrimSpace v) result) | None => None end
  end.

Definition parseUpdate (label line : bytes) : option Row :=
  attributes (Split (trim_suffix (bs ",") (TrimSpace line)) (bs ",")) [(bs "Label", label)].

Definition labelPrefix : bytes := bs "* Label:".
Definition upToDate (line : bytes) : bool := contains (bs "No new software available") (TrimSpace line).
Definition labelOf (line : bytes) : option bytes :=
  if has_prefix labelPrefix (TrimSpace line) then Some (TrimSpace (trim_prefix labelPrefix (TrimSpace line))) else None.

Definition badUpdate : option err := Some (Wrapf "could not parse software update data for label %s: %w" (Errorf "software update data")).

(** A step, on the lines the shared scanner has left *)
Definition step (scanner : list bytes) (q : query) : list bytes * query :=
  match q with
  | Fresh raw => (scan_lines raw, Top [])
  | Top results =>
      match scanner with
      | [] => ([], Returned results None)
      | line :: scanner =>
          if upToDate line then (scanner, Returned (results ++ [[(bs "UpToDate", bs "true")]]) None)
          else match labelOf line with Some label => (scanner, Labelled results label) | None => (scanner, Top results) end
      end
  | Labelled results label =>
      match scanner with
      | [] => ([], Returned results badUpdate)
      | line :: scanner =>
          match parseUpdate label line with
          | Some row => (scanner, Top (results ++ [row]))
          | None => (scanner, Returned results badUpdate)
          end
      end
  | Returned _ _ => (scanner, q)
  end.

(** The parser by itself *)
Fixpoint loop (lines : list bytes) (results : list Row) : list Row * option err :=
  match lines with
  | [] => (results, None)
  | line :: lines =>
      if upToDate line then (results ++ [[(bs "UpToDate", bs "true")]], None)
      else
        match labelOf line, lines with
        | None, _ => loop lines results
        | Some _, [] => (results, badUpdate)
        | Some label, data :: lines =>
            match parseUpdate label data with Some row => loop lines (results ++ [row]) | None => (results, badUpdate) end
        end
  end.

Definition parseSoftwareupdate (raw : bytes) : list Row * option err := loop (scan_lines raw) [].

(** Two queries; a turn says which one goes on. *)
Record state := State { scanner : list bytes; first : query; second : query }.

Definition turn (s : state) (who : bool) : state :=
  if who then let '(sc, q) := step (scanner s) (second s) in State sc (first s) q
  else let '(sc, q) := step (scanner s) (first s) in State sc q (second s).

Definition run (schedule : list bool) (s : state) : state := foldl turn s schedule.

Definition seconds (n : nat) : list bool := replicate n true.

(** Alone, a query goes through its lines; when it meets no end before theirs, the scanner is empty then. *)
Lemma alone n : ∀ lines results a, (length lines <= n)%nat → ∃ k sc,
  run (seconds k) (State lines a (Top results)) = State sc a (Returned (loop lines results).1 (loop lines results).2) ∧
  (existsb upToDate lines = false → (loop lines results).2 = None → sc = []).
Proof.
  induction n as [|n IH]; intros lines results a Hn.
  { destruct lines; [|cbn in Hn; lia]. by exists 1%nat, []. }
  destruct lines as [|line lines]; [by exists 1%nat, []|]. cbn [loop existsb length] in *.
  destruct (upToDate line) eqn:Hu.
  { exists 1%nat, lines. split; [|done]. unfold run, seconds. cbn [replicate foldl turn scanner second first step]. by rewrite Hu. }
  destruct (labelOf line) as [label|] eqn:Hl.
  - destruct lines as [|data lines].
    + exists 2%nat, []. split; [|done]. unfold run, seconds. cbn [replicate foldl turn scanner second first step]. by rewrite Hu, Hl.
    + destruct (parseUpdate label data) as [row|] eqn:Hp.
      * destruct (IH lines (results ++ [row]) a) as (k & sc & E & Hd); [cbn [length] in Hn; lia|]. exists (S (S k)), sc. split.
        -- unfold run, seconds in *. cbn [replicate foldl]. unfold turn at 2 3. cbn [scanner second first step]. rewrite Hu, Hl.
           cbn [scanner second first step]. by rewrite Hp.
        -- cbn [existsb orb]. intros He. apply Hd. by apply orb_false_elim in He as [_ ?].
      * exists 2%nat, lines. split; [|done]. unfold run, seconds. cbn [replicate foldl turn scanner second first step]. rewrite Hu, Hl.
        cbn [scanner second first step]. by rewrite Hp.
  - destruct (IH lines results a) as (k & sc & E & Hd); [lia|]. exists (S k), sc. split; [|done].
    unfold run, seconds in *. cbn [replicate foldl]. unfold turn at 2. cbn [scanner second first step]. by rewrite Hu, Hl.
Qed.

Lemma returned_stays n sc a rows e :
  run (seconds n) (State sc a (Returned rows e)) = State sc a (Returned rows e).
Proof. induction n as [|n IH]; [done|exact IH]. Qed.

(** C28: Two queries share the scanner: when a second one starts while the first is between two updates, and gets
    to the end of a well-formed output that does not say that everything is up to date before the first goes on, the
    first returns no error and just the updates it had collected until then, whatever was left of its own output. *)
Theorem shared_scanner_loses sc collected rawB rows :
  existsb upToDate (scan_lines rawB) = false → parseSoftwareupdate rawB = (rows, None) →
  ∃ k, ∀ n, (k <= n)%nat →
    run (seconds n ++ [false]) (State sc (Top collected) (Fresh rawB)) = State [] (Returned collected None) (Returned rows None).
Proof.
  intros Hu Hp. destruct (alone (length (scan_lines rawB)) (scan_lines rawB) [] (Top collected) (le_n _)) as (k & sc' & E & Hsc).
  unfold parseSoftwareupdate in Hp. rewrite Hp in E, Hsc. rewrite (Hsc Hu eq_refl) in E.
  exists (S k). intros n Hn. replace n with (1 + (k + (n - S k)))%nat by lia. unfold seconds in *.
  rewrite !replicate_add. unfold run in *. rewrite !foldl_app. cbn [replicate foldl turn scanner second first step].
  rewrite E. cbn [fst snd]. pose proof (returned_stays (n - S k) [] (Top collected) rows None) as Hr.
  unfold run, seconds in Hr. by rewrite Hr.
Qed.

(** The first query has collected one of its three updates when the second takes the scanner over. *)
Lemma shared_scanner_loses_witness :
  let update n := map (λ s, bs s ++ [x0a]) ["* Label: macOS" ++ n; "	Title: macOS, Version: " ++ n ++ ", Recommended: YES,"]%string in
  let raw := concat (concat (map update ["14.1"; "14.2"; "14.3"]%string)) in
  let row n := [(bs "Label", bs ("macOS" ++ n)); (bs "Title", bs "macOS"); (bs "Version", bs n); (bs "Recommended", bs "YES")] in
  ∃ k, run ([false; false; false] ++ seconds k ++ [false]) (State [] (Fresh raw) (Fresh raw)) =
    State [] (Returned [row "14.1"%string] None) (Returned (map row ["14.1"; "14.2"; "14.3"]%string) None).
Proof.
  intros update raw row.
  destruct (shared_scanner_loses (drop 2 (scan_lines raw)) [row "14.1"%string] raw (map row ["14.1"; "14.2"; "14.3"]%string))
    as (k & Hk); [by vm_compute..|].
  exists k. specialize (Hk k (le_n k)). unfold run in *. rewrite foldl_app.
  replace (foldl turn _ [false; false; false]) with (State (drop 2 (scan_lines raw)) (Top [row "14.1"%string]) (Fresh raw));
    [exact Hk|by vm_compute].
Defined.
End Softwareupdate.
