(* ===== verification/ExecTable.v ===== *)
(** * ee/tables/dataflattentable: tables of flattened data

    Two kinds of table turn data into rows of paths and values: [ExecTable] runs a command and flattens what a parser makes of its
    output, [FileTable] reads files and data given in the query.  Also the line matchers of
    ee/tables/tablehelpers, which some commands use instead of a parser. *)
From S2P Require Import Prelude Json Strings Snake Flatten Decoders KatcConstraints KatcTable.
Set Warnings "-clear-no-such-hyp".
Import TableHelpers.

(** Results of several parts: those that fail are left out. *)
Fixpoint collected {A B : Type} (f : A → res (list B)) (l : list A) : res (list B) :=
  match l with
  | [] => Ok []
  | a :: l =>
      match f a with
      | Ok x => rest ← collected f l; Ok (x ++ rest)
      | Err _ => collected f l
      | Panic => Panic
      | NoFuel => NoFuel
      end
  end.

(** What the parts that succeed give, in order *)
Definition successes {A B : Type} (f : A → res (list B)) (l : list A) : list B :=
  concat (map (λ a, match f a with Ok x => x | _ => [] end) l).

Lemma collected_successes {A B : Type} (f : A → res (list B)) l :
  (∀ a, a ∈ l → returns (f a)) → collected f l = Ok (successes f l).
Proof.
  induction l as [|a l IH]; intros H; [done|]. cbn [collected]. unfold successes. cbn [map concat].
  rewrite IH by (intros b Hb; apply H; by right). specialize (H a ltac:(by left)). unfold successes. by destruct (f a).
Qed.

(** ** Commands: exec_and_parse.go, flattener_from_parser.go *)
Module ExecTable.

Definition bytesFlattener : Type := bytes → list Flatten.FlattenOpts → res (list Flatten.row).

(** A parser's result goes through JSON. *)
Definition FlattenBytes `{Flatten.FlattenLib} {A : Type} (Parse : bytes → res A) (marshal : A → res bytes)
    (unmarshal : bytes → res Flatten.data) (fuel : nat) : bytesFlattener := λ raw opts,
  data ← wrap "error parsing data: %w" (Parse raw);
  jsonBytes ← wrap "marshalling json: %w" (marshal data);
  Wrappers.Json unmarshal fuel jsonBytes opts.

Record execTableV2 := ExecTableV2 {
  flattener : bytesFlattener;
  includeStderr : bool;
  reportStderr : bool;
  reportMissingBinary : bool
}.

Inductive execTableV2Opt := WithIncludeStderr | WithReportStderr | WithReportMissingBinary.

Definition apply_opt (t : execTableV2) (o : execTableV2Opt) : execTableV2 :=
  match o with
  | WithIncludeStderr => ExecTableV2 (flattener t) true (reportStderr t) (reportMissingBinary t)
  | WithReportStderr => ExecTableV2 (flattener t) (includeStderr t) true (reportMissingBinary t)
  | WithReportMissingBinary => ExecTableV2 (flattener t) (includeStderr t) (reportStderr t) true
  end.

Definition NewExecAndParseTable (p : bytesFlattener) (opts : list execTableV2Opt) : execTableV2 :=
  foldl apply_opt (ExecTableV2 p false false false) opts.

(** What comes of [tablehelpers.Run]: what it appends to the two buffers, and its error *)
Inductive runError := NotFound | Failed.
Record ran := Ran { toStdout : bytes; toStderr : bytes; runErr : option runError }.

Definition errorRow (value : bytes) (p : prefilter) : list (gmap bytes bytes) :=
  ToMap [Flatten.Row [bs "error"] value] (bs "*") (Expr p) ∅.

(** [stdErr = stdout] copies a buffer, which is empty. *)
Definition generate `{Cel} (tbl : execTableV2) (queryContext : Constraints.QueryContext) (run : ran) : res (list (gmap bytes bytes)) :=
  p ← wrap "extracting prefilter from query context: %w" (ExtractPrefilterFromQuery queryContext);
  let stdout := [] in
  let stdErr := if includeStderr tbl then stdout else [] in
  let stdout := stdout ++ toStdout run in
  let stdErr := stdErr ++ toStderr run in
  match runErr run with
  | Some NotFound => Ok (if reportMissingBinary tbl then errorRow (bs "binary is not present on device") p else [])
  | Some Failed => Ok (if reportStderr tbl && negb (is_empty stdErr) then errorRow stdErr p else [])
  | None =>
      results ← collected (λ dataQuery,
        flattened ← flattener tbl stdout (Flatten.WithQuery (Snake.split x2f dataQuery) :: Opts p);
        Ok (ToMap flattened dataQuery (Expr p) ∅)) (GetConstraints queryContext (bs "query") (WithDefaults [bs "*"]));
      Ok (results ++ if reportStderr tbl && negb (is_empty stdErr) then errorRow stdErr p else [])
  end.

(** No parser ever sees what a command writes to stderr, although WithIncludeStderr is to combine the two: it has no
    effect, and without WithReportStderr the rows do not depend on stderr at all. *)
Theorem stderr_never_parsed `{Cel} flattener opts queryContext out err err' e include missing :
  let tbl := NewExecAndParseTable flattener opts in
  generate (apply_opt tbl WithIncludeStderr) queryContext (Ran out err e) = generate tbl queryContext (Ran out err e) ∧
  generate (ExecTableV2 flattener include false missing) queryContext (Ran out err e) =
    generate (ExecTableV2 flattener (negb include) false missing) queryContext (Ran out err' e).
Proof.
  intros tbl. unfold generate. cbn [apply_opt ExecTable.flattener includeStderr reportStderr reportMissingBinary toStdout toStderr runErr].
  split; [by destruct (includeStderr tbl)|done].
Qed.
End ExecTable.

(** ** Files and data in the query: tables.go *)
Module FileTable.

Section Table.
Context `{Cel}.

(** The flattening functions, which may look at the query; reading a file; filepath.Glob *)
Variable flattenBytesFunc : Constraints.QueryContext → bytes → list Flatten.FlattenOpts → res (list Flatten.row).
Variable flattenFileFunc : option (Constraints.QueryContext → bytes → list Flatten.FlattenOpts → res (list Flatten.row)).
Variable ReadFile : bytes → res bytes.
Variable Glob : bytes → option (list bytes).

Definition generateRawData (qc : Constraints.QueryContext) (rawdata dataQuery prefilter : bytes) (flattenOpts : list Flatten.FlattenOpts)
    : res (list (gmap bytes bytes)) :=
  data ← wrap "parsing data: %w" (flattenBytesFunc qc rawdata flattenOpts);
  Ok (ToMap data dataQuery prefilter {[bs "raw_data" := rawdata]}).

Definition generatePath (qc : Constraints.QueryContext) (filePath dataQuery prefilter : bytes) (flattenOpts : list Flatten.FlattenOpts)
    : res (list (gmap bytes bytes)) :=
  data ← match flattenFileFunc with
         | Some f => wrap "parsing data: %w" (f qc filePath flattenOpts)
         | None => raw ← wrap "reading %s: %w" (ReadFile filePath); wrap "parsing data: %w" (flattenBytesFunc qc raw flattenOpts)
         end;
  Ok (ToMap data dataQuery prefilter {[bs "path" := filePath]}).

Definition queries (queryContext : Constraints.QueryContext) : list bytes :=
  GetConstraints queryContext (bs "query") (WithDefaults [bs "*"]).

Definition optsFor (p : prefilter) (dataQuery : bytes) : list Flatten.FlattenOpts :=
  Flatten.WithNestedPlist :: Opts p ++ [Flatten.WithQuery (Snake.split x2f dataQuery)].

(** The rows of one file, under every query *)
Definition fileRows (queryContext : Constraints.QueryContext) (p : prefilter) (filePath : bytes) : res (list (gmap bytes bytes)) :=
  collected (λ dataQuery, generatePath queryContext filePath dataQuery (Expr p) (optsFor p dataQuery)) (queries queryContext).

Definition rawRows (queryContext : Constraints.QueryContext) (p : prefilter) (rawdata : bytes) : res (list (gmap bytes bytes)) :=
  collected (λ dataQuery, generateRawData queryContext rawdata dataQuery (Expr p) (optsFor p dataQuery)) (queries queryContext).

Fixpoint pathRows (queryContext : Constraints.QueryContext) (p : prefilter) (requestedPaths : list bytes) : res (list (gmap bytes bytes)) :=
  match requestedPaths with
  | [] => Ok []
  | requestedPath :: requestedPaths =>
      match Glob (ReplaceAll (bs "%") (bs "*") requestedPath) with
      | None => Err (Errorf "bad glob: %w")
      | Some filePaths =>
          x ← collected (fileRows queryContext p) filePaths;
          rest ← pathRows queryContext p requestedPaths;
          Ok (x ++ rest)
      end
  end.

Definition generate (queryContext : Constraints.QueryContext) : res (list (gmap bytes bytes)) :=
  let requestedPaths := GetConstraints queryContext (bs "path") (WithDefaults []) in
  let requestedRawDatas := GetConstraints queryContext (bs "raw_data") (WithDefaults []) in
  if is_empty requestedPaths && is_empty requestedRawDatas
  then Err (Errorf "The %s table requires that you specify at least one of 'path' or 'raw_data'")
  else
    p ← wrap "extracting prefilter from query context: %w" (ExtractPrefilterFromQuery queryContext);
    paths ← pathRows queryContext p requestedPaths;
    raws ← collected (rawRows queryContext p) requestedRawDatas;
    Ok (paths ++ raws).

Hypothesis flattenBytes_returns : ∀ qc raw opts, returns (flattenBytesFunc qc raw opts).
Hypothesis flattenFile_returns : ∀ f qc path opts, flattenFileFunc = Some f → returns (f qc path opts).
Hypothesis ReadFile_returns : ∀ path, returns (ReadFile path).

Lemma generatePath_returns qc path q p opts : returns (generatePath qc path q p opts).
Proof.
  unfold generatePath. destruct flattenFileFunc as [f|] eqn:E.
  - pose proof (flattenFile_returns f qc path opts eq_refl). by destruct (f qc path opts).
  - pose proof (ReadFile_returns path). destruct (ReadFile path) as [raw| | |]; try done. cbn [wrap mbind res_bind].
    pose proof (flattenBytes_returns qc raw opts). by destruct (flattenBytesFunc qc raw opts).
Qed.

Lemma generateRawData_returns qc raw q p opts : returns (generateRawData qc raw q p opts).
Proof. unfold generateRawData. pose proof (flattenBytes_returns qc raw opts). by destruct (flattenBytesFunc qc raw opts). Qed.

(** The rows a file contributes: those of the queries for which it can be read and parsed *)
Definition rowsOf (queryContext : Constraints.QueryContext) (p : prefilter) (filePath : bytes) : list (gmap bytes bytes) :=
  successes (λ dataQuery, generatePath queryContext filePath dataQuery (Expr p) (optsFor p dataQuery)) (queries queryContext).

Lemma fileRows_eq qc p path : fileRows qc p path = Ok (rowsOf qc p path).
Proof. apply collected_successes. intros q _. apply generatePath_returns. Qed.

Lemma rawRows_eq qc p raw :
  rawRows qc p raw = Ok (successes (λ q, generateRawData qc raw q (Expr p) (optsFor p q)) (queries qc)).
Proof. apply collected_successes. intros q _. apply generateRawData_returns. Qed.

Lemma pathRows_eq qc p files : ∀ paths,
  (∀ path, path ∈ paths → Glob (ReplaceAll (bs "%") (bs "*") path) = Some (files path)) →
  pathRows qc p paths = Ok (concat (map (λ path, concat (map (rowsOf qc p) (files path))) paths)).
Proof.
  induction paths as [|path paths IH]; intros Hg; [done|]. cbn [pathRows map concat]. rewrite (Hg path) by (by left).
  rewrite collected_successes by (intros f _; by rewrite fileRows_eq). cbn [mbind res_bind].
  rewrite IH by (intros q Hq; apply Hg; by right). cbn [mbind res_bind]. f_equal. f_equal. unfold successes. f_equal.
  apply map_ext. intros f. by rewrite fileRows_eq.
Qed.

(** A table of files gives, for every file its patterns find and every query, the rows of what can be read and parsed, and
    then those of the data in the query; a file that fails takes no other's rows with it. *)
Theorem file_failures_isolated queryContext p files :
  is_empty (GetConstraints queryContext (bs "path") (WithDefaults [])) = false →
  (∀ path, path ∈ GetConstraints queryContext (bs "path") (WithDefaults []) → Glob (ReplaceAll (bs "%") (bs "*") path) = Some (files path)) →
  ExtractPrefilterFromQuery queryContext = Ok p →
  generate queryContext = Ok (
    concat (map (λ path, concat (map (rowsOf queryContext p) (files path))) (GetConstraints queryContext (bs "path") (WithDefaults []))) ++
    concat (map (λ raw, successes (λ q, generateRawData queryContext raw q (Expr p) (optsFor p q)) (queries queryContext))
                (GetConstraints queryContext (bs "raw_data") (WithDefaults [])))).
Proof.
  intros Hne Hg Hp. unfold generate. rewrite Hne, Hp. cbn [andb wrap mbind res_bind].
  rewrite (pathRows_eq queryContext p files _ Hg). cbn [mbind res_bind].
  rewrite collected_successes by (intros r _; by rewrite rawRows_eq). cbn [mbind res_bind]. f_equal. f_equal.
  unfold successes at 1. f_equal. apply map_ext. intros r. by rewrite rawRows_eq.
Qed.
End Table.

Lemma file_failures_isolated_witness :
  let cel : Cel := {| NewPrefilter _ := None |} in
  let flatten (_ : Constraints.QueryContext) raw (_ : list Flatten.FlattenOpts) :=
    if is_empty raw then Err EOF else Ok [Flatten.Row [bs "size"] (itoa (len raw))] in
  let read path := if bool_decide (path = bs "/b") then Err EOF else Ok path in
  let glob (path : bytes) := Some [bs "/a"; bs "/b"; path] in
  let qc : Constraints.QueryContext := {[bs "path" := [Constraints.MkConstraint Constraints.OperatorEquals (bs "/c")]]} in
  let size v := ToMap [Flatten.Row [bs "size"] (bs "2")] (bs "*") [] {[bs "path" := bs v]} in
  generate flatten None read glob qc = Ok (size "/a"%string ++ size "/c"%string).
Proof.
  intros cel flatten read glob qc size.
  assert (Hp : GetConstraints qc (bs "path") (WithDefaults []) = [bs "/c"]).
  { unfold GetConstraints. replace (qc !! bs "path") with (Some [Constraints.MkConstraint Constraints.OperatorEquals (bs "/c")])
      by (symmetry; apply lookup_singleton_eq). reflexivity. }
  assert (Hn : ∀ c d, c ≠ bs "path" → GetConstraints qc c (WithDefaults d) = d).
  { intros c d Hc. unfold GetConstraints. replace (qc !! c) with (@None (list Constraints.Constraint_))
      by (symmetry; apply lookup_singleton_ne; congruence). reflexivity. }
  rewrite (file_failures_isolated flatten None read glob) with (p := None) (files := λ path, [bs "/a"; bs "/b"; path]).
  - rewrite Hp, (Hn (bs "raw_data")) by done. cbn [map concat]. unfold rowsOf, queries. rewrite (Hn (bs "query")) by done. reflexivity.
  - intros ? raw ?. unfold flatten. by destruct (is_empty raw).
  - done.
  - intros path. unfold read. by case_bool_decide.
  - by rewrite Hp.
  - intros path Hin. rewrite Hp in Hin. apply list_elem_of_singleton in Hin as ->. reflexivity.
  - unfold ExtractPrefilterFromQuery. by rewrite (Hn (bs "prefilter")) by done.
Defined.
End FileTable.

(** ** Matchers of lines: ee/tables/tablehelpers/parser.go *)
Module OutputParser.

Record Matcher := { Match_ : bytes → bool; KeyFunc : bytes → res bytes; ValFunc : bytes → res bytes }.

Definition matched (line : bytes) (row : gmap bytes bytes) (m : Matcher) : gmap bytes bytes :=
  if Match_ m line then
    match KeyFunc m line, ValFunc m line with Ok key, Ok val => <[key := val]> row | _, _ => row end
  else row.

(** [Parse]: one row for the whole input *)
Definition Parse (matchers : list Matcher) (input : bytes) : gmap bytes bytes :=
  foldl (λ row line, if is_empty line then row else foldl (matched line) row matchers) ∅ (Delimited.scan_lines input).

(** [ParseMultiple]: a row for each line that matches *)
Definition ParseMultiple (matchers : list Matcher) (input : bytes) : list (gmap bytes bytes) :=
  omap (λ line, if is_empty line then None
                else let row := foldl (matched line) ∅ matchers in if bool_decide (row = ∅) then None else Some row)
    (Delimited.scan_lines input).

Lemma matched_empty line : ∀ matchers row, foldl (matched line) row matchers = foldl (matched line) ∅ matchers ∪ row.
Proof.
  induction matchers as [|m ms IH] using rev_ind; intros row; [cbn [foldl]; by rewrite (left_id_L ∅ (∪))|]. rewrite !foldl_app. cbn [foldl].
  rewrite IH. unfold matched at 1 3. destruct (Match_ m line); [|done].
  destruct (KeyFunc m line) as [k| | |]; try done. destruct (ValFunc m line) as [v| | |]; try done. by rewrite insert_union_l.
Qed.

(** The single row of Parse is that of the lines of ParseMultiple laid over each other, later ones first. *)
Theorem Parse_merges matchers input :
  Parse matchers input = foldl (λ acc row, row ∪ acc) ∅ (ParseMultiple matchers input).
Proof.
  unfold Parse, ParseMultiple.
  assert (H : ∀ lines acc, foldl (λ row line, if is_empty line then row else foldl (matched line) row matchers) acc lines =
    foldl (λ acc row, row ∪ acc) acc (omap (λ line, if is_empty line then None
      else let row := foldl (matched line) ∅ matchers in if bool_decide (row = ∅) then None else Some row) lines)); [|apply H].
  induction lines as [|line lines IH]; intros acc; [done|].
  cbn [foldl omap list_omap]. destruct (is_empty line); [apply IH|]. rewrite IH, (matched_empty line matchers acc).
  case_bool_decide as E; [|done]. by rewrite E, (left_id_L ∅ (∪)).
Qed.
End OutputParser.
