(* ===== verification/TableWrapper.v ===== *)
(** * ee/tables/tablewrapper: queries of a table under a limit and a deadline

    Every table of the launcher answers osquery through this wrapper.  A query runs in a goroutine of its own,
    for which one of five workers must be free; its caller waits for the result or for the deadline, whichever
    comes first.  The state has every query so far; a step is one action of a caller, a goroutine
    or the clock, and a run is any sequence of steps.  Last, the wrapper around a table of [KatcTable]. *)
From S2P Require Import Prelude KatcWebkit KatcWebkitCodec KatcConstraints KatcTable KatcTableFacts.
Set Warnings "-clear-no-such-hyp".

Module TableWrapper.

Definition numWorkers : nat := 5.
Definition DefaultTableTimeout : Z := 4 * 60 * 1000000000.

Section Wrapper.
Context {Q R : Type}.
Variable name : bytes.
Variable gen : nat → Q → res R.     (* what the n-th query of the table comes to; [NoFuel]: it does not end *)

(** Where the goroutine of a query is: none was started; in the query; the result is sent but the worker not yet
    released; after a panic the worker is released and the error not yet sent; ended *)
Inductive goroutine := NotStarted | Running | Returned | Unwound | Ended.

Record call := Call {
  queryContext : Q;
  deadline : Z;
  state : goroutine;
  resultChan : option (res R);       (* of capacity one *)
  answer : option (res R)            (* what the caller got *)
}.

Record wrappedTable := Wrapped {
  genTimeout : Z;
  now : Z;
  workers : nat;                     (* free ones *)
  calls : list call
}.

Definition newWrappedTable (timeout now : Z) : wrappedTable := Wrapped timeout now numWorkers [].

Inductive step :=
| Tick (d : Z)                       (* time passes *)
| FlagsChanged (timeout : Z)         (* with TableGenerateTimeout among the flags *)
| Generate (q : Q)                   (* a query comes *)
| Return (i : nat)                   (* its function returns, the result is sent *)
| Release (i : nat)                  (* the deferred release of the worker *)
| Unwind (i : nat)                   (* it panics: the deferred release comes first *)
| Recover (i : nat)                  (* then [onPanic] *)
| Receive (i : nat)                  (* the caller gets the result *)
| Timeout (i : nat)                  (* or the deadline has passed *)
| Cancel (i : nat).                  (* or the context of the query was cancelled *)

Definition with_call (w : wrappedTable) (i : nat) (c : call) (free : nat) : wrappedTable :=
  Wrapped (genTimeout w) (now w) free (<[i := c]> (calls w)).
Definition move (g : goroutine) (ch : option (res R)) (a : option (res R)) (c : call) : call :=
  Call (queryContext c) (deadline c) g ch a.

Definition noWorkers : res R := Err (Errorf "no workers available (limit %d)").
Definition panicked : res R := Err (Errorf "panic in %s: %w").
Definition timedOut : res R := Err (Errorf "querying %s timed out after %s (queried columns: %v)").

(** [generate], by a step each *)
Definition perform (l : step) (w : wrappedTable) : option wrappedTable :=
  match l with
  | Tick d => if 0 <=? d then Some (Wrapped (genTimeout w) (now w + d) (workers w) (calls w)) else None
  | FlagsChanged timeout => Some (Wrapped timeout (now w) (workers w) (calls w))
  | Generate q =>
      let c g a := Call q (now w + genTimeout w) g None a in
      Some match workers w with
           | O => Wrapped (genTimeout w) (now w) O (calls w ++ [c NotStarted (Some noWorkers)])
           | S free => Wrapped (genTimeout w) (now w) free (calls w ++ [c Running None])
           end
  | Return i =>
      c ← calls w !! i;
      match state c, resultChan c, gen i (queryContext c) with
      | Running, None, Ok r => Some (with_call w i (move Returned (Some (Ok r)) (answer c) c) (workers w))
      | Running, None, Err e => Some (with_call w i (move Returned (Some (Err e)) (answer c) c) (workers w))
      | _, _, _ => None
      end
  | Release i =>
      c ← calls w !! i;
      match state c with
      | Returned => Some (with_call w i (move Ended (resultChan c) (answer c) c) (S (workers w)))
      | _ => None
      end
  | Unwind i =>
      c ← calls w !! i;
      match state c, gen i (queryContext c) with
      | Running, Panic => Some (with_call w i (move Unwound (resultChan c) (answer c) c) (S (workers w)))
      | _, _ => None
      end
  | Recover i =>
      c ← calls w !! i;
      match state c, resultChan c with
      | Unwound, None => Some (with_call w i (move Ended (Some panicked) (answer c) c) (workers w))
      | _, _ => None
      end
  | Receive i =>
      c ← calls w !! i;
      match answer c, resultChan c with
      | None, Some r => Some (with_call w i (move (state c) None (Some r) c) (workers w))
      | _, _ => None
      end
  | Timeout i =>
      c ← calls w !! i;
      match answer c with
      | None => if deadline c <=? now w then Some (with_call w i (move (state c) (resultChan c) (Some timedOut) c) (workers w)) else None
      | Some _ => None
      end
  | Cancel i =>
      c ← calls w !! i;
      match answer c with
      | None => Some (with_call w i (move (state c) (resultChan c) (Some timedOut) c) (workers w))
      | Some _ => None
      end
  end.

Fixpoint run (l : list step) (w : wrappedTable) : option wrappedTable :=
  match l with [] => Some w | s :: l' => w ← perform s w; run l' w end.

Definition reachable (w : wrappedTable) : Prop := ∃ timeout now l, run l (newWrappedTable timeout now) = Some w.

(** ** The invariant *)

(** A query holds a worker until it is released. *)
Definition holds (c : call) : bool := match state c with Running | Returned => true | _ => false end.

(** What a caller may get: the result of its own query, with a panic as an error *)
Definition outcome (i : nat) (q : Q) : res R :=
  match gen i q with Panic => panicked | o => o end.

Definition call_ok (w : wrappedTable) (i : nat) (c : call) : Prop :=
  match state c with
  | NotStarted => resultChan c = None ∧ answer c = Some noWorkers
  | Running => resultChan c = None ∧ (answer c = None ∨ answer c = Some timedOut)
  | Unwound => resultChan c = None ∧ (answer c = None ∨ answer c = Some timedOut) ∧ gen i (queryContext c) = Panic
  | Returned | Ended =>
      gen i (queryContext c) ≠ NoFuel ∧
      (resultChan c = Some (outcome i (queryContext c)) ∧ (answer c = None ∨ answer c = Some timedOut) ∨
       resultChan c = None ∧ answer c = Some (outcome i (queryContext c)))
  end.

Definition inv (w : wrappedTable) : Prop :=
  (workers w + length (List.filter holds (calls w)) = numWorkers)%nat ∧
  ∀ i c, calls w !! i = Some c → call_ok w i c.

Lemma filter_insert l i c c' : l !! i = Some c →
  (length (List.filter holds (<[i := c']> l)) + (if holds c then 1 else 0) =
   length (List.filter holds l) + (if holds c' then 1 else 0))%nat.
Proof.
  revert i. induction l as [|x l IH]; intros [|i] Hi; [done..| |]; cbn in Hi.
  - simplify_eq. change (<[0%nat:=c']> (c :: l)) with (c' :: l). cbn [List.filter].
    destruct (holds c), (holds c'); cbn [length]; lia.
  - specialize (IH i Hi). change (<[S i:=c']> (x :: l)) with (x :: <[i:=c']> l). cbn [List.filter].
    destruct (holds x); cbn [length]; lia.
Qed.

Lemma inv_with_call w i c c' free :
  inv w → calls w !! i = Some c →
  (free + (if holds c' then 1 else 0) = workers w + (if holds c then 1 else 0))%nat →
  (call_ok w i c → call_ok w i c') → inv (with_call w i c' free).
Proof.
  intros [Hn Hc] Hi Hf Hok. pose proof (filter_insert _ _ _ c' Hi) as Hl. split; cbn [workers calls with_call].
  - destruct (holds c), (holds c'); lia.
  - intros j d Hj. destruct (decide (i = j)) as [<-|Hij].
    + rewrite list_lookup_insert_eq in Hj by (by eapply lookup_lt_Some). simplify_eq. by apply Hok, Hc.
    + rewrite list_lookup_insert_ne in Hj by done. by apply Hc.
Qed.

Lemma inv_step s w w' : inv w → perform s w = Some w' → inv w'.
Proof.
  intros Hinv E. destruct s as [d|t|q|i|i|i|i|i|i|i]; cbn [perform] in E.
  - destruct (0 <=? d); [|done]. by injection E as <-.
  - by injection E as <-.
  - destruct Hinv as [Hn Hc]. injection E as <-. split.
    + destruct (workers w); cbn [workers calls]; rewrite List.filter_app, length_app; cbn; lia.
    + intros i c Hi.
      assert (Hi' : calls w !! i = Some c ∨ c = Call q (now w + genTimeout w) (match workers w with O => NotStarted | S _ => Running end)
        None (match workers w with O => Some noWorkers | S _ => None end)).
      { destruct (workers w); cbn [calls] in Hi; apply lookup_app_Some in Hi as [Hi|[_ Hi]]; auto;
          apply list_lookup_singleton_Some in Hi as [_ <-]; auto. }
      destruct Hi' as [Hi'| ->]; [by apply Hc in Hi'; destruct (workers w)|].
      unfold call_ok. destruct (workers w); cbn; auto.
  - destruct (calls w !! i) as [c|] eqn:Hi; [|done]. cbn [mbind option_bind] in E.
    destruct (state c) eqn:Es; try done. destruct (resultChan c) eqn:Er; try done.
    destruct (gen i (queryContext c)) eqn:Eg; try done; injection E as <-;
      (eapply inv_with_call; [done|exact Hi|unfold holds; rewrite Es; done|]);
      unfold call_ok, outcome; rewrite Es; cbn; rewrite Eg; intros [_ Ha]; auto.
  - destruct (calls w !! i) as [c|] eqn:Hi; [|done]. cbn [mbind option_bind] in E.
    destruct (state c) eqn:Es; try done. injection E as <-.
    eapply inv_with_call; [done|exact Hi|unfold holds; rewrite Es; cbn; lia|]. unfold call_ok. by rewrite Es.
  - destruct (calls w !! i) as [c|] eqn:Hi; [|done]. cbn [mbind option_bind] in E.
    destruct (state c) eqn:Es; try done. destruct (gen i (queryContext c)) eqn:Eg; try done. injection E as <-.
    eapply inv_with_call; [done|exact Hi|unfold holds; rewrite Es; cbn; lia|].
    unfold call_ok. rewrite Es. cbn. rewrite Eg. intros [? ?]. auto.
  - destruct (calls w !! i) as [c|] eqn:Hi; [|done]. cbn [mbind option_bind] in E.
    destruct (state c) eqn:Es; try done. destruct (resultChan c) eqn:Er; try done. injection E as <-.
    eapply inv_with_call; [done|exact Hi|unfold holds; rewrite Es; cbn; lia|].
    unfold call_ok, outcome. rewrite Es. cbn. intros (_ & Ha & Eg). rewrite Eg. auto.
  - destruct (calls w !! i) as [c|] eqn:Hi; [|done]. cbn [mbind option_bind] in E.
    destruct (answer c) eqn:Ea; try done. destruct (resultChan c) as [r|] eqn:Er; try done. injection E as <-.
    eapply inv_with_call; [done|exact Hi|by unfold holds|].
    unfold call_ok. cbn. rewrite Ea, Er. destruct (state c); intros Hok; naive_solver.
  - destruct (calls w !! i) as [c|] eqn:Hi; [|done]. cbn [mbind option_bind] in E.
    destruct (answer c) eqn:Ea; try done. destruct (deadline c <=? now w); try done. injection E as <-.
    eapply inv_with_call; [done|exact Hi|by unfold holds|].
    unfold call_ok. cbn. rewrite Ea. destruct (state c); intros Hok; naive_solver.
  - destruct (calls w !! i) as [c|] eqn:Hi; [|done]. cbn [mbind option_bind] in E.
    destruct (answer c) eqn:Ea; try done. injection E as <-.
    eapply inv_with_call; [done|exact Hi|by unfold holds|].
    unfold call_ok. cbn. rewrite Ea. destruct (state c); intros Hok; naive_solver.
Qed.

Lemma inv_run l : ∀ w w', inv w → run l w = Some w' → inv w'.
Proof.
  induction l as [|s l IH]; intros w w' Hinv E; cbn [run] in E; [by simplify_eq|].
  destruct (perform s w) as [w1|] eqn:E1; [|done]. cbn [mbind option_bind] in E. eapply IH; [|exact E]. by eapply inv_step.
Qed.

Lemma reachable_inv w : reachable w → inv w.
Proof. intros (t & n & l & E). eapply inv_run; [|exact E]. split; [done|]. intros i c Hi. by destruct i. Qed.

(** In every interleaving at most five functions of a table run at once, the free workers and those held are
    always five, and the channel of a query has room whenever its goroutine sends: none of them waits. *)
Theorem workers_accounted w :
  reachable w →
  (workers w + length (List.filter holds (calls w)) = numWorkers)%nat ∧
  ∀ i c, calls w !! i = Some c → match state c with Running | Unwound => resultChan c = None | _ => True end.
Proof.
  intros [Hn Hc]%reachable_inv. split; [done|]. intros i c Hi. specialize (Hc i c Hi). unfold call_ok in Hc.
  by destruct (state c); try done; destruct Hc.
Qed.

(** The answers: those of the query itself, a time-out, or a refusal; a time-out only once the deadline has
    passed, unless the query was cancelled *)
Definition honest (w : wrappedTable) (i : nat) (c : call) : Prop :=
  match answer c with
  | None => True
  | Some r => r = noWorkers ∨ r = timedOut ∨ r = outcome i (queryContext c)
  end.

Lemma reachable_honest w i c : reachable w → calls w !! i = Some c → honest w i c.
Proof.
  intros [_ Hc]%reachable_inv Hi. specialize (Hc i c Hi). unfold call_ok in Hc. unfold honest.
  destruct (answer c) as [r|]; [|done].
  destruct (state c); naive_solver.
Qed.

(** A caller gets rows only if its own query returned them; a panic of the query is an error for its caller
    and for no other, and leaves its worker free for the next query. *)
Theorem answers_own w i c r :
  reachable w → calls w !! i = Some c → answer c = Some (Ok r) → gen i (queryContext c) = Ok r.
Proof.
  intros Hr Hi Ha. pose proof (reachable_honest w i c Hr Hi) as Hh. unfold honest in Hh. rewrite Ha in Hh.
  unfold outcome in Hh. by destruct (gen i (queryContext c)); destruct Hh as [|[|]].
Qed.

(** *** Every query that ends frees its worker *)

(** What is left to do of a goroutine *)
Definition rest_of (i : nat) (c : call) : list step :=
  match state c with
  | Running => match gen i (queryContext c) with Panic => [Unwind i; Recover i] | NoFuel => [] | _ => [Return i; Release i] end
  | Returned => [Release i]
  | Unwound => [Recover i]
  | _ => []
  end.

Lemma calls_with_call w i c free : calls (with_call w i c free) = <[i := c]> (calls w).
Proof. done. Qed.

Lemma perform_rest w i c : inv w → calls w !! i = Some c → gen i (queryContext c) ≠ NoFuel →
  ∃ w' c', run (rest_of i c) w = Some w' ∧ calls w' = <[i := c']> (calls w) ∧ queryContext c' = queryContext c ∧
    (state c' = Ended ∨ state c' = NotStarted).
Proof.
  intros [_ Hc] Hi Hg. specialize (Hc i c Hi). unfold call_ok in Hc. unfold rest_of.
  pose proof (lookup_lt_Some _ _ _ Hi) as Hlt.
  destruct (state c) eqn:Es.
  - exists w, c. split; [done|]. split; [by rewrite list_insert_id|]. auto.
  - destruct Hc as [Er _]. destruct (gen i (queryContext c)) eqn:Eg; [| | |done];
      cbn [run perform]; rewrite Hi; cbn [mbind option_bind]; rewrite Es, ?Er, Eg; cbn [mbind option_bind];
      rewrite calls_with_call, list_lookup_insert_eq by done; cbn [mbind option_bind move state resultChan];
      rewrite ?Er; cbn [mbind option_bind]; eexists _, _; (split; [reflexivity|]); rewrite !calls_with_call, list_insert_insert_eq;
      (split; [reflexivity|]); cbn; auto.
  - cbn [run perform]. rewrite Hi. cbn [mbind option_bind]. rewrite Es. cbn [mbind option_bind].
    eexists _, _. split; [reflexivity|]. split; [reflexivity|]. cbn. auto.
  - destruct Hc as [Er _]. cbn [run perform]. rewrite Hi. cbn [mbind option_bind]. rewrite Es, Er. cbn [mbind option_bind].
    eexists _, _. split; [reflexivity|]. split; [reflexivity|]. cbn. auto.
  - exists w, c. split; [done|]. split; [by rewrite list_insert_id|]. auto.
Qed.

Lemma run_app l k w : run (l ++ k) w = (w' ← run l w; run k w').
Proof. revert w. induction l as [|s l IH]; intros w; [done|]. cbn [run app]. destruct (perform s w); [apply IH|done]. Qed.

(** The first [n] goroutines end. *)
Lemma settle n w : inv w → (∀ i c, calls w !! i = Some c → gen i (queryContext c) ≠ NoFuel) → (n <= length (calls w))%nat →
  ∃ l w', run l w = Some w' ∧ inv w' ∧ length (calls w') = length (calls w) ∧
    (∀ i c, calls w' !! i = Some c → gen i (queryContext c) ≠ NoFuel) ∧
    ∀ i c, (i < n)%nat → calls w' !! i = Some c → holds c = false.
Proof.
  intros Hinv Hg. induction n as [|n IH]; intros Hn.
  { exists [], w. split_and!; try done. intros; lia. }
  destruct IH as (l & w1 & El & Hi1 & Hl1 & Hg1 & Hh1); [lia|].
  destruct (lookup_lt_is_Some_2 (calls w1) n) as [c Hc]; [lia|].
  destruct (perform_rest w1 n c Hi1 Hc (Hg1 n c Hc)) as (w2 & c' & E2 & Ec & Eq & Hend).
  exists (l ++ rest_of n c), w2. rewrite run_app, El. cbn [mbind option_bind]. split; [done|].
  split; [by eapply inv_run|]. split; [by rewrite Ec, length_insert|]. rewrite Ec. split.
  - intros i d Hi. destruct (decide (n = i)) as [<-|Hne].
    + rewrite list_lookup_insert_eq in Hi by lia. simplify_eq. rewrite Eq. by apply Hg1.
    + rewrite list_lookup_insert_ne in Hi by done. by apply Hg1.
  - intros i d Hlt Hi. destruct (decide (n = i)) as [<-|Hne].
    + rewrite list_lookup_insert_eq in Hi by lia. simplify_eq. unfold holds. by destruct Hend as [-> | ->].
    + rewrite list_lookup_insert_ne in Hi by done. apply (Hh1 i d); [lia|done].
Qed.

(** When every query of a table ends, in a result, an error or a panic, then whatever has happened so far the
    goroutines can run to their end, and then all five workers are free again. *)
Theorem workers_recovered w :
  reachable w → (∀ i c, calls w !! i = Some c → gen i (queryContext c) ≠ NoFuel) →
  ∃ l w', run l w = Some w' ∧ workers w' = numWorkers.
Proof.
  intros Hr%reachable_inv Hg. destruct (settle (length (calls w)) w Hr Hg) as (l & w' & E & [Hn _] & Hl & _ & Hh); [done|].
  exists l, w'. split; [done|].
  assert (Hf : List.filter holds (calls w') = []).
  { assert (Hall : ∀ c, c ∈ calls w' → holds c = false).
    { intros c [i Hi]%list_elem_of_lookup. apply (Hh i c); [|done]. rewrite <- Hl. by eapply lookup_lt_Some. }
    clear -Hall. induction (calls w') as [|c cs IH]; [done|]. cbn [List.filter]. rewrite Hall by (by left).
    apply IH. intros d Hd. apply Hall. by right. }
  rewrite Hf in Hn. cbn [length] in Hn. lia.
Qed.

(** *** Queries that never end *)

(** Five of them keep their workers. *)
Definition stuck (w : wrappedTable) : Prop :=
  workers w = O ∧ ∀ i c, calls w !! i = Some c → holds c = true → state c = Running ∧ gen i (queryContext c) = NoFuel.

Lemma stuck_step s w w' : stuck w → perform s w = Some w' →
  stuck w' ∧ match s with Generate q => ∃ c, last (calls w') = Some c ∧ answer c = Some noWorkers | _ => True end.
Proof.
  intros [H0 Hs] E.
  assert (Hkeep : ∀ i c g ch a, calls w !! i = Some c → (g = state c ∨ (state c = Unwound ∧ g = Ended)) →
    stuck (with_call w i (move g ch a c) (workers w))).
  { intros i c g ch a Hi Hg. split; [done|]. intros j d Hj Hd. cbn [calls with_call] in Hj.
    destruct (decide (i = j)) as [<-|Hne]; [|rewrite list_lookup_insert_ne in Hj by done; by apply Hs].
    rewrite list_lookup_insert_eq in Hj by (by eapply lookup_lt_Some). simplify_eq.
    destruct Hg as [->|[_ ->]]; [|done]. cbn [state move queryContext]. apply (Hs i c Hi). exact Hd. }
  destruct s as [d|t|q|i|i|i|i|i|i|i]; cbn [perform] in E.
  - destruct (0 <=? d); [|done]. by injection E as <-.
  - by injection E as <-.
  - injection E as <-. rewrite H0. cbn [calls workers]. split.
    + split; [done|]. intros i c Hi Hd. cbn [calls] in Hi. apply lookup_app_Some in Hi as [Hi|[_ Hi]]; [by apply Hs|].
      by apply list_lookup_singleton_Some in Hi as [_ <-].
    + eexists. split; [apply last_snoc|done].
  - destruct (calls w !! i) as [c|] eqn:Hi; [|done]. cbn [mbind option_bind] in E.
    destruct (state c) eqn:Es; try done. destruct (Hs i c Hi) as [_ Hg]; [unfold holds; by rewrite Es|].
    rewrite Hg in E. by destruct (resultChan c).
  - destruct (calls w !! i) as [c|] eqn:Hi; [|done]. cbn [mbind option_bind] in E.
    destruct (state c) eqn:Es; try done. destruct (Hs i c Hi) as [Hg _]; [unfold holds; by rewrite Es|]. congruence.
  - destruct (calls w !! i) as [c|] eqn:Hi; [|done]. cbn [mbind option_bind] in E.
    destruct (state c) eqn:Es; try done. destruct (Hs i c Hi) as [_ Hg]; [unfold holds; by rewrite Es|]. by rewrite Hg in E.
  - destruct (calls w !! i) as [c|] eqn:Hi; [|done]. cbn [mbind option_bind] in E.
    destruct (state c) eqn:Es; try done. destruct (resultChan c); [done|]. injection E as <-. split; [|done]. apply Hkeep; auto.
  - destruct (calls w !! i) as [c|] eqn:Hi; [|done]. cbn [mbind option_bind] in E.
    destruct (answer c); [done|]. destruct (resultChan c); [|done]. injection E as <-. split; [|done]. apply Hkeep; auto.
  - destruct (calls w !! i) as [c|] eqn:Hi; [|done]. cbn [mbind option_bind] in E.
    destruct (answer c); [done|]. destruct (deadline c <=? now w); [|done]. injection E as <-. split; [|done]. apply Hkeep; auto.
  - destruct (calls w !! i) as [c|] eqn:Hi; [|done]. cbn [mbind option_bind] in E.
    destruct (answer c); [done|]. injection E as <-. split; [|done]. apply Hkeep; auto.
Qed.

(** A deadline ends the waiting of the caller, not the query: once five queries of a table hang, every later
    one is refused, for good. *)
Theorem hung_queries_disable_table w l w' q w'' :
  stuck w → run l w = Some w' → perform (Generate q) w' = Some w'' →
  ∃ c, last (calls w'') = Some c ∧ answer c = Some noWorkers.
Proof.
  intros Hs Hl Hq. assert (Hs' : stuck w').
  { revert w Hs Hl. induction l as [|s l IH]; intros w Hs E; cbn [run] in E; [by simplify_eq|].
    destruct (perform s w) as [w1|] eqn:E1; [|done]. cbn [mbind option_bind] in E.
    eapply IH; [|exact E]. by apply (stuck_step s w). }
  by apply (stuck_step (Generate q) w' w'').
Qed.
End Wrapper.

(** ** A table of the server's, wrapped *)
Section Katc.
Context `{H : Host} `{Rx : Regexp} `{L : IdbQuery.Query.ChromeLib} `{C : Codecs} `{U : Snake.Unicode} `{MO : MapOrder}
  `{G : IdbValues.Values.GoLib} `{Ch : Charsets} `{FL : Flatten.Flatten.FlattenLib} `{Ce : TableHelpers.Cel}.

(** The n-th query finds the temporary directories [ts n]. *)
Definition katc_gen (json : bytes → option Flatten.Flatten.data) (fuel : nat) (k : Table.katcTable) (ts : nat → Sources.temps) (n : nat) (qc : Constraints.QueryContext)
    : res (list row) := (Table.generate json fuel k qc (ts n)).1.

(** C27: One corrupt value costs every query of its table: a row that cannot be deserialized is meant to be left out,
    but with an array buffer that claims too much nobody ever gets the other rows, in any interleaving. *)
Theorem corrupt_value_loses_the_query json fuel k ts pattern path objects version key subtag offset length n rest w i c a :
  Table.sourceType k = Some Sources.sqliteSourceType → Table.sourcePaths k = [pattern] → Table.dataFlatten k = false →
  Table.rowTransformSteps k = [Transform.deserializeWebkitTransformStep] →
  Glob (Sources.sourcePatternToGlobbablePattern pattern) = Ok [path] →
  (∀ n, KatcFacts.readable path (Table.sourceQuery k) [bs "data"] (map (λ l, [WebkitCodec.quoted_blob l]) objects) (ts n)) →
  WebkitCodec.corrupt_object version key subtag offset length n rest ∈ objects →
  WebkitCodec.wf_u32 version → WebkitCodec.wf_str key → 0 <= offset < two64 → 0 <= length < two64 →
  IdbValues.Values.maxAlloc < n < two64 →
  reachable (katc_gen json fuel k ts) w → calls w !! i = Some c → KatcFacts.accepted (queryContext c) path →
  answer c = Some a → ∃ e, a = Err e.
Proof.
  intros Hs Hp Hf Hl Hg Hr Hin Hv Hk Hof Hle Hn Hw Hi Ha E.
  pose proof (reachable_honest _ w i c Hw Hi) as Hh. unfold honest in Hh. rewrite E in Hh.
  unfold outcome, katc_gen in Hh.
  rewrite (KatcFacts.generate_corrupt json fuel k (queryContext c) (ts i) pattern path objects version key subtag offset length n rest) in Hh by done.
  cbn [fst] in Hh. destruct Hh as [-> |[-> | ->]]; by eexists.
Qed.
End Katc.

(** ** Witnesses *)

Definition hang : nat → () → res () := λ _ _, NoFuel.
Definition five_hang : option (wrappedTable) := run hang (repeat (Generate tt) 5) (newWrappedTable 10 0).

Lemma hung_queries_disable_table_witness :
  match five_hang with
  | Some w => ∃ w' w'' c, run hang [Tick 20; Timeout 0; FlagsChanged 60] w = Some w' ∧ perform hang (Generate tt) w' = Some w'' ∧
      last (calls w'') = Some c ∧ answer c = Some noWorkers
  | None => False
  end.
Proof.
  change five_hang with (Some (Wrapped 10 0 0 (repeat (Call tt 10 Running (None : option (res ())) None) 5))). cbv iota.
  set (w := Wrapped 10 0 0 _).
  assert (Hs : stuck hang w).
  { split; [done|]. intros i c Hi _. split; [|done]. apply list_elem_of_lookup_2, list_elem_of_In, repeat_spec in Hi. by subst. }
  destruct (run hang [Tick 20; Timeout 0; FlagsChanged 60] w) as [w'|] eqn:E; [|discriminate E].
  destruct (perform hang (Generate tt) w') as [w''|] eqn:E'; [|discriminate E'].
  destruct (hung_queries_disable_table hang w [Tick 20; Timeout 0; FlagsChanged 60] w' tt w'' Hs E E') as (c & H1 & H2).
  exists w', w'', c. by split_and!.
Defined.

(** A query that panics, one that times out while it runs, and one that returns *)
Definition mixed : nat → () → res nat := λ i _, match i with 0%nat => Panic | 1%nat => Err (Errorf "query failed") | _ => Ok 7%nat end.
Definition mixed_steps : list (@step ()) :=
  [Generate tt; Generate tt; Generate tt; Unwind 0; Return 2; Tick 11; Timeout 1; Recover 0; Receive 0; Receive 2].
Definition mixed_run : option wrappedTable := run mixed mixed_steps (newWrappedTable 10 0).

Lemma mixed_reaches : match mixed_run with Some w => (workers w =? 3)%nat | None => false end = true.
Proof. vm_compute. reflexivity. Qed.

Lemma workers_accounted_witness :
  match mixed_run with Some w => (workers w + length (List.filter holds (calls w)) = numWorkers)%nat | None => False end.
Proof.
  pose proof mixed_reaches as Hm. destruct mixed_run as [w|] eqn:E; [|discriminate Hm].
  apply (workers_accounted mixed w). exists 10, 0, mixed_steps. exact E.
Defined.

Lemma answers_own_witness :
  match mixed_run with
  | Some w => match calls w !! 2%nat with Some c => answer c = Some (Ok 7%nat) → mixed 2 (queryContext c) = Ok 7%nat | None => False end
  | None => False
  end.
Proof.
  change mixed_run with (Some (default (newWrappedTable 10 0) mixed_run)). cbv iota.
  destruct (calls (default (newWrappedTable 10 0) mixed_run) !! 2%nat) as [c|] eqn:Ec; [|discriminate Ec].
  apply (answers_own mixed (default (newWrappedTable 10 0) mixed_run) 2 c 7%nat); [|exact Ec].
  exists 10, 0, mixed_steps. reflexivity.
Defined.

Lemma workers_recovered_witness :
  match mixed_run with Some w => ∃ l w', run mixed l w = Some w' ∧ workers w' = numWorkers | None => False end.
Proof.
  pose proof mixed_reaches as Hm. destruct mixed_run as [w|] eqn:E; [|discriminate Hm].
  apply (workers_recovered mixed w); [exists 10, 0, mixed_steps; exact E|]. by intros [|[|i]] c _.
Defined.

Definition corrupt_objects : list bytes := [KatcFacts.buffer (15, WebkitCodec.example_props, []); KatcFacts.example_corrupt].
Definition corrupt_gen : nat → Constraints.QueryContext → res (list row) :=
  @katc_gen (KatcFacts.exampleHost corrupt_objects) Constraints.exampleRegexp IdbQuery.Query.exampleLib KatcFacts.exampleCodecs
    Snake.Snake.exampleUnicode KatcFacts.exampleOrder IdbCodec.exampleLib WebkitCodec.exampleCharsets KatcFacts.exampleFlatten
    KatcFacts.exampleCel (λ _, None) 1 KatcFacts.exampleTable (λ _, []).

Lemma corrupt_gen_panics n : corrupt_gen n ∅ = Panic.
Proof. unfold corrupt_gen, katc_gen, corrupt_objects. by rewrite KatcFacts.example_corrupt_panics. Qed.

Definition corrupt_call (g : goroutine) (ch a : option (res (list row))) : @call Constraints.QueryContext (list row) := Call ∅ 10 g ch a.
Definition corrupt_end : @wrappedTable Constraints.QueryContext (list row) := Wrapped 10 0 5 [corrupt_call Ended None (Some panicked)].

Lemma panic_run {Q R : Type} (gen : nat → Q → res R) q : gen 0%nat q = Panic →
  run gen [Generate q; Unwind 0; Recover 0; Receive 0] (newWrappedTable 10 0) =
    Some (Wrapped 10 0 5 [Call q 10 Ended None (Some panicked)]).
Proof. intros E. simpl. by rewrite E. Qed.

Lemma corrupt_run : run corrupt_gen [Generate ∅; Unwind 0; Recover 0; Receive 0] (newWrappedTable 10 0) = Some corrupt_end.
Proof. apply (panic_run corrupt_gen ∅), corrupt_gen_panics. Qed.

Lemma corrupt_reachable : reachable corrupt_gen corrupt_end.
Proof. exists 10, 0, [Generate ∅; Unwind 0; Recover 0; Receive 0]. exact corrupt_run. Qed.

Lemma corrupt_value_loses_the_query_witness : ∃ e, answer (corrupt_call Ended None (Some panicked)) = Some (Err e).
Proof.
  enough (∃ e, (panicked : res (list row)) = Err e) as [e He] by (exists e; by rewrite <- He).
  apply (@corrupt_value_loses_the_query (KatcFacts.exampleHost corrupt_objects) Constraints.exampleRegexp IdbQuery.Query.exampleLib
    KatcFacts.exampleCodecs Snake.Snake.exampleUnicode KatcFacts.exampleOrder IdbCodec.exampleLib WebkitCodec.exampleCharsets
    KatcFacts.exampleFlatten KatcFacts.exampleCel (λ _, None) 1%nat KatcFacts.exampleTable (λ _, []) (bs "/home/%/app.db")
    KatcFacts.examplePath corrupt_objects 15 (WebkitCodec.Latin1 (bs "id")) x02 0 0 (2 ^ 62) []
    corrupt_end 0%nat (corrupt_call Ended None (Some panicked)) panicked);
    [reflexivity..| | | | | | | |exact corrupt_reachable|reflexivity|reflexivity|reflexivity];
    try (vm_compute; repeat split; try discriminate; eauto; fail).
  - intros n. exact (KatcFacts.example_readable corrupt_objects).
  - right. left.
Defined.
End TableWrapper.
