(* ===== verification/Backup.v ===== *)
(** * ee/agent/storage/bbolt/backup.go: backups of launcher.db

    The database is copied to launcher.db.bak every six hours, after the older copies have moved up
    to launcher.db.bak.1, .2 and .3; at startup the newest copy takes the place of a
    database that is gone.  A file system is a map from paths to contents; that a system
    call fails is up to its environment. *)
From S2P Require Import Prelude Json Paths.
Set Warnings "-clear-no-such-hyp".

Module Backup.
Abbreviation fs := (gmap bytes bytes).

Definition numberOfOldBackupsToRetain : nat := 3.

(** ** System calls, and bbolt's copy of the database *)
Class Env := {
  stat_err : bytes → fs → option err;            (* an error of os.Stat other than that the file does not exist *)
  remove_err : bytes → fs → option err;
  rename_err : bytes → bytes → fs → option err;
  glob_err : option err;
  CopyFile : bytes → fs → fs * option err         (* tx.CopyFile in a read transaction *)
}.

Section Saver.
Context `{EN : Env}.

Inductive statResult := Info (size : Z) | NotExist | Failed (e : err).

Definition Stat (p : bytes) (f : fs) : statResult :=
  match stat_err p f with
  | Some e => Failed e
  | None => match f !! p with Some c => Info (len c) | None => NotExist end
  end.

Definition Remove (p : bytes) (f : fs) : fs * option err :=
  match remove_err p f with
  | Some e => (f, Some e)
  | None => match f !! p with Some _ => (delete p f, None) | None => (f, Some (Errorf "file does not exist")) end
  end.

Definition Rename (p q : bytes) (f : fs) : fs * option err :=
  match rename_err p q f with
  | Some e => (f, Some e)
  | None =>
      match f !! p with
      | Some c => (<[q := c]> (delete p f), None)
      | None => (f, Some (Errorf "file does not exist"))
      end
  end.

(** ** Locations *)
Definition LauncherDbLocation (rootDir : bytes) : bytes := Join [rootDir; bs "launcher.db"].
Definition backupLauncherDbLocation (rootDir : bytes) : bytes := Join [rootDir; bs "launcher.db.bak"].

(** [fmt.Sprintf("%s.%d", base, i)] *)
Definition numbered (base : bytes) (i : nat) : bytes := base ++ bs "." ++ itoa (Z.of_nat i).

Definition nonEmptyFileExists (p : bytes) (f : fs) : bool * option err :=
  match Stat p f with
  | NotExist => (false, None)
  | Failed e => (false, Some e)
  | Info size => (0 <? size, None)
  end.

Definition BackupLauncherDbLocations (rootDir : bytes) (f : fs) : list bytes :=
  let base := backupLauncherDbLocation rootDir in
  List.filter (λ p, (nonEmptyFileExists p f).1) (base :: map (numbered base) (seq 1 numberOfOldBackupsToRetain)).

Definition latestBackupDb (rootDir : bytes) (f : fs) : bytes :=
  let base := backupLauncherDbLocation rootDir in
  default [] (List.find (λ p, (nonEmptyFileExists p f).1) (base :: map (numbered base) (seq 1 numberOfOldBackupsToRetain))).

(** ** Rotation *)

(** The copies [i], [i - 1], ..., 1 move up by one; one that does not exist is skipped. *)
Fixpoint rotate_loop (base : bytes) (i : nat) (f : fs) : fs * option err :=
  match i with
  | O => (f, None)
  | S i' =>
      match Stat (numbered base i) f with
      | NotExist => rotate_loop base i' f
      | _ =>
          match Rename (numbered base i) (numbered base (S i)) f with
          | (f, Some e) => (f, Some (Wrapf "renaming %s to %s during rotation: %w" e))
          | (f, None) => rotate_loop base i' f
          end
      end
  end.

Definition rotate (rootDir : bytes) (f : fs) : fs * option err :=
  let base := backupLauncherDbLocation rootDir in
  let oldest := numbered base numberOfOldBackupsToRetain in
  let removed :=
    match Stat oldest f with
    | Info _ => let '(f, e) := Remove oldest f in (f, Wrapf "removing oldest backup %s during rotation: %w" <$> e)
    | _ => (f, None)
    end in
  match removed with
  | (f, Some e) => (f, Some e)
  | (f, None) =>
      match rotate_loop base (numberOfOldBackupsToRetain - 1) f with
      | (f, Some e) => (f, Some e)
      | (f, None) =>
          match Stat base f with
          | Info _ => let '(f, e) := Rename base (numbered base 1) f in (f, Wrapf "rotating %s: %w" <$> e)
          | _ => (f, None)
          end
      end
  end.

Definition backupDb (rootDir : bytes) (f : fs) : fs * option err :=
  match rotate rootDir f with
  | (f, Some e) => (f, Some (Wrapf "rotation did not succeed: %w" e))
  | (f, None) =>
      let backupLocation := backupLauncherDbLocation rootDir in
      match CopyFile backupLocation f with
      | (f, Some e) => (f, Some (Wrapf "backing up database: %w" e))
      | (f, None) =>
          match nonEmptyFileExists backupLocation f with
          | (false, _) => (f, Some (Errorf "backup succeeded, but nonempty file does not exist at %s"))
          | (true, Some e) => (f, Some (Wrapf "backup succeeded, but error checking if file was created at %s: %w" e))
          | (true, None) => (f, Wrapf "globbing for files after backup to check permissions: %w" <$> glob_err)
          end
      end
  end.

(** A backup after the initial delay and one at each tick, until the interrupt; failures are logged. *)
Fixpoint Execute (rootDir : bytes) (ticks : nat) (f : fs) : fs :=
  let f := (backupDb rootDir f).1 in
  match ticks with O => f | S ticks' => Execute rootDir ticks' f end.

(** ** Recovery *)
Definition UseBackupDbIfNeeded (rootDir : bytes) (f : fs) : fs :=
  let originalDbLocation := LauncherDbLocation rootDir in
  match nonEmptyFileExists originalDbLocation f with
  | (true, _) => f
  | (false, Some _) => f
  | (false, None) =>
      match latestBackupDb rootDir f with
      | [] => f
      | latestBackupLocation => (Rename latestBackupLocation originalDbLocation f).1
      end
  end.

(** ** Paths *)
Definition copy (rootDir : bytes) (i : nat) : bytes :=
  match i with O => backupLauncherDbLocation rootDir | S _ => numbered (backupLauncherDbLocation rootDir) i end.

Lemma paths rootDir : ∃ pre,
  LauncherDbLocation rootDir = pre ++ bs "launcher.db" ∧ backupLauncherDbLocation rootDir = pre ++ bs "launcher.db.bak".
Proof.
  destruct (Join_name rootDir) as [pre H]. exists pre. split; apply H;
    (split; [split_and!|]; try done; apply (bool_decide_unpack _); vm_compute; exact I).
Qed.

Lemma copy_inj rootDir i j : (i <= 3)%nat → (j <= 3)%nat → copy rootDir i = copy rootDir j → i = j.
Proof.
  intros Hi Hj. destruct (paths rootDir) as (pre & _ & E). unfold copy, numbered. rewrite E.
  destruct i as [|[|[|[|?]]]], j as [|[|[|[|?]]]]; try lia; try done;
    rewrite <- ?app_assoc; intros Heq%app_inv_head; discriminate Heq.
Qed.

Lemma copy_not_db rootDir i : (i <= 3)%nat → copy rootDir i ≠ LauncherDbLocation rootDir.
Proof.
  intros Hi. destruct (paths rootDir) as (pre & E0 & E). unfold copy, numbered. rewrite E, E0.
  destruct i as [|[|[|[|?]]]]; try lia; rewrite <- ?app_assoc; intros Heq%app_inv_head; discriminate Heq.
Qed.

Lemma copy_nonempty rootDir i : (i <= 3)%nat → copy rootDir i ≠ [].
Proof.
  intros Hi. destruct (paths rootDir) as (pre & _ & E). unfold copy, numbered. rewrite E.
  destruct i as [|[|[|[|?]]]]; try lia; destruct pre; discriminate.
Qed.

(** ** What rotation does when no system call fails *)
Definition calm : Prop :=
  (∀ p f, stat_err p f = None) ∧ (∀ p f, remove_err p f = None) ∧ (∀ p q f, rename_err p q f = None) ∧ glob_err = None.

Definition mv (p q : bytes) (f : fs) : fs := match f !! p with Some c => <[q := c]> (delete p f) | None => f end.

Lemma lookup_mv p q f r :
  p ≠ q → f !! q = None → mv p q f !! r = if decide (r = q) then f !! p else if decide (r = p) then None else f !! r.
Proof.
  intros Hpq Hq. unfold mv. destruct (f !! p) as [c|] eqn:Ep.
  - destruct (decide (r = q)) as [->|]; [apply lookup_insert_eq|]. rewrite lookup_insert_ne by done.
    destruct (decide (r = p)) as [->|]; [apply lookup_delete_eq|by apply lookup_delete_ne].
  - destruct (decide (r = q)) as [->|]; [done|]. by destruct (decide (r = p)) as [->|].
Qed.

Lemma Stat_calm p f : calm → Stat p f = match f !! p with Some c => Info (len c) | None => NotExist end.
Proof. intros (H & _). unfold Stat. by rewrite H. Qed.

Lemma Rename_calm p q f c : calm → f !! p = Some c → Rename p q f = (mv p q f, None).
Proof. intros (_ & _ & H & _) E. unfold Rename, mv. by rewrite H, E. Qed.

Lemma rotate_loop_calm base i f :
  calm → rotate_loop base i f = (foldl (λ f k, mv (numbered base k) (numbered base (S k)) f) f (rev (seq 1 i)), None).
Proof.
  intros Hc. revert f. induction i as [|i IH]; intros f; [done|]. cbn [rotate_loop].
  rewrite seq_S, rev_app_distr. cbn [rev app foldl]. rewrite (Stat_calm _ _ Hc).
  destruct (f !! numbered base (S i)) as [c|] eqn:E.
  - rewrite (Rename_calm _ _ _ c Hc E). apply IH.
  - rewrite IH. do 3 f_equal. unfold mv. cbn [Nat.add]. by rewrite E.
Qed.

Lemma rotate_calm rootDir f : calm →
  let c := copy rootDir in
  rotate rootDir f = (mv (c 0%nat) (c 1%nat) (mv (c 1%nat) (c 2%nat) (mv (c 2%nat) (c 3%nat) (delete (c 3%nat) f))), None).
Proof.
  intros Hc c. unfold rotate. set (base := backupLauncherDbLocation rootDir).
  change (numbered base numberOfOldBackupsToRetain) with (c 3%nat).
  assert (Hrem : (match Stat (c 3%nat) f with
    | Info _ => let '(f, e) := Remove (c 3%nat) f in (f, Wrapf "removing oldest backup %s during rotation: %w" <$> e)
    | _ => (f, None) end) = (delete (c 3%nat) f, None)).
  { rewrite (Stat_calm _ _ Hc). destruct (f !! c 3%nat) as [x|] eqn:E; [|by rewrite delete_id].
    unfold Remove. by rewrite (proj1 (proj2 Hc)), E. }
  rewrite Hrem, rotate_loop_calm by done. cbn [rev app seq Nat.sub numberOfOldBackupsToRetain foldl].
  change (numbered base 1) with (c 1%nat). change (numbered base 2) with (c 2%nat). change (numbered base 3) with (c 3%nat).
  set (f2 := mv (c 1%nat) (c 2%nat) _). rewrite (Stat_calm _ _ Hc). change base with (c 0%nat).
  destruct (f2 !! c 0%nat) as [x|] eqn:E.
  - by rewrite (Rename_calm _ _ _ x Hc E).
  - unfold mv at 1. by rewrite E.
Qed.

(** The copies move up by one, the oldest is gone, and no other file changes. *)
Lemma rotate_shifts rootDir f : calm →
  ∃ f', rotate rootDir f = (f', None) ∧ f' !! copy rootDir 0 = None ∧
    (∀ i, (i < 3)%nat → f' !! copy rootDir (S i) = f !! copy rootDir i) ∧
    (∀ p, (∀ i, (i <= 3)%nat → p ≠ copy rootDir i) → f' !! p = f !! p).
Proof.
  intros Hc. rewrite (rotate_calm _ _ Hc). set (c := copy rootDir). eexists. split; [reflexivity|].
  assert (Hne : ∀ i j, (i <= 3)%nat → (j <= 3)%nat → i ≠ j → c i ≠ c j).
  { intros i j Hi Hj Hij E. apply Hij. by eapply copy_inj. }
  set (f0 := delete (c 3%nat) f).
  assert (H0 : f0 !! c 3%nat = None) by apply lookup_delete_eq.
  set (f1 := mv (c 2%nat) (c 3%nat) f0).
  assert (E1 : ∀ r, f1 !! r = if decide (r = c 3%nat) then f0 !! c 2%nat else if decide (r = c 2%nat) then None else f0 !! r).
  { intros r. apply lookup_mv; [apply Hne; lia|done]. }
  set (f2 := mv (c 1%nat) (c 2%nat) f1).
  assert (E2 : ∀ r, f2 !! r = if decide (r = c 2%nat) then f1 !! c 1%nat else if decide (r = c 1%nat) then None else f1 !! r).
  { intros r. apply lookup_mv; [apply Hne; lia|]. rewrite E1, decide_False, decide_True by (done || apply Hne; lia). done. }
  assert (E3 : ∀ r, mv (c 0%nat) (c 1%nat) f2 !! r =
    if decide (r = c 1%nat) then f2 !! c 0%nat else if decide (r = c 0%nat) then None else f2 !! r).
  { intros r. apply lookup_mv; [apply Hne; lia|]. rewrite E2, decide_False, decide_True by (done || apply Hne; lia). done. }
  assert (Ef0 : ∀ r, r ≠ c 3%nat → f0 !! r = f !! r) by (intros r Hr; unfold f0; by rewrite lookup_delete_ne).
  split_and!.
  - rewrite E3, decide_False, decide_True by (done || apply Hne; lia). done.
  - intros i Hi. destruct i as [|[|[|?]]]; [| | |lia];
      rewrite E3, ?E2, ?E1;
      repeat first [rewrite decide_True by done | rewrite decide_False by (apply Hne; lia)]; rewrite ?E2, ?E1;
      repeat first [rewrite decide_True by done | rewrite decide_False by (apply Hne; lia)]; rewrite ?E1;
      repeat first [rewrite decide_True by done | rewrite decide_False by (apply Hne; lia)]; apply Ef0, Hne; lia.
  - intros p Hp. rewrite E3, !decide_False by (apply Hp; lia). rewrite E2, !decide_False by (apply Hp; lia).
    rewrite E1, !decide_False by (apply Hp; lia). apply Ef0, Hp. lia.
Qed.

(** ** Recovery *)
Definition nonEmpty (p : bytes) (f : fs) : Prop := ∃ c, f !! p = Some c ∧ c ≠ [].

Lemma nonEmpty_calm p f : calm → nonEmptyFileExists p f = (match f !! p with Some c => 0 <? len c | None => false end, None).
Proof. intros Hc. unfold nonEmptyFileExists. rewrite (Stat_calm _ _ Hc). by destruct (f !! p). Qed.

Lemma nonEmpty_dec p f : calm → (nonEmptyFileExists p f).1 = true ↔ nonEmpty p f.
Proof.
  intros Hc. rewrite (nonEmpty_calm _ _ Hc). unfold nonEmpty. cbn [fst]. destruct (f !! p) as [c|].
  - rewrite Z.ltb_lt. split; [intros H; exists c; split; [done|by intros ->]|].
    intros (c' & [= <-] & H). by apply len_pos.
  - split; [done|]. by intros (c & ? & _).
Qed.

Lemma latest_find rootDir f i :
  calm → (i <= 3)%nat → nonEmpty (copy rootDir i) f → (∀ j, (j < i)%nat → ¬ nonEmpty (copy rootDir j) f) →
  latestBackupDb rootDir f = copy rootDir i.
Proof.
  intros Hc Hi Hne Hmin. apply (nonEmpty_dec _ _ Hc) in Hne. unfold latestBackupDb.
  assert (Hmin' : ∀ j, (j < i)%nat → (nonEmptyFileExists (copy rootDir j) f).1 = false).
  { intros j Hj. apply not_true_is_false. rewrite (nonEmpty_dec _ _ Hc). by apply Hmin. }
  cbn [map seq numberOfOldBackupsToRetain List.find].
  change (backupLauncherDbLocation rootDir) with (copy rootDir 0).
  change (numbered (copy rootDir 0) 1) with (copy rootDir 1). change (numbered (copy rootDir 0) 2) with (copy rootDir 2).
  change (numbered (copy rootDir 0) 3) with (copy rootDir 3).
  destruct i as [|[|[|[|?]]]]; [..|lia]; rewrite ?Hne;
    repeat match goal with |- context [(nonEmptyFileExists (copy rootDir ?j) f).1] => rewrite (Hmin' j) by lia end;
    by rewrite ?Hne.
Qed.

(** A database that is there is never replaced, whatever the system calls answer. *)
Lemma UseBackup_keeps rootDir f c :
  f !! LauncherDbLocation rootDir = Some c → c ≠ [] → UseBackupDbIfNeeded rootDir f = f.
Proof.
  intros E Hc. unfold UseBackupDbIfNeeded, nonEmptyFileExists, Stat. rewrite E.
  destruct (stat_err _ f) as [e|]; [done|]. by assert ((0 <? len c) = true) as -> by (by apply Z.ltb_lt, len_pos).
Qed.

(** The newest copy that is not empty takes the place of the database. *)
Lemma UseBackup_newest rootDir f i c :
  calm → ¬ nonEmpty (LauncherDbLocation rootDir) f → (i <= 3)%nat →
  f !! copy rootDir i = Some c → c ≠ [] → (∀ j, (j < i)%nat → ¬ nonEmpty (copy rootDir j) f) →
  UseBackupDbIfNeeded rootDir f = <[LauncherDbLocation rootDir := c]> (delete (copy rootDir i) f).
Proof.
  intros Hcalm Hdb Hi Ei Hc Hmin. unfold UseBackupDbIfNeeded.
  pose proof (nonEmpty_dec (LauncherDbLocation rootDir) f Hcalm) as Hdec.
  rewrite (nonEmpty_calm _ _ Hcalm) in Hdec |- *. cbn [fst] in Hdec.
  destruct (match f !! LauncherDbLocation rootDir with Some c => 0 <? len c | None => false end);
    [by destruct Hdb; apply Hdec|].
  rewrite (latest_find _ _ i Hcalm Hi) by (done || by exists c).
  pose proof (copy_nonempty rootDir i Hi). destruct (copy rootDir i) as [|b p] eqn:Ep; [done|]. rewrite <- Ep in *.
  rewrite (Rename_calm _ _ _ c Hcalm Ei). unfold mv. by rewrite Ei.
Qed.

Lemma backupDb_spec rootDir f c :
  calm → (∀ f', CopyFile (copy rootDir 0) f' = (<[copy rootDir 0 := c]> f', None)) → c ≠ [] →
  ∃ f', backupDb rootDir f = (f', None) ∧ f' !! copy rootDir 0 = Some c ∧
    (∀ i, (i < 3)%nat → f' !! copy rootDir (S i) = f !! copy rootDir i) ∧
    (∀ p, (∀ i, (i <= 3)%nat → p ≠ copy rootDir i) → f' !! p = f !! p).
Proof.
  intros Hcalm Hcopy Hc. destruct (rotate_shifts rootDir f Hcalm) as (f1 & E & H0 & Hs & Ho).
  unfold backupDb. rewrite E. change (backupLauncherDbLocation rootDir) with (copy rootDir 0).
  rewrite Hcopy, (nonEmpty_calm _ _ Hcalm), lookup_insert_eq.
  assert ((0 <? len c) = true) as -> by (by apply Z.ltb_lt, len_pos). rewrite (proj2 (proj2 (proj2 Hcalm))).
  eexists. split; [reflexivity|]. split_and!; [apply lookup_insert_eq| |].
  - intros i Hi. rewrite lookup_insert_ne; [by apply Hs|]. intros Heq%copy_inj; lia.
  - intros p Hp. rewrite lookup_insert_ne; [by apply Ho|]. intros <-. by apply (Hp 0%nat); [lia|].
Qed.

(** C39: A backup succeeds and holds the database as it was copied; the three copies before it are
    kept in their order; and when the database is later lost, the next start puts the last
    copy in its place.  No system call fails. *)
Theorem backup_recovers rootDir f c lost :
  calm → (∀ f', CopyFile (copy rootDir 0) f' = (<[copy rootDir 0 := c]> f', None)) → c ≠ [] →
  ∃ f', backupDb rootDir f = (f', None) ∧
    (∀ i, (i < 3)%nat → f' !! copy rootDir (S i) = f !! copy rootDir i) ∧
    f' !! LauncherDbLocation rootDir = f !! LauncherDbLocation rootDir ∧
    ((∀ i, (i <= 3)%nat → lost !! copy rootDir i = f' !! copy rootDir i) →
     ¬ nonEmpty (LauncherDbLocation rootDir) lost →
     UseBackupDbIfNeeded rootDir lost !! LauncherDbLocation rootDir = Some c).
Proof.
  intros Hcalm Hcopy Hc. destruct (backupDb_spec rootDir f c Hcalm Hcopy Hc) as (f' & E & H0 & Hs & Ho).
  exists f'. split_and!; [done|done| |].
  - apply Ho. intros i Hi Heq. by apply (copy_not_db rootDir i Hi).
  - intros Hl Hn. rewrite (UseBackup_newest rootDir lost 0 c Hcalm Hn); [apply lookup_insert_eq|lia| |done|lia].
    rewrite Hl by lia. exact H0.
Qed.

(** The copies move up before the new one is taken: each attempt that fails to copy the database
    still costs the oldest copy, and after four of them in a row no copy is left. *)
Theorem failed_backups_lose_all rootDir f e :
  calm → (∀ f', CopyFile (copy rootDir 0) f' = (f', Some e)) →
  (∀ i, (i <= 3)%nat → Execute rootDir 3 f !! copy rootDir i = None) ∧
  latestBackupDb rootDir (Execute rootDir 3 f) = [].
Proof.
  intros Hcalm Hcopy.
  assert (Hone : ∀ f, (backupDb rootDir f).1 !! copy rootDir 0 = None ∧
    ∀ i, (i < 3)%nat → (backupDb rootDir f).1 !! copy rootDir (S i) = f !! copy rootDir i).
  { intros g. destruct (rotate_shifts rootDir g Hcalm) as (g' & E & H0 & Hs & _).
    unfold backupDb. rewrite E. change (backupLauncherDbLocation rootDir) with (copy rootDir 0).
    by rewrite Hcopy. }
  assert (Hall : ∀ i, (i <= 3)%nat → Execute rootDir 3 f !! copy rootDir i = None).
  { intros i Hi. cbn [Execute]. set (f1 := (backupDb rootDir f).1). set (f2 := (backupDb rootDir f1).1).
    set (f3 := (backupDb rootDir f2).1).
    destruct i as [|[|[|[|?]]]]; [..|lia]; [by destruct (Hone f3)|..];
      rewrite (proj2 (Hone f3)) by lia; [by destruct (Hone f2)|..];
      unfold f3; rewrite (proj2 (Hone f2)) by lia; [by destruct (Hone f1)|];
      unfold f2; rewrite (proj2 (Hone f1)) by lia; by destruct (Hone f). }
  split; [done|]. unfold latestBackupDb.
  assert (Hf : List.find (λ p, (nonEmptyFileExists p (Execute rootDir 3 f)).1)
    [copy rootDir 0; copy rootDir 1; copy rootDir 2; copy rootDir 3] = None); [|exact (f_equal (default []) Hf)].
  cbn [List.find]. rewrite !(nonEmpty_calm _ _ Hcalm), !Hall by lia. done.
Qed.
End Saver.

(** ** Witnesses *)
Definition snapshotEnv (c : bytes) : Env := {|
  stat_err _ _ := None; remove_err _ _ := None; rename_err _ _ _ := None; glob_err := None;
  CopyFile p f := (<[p := c]> f, None)
|}.
Definition fullDisk : Env := {|
  stat_err _ _ := None; remove_err _ _ := None; rename_err _ _ _ := None; glob_err := None;
  CopyFile _ f := (f, Some (Errorf "no space left on device"))
|}.

Lemma backup_recovers_witness :
  ∃ f', @backupDb (snapshotEnv (bs "db")) (bs "/r") ∅ = (f', None) ∧
    @UseBackupDbIfNeeded (snapshotEnv (bs "db")) (bs "/r") f' !! LauncherDbLocation (bs "/r") = Some (bs "db").
Proof.
  destruct (@backup_recovers (snapshotEnv (bs "db")) (bs "/r") ∅ (bs "db")
    (@backupDb (snapshotEnv (bs "db")) (bs "/r") ∅).1) as (f' & E & _ & Hdb & H); [by split_and!|done|done|].
  exists f'. rewrite E in H. cbn [fst] in H. split; [exact E|]. apply H; [done|].
  intros (c & Hc & _). rewrite Hdb, lookup_empty in Hc. discriminate.
Defined.

Lemma failed_backups_lose_all_witness :
  @latestBackupDb fullDisk (bs "/r") (@Execute fullDisk (bs "/r") 3 {[bs "/r/launcher.db.bak" := bs "db"]}) = [].
Proof. apply (@failed_backups_lose_all fullDisk (bs "/r") _ (Errorf "no space left on device")); [by split_and!|done]. Defined.
End Backup.
