(* ===== verification/Krypto.v ===== *)
(** * ee/localserver: the krypto middleware

    K2 reaches the launcher through the user's browser: a request carries a challenge that K2 signed, in it the command
    to run here.  [Wrap] checks the challenge and hands the command to the inner handlers; what they answer goes back in a
    box only K2 can open, and also, through the queue of callbacks, to a URL inside the challenge. *)
From S2P Require Import Prelude Json Strings KVStore Flags Enrollment Http.
Set Warnings "-clear-no-such-hyp".

Module Krypto.
Import Http.

Definition timestampValidityRange : Z := 150.
Definition maxDesiredCallbackQueueSize : Z := 10.
Definition callbackQueueCapacity : Z := 100.
Definition kolideKryptoEccHeader20230130Value : bytes := bs "2023-01-30".
Definition kolideKryptoHeaderKey : bytes := bs "X-Kolide-Krypto".
Definition kolideSessionIdHeaderKey : bytes := bs "X-Kolide-Session".
Definition kolidePresenceDetectionIntervalHeaderKey : bytes := bs "X-Kolide-Presence-Detection-Interval".
Definition kolidePresenceDetectionReasonMacosHeaderKey : bytes := bs "X-Kolide-Presence-Detection-Reason-Macos".
Definition kolidePresenceDetectionReasonWindowsHeaderKey : bytes := bs "X-Kolide-Presence-Detection-Reason-Windows".
Definition kolideDurationSinceLastPresenceDetectionHeaderKey : bytes := bs "X-Kolide-Duration-Since-Last-Presence-Detection".
Definition kolideOsHeaderKey : bytes := bs "X-Kolide-Os".
Definition kolideArchHeaderKey : bytes := bs "X-Kolide-Arch".
Definition kolideMunemoHeaderKey : bytes := bs "X-Kolide-Munemo".

Record v2CmdRequestType := CmdRequest {
  cmdPath : bytes;
  cmdBody : bytes;
  Headers : header;
  CallbackUrl : bytes;
  CallbackHeaders : header;
  AllowedOrigins : list bytes
}.

(** A request to send to K2: its headers and body *)
Record callback := Callback { cb_url : bytes; cb_header : header; cb_body : bytes }.

Inductive callbackErrors : Type := noError | timeOutOfRangeErr | originDisallowedErr.

Definition errorString (e : callbackErrors) : bytes :=
  match e with
  | noError => []
  | timeOutOfRangeErr => bs "time-out-of-range"
  | originDisallowedErr => bs "origin-disallowed"
  end.

Record callbackDataStruct := CallbackData { Time : Z; Error : callbackErrors; Response_ : bytes; UserAgent : bytes }.

Definition marshalCallbackData (d : callbackDataStruct) : bytes :=
  bs "{" ++ json_string (bs "Time") ++ bs ":" ++ itoa (Time d) ++
  bs "," ++ json_string (bs "Error") ++ bs ":" ++ json_string (errorString (Error d)) ++
  bs "," ++ json_string (bs "Response") ++ bs ":" ++ json_string (Response_ d) ++
  bs "," ++ json_string (bs "UserAgent") ++ bs ":" ++ json_string (UserAgent d) ++ bs "}".

Record KolideURLs := URLs { EnrollmentURL : bytes; ControlServerURL : bytes; OsqueryPublisherURL : bytes }.

Record callbackResponse := CallbackResponse {
  NodeKey : bytes;
  Munemo : bytes;
  AgentIngesterToken : bytes;
  AgentIngesterHPKEPublicKey : bytes;
  AgentIngesterHPKEPresharedKey : bytes;
  DeploymentURLs : option KolideURLs
}.

(** What is not in the repository: the challenges of the krypto library, the keys of the machine, and
    the parsing of URLs, durations, folded case and JSON.  A JSON value within an object is given as json.Marshal
    writes it back; a null object is [Some None]. *)
Class KryptoLib := {
  challenge : Type;
  publicKey : Type;
  signer : Type;
  hasPublic : signer → bool;                                    (* Public() != nil *)
  UnmarshalChallenge : bytes → option challenge;
  Verify : publicKey → challenge → bool;
  RequestData : challenge → bytes;
  Timestamp : challenge → Z;
  Respond : signer → option signer → bytes → challenge → option bytes;
  ToPng : bytes → bytes;
  unmarshalCmdRequest : bytes → option v2CmdRequestType;
  unmarshalCallbackResponse : bytes → option callbackResponse;
  unmarshalObject : bytes → option (option (gmap bytes bytes));  (* json.Unmarshal into map[string]any *)
  decodeStrings : bytes → option (option (gmap bytes (option bytes)));  (* Decoder.Decode; the values that are strings *)
  validUrl : bytes → bool;                                       (* http.NewRequest accepts it *)
  EqualFold : bytes → bytes → bool;
  durationString : Z → bytes;
  parseDuration : bytes → option Z
}.

(** [runtime.GOOS] and GOARCH, and [agent.HardwareKeys()] *)
Record machine := Machine { GOOS : bytes; GOARCH : bytes }.

Section Middleware.
Context `{L : KryptoLib}.

(** The order in which a map is ranged over *)
Variable range : header → list (bytes * list bytes).
Variable m : machine.
Variable HardwareKeys : option signer.

(** [CallbackReq]: [None] without a URL *)
Definition CallbackReq (cmdReq : v2CmdRequestType) : res (option callback) :=
  if is_empty (CallbackUrl cmdReq) then Ok None
  else if negb (validUrl (CallbackUrl cmdReq)) then Err (Errorf "making http request: %w")
  else
    let h := Set_ (bs "Content-Type") (bs "application/json") ∅ in
    Ok (Some (Callback (CallbackUrl cmdReq) (AddAll (range (CallbackHeaders cmdReq)) h) [])).

(** The fields that requests read; the queue and the lock are below. *)
Record kryptoEcMiddleware := KryptoEc {
  localDbSigner : signer;
  counterParty : publicKey;
  tenantMunemo : bytes;
  validityRange : Z
}.

(** *** The challenge of a request *)
Definition fromBase64 (msg : string) (s : bytes) : res challenge :=
  match DecodeString StdEncoding s with
  | None => Err (Errorf msg)
  | Some decoded => match UnmarshalChallenge decoded with Some c => Ok c | None => Err (Errorf "challenge") end
  end.

Definition extractChallenge (r : request) : res challenge :=
  let rawBox := QueryGet r (bs "box") in
  if negb (is_empty rawBox) then fromBase64 "decoding b64 box from url param: %w" rawBox
  else
    match Body r with
    | None => Err (Errorf "no box found in url params or request body: body nil")
    | Some content =>
        match decodeStrings content with
        | None => Err (Errorf "unmarshalling request body to json: %w")
        | Some body =>
            match default ∅ body !! bs "box" with
            | None => Err (Errorf "no box key found in request body json")
            | Some None => Err (Errorf "box value is not a string")
            | Some (Some valStr) => fromBase64 "decoding b64 box from request body: %w" valStr
            end
        end
    end.

(** *** The checks *)

(** The first value of a header of a command; its keys are as the challenge spells them. *)
Definition first (h : header) (k : bytes) : bytes := match h !! k with Some (v :: _) => v | _ => [] end.

Definition checkMunemo (headers : header) (e : kryptoEcMiddleware) : bool :=
  let storedMunemo := tenantMunemo e in
  if is_empty storedMunemo then true
  else if is_empty (first headers kolideMunemoHeaderKey) then true
  else bool_decide (first headers kolideMunemoHeaderKey = storedMunemo).

Definition originOf (r : request) : bytes :=
  let origin := Get (Header r) (bs "Origin") in
  if is_empty origin then trim_suffix (bs "/") (Get (Header r) (bs "Referer")) else origin.

Definition checkOrigin (r : request) (allowedOrigins : list bytes) : bool :=
  is_empty allowedOrigins || existsb (λ ao, EqualFold ao (originOf r)) allowedOrigins.

(** [time.Now().Unix() - challengeBox.Timestamp()] is an int64. *)
Definition checkTimestamp (now : Z) (challengeBox : challenge) (e : kryptoEcMiddleware) : bool :=
  let timestampDelta := to_int64 (now - Timestamp challengeBox) in
  negb ((validityRange e <? timestampDelta) || (timestampDelta <? - validityRange e)).

Definition cmdReqToHttpReq (originalRequest : request) (cmdReq : v2CmdRequestType) : request :=
  let h := AddAll (range (Headers cmdReq)) ∅ in
  let h := Set_ (bs "Origin") (Get (Header originalRequest) (bs "Origin")) h in
  let h := Set_ (bs "Referer") (Get (Header originalRequest) (bs "Referer")) h in
  Request (bs "POST") (Scheme originalRequest) (Host originalRequest) (cmdPath cmdReq) ∅ h
    (if is_empty (cmdBody cmdReq) then None else Some (cmdBody cmdReq)).

(** *** The answer *)
Definition kryptoResponse (box : challenge) (data : bytes) (e : kryptoEcMiddleware) : option bytes :=
  let hw := if bool_decide (GOOS m = bs "darwin") then None
            else match HardwareKeys with Some k => if hasPublic k then Some k else None | None => None end in
  Respond (localDbSigner e) hw data box.

Definition json_header (h : header) : bytes := json_object (λ vals, json_array (map json_string vals)) h.

(** A body that is the JSON value null leaves the map nil, and the assignment to it panics. *)
Definition bufferedHttpResponseToResponseData (bhr : response) : res bytes :=
  match unmarshalObject (body bhr) with
  | None =>
      Ok (json_object (λ v, v) (<[bs "headers" := json_header (rheader bhr)]> {[bs "body" := json_string (body bhr)]}))
  | Some None => Panic
  | Some (Some responseMap) => Ok (json_object (λ v, v) (<[bs "headers" := json_header (rheader bhr)]> responseMap))
  end.

(** *** The handler *)
Inductive effect : Type :=
| EServe (newReq : request)                                    (* next.ServeHTTP *)
| ECallback (req : callback) (data : callbackDataStruct)       (* sendCallback *)
| EPresence (box : challenge).                                 (* go detectPresence *)

(** The two readings of the clock, and the inner handler, which may panic *)
Record env := Env { callbackTime : Z; now : Z; next : request → res response }.

(** What [Wrap] adds to the response of the inner handler before it is boxed *)
Definition withHeaders (cmdReq : v2CmdRequestType) (bhr : response) : response :=
  let kolideSessionId := default [] (CallbackHeaders cmdReq !! kolideSessionIdHeaderKey) in
  let h := rheader bhr in
  let h := match kolideSessionId with id :: _ => Add kolideSessionIdHeaderKey id h | [] => h end in
  Response (code bhr) (Add kolideArchHeaderKey (GOARCH m) (Add kolideOsHeaderKey (GOOS m) h)) (body bhr).

(** The part of [Wrap] after the checks: what goes into the box, or the panic of the inner handler or of
    the conversion; an error of the box leaves it empty. *)
Definition serve (en : env) (box : challenge) (cmdReq : v2CmdRequestType) (r : request) (e : kryptoEcMiddleware)
    : res bytes :=
  bhr ← next en (cmdReqToHttpReq r cmdReq);
  data ← bufferedHttpResponseToResponseData (withHeaders cmdReq bhr);
  Ok (default [] (kryptoResponse box data e)).

Definition reply (cmdReq : v2CmdRequestType) (boxed : bytes) : response :=
  Response 0 (Add kolideKryptoHeaderKey kolideKryptoEccHeader20230130Value ∅)
    (if has_suffix (bs ".png") (cmdPath cmdReq) then ToPng boxed else base64 boxed).

(** The deferred call *)
Definition deferred (cmdReq : v2CmdRequestType) (box : challenge) (data : callbackDataStruct) : list effect :=
  match CallbackReq cmdReq with Ok (Some req) => [ECallback req data; EPresence box] | _ => [] end.

Definition Wrap (en : env) (r : request) (e : kryptoEcMiddleware) : list effect * res response :=
  match extractChallenge r with
  | Ok challengeBox =>
      if negb (Verify (counterParty e) challengeBox) then ([], Ok (fails StatusUnauthorized))
      else
        match unmarshalCmdRequest (RequestData challengeBox) with
        | None => ([], Ok (fails StatusUnauthorized))
        | Some cmdReq =>
            if negb (checkMunemo (Headers cmdReq) e) then ([], Ok (fails StatusUnauthorized))
            else
              let callbackData error response :=
                CallbackData (callbackTime en) error response (Get (Header r) (bs "User-Agent")) in
              if negb (checkOrigin r (AllowedOrigins cmdReq)) then
                (deferred cmdReq challengeBox (callbackData originDisallowedErr []), Ok (fails StatusUnauthorized))
              else if negb (checkTimestamp (now en) challengeBox e) then
                (deferred cmdReq challengeBox (callbackData timeOutOfRangeErr []), Ok (fails StatusUnauthorized))
              else
                let served := EServe (cmdReqToHttpReq r cmdReq) in
                match serve en challengeBox cmdReq r e with
                | Ok boxed =>
                    (served :: deferred cmdReq challengeBox (callbackData noError (base64 boxed)), Ok (reply cmdReq boxed))
                | _ => (served :: deferred cmdReq challengeBox (callbackData noError []), Panic)
                end
        end
  | _ => ([], Ok (fails StatusUnauthorized))
  end.

(** What [sendCallback] puts into the queue *)
Definition queued (req : callback) (data : callbackDataStruct) : callback :=
  Callback (cb_url req) (cb_header req) (marshalCallbackData data).

(** ** Presence detection (detectPresence) *)
Record detectionResult := DetectionResult { durationSinceLastDetection : Z; derr : option err }.

(** What the select of the loop gets, and the clock and the elapsed time in the turn that follows *)
Inductive selected : Type := CtxDone | Detected (r : detectionResult) | Tick.
Record turn := Turn { got : selected; turnTime : Z; elapsed : Z }.

(** How the loop stands: still in the select, returned (with or without the result of the detector, whose goroutine
    waits for a receiver), or given up on an error *)
Inductive loopState : Type := Waiting | Finished (received : bool) | GaveUp.

Definition presenceBody (elapsed : Z) (final : option detectionResult) (timedOut : bool) : gmap bytes bytes :=
  let callbackBody := {[bs "elapsed_time" := durationString elapsed]} in
  match final with
  | Some r =>
      <[kolideDurationSinceLastPresenceDetectionHeaderKey := durationString (durationSinceLastDetection r)]>
        (<[bs "msg" := match derr r with Some _ => bs "presence_detection_error" | None => bs "presence_detection_complete" end]>
          callbackBody)
  | None =>
      <[bs "msg" := if timedOut then bs "presence_detection_timed_out" else bs "presence_detection_waiting"]> callbackBody
  end.

Definition presenceDetectionCallbackKryptoResponse (box : challenge) (headers : header) (body : gmap bytes bytes)
    (time : Z) (e : kryptoEcMiddleware) : option callbackDataStruct :=
  let data := json_object (λ v, v)
    (<[bs "headers" := json_header headers]> {[bs "body" := json_object json_string body]}) in
  match kryptoResponse box data e with
  | Some response => Some (CallbackData time noError (base64 response) [])
  | None => None
  end.

(** The loop, from the top of a turn: what it sends, and how it stands when [turns] are over *)
Fixpoint detect_loop (box : challenge) (cmdReq : v2CmdRequestType) (e : kryptoEcMiddleware) (time elapsed_ : Z)
    (final : option detectionResult) (timedOut : bool) (headers : header) (turns : list turn)
    : list (callback * callbackDataStruct) * loopState :=
  match presenceDetectionCallbackKryptoResponse box headers (presenceBody elapsed_ final timedOut) time e with
  | None => ([], GaveUp)
  | Some callBackData =>
      match CallbackReq cmdReq with
      | Ok req =>
          let sent := match req with Some req => [(req, callBackData)] | None => [] end in
          match final with
          | Some _ => (sent, Finished true)
          | None =>
              if timedOut then (sent, Finished false)
              else
                match turns with
                | [] => (sent, Waiting)
                | t :: turns =>
                    let again final timedOut headers :=
                      let '(more, st) := detect_loop box cmdReq e (turnTime t) (elapsed t) final timedOut headers turns in
                      (sent ++ more, st) in
                    match got t with
                    | CtxDone => again None true headers
                    | Detected r =>
                        again (Some r) false
                          (<[kolideDurationSinceLastPresenceDetectionHeaderKey :=
                               [durationString (durationSinceLastDetection r)]]> headers)
                    | Tick => again None false headers
                    end
                end
          end
      | _ => ([], GaveUp)
      end
  end.

Definition presenceHeaders (cmdReq : v2CmdRequestType) : header :=
  let headers : header := <[kolideOsHeaderKey := [GOOS m]]> {[kolideArchHeaderKey := [GOARCH m]]} in
  match CallbackHeaders cmdReq !! kolideSessionIdHeaderKey with
  | Some kolideSessionId => <[kolideSessionIdHeaderKey := kolideSessionId]> headers
  | None => headers
  end.

Definition reasonFor (cmdReq : v2CmdRequestType) : bytes :=
  let '(reason, reasonKey) :=
    if bool_decide (GOOS m = bs "windows")
    then (bs "Kolide is requesting authentication", kolidePresenceDetectionReasonWindowsHeaderKey)
    else (bs "authenticate", kolidePresenceDetectionReasonMacosHeaderKey) in
  if is_empty (first (CallbackHeaders cmdReq) reasonKey) then reason else first (CallbackHeaders cmdReq) reasonKey.

(** [DetectPresence(reason, interval)] is called when the prompt is [Some]; [locked] is whether another detection holds the lock. *)
Definition prompt (locked : bool) (box : challenge) : option (v2CmdRequestType * bytes * Z) :=
  if bool_decide (GOOS m = bs "linux") then None
  else
    match unmarshalCmdRequest (RequestData box) with
    | None => None
    | Some cmdReq =>
        let detectionIntervalStr := first (Headers cmdReq) kolidePresenceDetectionIntervalHeaderKey in
        if is_empty detectionIntervalStr then None
        else
          match parseDuration detectionIntervalStr with
          | None => None
          | Some interval => if locked then None else Some (cmdReq, reasonFor cmdReq, interval)
          end
    end.

Definition detectPresence (locked : bool) (box : challenge) (e : kryptoEcMiddleware) (time elapsed_ : Z) (turns : list turn)
    : list (callback * callbackDataStruct) * loopState :=
  match prompt locked box with
  | None => ([], Finished true)
  | Some (cmdReq, _, _) => detect_loop box cmdReq e time elapsed_ None false (presenceHeaders cmdReq) turns
  end.

(** ** What the checks promise *)

(** A challenge of K2, meant for this tenant and sent by a page it allows, and at most 150 seconds old or ahead *)
Definition authorised (en : env) (r : request) (e : kryptoEcMiddleware) (box : challenge) (cmdReq : v2CmdRequestType)
    : Prop :=
  extractChallenge r = Ok box ∧ Verify (counterParty e) box = true ∧
  unmarshalCmdRequest (RequestData box) = Some cmdReq ∧
  (tenantMunemo e = [] ∨ first (Headers cmdReq) kolideMunemoHeaderKey = [] ∨
   first (Headers cmdReq) kolideMunemoHeaderKey = tenantMunemo e) ∧
  (AllowedOrigins cmdReq = [] ∨ ∃ ao, ao ∈ AllowedOrigins cmdReq ∧ EqualFold ao (originOf r) = true) ∧
  Z.abs (now en - Timestamp box) <= 150.

(** The inner request is the signed command; only where it comes from is taken from the outer request. *)
Definition forwards (r : request) (cmdReq : v2CmdRequestType) (q : request) : Prop :=
  Method q = bs "POST" ∧ Path q = cmdPath cmdReq ∧ default [] (Body q) = cmdBody cmdReq ∧ query q = ∅ ∧
  Get (Header q) (bs "Origin") = Get (Header r) (bs "Origin") ∧
  Get (Header q) (bs "Referer") = Get (Header r) (bs "Referer") ∧
  ∀ k, CanonicalHeaderKey k ≠ bs "Origin" → CanonicalHeaderKey k ≠ bs "Referer" →
    Values (Header q) k = spelled (range (Headers cmdReq)) k.

Lemma cmdReqToHttpReq_forwards r cmdReq : forwards r cmdReq (cmdReqToHttpReq r cmdReq).
Proof.
  unfold forwards, cmdReqToHttpReq. cbn [Method Path Body query Header]. split_and!; try done.
  - by destruct (cmdBody cmdReq).
  - rewrite (Get_Values (Set_ _ _ _)), !Values_Set. rewrite bool_decide_false, bool_decide_true by done. done.
  - rewrite (Get_Values (Set_ _ _ _)), Values_Set, bool_decide_true by done. done.
  - intros k H1 H2. rewrite !Values_Set, !bool_decide_false by done. by rewrite Values_AddAll.
Qed.

(** The difference of two timestamps wraps around, but not into the window. *)
Lemma checkTimestamp_spec en box e :
  validityRange e = 150 → 0 <= now en < 2 ^ 62 → - two63 <= Timestamp box < two63 →
  checkTimestamp (now en) box e = true ↔ Z.abs (now en - Timestamp box) <= 150.
Proof.
  intros Hv Hn Ht. unfold checkTimestamp. rewrite Hv. unfold to_int64, two64, two63 in *. cbv zeta.
  set (t := Timestamp box) in *. clearbody t.
  assert (E : (now en - t) mod 2 ^ 64 = now en - t ∨ (now en - t) mod 2 ^ 64 = now en - t + 2 ^ 64).
  { destruct (Z_lt_dec (now en - t) 0).
    - right. rewrite <- (Z_mod_plus_full _ 1). apply Z.mod_small. lia.
    - left. apply Z.mod_small. lia. }
  rewrite negb_true_iff, orb_false_iff, !Z.ltb_ge. case_if; lia.
Qed.

Lemma checkMunemo_spec headers e :
  checkMunemo headers e = true ↔
  tenantMunemo e = [] ∨ first headers kolideMunemoHeaderKey = [] ∨ first headers kolideMunemoHeaderKey = tenantMunemo e.
Proof.
  unfold checkMunemo. destruct (tenantMunemo e) as [|x l] eqn:Et; cbn [is_empty]; [by split; [left|]|].
  destruct (first headers kolideMunemoHeaderKey) as [|y k]; cbn [is_empty]; [by split; [right; left|]|].
  rewrite bool_decide_eq_true. naive_solver.
Qed.

Lemma checkOrigin_spec r origins :
  checkOrigin r origins = true ↔ origins = [] ∨ ∃ ao, ao ∈ origins ∧ EqualFold ao (originOf r) = true.
Proof.
  unfold checkOrigin. rewrite orb_true_iff, existsb_exists. split.
  - intros [H|(ao & Hin & H)]; [left; by destruct origins|right]. exists ao. by rewrite list_elem_of_In.
  - intros [->|(ao & Hin & H)]; [by left|right]. exists ao. by rewrite <- list_elem_of_In.
Qed.

Lemma deferred_not_serve cmdReq box d q : EServe q ∉ deferred cmdReq box d.
Proof. unfold deferred. intros H. destruct (CallbackReq cmdReq) as [[cb|]| | |]; set_solver. Qed.

Ltac rejected :=
  split_and!;
    [intros q Hq; exfalso; first [by apply elem_of_nil in Hq | by apply deferred_not_serve in Hq]
    |intros ? ? (? & ? & ? & ? & ? & ?); exfalso; simplify_eq; intuition congruence
    |done].

Context (Hint64 : ∀ box, - two63 <= Timestamp box < two63).

Lemma Wrap_spec en r e :
  validityRange e = 150 → 0 <= now en < 2 ^ 62 →
  (∀ q, EServe q ∈ (Wrap en r e).1 → ∃ box cmdReq, authorised en r e box cmdReq ∧ q = cmdReqToHttpReq r cmdReq) ∧
  (∀ box cmdReq, authorised en r e box cmdReq → EServe (cmdReqToHttpReq r cmdReq) ∈ (Wrap en r e).1) ∧
  ((¬ ∃ box cmdReq, authorised en r e box cmdReq) → (Wrap en r e).2 = Ok (fails StatusUnauthorized)).
Proof.
  intros Hv Hn. unfold authorised, Wrap.
  destruct (extractChallenge r) as [box| | |]; [|rejected..].
  destruct (Verify (counterParty e) box) eqn:Ev; cbn [negb]; [|rejected].
  destruct (unmarshalCmdRequest (RequestData box)) as [cmdReq|] eqn:Eu; [|rejected].
  pose proof (checkMunemo_spec (Headers cmdReq) e) as Hm. pose proof (checkOrigin_spec r (AllowedOrigins cmdReq)) as Ho.
  pose proof (checkTimestamp_spec en box e Hv Hn (Hint64 box)) as Ht.
  destruct (checkMunemo (Headers cmdReq) e); cbn [negb]; [|rejected].
  destruct (checkOrigin r (AllowedOrigins cmdReq)); cbn [negb fst snd]; [|rejected].
  destruct (checkTimestamp (now en) box e); cbn [negb fst snd]; [|rejected].
  destruct Hm as [Hm _], Ho as [Ho _], Ht as [Ht _].
  assert (Hin : ∀ q, EServe q ∈ (match serve en box cmdReq r e with
    | Ok boxed => (EServe (cmdReqToHttpReq r cmdReq) :: deferred cmdReq box
        (CallbackData (callbackTime en) noError (base64 boxed) (Get (Header r) (bs "User-Agent"))), Ok (reply cmdReq boxed))
    | _ => (EServe (cmdReqToHttpReq r cmdReq) :: deferred cmdReq box
        (CallbackData (callbackTime en) noError [] (Get (Header r) (bs "User-Agent"))), Panic)
    end).1 ↔ q = cmdReqToHttpReq r cmdReq).
  { intros q. destruct (serve en box cmdReq r e); cbn [fst]; rewrite elem_of_cons; split; intros H; subst; auto.
    all: destruct H as [[= ->]|H]; [done|by apply deferred_not_serve in H]. }
  split_and!.
  - intros q ->%Hin. exists box, cmdReq. split; [by split_and!; auto|done].
  - intros box' cmdReq' (Eb & _ & Eu' & _). simplify_eq. by apply Hin.
  - intros []. exists box, cmdReq. by split_and!; auto.
Qed.

(** C7: An inner handler runs only for a challenge that K2 signed, that is meant for this tenant, comes from an allowed
    origin and is no more than 150 seconds off, whatever the request says; it then gets exactly the signed command, with
    the origin and referer of the outer request.  Every such challenge is served, and every other request is answered 401. *)
Theorem served_iff_authorised en r e :
  validityRange e = 150 → 0 <= now en < 2 ^ 62 →
  (∀ q, EServe q ∈ (Wrap en r e).1 → ∃ box cmdReq, authorised en r e box cmdReq ∧ forwards r cmdReq q) ∧
  (∀ box cmdReq, authorised en r e box cmdReq → ∃ q, EServe q ∈ (Wrap en r e).1) ∧
  ((¬ ∃ box cmdReq, authorised en r e box cmdReq) → (Wrap en r e).2 = Ok (fails StatusUnauthorized)).
Proof.
  intros Hv Hn. destruct (Wrap_spec en r e Hv Hn) as (H1 & H2 & H3). split_and!; [|eauto|done].
  intros q (box & cmdReq & Ha & ->)%H1. exists box, cmdReq. split; [done|apply cmdReqToHttpReq_forwards].
Qed.
(** A request whose origin is not allowed, or whose challenge is stale, is answered 401, and nevertheless has K2 called back and
    the user prompted to prove presence: the deferred call was set up before these checks. *)
Theorem rejected_still_prompts en r e box cmdReq cb interval :
  validityRange e = 150 → 0 <= now en < 2 ^ 62 →
  extractChallenge r = Ok box → Verify (counterParty e) box = true → unmarshalCmdRequest (RequestData box) = Some cmdReq →
  checkMunemo (Headers cmdReq) e = true → CallbackReq cmdReq = Ok (Some cb) →
  GOOS m ≠ bs "linux" → first (Headers cmdReq) kolidePresenceDetectionIntervalHeaderKey ≠ [] →
  parseDuration (first (Headers cmdReq) kolidePresenceDetectionIntervalHeaderKey) = Some interval →
  (AllowedOrigins cmdReq ≠ [] ∧ ∀ ao, ao ∈ AllowedOrigins cmdReq → EqualFold ao (originOf r) = false) ∨
    150 < Z.abs (now en - Timestamp box) →
  ∃ error, error ≠ noError ∧
    Wrap en r e = ([ECallback cb (CallbackData (callbackTime en) error [] (Get (Header r) (bs "User-Agent"))); EPresence box],
                   Ok (fails StatusUnauthorized)) ∧
    prompt false box = Some (cmdReq, reasonFor cmdReq, interval).
Proof.
  intros Hv Hn Hx Hver Hu Hm Hcb Hos Hint Hp Hbad. unfold Wrap, prompt. rewrite Hx, Hver, Hu, Hm. cbn [negb].
  rewrite bool_decide_false by done. destruct (first _ _) as [|x l] eqn:Ef; [done|]. cbn [is_empty]. rewrite Hp.
  unfold deferred. rewrite Hcb.
  pose proof (checkOrigin_spec r (AllowedOrigins cmdReq)) as Ho.
  pose proof (checkTimestamp_spec en box e Hv Hn (Hint64 box)) as Ht.
  destruct (checkOrigin r (AllowedOrigins cmdReq)); cbn [negb]; [|by exists originDisallowedErr].
  destruct (checkTimestamp (now en) box e); cbn [negb]; [|by exists timeOutOfRangeErr].
  exfalso. destruct Hbad as [[Hne Hall]|Hstale]; [|lia].
  destruct (proj1 Ho eq_refl) as [?|(ao & Hin & E)]; [done|]. by rewrite Hall in E.
Qed.

(** A challenge that is served: the answer to the browser and the callback carry the same box, which holds the
    body and the headers of the inner response. *)
Lemma served_reply en r e box cmdReq cb bhr data out :
  validityRange e = 150 → 0 <= now en < 2 ^ 62 → authorised en r e box cmdReq →
  CallbackReq cmdReq = Ok (Some cb) → next en (cmdReqToHttpReq r cmdReq) = Ok bhr →
  bufferedHttpResponseToResponseData (withHeaders cmdReq bhr) = Ok data → kryptoResponse box data e = Some out →
  ∃ resp cbdata, Wrap en r e = ([EServe (cmdReqToHttpReq r cmdReq); ECallback cb cbdata; EPresence box], Ok resp) ∧
    Error cbdata = noError ∧ DecodeString StdEncoding (Response_ cbdata) = Some out ∧
    body resp = if has_suffix (bs ".png") (cmdPath cmdReq) then ToPng out else Response_ cbdata.
Proof.
  intros Hv Hn (Hx & Hver & Hu & Hm & Ho & Ht) Hcb Hnext Hdata Hout. unfold Wrap. rewrite Hx, Hver, Hu. cbn [negb].
  rewrite (proj2 (checkMunemo_spec _ _) Hm), (proj2 (checkOrigin_spec _ _) Ho).
  rewrite (proj2 (checkTimestamp_spec en box e Hv Hn (Hint64 box)) Ht). cbn [negb].
  unfold serve. rewrite Hnext. cbn beta iota delta [mbind res_bind]. rewrite Hdata. cbn beta iota delta [mbind res_bind]. rewrite Hout. cbn [default from_option].
  unfold deferred. rewrite Hcb. eexists _, _. split; [reflexivity|]. split_and!; [done|apply DecodeString_base64|done].
Qed.

(** An inner response whose body is the JSON value null brings the handler down. *)
Lemma null_body_panics en r e box cmdReq bhr :
  validityRange e = 150 → 0 <= now en < 2 ^ 62 → authorised en r e box cmdReq →
  next en (cmdReqToHttpReq r cmdReq) = Ok bhr → unmarshalObject (body bhr) = Some None → (Wrap en r e).2 = Panic.
Proof.
  intros Hv Hn (Hx & Hver & Hu & Hm & Ho & Ht) Hnext Hnull. unfold Wrap. rewrite Hx, Hver, Hu. cbn [negb].
  rewrite (proj2 (checkMunemo_spec _ _) Hm), (proj2 (checkOrigin_spec _ _) Ho).
  rewrite (proj2 (checkTimestamp_spec en box e Hv Hn (Hint64 box)) Ht). cbn [negb].
  unfold serve. rewrite Hnext. cbn beta iota delta [mbind res_bind]. unfold bufferedHttpResponseToResponseData.
  cbn [body withHeaders]. by rewrite Hnull.
Qed.

(** What the loop sends in one turn: a report of [body] under [headers] *)
Definition reports (box : challenge) (e : kryptoEcMiddleware) (req : callback) (headers : header) (body : gmap bytes bytes)
    (x : callback * callbackDataStruct) : Prop :=
  x.1 = req ∧ ∃ time, presenceDetectionCallbackKryptoResponse box headers body time e = Some x.2.

(** How a detection ends: with the timeout, or with a result *)
Definition ends_with (s : selected) (elapsed : Z) (headers : header) : option (gmap bytes bytes * header * bool) :=
  match s with
  | CtxDone => Some (presenceBody elapsed None true, headers, false)
  | Detected r =>
      Some (presenceBody elapsed (Some r) false,
            <[kolideDurationSinceLastPresenceDetectionHeaderKey := [durationString (durationSinceLastDetection r)]]> headers,
            true)
  | Tick => None
  end.

(** While the user has not answered, a waiting report is sent at once and on every tick; the first result or the timeout
    is reported exactly once, after them, and ends the loop whatever comes later. *)
Theorem presence_reported box cmdReq e req time el headers ticks s t1 el1 rest body headers' received :
  (∀ data, kryptoResponse box data e ≠ None) → CallbackReq cmdReq = Ok (Some req) →
  ends_with s el1 headers = Some (body, headers', received) →
  ∃ waits final,
    detect_loop box cmdReq e time el None false headers
      (map (λ te, Turn Tick te.1 te.2) ticks ++ Turn s t1 el1 :: rest) = (waits ++ [final], Finished received) ∧
    Forall2 (λ elapsed, reports box e req headers (presenceBody elapsed None false)) (el :: map snd ticks) waits ∧
    reports box e req headers' body final.
Proof.
  intros Hk Hreq Hend.
  assert (Hrep : ∀ h b t, ∃ d, presenceDetectionCallbackKryptoResponse box h b t e = Some d).
  { intros h b t. unfold presenceDetectionCallbackKryptoResponse. specialize (Hk (json_object (λ v, v)
      (<[bs "headers" := json_header h]> {[bs "body" := json_object json_string b]}))). destruct (kryptoResponse _ _ _); [by eexists|done]. }
  revert time el. induction ticks as [|[t el'] ticks IH]; intros time el.
  - destruct (Hrep headers (presenceBody el None false) time) as [d Ed].
    destruct s as [|r|]; cbn [ends_with] in Hend; [| |done]; injection Hend as <- <- <-.
    + destruct (Hrep headers (presenceBody el1 None true) t1) as [d1 Ed1].
      exists [(req, d)], (req, d1). cbn [map app detect_loop got turnTime elapsed]. rewrite Ed, Hreq.
      destruct rest; cbn [detect_loop]; rewrite Ed1, Hreq; (split_and!; [done|repeat constructor; by exists time|split; [done|by exists t1]]).
    + match goal with |- context [reports _ _ _ ?h ?b _] => destruct (Hrep h (presenceBody el1 (Some r) false) t1) as [d1 Ed1] end.
      exists [(req, d)], (req, d1). cbn [map app detect_loop got turnTime elapsed]. rewrite Ed, Hreq.
      destruct rest; cbn [detect_loop]; rewrite Ed1, Hreq; (split_and!; [done|repeat constructor; by exists time|split; [done|by exists t1]]).
  - destruct (Hrep headers (presenceBody el None false) time) as [d Ed].
    destruct (IH t el') as (waits & final & E & Hw & Hf). exists ((req, d) :: waits), final.
    cbn [map app detect_loop got turnTime elapsed fst snd]. rewrite Ed, Hreq, E.
    split_and!; [done|constructor; [split; [done|by exists time]|exact Hw]|exact Hf].
Qed.
End Middleware.
(** ** The queue of callbacks (sendCallback, callbackWorker)

    Any number of handlers and detections send callbacks at the same time, and one worker receives them.  A step is one
    operation on the channel. *)
Section Queue.
Context {X : Type}.

(** Where a call of sendCallback stands *)
Inductive producer : Type :=
| Idle
| Purging (x : X)      (* it has seen the queue too long *)
| Sending (x : X).

Record channel := Channel { callbackQueue : list X; producers : list producer }.

Definition checked (q : list X) (x : X) : producer := if maxDesiredCallbackQueueSize <=? len q then Purging x else Sending x.
Definition purge (q : list X) : list X := match q with [] => [] | _ :: q => q end.

(** A send on the channel; [None] while it has no room *)
Definition enqueue (q : list X) (x : X) : option (list X) := if len q <? callbackQueueCapacity then Some (q ++ [x]) else None.

Inductive move : Type := MCheck (i : nat) (x : X) | MPurge (i : nat) | MSend (i : nat) | MReceive.

Definition do (a : move) (s : channel) : option channel :=
  let q := callbackQueue s in
  let ps := producers s in
  match a with
  | MCheck i x => match ps !! i with Some Idle => Some (Channel q (<[i := checked q x]> ps)) | _ => None end
  | MPurge i => match ps !! i with Some (Purging x) => Some (Channel (purge q) (<[i := Sending x]> ps)) | _ => None end
  | MSend i =>
      match ps !! i with
      | Some (Sending x) => match enqueue q x with Some q => Some (Channel q (<[i := Idle]> ps)) | None => None end
      | _ => None
      end
  | MReceive => match q with [] => None | _ :: q => Some (Channel q ps) end
  end.

Definition qstep (s s' : channel) : Prop := ∃ a, do a s = Some s'.

Fixpoint moves (l : list move) (s : channel) : option channel :=
  match l with [] => Some s | a :: l => match do a s with Some s => moves l s | None => None end end.

Definition idle (n : nat) : channel := Channel [] (replicate n Idle).

(** How many callers are about to send *)
Definition sends (p : producer) : Z := match p with Sending _ => 1 | _ => 0 end.
Fixpoint sending (ps : list producer) : Z := match ps with [] => 0 | p :: ps => sends p + sending ps end.

Lemma sending_insert ps i p p' : ps !! i = Some p → sending (<[i := p']> ps) = sending ps - sends p + sends p'.
Proof.
  revert i. induction ps as [|p0 ps IH]; intros [|i] E; cbn [lookup list_lookup] in E; try done.
  - injection E as ->. cbn. lia.
  - change (<[Datatypes.S i := p']> (p0 :: ps)) with (p0 :: <[i := p']> ps). cbn [sending]. rewrite (IH i) by done. lia.
Qed.

Lemma sending_bounds ps : 0 <= sending ps <= len ps.
Proof. induction ps as [|p ps IH]; [done|]. rewrite len_cons. cbn [sending]. destruct p; cbn [sends]; lia. Qed.

Lemma sending_at ps i x : ps !! i = Some (Sending x) → 1 <= sending ps.
Proof.
  intros E. pose proof (sending_bounds (<[i := Idle]> ps)) as H. rewrite (sending_insert _ _ _ _ E) in H. cbn [sends] in H. lia.
Qed.

Definition bounded (n : Z) (s : channel) : Prop :=
  len (producers s) = n ∧ len (callbackQueue s) + sending (producers s) <= 9 + n.

Lemma len_insert {A} (l : list A) i x : len (<[i := x]> l) = len l.
Proof. unfold len. by rewrite length_insert. Qed.

Lemma bounded_step n s s' : bounded n s → qstep s s' → bounded n s'.
Proof.
  intros [Hn Hb] [a E]. destruct s as [q ps], a as [i x|i|i|]; cbn [do callbackQueue producers] in *.
  - destruct (ps !! i) as [[| |]|] eqn:Ei; try done. injection E as <-. split; cbn [callbackQueue producers]; [by rewrite len_insert|].
    rewrite (sending_insert _ _ _ _ Ei). unfold checked, maxDesiredCallbackQueueSize. case_if; cbn [sends]; [lia|].
    pose proof (sending_bounds (<[i := Sending x]> ps)) as Hs. rewrite len_insert, (sending_insert _ _ _ _ Ei) in Hs. cbn [sends] in Hs. lia.
  - destruct (ps !! i) as [[|x|]|] eqn:Ei; try done. injection E as <-. split; cbn [callbackQueue producers]; [by rewrite len_insert|].
    pose proof (sending_bounds (<[i := Sending x]> ps)) as Hs. rewrite len_insert in Hs. rewrite (sending_insert _ _ _ _ Ei) in *.
    cbn [sends] in *. destruct q as [|y q]; cbn [purge]; rewrite ?len_cons, ?len_nil in *; lia.
  - destruct (ps !! i) as [[| |x]|] eqn:Ei; try done. unfold enqueue in E. case_if_in E; [|done]. injection E as <-.
    split; cbn [callbackQueue producers]; [by rewrite len_insert|]. rewrite (sending_insert _ _ _ _ Ei), len_app, len_cons, len_nil.
    cbn [sends]. lia.
  - destruct q as [|y q]; [done|]. injection E as <-. split; [done|]. cbn [callbackQueue producers] in *. rewrite len_cons in Hb. lia.
Qed.

Lemma bounded_reachable n s : rtc qstep (idle n) s → bounded (Z.of_nat n) s.
Proof.
  intros H. remember (idle n) as s0 eqn:E0. assert (H0 : bounded (Z.of_nat n) s0).
  { subst. split; cbn [idle callbackQueue producers]; [unfold len; by rewrite length_replicate|].
    assert (E : sending (replicate n (@Idle)) = 0) by (clear; induction n; [done|]; cbn [replicate sending sends]; lia). rewrite E. unfold len. cbn [length]. lia. }
  clear E0. induction H; [done|]. by eauto using bounded_step.
Qed.

Lemma moves_rtc l s s' : moves l s = Some s' → rtc qstep s s'.
Proof.
  revert s. induction l as [|a l IH]; cbn [moves]; intros s E; [by injection E as ->|].
  destruct (do a s) as [s1|] eqn:Ea; [|done]. eapply rtc_l; [by exists a|by apply IH].
Qed.

(** The queue of callbacks never holds more than nine more than there are callers, however they and the worker interleave; so
    no caller of up to 91 ever waits, even when the worker is stuck.  From 92 callers on, one can be made to wait. *)
Theorem callbacks_never_wait :
  (∀ n s, rtc qstep (idle n) s → len (callbackQueue s) <= 9 + Z.of_nat n) ∧
  (∀ n s i x, (n <= 91)%nat → rtc qstep (idle n) s → producers s !! i = Some (Sending x) → ∃ s', do (MSend i) s = Some s') ∧
  (inhabited X → ∃ s i x, rtc qstep (idle 92) s ∧ producers s !! i = Some (Sending x) ∧ do (MSend i) s = None).
Proof.
  split_and!.
  - intros n s [_ Hb]%bounded_reachable. pose proof (sending_bounds (producers s)). lia.
  - intros n s i x Hn [_ Hb]%bounded_reachable Ei. pose proof (sending_at _ _ _ Ei). cbn [do]. rewrite Ei.
    unfold enqueue. assert (E : (len (callbackQueue s) <? callbackQueueCapacity) = true) by (unfold callbackQueueCapacity; lia).
    rewrite E. by eexists.
  - intros [x].
    pose (script := concat (replicate 9 [MCheck 0 x; MSend 0]) ++ map (λ i, MCheck i x) (seq 0 92) ++ map MSend (seq 0 91)).
    destruct (moves script (idle 92)) as [s|] eqn:E; [|by vm_compute in E].
    exists s, 91%nat, x. split; [by eapply moves_rtc|]. vm_compute in E. injection E as <-. split; reflexivity.
Qed.
End Queue.

(** ** The callback worker *)
Section Worker.
Context {S : Type} `{KV : KVStore S} `{FL : Flags.FlagsLib} `{EL : Enrollment.EnrollLib} `{L : KryptoLib}.
Abbreviation controller := (Flags.controller (S := S)).

(** What the worker changes: the flags, the knapsack and the munemo that [checkMunemo] reads *)
Record worker := Worker {
  w_flags : controller;
  w_knapsack : Enrollment.knapsack (S := S);
  w_munemo : bytes
}.

(** A URL that differs from the flag's is stored; a failure is logged only. *)
Definition updateURL (url : bytes) (get : controller → bytes)
    (set : bytes → controller → controller * list Flags.notification * option err)
    (cn : controller * list Flags.notification) : controller * list Flags.notification :=
  if is_empty url || bool_decide (url = get cn.1) then cn
  else let '(fc, n, _) := set url cn.1 in (fc, cn.2 ++ n).

Definition updateURLs (urls : option KolideURLs) (fc : controller) : controller * list Flags.notification :=
  match urls with
  | None => (fc, [])
  | Some u =>
      updateURL (OsqueryPublisherURL u) Flags.OsqueryPublisherURL Flags.SetOsqueryPublisherURL
        (updateURL (ControlServerURL u) Flags.ControlServerURL Flags.SetControlServerURL
          (updateURL (EnrollmentURL u) Flags.KolideServerURL Flags.SetKolideServerURL (fc, [])))
  end.

(** One request of the queue; [sent] is the outcome of [client.Do], in it that of reading the response's body. *)
Definition handleCallback (hasPublisher : bool) (sent : res (res bytes)) (w : worker)
    : worker * list Flags.notification * option err :=
  match sent with
  | Ok (Ok respBytes) =>
      if is_empty respBytes then (w, [], None)
      else
        match unmarshalCallbackResponse respBytes with
        | None => (w, [], Some (Errorf "unmarshalling callback response: %w"))
        | Some r =>
            let '(fc, n) := updateURLs (DeploymentURLs r) (w_flags w) in
            if is_empty (NodeKey r) then (Worker fc (w_knapsack w) (w_munemo w), n, None)
            else
              let munemo := if is_empty (Munemo r) then w_munemo w else Munemo r in
              match Enrollment.SaveEnrollment Enrollment.DefaultEnrollmentID (Munemo r) (NodeKey r) [] (w_knapsack w) with
              | (k, Some e) => (Worker fc k munemo, n, Some (Wrapf "saving enrollment: %w" e))
              | (k, None) =>
                  let '(k, _) := Enrollment.PersistAgentIngesterKeys hasPublisher (AgentIngesterToken r)
                                   (AgentIngesterHPKEPublicKey r) (AgentIngesterHPKEPresharedKey r) k in
                  (Worker fc k munemo, n, None)
              end
        end
  | Ok (Err e) => (w, [], Some (Wrapf "could not read callback response body: %w" e))
  | Err e => (w, [], Some (Wrapf "sending request: %w" e))
  | _ => (w, [], Some (Errorf "panic"))
  end.

(** The turns of the worker: a request with its outcome, or the shutdown, after which nothing is received *)
Fixpoint callbackWorker (hasPublisher : bool) (turns : list (option (res (res bytes)))) (w : worker)
    : worker * list Flags.notification :=
  match turns with
  | Some sent :: turns =>
      let '(w, n, _) := handleCallback hasPublisher sent w in
      let '(w, ns) := callbackWorker hasPublisher turns w in
      (w, n ++ ns)
  | None :: _ | [] => (w, [])
  end.

Lemma PersistAgentIngesterKeys_keeps hp a b c k id :
  let k' := (Enrollment.PersistAgentIngesterKeys hp a b c k).1 in
  Enrollment.NodeKey id k' = Enrollment.NodeKey id k ∧ Enrollment.stored id k' = Enrollment.stored id k.
Proof. unfold Enrollment.PersistAgentIngesterKeys. destruct (Enrollment.TokenStore k); [|done]. by destruct hp. Qed.

Context `{!KVLaws S, !KVReliable S, !Enrollment.EnrollLaws}.

(** When K2 answers a callback with a node key, the launcher is enrolled: the key and the tenant are stored under the
    default enrollment, and from then on a command for another tenant is refused. *)
Theorem secretless_enrollment hasPublisher raw r w w' n :
  Enrollment.knap_ok (w_knapsack w) → raw ≠ [] → unmarshalCallbackResponse raw = Some r → NodeKey r ≠ [] →
  valid_utf8 (Munemo r) = true → valid_utf8 (NodeKey r) = true →
  handleCallback hasPublisher (Ok (Ok raw)) w = (w', n, None) →
  Enrollment.NodeKey Enrollment.DefaultEnrollmentID (w_knapsack w') = Ok (NodeKey r) ∧
  Enrollment.stored Enrollment.DefaultEnrollmentID (w_knapsack w') =
    Some (Enrollment.MkEnrollment Enrollment.DefaultEnrollmentID (Munemo r) [] (NodeKey r)) ∧
  Munemo r ≠ [] ∧
  ∀ e headers, tenantMunemo e = w_munemo w' → first headers kolideMunemoHeaderKey ≠ [] →
    checkMunemo headers e = bool_decide (first headers kolideMunemoHeaderKey = Munemo r).
Proof.
  intros Hok Hraw Eu Hnk Hm Hk. unfold handleCallback. destruct raw as [|x raw]; [done|]. cbn [is_empty]. rewrite Eu.
  destruct (updateURLs (DeploymentURLs r) (w_flags w)) as [fc n0]. destruct (NodeKey r) as [|y nk] eqn:En; [done|]. cbn [is_empty].
  destruct (Enrollment.SaveEnrollment _ _ _ _ _) as [k [e|]] eqn:Es; [done|].
  assert (Hmne : Munemo r ≠ []).
  { intros Hmt. rewrite Hmt in Es. unfold Enrollment.SaveEnrollment in Es.
    destruct (Enrollment.ConfigStore _); [|done]. by destruct (Enrollment.EnrollmentStore _). }
  apply Enrollment.SaveEnrollment_spec in Es as (m' & Em & _ & _ & HN & HS & _); [|done].
  assert (m' = Munemo r) as ->.
  { unfold Enrollment.munemoFor in Em. rewrite andb_false_r in Em. by injection Em as <-. }
  pose proof (PersistAgentIngesterKeys_keeps hasPublisher (AgentIngesterToken r) (AgentIngesterHPKEPublicKey r)
    (AgentIngesterHPKEPresharedKey r) k Enrollment.DefaultEnrollmentID) as [HN' HS'].
  destruct (Enrollment.PersistAgentIngesterKeys _ _ _ _ _) as [k' b]. cbn [fst] in *. intros [= <- <-]. cbn [w_knapsack w_munemo].
  split_and!.
  - by rewrite HN', HN, bool_decide_true.
  - rewrite HS', HS, bool_decide_true by done. apply Enrollment.unmarshal_marshal. unfold Enrollment.enrollment_utf8. cbn. repeat constructor; auto.
  - done.
  - intros e headers Ht Hf. unfold checkMunemo. rewrite Ht. destruct (Munemo r) as [|z mu]; [done|]. cbn [is_empty].
    by destruct (first headers kolideMunemoHeaderKey).
Qed.

(** The munemo is replaced before the enrollment is stored: when that fails, commands for every other tenant are refused, though
    there is no enrollment. *)
Lemma munemo_outlives_failure hasPublisher raw r w w' n e :
  raw ≠ [] → unmarshalCallbackResponse raw = Some r → NodeKey r ≠ [] → Munemo r ≠ [] →
  handleCallback hasPublisher (Ok (Ok raw)) w = (w', n, Some e) → w_munemo w' = Munemo r.
Proof.
  intros Hraw Eu Hnk Hm. unfold handleCallback. destruct raw as [|x raw]; [done|]. cbn [is_empty]. rewrite Eu.
  destruct (updateURLs _ _) as [fc n0]. destruct (NodeKey r); [done|]. cbn [is_empty]. destruct (Munemo r); [done|]. cbn [is_empty].
  destruct (Enrollment.SaveEnrollment _ _ _ _ _) as [k [e'|]]; [by intros [= <- _ _]|].
  by destruct (Enrollment.PersistAgentIngesterKeys _ _ _ _ _).
Qed.
End Worker.

(** ** Witnesses *)

(** A command for the tenant acme, which one page may send, and which asks for presence *)
Definition toyCmd : v2CmdRequestType :=
  CmdRequest (bs "/id") [] {[kolidePresenceDetectionIntervalHeaderKey := [bs "1h"]; kolideMunemoHeaderKey := [bs "acme"]]}
    (bs "https://k2.example/cb") ∅ [bs "https://app.example"].

#[local] Instance toyLib : KryptoLib := {|
  challenge := bytes; publicKey := unit; signer := unit; hasPublic _ := true;
  UnmarshalChallenge := Some; Verify _ c := has_prefix (bs "signed") c; RequestData c := c; Timestamp _ := 1000;
  Respond _ _ data _ := Some data; ToPng b := b;
  unmarshalCmdRequest _ := Some toyCmd;
  unmarshalCallbackResponse _ := Some (CallbackResponse (bs "key") (bs "acme") [] [] [] None);
  unmarshalObject b := if bool_decide (b = bs "null") then Some None else None;
  decodeStrings _ := None; validUrl _ := true; EqualFold a b := bool_decide (a = b);
  durationString := itoa; parseDuration b := if bool_decide (b = bs "1h") then Some 3600000000000 else None
|}.

Definition toyMiddleware : kryptoEcMiddleware := KryptoEc tt tt (bs "acme") timestampValidityRange.
Definition toyEnv (now : Z) : env := Env now now (λ _, Ok (Response 0 ∅ (bs "{}"))).
Definition toyRequest (origin : bytes) : request :=
  Request (bs "GET") [] (bs "localhost:12519") (bs "/v1/cmd") {[bs "box" := base64 (bs "signed")]}
    (Set_ (bs "Origin") origin ∅) None.
Definition toyMachine : machine := Machine (bs "darwin") (bs "arm64").

Lemma toyTimestamp box : - two63 <= Timestamp box < two63.
Proof. done. Qed.

Lemma toyNow t : (0 <=? t) && (t <? 2000) = true → 0 <= now (toyEnv t) < 2 ^ 62.
Proof. intros H. zbool. cbn [now toyEnv]. lia. Qed.

Lemma toyAuthorised : authorised (toyEnv 1100) (toyRequest (bs "https://app.example")) toyMiddleware (bs "signed") toyCmd.
Proof.
  unfold authorised. split_and!; [vm_compute; reflexivity..| | |vm_compute; discriminate].
  - right. right. vm_compute. reflexivity.
  - right. exists (bs "https://app.example"). split; [by apply list_elem_of_singleton|vm_compute; reflexivity].
Qed.

(** The page that is allowed is served; the same challenge 200 seconds after its time is not. *)
Lemma served_iff_authorised_witness :
  (∃ q, EServe q ∈ (Wrap map_to_list toyMachine None (toyEnv 1100) (toyRequest (bs "https://app.example")) toyMiddleware).1) ∧
  (Wrap map_to_list toyMachine None (toyEnv 1200) (toyRequest (bs "https://app.example")) toyMiddleware).2 = Ok (fails 401).
Proof.
  destruct (served_iff_authorised map_to_list toyMachine None toyTimestamp (toyEnv 1100)
    (toyRequest (bs "https://app.example")) toyMiddleware eq_refl (toyNow 1100 eq_refl)) as (_ & H & _).
  split; [exact (H _ _ toyAuthorised)|].
  destruct (served_iff_authorised map_to_list toyMachine None toyTimestamp (toyEnv 1200)
    (toyRequest (bs "https://app.example")) toyMiddleware eq_refl (toyNow 1200 eq_refl)) as (_ & _ & H').
  apply H'. intros (box & cmdReq & _ & _ & _ & _ & _ & Ht). vm_compute in Ht. by apply Ht.
Defined.

(** Another page replays the challenge: the prompt is shown all the same. *)
Lemma rejected_still_prompts_witness :
  ∃ cb error, error ≠ noError ∧
    Wrap map_to_list toyMachine None (toyEnv 1100) (toyRequest (bs "https://evil.example")) toyMiddleware =
      ([ECallback cb (CallbackData 1100 error [] []); EPresence (bs "signed")], Ok (fails 401)) ∧
    prompt toyMachine false (bs "signed") = Some (toyCmd, bs "authenticate", 3600000000000).
Proof.
  assert (Hcb : ∃ cb, CallbackReq map_to_list toyCmd = Ok (Some cb)).
  { unfold CallbackReq. cbn [CallbackUrl toyCmd]. by eexists. }
  destruct Hcb as [cb Hcb]. exists cb.
  refine (rejected_still_prompts map_to_list toyMachine None toyTimestamp (toyEnv 1100) (toyRequest (bs "https://evil.example"))
    toyMiddleware (bs "signed") toyCmd cb 3600000000000 eq_refl (toyNow 1100 eq_refl) _ _ _ _ Hcb _ _ _ _).
  1-4: vm_compute; reflexivity.
  - apply (bool_decide_unpack _). vm_compute. exact I.
  - apply (bool_decide_unpack _). vm_compute. exact I.
  - vm_compute. reflexivity.
  - left. split; [discriminate|]. intros ao Hin. apply list_elem_of_singleton in Hin as ->. vm_compute. reflexivity.
Defined.

(** Two ticks, then the user answers: three waiting reports and the result. *)
Lemma presence_reported_witness :
  ∃ waits final,
    detect_loop (L := toyLib) map_to_list toyMachine None (bs "signed") toyCmd toyMiddleware 0 0 None false ∅
      [Turn Tick 30 30; Turn Tick 60 60; Turn (Detected (DetectionResult 1 None)) 70 70; Turn CtxDone 80 80] =
      (waits ++ [final], Finished true) ∧ length waits = 3%nat.
Proof.
  assert (Hcb : ∃ cb, CallbackReq map_to_list toyCmd = Ok (Some cb)).
  { unfold CallbackReq. cbn [CallbackUrl toyCmd]. by eexists. }
  destruct Hcb as [cb Hcb].
  destruct (presence_reported (L := toyLib) map_to_list toyMachine None (bs "signed") toyCmd toyMiddleware cb 0 0 ∅ [(30, 30); (60, 60)]
    (Detected (DetectionResult 1 None)) 70 70 [Turn CtxDone 80 80] _ _ true ltac:(discriminate) Hcb eq_refl)
    as (waits & final & E & Hw & _).
  exists waits, final. split; [exact E|]. by rewrite <- (Forall2_length _ _ _ Hw).
Defined.

#[local] Instance toyFlags : Flags.FlagsLib := Flags.toyLib.
#[local] Instance toyEnroll : Enrollment.EnrollLib := Enrollment.toyLib.
#[local] Instance toyEnrollLaws : Enrollment.EnrollLaws := Enrollment.toyLaws.

Definition toyWorker : @worker InMemory.store toyFlags :=
  Worker (Flags.NewFlagController Flags.toyOptions None) Enrollment.toyKnapsack [].

Lemma secretless_enrollment_witness :
  ∃ w' n, handleCallback false (Ok (Ok (bs "{}"))) toyWorker = (w', n, None) ∧
    Enrollment.NodeKey Enrollment.DefaultEnrollmentID (w_knapsack w') = Ok (bs "key").
Proof.
  eexists _, _. split; [reflexivity|].
  refine (proj1 (secretless_enrollment false (bs "{}") _ toyWorker _ _ Enrollment.toyKnapsack_ok _ eq_refl _ eq_refl eq_refl eq_refl)).
  all: discriminate.
Defined.

End Krypto.
