(* ===== verification/Dt4a.v ===== *)
(** * ee/localserver: device trust for 1Password (dt4a)

    A request carries a chain of links, each signed by the key in the link before it and the first by a trusted
    root.  [validate] checks the chain, [Wrap] runs the handler for the account named in its last link, and seals
    the answer for the key in that link. *)
From S2P Require Import Prelude Json Strings KVStore Flags Http.
Set Warnings "-clear-no-such-hyp".

Module Dt4a.
Import Http.

Definition dt4aAccountUuidHeaderKey : bytes := bs "X-DT4A-Account-Uuid".
Definition dt4aUserUuidHeaderKey : bytes := bs "X-DT4A-User-Uuid".
Definition safariWebExtensionScheme : bytes := bs "safari-web-extension://".

(** ** Origins *)

(** ee/nativemessaging/manifest.go *)
Definition allowlistedDt4aOrigins : list bytes := map bs
  ["chrome-extension://gejiddohjgogedgjnonbofjigllpkmbf"; "chrome-extension://khgocmkkpikpnmmkgmdnfckapcdkgfaf";
   "chrome-extension://aeblfdkhhhdcdjpifhhbdiojplfjncoa"; "chrome-extension://dppgmdbiimibapkepcbdbmkaabgiofem";
   "moz-extension://dfbae458-fb6f-4614-856e-094108a80852"; "moz-extension://25fc87fa-4d31-4fee-b5c1-c32a7844c063";
   "moz-extension://d634138d-c276-4fc8-924b-40a0ea21d284"; "chrome-extension://hjlinigoblmkhjejkmbegnoaljkphmgo";
   "moz-extension://0a75d802-9aed-41e7-8daa-24c067386e82"; "chrome-extension://hiajhnnfoihkhlmfejoljaokdpgboiea";
   "chrome-extension://kioanpobaefjdloichnjebbdafiloboa"; "chrome-extension://bkpbhnjcbehoklfkljkkbbmipaphipgl";
   "https://my.b5local.com:4000"; "https://dev.sites.gitlab.1password.io"]%string.

(** [allowlisted1POriginRegex], https:\/\/.+\.1password\.(com|ca|eu)$.  The expression is anchored at the end only, and the
    dot stands for any character but a newline. *)
Definition domains : list bytes := map bs [".1password.com"; ".1password.ca"; ".1password.eu"]%string.

Definition middle (t d : bytes) : option bytes :=
  let rest := drop 8 t in
  if has_prefix (bs "https://") t && has_suffix d rest then Some (take (length rest - length d) rest) else None.

Definition matchHere (t : bytes) : bool :=
  existsb (λ d, match middle t d with
                | Some mid => negb (is_empty mid) && forallb (λ b, negb (b =b x0a)) mid
                | None => false
                end) domains.

Fixpoint match1P (s : bytes) : bool := matchHere s || match s with [] => false | _ :: s => match1P s end.

Definition originIsAllowlisted (requestOrigin : bytes) : bool :=
  is_empty requestOrigin || bool_decide (requestOrigin ∈ allowlistedDt4aOrigins) ||
  has_prefix safariWebExtensionScheme requestOrigin || match1P requestOrigin.

(** *** What the expression matches *)
Lemma middle_spec t d mid : middle t d = Some mid ↔ t = bs "https://" ++ mid ++ d.
Proof.
  unfold middle. split.
  - destruct (has_prefix (bs "https://") t) eqn:Ep; [|done]. apply has_prefix_spec in Ep as [rest ->].
    change (drop 8 (bs "https://" ++ rest)) with rest. cbn [andb].
    destruct (has_suffix d rest) eqn:Es; [|done]. apply has_suffix_spec in Es as [k ->].
    rewrite length_app. replace (length k + length d - length d)%nat with (length k) by lia. rewrite take_app_length. by intros [= ->].
  - intros ->. assert (Ep : has_prefix (bs "https://") (bs "https://" ++ mid ++ d) = true) by (apply has_prefix_spec; by eexists).
    rewrite Ep. change (drop 8 (bs "https://" ++ mid ++ d)) with (mid ++ d).
    assert (Es : has_suffix d (mid ++ d) = true) by (apply has_suffix_spec; by eexists). rewrite Es. cbn [andb].
    rewrite length_app. replace (length mid + length d - length d)%nat with (length mid) by lia. by rewrite take_app_length.
Qed.

Lemma matchHere_spec t :
  matchHere t = true ↔ ∃ mid d, d ∈ domains ∧ t = bs "https://" ++ mid ++ d ∧ mid ≠ [] ∧ x0a ∉ mid.
Proof.
  unfold matchHere. rewrite existsb_exists. split.
  - intros (d & Hd & H). destruct (middle t d) as [mid|] eqn:Em; [|done]. apply middle_spec in Em.
    apply andb_true_iff in H as [H1 H2]. exists mid, d. split_and!; [by rewrite list_elem_of_In|done|by destruct mid|].
    intros Hin. rewrite forallb_forall in H2. specialize (H2 x0a ltac:(by apply list_elem_of_In)). done.
  - intros (mid & d & Hd & Em & Hne & Hnl). exists d. split; [by apply list_elem_of_In|]. apply middle_spec in Em. rewrite Em.
    apply andb_true_iff. split; [by destruct mid|]. apply forallb_forall. intros b Hb. apply negb_true_iff.
    destruct (b =b x0a) eqn:E; [|done]. apply eqb_eq in E as ->. by apply list_elem_of_In in Hb.
Qed.

Lemma match1P_spec s :
  match1P s = true ↔ ∃ pre mid d, d ∈ domains ∧ s = pre ++ bs "https://" ++ mid ++ d ∧ mid ≠ [] ∧ x0a ∉ mid.
Proof.
  induction s as [|b s IH]; cbn [match1P]; rewrite orb_true_iff, matchHere_spec.
  - split.
    + intros [(mid & d & Hd & E & H)|]; [by exists [], mid, d|done].
    + intros (pre & mid & d & _ & E & _). symmetry in E. by apply app_eq_nil in E as [_ E].
  - rewrite IH. split.
    + intros [(mid & d & Hd & E & H)|(pre & mid & d & Hd & -> & H)]; [by exists [], mid, d|by exists (b :: pre), mid, d].
    + intros (pre & mid & d & Hd & E & H). destruct pre as [|b' pre]; [left; by exists mid, d|right].
      injection E as <- ->. by exists pre, mid, d.
Qed.

(** ** Keys (jwk_keys.go) *)
Record jwk := Jwk { crv : bytes; jx : bytes; jy : bytes; KeyID : bytes }.

Inductive curve : Type := P256 | P384 | P521.
Record ecdsaKey := EcdsaKey { Curve : curve; X : Z; Y : Z }.

(** [strings.ToUpper]; no letter outside ASCII has its upper case in the names of the curves *)
Definition parseEllipticCurve (str : bytes) : res curve :=
  let s := map upperByte str in
  if bool_decide (s = bs "P-256") then Ok P256
  else if bool_decide (s = bs "P-384") then Ok P384
  else if bool_decide (s = bs "P-521") then Ok P521
  else Err (Errorf "unsupported curve: %s").

(** [big.Int.SetBytes] *)
Definition SetBytes (b : bytes) : Z := le_value (reverse b).

(** ** Links *)
Record payload := Payload {
  AccountUuid : bytes;
  DateTimeSigned : Z;
  Environment : bytes;
  ExpirationDate : Z;
  PublicKey : jwk;
  payloadSignedBy : bytes;
  UserUuid : bytes;
  Version : Z
}.
Definition zeroPayload : payload := Payload [] 0 [] 0 (Jwk [] [] [] []) [] [] 0.

Record chainLink := ChainLink { linkPayload : bytes; Signature : bytes; SignedBy : bytes }.

(** What [validate] leaves in a chain *)
Record verified := Verified { counterPartyPubEncryptionKey : bytes; accountUuid : bytes; userUuid : bytes }.

(** What is not in the repository: elliptic curves, the boxes of NaCl, and JSON.  [unmarshalPayload] unmarshals into a payload that
    is there already: fields that the JSON does not mention keep their values. *)
Class Dt4aLib := {
  VerifySignature : ecdsaKey → bytes → bytes → bool;
  ECDH : ecdsaKey → bool;                                     (* the point is on the curve *)
  SealNaCl : bytes → bytes → option (bytes * bytes);
  unmarshalLinks : bytes → option (list chainLink);
  unmarshalPayload : payload → bytes → option payload
}.

Section Chain.
Context `{L : Dt4aLib}.

Definition ecdsaPubKey (j : jwk) : res ecdsaKey :=
  curve ← parseEllipticCurve (crv j);
  match DecodeString RawURLEncoding (jx j) with
  | None => Err (Errorf "error decoding x coordinate: %v")
  | Some xBytes =>
      match DecodeString RawURLEncoding (jy j) with
      | None => Err (Errorf "error decoding y coordinate: %v")
      | Some yBytes =>
          let pubKey := EcdsaKey curve (SetBytes xBytes) (SetBytes yBytes) in
          if ECDH pubKey then Ok pubKey else Err (Errorf "invalid public key: %w")
      end
  end.

Definition x25519PubKey (j : jwk) : res bytes :=
  match DecodeString RawURLEncoding (jx j) with
  | None => Err (Errorf "error decoding x coordinate: %v")
  | Some xBytes =>
      if len xBytes =? 32 then Ok xBytes
      else Err (Errorf "invalid x coordinate length for X25519, expected 32 bytes")
  end.

(** The loop of [validate]: the payload is one variable, which each link is unmarshalled into.  [clock i] is the time when
    link [i] is looked at. *)
Fixpoint validate_loop (clock : nat → Z) (i : nat) (parentEcdsa : ecdsaKey) (currentPayload : payload) (links : list chainLink)
    : res payload :=
  match links with
  | [] => Ok currentPayload
  | l :: links =>
      match DecodeString URLEncoding (Signature l) with
      | None => Err (Errorf "failed to decode signature at index %d: %w")
      | Some signature =>
          if negb (VerifySignature parentEcdsa (linkPayload l) signature) then Err (Errorf "invalid signature at index %d: %w")
          else
            match DecodeString URLEncoding (linkPayload l) with
            | None => Err (Errorf "failed to decode payload of index %d: %w")
            | Some payloadBytes =>
                match unmarshalPayload currentPayload payloadBytes with
                | None => Err (Errorf "failed to unmarshal payload of index %d: %w")
                | Some currentPayload =>
                    if ExpirationDate currentPayload <? clock i then Err (Errorf "payload at index %d has expired, kid %s")
                    else
                      match links with
                      | [] => Ok currentPayload
                      | _ :: _ =>
                          ecdsaPubKey ← wrap "failed to convert public key at index %d, kid %s into public ecdsa key: %w"
                                          (ecdsaPubKey (PublicKey currentPayload));
                          validate_loop clock (S i) ecdsaPubKey currentPayload links
                      end
                end
            end
      end
  end.

Definition validate (clock : nat → Z) (trustedKeys : gmap bytes ecdsaKey) (links : list chainLink) : res verified :=
  match links with
  | [] => Err (Errorf "chain is empty")
  | l :: _ =>
      if existsb (λ l, is_empty (linkPayload l) || is_empty (Signature l)) links
      then Err (Errorf "link %d is missing data or sig")
      else
        match trustedKeys !! SignedBy l with
        | None => Err (Errorf "root key with kid %s not found in trusted keys")
        | Some rootKey =>
            currentPayload ← validate_loop clock 0 rootKey zeroPayload links;
            rawX25519Key ← wrap "failed to convert last public key into x25519 key: %w" (x25519PubKey (PublicKey currentPayload));
            Ok (Verified rawX25519Key (AccountUuid currentPayload) (UserUuid currentPayload))
        end
  end.

(** [dt4aKeys]: the keys in the binary, each unmarshalled; one that is no key fails them all *)
Definition dt4aKeys (certMap : list (bytes * jwk)) : res (gmap bytes ecdsaKey) :=
  foldl (λ acc kv, m ← acc; k ← wrap "failed to convert JWK to ECDSA public key: %w" (ecdsaPubKey kv.2); Ok (<[kv.1 := k]> m))
    (Ok ∅) certMap.

(** ** The middleware

    An inner handler works on a state [A], and may never return ([None]): it sets overrides of flags, which can block. *)
Record outcome := Outcome {
  served : option request;     (* what the inner handler got *)
  delay : Z;                   (* milliseconds slept before the answer *)
  answer : response
}.

Definition refused (c : Z) : outcome := Outcome None 0 (finish (WriteHeader c newWriter)).

Definition marshalDt4aResponse (data pubKey : bytes) : bytes :=
  bs "{" ++ json_string (bs "data") ++ bs ":" ++ json_string data ++
  bs "," ++ json_string (bs "pubKey") ++ bs ":" ++ json_string pubKey ++ bs "}".

(** The request for the inner handler: no body and no parameters; Add leaves the values that are already there in front. *)
Definition innerRequest (r : request) (v : verified) : request :=
  Request (Method r) (Scheme r) (Host r) (trim_prefix (bs "/v3") (Path r)) ∅
    (Add dt4aUserUuidHeaderKey (userUuid v) (Add dt4aAccountUuidHeaderKey (accountUuid v) (Header r))) None.

(** The answer once the inner handler has returned *)
Definition seal (v : verified) (bhr : response) : response :=
  match SealNaCl (body bhr) (counterPartyPubEncryptionKey v) with
  | None => finish (WriteHeader 500 newWriter)
  | Some (box, pubKey) =>
      let w := if code bhr =? 0 then newWriter else WriteHeader (code bhr) newWriter in
      finish (Write (marshalDt4aResponse (base64url box) (base64url pubKey))
        (SetHeader (bs "Content-Type") (bs "application/octet-stream") w))
  end.

Definition Wrap {A : Type} (clock : nat → Z) (counterPartyKeys : gmap bytes ecdsaKey) (next : request → A → A * option response)
    (r : request) (a : A) : A * option outcome :=
  if negb (originIsAllowlisted (Get (Header r) (bs "Origin"))) then (a, Some (refused 403))
  else
    let boxParam := QueryGet r (bs "payload") in
    if is_empty boxParam then (a, Some (refused 400))
    else
      match DecodeString URLEncoding boxParam with
      | None => (a, Some (refused 400))
      | Some boxBytes =>
          match unmarshalLinks boxBytes with
          | None => (a, Some (refused 400))
          | Some requestTrustChain =>
              match validate clock counterPartyKeys requestTrustChain with
              | Ok v =>
                  let newReq := innerRequest r v in
                  match next newReq a with
                  | (a, None) => (a, None)
                  | (a, Some bhr) =>
                      let slept := if (code bhr <? 200) || (300 <=? code bhr) then 100 else 0 in
                      (a, Some (Outcome (Some newReq) slept (seal v bhr)))
                  end
              | _ => (a, Some (refused 401))
              end
          end
      end.

(** ** What a valid chain is *)

(** Link [l], unmarshalled into [p0], is [p], was signed by [parent], and is not expired. *)
Definition link_ok (parent : ecdsaKey) (now : Z) (l : chainLink) (p0 p : payload) : Prop :=
  ∃ sig content, DecodeString URLEncoding (Signature l) = Some sig ∧ VerifySignature parent (linkPayload l) sig = true ∧
    DecodeString URLEncoding (linkPayload l) = Some content ∧ unmarshalPayload p0 content = Some p ∧ now <= ExpirationDate p.

(** [keys] and [payloads] run along the links: each link is checked with its key, which the payload before it holds. *)
Definition chain_ok (clock : nat → Z) (i0 : nat) (links : list chainLink) (keys : list ecdsaKey) (p0 : payload) (payloads : list payload)
    : Prop :=
  length keys = length links ∧ length payloads = length links ∧
  (∀ i l k p, links !! i = Some l → keys !! i = Some k → payloads !! i = Some p →
     link_ok k (clock (i0 + i)%nat) l (default p0 ((p0 :: payloads) !! i)) p) ∧
  (∀ i p k, payloads !! i = Some p → keys !! S i = Some k → ecdsaPubKey (PublicKey p) = Ok k).

Lemma validate_loop_ok clock links : ∀ i0 parent p0 p, links ≠ [] →
  validate_loop clock i0 parent p0 links = Ok p ↔
  ∃ keys payloads, head keys = Some parent ∧ last payloads = Some p ∧ chain_ok clock i0 links keys p0 payloads.
Proof.
  induction links as [|l links IH]; [done|]. intros i0 parent p0 p _. cbn [validate_loop].
  assert (Hlink : ∀ p1, (∃ sig content, DecodeString URLEncoding (Signature l) = Some sig ∧
      VerifySignature parent (linkPayload l) sig = true ∧ DecodeString URLEncoding (linkPayload l) = Some content ∧
      unmarshalPayload p0 content = Some p1 ∧ clock i0 <= ExpirationDate p1) ↔ link_ok parent (clock i0) l p0 p1) by done.
  split.
  - destruct (DecodeString URLEncoding (Signature l)) as [sig|] eqn:E1; [|done].
    destruct (VerifySignature parent (linkPayload l) sig) eqn:E2; cbn [negb]; [|done].
    destruct (DecodeString URLEncoding (linkPayload l)) as [content|] eqn:E3; [|done].
    destruct (unmarshalPayload p0 content) as [p1|] eqn:E4; [|done].
    destruct (ExpirationDate p1 <? clock i0) eqn:E5; [done|]. zbool.
    assert (H1 : link_ok parent (clock i0) l p0 p1) by (by exists sig, content).
    destruct links as [|l2 links].
    + intros [= <-]. exists [parent], [p1]. unfold chain_ok. split_and!; try done.
      intros [|i] l' k p; cbn [lookup list_lookup]; [|by destruct i]. intros [= <-] [= <-] [= <-]. by rewrite Nat.add_0_r.
    + intros H. destruct (ecdsaPubKey (PublicKey p1)) as [k2| | |] eqn:Ek; try done. cbn [wrap mbind res_bind] in H.
      apply IH in H as (keys & ps & Hk & Hl & Hlen1 & Hlen2 & Hok & Hkeys); [|done].
      exists (parent :: keys), (p1 :: ps). unfold chain_ok. split_and!; try done; cbn [length] in *; try lia.
      * destruct ps; [done|]. exact Hl.
      * intros [|i] l' k p'; cbn [lookup list_lookup].
        -- intros [= <-] [= <-] [= <-]. by rewrite Nat.add_0_r.
        -- intros El Ekk Ep. pose proof (Hok i l' k p' El Ekk Ep) as Hi.
           replace (i0 + S i)%nat with (S i0 + i)%nat by lia.
           destruct i as [|i]; cbn [lookup list_lookup default from_option] in *; [exact Hi|].
           destruct (ps !! i) as [q|] eqn:Eq; [exact Hi|]. apply lookup_ge_None in Eq. apply lookup_lt_Some in Ep. lia.
      * intros [|i] p' k; cbn [lookup list_lookup].
        -- intros [= <-] Ekk. destruct keys as [|k0 keys]; [done|]. injection Hk as ->. injection Ekk as <-. done.
        -- apply Hkeys.
  - intros (keys & ps & Hk & Hl & Hlen1 & Hlen2 & Hok & Hkeys).
    destruct keys as [|k0 keys]; [done|]. injection Hk as ->. destruct ps as [|p1 ps]; [done|]. cbn [length] in *.
    pose proof (Hok 0%nat l parent p1 eq_refl eq_refl eq_refl) as (sig & content & E1 & E2 & E3 & E4 & E5).
    rewrite Nat.add_0_r in E5. change (unmarshalPayload p0 content = Some p1) in E4.
    rewrite E1, E2. cbn [negb]. rewrite E3, E4. assert (E6 : (ExpirationDate p1 <? clock i0) = false) by lia. rewrite E6.
    destruct links as [|l2 links].
    + destruct ps; [|done]. by injection Hl as ->.
    + destruct keys as [|k2 keys]; [done|]. pose proof (Hkeys 0%nat p1 k2 eq_refl eq_refl) as Ek. rewrite Ek.
      cbn [wrap mbind res_bind]. apply IH; [done|]. exists (k2 :: keys), ps. destruct ps as [|p2 ps]; [done|]. unfold chain_ok. split_and!; try done; cbn [length] in *; try lia.
      * intros i l' k p' El Ekk Ep. pose proof (Hok (S i) l' k p' El Ekk Ep) as Hi. cbn [lookup list_lookup] in Hi.
        replace (i0 + S i)%nat with (S i0 + i)%nat in Hi by lia.
        destruct i as [|i]; [exact Hi|]. change ((p1 :: p2 :: ps) !! S i) with ((p2 :: ps) !! i) in Hi.
        change ((p1 :: p2 :: ps) !! S i) with ((p2 :: ps) !! i).
        destruct ((p2 :: ps) !! i) as [q|] eqn:Eq; [exact Hi|]. apply lookup_ge_None in Eq. apply lookup_lt_Some in Ep. lia.
      * intros i p' k Ep Ekk. by apply (Hkeys (S i)).
Qed.

(** C8: A chain is accepted exactly when there are keys along it, the first a trusted root and each later one the key in the
    payload before, such that every link is signed by its key and not expired; the answer is then sealed for the key, and
    read for the account, of the last link. *)
Theorem validate_iff clock trustedKeys links v :
  validate clock trustedKeys links = Ok v ↔
  ∃ l rest root keys payloads p,
    links = l :: rest ∧ Forall (λ l, linkPayload l ≠ [] ∧ Signature l ≠ []) links ∧ trustedKeys !! SignedBy l = Some root ∧
    head keys = Some root ∧ last payloads = Some p ∧ chain_ok clock 0 links keys zeroPayload payloads ∧
    DecodeString RawURLEncoding (jx (PublicKey p)) = Some (counterPartyPubEncryptionKey v) ∧
    len (counterPartyPubEncryptionKey v) = 32 ∧ accountUuid v = AccountUuid p ∧ userUuid v = UserUuid p.
Proof.
  unfold validate. destruct links as [|l rest]; [split; [done|naive_solver]|].
  assert (Hm : existsb (λ l, is_empty (linkPayload l) || is_empty (Signature l)) (l :: rest) = false ↔
    Forall (λ l, linkPayload l ≠ [] ∧ Signature l ≠ []) (l :: rest)).
  { generalize (l :: rest). induction l0 as [|y ys IH]; [by split|]. cbn [existsb]. rewrite Forall_cons, orb_false_iff, orb_false_iff, IH.
    destruct (linkPayload y), (Signature y); cbn [is_empty]; naive_solver. }
  destruct (existsb _ _); [split; [done|]|destruct Hm as [Hm _]; specialize (Hm eq_refl)].
  { intros (l0 & r0 & root & ks & ps & p & E & Hall & _). destruct Hm as [_ Hm]. by specialize (Hm Hall). }
  destruct (trustedKeys !! SignedBy l) as [root|] eqn:Er; [|split; [done|]]; cycle 1.
  { intros (l0 & r0 & root & ks & ps & p & [= -> ->] & _ & E & _). congruence. }
  pose proof (validate_loop_ok clock (l :: rest) 0 root zeroPayload) as Hloop. split.
  - intros H. destruct (validate_loop clock 0 root zeroPayload (l :: rest)) as [p| | |] eqn:El; try done.
    cbn [mbind res_bind] in H. destruct (proj1 (Hloop p ltac:(done)) eq_refl) as (keys & ps & Hk & Hl & Hc).
    unfold x25519PubKey in H. destruct (DecodeString RawURLEncoding (jx (PublicKey p))) as [x|] eqn:Ex; [|done].
    destruct (len x =? 32) eqn:E32; [|done]. cbn [wrap mbind res_bind] in H. injection H as <-. zbool.
    exists l, rest, root, keys, ps, p. by split_and!.
  - intros (l0 & r0 & root' & keys & ps & p & [= <- <-] & _ & E & Hk & Hl & Hc & Hx & H32 & Ha & Hu).
    assert (root' = root) as -> by congruence. rewrite (proj2 (Hloop p ltac:(done))) by (by exists keys, ps).
    cbn [mbind res_bind]. unfold x25519PubKey. rewrite Hx, H32. cbn. destruct v; cbn in *. by subst.
Qed.

(** ** What the middleware promises *)

(** A request from an allowed origin, with a valid chain *)
Definition accepted (clock : nat → Z) (keys : gmap bytes ecdsaKey) (r : request) (v : verified) : Prop :=
  originIsAllowlisted (Get (Header r) (bs "Origin")) = true ∧ QueryGet r (bs "payload") ≠ [] ∧
  ∃ boxBytes links, DecodeString URLEncoding (QueryGet r (bs "payload")) = Some boxBytes ∧
    unmarshalLinks boxBytes = Some links ∧ validate clock keys links = Ok v.

Definition sleep (bhr : response) : Z := if (code bhr <? 200) || (300 <=? code bhr) then 100 else 0.

Lemma Wrap_accepted {A : Type} clock keys next r (a : A) v :
  accepted clock keys r v →
  Wrap clock keys next r a =
    (let '(a', bhr) := next (innerRequest r v) a in
     (a', option_map (λ bhr, Outcome (Some (innerRequest r v)) (sleep bhr) (seal v bhr)) bhr)).
Proof.
  intros (Ho & Hq & boxBytes & links & Hd & Hu & Hv). unfold Wrap. rewrite Ho. cbn [negb].
  destruct (QueryGet r (bs "payload")) as [|x l]; [done|]. cbn [is_empty]. rewrite Hd, Hu, Hv.
  by destruct (next (innerRequest r v) a) as [a' [bhr|]].
Qed.

Lemma Wrap_refused {A : Type} clock keys next r (a : A) :
  (¬ ∃ v, accepted clock keys r v) → ∃ c, c ∈ [400; 401; 403] ∧ Wrap clock keys next r a = (a, Some (refused c)).
Proof.
  intros Hno. unfold accepted in Hno. unfold Wrap.
  destruct (originIsAllowlisted (Get (Header r) (bs "Origin"))) eqn:Ho; cbn [negb]; [|exists 403; split; [set_solver|done]].
  destruct (QueryGet r (bs "payload")) as [|x l] eqn:Hq; cbn [is_empty]; [exists 400; split; [set_solver|done]|].
  destruct (DecodeString URLEncoding (x :: l)) as [boxBytes|] eqn:Hd; [|exists 400; split; [set_solver|done]].
  destruct (unmarshalLinks boxBytes) as [links|] eqn:Hu; [|exists 400; split; [set_solver|done]].
  destruct (validate clock keys links) as [v| | |] eqn:Hv; [|exists 401; split; [set_solver|done]..].
  exfalso. apply Hno. exists v. split_and!; [done..|]. by exists boxBytes, links.
Qed.

(** Only a request from an allowed origin with a valid chain reaches a handler behind the middleware; every other request is
    answered 400, 401 or 403 and leaves the state as it was. *)
Theorem only_verified_chains_served {A : Type} clock keys next r (a : A) :
  (∀ v, accepted clock keys r v → ∃ a' bhr, next (innerRequest r v) a = (a', bhr) ∧ (Wrap clock keys next r a).1 = a' ∧
     (served <$> (Wrap clock keys next r a).2) = (λ _, Some (innerRequest r v)) <$> bhr) ∧
  ((¬ ∃ v, accepted clock keys r v) → ∃ c, c ∈ [400; 401; 403] ∧ Wrap clock keys next r a = (a, Some (refused c))).
Proof.
  split; [|apply Wrap_refused]. intros v Hv. rewrite (Wrap_accepted _ _ next r a v Hv).
  destruct (next (innerRequest r v) a) as [a' bhr]. exists a', bhr. by destruct bhr.
Qed.

(** The two answers of a handler are treated the wrong way round: data, which it writes without a status, is held back
    for 100 milliseconds like a failure, and the status 204, which is not held back, loses the sealed body. *)
Theorem answers_of_the_middleware {A : Type} clock keys next r (a a' : A) v bhr :
  accepted clock keys r v → next (innerRequest r v) a = (a', Some bhr) →
  ∃ o, Wrap clock keys next r a = (a', Some o) ∧
    (code bhr = 0 → delay o = 100 ∧
       ∀ box pubKey, SealNaCl (body bhr) (counterPartyPubEncryptionKey v) = Some (box, pubKey) →
         code (answer o) = 200 ∧ body (answer o) = marshalDt4aResponse (base64url box) (base64url pubKey)) ∧
    (code bhr = 204 → delay o = 0 ∧ body (answer o) = []).
Proof.
  intros Hv Hn. rewrite (Wrap_accepted _ _ next r a v Hv), Hn. cbn [option_map]. eexists. split; [reflexivity|].
  cbn [delay answer]. unfold sleep, seal. split; intros Hc; rewrite Hc; (split; [done|]).
  - intros box pubKey ->. done.
  - by destruct (SealNaCl _ _) as [[box pubKey]|].
Qed.

(** ** The handlers (dt4a.go) *)
Section Handlers.
Context {S : Type} `{KV : KVStore S} `{FL : Flags.FlagsLib}.

Record server := Server { flags : Flags.controller (S := S); Dt4aInfoStore : S }.

Definition legacyDt4aInfoKey : bytes := bs "localserver_zta_info".
Definition accelerateInterval : Z := 5 * Flags.second.

(** The durations of the overrides are the timers of [Flags]; false: the call never returns. *)
Definition accelerate (ls : server) : server * bool :=
  match Flags.SetControlRequestIntervalOverride accelerateInterval (flags ls) with
  | (fc, None) => (Server fc (Dt4aInfoStore ls), false)
  | (fc, Some _) =>
      match Flags.SetDistributedForwardingIntervalOverride accelerateInterval fc with
      | (fc, None) => (Server fc (Dt4aInfoStore ls), false)
      | (fc, Some _) => (Server fc (Dt4aInfoStore ls), true)
      end
  end.

Definition infoFor (key : bytes) (ls : server) : response :=
  match kv_Get (Dt4aInfoStore ls) key with
  | Ok dt4aInfo =>
      match default [] dt4aInfo with
      | [] => fails 204
      | info => Response 0 (Set_ (bs "Content-Type") (bs "application/json") ∅) info
      end
  | _ => fails 500
  end.

Definition requestDt4aInfoHandlerFunc (r : request) (ls : server) : server * option response :=
  if negb (originIsAllowlisted (Get (Header r) (bs "Origin"))) then (ls, Some (fails 403))
  else
    let '(ls, returned) := if Flags.AllowOverlyBroadDt4aAcceleration (flags ls) then accelerate ls else (ls, true) in
    if negb returned then (ls, None)
    else
      let account := Get (Header r) dt4aAccountUuidHeaderKey in
      (ls, Some (infoFor (if is_empty account then legacyDt4aInfoKey else account) ls)).

Definition requestDt4aAccelerationHandlerFunc (_ : request) (ls : server) : server * option response :=
  let '(ls, returned) := accelerate ls in (ls, if returned then Some (fails 204) else None).

Definition requestDt4aHealthHandler (_ : request) (ls : server) : server * option response := (ls, Some (Response 0 ∅ (bs "OK"))).

(** [dt4aMux]; what it does not know is 404 *)
Definition dt4aMux (r : request) (ls : server) : server * option response :=
  if bool_decide (Path r = bs "/dt4a") then requestDt4aInfoHandlerFunc r ls
  else if bool_decide (Path r = bs "/accelerate") then requestDt4aAccelerationHandlerFunc r ls
  else if bool_decide (Path r = bs "/health") then requestDt4aHealthHandler r ls
  else (ls, Some NotFound).
(** The account that a handler reads for is the one of the verified chain only if the request does not name one itself: a
    header in the request comes first, and its account's information is sealed for the caller. *)
Theorem account_spoofed clock keys r (ls : server) v account more i info box pubKey :
  accepted clock keys r v → Path r = bs "/v3/dt4a" → Flags.AllowOverlyBroadDt4aAcceleration (flags ls) = false →
  Values (Header r) dt4aAccountUuidHeaderKey = account :: more → account ≠ [] →
  kv_Get (Dt4aInfoStore ls) account = Ok (Some (i :: info)) →
  SealNaCl (i :: info) (counterPartyPubEncryptionKey v) = Some (box, pubKey) →
  ∃ o, Wrap clock keys dt4aMux r ls = (ls, Some o) ∧ code (answer o) = 200 ∧
    body (answer o) = marshalDt4aResponse (base64url box) (base64url pubKey).
Proof.
  intros Hv Hp Hfl Hval Hacc Hget Hseal.
  assert (Hacct : Get (Header (innerRequest r v)) dt4aAccountUuidHeaderKey = account).
  { rewrite Get_Values. cbn [innerRequest Header]. rewrite !Values_Add.
    rewrite bool_decide_false, bool_decide_true by done. by rewrite Hval. }
  assert (Hor : Get (Header (innerRequest r v)) (bs "Origin") = Get (Header r) (bs "Origin")).
  { rewrite !Get_Values. cbn [innerRequest Header]. rewrite !Values_Add. by rewrite !bool_decide_false by done. }
  assert (Hnext : dt4aMux (innerRequest r v) ls =
    (ls, Some (Response 0 (Set_ (bs "Content-Type") (bs "application/json") ∅) (i :: info)))).
  { unfold dt4aMux. assert (Epath : Path (innerRequest r v) = bs "/dt4a") by (cbn [innerRequest Path]; by rewrite Hp).
    rewrite Epath, bool_decide_true by done. unfold requestDt4aInfoHandlerFunc. rewrite Hor, (proj1 Hv), Hfl, Hacct. cbn [negb].
    destruct account; [done|]. cbn [is_empty]. unfold infoFor. by rewrite Hget. }
  rewrite (Wrap_accepted _ _ dt4aMux r ls v Hv), Hnext. cbn [option_map]. eexists. split; [reflexivity|].
  cbn [answer]. unfold seal. cbn [body code]. by rewrite Hseal.
Qed.
End Handlers.

End Chain.
(** ** Witnesses *)

(** A chain of one link, for the account mine *)
Definition toyLink : chainLink := ChainLink (base64url (bs "p")) (base64url (bs "sig")) (bs "root").
#[local] Instance toyLib : Dt4aLib := {|
  VerifySignature k p sig := bool_decide (sig = bs "sig"); ECDH _ := true; SealNaCl b k := Some (b, k);
  unmarshalLinks _ := Some [toyLink];
  unmarshalPayload _ _ := Some (Payload (bs "mine") 0 [] 5000 (Jwk (bs "P-256") (replicate 43 x41) [] []) [] (bs "user") 1)
|}.
Definition toyKeys : gmap bytes ecdsaKey := {[bs "root" := EcdsaKey P256 1 2]}.
Definition toyRequest (path : bytes) (h : header) : request :=
  Request (bs "GET") [] (bs "localhost") path {[bs "payload" := base64url (bs "[]")]} h None.
Definition toyVerified : verified := Verified (replicate 32 x00) (bs "mine") (bs "user").
Definition spoofing : header := {[bs "X-Dt4a-Account-Uuid" := [bs "theirs"]]}.

Lemma toyAccepted path h : Get h (bs "Origin") = [] → accepted (λ _, 1000) toyKeys (toyRequest path h) toyVerified.
Proof.
  intros Ho. unfold accepted. cbn [Header toyRequest]. rewrite Ho. split; [done|]. split; [by vm_compute|].
  exists (bs "[]"), [toyLink]. split_and!; vm_compute; reflexivity.
Qed.

Lemma toyNoOrigin : Get ∅ (bs "Origin") = [].
Proof. vm_compute. reflexivity. Qed.
Lemma spoofNoOrigin : Get spoofing (bs "Origin") = [].
Proof. vm_compute. reflexivity. Qed.

(** Health: data, held back; a status 204: no body *)
Lemma answers_of_the_middleware_witness :
  (∃ o, Wrap (λ _, 1000) toyKeys (λ _ a, (a, Some (Response 0 ∅ (bs "OK")))) (toyRequest (bs "/v3/health") ∅) tt = (tt, Some o) ∧
     delay o = 100) ∧
  (∃ o, Wrap (λ _, 1000) toyKeys (λ _ a, (a, Some (fails 204))) (toyRequest (bs "/v3/accelerate") ∅) tt = (tt, Some o) ∧
     delay o = 0 ∧ body (answer o) = []).
Proof.
  split.
  - destruct (answers_of_the_middleware (λ _, 1000) toyKeys (λ _ a, (a, Some (Response 0 ∅ (bs "OK"))))
      (toyRequest (bs "/v3/health") ∅) tt tt toyVerified _ (toyAccepted _ ∅ toyNoOrigin) eq_refl) as (o & E & H & _).
    exists o. split; [exact E|]. by apply H.
  - destruct (answers_of_the_middleware (λ _, 1000) toyKeys (λ _ a, (a, Some (fails 204)))
      (toyRequest (bs "/v3/accelerate") ∅) tt tt toyVerified _ (toyAccepted _ ∅ toyNoOrigin) eq_refl) as (o & E & _ & H).
    exists o. split; [exact E|]. by apply H.
Defined.

Definition toyServer : @server InMemory.store Flags.toyLib :=
  Server Flags.toyController (InMemory.Set_ (bs "theirs") (bs "{}") InMemory.NewStore).1.

Lemma toyFlag : Flags.AllowOverlyBroadDt4aAcceleration (flags toyServer) = false.
Proof. vm_compute. reflexivity. Qed.
Lemma toyHeader : Values (Header (toyRequest (bs "/v3/dt4a") spoofing)) dt4aAccountUuidHeaderKey = [bs "theirs"].
Proof. vm_compute. reflexivity. Qed.
Lemma toyInfo : kv_Get (Dt4aInfoStore toyServer) (bs "theirs") = Ok (Some (x7b :: bs "}")).
Proof. vm_compute. reflexivity. Qed.

(** The chain is for the account mine, the answer is about theirs. *)
Lemma account_spoofed_witness :
  ∃ o, Wrap (λ _, 1000) toyKeys dt4aMux (toyRequest (bs "/v3/dt4a") spoofing) toyServer = (toyServer, Some o) ∧
    body (answer o) = marshalDt4aResponse (base64url (bs "{}")) (base64url (replicate 32 x00)).
Proof.
  destruct (account_spoofed (S := InMemory.store) (λ _, 1000) toyKeys (toyRequest (bs "/v3/dt4a") spoofing) toyServer toyVerified (bs "theirs") []
    x7b (bs "}") (bs "{}") (replicate 32 x00) (toyAccepted _ spoofing spoofNoOrigin) eq_refl toyFlag toyHeader ltac:(discriminate) toyInfo eq_refl) as (o & E & _ & H).
  exists o. split; [exact E|exact H].
Defined.
End Dt4a.
