(* ===== verification/Localserver.v ===== *)
(** * ee/localserver: the server on the loopback interface

    [ServeHTTP] is the chain of handlers of a request: CORS headers, routing, rate limits, and then one of the two
    authenticating middlewares ([Krypto], [Dt4a]) in front of the endpoints, or the one endpoint that has none. *)
From S2P Require Import Prelude Json Strings Paths KVStore Flags Enrollment Http Krypto Dt4a.
Set Warnings "-clear-no-such-hyp".

Module Localserver.
Import Http.

(** ** Starting and stopping *)
Definition PortList : list Z := [12519; 40978; 52115; 22287; 60685; 22322].

(** [startListener]: the first port that can be bound *)
Fixpoint startListener (binds : Z → bool) (ports : list Z) : res Z :=
  match ports with
  | [] => Err (Errorf "unable to bind to a local port")
  | p :: ports => if binds p then Ok p else startListener binds ports
  end.

(** The certificate of the server that challenges are checked against *)
Inductive cert : Type := k2EccServerCert | localhostEccServerCert | reviewEccServerCert.

Definition LoadDefaultKeyIfNotSet {K} (PublicPemToEcdsaKey : cert → res K) (kolideServer : bytes) (serverEcKey : option K) : res K :=
  match serverEcKey with
  | Some k => Ok k
  | None =>
      let serverEccCertPem :=
        if has_prefix (bs "localhost") kolideServer || has_prefix (bs "127.0.0.1") kolideServer ||
           contains (bs ".ngrok.") kolideServer || contains (bs ".kolide.test") kolideServer then localhostEccServerCert
        else if has_suffix (bs ".herokuapp.com") kolideServer then reviewEccServerCert
        else k2EccServerCert in
      wrap "parsing default server ec key: %w" (PublicPemToEcdsaKey serverEccCertPem)
  end.

Definition hour : Z := 3600 * 10 ^ 9.
Definition recalculateInterval : Z := 24 * hour.

(** The ticks of the background worker: the time, whether updating the id fields succeeds, and when it is over.  [lastRun] is None
    for the zero time, which is longer ago than any interval. *)
Fixpoint asyncWorkers (ticks : list (Z * bool * Z)) (lastRun : option Z) : list Z * option Z :=
  match ticks with
  | [] => ([], lastRun)
  | (now, success, after) :: ticks =>
      let due := match lastRun with None => true | Some t => recalculateInterval <? now - t end in
      if due then
        let '(runs, last) := asyncWorkers ticks (if success : bool then Some after else None) in (now :: runs, last)
      else asyncWorkers ticks lastRun
  end.

(** [Interrupt]: the channel is closed at most once *)
Record lifecycle := Lifecycle { interrupted : bool; shutdownClosed : bool }.

Definition Close (l : lifecycle) : res lifecycle := if shutdownClosed l then Panic else Ok (Lifecycle (interrupted l) true).

Definition Interrupt (l : lifecycle) : res lifecycle :=
  if interrupted l then Ok l else Close (Lifecycle true (shutdownClosed l)).

(** The fields are recalculated no more than once a day when that succeeds, and on the next tick when it fails. *)
Lemma recalculations_spaced ticks last :
  Forall (λ t : Z * bool * Z, t.1.1 <= t.2 ∧ t.1.2 = true) ticks →
  (∀ t, last = Some t → Forall (λ r, t + recalculateInterval < r) (asyncWorkers ticks last).1) ∧
  StronglySorted (λ a b, a + recalculateInterval < b) (asyncWorkers ticks last).1.
Proof.
  intros Hall. revert last. induction Hall as [|[[n ok] after] ticks [Hn Hok] _ IH]; intros last; cbn [asyncWorkers]; [by repeat constructor|].
  cbn [fst snd] in Hn, Hok. subst ok. assert (Hrec : 0 < recalculateInterval) by (unfold recalculateInterval, hour; lia).
  destruct (match last with None => true | Some t => recalculateInterval <? n - t end) eqn:Edue; [|apply IH].
  specialize (IH (Some after)). destruct (asyncWorkers ticks (Some after)) as [runs l]. cbn [fst] in *. destruct IH as [IH1 IH2].
  specialize (IH1 after eq_refl). split.
  - intros t ->. zbool. constructor; [lia|]. eapply Forall_impl; [exact IH1|]. cbn. lia.
  - constructor; [exact IH2|]. eapply Forall_impl; [exact IH1|]. cbn. lia.
Qed.

Lemma recalculation_retried n n' a a' ok' ticks :
  ∃ rest, (asyncWorkers ((n, false, a) :: (n', ok', a') :: ticks) None).1 = n :: n' :: rest.
Proof.
  cbn [asyncWorkers]. destruct (asyncWorkers ticks (if ok' then Some a' else None)) as [runs l]. by exists runs.
Qed.

(** Interrupting again does nothing. *)
Lemma Interrupt_idempotent l l' : Interrupt l = Ok l' → interrupted l' = true ∧ Interrupt l' = Ok l'.
Proof.
  unfold Interrupt, Close. destruct (interrupted l) eqn:E; [intros [= <-]; by rewrite E|]. cbn. by destruct (shutdownClosed l); [|intros [= <-]].
Qed.

(** The listener has the first port of the list that can be bound. *)
Lemma startListener_spec binds ports p :
  startListener binds ports = Ok p ↔ ∃ before rest, ports = before ++ p :: rest ∧ binds p = true ∧ Forall (λ q, binds q = false) before.
Proof.
  induction ports as [|q ports IH]; cbn [startListener].
  - split; [done|]. intros (before & rest & E & _). by destruct before.
  - destruct (binds q) eqn:Eq.
    + split; [intros [= <-]; by exists [], ports|]. intros (before & rest & E & Hp & Hall). destruct before as [|q' before].
      * by injection E as -> _.
      * injection E as <- _. apply Forall_inv in Hall. congruence.
    + rewrite IH. split.
      * intros (before & rest & -> & Hp & Hall). exists (q :: before), rest. split_and!; auto.
      * intros (before & rest & E & Hp & Hall). destruct before as [|q' before]; [injection E as -> _; congruence|].
        injection E as <- ->. exists before, rest. split_and!; [done..|by apply Forall_inv_tail in Hall].
Qed.

(** ** The endpoints *)

(** The rows of a query; [None] is the nil slice. *)
Abbreviation rows := (option (list (gmap bytes bytes))).

Record distributedResult := DistributedResult { QueryName : bytes; Status : Z; Rows : rows }.

(** What is not in the repository: the texts of errors, JSON and its encoding of the results of osquery-go and of the
    response to /id, and redirects of net/http *)
Class ServerLib := {
  errorText : err → bytes;
  decodeMap : bytes → option (option (gmap bytes bytes));       (* Decoder.Decode into map[string]string *)
  marshalResults : list distributedResult → bytes;
  marshalIds : request → bytes → bytes;
  Redirect : request → bytes → response
}.

Section Server.
Context {S : Type} `{KV : KVStore S} `{FL : Flags.FlagsLib} `{EL : Enrollment.EnrollLib} `{KL : Krypto.KryptoLib} `{DL : Dt4a.Dt4aLib} `{SL : ServerLib}.

(** The clock of the middlewares, the rate limiters, what osquery answers to successive attempts of a query, and
    what is stored as the host's identifier *)
Record world := World {
  callbackTime : Z;
  now : Z;
  clock : nat → Z;
  ecAllow : bool;
  dt4aAllow : bool;
  attempts : bytes → list (res rows);
  identifierFromDB : res bytes
}.

Record localServer := LocalServer {
  dt4a : Dt4a.server (S := S);
  kryptoMiddleware : Krypto.kryptoEcMiddleware;
  dt4aTrusted : gmap bytes Dt4a.ecdsaKey;
  hostIdentifier : bytes
}.

Definition with_dt4a (d : Dt4a.server) (ls : localServer) : localServer :=
  LocalServer d (kryptoMiddleware ls) (dt4aTrusted ls) (hostIdentifier ls).
Definition with_identifier (h : bytes) (ls : localServer) : localServer :=
  LocalServer (dt4a ls) (kryptoMiddleware ls) (dt4aTrusted ls) h.

(** *** Munemo *)
Definition getMunemoFromKnapsack (k : Enrollment.knapsack (S := S)) : res bytes :=
  enrollments ← wrap "getting enrollments from knapsack: %w" (Enrollment.Enrollments k);
  if is_empty enrollments then Err (Errorf "no enrollments in knapsack")
  else
    match find (λ e, bool_decide (Enrollment.EnrollmentID e = Enrollment.DefaultEnrollmentID)) enrollments with
    | Some e => Ok (Enrollment.Munemo e)
    | None => Err (Errorf "no enrollment found for `%s` enrollment ID, cannot find munemo")
    end.

(** The goroutine that waits for an enrollment: what the knapsack is at each tick *)
Fixpoint pollMunemo (ticks : list (Enrollment.knapsack (S := S))) (tenantMunemo : bytes) : bytes :=
  if negb (is_empty tenantMunemo) then tenantMunemo
  else
    match ticks with
    | [] => tenantMunemo
    | k :: ticks => pollMunemo ticks (match getMunemoFromKnapsack k with Ok munemo => munemo | _ => tenantMunemo end)
    end.

(** *** Queries (request-query.go) *)
Definition sendClientError (e : err) : response := Response 400 ∅ (errorText e).

(** [WaitFor] calls Query at least once; the last attempt counts. *)
Fixpoint queryWithRetries (l : list (res rows)) : res rows :=
  match l with
  | [] => Err (Errorf "no attempt")
  | [r] => r
  | Ok a :: _ => Ok a
  | _ :: l => queryWithRetries l
  end.

Definition marshalRows (r : rows) : bytes :=
  match r with None => bs "null" | Some l => json_array (map (json_object json_string) l) end.

(** The value of a key of the body, which is an object of strings *)
Definition bodyField (key : bytes) (missing : err) (r : request) : res bytes :=
  match Body r with
  | None => Err (Errorf "request body is nil")
  | Some content =>
      match decodeMap content with
      | None => Err (Errorf "error unmarshaling request body: %s")
      | Some body =>
          match default ∅ body !! key with
          | Some v => if is_empty v then Err missing else Ok v
          | None => Err missing
          end
      end
  end.

Definition requestQueryHanlderFunc (w : world) (r : request) : response :=
  match bodyField (bs "query") (Errorf "no query key found in request body json") r with
  | Ok query =>
      match queryWithRetries (attempts w query) with
      | Ok results => Response 0 ∅ (marshalRows results)
      | Err e => sendClientError (Wrapf "error executing query: %s" e)
      | _ => sendClientError (Errorf "panic")
      end
  | Err e => sendClientError e
  | _ => sendClientError (Errorf "panic")
  end.

Definition scheduledQuery (name : bytes) : bytes :=
  bs "select name, query from osquery_schedule where name like '" ++ name ++ bs "'".

Definition runScheduled (w : world) (row : gmap bytes bytes) : distributedResult :=
  let name := default [] (row !! bs "name") in
  match queryWithRetries (attempts w (default [] (row !! bs "query"))) with
  | Ok result => DistributedResult name 0 result
  | _ => DistributedResult name 1 None
  end.

Definition requestScheduledQueryHandlerFunc (w : world) (r : request) : response :=
  match bodyField (bs "name") (Errorf "no name key found in request body json") r with
  | Ok name =>
      match queryWithRetries (attempts w (scheduledQuery name)) with
      | Ok results => Response 0 ∅ (marshalResults (map (runScheduled w) (default [] results)))
      | Err e => sendClientError (Wrapf "error executing query for scheduled queries using %s: %s" e)
      | _ => sendClientError (Errorf "panic")
      end
  | Err e => sendClientError e
  | _ => sendClientError (Errorf "panic")
  end.

(** *** Acceleration (request-controlservice.go) *)
Definition durationFromMap (key : bytes) (body : gmap bytes bytes) : res Z :=
  let rawDuration := default [] (body !! key) in
  if is_empty rawDuration then Err (Errorf "no key [%s] found in body")
  else match Krypto.parseDuration rawDuration with Some d => Ok d | None => Err (Errorf "error parsing duration [%s]: %w") end.

(** [None]: an override of a flag blocks *)
Definition setOverrides (interval : Z) (d : Dt4a.server (S := S)) : Dt4a.server * bool :=
  match Flags.SetControlRequestIntervalOverride interval (Dt4a.flags d) with
  | (fc, None) => (Dt4a.Server fc (Dt4a.Dt4aInfoStore d), false)
  | (fc, Some _) =>
      let '(fc, n) := Flags.SetDistributedForwardingIntervalOverride interval fc in
      (Dt4a.Server fc (Dt4a.Dt4aInfoStore d), match n with Some _ => true | None => false end)
  end.

Definition requestAccelerateControlFunc (r : request) (ls : localServer) : localServer * option response :=
  match Body r with
  | None => (ls, Some (sendClientError (Errorf "request body is nil")))
  | Some content =>
      match decodeMap content with
      | None => (ls, Some (sendClientError (Errorf "error unmarshaling request body: %w")))
      | Some body =>
          match durationFromMap (bs "interval") (default ∅ body) with
          | Ok interval =>
              match durationFromMap (bs "duration") (default ∅ body) with
              | Ok duration =>
                  let '(d, returned) := setOverrides interval (dt4a ls) in
                  (with_dt4a d ls, if returned : bool then Some (Response 0 ∅ []) else None)
              | Err e => (ls, Some (sendClientError (Wrapf "error parsing duration: %w" e)))
              | _ => (ls, Some (sendClientError (Errorf "panic")))
              end
          | Err e => (ls, Some (sendClientError (Wrapf "error parsing interval: %w" e)))
          | _ => (ls, Some (sendClientError (Errorf "panic")))
          end
      end
  end.

(** *** The identifiers (request-id.go) *)
Definition requestIdHandlerFunc (w : world) (r : request) (ls : localServer) : localServer * option response :=
  let ls :=
    if is_empty (hostIdentifier ls) then match identifierFromDB w with Ok h => with_identifier h ls | _ => ls end else ls in
  (ls, Some (Response 0 ∅ (marshalIds r (hostIdentifier ls)))).

(** ** Routing *)

(** [cleanPath] of net/http; paths are taken without percent escapes *)
Definition cleanPath (p : bytes) : bytes :=
  if is_empty p then bs "/"
  else
    let p := if has_prefix (bs "/") p then p else bs "/" ++ p in
    let np := Clean p in
    if has_suffix (bs "/") p && negb (bool_decide (np = bs "/")) then np ++ bs "/" else np.

(** A mux redirects a path that is not clean, but for the method CONNECT. *)
Definition unclean (r : request) : bool :=
  negb (bool_decide (Method r = bs "CONNECT")) && negb (bool_decide (cleanPath (Path r) = Path r)).

Definition isPath (names : list string) (r : request) : bool := bool_decide (Path r ∈ map bs names).

Definition ecAuthedMux (w : world) (r : request) (ls : localServer) : localServer * option response :=
  if unclean r then (ls, Some (Redirect r (cleanPath (Path r))))
  else if isPath ["/acceleratecontrol"; "/acceleratecontrol.png"]%string r then requestAccelerateControlFunc r ls
  else if isPath ["/id"; "/id.png"]%string r then requestIdHandlerFunc w r ls
  else if isPath ["/query"; "/query.png"]%string r then (ls, Some (requestQueryHanlderFunc w r))
  else if isPath ["/scheduledquery"; "/scheduledquery.png"]%string r then (ls, Some (requestScheduledQueryHandlerFunc w r))
  else (ls, Some NotFound).

(** What became of a request: the state, the inner requests that endpoints got, whether a call of K2 and a prompt were started, and
    the answer (None: never; Panic: the connection is closed) *)
Record result := Result {
  after : localServer;
  reached : list request;
  effects : list Krypto.effect;
  answer : option (res response)
}.

Definition plain (ls : localServer) (a : response) : result := Result ls [] [] (Some (Ok a)).

Variable range : header → list (bytes * list bytes).
Variable m : Krypto.machine.
Variable HardwareKeys : option Krypto.signer.

(** The krypto middleware in front of [ecAuthedMux]: the state after an inner request is the one its handler leaves *)
Definition ecHandler (w : world) (r : request) (ls : localServer) : result :=
  let next q := match (ecAuthedMux w q ls).2 with Some resp => Ok resp | None => NoFuel end in
  let '(effs, a) := Krypto.Wrap range m HardwareKeys (Krypto.Env (callbackTime w) (now w) next) r (kryptoMiddleware ls) in
  let served := omap (λ x, match x with Krypto.EServe q => Some q | _ => None end) effs in
  let hangs := existsb (λ q, match (ecAuthedMux w q ls).2 with None => true | Some _ => false end) served in
  Result (foldl (λ ls q, (ecAuthedMux w q ls).1) ls served) served
    (if hangs then [] else omap (λ x, match x with Krypto.EServe _ => None | _ => Some x end) effs)
    (if hangs then None else Some a).

Definition dt4aHandler (w : world) (r : request) (ls : localServer) : result :=
  let '(d, o) := Dt4a.Wrap (clock w) (dt4aTrusted ls) Dt4a.dt4aMux r (dt4a ls) in
  match o with
  | None => Result (with_dt4a d ls) [] [] None
  | Some o => Result (with_dt4a d ls) (match Dt4a.served o with Some q => [q] | None => [] end) [] (Some (Ok (Dt4a.answer o)))
  end.

(** The endpoint without a middleware *)
Definition ztaHandler (r : request) (ls : localServer) : result :=
  let '(d, o) := Dt4a.requestDt4aInfoHandlerFunc r (dt4a ls) in
  Result (with_dt4a d ls) [r] [] (option_map Ok o).

Definition rateLimitHandler (allow : bool) (next : localServer → result) (ls : localServer) : result :=
  if allow then next ls else plain ls (httpError (bs "Too Many Requests") 429).

Definition rootMux (w : world) (r : request) (ls : localServer) : result :=
  if unclean r || bool_decide (Path r = bs "/v3") then plain ls (Redirect r (cleanPath (Path r)))
  else if isPath ["/zta"]%string r then rateLimitHandler (dt4aAllow w) (ztaHandler r) ls
  else if has_prefix (bs "/v3/") (Path r) then rateLimitHandler (dt4aAllow w) (dt4aHandler w r) ls
  else if isPath ["/v1/cmd"; "/v0/cmd"]%string r then rateLimitHandler (ecAllow w) (ecHandler w r) ls
  else plain ls NotFound.

Definition corsHeaders (r : request) : header :=
  let origin := Get (Header r) (bs "Origin") in
  let h := if is_empty origin then ∅ else Set_ (bs "Access-Control-Allow-Origin") origin ∅ in
  Set_ (bs "Access-Control-Allow-Private-Network") (bs "true")
    (Set_ (bs "Access-Control-Allow-Credentials") (bs "true")
      (Set_ (bs "Access-Control-Allow-Headers")
        (bs "Accept, Content-Type, Content-Length, Accept-Encoding, X-CSRF-Token, Authorization")
        (Set_ (bs "Access-Control-Allow-Methods") (bs "POST, GET, OPTIONS, PUT, DELETE") h))).

(** [preflightCorsHandler]; the handlers behind it write to the same headers, under other names *)
Definition ServeHTTP (w : world) (r : request) (ls : localServer) : result :=
  if bool_decide (Method r = bs "OPTIONS") then plain ls (Response 0 (corsHeaders r) [])
  else
    let res := rootMux w r ls in
    Result (after res) (reached res) (effects res)
      (option_map (λ a, a ≫= λ resp, Ok (Response (code resp) (rheader resp ∪ corsHeaders r) (body resp))) (answer res)).
(** ** What the server promises *)

(** A request that one of the middlewares lets through *)
Definition authenticated (w : world) (r : request) (ls : localServer) : Prop :=
  (∃ box cmdReq, Krypto.authorised (Krypto.Env (callbackTime w) (now w) (λ _, Panic)) r (kryptoMiddleware ls) box cmdReq) ∨
  (∃ v, Dt4a.accepted (clock w) (dt4aTrusted ls) r v).

Context (Hint64 : ∀ box, - two63 <= Krypto.Timestamp box < two63).

Lemma ecHandler_authorised w r ls :
  Krypto.validityRange (kryptoMiddleware ls) = 150 → 0 <= now w < 2 ^ 62 →
  reached (ecHandler w r ls) ≠ [] → authenticated w r ls.
Proof.
  intros Hv Hn. unfold ecHandler.
  set (next := λ q, match (ecAuthedMux w q ls).2 with Some resp => Ok resp | None => NoFuel end).
  destruct (Krypto.Wrap_spec range m HardwareKeys Hint64 (Krypto.Env (callbackTime w) (now w) next) r (kryptoMiddleware ls) Hv Hn)
    as (H & _).
  destruct (Krypto.Wrap _ _ _ _ r (kryptoMiddleware ls)) as [effs a]. cbn [fst] in H. cbn [reached]. intros Hne.
  assert (Hq : ∃ q, Krypto.EServe q ∈ effs).
  { clear H. induction effs as [|x effs IH]; [done|]. destruct x as [q| |]; [exists q; by left| |];
      destruct (IH Hne) as [q Hq]; exists q; by right. }
  destruct Hq as [q Hq]. destruct (H q Hq) as (box & cmdReq & Ha & _). left. exists box, cmdReq. exact Ha.
Qed.
Lemma with_dt4a_same ls : with_dt4a (dt4a ls) ls = ls.
Proof. by destruct ls. Qed.

(** C6: Apart from /zta, a request reaches an endpoint, or changes anything, only if it carries a challenge of K2 or a chain of
    1Password that its middleware accepts. *)
Theorem endpoints_guarded w r ls :
  Krypto.validityRange (kryptoMiddleware ls) = 150 → 0 <= now w < 2 ^ 62 →
  ¬ authenticated w r ls → Path r ≠ bs "/zta" →
  reached (ServeHTTP w r ls) = [] ∧ after (ServeHTTP w r ls) = ls.
Proof.
  intros Hv Hn Hno Hzta. unfold ServeHTTP. case_bool_decide as Hopt; [done|]. cbn [reached after]. unfold rootMux.
  destruct (unclean r || bool_decide (Path r = bs "/v3")); [done|].
  assert (Ez : isPath ["/zta"]%string r = false).
  { unfold isPath. apply bool_decide_eq_false. by intros [E|E%elem_of_nil]%elem_of_cons. }
  rewrite Ez. unfold rateLimitHandler. destruct (has_prefix (bs "/v3/") (Path r)).
  - destruct (dt4aAllow w); [|done]. unfold dt4aHandler.
    destruct (Dt4a.Wrap_refused (clock w) (dt4aTrusted ls) Dt4a.dt4aMux r (dt4a ls)) as (c & _ & ->).
    { intros Hv'. apply Hno. by right. }
    cbn [reached after Dt4a.served Dt4a.refused]. by rewrite with_dt4a_same.
  - destruct (isPath ["/v1/cmd"; "/v0/cmd"]%string r); [|done]. destruct (ecAllow w); [|done].
    destruct (decide (reached (ecHandler w r ls) = [])) as [E|E]; [|by apply ecHandler_authorised in E].
    split; [done|]. revert E. unfold ecHandler. destruct (Krypto.Wrap _ _ _ _ r (kryptoMiddleware ls)) as [effs a]. cbn [reached after].
    by intros ->.
Qed.

(** /zta has no middleware, and its handler looks at the account header: any request without an origin that names an account gets
    that account's information, with no proof of anything. *)
Theorem zta_serves_any_account w r ls account more i info :
  Path r = bs "/zta" → Method r = bs "GET" → dt4aAllow w = true → Get (Header r) (bs "Origin") = [] →
  Values (Header r) Dt4a.dt4aAccountUuidHeaderKey = account :: more → account ≠ [] →
  Flags.AllowOverlyBroadDt4aAcceleration (Dt4a.flags (dt4a ls)) = false →
  kv_Get (Dt4a.Dt4aInfoStore (dt4a ls)) account = Ok (Some (i :: info)) →
  ∃ resp, answer (ServeHTTP w r ls) = Some (Ok resp) ∧ code resp = 0 ∧ body resp = i :: info.
Proof.
  intros Hp Hm Ha Ho Hval Hacc Hfl Hget. unfold ServeHTTP. rewrite bool_decide_false by (by rewrite Hm).
  unfold rootMux, unclean, isPath. rewrite Hp, Hm.
  assert (E1 : negb (bool_decide (bs "GET" = bs "CONNECT")) && negb (bool_decide (cleanPath (bs "/zta") = bs "/zta"))
    || bool_decide (bs "/zta" = bs "/v3") = false) by (vm_compute; reflexivity).
  assert (E2 : bool_decide (bs "/zta" ∈ map bs ["/zta"]%string) = true) by (vm_compute; reflexivity).
  rewrite E1, E2, Ha. cbn [rateLimitHandler]. unfold rateLimitHandler, ztaHandler, Dt4a.requestDt4aInfoHandlerFunc.
  rewrite Ho. change (Dt4a.originIsAllowlisted []) with true. cbn [negb]. rewrite Hfl, (Get_Values (Header r)), Hval.
  cbn [negb]. destruct account as [|x account]; [done|]. cbn [is_empty]. unfold Dt4a.infoFor. rewrite Hget.
  cbn [default from_option answer option_map]. eexists. split; [reflexivity|]. done.
Qed.

(** When osquery's client answers with nil rows, a served query brings the handler down. *)
Lemma nil_rows_panic w r ls box cmdReq query :
  Krypto.validityRange (kryptoMiddleware ls) = 150 → 0 <= now w < 2 ^ 62 →
  Krypto.authorised (Krypto.Env (callbackTime w) (now w) (λ _, Panic)) r (kryptoMiddleware ls) box cmdReq →
  Krypto.cmdPath cmdReq = bs "/query" → Krypto.cmdBody cmdReq ≠ [] →
  decodeMap (Krypto.cmdBody cmdReq) = Some (Some {[bs "query" := query]}) → query ≠ [] →
  queryWithRetries (attempts w query) = Ok None → Krypto.unmarshalObject (bs "null") = Some None →
  answer (ecHandler w r ls) = Some Panic.
Proof.
  intros Hv Hn Hauth Hpath Hbody Hdec Hq Hrows Hnull. unfold ecHandler.
  set (next := λ q, match (ecAuthedMux w q ls).2 with Some resp => Ok resp | None => NoFuel end).
  assert (Hmux : ecAuthedMux w (Krypto.cmdReqToHttpReq range r cmdReq) ls = (ls, Some (Response 0 ∅ (bs "null")))).
  { unfold ecAuthedMux. assert (Eu : unclean (Krypto.cmdReqToHttpReq range r cmdReq) = false).
    { unfold unclean, Krypto.cmdReqToHttpReq. cbn [Method Path]. rewrite Hpath. vm_compute. reflexivity. }
    rewrite Eu. unfold isPath, Krypto.cmdReqToHttpReq. cbn [Path]. rewrite Hpath.
    do 2 (rewrite bool_decide_false by (apply (bool_decide_unpack _); vm_compute; exact I)).
    rewrite bool_decide_true by (apply (bool_decide_unpack _); vm_compute; exact I).
    unfold requestQueryHanlderFunc, bodyField. cbn [Body]. destruct (Krypto.cmdBody cmdReq) as [|b l]; [done|]. cbn [is_empty].
    rewrite Hdec. cbn [default from_option id]. rewrite lookup_singleton_eq. destruct query as [|c query]; [done|]. cbn [is_empty].
    by rewrite Hrows. }
  assert (Hpanic := Krypto.null_body_panics range m HardwareKeys Hint64 (Krypto.Env (callbackTime w) (now w) next) r
    (kryptoMiddleware ls) box cmdReq (Response 0 ∅ (bs "null")) Hv Hn Hauth).
  cbn [Krypto.next body] in Hpanic. unfold next at 1 in Hpanic. rewrite Hmux in Hpanic. specialize (Hpanic eq_refl Hnull).
  destruct (Krypto.Wrap_spec range m HardwareKeys Hint64 (Krypto.Env (callbackTime w) (now w) next) r (kryptoMiddleware ls) Hv Hn)
    as (Hq' & _).
  destruct (Krypto.Wrap _ _ _ _ r (kryptoMiddleware ls)) as [effs a]. cbn [fst snd] in *. subst a. cbn [answer].
  destruct (existsb _ _) eqn:Eh; [|done]. exfalso. apply existsb_exists in Eh as (q & Hin & Hq1).
  apply list_elem_of_In, list_elem_of_omap in Hin as (x & Hin & Ex). destruct x as [q'| |]; try done. injection Ex as ->.
  apply Hq' in Hin as (box' & cmdReq' & (Eb & _ & Eu & _) & ->). destruct Hauth as (Eb' & _ & Eu' & _).
  assert (box' = box) as -> by congruence. assert (cmdReq' = cmdReq) as -> by congruence. by rewrite Hmux in Hq1.
Qed.
End Server.
(** ** Witnesses *)
#[local] Instance toyServerLib : ServerLib := {|
  errorText _ := []; decodeMap _ := None; marshalResults _ := []; marshalIds _ _ := []; Redirect _ _ := fails 301
|}.
#[local] Instance toyEnroll : Enrollment.EnrollLib := Enrollment.toyLib.
#[local] Instance toyKrypto : Krypto.KryptoLib := Krypto.toyLib.
#[local] Instance toyDt4a : Dt4a.Dt4aLib := Dt4a.toyLib.

Definition toyWorld : world := World 1100 1100 (λ _, 1100) true true (λ _, []) (Ok []).
Definition toyServer : @localServer InMemory.store Flags.toyLib Krypto.toyLib :=
  LocalServer Dt4a.toyServer Krypto.toyMiddleware Dt4a.toyKeys [].
Definition toyRequest (path : bytes) : request := Request (bs "GET") [] (bs "localhost") path ∅ Dt4a.spoofing None.

(** A request with neither a box nor a chain *)
Lemma endpoints_guarded_witness :
  reached (ServeHTTP map_to_list Krypto.toyMachine None toyWorld (toyRequest (bs "/v1/cmd")) toyServer) = [].
Proof.
  refine (proj1 (endpoints_guarded map_to_list Krypto.toyMachine None Krypto.toyTimestamp toyWorld (toyRequest (bs "/v1/cmd")) toyServer
    eq_refl (conj _ _) _ _)); [vm_compute; discriminate|vm_compute; reflexivity| |discriminate].
  intros [(box & cmdReq & Hx & _)|(v & _ & Hq & _)]; [vm_compute in Hx; discriminate Hx|by apply Hq].
Defined.

Lemma ztaHeader : Values (Header (toyRequest (bs "/zta"))) Dt4a.dt4aAccountUuidHeaderKey = [bs "theirs"].
Proof. vm_compute. reflexivity. Qed.
Lemma ztaOrigin : Get (Header (toyRequest (bs "/zta"))) (bs "Origin") = [].
Proof. vm_compute. reflexivity. Qed.

Lemma zta_serves_any_account_witness :
  ∃ resp, answer (ServeHTTP map_to_list Krypto.toyMachine None toyWorld (toyRequest (bs "/zta")) toyServer) = Some (Ok resp) ∧
    body resp = bs "{}".
Proof.
  destruct (zta_serves_any_account map_to_list Krypto.toyMachine None toyWorld (toyRequest (bs "/zta")) toyServer (bs "theirs") []
    x7b (bs "}") eq_refl eq_refl eq_refl ztaOrigin ztaHeader ltac:(discriminate) Dt4a.toyFlag Dt4a.toyInfo) as (resp & E & _ & Hb).
  exists resp. split; [exact E|exact Hb].
Defined.
End Localserver.
