(* ===== verification/TufLibrary.v ===== *)
(** * ee/tuf: the library of downloaded updates

    Versions and targets (version.go, the lookups of autoupdate.go), the update library
    (library_manager.go, util.go) and the choice of the executable to run (library_lookup.go),
    on a Linux host.  The library of a binary is a map from version directories to what lies at
    the place of the executable.  What the host answers in the course of a call (runs of an
    executable, removals, downloads) is an argument of the call. *)
From S2P Require Import Prelude Strings Json Paths.
Set Warnings "-clear-no-such-hyp".

Module Tuf.

Inductive autoupdatableBinary := binaryLauncher | binaryOsqueryd.
#[export] Instance autoupdatableBinary_eq_dec : EqDecision autoupdatableBinary.
Proof. solve_decision. Defined.

Definition binary_name (b : autoupdatableBinary) : bytes :=
  match b with binaryLauncher => bs "launcher" | binaryOsqueryd => bs "osqueryd" end.

Definition binaries : list autoupdatableBinary := [binaryLauncher; binaryOsqueryd].

Definition autoupdatableBinaryMap (name : bytes) : option autoupdatableBinary :=
  if bool_decide (name = bs "launcher") then Some binaryLauncher
  else if bool_decide (name = bs "osqueryd") then Some binaryOsqueryd
  else None.

Definition LocalTufDirectory (rootDirectory : bytes) : bytes := Join [rootDirectory; bs "tuf"].
Definition DefaultLibraryDirectory (rootDirectory : bytes) : bytes := Join [rootDirectory; bs "updates"].

(** ** Semantic versions (github.com/Masterminds/semver) *)
Class Semver := {
  version : Type;
  NewVersion : bytes → option version;
  Original : version → bytes;
  Prerelease : version → bytes;
  SetPrerelease : version → bytes → option version;
  VCompare : version → version → Z
}.

Class SemverLaws `{Semver} := {
  Original_New : ∀ s v, NewVersion s = Some v → Original v = s;
  VCompare_antisym : ∀ v w, VCompare w v = - VCompare v w;
  VCompare_trans : ∀ u v w, VCompare u v <= 0 → VCompare v w <= 0 → VCompare u w <= 0
}.

Section Versions.
Context `{SV : Semver}.

Definition LessThan (v w : version) : bool := VCompare v w <? 0.
Definition GreaterThan (v w : version) : bool := 0 <? VCompare v w.
Definition Equal (v w : version) : bool := VCompare v w =? 0.

(** [semver.MustParse]: a panic on a malformed constant *)
Definition MustParse (s : bytes) : res version :=
  match NewVersion s with Some v => Ok v | None => Panic end.

Definition tufVersionMinimum : res version := MustParse (bs "1.4.1").
Definition pinnedLauncherVersionMinimum : res version := MustParse (bs "1.6.1").

Definition SanitizePinnedVersion (binary : autoupdatableBinary) (rawVersion : bytes) : res bytes :=
  match NewVersion rawVersion with
  | None => Ok []
  | Some parsedVersion =>
      match binary with
      | binaryOsqueryd => Ok rawVersion
      | binaryLauncher =>
          minimum ← pinnedLauncherVersionMinimum;
          Ok (if LessThan parsedVersion minimum then [] else rawVersion)
      end
  end.

Definition launcherVersionSupportsTuf (rawVersion : bytes) : res bool :=
  match NewVersion rawVersion with
  | None => Err (Errorf "could not parse launcher version %s: %w")
  | Some versionParsed =>
      minimum ← tufVersionMinimum;
      Ok (GreaterThan versionParsed minimum || Equal versionParsed minimum)
  end.

End Versions.

Definition trimVersionString (v : bytes) : bytes :=
  match last (Fields v) with Some p => p | None => v end.

Definition versionFromTarget (binary : autoupdatableBinary) (targetFilename : bytes) : bytes :=
  trim_suffix (bs ".tar.gz") (trim_prefix (binary_name binary ++ bs "-") targetFilename).

(** ** Targets of the TUF repository (github.com/theupdateframework/go-tuf) *)
Class TufMeta := {
  fileMeta : Type;
  Length : fileMeta → Z;
  HashAlgorithms : fileMeta → list bytes;
  Custom : fileMeta → option bytes;
  GenerateTargetFileMeta : bytes → list bytes → option fileMeta;
  TargetFileMetaEqual : fileMeta → fileMeta → bool;
  (* encoding/json on ReleaseFileCustomMetadata: the target and the promotion time *)
  unmarshalCustom : bytes → option (bytes * Z)
}.

Definition ArchForPlatform (platform arch : bytes) : bytes :=
  if bool_decide (platform = bs "darwin") then bs "universal" else arch.

(** The host: runtime.GOOS and runtime.GOARCH, the path of the running executable *)
Record host := Host { GOOS : bytes; GOARCH : bytes; selfPath : bytes }.

Definition PlatformArch (h : host) : bytes := ArchForPlatform (GOOS h) (GOARCH h).

Section Targets.
Context `{TM : TufMeta} (h : host).

Definition targetFiles : Type := gmap bytes fileMeta.

(** [path.Join] *)
Definition targetNameFor (binary : autoupdatableBinary) (binaryVersion : bytes) : bytes :=
  Join [binary_name binary; GOOS h; PlatformArch h; binary_name binary ++ bs "-" ++ binaryVersion ++ bs ".tar.gz"].

Definition releaseFileFor (binary : autoupdatableBinary) (channel : bytes) : bytes :=
  Join [binary_name binary; GOOS h; PlatformArch h; channel; bs "release.json"].

Definition findTargetByVersion (binary : autoupdatableBinary) (targets : targetFiles) (binaryVersion : bytes)
    : res (bytes * fileMeta) :=
  match targets !! targetNameFor binary binaryVersion with
  | Some target => Ok (Base (targetNameFor binary binaryVersion), target)
  | None => Err (Errorf "could not find metadata for binary %s and version %s")
  end.

Definition findRelease (binary : autoupdatableBinary) (targets : targetFiles) (channel : bytes)
    : res (bytes * fileMeta) :=
  releaseTarget ←
    match targets !! releaseFileFor binary channel with
    | Some target =>
        match Custom target with
        | None => Err (Errorf "release file for %s missing custom metadata")
        | Some raw =>
            match unmarshalCustom raw with
            | None => Err (Errorf "could not unmarshal release file custom metadata: %w")
            | Some (t, _) => Ok t
            end
        end
    | None => Ok []
    end;
  if is_empty releaseTarget then
    Err (Errorf "expected release file %s for binary %s to be in targets but it was not")
  else
    match targets !! releaseTarget with
    | Some target => Ok (Base releaseTarget, target)
    | None => Err (Errorf "could not find metadata for release target %s for binary %s")
    end.

Definition findTarget (binary : autoupdatableBinary) (targets : targetFiles) (pinnedVersion channel : bytes)
    : res (bytes * fileMeta) :=
  if is_empty pinnedVersion then findRelease binary targets channel
  else
    match findTargetByVersion binary targets pinnedVersion with
    | Ok t => Ok t
    | _ => findRelease binary targets channel
    end.

Definition findReleasePromoteTime (binary : autoupdatableBinary) (targets : targetFiles) (channel : bytes) : Z :=
  match targets !! releaseFileFor binary channel with
  | Some target =>
      match Custom target with
      | None => 0
      | Some raw => match unmarshalCustom raw with None => 0 | Some (_, promoteTime) => promoteTime end
      end
  | None => 0
  end.
End Targets.

(** ** Executables (util.go, util_linux.go) *)

(** What lies at the place of an executable: nothing, something [os.Stat] fails on, a directory,
    a file with its permission bits *)
Inductive exe :=
| NoExe
| StatErr
| ExeDir
| ExeFile (mode : Z) (content : bytes).
#[export] Instance exe_eq_dec : EqDecision exe.
Proof. solve_decision. Defined.

(** One run of an executable: it succeeds, its text is busy, or it fails or times out *)
Inductive run := RunOk | RunBusy | RunFail.

Definition updatesDirectory (binary : autoupdatableBinary) (baseUpdateDirectory : bytes) : bytes :=
  Join [baseUpdateDirectory; binary_name binary].

Definition executableLocation (updateDirectory : bytes) (binary : autoupdatableBinary) : bytes :=
  Join [updateDirectory; binary_name binary].

Definition checkExecutablePermissions (potentialBinary : bytes) (e : exe) : res () :=
  if is_empty potentialBinary then Err (Errorf "empty string isn't executable")
  else
    match e with
    | NoExe => Err (Errorf "no such file")
    | StatErr => Err (Errorf "statting file: %w")
    | ExeDir => Err (Errorf "is a directory")
    | ExeFile mode _ =>   (* 0x49 is 0111 *)
        if Z.land mode 0x49 =? 0 then Err (Errorf "not executable") else Ok ()
    end.

(** The runs of one check, at most three *)
Fixpoint CheckExecutable_loop (n : nat) (i : nat) (runs : nat → run) : res () :=
  match n with
  | O => Err (Errorf "could not exec %s despite retries due to text file busy")
  | S n' =>
      match runs i with
      | RunOk => Ok ()
      | RunBusy => CheckExecutable_loop n' (S i) runs
      | RunFail => Err (Errorf "running executable check: got output `%s` and error: %w")
      end
  end.

Definition CheckExecutable (self potentialBinary : bytes) (e : exe) (runs : nat → run) : res () :=
  _ ← wrap "checking executable permissions: %w" (checkExecutablePermissions potentialBinary e);
  if bool_decide (Clean self = Clean potentialBinary) then Ok ()
  else CheckExecutable_loop 3 0 runs.

Definition succeeds {A} (m : res A) : bool := match m with Ok _ => true | _ => false end.

(** ** The update library (library_manager.go) *)

(** The version directories of one binary *)
Abbreviation library := (@gmap bytes list_eq_dec list_countable exe).

(** The place of a library *)
Record place := Place { self : bytes; binary : autoupdatableBinary; baseDir : bytes }.

Definition versionDir (p : place) (v : bytes) : bytes := Join [updatesDirectory (binary p) (baseDir p); v].

Definition executable (lib : library) (v : bytes) : exe := default NoExe (lib !! v).

(** [CheckExecutable] on the version [v] *)
Definition checkVersion (p : place) (runs : bytes → nat → run) (lib : library) (v : bytes) : res () :=
  CheckExecutable (self p) (executableLocation (versionDir p v) (binary p)) (executable lib v) (runs v).

Definition pathToTargetVersionExecutable (binary : autoupdatableBinary) (targetFilename baseUpdateDirectory : bytes)
    : bytes * bytes :=
  let targetVersion := versionFromTarget binary targetFilename in
  let versionDir := Join [updatesDirectory binary baseUpdateDirectory; targetVersion] in
  (executableLocation versionDir binary, targetVersion).

Definition exists_exe (e : exe) : bool := match e with NoExe => false | _ => true end.

Definition Available (p : place) (runs : bytes → nat → run) (lib : library) (targetFilename : bytes) : bool :=
  let '(_, v) := pathToTargetVersionExecutable (binary p) targetFilename (baseDir p) in
  if negb (exists_exe (executable lib v)) then false
  else succeeds (checkVersion p runs lib v).

Section Sorted.
Context `{SV : Semver}.

(** A hyphen of the prerelease becomes a period while versions are compared. *)
Definition swapPrerelease (old new : bytes) (v : version) : version :=
  if is_empty (Prerelease v) then v
  else default v (SetPrerelease v (ReplaceAll old new (Prerelease v))).

Fixpoint partitionVersions (p : place) (runs : bytes → nat → run) (lib : library) (raws : list bytes)
    : list version * list bytes :=
  match raws with
  | [] => ([], [])
  | rawVersion :: raws' =>
      let '(versions, invalid) := partitionVersions p runs lib raws' in
      match NewVersion rawVersion with
      | None => (versions, rawVersion :: invalid)
      | Some v =>
          if succeeds (checkVersion p runs lib rawVersion)
          then (swapPrerelease (bs "-") (bs ".") v :: versions, invalid)
          else (versions, rawVersion :: invalid)
      end
  end.

Definition version_le (v w : version) : Prop := LessThan w v = false.
#[global] Instance version_le_dec v w : Decision (version_le v w).
Proof. unfold version_le. apply _. Defined.

(** [sort.Sort] of a semver.Collection *)
Definition sortVersions (l : list version) : list version := merge_sort version_le l.

(** The valid versions in ascending order, and the invalid ones; [filepath.Glob] gives the names
    of the directory in lexical order *)
Definition sortedVersionsInLibrary (p : place) (runs : bytes → nat → run) (lib : library)
    : list bytes * list bytes :=
  let '(versionsInLibrary, invalidVersions) := partitionVersions p runs lib (sorted_entries lib).*1 in
  (map (λ v, Original (swapPrerelease (bs ".") (bs "-") v)) (sortVersions versionsInLibrary), invalidVersions).

(** [os.RemoveAll] does what it can; [removes] tells whether it can *)
Definition removeUpdate (removes : bytes → bool) (binaryVersion : bytes) (lib : library) : library :=
  if removes binaryVersion then delete binaryVersion lib else lib.

Definition numberOfVersionsToKeep : Z := 2.

(** The loop over the valid versions, newest first *)
Fixpoint tidyVersions (removes : bytes → bool) (currentVersion : bytes) (l : list bytes)
    (nonCurrentlyRunningVersionsKept : Z) (lib : library) : library :=
  match l with
  | [] => lib
  | v :: l' =>
      if bool_decide (v = currentVersion) then
        tidyVersions removes currentVersion l' nonCurrentlyRunningVersionsKept lib
      else if numberOfVersionsToKeep - 1 <=? nonCurrentlyRunningVersionsKept then
        tidyVersions removes currentVersion l' nonCurrentlyRunningVersionsKept (removeUpdate removes v lib)
      else
        tidyVersions removes currentVersion l' (nonCurrentlyRunningVersionsKept + 1) lib
  end.

Definition TidyLibrary (p : place) (runs : bytes → nat → run) (removes : bytes → bool)
    (currentVersion : bytes) (lib : library) : library :=
  if is_empty currentVersion then lib
  else
    let '(versionsInLibrary, invalidVersionsInLibrary) := sortedVersionsInLibrary p runs lib in
    let lib := foldl (λ lib v, removeUpdate removes v lib) lib invalidVersionsInLibrary in
    if len versionsInLibrary <=? numberOfVersionsToKeep then lib
    else tidyVersions removes currentVersion (reverse versionsInLibrary) 0 lib.
End Sorted.

(** ** Extraction *)

(** An entry of a tar archive; [Mode] is the fs.FileMode of its FileInfo *)
Record tarEntry := TarEntry { Name : bytes; Mode : Z; body : bytes }.

(** archive/tar over compress/gzip: the entries up to the end of the archive or an error *)
Class Archive := { tarEntries : bytes → list tarEntry * option err }.

Inductive write :=
| WMkdir (path : bytes) (perm : Z)
| WFile (path : bytes) (perm : Z) (content : bytes).

Definition sanitizeExtractPath (filePath destination : bytes) : res () :=
  let destpath := Join [destination; filePath] in
  if has_prefix (Clean destination ++ [Separator]) destpath then Ok ()
  else Err (Errorf "illegal file path %s").

(** fs.FileMode bits *)
Definition ModeDir : Z := 2 ^ 31.
Definition ModeType : Z :=   (* dir, symlink, device, named pipe, socket, char device, irregular *)
  fold_right Z.lor 0 (map (Z.pow 2) [31; 27; 26; 25; 24; 21; 19]).
Definition allowedPermissionBits : Z := Z.lor ModeType 0x1ed.   (* 0755 *)
Definition sanitizePermissions (mode : Z) : Z := Z.land mode allowedPermissionBits.

Definition IsDir (mode : Z) : bool := negb (Z.land mode ModeDir =? 0).

Section Extract.
Context `{AR : Archive} (performs : write → bool).

Definition entryWrite (destPath : bytes) (header : tarEntry) : write :=
  if IsDir (Mode header) then WMkdir destPath (sanitizePermissions (Mode header))
  else WFile destPath (sanitizePermissions (Mode header)) (body header).

(** What [untar] writes, and how it ends; [performs] tells the writes the host refuses *)
Fixpoint untar_loop (destinationDir : bytes) (headers : list tarEntry) (last : option err)
    : list write * res () :=
  match headers with
  | [] => ([], match last with Some e => Err (Wrapf "reading tar file: %w" e) | None => Ok () end)
  | header :: headers' =>
      match wrap "checking filename: %w" (sanitizeExtractPath destinationDir (Name header)) with
      | Ok _ =>
          let w := entryWrite (Join [destinationDir; Name header]) header in
          if performs w then
            let '(ws, r) := untar_loop destinationDir headers' last in (w :: ws, r)
          else ([], Err (Errorf "writing file: %w"))
      | r => ([], r)
      end
  end.

Definition untar (destinationDir source : bytes) : list write * res () :=
  let '(headers, last) := tarEntries source in untar_loop destinationDir headers last.
End Extract.

(** What a write leaves at the place [path] of an executable *)
Definition written (path : bytes) (e : exe) (w : write) : exe :=
  match w with
  | WMkdir q _ =>
      if bool_decide (q = path) || has_prefix (path ++ [Separator]) q
      then match e with NoExe => ExeDir | _ => e end else e
  | WFile q perm c =>
      if bool_decide (q = path)
      then match e with NoExe => ExeFile perm c | ExeFile m _ => ExeFile m c | _ => e end else e
  end.

(** ... and in the version directories of a library *)
Definition applyWrites (p : place) (ws : list write) (lib : library) : library :=
  map_imap (λ v e, Some (foldl (written (executableLocation (versionDir p v) (binary p))) e ws)) lib.

(** [os.Chmod] *)
Definition chmod (mode : Z) (e : exe) : res exe :=
  match e with
  | NoExe | StatErr => Err (Errorf "chmod")
  | ExeDir => Ok ExeDir
  | ExeFile _ c => Ok (ExeFile mode c)
  end.

(** [backoff.WaitFor]: the first attempt that succeeds, or the error of the last one *)
Fixpoint WaitFor {A} (attempts : list (res A)) : res A :=
  match attempts with
  | [] => Err (Errorf "timeout after %s (%d attempts): %w")
  | [r] => wrap "timeout after %s (%d attempts): %w" r
  | Ok a :: _ => Ok a
  | _ :: attempts' => WaitFor attempts'
  end.

(** ** Adding to the library *)

(** What the host and the mirror answer while an update is staged: the clock (microseconds), the
    outcome of each step, and the response as the bytes read and whether reading failed *)
Record stageEnv := StageEnv {
  st_micros : Z; st_mkdir : bool; st_request : bool; st_response : option (bytes * bool);
  st_create : bool; st_write : bool; st_close : bool; st_removed : bool
}.

(** ... and while it is moved into the library; [mv_patch] is patchelf on NixOS *)
Record moveEnv := MoveEnv {
  mv_micros : Z; mv_mkdir : bool; mv_performs : write → bool; mv_patch : bytes → res bytes;
  mv_checks : list (nat → run); mv_renames : list bool; mv_chmod : bool; mv_removed : bool
}.

Section Add.
Context `{TM : TufMeta} `{AR : Archive} (p : place).

Definition tempName (pattern : bytes) (micros : Z) : bytes := pattern ++ bs "-" ++ itoa micros.

(** [os.MkdirAll] of a version directory *)
Definition mkdir (v : bytes) (lib : library) : library :=
  match lib !! v with Some _ => lib | None => <[v := NoExe]> lib end.

(** [io.LimitReader] *)
Definition limit (n : Z) (s : bytes) : bytes := take (Z.to_nat n) s.

(** The download, once it is verified against the metadata *)
Definition download (env : stageEnv) (localTargetMetadata : fileMeta) : res bytes :=
  if negb (st_request env) then Err (Errorf "creating request to download target %s: %w")
  else
    match st_response env with
    | None => Err (Errorf "could not make request to download target %s: %w")
    | Some (stream, failed) =>
        let fileBuffer := limit (Length localTargetMetadata) stream in
        (* a reader that has reached the limit does not see the failure *)
        if failed && (len stream <? Length localTargetMetadata) then
          Err (Errorf "could not write downloaded target %s to file %s and compute its metadata: %w")
        else
          match GenerateTargetFileMeta fileBuffer (HashAlgorithms localTargetMetadata) with
          | None => Err (Errorf "could not write downloaded target %s to file %s and compute its metadata: %w")
          | Some actualTargetMeta =>
              if TargetFileMetaEqual actualTargetMeta localTargetMetadata then Ok fileBuffer
              else Err (Errorf "verification failed for target %s staged at %s: %w")
          end
    end.

(** The library, the staging directory the caller removes ([None] for the blank path), and the
    archive that was staged *)
Definition stageAndVerifyUpdate (env : stageEnv) (targetFilename : bytes) (localTargetMetadata : fileMeta)
    (lib : library) : library * option bytes * res bytes :=
  let stagingDir := tempName (bs "staged-updates-" ++ versionFromTarget (binary p) targetFilename) (st_micros env) in
  if negb (st_mkdir env) then
    (lib, None, Err (Errorf "could not create temporary directory for downloading target: %w"))
  else
    let lib := mkdir stagingDir lib in
    match download env localTargetMetadata with
    | Ok fileBuffer =>
        if negb (st_create env) then (lib, None, Err (Errorf "could not create file at %s: %w"))
        else if negb (st_write env) then
          (lib, Some stagingDir, Err (Errorf "could not write downloaded target %s to file %s: %w"))
        else if negb (st_close env) then
          (lib, Some stagingDir, Err (Errorf "could not close downloaded target file %s after writing: %w"))
        else (lib, Some stagingDir, Ok fileBuffer)
    | r => (lib, Some stagingDir, r)
    end.

(** The steps of [moveVerifiedUpdate] between the creation of the staged directory and its removal *)
Definition patchExecutable (env : moveEnv) (e : exe) : res exe :=
  match e with ExeFile m c => c' ← mv_patch env c; Ok (ExeFile m c') | e => Ok e end.

Definition checkStaged (env : moveEnv) (staged : bytes) (e : exe) : res () :=
  WaitFor (map (CheckExecutable (self p) (executableLocation (versionDir p staged) (binary p)) e) (mv_checks env)).

(** [os.Rename] of a directory refuses to replace a directory. *)
Definition rename (from to : bytes) (ok : bool) (lib : library) : res library :=
  match lib !! from, lib !! to with
  | Some e, None => if ok then Ok (<[to := e]> (delete from lib)) else Err (Errorf "rename")
  | _, _ => Err (Errorf "rename")
  end.

Definition moveStaged (env : moveEnv) (targetVersion staged archive : bytes) (lib : library) : library * res () :=
  let '(ws, extracted) := untar (mv_performs env) (versionDir p staged) archive in
  let lib := applyWrites p ws lib in
  match wrap "could not untar update to %s: %w" extracted with
  | Ok _ =>
      match wrap "could not set +x permissions on executable: %w" (chmod 0x1ed (executable lib staged)) with
      | Ok e =>
          let lib := <[staged := e]> lib in
          match wrap "could not patch executable: %w" (patchExecutable env e) with
          | Ok e =>
              let lib := <[staged := e]> lib in
              match wrap "could not verify executable after retries: %w" (checkStaged env staged e) with
              | Ok _ =>
                  match wrap "could not move staged target %s from %s to %s after retries: %w"
                          (WaitFor (map (λ ok, rename staged targetVersion ok lib) (mv_renames env))) with
                  | Ok lib => (lib, if mv_chmod env then Ok () else Err (Errorf "could not chmod %s: %w"))
                  | r => (lib, _ ← r; Ok ())
                  end
              | r => (lib, r)
              end
          | r => (lib, _ ← r; Ok ())
          end
      | r => (lib, _ ← r; Ok ())
      end
  | r => (lib, r)
  end.

Definition moveVerifiedUpdate (env : moveEnv) (targetFilename archive : bytes) (lib : library) : library * res () :=
  let targetVersion := versionFromTarget (binary p) targetFilename in
  let stagedVersionedDirectory := tempName targetVersion (mv_micros env) in
  if negb (mv_mkdir env) then
    (lib, Err (Errorf "could not create temporary directory for untarring and validating new update: %w"))
  else
    let '(lib, r) := moveStaged env targetVersion stagedVersionedDirectory archive (mkdir stagedVersionedDirectory lib) in
    (if mv_removed env then delete stagedVersionedDirectory lib else lib, r).

Definition AddToLibrary (runs : bytes → nat → run) (senv : stageEnv) (menv : moveEnv)
    (currentVersion targetFilename : bytes) (targetMetadata : fileMeta) (lib : library) : library * res () :=
  if bool_decide (currentVersion = versionFromTarget (binary p) targetFilename) then (lib, Ok ())
  else if Available p runs lib targetFilename then (lib, Ok ())
  else
    let '(lib, stagedUpdatePath, staged) := stageAndVerifyUpdate senv targetFilename targetMetadata lib in
    let '(lib, r) :=
      match wrap "could not stage update: %w" staged with
      | Ok archive =>
          let '(lib, r) := moveVerifiedUpdate menv targetFilename archive lib in
          (lib, wrap "could not move verified update: %w" r)
      | Err e => (lib, Err e)
      | Panic => (lib, Panic)
      | NoFuel => (lib, NoFuel)
      end in
    match stagedUpdatePath with
    | Some dirToRemove => (if st_removed senv then delete dirToRemove lib else lib, r)
    | None => (lib, r)
    end.
End Add.

(** ** The executable to run (library_lookup.go) *)
Record BinaryUpdateInfo := UpdateInfo { Path : bytes; Version : bytes }.

Record autoupdateConfig := Config {
  rootDirectory : bytes; updateDirectory : bytes; channel : bytes;
  localDevelopmentPath : bytes; hostname : bytes; identifier : bytes
}.

Section Lookup.
Context `{SV : Semver} `{TM : TufMeta} (h : host).

(** [targets] is what the local metadata holds; its absence is an error of the client *)
Definition findExecutable (p : place) (runs : bytes → nat → run) (lib : library)
    (metadata : res targetFiles) (pinnedVersion channel : bytes) : res BinaryUpdateInfo :=
  targets ← wrap "could not get targets: %w" metadata;
  if is_empty (map_to_list targets) then
    Err (Errorf "no local TUF metadata available -- likely new install")
  else
    '(targetName, _) ← wrap "could not find release: %w" (findTarget h (binary p) targets pinnedVersion channel);
    let '(targetPath, targetVersion) := pathToTargetVersionExecutable (binary p) targetName (baseDir p) in
    if negb (exists_exe (executable lib targetVersion)) then
      Err (Errorf "version %s from target %s at %s is either originally installed version or not yet downloaded")
    else
      _ ← wrap "version %s from target %s at %s is corrupted: %w" (checkVersion p runs lib targetVersion);
      Ok (UpdateInfo targetPath (trimVersionString targetVersion)).

Definition mostRecentVersion (p : place) (runs : bytes → nat → run) (lib : library) (channel : bytes)
    : res BinaryUpdateInfo :=
  let '(validVersionsInLibrary, _) := sortedVersionsInLibrary p runs lib in
  match last validVersionsInLibrary with
  | None => Err (Errorf "no versions of %s in library at %s")
  | Some mostRecentVersionInLibraryRaw =>
      supportsTuf ←
        (if bool_decide (binary p = binaryLauncher ∧ channel = bs "stable") then
           wrap "could not determine if launcher version %s supports TUF: %w"
             (launcherVersionSupportsTuf mostRecentVersionInLibraryRaw)
         else Ok true);
      if negb supportsTuf then
        Err (Errorf "most recent version %s for binary launcher is not newer than required %s")
      else
        Ok (UpdateInfo (executableLocation (versionDir p mostRecentVersionInLibraryRaw) (binary p))
              (trimVersionString mostRecentVersionInLibraryRaw))
  end.

(** The two phases check the executables at different times. *)
Definition CheckOutLatest (p : place) (runs runs' : bytes → nat → run) (lib : library)
    (metadata : res targetFiles) (pinnedVersion channel : bytes) : res BinaryUpdateInfo :=
  match findExecutable p runs lib metadata pinnedVersion channel with
  | Ok update => Ok update
  | _ => mostRecentVersion p runs' lib channel
  end.

(** The library directory of [CheckOutLatest] *)
Definition updateDirectoryFor (rootDirectory updateDirectory : bytes) : bytes :=
  if is_empty updateDirectory then DefaultLibraryDirectory rootDirectory else updateDirectory.

(** ** The configuration of the lookup *)

(** github.com/spf13/pflag on the flag set of [getAutoupdateConfig], unknown flags allowed: the
    value of a flag, blank when it is not given *)
Class Pflag := { parseFlags : list bytes → option (bytes → bytes) }.

(** A configuration file: absent, or what github.com/peterbourgon/ff reads in it *)
Inductive configFile :=
| NoFile
| Unopenable
| Malformed
| Settings (l : list (bytes * bytes)).

Definition setConfig (cfg : autoupdateConfig) (kv : bytes * bytes) : autoupdateConfig :=
  let '(name, value) := kv in
  let '(Config root upd chan dev host ident) := cfg in
  if bool_decide (name = bs "root_directory") then Config value upd chan dev host ident
  else if bool_decide (name = bs "update_directory") then Config root value chan dev host ident
  else if bool_decide (name = bs "update_channel") then Config root upd value dev host ident
  else if bool_decide (name = bs "localdev_path") then Config root upd chan value host ident
  else if bool_decide (name = bs "hostname") then Config root upd chan dev value ident
  else if bool_decide (name = bs "identifier") then Config root upd chan dev host value
  else cfg.

Definition getAutoupdateConfigFromFile (files : bytes → configFile) (configFilePath : bytes) : res autoupdateConfig :=
  match files configFilePath with
  | NoFile => Err (Errorf "could not read config file because it does not exist at %s: %w")
  | Unopenable => Err (Errorf "could not open config file %s for reading: %w")
  | Malformed => Err (Errorf "could not parse config file %s: %w")
  | Settings l => Ok (foldl setConfig (Config [] [] [] [] [] []) l)
  end.

(** A flag with one dash gets a second one. *)
Definition doubleDash (arg : bytes) : bytes :=
  if has_prefix (bs "-") arg && negb (has_prefix (bs "--") arg) then bs "-" ++ arg else arg.

Definition getAutoupdateConfig `{PF : Pflag} (files : bytes → configFile) (configFilePath : list bytes → res bytes)
    (args : list bytes) : res autoupdateConfig :=
  let argsToParse := map doubleDash args in
  match parseFlags argsToParse with
  | None => Err (Errorf "parsing command-line flags: %w")
  | Some fl =>
      if is_empty (fl (bs "config")) && is_empty (fl (bs "root_directory")) && is_empty (fl (bs "update_channel")) then
        path ← configFilePath argsToParse; getAutoupdateConfigFromFile files path
      else if negb (is_empty (fl (bs "config"))) then getAutoupdateConfigFromFile files (fl (bs "config"))
      else
        Ok (Config (fl (bs "root_directory")) (fl (bs "update_directory")) (fl (bs "update_channel"))
              (fl (bs "localdev_path")) [] (fl (bs "identifier")))
  end.

(** launcher.ConfigFilePath on Linux: the argument after the flag, or the value after an equals sign *)
Fixpoint ConfigFilePath (trim : bytes → bytes) (args : list bytes) : res bytes :=
  match args with
  | [] => Ok (bs "/etc/kolide-k2/launcher.flags")
  | arg :: args' =>
      if bool_decide (arg = bs "--config" ∨ arg = bs "-config") then
        match args' with a :: _ => Ok (trim a) | [] => Panic end
      else
        match (if contains (bs "config=") arg then cut (bs "=") arg else None) with
        | Some (_, v) => if contains (bs "=") v then ConfigFilePath trim args' else Ok v
        | None => ConfigFilePath trim args'
        end
  end.

(** [strings.Trim] of the two kinds of quotes *)
Fixpoint trimQuotesLeft (s : bytes) : bytes :=
  match s with
  | b :: s' => if (b =b x22) || (b =b x27) then trimQuotesLeft s' else s
  | [] => []
  end.
Definition trimQuotes (s : bytes) : bytes := reverse (trimQuotesLeft (reverse (trimQuotesLeft s))).

(** The startup settings: [None] when the database cannot be opened; [get] gives a blank value for
    a missing key and on an error *)
Definition getUpdateSettingsFromStartupSettings (settings : option (bytes → bytes)) (binary : autoupdatableBinary)
    : bytes * bytes :=
  match settings with
  | None => ([], [])
  | Some get =>
      (get (match binary with binaryLauncher => bs "pinned_launcher_version" | binaryOsqueryd => bs "pinned_osqueryd_version" end),
       get (bs "update_channel"))
  end.

(** launcher.DetermineRootDirectoryOverride leaves the directory alone on this host. *)
Definition CheckOutLatestWithoutConfig `{PF : Pflag} (files : bytes → configFile) (args : list bytes)
    (settings : bytes → option (bytes → bytes)) (libraryAt : bytes → library)
    (metadataAt : bytes → res targetFiles) (runs runs' : bytes → nat → run) (binary : autoupdatableBinary)
    : res BinaryUpdateInfo :=
  cfg ← wrap "could not get autoupdate config: %w" (getAutoupdateConfig files (ConfigFilePath trimQuotes) args);
  if bool_decide (binary = binaryLauncher) && negb (is_empty (localDevelopmentPath cfg)) then
    Ok (UpdateInfo (localDevelopmentPath cfg) [])
  else
    let '(pinnedVersion, updateChannel) :=
      getUpdateSettingsFromStartupSettings (settings (rootDirectory cfg)) binary in
    let updateChannel := if is_empty updateChannel then channel cfg else updateChannel in
    let base := updateDirectoryFor (rootDirectory cfg) (updateDirectory cfg) in
    let p := Place (selfPath h) binary base in
    CheckOutLatest p runs runs' (libraryAt (updatesDirectory binary base))
      (metadataAt (LocalTufDirectory (rootDirectory cfg))) pinnedVersion updateChannel.
End Lookup.

(** ** Extraction stays where the check is asked to look *)

Definition comps (p : bytes) : list bytes := reverse (stack (rooted p) [] p).

Lemma sanitizeExtractPath_inside filePath destination : destination ≠ [] →
  sanitizeExtractPath filePath destination = Ok () ↔
  comps destination ≠ [] ∧
  ∃ q, q ≠ [] ∧ reverse (stack (rooted destination) (stack (rooted destination) [] destination) filePath) =
    comps destination ++ q.
Proof.
  intros Hd. unfold sanitizeExtractPath, comps. rewrite Join_pair, Clean_stack by done.
  set (r := rooted destination). set (st := stack r [] destination).
  assert (Hst : Forall plain st) by (apply stack_plain; constructor).
  assert (Hst' : Forall plain (stack r st filePath)) by (by apply stack_plain).
  pose proof (render_below r st _ Hst Hst') as Hb.
  destruct (has_prefix _ _) eqn:E.
  - split; [intros _|done]. destruct Hb as [[H1 H2] _]; [done|]. split; [by apply reverse_not_nil|done].
  - split; [done|]. intros [H1 H2]. destruct Hb as [_ Hb]. exfalso. discriminate Hb.
    split; [|done]. intros H. apply H1. by rewrite H.
Qed.

Lemma stack_names p : dotdot ∉ components p →
  ∃ q, Forall name q ∧ ∀ r st, stack r st p = q ++ st.
Proof.
  unfold stack. pose proof (λ c, elem_of_components c p) as Hc. revert Hc.
  induction (components p) as [|c cs IH]; intros Hc Hdd; [by exists []|].
  apply not_elem_of_cons in Hdd as [Hd Hdd]. destruct IH as (q & Hq & IH); [set_solver|done|].
  cbn [foldl]. destruct (decide (c = [] ∨ c = dot)) as [Hs|Hs].
  - exists q. split; [done|]. intros r st. rewrite IH. unfold push. by rewrite bool_decide_eq_true_2.
  - assert (name c) by (unfold name, plain; split; [split_and!; [naive_solver..|apply Hc; set_solver]|done]).
    exists (q ++ [c]). split; [apply Forall_app; split; [done|by constructor]|].
    intros r st. by rewrite IH, push_name_on, <- app_assoc.
Qed.

Section Extraction.
Context `{AR : Archive} (performs : write → bool).

(** The destination: an absolute path, clean, and not the root *)
Context (D : list bytes) (HD : Forall name D) (Hroot : D ≠ []).
Local Abbreviation dest := (render true D).

Lemma rooted_dest : rooted dest = true.
Proof using Type. done. Qed.

Lemma Join_dest f : Join [dest; f] = render true (stack true D f).
Proof using HD.
  rewrite Join_pair by done. rewrite rooted_dest, (stack_render true []) by done. by rewrite app_nil_r.
Qed.

(** The check as [untar] makes it looks for the destination below the name of the entry: it
    passes as soon as the name has a component left. *)
Lemma untar_check f : sanitizeExtractPath dest f = Ok () ↔ stack (rooted f) [] f ≠ [].
Proof using HD Hroot.
  destruct f as [|b f].
  - split; [|done]. unfold sanitizeExtractPath. change (Join [[]; dest]) with (Clean dest).
    rewrite (Clean_stack dest), rooted_dest, stack_render, app_nil_r by done.
    assert (E : has_prefix (Clean [] ++ [Separator]) dest = false) by reflexivity. by rewrite E.
  - rewrite sanitizeExtractPath_inside by done. rewrite stack_render by done. unfold comps.
    rewrite reverse_app. split.
    + intros [H1 _] H2. apply H1. by rewrite H2.
    + intros H. split; [by apply reverse_not_nil|]. exists (reverse D). split; [by apply reverse_not_nil|done].
Qed.

Lemma untar_loop_path headers last w : w ∈ (untar_loop performs dest headers last).1 →
  ∃ header, header ∈ headers ∧ sanitizeExtractPath dest (Name header) = Ok () ∧
    w = entryWrite (Join [dest; Name header]) header.
Proof using Type.
  clear HD Hroot. induction headers as [|header headers IH]; cbn [untar_loop]; [by intros ?%elem_of_nil|].
  destruct (sanitizeExtractPath dest (Name header)) as [[]|e| |] eqn:E; cbn [wrap]; try by intros ?%elem_of_nil.
  destruct (performs _); [|by intros ?%elem_of_nil].
  destruct (untar_loop performs dest headers last) as [ws r]. cbn [fst] in *.
  intros [->|Hw]%elem_of_cons; [exists header; split_and!; [set_solver|done|done]|].
  destruct (IH Hw) as (h' & ? & ? & ?). exists h'. split_and!; [set_solver|done|done].
Qed.
End Extraction.

Definition writePath (w : write) : bytes := match w with WMkdir q _ | WFile q _ _ => q end.

(** An archive whose entries never name the parent directory is extracted below the
    destination: every path [untar] writes is the destination followed by more components. *)
Theorem untar_inside `{AR : Archive} performs D source :
  Forall name D → D ≠ [] →
  (∀ header, header ∈ (tarEntries source).1 → dotdot ∉ components (Name header)) →
  ∀ w, w ∈ (untar performs (render true D) source).1 →
    ∃ q, q ≠ [] ∧ Forall name q ∧ writePath w = render true (q ++ D).
Proof.
  intros HD Hroot Hnames w Hw. unfold untar in Hw. destruct (tarEntries source) as [headers last].
  apply untar_loop_path in Hw as (header & Hin & Hok & ->).
  destruct (stack_names _ (Hnames _ Hin)) as (q & Hq & Hs). exists q. split_and!; [|done|].
  - rewrite untar_check, Hs, app_nil_r in Hok by done. done.
  - unfold entryWrite. rewrite Join_dest, Hs by done. by destruct (IsDir _).
Qed.

(** C22: The check against paths that leave the destination does not work: [untar] gives
    [sanitizeExtractPath] its arguments in the wrong order.  In the documented order the check refuses a
    name that starts with the parent directory; as it is called it accepts it, and the file is
    written beside the destination. *)
Theorem untar_escapes `{AR : Archive} performs t D c mode content source :
  Forall name (t :: D) → name c → IsDir mode = false → (∀ w, performs w = true) →
  tarEntries source = ([TarEntry (bs "../" ++ c) mode content], None) →
  sanitizeExtractPath (bs "../" ++ c) (render true (t :: D)) = Err (Errorf "illegal file path %s") ∧
  untar performs (render true (t :: D)) source =
    ([WFile (render true (c :: D)) (sanitizePermissions mode) content], Ok ()).
Proof.
  intros HD Hc Hm Hp Hs. pose proof Hc as [(Hc1 & Hc2 & Hc3) Hc4].
  assert (Hst : ∀ r st, stack r st (bs "../" ++ c) = c :: push r st dotdot).
  { intros r st. change (bs "../" ++ c) with (dotdot ++ Separator :: c). rewrite stack_app.
    unfold stack at 1. rewrite components_nosep by done. cbn [foldl]. by rewrite push_name_on. }
  assert (Hpop : push true (t :: D) dotdot = D).
  { unfold push. rewrite bool_decide_eq_false_2 by (intros [?|?]; done). rewrite bool_decide_eq_true_2 by done.
    apply Forall_cons in HD as [[_ Ht] _]. by rewrite bool_decide_eq_false_2. }
  split.
  - destruct (sanitizeExtractPath (bs "../" ++ c) _) as [[]|e| |] eqn:E.
    + apply sanitizeExtractPath_inside in E as (_ & q & Hq & E); [|done].
      rewrite rooted_dest, stack_render, app_nil_r, Hst, Hpop in E by done. unfold comps in E.
      rewrite rooted_dest, stack_render, app_nil_r in E by done.
      apply (f_equal length) in E. rewrite length_app, !length_reverse in E. destruct q; [done|]. cbn in E. lia.
    + unfold sanitizeExtractPath in E. destruct (has_prefix _ _); [done|]. by injection E as <-.
    + unfold sanitizeExtractPath in E. by destruct (has_prefix _ _).
    + unfold sanitizeExtractPath in E. by destruct (has_prefix _ _).
  - unfold untar. rewrite Hs. cbn [untar_loop Name].
    assert (Hok : sanitizeExtractPath (render true (t :: D)) (bs "../" ++ c) = Ok ())
      by (rewrite untar_check by done; by rewrite Hst).
    rewrite Hok. cbn [wrap]. unfold entryWrite. cbn [Mode body]. rewrite Hm, Hp, Join_dest, Hst, Hpop by done. done.
Qed.

(** Extracted files keep the permission bits of the archive but for those that let others
    write, set an id or stick. *)
Lemma sanitizePermissions_bits mode i : 0 <= i →
  Z.testbit (sanitizePermissions mode) i =
    Z.testbit mode i && bool_decide (i ∈ [31; 27; 26; 25; 24; 21; 19; 8; 7; 6; 5; 3; 2; 0]).
Proof.
  intros Hi. unfold sanitizePermissions. rewrite Z.land_spec. f_equal.
  change allowedPermissionBits with 2401763821.
  destruct (decide (i < 32)) as [H|H].
  - assert (Hr : i ∈ seqZ 0 32) by (apply elem_of_seqZ; lia).
    revert Hr. clear. cbn [seqZ]. intros Hr. repeat (apply elem_of_cons in Hr as [->|Hr]; [reflexivity|]).
    by apply elem_of_nil in Hr.
  - rewrite (Z.bits_above_log2 2401763821 i); [|lia|].
    + symmetry. apply bool_decide_eq_false_2. set_solver by lia.
    + assert (Hl : Z.log2 2401763821 = 31) by reflexivity. lia.
Qed.

(** ** Valid versions *)
Section Library.
Context `{SV : Semver} `{SL : !SemverLaws} (p : place) (runs : bytes → nat → run) (lib : library).

(** A version that parses and whose executable checks out *)
Definition validVersion (raw : bytes) : option version :=
  if succeeds (checkVersion p runs lib raw) then NewVersion raw else None.

(** The version as it is compared *)
Definition sortKey (raw : bytes) : option version := swapPrerelease (bs "-") (bs ".") <$> NewVersion raw.

(** [v] is not newer than [w] *)
Definition older (v w : bytes) : Prop :=
  ∃ kv kw, sortKey v = Some kv ∧ sortKey w = Some kw ∧ VCompare kv kw <= 0.

(** The periods a prerelease gets to be compared become hyphens again. *)
Definition canonical (raw : bytes) : Prop :=
  ∀ v, NewVersion raw = Some v →
    Original (swapPrerelease (bs ".") (bs "-") (swapPrerelease (bs "-") (bs ".") v)) = raw.

Definition names : list bytes := (sorted_entries lib).*1.
Definition validNames : list bytes := filter (λ v, is_Some (validVersion v)) names.

Lemma elem_of_names v : v ∈ names ↔ is_Some (lib !! v).
Proof using Type.
  unfold names. rewrite list_elem_of_fmap. split.
  - intros ([k e] & -> & H%elem_of_sorted_entries). by exists e.
  - intros [e He]. exists (v, e). split; [done|]. by apply elem_of_sorted_entries.
Qed.

Lemma NoDup_names : NoDup names.
Proof using Type.
  unfold names. rewrite sorted_entries_perm. apply NoDup_fst_map_to_list.
Qed.

Lemma valid_in_library v : is_Some (validVersion v) → is_Some (lib !! v).
Proof using Type.
  unfold validVersion, checkVersion, CheckExecutable, executable. destruct (lib !! v) as [e|]; [done|].
  cbn [default from_option Datatypes.id]. unfold checkExecutablePermissions.
  destruct (is_empty _); cbn; by intros [].
Qed.

Lemma elem_of_validNames v : v ∈ validNames ↔ is_Some (validVersion v).
Proof using Type.
  unfold validNames. rewrite list_elem_of_filter, elem_of_names. split; [by intros []|].
  intros H. split; [done|by apply valid_in_library].
Qed.

Lemma NoDup_validNames : NoDup validNames.
Proof using Type. apply NoDup_filter, NoDup_names. Qed.

Lemma partitionVersions_spec raws :
  partitionVersions p runs lib raws =
    (omap (λ raw, swapPrerelease (bs "-") (bs ".") <$> validVersion raw) raws,
     filter (λ raw, ¬ is_Some (validVersion raw)) raws).
Proof using Type.
  induction raws as [|raw raws IH]; [done|]. cbn [partitionVersions omap list_omap]. rewrite IH, filter_cons.
  unfold validVersion. destruct (NewVersion raw) as [v|] eqn:Ev.
  - destruct (succeeds _) eqn:Es; cbn.
    + rewrite decide_False; [done|]. intros Hn. by apply Hn.
    + rewrite decide_True; [done|]. by intros [].
  - destruct (succeeds _); cbn; (rewrite decide_True; [done|]; by intros []).
Qed.

#[local] Instance version_le_total : Total version_le.
Proof using SL.
  intros v w. unfold version_le, LessThan. rewrite (VCompare_antisym v w).
  destruct (Z.ltb_spec (- VCompare v w) 0); [right|by left]. apply Z.ltb_ge. lia.
Qed.

#[local] Instance version_le_trans : Transitive version_le.
Proof using SL.
  intros u v w. unfold version_le, LessThan. rewrite !Z.ltb_ge. intros Huv Hvw.
  rewrite (VCompare_antisym u w). rewrite (VCompare_antisym u v) in Huv. rewrite (VCompare_antisym v w) in Hvw.
  pose proof (VCompare_trans u v w). lia.
Qed.

Lemma version_le_compare v w : version_le v w ↔ VCompare v w <= 0.
Proof using SL. unfold version_le, LessThan. rewrite (VCompare_antisym v w), Z.ltb_ge. lia. Qed.

(** What a listing calls the version [raw]: hyphens become periods and periods hyphens again, so
    the periods a prerelease had are lost. *)
Definition listedName (raw : bytes) : bytes :=
  match NewVersion raw with
  | Some v => Original (swapPrerelease (bs ".") (bs "-") (swapPrerelease (bs "-") (bs ".") v))
  | None => raw
  end.

Lemma listedName_canonical raw : canonical raw → listedName raw = raw.
Proof using Type. clear SL p runs lib. unfold canonical, listedName. destruct (NewVersion raw) as [v|]; [|done]. by intros H; apply H. Qed.

Lemma omap_listed raws :
  map (λ v, Original (swapPrerelease (bs ".") (bs "-") v))
    (omap (λ raw, swapPrerelease (bs "-") (bs ".") <$> validVersion raw) raws) =
  map listedName (filter (λ v, is_Some (validVersion v)) raws).
Proof using SL.
  induction raws as [|raw raws IH]; [done|]. cbn [omap list_omap]. rewrite filter_cons.
  destruct (validVersion raw) as [v|] eqn:Ev.
  - rewrite decide_True by done. cbn [fmap option_fmap option_map map]. rewrite <- IH. f_equal.
    unfold listedName. unfold validVersion in Ev. destruct (succeeds _); [by rewrite Ev|done].
  - rewrite decide_False by (by intros []). apply IH.
Qed.

Lemma map_listed raws : (∀ raw, raw ∈ raws → canonical raw) → map listedName raws = raws.
Proof using Type.
  clear SL p runs lib. induction raws as [|raw raws IH]; intros Hcan; [done|]. cbn [map].
  rewrite listedName_canonical, IH; [done|..]; intros; apply Hcan; set_solver.
Qed.

Lemma StronglySorted_older l :
  Forall (λ w, sortKey (Original (swapPrerelease (bs ".") (bs "-") w)) = Some w) l →
  StronglySorted version_le l →
  StronglySorted older (map (λ v, Original (swapPrerelease (bs ".") (bs "-") v)) l).
Proof using SL.
  induction l as [|w l IH]; intros Hf Hs; [constructor|]. apply Forall_cons in Hf as [Hw Hf].
  apply StronglySorted_inv in Hs as [Hs Hw']. cbn [map]. constructor; [by apply IH|].
  apply Forall_forall. intros x Hx. pose proof (proj1 (Forall_forall _ _) Hf) as Hf'. pose proof (proj1 (Forall_forall _ _) Hw') as Hw''.
  apply list_elem_of_In, in_map_iff in Hx as (y & <- & Hy%list_elem_of_In).
  exists w, y. split_and!; [done|by apply Hf'|]. apply version_le_compare. by apply Hw''.
Qed.

(** The valid versions under the names the listing gives them, and the others *)
Lemma sortedVersionsInLibrary_listed :
  (sortedVersionsInLibrary p runs lib).1 ≡ₚ map listedName validNames ∧
  (sortedVersionsInLibrary p runs lib).2 = filter (λ v, ¬ is_Some (validVersion v)) names.
Proof using SL.
  unfold sortedVersionsInLibrary. fold names. rewrite partitionVersions_spec. cbn [fst snd]. split; [|done].
  unfold sortVersions, validNames. rewrite <- omap_listed. apply Permutation_map, merge_sort_Permutation.
Qed.

(** The valid versions, sorted, when the listing keeps their names *)
Lemma sortedVersionsInLibrary_spec : (∀ raw, raw ∈ validNames → canonical raw) →
  (sortedVersionsInLibrary p runs lib).1 ≡ₚ validNames ∧
  StronglySorted older (sortedVersionsInLibrary p runs lib).1.
Proof using SL.
  intros Hcan. split.
  - rewrite (proj1 sortedVersionsInLibrary_listed). by rewrite map_listed.
  - unfold sortedVersionsInLibrary. fold names. rewrite partitionVersions_spec. cbn [fst].
    set (vs := omap _ names). unfold sortVersions.
    apply StronglySorted_older; [|by apply (StronglySorted_merge_sort version_le)].
    rewrite (merge_sort_Permutation version_le vs). apply Forall_forall. intros w Hw. unfold vs in Hw.
    apply list_elem_of_omap in Hw as (raw & Hraw & Hv). destruct (validVersion raw) as [v|] eqn:Ev; [|done].
    injection Hv as <-. assert (Hval : raw ∈ validNames) by (apply elem_of_validNames; by eexists).
    unfold validVersion in Ev. destruct (succeeds _); [|done].
    rewrite (Hcan raw Hval v Ev). unfold sortKey. by rewrite Ev.
Qed.

Lemma StronglySorted_filter {A} (R : A → A → Prop) (P : A → Prop) `{∀ x, Decision (P x)} l :
  StronglySorted R l → StronglySorted R (filter P l).
Proof using Type.
  induction 1 as [|x l Hs IH Hx]; [constructor|]. rewrite filter_cons. case_decide; [|done].
  constructor; [done|]. rewrite Forall_forall in Hx |- *. intros y [_ Hy]%list_elem_of_filter. by apply Hx.
Qed.

Lemma last_newest l w : StronglySorted older l → last l = Some w → ∀ v, v ∈ l → v ≠ w → older v w.
Proof using Type.
  clear SL p runs lib. intros Hs Hl v Hv Hne. apply last_Some in Hl as [l' ->]. apply elem_of_app in Hv as [Hv|Hv]; [|set_solver].
  apply StronglySorted_app in Hs as (Hs & _ & _). by apply Hs; [|set_solver].
Qed.

(** ** Tidying *)
Lemma foldl_removeUpdate removes (vs : list bytes) (l : library) v :
  foldl (λ l v, removeUpdate removes v l) l vs !! v =
    if bool_decide (v ∈ vs) && removes v then None else l !! v.
Proof using Type.
  clear SL SV p runs lib. revert l. induction vs as [|w vs IH]; intros l; [done|]. cbn [foldl]. rewrite IH. unfold removeUpdate.
  destruct (decide (v = w)) as [->|Hne].
  - rewrite (bool_decide_eq_true_2 (w ∈ w :: vs)) by set_solver.
    destruct (removes w); [|by rewrite andb_false_r]. rewrite andb_true_r, lookup_delete_eq. by case_bool_decide.
  - rewrite (bool_decide_ext (v ∈ w :: vs) (v ∈ vs)) by set_solver.
    destruct (removes w); [by rewrite lookup_delete_ne|done].
Qed.

Lemma tidyVersions_spec removes cur (l : list bytes) kept (lb : library) : 0 <= kept →
  tidyVersions removes cur l kept lb =
    foldl (λ l v, removeUpdate removes v l) lb (drop (Z.to_nat (1 - kept)) (filter (.≠ cur) l)).
Proof using Type.
  clear SL SV p runs lib. revert kept lb. induction l as [|v l IH]; intros kept lb Hk; [by rewrite filter_nil, drop_nil|]. cbn [tidyVersions].
  rewrite filter_cons. case_bool_decide as Hv.
  - rewrite decide_False by (intros Hn; by apply Hn). by apply IH.
  - rewrite decide_True by done. change (numberOfVersionsToKeep - 1) with 1. destruct (Z.leb_spec 1 kept).
    + rewrite IH by done. replace (Z.to_nat (1 - kept)) with 0%nat by lia. done.
    + rewrite IH by lia. replace kept with 0 by lia. done.
Qed.

Lemma foldl_removeUpdate_app removes (vs ws : list bytes) (l : library) v :
  foldl (λ l v, removeUpdate removes v l) (foldl (λ l v, removeUpdate removes v l) l vs) ws !! v =
    if bool_decide (v ∈ vs ++ ws) && removes v then None else l !! v.
Proof using Type.
  by rewrite <- foldl_app, foldl_removeUpdate.
Qed.

Lemma lookup_cases v : lib !! v = None ∨ v ∈ names.
Proof using Type. clear SL p runs. destruct (lib !! v) eqn:E; [right|by left]. apply elem_of_names. by eexists. Qed.

Lemma elem_of_invalid v : v ∈ filter (λ v, ¬ is_Some (validVersion v)) names ↔ v ∈ names ∧ v ∉ validNames.
Proof using Type. rewrite list_elem_of_filter, elem_of_validNames. tauto. Qed.

(** What is left after the invalid versions and the names [gone] have been removed *)
Lemma removed_lookup removes gone v :
  foldl (λ l v, removeUpdate removes v l)
    (foldl (λ l v, removeUpdate removes v l) lib (filter (λ v, ¬ is_Some (validVersion v)) names)) gone !! v =
  if bool_decide (v ∈ filter (.∉ gone) validNames) || negb (removes v) then lib !! v else None.
Proof using Type.
  rewrite foldl_removeUpdate_app. destruct (removes v); [|by rewrite andb_false_r, orb_true_r].
  rewrite andb_true_r, orb_false_r. pose proof (elem_of_invalid v) as Hin.
  destruct (lookup_cases v) as [Hn|Hn]; [by rewrite Hn; repeat case_bool_decide|].
  repeat case_bool_decide; try done; rewrite ?elem_of_app, ?list_elem_of_filter in *;
    destruct (decide (v ∈ validNames)), (decide (v ∈ gone)); naive_solver.
Qed.

(** The newest version other than [cur] of a sorted list without duplicates, and the rest *)
Lemma newest_other cur vs : NoDup vs → StronglySorted older vs → (2 < length vs)%nat →
  ∃ w rest, filter (.≠ cur) (reverse vs) = w :: rest ∧ w ≠ cur ∧ w ∈ vs ∧
    (∀ v, v ∈ rest ↔ v ∈ vs ∧ v ≠ cur ∧ v ≠ w) ∧
    ∀ v, v ∈ vs → v ≠ cur → v ≠ w → older v w.
Proof using Type.
  clear SL p runs lib. intros Hnd Hsort Hgt. destruct (filter (.≠ cur) (reverse vs)) as [|w rest] eqn:Ef.
  { exfalso. assert (Hall : ∀ v, v ∈ vs → v = cur).
    { intros v Hv. destruct (decide (v = cur)); [done|]. exfalso.
      cut (v ∈ (@nil bytes)); [apply not_elem_of_nil|]. rewrite <- Ef. apply list_elem_of_filter.
      by rewrite elem_of_reverse. }
    destruct vs as [|a [|b vs]]; cbn in Hgt; try lia. apply NoDup_cons in Hnd as [Hnd _]. apply Hnd.
    rewrite (Hall a), (Hall b) by set_solver. set_solver. }
  assert (Hf : filter (.≠ cur) vs = reverse rest ++ [w]).
  { apply (inj reverse). by rewrite <- filter_reverse, Ef, reverse_app, reverse_involutive. }
  assert (Hndf : NoDup (w :: rest)) by (rewrite <- Ef; apply NoDup_filter; by rewrite reverse_Permutation).
  apply NoDup_cons in Hndf as [Hwr _].
  assert (Hrest : ∀ v, v ∈ w :: rest ↔ v ≠ cur ∧ v ∈ vs)
    by (intros v; by rewrite <- Ef, list_elem_of_filter, elem_of_reverse).
  assert (Hw : w ≠ cur ∧ w ∈ vs) by (apply Hrest; left).
  exists w, rest. split_and!; [done|naive_solver..| |].
  - intros v. specialize (Hrest v). rewrite elem_of_cons in Hrest. destruct (decide (v = w)); naive_solver.
  - intros v Hv Hvc Hvw. apply (last_newest (filter (.≠ cur) vs)); [by apply StronglySorted_filter|by rewrite Hf, last_snoc| |done].
    by apply list_elem_of_filter.
Qed.

(** C21: Tidying leaves every version as it is or removes it.  It removes every version that
    does not check out, as far as the host lets it, and keeps the running one when it checks
    out and all the valid ones when there are at most two.  Of three or more valid versions, none
    with a period in its prerelease, it keeps the running one and the newest other one alone, by
    the order the versions are compared in.  A running version that fails its check is removed like
    any other. *)
Theorem TidyLibrary_keeps removes cur : cur ≠ [] →
  ∃ keep : list bytes,
    (∀ v, TidyLibrary p runs removes cur lib !! v =
       if bool_decide (v ∈ keep) || negb (removes v) then lib !! v else None) ∧
    (∀ v, v ∈ keep → v ∈ validNames) ∧
    (cur ∈ validNames → cur ∈ keep) ∧
    ((length validNames <= 2)%nat → ∀ v, v ∈ validNames → v ∈ keep) ∧
    ((2 < length validNames)%nat → (∀ raw, raw ∈ validNames → canonical raw) →
     ∃ w, w ∈ validNames ∧ w ≠ cur ∧
       (∀ v, v ∈ keep ↔ v = w ∨ (v = cur ∧ cur ∈ validNames)) ∧
       ∀ v, v ∈ validNames → v ≠ cur → v ≠ w → older v w).
Proof using SL.
  intros Hcur. destruct sortedVersionsInLibrary_listed as [Hperm Hinv].
  pose proof sortedVersionsInLibrary_spec as Hspec.
  unfold TidyLibrary. destruct (is_empty cur) eqn:Ec; [by destruct cur|].
  destruct (sortedVersionsInLibrary p runs lib) as [vs inv]. cbn [fst snd] in *. subst inv.
  assert (Hlen : length vs = length validNames) by (by rewrite Hperm, length_map).
  rewrite <- Hlen. unfold len, numberOfVersionsToKeep.
  destruct (Z.leb_spec (Z.of_nat (length vs)) 2) as [Hle|Hgt].
  - exists (filter (.∉ []) validNames).
    assert (Hall : ∀ v, v ∈ filter (.∉ []) validNames ↔ v ∈ validNames)
      by (intros v; rewrite list_elem_of_filter; set_solver).
    split_and!; [intros v; apply (removed_lookup removes [] v)|naive_solver..|lia].
  - rewrite tidyVersions_spec by lia. change (Z.to_nat (1 - 0)) with 1%nat.
    exists (filter (.∉ drop 1 (filter (.≠ cur) (reverse vs))) validNames).
    split_and!; [intros v; apply removed_lookup| | |lia|].
    + intros v Hv. apply list_elem_of_filter in Hv. naive_solver.
    + intros Hc. apply list_elem_of_filter. split; [|done].
      intros Hd%(subseteq_drop 1 (filter (.≠ cur) (reverse vs))). apply list_elem_of_filter in Hd. naive_solver.
    + intros _ Hcan. destruct (Hspec Hcan) as [Hp Hsort].
      destruct (newest_other cur vs) as (w & rest & Ef & Hwc & Hw & Hrest & Hold);
        [rewrite Hp; apply NoDup_validNames|done|lia|].
      rewrite Ef. change (drop 1 (w :: rest)) with rest. setoid_rewrite Hp in Hw.
      setoid_rewrite Hp in Hrest. setoid_rewrite Hp in Hold.
      exists w. split_and!; [done..| |done]. intros v. rewrite list_elem_of_filter. specialize (Hrest v).
      destruct (decide (v = cur)), (decide (v = w)); naive_solver.
Qed.
End Library.

(** ** Choosing the executable to run *)
Section Choice.
Context `{SV : Semver} `{SL : !SemverLaws} `{TM : TufMeta} (h : host) (p : place) (lib : library).

(** The version the metadata asks for *)
Definition wanted (metadata : res targetFiles) (pinnedVersion channel : bytes) : option bytes :=
  match metadata with
  | Ok targets =>
      if is_empty (map_to_list targets) then None
      else
        match findTarget h (binary p) targets pinnedVersion channel with
        | Ok (targetName, _) => Some (versionFromTarget (binary p) targetName)
        | _ => None
        end
  | _ => None
  end.

Definition info (v : bytes) : BinaryUpdateInfo :=
  UpdateInfo (executableLocation (versionDir p v) (binary p)) (trimVersionString v).

Lemma check_exists runs v : succeeds (checkVersion p runs lib v) = true → exists_exe (executable lib v) = true.
Proof using Type.
  unfold checkVersion, CheckExecutable, checkExecutablePermissions.
  destruct (executable lib v); try done. by destruct (is_empty _).
Qed.

Lemma findExecutable_spec runs metadata pinned chan u :
  findExecutable h p runs lib metadata pinned chan = Ok u ↔
  ∃ v, wanted metadata pinned chan = Some v ∧ succeeds (checkVersion p runs lib v) = true ∧ u = info v.
Proof using Type.
  unfold findExecutable, wanted. destruct metadata as [targets|e| |]; cbn [wrap mbind res_bind]; [|split; [done|by intros (? & ? & _)]..].
  destruct (is_empty _); [split; [done|by intros (? & ? & _)]|].
  destruct (findTarget _ _ _ _ _) as [[t m]|e| |]; cbn [wrap mbind res_bind]; [|split; [done|by intros (? & ? & _)]..].
  unfold pathToTargetVersionExecutable. set (v := versionFromTarget (binary p) t).
  pose proof (check_exists runs v) as Hex.
  destruct (checkVersion p runs lib v) as [[]|e| |] eqn:Ec; cbn [succeeds] in Hex; cbn [wrap mbind res_bind].
  - rewrite Hex by done. cbn [negb]. split.
    + intros [= <-]. exists v. by rewrite Ec.
    + intros (v' & [= <-] & _ & ->). done.
  - split; [by destruct (exists_exe _)|]. intros (v' & [= <-] & Hs & _). by rewrite Ec in Hs.
  - split; [by destruct (exists_exe _)|]. intros (v' & [= <-] & Hs & _). by rewrite Ec in Hs.
  - split; [by destruct (exists_exe _)|]. intros (v' & [= <-] & Hs & _). by rewrite Ec in Hs.
Qed.

(** Launchers of the stable channel run only from the first version that supports the library. *)
Definition admissible (chan v : bytes) : Prop :=
  binary p = binaryLauncher → chan = bs "stable" → launcherVersionSupportsTuf v = Ok true.

Lemma mostRecentVersion_spec runs chan u :
  mostRecentVersion p runs lib chan = Ok u ↔
  ∃ v, last (sortedVersionsInLibrary p runs lib).1 = Some v ∧ admissible chan v ∧ u = info v.
Proof using Type.
  unfold mostRecentVersion, admissible.
  destruct (sortedVersionsInLibrary p runs lib) as [vs inv]. cbn [fst].
  destruct (last vs) as [v|]; [|split; [done|by intros (? & ? & _)]].
  assert (Hex : ∀ P : bytes → Prop, (∃ v', Some v = Some v' ∧ P v') ↔ P v)
    by (intros P; split; [by intros (? & [= <-] & ?)|by exists v]).
  rewrite Hex. fold (info v). case_bool_decide as Hb.
  - destruct Hb as [Hb ->]. destruct (launcherVersionSupportsTuf v) as [b|e| |]; cbn [wrap mbind res_bind];
      [destruct b; cbn [negb]|..]; (split; [intros [= <-]|intros [Ha ->]]); try done; by specialize (Ha Hb eq_refl).
  - cbn [mbind res_bind negb]. split; [intros [= <-]|by intros [_ ->]]. split; [|done].
    intros Hl Hs. by destruct Hb.
Qed.

Lemma last_sorted runs v : (∀ raw, raw ∈ validNames p runs lib → canonical raw) →
  last (sortedVersionsInLibrary p runs lib).1 = Some v →
  v ∈ validNames p runs lib ∧ ∀ v', v' ∈ validNames p runs lib → v' ≠ v → older v' v.
Proof using SL.
  intros Hcan Hl. destruct (sortedVersionsInLibrary_spec p runs lib Hcan) as [Hperm Hsort].
  split.
  - rewrite <- Hperm. apply last_Some in Hl as [l ->]. set_solver.
  - intros v' Hv' Hne. rewrite <- Hperm in Hv'. by eapply last_newest.
Qed.

Lemma sorted_has_last runs : validNames p runs lib ≠ [] → is_Some (last (sortedVersionsInLibrary p runs lib).1).
Proof using SL.
  intros Hne. destruct (sortedVersionsInLibrary_listed p runs lib) as [Hperm _].
  apply last_is_Some. intros Hn. rewrite Hn in Hperm. apply Permutation_nil_l in Hperm. by destruct (validNames _ _ _).
Qed.

Lemma last_listed runs v : last (sortedVersionsInLibrary p runs lib).1 = Some v →
  ∃ raw, raw ∈ validNames p runs lib ∧ v = listedName raw.
Proof using SL.
  intros Hl. destruct (sortedVersionsInLibrary_listed p runs lib) as [Hperm _].
  apply last_Some in Hl as [l Hl]. rewrite Hl in Hperm.
  assert (Hv : v ∈ map listedName (validNames p runs lib)) by (rewrite <- Hperm; set_solver).
  apply list_elem_of_In, in_map_iff in Hv as (raw & <- & Hraw%list_elem_of_In). by exists raw.
Qed.

(** What [findExecutable] decides before the newest version is looked for *)
Lemma findExecutable_cases runs metadata pinned chan :
  let run_wanted v := wanted metadata pinned chan = Some v ∧ succeeds (checkVersion p runs lib v) = true in
  (∃ v, run_wanted v ∧ (∀ w, run_wanted w → w = v) ∧
    ∀ runs', CheckOutLatest h p runs runs' lib metadata pinned chan = Ok (info v)) ∨
  ((∀ v, ¬ run_wanted v) ∧
    ∀ runs', CheckOutLatest h p runs runs' lib metadata pinned chan = mostRecentVersion p runs' lib chan).
Proof using Type.
  intros run_wanted. unfold CheckOutLatest.
  pose proof (findExecutable_spec runs metadata pinned chan) as Hfind.
  destruct (findExecutable h p runs lib metadata pinned chan) as [u|e| |] eqn:E.
  - left. destruct (proj1 (Hfind u) eq_refl) as (v & Hv & Hc & ->). exists v.
    split_and!; [done| |done]. intros w [Hw _]. congruence.
  - right. split; [|done]. intros v [Hv Hc]. discriminate (proj2 (Hfind (info v)) ltac:(by exists v)).
  - right. split; [|done]. intros v [Hv Hc]. discriminate (proj2 (Hfind (info v)) ltac:(by exists v)).
  - right. split; [|done]. intros v [Hv Hc]. discriminate (proj2 (Hfind (info v)) ltac:(by exists v)).
Qed.

(** C20: The version the metadata asks for is run when it is in the library and checks out, however
    many newer ones there are, and only when it does not may another run: one that is listed for a
    version that has just passed its check, and not too old to be a stable launcher.  When no
    valid version has a period in its prerelease, that other one is the newest valid one, by
    the order the versions are compared in, and there is one to run when a version is valid and none too old. *)
Theorem CheckOutLatest_chooses runs runs' metadata pinned chan :
  let run_wanted v := wanted metadata pinned chan = Some v ∧ succeeds (checkVersion p runs lib v) = true in
  (∀ v, run_wanted v → CheckOutLatest h p runs runs' lib metadata pinned chan = Ok (info v)) ∧
  (∀ u, CheckOutLatest h p runs runs' lib metadata pinned chan = Ok u →
     (∃ v, u = info v ∧ run_wanted v) ∨
     (∀ v', ¬ run_wanted v') ∧
     ∃ raw, u = info (listedName raw) ∧ raw ∈ validNames p runs' lib ∧ admissible chan (listedName raw)) ∧
  ((∀ raw, raw ∈ validNames p runs' lib → canonical raw) →
   (∀ u, CheckOutLatest h p runs runs' lib metadata pinned chan = Ok u → (∀ v', ¬ run_wanted v') →
      ∃ v, u = info v ∧ v ∈ validNames p runs' lib ∧ admissible chan v ∧
        ∀ v', v' ∈ validNames p runs' lib → v' ≠ v → older v' v) ∧
   (validNames p runs' lib ≠ [] → (∀ v, v ∈ validNames p runs' lib → admissible chan v) →
      ∃ u, CheckOutLatest h p runs runs' lib metadata pinned chan = Ok u)).
Proof using SL.
  intros run_wanted. destruct (findExecutable_cases runs metadata pinned chan) as [(v & Hv & Huniq & ->)|[Hno ->]].
  - split_and!; [intros w Hw; by rewrite (Huniq w Hw)|intros u [= <-]; left; by exists v|].
    intros _. split; [intros u _ Hn; by destruct (Hn v)|intros _ _; by eexists].
  - split_and!; [intros w Hw; by destruct (Hno w)| |intros Hcan; split].
    + intros u Hu. right. split; [done|]. apply mostRecentVersion_spec in Hu as (v & Hl & Ha & ->).
      destruct (last_listed runs' v Hl) as (raw & Hraw & ->). by exists raw.
    + intros u Hu _. apply mostRecentVersion_spec in Hu as (v & Hl & Ha & ->).
      exists v. apply last_sorted in Hl as [? ?]; [|done]. by split_and!.
    + intros Hv Hadm. destruct (sorted_has_last runs' Hv) as [v Hl].
      exists (info v). apply mostRecentVersion_spec. exists v. split_and!; [done| |done].
      apply Hadm. by apply last_sorted in Hl as [? ?].
Qed.
End Choice.

(** ** Adding to the library *)
Lemma WaitFor_Ok {A} (attempts : list (res A)) a : WaitFor attempts = Ok a → Ok a ∈ attempts.
Proof.
  induction attempts as [|r [|r' attempts] IH]; [done| |].
  - destruct r as [b|e| |]; cbn; intros H; simplify_eq. by left.
  - intros H. destruct r as [b|e| |]; [injection H as ->; by left|right; by apply IH..].
Qed.

Lemma tempName_ne pattern micros : tempName pattern micros ≠ pattern.
Proof.
  unfold tempName. intros H. apply (f_equal length) in H. rewrite !length_app in H. cbn in H. lia.
Qed.

Lemma tempName_staged_ne v micros : tempName (bs "staged-updates-" ++ v) micros ≠ v.
Proof.
  unfold tempName. intros H. apply (f_equal length) in H. rewrite !length_app in H. cbn in H. lia.
Qed.

Lemma lookup_mkdir_ne v u (lib : library) : u ≠ v → mkdir v lib !! u = lib !! u.
Proof. intros H. unfold mkdir. destruct (lib !! v); [done|]. by rewrite lookup_insert_ne. Qed.

Section Adding.
Context `{TM : TufMeta} `{AR : Archive} (p : place).

(** An archive that leaves the executables of other versions alone *)
Definition confined (performs : write → bool) (staged archive : bytes) : Prop :=
  ∀ w, w ∈ (untar performs (versionDir p staged) archive).1 → ∀ v, name v → v ≠ staged → ∀ e,
    written (executableLocation (versionDir p v) (binary p)) e w = e.

(** The archive is what the metadata of the repository promises. *)
Definition verified (senv : stageEnv) (targetMetadata : fileMeta) (archive : bytes) : Prop :=
  ∃ stream failed actual, st_response senv = Some (stream, failed) ∧
    archive = take (Z.to_nat (Length targetMetadata)) stream ∧
    GenerateTargetFileMeta archive (HashAlgorithms targetMetadata) = Some actual ∧
    TargetFileMetaEqual actual targetMetadata = true.

(** An executable that comes out of an archive and has passed a check *)
Definition checked (menv : moveEnv) (staged archive : bytes) (e : exe) : Prop :=
  (untar (mv_performs menv) (versionDir p staged) archive).2 = Ok () ∧
  ∃ runs, runs ∈ mv_checks menv ∧
    CheckExecutable (self p) (executableLocation (versionDir p staged) (binary p)) e runs = Ok ().

(** With an absolute clean base directory, an archive is confined as soon as no entry names the
    parent directory. *)
Lemma render_inj st st' : Forall plain st → Forall plain st' → st ≠ [] → st' ≠ [] →
  render true st = render true st' → st = st'.
Proof using Type.
  intros Hst Hst' Hn Hn' H. injection H as H. apply (f_equal components) in H.
  rewrite !components_join in H by (by apply reverse_not_nil || by apply plain_nosep). by apply (inj reverse).
Qed.

Lemma binary_name_name b : name (binary_name b).
Proof using Type. destruct b; (split; [split_and!|]; vm_compute; (done || set_solver)). Qed.

Lemma versionDir_render B v : Forall name B → baseDir p = render true B → name v →
  versionDir p v = render true (v :: binary_name (binary p) :: B).
Proof using Type.
  intros HB Hb Hv. pose proof (binary_name_name (binary p)) as Hbn.
  assert (Hs : ∀ st c, name c → stack true st c = c :: st)
    by (intros st c Hc; unfold stack; rewrite components_nosep by apply Hc; cbn [foldl]; by rewrite push_name_on).
  unfold versionDir, updatesDirectory. rewrite Hb, Join_dest, Hs, Join_dest, Hs; [done..|by constructor|done|done].
Qed.

Lemma confined_inside performs B staged archive :
  Forall name B → baseDir p = render true B → name staged →
  (∀ header, header ∈ (tarEntries archive).1 → dotdot ∉ components (Name header)) →
  confined performs staged archive.
Proof using Type.
  intros HB Hb Hst Hnames w Hw v Hv Hne e. pose proof (binary_name_name (binary p)) as Hbn.
  assert (HD : ∀ u, name u → Forall name (u :: binary_name (binary p) :: B)) by (intros u Hu; constructor; [done|by constructor]).
  rewrite (versionDir_render B) in Hw by done. unfold untar in Hw. destruct (tarEntries archive) as [headers last].
  apply untar_loop_path in Hw as (header & Hin & Hok & ->).
  destruct (stack_names _ (Hnames _ Hin)) as (q & Hq & Hs).
  rewrite Join_dest, Hs by auto. set (D := staged :: _) in *.
  unfold executableLocation. rewrite (versionDir_render B) by done. set (D' := v :: _).
  assert (Hl : Join [render true D'; binary_name (binary p)] = render true (binary_name (binary p) :: D')).
  { rewrite Join_dest by (by apply HD). unfold stack. rewrite components_nosep by apply Hbn.
    cbn [foldl]. by rewrite push_name_on. }
  rewrite Hl. set (E := binary_name (binary p) :: D').
  assert (Hplain : ∀ l, Forall name l → Forall plain l)
    by (intros l Hl'; eapply Forall_impl; [exact Hl'|]; by intros x [? _]).
  assert (HqD : Forall plain (q ++ D)) by (apply Hplain, Forall_app; split; [done|by apply HD]).
  assert (HE : Forall plain E) by (apply Hplain; constructor; [done|by apply HD]).
  assert (Hdiff : ∀ k, reverse (q ++ D) ≠ reverse E ++ k).
  { intros k Hk. unfold E, D', D in Hk. rewrite reverse_app, !reverse_cons in Hk. rewrite <- !app_assoc in Hk.
    apply app_inv_head in Hk. cbn [app] in Hk. by injection Hk as ->. }
  assert (Heq : render true (q ++ D) ≠ render true E).
  { intros H. apply render_inj in H; [|done|done|by destruct q|done]. apply (Hdiff []). by rewrite H, app_nil_r. }
  assert (Hbelow : has_prefix (render true E ++ [Separator]) (render true (q ++ D)) = false).
  { apply not_true_iff_false. intros H. apply render_below in H as (_ & k & _ & H); [|done|done]. by apply (Hdiff k). }
  unfold entryWrite, written. destruct (IsDir _); rewrite bool_decide_eq_false_2 by done; [by rewrite Hbelow|done].
Qed.

Lemma download_verified senv m archive : download senv m = Ok archive → verified senv m archive.
Proof using Type.
  unfold download, verified. destruct (negb _); [done|]. destruct (st_response senv) as [[stream failed]|]; [|done].
  destruct (failed && _); [done|]. destruct (GenerateTargetFileMeta _ _) as [actual|] eqn:Eg; [|done].
  destruct (TargetFileMetaEqual actual m) eqn:Em; [|done]. intros [= <-].
  by exists stream, failed, actual.
Qed.

Lemma applyWrites_confined performs staged archive lib v : confined performs staged archive → name v → v ≠ staged →
  applyWrites p (untar performs (versionDir p staged) archive).1 lib !! v = lib !! v.
Proof using Type.
  unfold confined. intros Hc Hn Hv. unfold applyWrites. rewrite map_lookup_imap.
  destruct (lib !! v) as [e|]; [|done]. cbn [mbind option_bind]. f_equal. revert Hc e.
  induction (untar _ _ _).1 as [|w ws IH]; intros Hc e; [done|]. cbn [foldl].
  rewrite (Hc w) by set_solver. apply IH. intros w' Hw'. apply Hc. set_solver.
Qed.

(** The target is left as it was, and the call fails, or it is the checked executable, and the call fails only if the
    permissions of its directory cannot be set. *)
Definition moved (menv : moveEnv) (staged archive v : bytes) (lib lib' : library) (r : res ()) : Prop :=
  (∀ u, name u → u ≠ v → u ≠ staged → lib' !! u = lib !! u) ∧
  ((lib' !! v = lib !! v ∧ r ≠ Ok ()) ∨
   (lib !! v = None ∧ (∃ e, lib' !! v = Some e ∧ checked menv staged archive e) ∧ (r ≠ Ok () → mv_chmod menv = false))).

(** Whatever the archive writes where, a call that succeeds has put its checked executable in a place that was free. *)
Definition moved_ok (menv : moveEnv) (staged archive v : bytes) (lib lib' : library) (r : res ()) : Prop :=
  r = Ok () → lib !! v = None ∧ ∃ e, lib' !! v = Some e ∧ checked menv staged archive e.

Lemma applyWrites_None ws (lib : library) v : applyWrites p ws lib !! v = None → lib !! v = None.
Proof using Type. unfold applyWrites. rewrite map_lookup_imap. by destruct (lib !! v). Qed.

Lemma rename_Ok from to ok (lib lib' : library) : from ≠ to → rename from to ok lib = Ok lib' →
  lib !! to = None ∧ lib' !! to = lib !! from ∧ ∀ u, u ≠ to → u ≠ from → lib' !! u = lib !! u.
Proof using Type.
  intros Hne. unfold rename. destruct (lib !! from) eqn:Ef; [|done]. destruct (lib !! to) eqn:Et; [done|].
  destruct ok; [|done]. intros [= <-]. rewrite lookup_insert_eq. split_and!; [done..|].
  intros u Hu1 Hu2. by rewrite lookup_insert_ne, lookup_delete_ne.
Qed.

Lemma moveStaged_spec menv v staged archive lib : name v → v ≠ staged → confined (mv_performs menv) staged archive →
  moved menv staged archive v lib (moveStaged p menv v staged archive lib).1 (moveStaged p menv v staged archive lib).2.
Proof using Type.
  intros Hnv Hne Hc. unfold moveStaged. pose proof (λ u, applyWrites_confined (mv_performs menv) staged archive lib u Hc) as Hw.
  destruct (untar _ _ _) as [ws extracted] eqn:Eu. cbn [fst] in Hw.
  set (lib1 := applyWrites p ws lib) in *.
  assert (Hkeep : ∀ l : library, (∀ u, name u → u ≠ staged → l !! u = lib !! u) → ∀ r, r ≠ Ok () → moved menv staged archive v lib l r).
  { intros l Hl r Hr. split; [intros u Hnu _ Hu; by apply Hl|]. left. split; [by apply Hl|done]. }
  assert (Hins : ∀ e : exe, (∀ l : library, (∀ u, name u → u ≠ staged → l !! u = lib !! u) → ∀ u, name u → u ≠ staged → <[staged := e]> l !! u = lib !! u)).
  { intros e l Hl u Hnu Hu. rewrite lookup_insert_ne by done. by apply Hl. }
  destruct extracted as [[]|?| |]; cbn [wrap]; try by apply Hkeep.
  destruct (chmod _ _) as [e|?| |]; cbn [wrap]; try by apply Hkeep.
  destruct (patchExecutable menv e) as [e'|?| |]; cbn [wrap]; try (apply Hkeep; [by apply Hins|done]).
  destruct (checkStaged p menv staged e') as [[]|?| |] eqn:Ek; cbn [wrap]; try (apply Hkeep; [by apply Hins, Hins|done]).
  destruct (WaitFor _) as [lib'|?| |] eqn:Er; cbn [wrap]; try (apply Hkeep; [by apply Hins, Hins|done]).
  apply WaitFor_Ok, list_elem_of_In, in_map_iff in Er as (ok & Er & _). apply rename_Ok in Er as (Hn & Hv & Hu); [|done].
  rewrite lookup_insert_ne, lookup_insert_ne, Hw in Hn by done. rewrite lookup_insert_eq in Hv.
  split.
  - intros u Hnu Hu1 Hu2. cbn [fst]. rewrite Hu by done. by apply Hins; [apply Hins|..].
  - right. split; [done|]. split; [|by cbn [snd]; destruct (mv_chmod menv)]. exists e'. split; [done|]. split; [by rewrite Eu|].
    apply WaitFor_Ok, list_elem_of_In, in_map_iff in Ek as (rn & Ek & Hrn). exists rn. by rewrite list_elem_of_In.
Qed.

Lemma moveStaged_ok menv v staged archive lib : v ≠ staged →
  moved_ok menv staged archive v lib (moveStaged p menv v staged archive lib).1 (moveStaged p menv v staged archive lib).2.
Proof using Type.
  intros Hne. unfold moved_ok, moveStaged. destruct (untar _ _ _) as [ws extracted] eqn:Eu.
  set (lib1 := applyWrites p ws lib) in *.
  destruct extracted as [[]|?| |]; cbn [wrap]; try done.
  destruct (chmod _ _) as [e|?| |]; cbn [wrap]; try done.
  destruct (patchExecutable menv e) as [e'|?| |]; cbn [wrap]; try done.
  destruct (checkStaged p menv staged e') as [[]|?| |] eqn:Ek; cbn [wrap]; try done.
  destruct (WaitFor _) as [lib'|?| |] eqn:Er; cbn [wrap]; try done. intros _. cbn [fst].
  apply WaitFor_Ok, list_elem_of_In, in_map_iff in Er as (ok & Er & _). apply rename_Ok in Er as (Hn & Hv & _); [|done].
  rewrite lookup_insert_ne, lookup_insert_ne in Hn by done. rewrite lookup_insert_eq in Hv.
  split; [by apply (applyWrites_None ws)|]. exists e'. split; [done|]. split; [by rewrite Eu|].
  apply WaitFor_Ok, list_elem_of_In, in_map_iff in Ek as (rn & Ek & Hrn). exists rn. by rewrite list_elem_of_In.
Qed.

Lemma moveVerifiedUpdate_ok menv target archive lib :
  let v := versionFromTarget (binary p) target in
  let staged := tempName v (mv_micros menv) in
  let out := moveVerifiedUpdate p menv target archive lib in
  moved_ok menv staged archive v lib out.1 out.2.
Proof using Type.
  intros v staged out. unfold out, moveVerifiedUpdate. fold v staged. destruct (mv_mkdir menv); cbn [negb]; [|done].
  pose proof (tempName_ne v (mv_micros menv)) as Hne. fold staged in Hne.
  pose proof (moveStaged_ok menv v staged archive (mkdir staged lib) (not_eq_sym Hne)) as H.
  destruct (moveStaged p menv v staged archive _) as [lib' r]. unfold moved_ok in *. cbn [fst snd] in *. intros Hr.
  destruct (H Hr) as (H1 & e & H2 & H3). rewrite lookup_mkdir_ne in H1 by done. split; [done|]. exists e. split; [|done].
  destruct (mv_removed menv); [by rewrite lookup_delete_ne|done].
Qed.

Lemma moveVerifiedUpdate_spec menv target archive lib :
  let v := versionFromTarget (binary p) target in
  let staged := tempName v (mv_micros menv) in
  name v → confined (mv_performs menv) staged archive →
  let out := moveVerifiedUpdate p menv target archive lib in
  moved menv staged archive v lib out.1 out.2.
Proof using Type.
  intros v staged Hnv Hc out. unfold out, moveVerifiedUpdate. fold v staged.
  destruct (mv_mkdir menv); cbn [negb].
  - pose proof (tempName_ne v (mv_micros menv)) as Hne. fold staged in Hne.
    pose proof (moveStaged_spec menv v staged archive (mkdir staged lib) Hnv (not_eq_sym Hne) Hc) as [Hu Hv].
    destruct (moveStaged p menv v staged archive _) as [lib' r]. cbn [fst snd] in *.
    assert (Hd : ∀ u, u ≠ staged → (if mv_removed menv then delete staged lib' else lib') !! u = lib' !! u).
    { intros u Hu'. destruct (mv_removed menv); [by rewrite lookup_delete_ne|done]. }
    split.
    + intros u Hnu Hu1 Hu2. rewrite Hd, Hu, lookup_mkdir_ne by done. done.
    + rewrite Hd by done. rewrite lookup_mkdir_ne in Hv by done. exact Hv.
  - split; [done|]. by left.
Qed.

Lemma stage_spec senv target m lib :
  let st := tempName (bs "staged-updates-" ++ versionFromTarget (binary p) target) (st_micros senv) in
  let '(lib', path, r) := stageAndVerifyUpdate p senv target m lib in
  (∀ u, u ≠ st → lib' !! u = lib !! u) ∧ (path = None ∨ path = Some st) ∧
  (∀ archive, r = Ok archive → verified senv m archive).
Proof using Type.
  intros st. unfold stageAndVerifyUpdate. fold st. destruct (negb (st_mkdir senv)); [split_and!; [done|by left|done]|].
  pose proof (download_verified senv m) as Hd.
  destruct (download senv m) as [a|e| |];
    [destruct (negb (st_create senv)); [|destruct (negb (st_write senv)); [|destruct (negb (st_close senv))]]|..];
    (split_and!; [by intros u Hu; apply lookup_mkdir_ne|first [by left|by right]|intros ar Har; simplify_eq; by auto]).
Qed.

(** What a call does to the library, in every case *)
Lemma AddToLibrary_spec runs senv menv cur target m lib :
  let v := versionFromTarget (binary p) target in
  let st1 := tempName (bs "staged-updates-" ++ v) (st_micros senv) in
  let st2 := tempName v (mv_micros menv) in
  name v →
  let '(lib', r) := AddToLibrary p runs senv menv cur target m lib in
  let installed := lib !! v = None ∧
    ∃ archive e, verified senv m archive ∧ checked menv st2 archive e ∧ lib' !! v = Some e in
  (r = Ok () → cur = v ∨ Available p runs lib target = true ∨ installed) ∧
  ((∀ archive, ¬ verified senv m archive) → ∀ u, u ≠ st1 → lib' !! u = lib !! u) ∧
  ((∀ archive, verified senv m archive → confined (mv_performs menv) st2 archive) →
     (∀ u, name u → u ≠ v → u ≠ st1 → u ≠ st2 → lib' !! u = lib !! u) ∧
     (lib' !! v = lib !! v ∨ installed) ∧
     (r ≠ Ok () → lib' !! v = lib !! v ∨ (installed ∧ mv_chmod menv = false))).
Proof using Type.
  intros v st1 st2 Hnv. unfold AddToLibrary. fold v. case_bool_decide as Hcur; [by split_and!; auto|].
  destruct (Available p runs lib target) eqn:Ha; [by split_and!; auto|].
  pose proof (stage_spec senv target m lib) as Hs. fold v st1 in Hs.
  destruct (stageAndVerifyUpdate p senv target m lib) as [[lib1 path] staged]. destruct Hs as (Hs & Hp & Hv).
  pose proof (tempName_staged_ne v (st_micros senv)) as Hst1. fold st1 in Hst1.
  set (F := λ l : library, match path with Some d => if st_removed senv then delete d l else l | None => l end).
  assert (Hrem : ∀ l u, u ≠ st1 → F l !! u = l !! u).
  { intros l u Hu. unfold F. destruct Hp as [-> | ->]; [done|].
    destruct (st_removed senv); [by rewrite lookup_delete_ne|done]. }
  assert (Hfin : ∀ l (r : res ()), match path with
      Some d => (if st_removed senv then delete d l else l, r) | None => (l, r) end = (F l, r))
    by (intros l r; unfold F; by destruct path).
  destruct staged as [archive|?| |]; cbn [wrap].
  2-4: rewrite Hfin; split_and!; [done|intros _ u Hu; by rewrite Hrem, Hs|intros _; split_and!;
    [intros u ? ? ? ?; by rewrite Hrem, Hs|left; by rewrite Hrem, Hs|intros _; left; by rewrite Hrem, Hs]].
  specialize (Hv archive eq_refl).
  pose proof (moveVerifiedUpdate_ok menv target archive lib1) as Hok. cbv zeta in Hok. fold v st2 in Hok.
  pose proof (moveVerifiedUpdate_spec menv target archive lib1 Hnv) as Hm. cbv zeta in Hm. fold v st2 in Hm.
  destruct (moveVerifiedUpdate p menv target archive lib1) as [lib2 r]. cbn [fst snd] in Hm, Hok. rewrite Hfin. split_and!.
  - intros Hr%wrap_Ok. right; right. destruct (Hok Hr) as (H1 & e & H2 & H3). rewrite Hs in H1 by done.
    split; [done|]. exists archive, e. by rewrite Hrem.
  - intros Hno. by destruct (Hno archive).
  - intros Hc. destruct (Hm (Hc archive Hv)) as [Hu Hm']. rewrite (Hs v) in Hm' by done.
    assert (Hcase : (lib2 !! v = lib !! v ∧ r ≠ Ok ()) ∨ ((lib !! v = None ∧ ∃ archive e, verified senv m archive ∧
      checked menv st2 archive e ∧ F lib2 !! v = Some e) ∧ (r ≠ Ok () → mv_chmod menv = false))).
    { destruct Hm' as [Hm'|(H1 & (e & H2 & H3) & H4)]; [by left|right]. split; [|done]. split; [done|].
      exists archive, e. by rewrite Hrem. }
    split_and!.
    + intros u ? ? ? ?. by rewrite Hrem, Hu, Hs.
    + destruct Hcase as [[H1 _]|[H1 _]]; [left; by rewrite Hrem|by right].
    + intros Hr. destruct Hcase as [[H1 _]|[H1 H2]]; [left; by rewrite Hrem|right]. split; [done|]. apply H2. intros ->. by apply Hr.
Qed.

(** C3: A call succeeds only if the version runs already, is in the library, or has been put where nothing was, as the
    executable of an archive that agrees with the metadata of the repository, extracted without an error and passed its
    check.  If no download agrees with the metadata, nothing changes but the staging directory.  And as long as no
    entry of a verified archive escapes from the directory it is extracted to ([untar_escapes] has one that
    does), no other version is touched, and the target is as it was or has been installed so; after an error
    it is as it was, unless all that failed was setting the permissions of the installed directory. *)
Theorem AddToLibrary_verified runs senv menv cur target m lib :
  let v := versionFromTarget (binary p) target in
  let st1 := tempName (bs "staged-updates-" ++ v) (st_micros senv) in
  let st2 := tempName v (mv_micros menv) in
  name v →
  let '(lib', r) := AddToLibrary p runs senv menv cur target m lib in
  let installed := lib !! v = None ∧
    ∃ archive e, verified senv m archive ∧ checked menv st2 archive e ∧ lib' !! v = Some e in
  (r = Ok () → cur = v ∨ Available p runs lib target = true ∨ installed) ∧
  ((∀ archive, ¬ verified senv m archive) → ∀ u, u ≠ st1 → lib' !! u = lib !! u) ∧
  ((∀ archive, verified senv m archive → confined (mv_performs menv) st2 archive) →
     (∀ u, name u → u ≠ v → u ≠ st1 → u ≠ st2 → lib' !! u = lib !! u) ∧
     (lib' !! v = lib !! v ∨ installed) ∧
     (r ≠ Ok () → lib' !! v = lib !! v ∨ (installed ∧ mv_chmod menv = false))).
Proof using Type. exact (AddToLibrary_spec runs senv menv cur target m lib). Qed.

(** A version whose executable does not check out is never repaired: whatever is downloaded, the
    new directory cannot replace the old one, so every call fails until the library is tidied. *)
Theorem AddToLibrary_stuck runs senv menv cur target m lib e :
  let v := versionFromTarget (binary p) target in
  name v → (∀ archive, verified senv m archive → confined (mv_performs menv) (tempName v (mv_micros menv)) archive) →
  lib !! v = Some e → cur ≠ v → Available p runs lib target = false →
  (AddToLibrary p runs senv menv cur target m lib).2 ≠ Ok () ∧
  (AddToLibrary p runs senv menv cur target m lib).1 !! v = Some e.
Proof using Type.
  intros v Hnv Hc He Hcur Ha. unfold AddToLibrary. fold v. rewrite bool_decide_eq_false_2, Ha by done.
  pose proof (stage_spec senv target m lib) as Hs. fold v in Hs.
  pose proof (tempName_staged_ne v (st_micros senv)) as Hst1.
  destruct (stageAndVerifyUpdate p senv target m lib) as [[lib1 path] staged]. destruct Hs as (Hs & Hp & Hv).
  assert (Hrem : ∀ (l : library) (r : res ()), r ≠ Ok () → l !! v = Some e →
    match path with Some d => (if st_removed senv then delete d l else l, r) | None => (l, r) end.2 ≠ Ok () ∧
    match path with Some d => (if st_removed senv then delete d l else l, r) | None => (l, r) end.1 !! v = Some e).
  { intros l r Hr Hl. destruct Hp as [-> | ->]; [done|]. split; [done|]. cbn [fst].
    destruct (st_removed senv); [by rewrite lookup_delete_ne|done]. }
  destruct staged as [archive|?| |]; cbn [wrap]; try (apply Hrem; [done|by rewrite Hs]).
  pose proof (moveVerifiedUpdate_spec menv target archive lib1 Hnv (Hc _ (Hv _ eq_refl))) as [_ Hm]. fold v in Hm.
  destruct (moveVerifiedUpdate p menv target archive lib1) as [lib2 r]. cbn [fst snd] in Hm. rewrite Hs, He in Hm by done.
  destruct Hm as [[Hm Hr]|[? _]]; [|done]. apply Hrem; [|done]. by intros Hr'%wrap_Ok.
Qed.
End Adding.

End Tuf.

(** ** Concrete parameters, and the theorems on them *)
Module TufExamples.
Import Tuf.

(** Versions of three small numbers, with prereleases in the order of their bytes *)
Record ver := Ver { nums : list Z; pre : bytes; orig : bytes }.

Definition parseVer (s : bytes) : option ver :=
  let '(core, pre) := match cut (bs "-") s with Some (a, b) => (a, b) | None => (s, []) end in
  match cut (bs ".") core with
  | Some (a, r) =>
      match cut (bs ".") r with
      | Some (b, c) =>
          match Atoi a, Atoi b, Atoi c with
          | Some x, Some y, Some z => Some (Ver [x; y; z] pre s)
          | _, _, _ => None
          end
      | None => None
      end
  | None => None
  end.

Definition verKey (v : ver) : bytes := map Z_byte (nums v) ++ (if is_empty (pre v) then [xff] else x00 :: pre v).

#[export] Instance ver_semver : Semver := {|
  version := ver;
  NewVersion := parseVer;
  Original := orig;
  Prerelease := pre;
  SetPrerelease v p := Some (Ver (nums v) p
    (join (bs ".") (map itoa (nums v)) ++ (if is_empty p then [] else bs "-" ++ p)));
  VCompare v w := bytes_compare (verKey v) (verKey w)
|}.

#[export] Instance ver_laws : SemverLaws.
Proof.
  split; cbn [VCompare ver_semver].
  - intros s v. cbn [NewVersion ver_semver version Original]. unfold parseVer.
    destruct (cut (bs "-") s) as [[a b]|];
      (destruct (cut (bs ".") _) as [[c d]|]; [|done]; destruct (cut (bs ".") d) as [[e f]|]; [|done];
       destruct (Atoi c), (Atoi e), (Atoi f); try done; by intros [= <-]).
  - intros v w. apply bytes_compare_antisym.
  - intros u v w. apply bytes_compare_trans.
Qed.

(** Metadata that holds the file itself; the custom part is the name of a target *)
Record meta := Meta { m_data : bytes; m_custom : option bytes }.

#[export] Instance meta_tuf : TufMeta := {|
  fileMeta := meta;
  Length m := len (m_data m);
  HashAlgorithms _ := [];
  Custom := m_custom;
  GenerateTargetFileMeta d _ := Some (Meta d None);
  TargetFileMetaEqual a b := bool_decide (m_data a = m_data b);
  unmarshalCustom raw := Some (raw, 100)
|}.

(** An archive of one file with the given name *)
Definition one_file (n : bytes) : Archive := {| tarEntries s := ([TarEntry n 0x1ed s], None) |}.

Definition ok_exe : exe := ExeFile 0x1ed (bs "x").
Definition lib5 : library :=
  list_to_map (map (λ v, (v, ok_exe)) [bs "1.0.3"; bs "1.0.1"; bs "1.0.16-30-gabc"; bs "0.13.6"]) ∪
  {[ bs "junk" := NoExe; bs "2.0.0" := ExeFile 0x1a4 [] ]}.
Definition place1 : place := Place (bs "/usr/bin/launcher") binaryLauncher (bs "/u").
Definition always (_ : bytes) (_ : nat) : run := RunOk.

Lemma canonical_all (lib : library) :
  forallb (λ raw, match NewVersion raw with
     | Some v => bool_decide (Original (swapPrerelease (bs ".") (bs "-") (swapPrerelease (bs "-") (bs ".") v)) = raw)
     | None => true end) (names lib) = true →
  ∀ raw, raw ∈ names lib → canonical raw.
Proof.
  intros H raw Hraw v Hv. rewrite forallb_forall in H. specialize (H raw). rewrite Hv in H.
  apply (bool_decide_eq_true_1 _), H. by apply list_elem_of_In.
Qed.

Example sorted5 : sortedVersionsInLibrary place1 always lib5 =
  (map bs ["0.13.6"; "1.0.1"; "1.0.3"; "1.0.16-30-gabc"], [bs "2.0.0"; bs "junk"]).
Proof. vm_compute. reflexivity. Qed.

Lemma untar_inside_witness : ∃ q, q ≠ [] ∧ Forall name q ∧
  bs "/d/e/launcher" = render true (q ++ [bs "e"; bs "d"]).
Proof.
  apply (untar_inside (AR := one_file (bs "launcher")) (λ _, true) [bs "e"; bs "d"] (bs "data")
    ltac:(repeat constructor; vm_compute; (done || set_solver)) ltac:(done)
    ltac:(intros h Hh; apply list_elem_of_singleton in Hh as ->; vm_compute; set_solver)
    (WFile (bs "/d/e/launcher") 0x1ed (bs "data"))).
  vm_compute. left.
Defined.

Lemma untar_escapes_witness :
  untar (AR := one_file (bs "../evil")) (λ _, true) (bs "/d/e") (bs "data") =
    ([WFile (bs "/d/evil") 0x1ed (bs "data")], Ok ()).
Proof.
  apply (untar_escapes (AR := one_file (bs "../evil")) (λ _, true) (bs "e") [bs "d"] (bs "evil") 0x1ed (bs "data") (bs "data")).
  - repeat constructor; vm_compute; (done || set_solver).
  - repeat constructor; vm_compute; (done || set_solver).
  - reflexivity.
  - done.
  - reflexivity.
Defined.

Lemma TidyLibrary_keeps_witness : ∃ keep : list bytes, bs "1.0.1" ∈ keep ∧
  ∃ w, w ∈ validNames place1 always lib5 ∧ w ≠ bs "1.0.1" ∧ older (bs "1.0.3") w.
Proof.
  destruct (TidyLibrary_keeps place1 always lib5 (λ _, true) (bs "1.0.1") ltac:(done)) as (keep & _ & _ & H1 & _ & H2).
  exists keep. split.
  - apply H1. apply list_elem_of_In. vm_compute. tauto.
  - destruct H2 as (w & Hw & Hne & _ & Hold);
      [vm_compute; lia|intros raw [_ Hraw]%list_elem_of_filter; revert raw Hraw; apply canonical_all; vm_compute; reflexivity|]. exists w. split_and!; [done..|].
    destruct (decide (bs "1.0.3" = w)) as [<-|]; [|apply Hold; [apply list_elem_of_In; vm_compute; tauto|done|done]].
    eexists _, _. split_and!; [reflexivity..|vm_compute; done].
Defined.

Definition linux : host := Host (bs "linux") (bs "amd64") (bs "/usr/bin/launcher").

Definition repository : targetFiles (TM := meta_tuf) :=
  ({[ bs "launcher/linux/amd64/stable/release.json" := Meta [] (Some (bs "launcher/linux/amd64/launcher-1.0.1.tar.gz"));
     bs "launcher/linux/amd64/launcher-1.0.1.tar.gz" := Meta (bs "x") None;
     bs "launcher/linux/amd64/launcher-1.0.3.tar.gz" := Meta (bs "y") None ]} : gmap bytes meta).

Example lookups :
  CheckOutLatest linux place1 always always lib5 (Ok repository) [] (bs "stable") =
    Ok (UpdateInfo (bs "/u/launcher/1.0.1/launcher") (bs "1.0.1")) ∧
  CheckOutLatest linux place1 always always lib5 (Ok repository) (bs "1.0.3") (bs "stable") =
    Ok (UpdateInfo (bs "/u/launcher/1.0.3/launcher") (bs "1.0.3")) ∧
  CheckOutLatest linux place1 always always lib5 (Err EOF) [] (bs "nightly") =
    Ok (UpdateInfo (bs "/u/launcher/1.0.16-30-gabc/launcher") (bs "1.0.16-30-gabc")) ∧
  CheckOutLatest linux place1 always always lib5 (Err EOF) [] (bs "stable") =
    Err (Errorf "most recent version %s for binary launcher is not newer than required %s").
Proof. vm_compute. done. Qed.

Lemma CheckOutLatest_chooses_witness :
  CheckOutLatest linux place1 always always lib5 (Ok repository) [] (bs "stable") = Ok (info place1 (bs "1.0.1")).
Proof.
  apply (CheckOutLatest_chooses linux place1 lib5 always always (Ok repository) [] (bs "stable")).
  split; vm_compute; reflexivity.
Defined.

(** A prerelease with a period comes back with a hyphen: the directory it names does not exist. *)
Example dotted_prerelease_lost :
  let lib : library := {[ bs "1.2.3-rc.1" := ok_exe ]} in
  mostRecentVersion place1 always lib (bs "beta") =
    Ok (UpdateInfo (bs "/u/launcher/1.2.3-rc-1/launcher") (bs "1.2.3-rc-1")) ∧
  lib !! bs "1.2.3-rc-1" = None.
Proof. vm_compute. done. Qed.

Definition stage1 : stageEnv := StageEnv 17 true true (Some (bs "x", false)) true true true true.
Definition move1 : moveEnv := MoveEnv 18 true (λ _, true) Ok [λ _, RunOk] [true] true true.

#[local] Instance one_launcher : Archive := one_file (bs "launcher").

Lemma name_check c : (c ≠ [] ∧ c ≠ dot ∧ c ≠ dotdot ∧ forallb (λ b, negb (b =b Separator)) c = true) → name c.
Proof.
  intros (? & ? & ? & H). split; [split_and!; [done..|]|done]. rewrite forallb_forall in H. intros Hs.
  apply list_elem_of_In, H in Hs. by rewrite eqb_refl in Hs.
Qed.

Lemma confined1 v : name v → ∀ archive, confined place1 (mv_performs move1) v archive.
Proof.
  intros Hv archive. apply (confined_inside place1 _ [bs "u"]); [|reflexivity|done|].
  - constructor; [by apply name_check|done].
  - intros h Hh. apply list_elem_of_singleton in Hh as ->. vm_compute. set_solver.
Qed.

Definition m1 : @fileMeta meta_tuf := Meta (bs "x") None.

Lemma AddToLibrary_verified_witness :
  let '(lib', r) := AddToLibrary place1 always stage1 move1 [] (bs "launcher-1.0.4.tar.gz") m1 lib5 in
  r = Ok () ∧ ∃ archive e, verified stage1 m1 archive ∧ lib' !! bs "1.0.4" = Some e.
Proof.
  pose proof (AddToLibrary_verified place1 always stage1 move1 [] (bs "launcher-1.0.4.tar.gz") m1 lib5
    ltac:(by apply name_check)) as H.
  assert (Hr : (AddToLibrary place1 always stage1 move1 [] (bs "launcher-1.0.4.tar.gz") m1 lib5).2 = Ok ())
    by (vm_compute; reflexivity).
  destruct (AddToLibrary _ _ _ _ _ _ _ _) as [lib' r]. cbn [snd] in Hr. split; [done|].
  destruct H as (H & _ & _). destruct (H Hr) as [Hc|[Ha|(_ & archive & e & Hv & _ & He)]].
  - by vm_compute in Hc.
  - by vm_compute in Ha.
  - by exists archive, e.
Defined.

Lemma AddToLibrary_stuck_witness :
  (AddToLibrary place1 always stage1 move1 [] (bs "launcher-2.0.0.tar.gz") m1 lib5).2 ≠ Ok ().
Proof.
  apply (AddToLibrary_stuck place1 always stage1 move1 [] (bs "launcher-2.0.0.tar.gz") m1 lib5
    (ExeFile 0x1a4 [])).
  - by apply name_check.
  - intros archive _. apply confined1. by apply name_check.
  - vm_compute. reflexivity.
  - done.
  - vm_compute. reflexivity.
Defined.

(** When the archive cannot be created, the staging directory stays. *)
Example staging_left_behind :
  let env := StageEnv 17 true true (Some (bs "x", false)) false true true true in
  let '(lib', r) := AddToLibrary place1 always env move1 [] (bs "launcher-1.0.4.tar.gz") m1 lib5 in
  succeeds r = false ∧ lib' !! bs "staged-updates-1.0.4-17" = Some NoExe.
Proof. vm_compute. done. Qed.

(** The flag for the hostname is parsed, but the configuration does not keep it. *)
Example hostname_flag_dropped (files : bytes → configFile) :
  let fl f := if bool_decide (f = bs "config") then [] else f in
  getAutoupdateConfig (PF := {| parseFlags _ := Some fl |}) files (λ _, Ok []) [bs "-hostname"; bs "hostname"] =
    Ok (Config (bs "root_directory") (bs "update_directory") (bs "update_channel") (bs "localdev_path") [] (bs "identifier")).
Proof. vm_compute. reflexivity. Qed.
End TufExamples.
