(* ===== verification/Autoupdate.v ===== *)
(** * ee/tuf/autoupdate.go: the autoupdater

    [TufAutoupdater] checks for new releases, adds them to the update library and restarts what was
    updated, but not before an initial delay is over.  The library is behind the [Librarian]
    interface of the source; the metadata, the clock, the running versions and the outcome of
    restarts are arguments of each operation. *)
From S2P Require Import Prelude Strings Paths TufLibrary.
Import Tuf.
Set Warnings "-clear-no-such-hyp".

(** The interface [librarian]; [E] is what the host answers in the course of a call *)
Class Librarian (L E : Type) `{TM : TufMeta} := {
  lib_Available : E → L → autoupdatableBinary → bytes → bool;
  lib_AddToLibrary : E → L → autoupdatableBinary → bytes → bytes → fileMeta → L * res ();
  lib_TidyLibrary : E → L → autoupdatableBinary → bytes → L
}.
Arguments Librarian L E {TM}.

(** What the autoupdater relies on.  The library [holds] a version once it is available or has been
    added, and no addition removes it; [proper] versions are not blank and not the names of
    staging directories, and a [sane] host serves archives that stay in their directory. *)
Class LibrarianLaws (L E : Type) `{LB : Librarian L E} := {
  proper : bytes → Prop;
  sane : E → Prop;
  holds : L → autoupdatableBinary → bytes → Prop;
  proper_not_blank : ∀ v, proper v → v ≠ [];
  Available_holds : ∀ e l b t, proper (versionFromTarget b t) →
    lib_Available e l b t = true → holds l b (versionFromTarget b t);
  Add_holds : ∀ e l b cur t m, sane e → proper (versionFromTarget b t) → cur ≠ versionFromTarget b t →
    (lib_AddToLibrary e l b cur t m).2 = Ok () →
    holds (lib_AddToLibrary e l b cur t m).1 b (versionFromTarget b t);
  Add_keeps : ∀ e l b cur t m b' v, sane e → proper (versionFromTarget b t) → proper v → holds l b' v →
    holds (lib_AddToLibrary e l b cur t m).1 b' v
}.
Arguments LibrarianLaws L E {TM LB}.

Module Autoupdate.

(** The flags the autoupdater reads from the knapsack *)
Record flags := Flags {
  k_UpdateChannel : bytes;
  k_Pinned : autoupdatableBinary → bytes;
  k_DownloadSplay : Z;        (* durations in nanoseconds *)
  k_Interval : Z;
  k_InitialDelay : Z;
  k_LocalDevelopmentPath : bytes;
  k_InModernStandby : bool
}.

Inductive FlagKey := UpdateChannel | PinnedLauncherVersion | PinnedOsquerydVersion
| AutoupdateDownloadSplay | AutoupdateInterval | AutoupdateInitialDelay.
#[export] Instance FlagKey_eq_dec : EqDecision FlagKey.
Proof. solve_decision. Defined.

Section Autoupdater.
Context {L E : Type} `{LB : Librarian L E} (h : host).

(** Times are in nanoseconds.  The two channels hold what has been sent and not received. *)
Record TufAutoupdater := Ta {
  libraryManager : L;
  updateChannel : bytes;
  pinnedVersions : autoupdatableBinary → bytes;
  initialDelayStart : Z;
  initialDelayEnd : Z;
  initialDelayTimer : option Z;         (* when it fires; None before Execute and once it has fired *)
  checkTicker : option Z;
  interrupt : nat;
  interrupted : bool;
  signalRestart : list bytes;
  osquerydRestart : bool;               (* restartFuncs holds a function for osqueryd *)
  calculatedSplayDelay : Z;             (* seconds *)
  pendingRestartLauncherVersion : bytes;
  pendingRestartOsquerydVersion : bytes
}.

Definition with_library (l : L) (ta : TufAutoupdater) : TufAutoupdater :=
  Ta l (updateChannel ta) (pinnedVersions ta) (initialDelayStart ta) (initialDelayEnd ta) (initialDelayTimer ta)
    (checkTicker ta) (interrupt ta) (interrupted ta) (signalRestart ta) (osquerydRestart ta) (calculatedSplayDelay ta)
    (pendingRestartLauncherVersion ta) (pendingRestartOsquerydVersion ta).
Definition with_channel (c : bytes) (ta : TufAutoupdater) : TufAutoupdater :=
  Ta (libraryManager ta) c (pinnedVersions ta) (initialDelayStart ta) (initialDelayEnd ta) (initialDelayTimer ta)
    (checkTicker ta) (interrupt ta) (interrupted ta) (signalRestart ta) (osquerydRestart ta) (calculatedSplayDelay ta)
    (pendingRestartLauncherVersion ta) (pendingRestartOsquerydVersion ta).
Definition with_pinned (b : autoupdatableBinary) (v : bytes) (ta : TufAutoupdater) : TufAutoupdater :=
  Ta (libraryManager ta) (updateChannel ta) (λ b', if bool_decide (b' = b) then v else pinnedVersions ta b')
    (initialDelayStart ta) (initialDelayEnd ta) (initialDelayTimer ta)
    (checkTicker ta) (interrupt ta) (interrupted ta) (signalRestart ta) (osquerydRestart ta) (calculatedSplayDelay ta)
    (pendingRestartLauncherVersion ta) (pendingRestartOsquerydVersion ta).
Definition with_delay (stop : Z) (timer : option Z) (ta : TufAutoupdater) : TufAutoupdater :=
  Ta (libraryManager ta) (updateChannel ta) (pinnedVersions ta) (initialDelayStart ta) stop timer
    (checkTicker ta) (interrupt ta) (interrupted ta) (signalRestart ta) (osquerydRestart ta) (calculatedSplayDelay ta)
    (pendingRestartLauncherVersion ta) (pendingRestartOsquerydVersion ta).
Definition with_ticker (t : option Z) (ta : TufAutoupdater) : TufAutoupdater :=
  Ta (libraryManager ta) (updateChannel ta) (pinnedVersions ta) (initialDelayStart ta) (initialDelayEnd ta) (initialDelayTimer ta)
    t (interrupt ta) (interrupted ta) (signalRestart ta) (osquerydRestart ta) (calculatedSplayDelay ta)
    (pendingRestartLauncherVersion ta) (pendingRestartOsquerydVersion ta).
Definition with_interrupt (n : nat) (i : bool) (ta : TufAutoupdater) : TufAutoupdater :=
  Ta (libraryManager ta) (updateChannel ta) (pinnedVersions ta) (initialDelayStart ta) (initialDelayEnd ta) (initialDelayTimer ta)
    (checkTicker ta) n i (signalRestart ta) (osquerydRestart ta) (calculatedSplayDelay ta)
    (pendingRestartLauncherVersion ta) (pendingRestartOsquerydVersion ta).
Definition with_signals (s : list bytes) (ta : TufAutoupdater) : TufAutoupdater :=
  Ta (libraryManager ta) (updateChannel ta) (pinnedVersions ta) (initialDelayStart ta) (initialDelayEnd ta) (initialDelayTimer ta)
    (checkTicker ta) (interrupt ta) (interrupted ta) s (osquerydRestart ta) (calculatedSplayDelay ta)
    (pendingRestartLauncherVersion ta) (pendingRestartOsquerydVersion ta).
Definition with_splay (d : Z) (ta : TufAutoupdater) : TufAutoupdater :=
  Ta (libraryManager ta) (updateChannel ta) (pinnedVersions ta) (initialDelayStart ta) (initialDelayEnd ta) (initialDelayTimer ta)
    (checkTicker ta) (interrupt ta) (interrupted ta) (signalRestart ta) (osquerydRestart ta) d
    (pendingRestartLauncherVersion ta) (pendingRestartOsquerydVersion ta).
Definition with_pending (lv ov : bytes) (ta : TufAutoupdater) : TufAutoupdater :=
  Ta (libraryManager ta) (updateChannel ta) (pinnedVersions ta) (initialDelayStart ta) (initialDelayEnd ta) (initialDelayTimer ta)
    (checkTicker ta) (interrupt ta) (interrupted ta) (signalRestart ta) (osquerydRestart ta) (calculatedSplayDelay ta) lv ov.

Definition NewTufAutoupdater (startTime : Z) (k : flags) (restart : bool) (l : L) : TufAutoupdater :=
  Ta l (k_UpdateChannel k) (k_Pinned k) startTime (startTime + k_InitialDelay k) None None 0 false [] restart 0 [] [].

(** ** The running versions *)

(** The version of launcher; the statistics of the latest osquery instance, if there is a history and
    it has them; and what running osqueryd prints *)
Record runningEnv := RunningEnv {
  launcherVersion : bytes;
  latestInstanceStats : option (gmap bytes bytes);
  osqueryOutput : res bytes
}.

(** What follows the last occurrence of [sep] *)
Fixpoint after_last (fuel : nat) (sep s : bytes) : option bytes :=
  match cut sep s with
  | None => None
  | Some (_, rest) =>
      match fuel with
      | S fuel' => match after_last fuel' sep rest with Some r => Some r | None => Some rest end
      | O => Some rest
      end
  end.

Definition currentRunningVersion (env : runningEnv) (binary : autoupdatableBinary) : res bytes :=
  match binary with
  | binaryLauncher =>
      if bool_decide (launcherVersion env = bs "unknown") then Err (Errorf "unknown launcher version")
      else Ok (launcherVersion env)
  | binaryOsqueryd =>
      let recorded := (latestInstanceStats env) ≫= (.!! bs "version") in
      match recorded with
      | Some ((_ :: _) as runningVersion) => Ok runningVersion
      | _ =>
          output ← wrap "running runsimple to query for osqueryd version: %w" (osqueryOutput env);
          let outputStr := TrimSpace output in
          match after_last (length outputStr) (bs "version") outputStr with
          | None => Err (Errorf "malformed osqueryd version output %s")
          | Some part => Ok (TrimSpace part)
          end
      end
  end.

(** ** Downloading *)

(** What is answered while the update of one binary is looked for; the clock and the random
    number are those of the splay *)
Record downloadEnv := DownloadEnv {
  dl_running : runningEnv;
  dl_now : Z;
  dl_rand : Z;
  dl_library : E
}.

Definition Second : Z := 10 ^ 9.

(** [rand.Int63n] *)
Definition Int63n (n r : Z) : res Z := if n <=? 0 then Panic else Ok (r mod n).

Definition getSplayDelaySeconds (k : flags) (r : Z) (ta : TufAutoupdater) : res (TufAutoupdater * Z) :=
  if negb (calculatedSplayDelay ta =? 0) then Ok (ta, calculatedSplayDelay ta)
  else
    let maxSplayValue := Z.quot (k_DownloadSplay k) Second in
    if maxSplayValue =? 0 then Ok (ta, 0)
    else
      n ← Int63n maxSplayValue r;
      Ok (with_splay (n + 1) ta, n + 1).

Definition shouldDelayDownload (k : flags) (env : downloadEnv) (ta : TufAutoupdater)
    (binary : autoupdatableBinary) (targets : targetFiles) : res (TufAutoupdater * bool) :=
  if k_DownloadSplay k =? 0 then Ok (ta, false)
  else
    let releasePromotedAt := findReleasePromoteTime h binary targets (updateChannel ta) in
    if releasePromotedAt =? 0 then Ok (ta, false)
    else if k_DownloadSplay k <? dl_now env - releasePromotedAt * Second then Ok (ta, false)
    else
      '(ta, splayDelaySeconds) ← getSplayDelaySeconds k (dl_rand env) ta;
      Ok (ta, dl_now env <? (releasePromotedAt + splayDelaySeconds) * Second).

(** The target that was downloaded or is to be loaded, blank when there is none *)
Definition downloadUpdate (k : flags) (env : downloadEnv) (ta : TufAutoupdater) (binary : autoupdatableBinary)
    (targets : targetFiles) (allowDelay : bool) : TufAutoupdater * res bytes :=
  match wrap "could not find appropriate target: %w"
          (findTarget h binary targets (pinnedVersions ta binary) (updateChannel ta)) with
  | Ok (target, targetMetadata) =>
      let currentVersion :=
        match currentRunningVersion (dl_running env) binary with Ok v => v | _ => [] end in
      if bool_decide (currentVersion = versionFromTarget binary target) then (ta, Ok [])
      else if lib_Available (dl_library env) (libraryManager ta) binary target then
        if is_empty currentVersion then (ta, Ok [])
        else if bool_decide (binary = binaryLauncher) && negb (is_empty (k_LocalDevelopmentPath k)) then (ta, Ok [])
        else (ta, Ok target)
      else
        match (if allowDelay then shouldDelayDownload k env ta binary targets else Ok (ta, false)) with
        | Ok (ta, true) => (ta, Ok [])
        | Ok (ta, false) =>
            let '(l, r) :=
              lib_AddToLibrary (dl_library env) (libraryManager ta) binary currentVersion target targetMetadata in
            (with_library l ta, _ ← wrap "could not add target %s for binary %s to library: %w" r; Ok target)
        | r => (ta, _ ← r; Ok [])
        end
  | r => (ta, _ ← r; Ok [])
  end.

(** ** Checking for updates *)

(** A restart: launcher asked to reload, through the error [Execute] returns or the channel it
    reads, or the function called that restarts osqueryd *)
Inductive effect :=
| ReloadLauncher (v : bytes)
| RestartOsqueryd (v : bytes).

Inductive outcome :=
| Returned (e : option err)
| Panicked
| Blocked.    (* on a full channel, with the lock held *)

(** What is answered in the course of a check: the tries to refresh the metadata, the targets,
    the downloads, and the clock when a restart is considered *)
Record checkEnv := CheckEnv {
  ce_update : nat → bool;
  ce_targets : res targetFiles;
  ce_download : autoupdatableBinary → downloadEnv;
  ce_now : Z
}.

Definition updateTryCount : nat := 3.

(** The loop over the binaries: the versions to load and the errors *)
Fixpoint downloadUpdates (k : flags) (env : checkEnv) (targets : targetFiles) (allowSplayDelay : bool)
    (binariesToCheck : list autoupdatableBinary) (ta : TufAutoupdater)
    (updatesDownloaded : autoupdatableBinary → option bytes) (updateErrors : list err)
    : TufAutoupdater * res ((autoupdatableBinary → option bytes) * list err) :=
  match binariesToCheck with
  | [] => (ta, Ok (updatesDownloaded, updateErrors))
  | binary :: binariesToCheck' =>
      let '(ta, r) := downloadUpdate k (ce_download env binary) ta binary targets allowSplayDelay in
      match r with
      | Ok [] => downloadUpdates k env targets allowSplayDelay binariesToCheck' ta updatesDownloaded updateErrors
      | Ok downloadedUpdateVersion =>
          let v := versionFromTarget binary downloadedUpdateVersion in
          downloadUpdates k env targets allowSplayDelay binariesToCheck' ta
            (λ b, if bool_decide (b = binary) then Some v else updatesDownloaded b) updateErrors
      | Err e =>
          downloadUpdates k env targets allowSplayDelay binariesToCheck' ta updatesDownloaded
            (updateErrors ++ [Wrapf "could not download update for %s: %w" e])
      | Panic => (ta, Panic)
      | NoFuel => (ta, NoFuel)
      end
  end.

(** The restarts that a check leads to *)
Definition restartUpdated (k : flags) (inInitialDelay : bool) (updatesDownloaded : autoupdatableBinary → option bytes)
    (ta : TufAutoupdater) : TufAutoupdater * list effect * outcome :=
  match updatesDownloaded binaryLauncher, is_empty (k_LocalDevelopmentPath k) with
  | Some updatedVersion, true =>
      if inInitialDelay then
        (with_pending updatedVersion (pendingRestartOsquerydVersion ta) ta, [], Returned None)
      else if (length (signalRestart ta) <? 10)%nat then
        (with_signals (signalRestart ta ++ [updatedVersion]) ta, [ReloadLauncher updatedVersion], Returned None)
      else (ta, [], Blocked)
  | _, _ =>
      match updatesDownloaded binaryOsqueryd with
      | None => (ta, [], Returned None)
      | Some newBinaryVersion =>
          if inInitialDelay then
            (with_pending (pendingRestartLauncherVersion ta) newBinaryVersion ta, [], Returned None)
          else (ta, if osquerydRestart ta then [RestartOsqueryd newBinaryVersion] else [], Returned None)
      end
  end.

Definition checkForUpdate (k : flags) (env : checkEnv) (binariesToCheck : list autoupdatableBinary)
    (allowSplayDelay bypassInitialDelay : bool) (ta : TufAutoupdater) : TufAutoupdater * list effect * outcome :=
  if k_InModernStandby k then (ta, [], Returned None)
  else if negb (existsb (ce_update env) (seq 0 updateTryCount)) then
    (ta, [], Returned (Some (Errorf "could not update metadata after %d tries: %+v")))
  else
    match wrap "could not get complete list of targets: %w" (ce_targets env) with
    | Ok targets =>
        match downloadUpdates k env targets allowSplayDelay binariesToCheck ta (λ _, None) [] with
        | (ta, Ok (updatesDownloaded, [])) =>
            let inInitialDelay := negb bypassInitialDelay && (ce_now env <? initialDelayEnd ta) in
            restartUpdated k inInitialDelay updatesDownloaded ta
        | (ta, Ok (_, _ :: _)) => (ta, [], Returned (Some (Errorf "could not download updates: %+v")))
        | (ta, _) => (ta, [], Panicked)
        end
    | Err e => (ta, [], Returned (Some e))
    | _ => (ta, [], Panicked)
    end.

Definition restartIfPending (ta : TufAutoupdater) : TufAutoupdater * list effect * option bytes :=
  let pendingVersion := pendingRestartLauncherVersion ta in
  if negb (is_empty pendingVersion) then
    (with_pending [] (pendingRestartOsquerydVersion ta) ta, [ReloadLauncher pendingVersion], Some pendingVersion)
  else
    let pendingVersion := pendingRestartOsquerydVersion ta in
    if negb (is_empty pendingVersion) then
      if osquerydRestart ta then
        (with_pending (pendingRestartLauncherVersion ta) [] ta, [RestartOsqueryd pendingVersion], None)
      else (ta, [], None)
    else (ta, [], None).

Definition tidyLibrary (run : autoupdatableBinary → runningEnv) (e : autoupdatableBinary → E)
    (ta : TufAutoupdater) : TufAutoupdater :=
  foldl (λ ta b,
    match currentRunningVersion (run b) b with
    | Ok currentVersion => with_library (lib_TidyLibrary (e b) (libraryManager ta) b currentVersion) ta
    | _ => ta
    end) ta binaries.

(** [Execute] up to its loop *)
Definition startExecute (k : flags) (run : autoupdatableBinary → runningEnv) (e : autoupdatableBinary → E)
    (ta : TufAutoupdater) : TufAutoupdater :=
  let ta := tidyLibrary run e ta in
  with_delay (initialDelayEnd ta) (Some (initialDelayEnd ta)) (with_ticker (Some (k_Interval k)) ta).

(** What wakes the loop of [Execute] up, and what it does then: it returns, with the version to reload if
    there is one, or goes around *)
Inductive wake := Interrupted | Signalled | DelayOver | Ticked.

Definition wakeUp (w : wake) (ta : TufAutoupdater) : TufAutoupdater * list effect * option (option bytes) :=
  match w with
  | Interrupted => (with_interrupt (pred (interrupt ta)) (interrupted ta) ta, [], Some None)
  | Signalled => (with_signals (tail (signalRestart ta)) ta, [], Some (head (signalRestart ta)))
  | DelayOver =>
      let '(ta, effects, reload) := restartIfPending (with_delay (initialDelayEnd ta) None ta) in
      (ta, effects, match reload with Some v => Some (Some v) | None => None end)
  | Ticked => (ta, [], None)
  end.

Definition Interrupt (ta : TufAutoupdater) : TufAutoupdater :=
  if interrupted ta then ta else with_interrupt (S (interrupt ta)) true ta.

(** ** Requests from the control server *)
Record autoupdateRequest := Request { BinariesToUpdate : list bytes; BypassInitialDelay : bool }.

(** encoding/json on a request *)
Class RequestJSON := { decodeRequest : bytes → option autoupdateRequest }.

Definition Do `{RJ : RequestJSON} (k : flags) (now : Z) (env : checkEnv) (data : bytes) (ta : TufAutoupdater)
    : TufAutoupdater * list effect * outcome :=
  match decodeRequest data with
  | None => (ta, [], Returned None)
  | Some updateRequest =>
      if (now <? initialDelayEnd ta) && negb (BypassInitialDelay updateRequest) then (ta, [], Returned None)
      else
        let binariesToUpdate := omap autoupdatableBinaryMap (BinariesToUpdate updateRequest) in
        if is_empty binariesToUpdate then (ta, [], Returned None)
        else
          match checkForUpdate k env binariesToUpdate false (BypassInitialDelay updateRequest) ta with
          | (ta, effects, Returned (Some e)) =>
              (ta, effects, Returned (Some (Wrapf "could not check for update: %w" e)))
          | r => r
          end
  end.

(** ** Changes of flags *)

Definition delayChanged (k : flags) (now : Z) (ta : TufAutoupdater) : TufAutoupdater :=
  if now <? initialDelayEnd ta then
    let newDelayEnd := initialDelayStart ta + k_InitialDelay k in
    with_delay newDelayEnd ((λ _, newDelayEnd) <$> initialDelayTimer ta) ta
  else ta.

(** One pinned version compared with the flag; maps are iterated in any order *)
Definition pinChanged (k : flags) (acc : TufAutoupdater * list autoupdatableBinary) (b : autoupdatableBinary)
    : TufAutoupdater * list autoupdatableBinary :=
  let '(ta, toCheck) := acc in
  if bool_decide (pinnedVersions ta b = k_Pinned k b) then (ta, toCheck)
  else (with_pinned b (k_Pinned k b) ta, if bool_decide (b ∈ toCheck) then toCheck else toCheck ++ [b]).

(** The new settings, the binaries to check, and whether the interval has changed *)
Definition applyFlags (k : flags) (now : Z) (order : list autoupdatableBinary) (flagKeys : list FlagKey)
    (ta : TufAutoupdater) : TufAutoupdater * list autoupdatableBinary * bool :=
  let ta := if bool_decide (AutoupdateDownloadSplay ∈ flagKeys) then with_splay 0 ta else ta in
  let ta := if bool_decide (AutoupdateInitialDelay ∈ flagKeys) then delayChanged k now ta else ta in
  let autoupdateIntervalChanged :=
    bool_decide (AutoupdateInterval ∈ flagKeys) && bool_decide (is_Some (checkTicker ta)) in
  let ta := if autoupdateIntervalChanged then with_ticker (Some (k_Interval k)) ta else ta in
  let '(ta, binariesToCheckForUpdate) :=
    if bool_decide (updateChannel ta = k_UpdateChannel k) then (ta, [])
    else (with_channel (k_UpdateChannel k) ta, binaries) in
  (foldl (pinChanged k) (ta, binariesToCheckForUpdate) order, autoupdateIntervalChanged).

Definition FlagsChanged (k : flags) (now now' : Z) (env : checkEnv) (order : list autoupdatableBinary)
    (flagKeys : list FlagKey) (ta : TufAutoupdater) : TufAutoupdater * list effect * outcome :=
  let '(ta, binariesToCheckForUpdate, autoupdateIntervalChanged) := applyFlags k now order flagKeys ta in
  if is_empty binariesToCheckForUpdate && negb autoupdateIntervalChanged then (ta, [], Returned None)
  else if now' <? initialDelayEnd ta then (ta, [], Returned None)
  else
    let binariesToCheckForUpdate :=
      if is_empty binariesToCheckForUpdate && autoupdateIntervalChanged then binaries else binariesToCheckForUpdate in
    match checkForUpdate k env binariesToCheckForUpdate false false ta with
    | (ta, effects, Returned _) => (ta, effects, Returned None)
    | r => r
    end.

(** ** The autoupdater as a system of steps

    A step is a turn of the loop of [Execute], a wake-up of the loop, a request or a change of
    flags, each with the clock and the answers it sees; checks exclude each other by the update lock. *)
Context `{RJ : RequestJSON}.

Inductive label :=
| Check (k : flags) (env : checkEnv)
| Wake (w : wake) (now : Z)
| Request_ (k : flags) (now : Z) (env : checkEnv) (data : bytes)
| Change (k : flags) (now now' : Z) (env : checkEnv) (order : list autoupdatableBinary) (keys : list FlagKey).

Definition perform (l : label) (ta : TufAutoupdater) : TufAutoupdater * list effect :=
  match l with
  | Check k env => (checkForUpdate k env binaries true false ta).1
  | Wake w _ => (wakeUp w ta).1
  | Request_ k now env data => (Do k now env data ta).1
  | Change k now now' env order keys => (FlagsChanged k now now' env order keys ta).1
  end.

Definition enabled (l : label) (ta : TufAutoupdater) : Prop :=
  match l with
  | Wake Interrupted _ => (0 < interrupt ta)%nat
  | Wake Signalled _ => signalRestart ta ≠ []
  | Wake DelayOver now => ∃ d, initialDelayTimer ta = Some d ∧ d <= now
  | Change _ _ _ _ order _ => order ≡ₚ binaries
  | _ => True
  end.

(** The clock does not go back from [t], and the step is over at [t']. *)
Definition spans (t : Z) (l : label) (t' : Z) : Prop :=
  match l with
  | Check _ env => t <= ce_now env <= t'
  | Wake _ now => t <= now <= t'
  | Request_ _ now env _ => t <= now ∧ now <= ce_now env <= t'
  | Change _ now now' env _ _ => t <= now ∧ now <= now' ∧ now' <= ce_now env <= t'
  end.

(** Requests may ask to ignore the initial delay. *)
Definition bypasses (l : label) : bool :=
  match l with
  | Request_ _ _ _ data => match decodeRequest data with Some r => BypassInitialDelay r | None => false end
  | _ => false
  end.

Inductive reachable (P : label → Prop) : Z → TufAutoupdater → Prop :=
| reachable_start k run e startTime k' restart l t :
    startTime <= t → reachable P t (startExecute k run e (NewTufAutoupdater startTime k' restart l))
| reachable_step t ta l t' :
    reachable P t ta → P l → spans t l t' → enabled l ta → reachable P t' (perform l ta).1.

(** ** What a check leaves alone *)

(** Only the library and the splay change. *)
Definition downloaded (ta ta' : TufAutoupdater) : Prop :=
  ta' = with_library (libraryManager ta') (with_splay (calculatedSplayDelay ta') ta).

Lemma downloaded_refl ta : downloaded ta ta.
Proof using Type. by destruct ta. Qed.

Lemma downloaded_trans ta1 ta2 ta3 : downloaded ta1 ta2 → downloaded ta2 ta3 → downloaded ta1 ta3.
Proof using Type. unfold downloaded. intros H1 H2. rewrite H2, H1. done. Qed.

Lemma getSplayDelaySeconds_frame k r ta ta' n :
  getSplayDelaySeconds k r ta = Ok (ta', n) → downloaded ta ta' ∧ libraryManager ta' = libraryManager ta.
Proof using Type.
  unfold getSplayDelaySeconds. destruct (negb _); [intros [= <- <-]; split; [apply downloaded_refl|done]|].
  destruct (_ =? 0); [intros [= <- <-]; split; [apply downloaded_refl|done]|].
  destruct (Int63n _ _); cbn; try done. by intros [= <- <-].
Qed.

Lemma shouldDelayDownload_frame k env ta b targets ta' d :
  shouldDelayDownload k env ta b targets = Ok (ta', d) → downloaded ta ta' ∧ libraryManager ta' = libraryManager ta.
Proof using Type.
  unfold shouldDelayDownload. repeat (destruct (_ : bool); [intros [= <- <-]; split; [apply downloaded_refl|done]|]).
  destruct (getSplayDelaySeconds _ _ _) as [[ta1 n]|e| |] eqn:Eg; cbn; try done. intros [= <- <-].
  by apply getSplayDelaySeconds_frame in Eg.
Qed.

(** ** What a check finds is in the library *)
Section Held.
Context `{LL : !LibrarianLaws L E}.

(** The targets name proper versions. *)
Definition named (targets : targetFiles) : Prop :=
  ∀ b pin chan t m, findTarget h b targets pin chan = Ok (t, m) → proper (versionFromTarget b t).

Definition keeps (l l' : L) : Prop := ∀ b v, proper v → holds l b v → holds l' b v.

Lemma downloadUpdate_spec k env ta b targets allow : named targets → sane (dl_library env) →
  let '(ta', r) := downloadUpdate k env ta b targets allow in
  downloaded ta ta' ∧ keeps (libraryManager ta) (libraryManager ta') ∧
  (∀ t, r = Ok t → t ≠ [] → proper (versionFromTarget b t) ∧ holds (libraryManager ta') b (versionFromTarget b t)).
Proof using LL.
  intros Hn Hs. unfold downloadUpdate.
  assert (Hsame : ∀ r : res bytes, (∀ t, r = Ok t → t = []) → downloaded ta ta ∧ keeps (libraryManager ta) (libraryManager ta) ∧
    (∀ t, r = Ok t → t ≠ [] → proper (versionFromTarget b t) ∧ holds (libraryManager ta) b (versionFromTarget b t))).
  { intros r Hr. split_and!; [apply downloaded_refl|by intros ??|]. intros t Ht Hne. by apply Hr in Ht. }
  destruct (findTarget _ _ _ _ _) as [[t m]|e| |] eqn:Ef; cbn [wrap mbind res_bind]; try by apply Hsame.
  apply Hn in Ef. case_bool_decide as Hcur; [apply Hsame; by intros t' [= <-]|].
  destruct (lib_Available _ _ _ _) eqn:Ea.
  { destruct (is_empty _); [apply Hsame; by intros t' [= <-]|]. destruct (_ && _); [apply Hsame; by intros t' [= <-]|].
    split_and!; [apply downloaded_refl|by intros ??|]. intros t' [= <-] _. split; [done|]. by eapply Available_holds. }
  assert (Hd : ∀ ta1 d, (if allow then shouldDelayDownload k env ta b targets else Ok (ta, false)) = Ok (ta1, d) →
    downloaded ta ta1 ∧ libraryManager ta1 = libraryManager ta).
  { intros ta1 d. destruct allow; [apply shouldDelayDownload_frame|]. intros [= <- <-]. by split; [apply downloaded_refl|]. }
  destruct (if allow then _ else _) as [[ta1 []]|e| |]; cbn [mbind res_bind]; try by apply Hsame.
  - destruct (Hd _ _ eq_refl) as [H1 H2]. split_and!; [done|rewrite H2; by intros ??|]. by intros t' [= <-].
  - destruct (Hd _ _ eq_refl) as [H1 H2]. rewrite H2.
    set (cur := match currentRunningVersion _ _ with Ok v => v | _ => [] end) in *.
    pose proof (Add_holds (dl_library env) (libraryManager ta) b cur t m Hs Ef Hcur) as Ha.
    pose proof (λ b' v, Add_keeps (dl_library env) (libraryManager ta) b cur t m b' v Hs Ef) as Hk.
    destruct (lib_AddToLibrary _ _ _ _ _ _) as [l r]. cbn [fst snd] in *. split_and!.
    + rewrite H1. done.
    + exact Hk.
    + intros t' Ht' _. destruct r as [[]|e| |]; cbn in Ht'; try done. injection Ht' as <-. split; [done|]. by apply Ha.
Qed.

Definition held (l : L) (upd : autoupdatableBinary → option bytes) : Prop :=
  ∀ b v, upd b = Some v → proper v ∧ holds l b v.

Lemma downloadUpdates_spec k env targets allow bs : named targets → (∀ b, sane (dl_library (ce_download env b))) →
  ∀ ta upd errs, held (libraryManager ta) upd →
  let '(ta', r) := downloadUpdates k env targets allow bs ta upd errs in
  downloaded ta ta' ∧ keeps (libraryManager ta) (libraryManager ta') ∧
  (∀ upd' errs', r = Ok (upd', errs') → held (libraryManager ta') upd').
Proof using LL.
  intros Hn Hs. induction bs as [|b bs IH]; intros ta upd errs Hu; cbn [downloadUpdates].
  { split_and!; [apply downloaded_refl|by intros ??|]. by intros ? ? [= <- <-]. }
  pose proof (downloadUpdate_spec k (ce_download env b) ta b targets allow Hn (Hs b)) as Hd.
  destruct (downloadUpdate _ _ _ _ _ _) as [ta1 r]. destruct Hd as (Hd & Hk & Hr).
  assert (Hgo : ∀ upd1 errs1, held (libraryManager ta1) upd1 →
    let '(ta', r) := downloadUpdates k env targets allow bs ta1 upd1 errs1 in
    downloaded ta ta' ∧ keeps (libraryManager ta) (libraryManager ta') ∧
    (∀ upd' errs', r = Ok (upd', errs') → held (libraryManager ta') upd')).
  { intros upd1 errs1 Hu1. specialize (IH ta1 upd1 errs1 Hu1). destruct (downloadUpdates _ _ _ _ _ _ _ _) as [ta2 r2].
    destruct IH as (H1 & H2 & H3). split_and!; [by eapply downloaded_trans|by intros b' v Hp Hv; auto|done]. }
  assert (Hu1 : held (libraryManager ta1) upd) by (intros b' v Hv; destruct (Hu b' v Hv); auto).
  destruct r as [t|e| |]; [|by apply Hgo|done|done].
  destruct t as [|c t]; [by apply Hgo|]. apply Hgo. intros b' v. case_bool_decide as Hb; [|by apply Hu1].
  intros [= <-]. subst b'. by apply Hr.
Qed.

(** Versions to be restarted into are in the library. *)
Definition effect_held (l : L) (ef : effect) : Prop :=
  match ef with
  | ReloadLauncher v => holds l binaryLauncher v
  | RestartOsqueryd v => holds l binaryOsqueryd v
  end.

Definition pending_held (ta : TufAutoupdater) : Prop :=
  (pendingRestartLauncherVersion ta ≠ [] →
     proper (pendingRestartLauncherVersion ta) ∧ holds (libraryManager ta) binaryLauncher (pendingRestartLauncherVersion ta)) ∧
  (pendingRestartOsquerydVersion ta ≠ [] →
     proper (pendingRestartOsquerydVersion ta) ∧ holds (libraryManager ta) binaryOsqueryd (pendingRestartOsquerydVersion ta)).

Definition sane_check (env : checkEnv) : Prop :=
  (∀ b, sane (dl_library (ce_download env b))) ∧ (∀ targets, ce_targets env = Ok targets → named targets).

Lemma pending_held_downloaded ta ta' : downloaded ta ta' → keeps (libraryManager ta) (libraryManager ta') →
  pending_held ta → pending_held ta'.
Proof using Type.
  intros Hd Hk [H1 H2]. unfold pending_held. rewrite Hd. cbn. split; intros Hne; [destruct (H1 Hne)|destruct (H2 Hne)]; auto.
Qed.

Lemma checkForUpdate_held k env bs allow bypass ta : sane_check env → pending_held ta →
  let '(ta', effects, _) := checkForUpdate k env bs allow bypass ta in
  pending_held ta' ∧ Forall (effect_held (libraryManager ta')) effects.
Proof using LL.
  intros [Hs Hn] Hp. unfold checkForUpdate. destruct (k_InModernStandby k); [done|].
  destruct (negb _); [done|]. destruct (ce_targets env) as [targets|e| |]; cbn [wrap]; try done.
  pose proof (downloadUpdates_spec k env targets allow bs (Hn _ eq_refl) Hs ta (λ _, None) [] ltac:(done)) as Hd.
  destruct (downloadUpdates _ _ _ _ _ _ _ _) as [ta1 r]. destruct Hd as (Hd & Hk & Hu).
  pose proof (pending_held_downloaded _ _ Hd Hk Hp) as Hp1.
  destruct r as [[upd [|e errs]]|e| |]; try done. specialize (Hu _ _ eq_refl).
  set (delay := negb bypass && _). clearbody delay. clear Hd Hk Hp Hn Hs.
  destruct Hp1 as [Hp1 Hp2]. unfold restartUpdated. pose proof (Hu binaryLauncher) as HuL. pose proof (Hu binaryOsqueryd) as HuO.
  assert (Hrest : let '(ta', effects, _) := match upd binaryOsqueryd with
      | None => (ta1, [], Returned None)
      | Some newBinaryVersion =>
          if delay then (with_pending (pendingRestartLauncherVersion ta1) newBinaryVersion ta1, [], Returned None)
          else (ta1, if osquerydRestart ta1 then [RestartOsqueryd newBinaryVersion] else [], Returned None) end in
    pending_held ta' ∧ Forall (effect_held (libraryManager ta')) effects).
  { destruct (upd binaryOsqueryd) as [v|]; [|done]. destruct (HuO v eq_refl) as [? ?].
    destruct delay; [done|]. destruct (osquerydRestart ta1); (split; [done|]); [|done]. by repeat constructor. }
  destruct (upd binaryLauncher) as [v|]; [|exact Hrest]. destruct (is_empty _); [|exact Hrest].
  destruct (HuL v eq_refl) as [? ?]. destruct delay; [done|].
  destruct (_ <? _)%nat; [|done]. split; [done|]. by repeat constructor.
Qed.

End Held.

(** ** What a change of flags leaves alone *)
Definition settings_only (ta ta' : TufAutoupdater) : Prop :=
  libraryManager ta' = libraryManager ta ∧
  pendingRestartLauncherVersion ta' = pendingRestartLauncherVersion ta ∧
  pendingRestartOsquerydVersion ta' = pendingRestartOsquerydVersion ta ∧
  osquerydRestart ta' = osquerydRestart ta ∧ signalRestart ta' = signalRestart ta ∧
  initialDelayStart ta' = initialDelayStart ta.

(** The timer is set to the end of the initial delay. *)
Definition timer_ok (ta : TufAutoupdater) : Prop := ∀ d, initialDelayTimer ta = Some d → d = initialDelayEnd ta.

Lemma applyFlags_frame k now order keys ta :
  let ta' := (applyFlags k now order keys ta).1.1 in
  settings_only ta ta' ∧ (timer_ok ta → timer_ok ta') ∧ (initialDelayTimer ta = None ↔ initialDelayTimer ta' = None).
Proof using Type.
  assert (Hpin : ∀ acc, settings_only acc.1 (foldl (pinChanged k) acc order).1 ∧
    initialDelayTimer (foldl (pinChanged k) acc order).1 = initialDelayTimer acc.1 ∧
    initialDelayEnd (foldl (pinChanged k) acc order).1 = initialDelayEnd acc.1).
  { induction order as [|b order IH]; intros acc; [done|]. cbn [foldl].
    destruct (IH (pinChanged k acc b)) as (H1 & H2 & H3). rewrite H2, H3. unfold settings_only in *.
    destruct acc as [ta1 l]. unfold pinChanged. unfold pinChanged in H1. by case_bool_decide. }
  unfold applyFlags. cbv zeta. set (ta1 := if bool_decide (AutoupdateDownloadSplay ∈ keys) then _ else _).
  assert (H1 : settings_only ta ta1 ∧ initialDelayTimer ta1 = initialDelayTimer ta ∧ initialDelayEnd ta1 = initialDelayEnd ta)
    by (unfold ta1; by case_bool_decide).
  clearbody ta1. destruct H1 as (H1 & H1t & H1e).
  set (ta2 := if bool_decide (AutoupdateInitialDelay ∈ keys) then _ else _).
  assert (H2 : settings_only ta1 ta2 ∧ (timer_ok ta1 → timer_ok ta2) ∧ (initialDelayTimer ta1 = None ↔ initialDelayTimer ta2 = None)).
  { unfold ta2. case_bool_decide; [|done]. unfold delayChanged. destruct (_ <? _); [|done].
    split_and!; [done| |cbn; by destruct (initialDelayTimer ta1)]. unfold timer_ok. cbn. intros _ d. by destruct (initialDelayTimer ta1); intros [= <-]. }
  clearbody ta2. destruct H2 as (H2 & H2t & H2n).
  set (changed := _ && _). set (ta3 := if changed then _ else _).
  assert (H3 : settings_only ta2 ta3 ∧ initialDelayTimer ta3 = initialDelayTimer ta2 ∧ initialDelayEnd ta3 = initialDelayEnd ta2)
    by (unfold ta3; by destruct changed).
  clearbody ta3. destruct H3 as (H3 & H3t & H3e).
  set (acc := if bool_decide (updateChannel ta3 = _) then _ else _).
  assert (H4 : settings_only ta3 acc.1 ∧ initialDelayTimer acc.1 = initialDelayTimer ta3 ∧ initialDelayEnd acc.1 = initialDelayEnd ta3)
    by (unfold acc; by case_bool_decide).
  clearbody acc. destruct H4 as (H4 & H4t & H4e). destruct (Hpin acc) as (H5 & H5t & H5e).
  destruct acc as [ta4 l]. cbn [fst] in *. split; [unfold settings_only in *; split_and!; intuition congruence|].
  split; [|by rewrite H5t, H4t, H3t, <- H2n, H1t].
  intros Ht d Hd. rewrite H5t, H4t, H3t in Hd. rewrite H5e, H4e, H3e. apply H2t; [|done].
  intros d' Hd'. rewrite H1e. apply Ht. by rewrite <- H1t.
Qed.

(** ** What a check leaves alone, and when it restarts *)
Lemma downloadUpdate_frame k env ta b targets allow : downloaded ta (downloadUpdate k env ta b targets allow).1.
Proof using Type.
  unfold downloadUpdate. destruct (findTarget _ _ _ _ _) as [[t m]|e| |]; cbn [wrap]; try apply downloaded_refl.
  case_bool_decide; [apply downloaded_refl|].
  destruct (lib_Available _ _ _ _); [repeat (destruct (_ : bool); [apply downloaded_refl|]); apply downloaded_refl|].
  assert (Hd : ∀ ta1 d, (if allow then shouldDelayDownload k env ta b targets else Ok (ta, false)) = Ok (ta1, d) →
    downloaded ta ta1).
  { intros ta1 d. destruct allow; [by intros [? _]%shouldDelayDownload_frame|]. intros [= <- <-]. apply downloaded_refl. }
  destruct (if allow then _ else _) as [[ta1 []]|e| |]; try apply downloaded_refl; [by eapply Hd|].
  destruct (lib_AddToLibrary _ _ _ _ _ _) as [l r]. cbn [fst]. by rewrite (Hd _ _ eq_refl).
Qed.

Lemma downloadUpdates_frame k env targets allow bs ta upd errs :
  downloaded ta (downloadUpdates k env targets allow bs ta upd errs).1.
Proof using Type.
  revert ta upd errs. induction bs as [|b bs IH]; intros ta upd errs; cbn [downloadUpdates]; [apply downloaded_refl|].
  pose proof (downloadUpdate_frame k (ce_download env b) ta b targets allow) as Hd.
  destruct (downloadUpdate _ _ _ _ _ _) as [ta1 [[|c t]|e| |]]; cbn [fst] in *; try done; by eapply downloaded_trans.
Qed.

(** Everything but the library, the splay, the channel to [Execute] and the pending versions *)
Definition check_frame (ta ta' : TufAutoupdater) : Prop :=
  initialDelayTimer ta' = initialDelayTimer ta ∧ initialDelayEnd ta' = initialDelayEnd ta ∧
  initialDelayStart ta' = initialDelayStart ta ∧ osquerydRestart ta' = osquerydRestart ta.

Lemma downloaded_check_frame ta ta' : downloaded ta ta' → check_frame ta ta'.
Proof using Type. intros Hd. unfold check_frame. rewrite Hd. done. Qed.

Lemma restartUpdated_frame k delay upd ta :
  let '(ta', effects, _) := restartUpdated k delay upd ta in
  check_frame ta ta' ∧ libraryManager ta' = libraryManager ta ∧ (delay = true → effects = []).
Proof using Type.
  unfold restartUpdated. destruct (upd binaryLauncher), (is_empty (k_LocalDevelopmentPath k)); destruct (upd binaryOsqueryd);
    destruct delay; try done; by destruct (_ <? _)%nat.
Qed.

Lemma checkForUpdate_frame k env bs allow bypass ta :
  let '(ta', effects, _) := checkForUpdate k env bs allow bypass ta in
  check_frame ta ta' ∧ (effects ≠ [] → bypass = true ∨ initialDelayEnd ta <= ce_now env).
Proof using Type.
  unfold checkForUpdate. destruct (k_InModernStandby k); [done|]. destruct (negb _); [done|].
  destruct (ce_targets env) as [targets|e| |]; cbn [wrap]; try done.
  pose proof (downloadUpdates_frame k env targets allow bs ta (λ _, None) []) as Hd%downloaded_check_frame.
  destruct (downloadUpdates _ _ _ _ _ _ _ _) as [ta1 [[upd [|e errs]]|e| |]]; cbn [fst] in Hd; try by split.
  set (delay := negb bypass && _). pose proof (restartUpdated_frame k delay upd ta1) as Hr.
  destruct (restartUpdated _ _ _ _) as [[ta2 effects] o]. destruct Hr as (Hr & _ & He).
  destruct Hd as (D1 & D2 & D3 & D4), Hr as (R1 & R2 & R3 & R4). unfold check_frame. split; [split_and!; congruence|].
  intros Hne. destruct bypass; [by left|right]. destruct (Z.ltb_spec (ce_now env) (initialDelayEnd ta1)) as [Hlt|Hge]; [|lia].
  exfalso. by apply Hne, He.
Qed.

Lemma Do_frame k now env data ta :
  let '(ta', effects, _) := Do k now env data ta in
  check_frame ta ta' ∧ (effects ≠ [] → bypasses (Request_ k now env data) = true ∨ initialDelayEnd ta <= ce_now env).
Proof using Type.
  unfold Do, bypasses. destruct (decodeRequest data) as [r|]; [|done]. destruct (_ && _); [done|].
  destruct (is_empty _); [done|].
  pose proof (checkForUpdate_frame k env (omap autoupdatableBinaryMap (BinariesToUpdate r)) false (BypassInitialDelay r) ta) as Hc.
  by destruct (checkForUpdate _ _ _ _ _ _) as [[ta' effects] [[e|]| |]].
Qed.

Lemma FlagsChanged_frame k now now' env order keys ta :
  let '(ta', effects, _) := FlagsChanged k now now' env order keys ta in
  (timer_ok ta → timer_ok ta') ∧ initialDelayStart ta' = initialDelayStart ta ∧
  (effects ≠ [] → initialDelayEnd ta' <= ce_now env) ∧ (initialDelayTimer ta = None ↔ initialDelayTimer ta' = None).
Proof using Type.
  unfold FlagsChanged. pose proof (applyFlags_frame k now order keys ta) as (Hs & Ht & Hn).
  destruct (applyFlags _ _ _ _ _) as [[ta1 bs] changed]. cbn [fst] in *.
  destruct Hs as (_ & _ & _ & _ & _ & Hs). destruct (_ && _); [done|]. destruct (_ <? _); [done|].
  set (bs' := if _ && _ then _ else _). pose proof (checkForUpdate_frame k env bs' false false ta1) as Hc.
  destruct (checkForUpdate _ _ _ _ _ _) as [[ta2 effects] o]. destruct Hc as ((H1 & H2 & H3 & _) & He).
  assert (Hgoal : (timer_ok ta → timer_ok ta2) ∧ initialDelayStart ta2 = initialDelayStart ta ∧
    (effects ≠ [] → initialDelayEnd ta2 <= ce_now env) ∧ (initialDelayTimer ta = None ↔ initialDelayTimer ta2 = None)).
  { split_and!; [|congruence| |by rewrite H1].
    - intros H0 d Hd. rewrite H2. apply Ht; [done|]. by rewrite <- H1.
    - intros Hne. rewrite H2. by destruct (He Hne). }
  by destruct o.
Qed.

Lemma wakeUp_frame w ta :
  let '(ta', effects, _) := wakeUp w ta in
  (timer_ok ta → timer_ok ta') ∧ initialDelayEnd ta' = initialDelayEnd ta ∧ (effects ≠ [] → w = DelayOver).
Proof using Type.
  destruct w; try done. cbn [wakeUp]. unfold restartIfPending. cbn.
  repeat (destruct (_ : bool); try done).
Qed.

Lemma perform_timer l ta : timer_ok ta → timer_ok (perform l ta).1.
Proof using Type.
  intros Ht. destruct l as [k env|w now|k now env data|k now now' env order keys]; cbn [perform].
  - pose proof (checkForUpdate_frame k env binaries true false ta) as Hc.
    destruct (checkForUpdate _ _ _ _ _ _) as [[ta' effects] o]. destruct Hc as ((H1 & H2 & _) & _).
    intros d Hd. cbn in *. rewrite H2. apply Ht. by rewrite <- H1.
  - pose proof (wakeUp_frame w ta) as Hw. destruct (wakeUp _ _) as [[ta' effects] o]. by apply Hw.
  - pose proof (Do_frame k now env data ta) as Hc.
    destruct (Do _ _ _ _ _) as [[ta' effects] o]. destruct Hc as ((H1 & H2 & _) & _).
    intros d Hd. cbn in *. rewrite H2. apply Ht. by rewrite <- H1.
  - pose proof (FlagsChanged_frame k now now' env order keys ta) as Hc.
    destruct (FlagsChanged _ _ _ _ _ _ _) as [[ta' effects] o]. by apply Hc.
Qed.

(** Only the end of the delay disarms the timer, and nothing arms it again. *)
Lemma perform_armed l ta : (∀ now, l ≠ Wake DelayOver now) →
  initialDelayTimer ta = None ↔ initialDelayTimer (perform l ta).1 = None.
Proof using Type.
  intros Hw. destruct l as [k env|w now|k now env data|k now now' env order keys]; cbn [perform].
  - pose proof (checkForUpdate_frame k env binaries true false ta) as Hc.
    destruct (checkForUpdate _ _ _ _ _ _) as [[ta' effects] o]. destruct Hc as ((H1 & _) & _). cbn. by rewrite H1.
  - destruct w; try done. by destruct (Hw now).
  - pose proof (Do_frame k now env data ta) as Hc.
    destruct (Do _ _ _ _ _) as [[ta' effects] o]. destruct Hc as ((H1 & _) & _). cbn. by rewrite H1.
  - pose proof (FlagsChanged_frame k now now' env order keys ta) as Hc.
    destruct (FlagsChanged _ _ _ _ _ _ _) as [[ta' effects] o]. apply Hc.
Qed.

Lemma perform_disarmed l ta : initialDelayTimer ta = None → initialDelayTimer (perform l ta).1 = None.
Proof using Type.
  intros Hn. destruct l as [k env|w now|k now env data|k now now' env order keys];
    try (apply perform_armed; [by intros ? [=]|done]).
  destruct w; try done. cbn [perform wakeUp]. unfold restartIfPending. cbn.
  destruct (pendingRestartLauncherVersion ta), (pendingRestartOsquerydVersion ta), (osquerydRestart ta); done.
Qed.

Lemma tidyLibrary_frame run e ta : tidyLibrary run e ta = with_library (libraryManager (tidyLibrary run e ta)) ta.
Proof using Type.
  unfold tidyLibrary, binaries. cbn [foldl]. destruct (currentRunningVersion _ binaryLauncher);
    destruct (currentRunningVersion _ binaryOsqueryd); by destruct ta.
Qed.

Lemma reachable_timer P t ta : reachable P t ta → timer_ok ta.
Proof using Type.
  induction 1; [|by apply perform_timer]. intros d. unfold startExecute. cbn. by intros [= <-].
Qed.

(** C4: Nothing is restarted before the initial delay is over, whatever the order of checks, requests,
    changes of flags and wake-ups, unless a request of the control server asks for it. *)
Theorem no_early_restart P t ta l t' : reachable P t ta → spans t l t' → enabled l ta →
  (perform l ta).2 ≠ [] → bypasses l = true ∨ initialDelayEnd (perform l ta).1 <= t'.
Proof using Type.
  intros Ht%reachable_timer Hs He. destruct l as [k env|w now|k now env data|k now now' env order keys]; cbn [perform].
  - pose proof (checkForUpdate_frame k env binaries true false ta) as Hc.
    destruct (checkForUpdate _ _ _ _ _ _) as [[ta' effects] o]. destruct Hc as ((_ & H2 & _) & He').
    cbn in *. intros Hne. destruct (He' Hne); [done|right]. lia.
  - pose proof (wakeUp_frame w ta) as Hw. destruct (wakeUp _ _) as [[ta' effects] o]. cbn [fst snd] in *.
    destruct Hw as (_ & Hw & Hd). intros Hne. specialize (Hd Hne) as ->. destruct He as (d & Hd & Hle).
    apply Ht in Hd. cbn in Hs. right. rewrite Hw. lia.
  - pose proof (Do_frame k now env data ta) as Hc. destruct (Do _ _ _ _ _) as [[ta' effects] o].
    destruct Hc as ((_ & H2 & _) & He'). cbn in *. intros Hne. destruct (He' Hne); [by left|right]. lia.
  - pose proof (FlagsChanged_frame k now now' env order keys ta) as Hc.
    destruct (FlagsChanged _ _ _ _ _ _ _) as [[ta' effects] o]. destruct Hc as (_ & _ & He' & _).
    cbn in *. intros Hne. right. specialize (He' Hne). lia.
Qed.

(** ** Restarts and the library *)
Section Reached.
Context `{LL : !LibrarianLaws L E}.

Definition sane_label (l : label) : Prop :=
  match l with
  | Check _ env | Request_ _ _ env _ | Change _ _ _ env _ _ => sane_check env
  | Wake _ _ => True
  end.

Lemma Do_held k now env data ta : sane_check env → pending_held ta →
  let '(ta', effects, _) := Do k now env data ta in
  pending_held ta' ∧ Forall (effect_held (libraryManager ta')) effects.
Proof using LL.
  intros Hs Hp. unfold Do. destruct (decodeRequest data) as [r|]; [|done]. destruct (_ && _); [done|].
  destruct (is_empty _); [done|].
  pose proof (checkForUpdate_held k env (omap autoupdatableBinaryMap (BinariesToUpdate r)) false (BypassInitialDelay r) ta Hs Hp) as Hc.
  by destruct (checkForUpdate _ _ _ _ _ _) as [[ta' effects] [[e|]| |]].
Qed.

Lemma FlagsChanged_held k now now' env order keys ta : sane_check env → pending_held ta →
  let '(ta', effects, _) := FlagsChanged k now now' env order keys ta in
  pending_held ta' ∧ Forall (effect_held (libraryManager ta')) effects.
Proof using LL.
  intros Hs Hp. unfold FlagsChanged. pose proof (applyFlags_frame k now order keys ta) as (Hf & _).
  destruct (applyFlags _ _ _ _ _) as [[ta1 bs] changed]. cbn [fst] in *.
  assert (Hp1 : pending_held ta1).
  { destruct Hf as (Hl & H1 & H2 & _). unfold pending_held. by rewrite Hl, H1, H2. }
  destruct (_ && _); [done|]. destruct (_ <? _); [done|].
  set (bs' := if _ && _ then _ else _). pose proof (checkForUpdate_held k env bs' false false ta1 Hs Hp1) as Hc.
  by destruct (checkForUpdate _ _ _ _ _ _) as [[ta2 effects] []].
Qed.

Lemma wakeUp_held w ta : pending_held ta →
  let '(ta', effects, _) := wakeUp w ta in
  pending_held ta' ∧ Forall (effect_held (libraryManager ta')) effects.
Proof using Type.
  intros Hp. destruct w; try done. destruct Hp as [H1 H2]. cbn [wakeUp]. unfold restartIfPending. cbn.
  unfold pending_held.
  destruct (pendingRestartLauncherVersion ta) as [|c v] eqn:Ev; cbn [is_empty negb].
  - destruct (pendingRestartOsquerydVersion ta) as [|c v] eqn:Eo; cbn [is_empty negb].
    { unfold with_delay. cbn. rewrite Ev, Eo. done. }
    destruct (H2 ltac:(done)) as [? ?]. destruct (osquerydRestart ta); unfold with_pending, with_delay; cbn; rewrite ?Ev.
    + split; [done|]. by repeat constructor.
    + rewrite Eo. by split.
  - destruct (H1 ltac:(done)) as [? ?]. split; [by split|]. by repeat constructor.
Qed.

Lemma perform_held l ta : sane_label l → pending_held ta →
  pending_held (perform l ta).1 ∧ Forall (effect_held (libraryManager (perform l ta).1)) (perform l ta).2.
Proof using LL.
  intros Hs Hp. destruct l as [k env|w now|k now env data|k now now' env order keys]; cbn [perform].
  - pose proof (checkForUpdate_held k env binaries true false ta Hs Hp). by destruct (checkForUpdate _ _ _ _ _ _) as [[] ?].
  - pose proof (wakeUp_held w ta Hp). by destruct (wakeUp _ _) as [[] ?].
  - pose proof (Do_held k now env data ta Hs Hp). by destruct (Do _ _ _ _ _) as [[] ?].
  - pose proof (FlagsChanged_held k now now' env order keys ta Hs Hp). by destruct (FlagsChanged _ _ _ _ _ _ _) as [[] ?].
Qed.

(** Launcher and osqueryd are only ever restarted into versions that are in the library by then. *)
Theorem restarts_into_library t ta l : reachable sane_label t ta → sane_label l →
  Forall (effect_held (libraryManager (perform l ta).1)) (perform l ta).2.
Proof using LL.
  intros Hr Hs. apply perform_held; [done|]. clear Hs l. induction Hr.
  - unfold pending_held, startExecute. rewrite tidyLibrary_frame. done.
  - by apply perform_held.
Qed.

(** ** Deferred restarts *)
(** [Execute] goes on, and the end of the delay has not been seen *)
Definition quiet (l : label) : Prop := sane_label l ∧ ∀ w now, l = Wake w now → w = Ticked.

Lemma quiet_no_wake l : quiet l → ∀ now, l ≠ Wake DelayOver now.
Proof using Type. intros [_ Hw] now ->. by specialize (Hw _ _ eq_refl). Qed.

Definition performs (ls : list label) (ta : TufAutoupdater) : TufAutoupdater :=
  foldl (λ ta l, (perform l ta).1) ta ls.

Lemma checkForUpdate_pending k env bs allow bypass ta : sane_check env → pendingRestartLauncherVersion ta ≠ [] →
  pendingRestartLauncherVersion (checkForUpdate k env bs allow bypass ta).1.1 ≠ [].
Proof using LL.
  intros [Hs Hn] Hp. unfold checkForUpdate. destruct (k_InModernStandby k); [done|]. destruct (negb _); [done|].
  destruct (ce_targets env) as [targets|e| |]; cbn [wrap]; try done.
  pose proof (downloadUpdates_spec k env targets allow bs (Hn _ eq_refl) Hs ta (λ _, None) [] ltac:(done)) as Hd.
  destruct (downloadUpdates _ _ _ _ _ _ _ _) as [ta1 r]. destruct Hd as (Hd & _ & Hu).
  assert (Hp1 : pendingRestartLauncherVersion ta1 ≠ []) by (rewrite Hd; exact Hp).
  destruct r as [[upd [|e errs]]|e| |]; try done. specialize (Hu _ _ eq_refl).
  unfold restartUpdated. pose proof (λ v, Hu binaryLauncher v) as HuL. destruct (upd binaryLauncher) as [v|].
  - destruct (HuL v eq_refl) as [Hv%proper_not_blank _].
    destruct (is_empty (k_LocalDevelopmentPath k)); [destruct (_ && _); [done|by destruct (_ <? _)%nat]|].
    destruct (upd binaryOsqueryd); [by destruct (_ && _)|done].
  - destruct (upd binaryOsqueryd); [by destruct (_ && _)|done].
Qed.

Lemma perform_pending l ta : quiet l → pendingRestartLauncherVersion ta ≠ [] →
  pendingRestartLauncherVersion (perform l ta).1 ≠ [].
Proof using LL.
  intros [Hs Hw] Hp. destruct l as [k env|w now|k now env data|k now now' env order keys]; cbn [perform].
  - by apply checkForUpdate_pending.
  - by rewrite (Hw _ _ eq_refl).
  - unfold Do. destruct (decodeRequest data) as [r|]; [|done]. destruct (_ && _); [done|]. destruct (is_empty _); [done|].
    pose proof (checkForUpdate_pending k env (omap autoupdatableBinaryMap (BinariesToUpdate r)) false (BypassInitialDelay r) ta Hs Hp) as Hc.
    by destruct (checkForUpdate _ _ _ _ _ _) as [[ta' effects] [[e|]| |]].
  - unfold FlagsChanged. pose proof (applyFlags_frame k now order keys ta) as (Hf & _).
    destruct (applyFlags _ _ _ _ _) as [[ta1 bs] changed]. cbn [fst] in *. destruct Hf as (_ & Hf & _).
    rewrite <- Hf in Hp. destruct (_ && _); [done|]. destruct (_ <? _); [done|].
    set (bs' := if _ && _ then _ else _). pose proof (checkForUpdate_pending k env bs' false false ta1 Hs Hp) as Hc.
    by destruct (checkForUpdate _ _ _ _ _ _) as [[ta2 effects] []].
Qed.

Lemma performs_pending ls ta : Forall quiet ls → pendingRestartLauncherVersion ta ≠ [] →
  pendingRestartLauncherVersion (performs ls ta) ≠ [].
Proof using LL.
  intros Hls. revert ta. induction Hls as [|l ls Hl Hls IH]; intros ta Hp; [done|].
  cbn [performs foldl]. apply IH. by apply perform_pending.
Qed.

(** The timer runs until the end of the delay. *)
Definition armed (ta : TufAutoupdater) : Prop := initialDelayTimer ta = Some (initialDelayEnd ta).

Lemma perform_keeps_armed l ta : quiet l → armed ta → armed (perform l ta).1.
Proof using Type.
  intros Hl Ha. pose proof (perform_armed l ta (quiet_no_wake l Hl)) as Hn. unfold armed.
  destruct (initialDelayTimer (perform l ta).1) as [d|] eqn:Hd.
  - f_equal. assert (Ht : timer_ok ta) by (intros d' Hd'; rewrite Ha in Hd'; by injection Hd' as <-).
    exact (perform_timer l ta Ht d Hd).
  - rewrite Ha in Hn. discriminate (proj2 Hn eq_refl).
Qed.

Lemma performs_armed ls ta : Forall quiet ls → armed ta → armed (performs ls ta).
Proof using Type.
  intros Hls. revert ta. induction Hls as [|l ls Hl Hls IH]; intros ta Ha; [done|].
  cbn [performs foldl]. apply IH. by apply perform_keeps_armed.
Qed.

Lemma performs_disarmed ls ta : initialDelayTimer ta = None → initialDelayTimer (performs ls ta) = None.
Proof using Type.
  revert ta. induction ls as [|l ls IH]; intros ta Hn; [done|]. cbn [performs foldl]. apply IH. by apply perform_disarmed.
Qed.

Lemma reachable_armed t ta : reachable quiet t ta → armed ta.
Proof using Type. induction 1; [done|by apply perform_keeps_armed]. Qed.

Lemma check_defers k env ta targets upd v :
  k_InModernStandby k = false → k_LocalDevelopmentPath k = [] → existsb (ce_update env) (seq 0 updateTryCount) = true →
  ce_targets env = Ok targets → sane_check env → ce_now env < initialDelayEnd ta →
  (downloadUpdates k env targets true binaries ta (λ _, None) []).2 = Ok (upd, []) → upd binaryLauncher = Some v →
  (perform (Check k env) ta).2 = [] ∧ pendingRestartLauncherVersion (perform (Check k env) ta).1 = v ∧ v ≠ [].
Proof using LL.
  intros Hstandby Hdev Hup Ht [Hs Hn] Hnow Hdl Hv. cbn [perform]. unfold checkForUpdate.
  rewrite Hstandby, Hup, Ht. cbn [negb wrap].
  pose proof (downloadUpdates_spec k env targets true binaries (Hn _ Ht) Hs ta (λ _, None) [] ltac:(done)) as Hd.
  destruct (downloadUpdates _ _ _ _ _ _ _ _) as [ta0 r]. cbn [snd] in Hdl. subst r. destruct Hd as (Hd & _ & Hu).
  destruct (Hu _ _ eq_refl _ _ Hv) as [Hv'%proper_not_blank _].
  unfold restartUpdated. rewrite Hv, Hdev. cbn [is_empty negb andb].
  assert (Hend : initialDelayEnd ta0 = initialDelayEnd ta) by (rewrite Hd; done).
  rewrite Hend. destruct (Z.ltb_spec (ce_now env) (initialDelayEnd ta)); [|lia]. done.
Qed.

(** C19: An update of launcher that the loop of [Execute] finds during the initial delay is not
    forgotten: nothing restarts then, and however many checks, requests and changes of flags follow, the timer stays
    armed for the end of the delay, wherever the flags move it, so that from then on, and not before, the loop
    can see it; when it does, [Execute] returns to reload the version last recorded, which is
    recorded no longer, and the timer never fires again.  The host is not in modern standby, launcher runs from no
    development path, the check downloads without an error, versions are proper ones, and nothing else has stopped
    [Execute]. *)
Theorem deferred_restart_performed k env t ta targets upd v ls :
  reachable quiet t ta →
  k_InModernStandby k = false → k_LocalDevelopmentPath k = [] → existsb (ce_update env) (seq 0 updateTryCount) = true →
  ce_targets env = Ok targets → sane_check env → ce_now env < initialDelayEnd ta →
  (downloadUpdates k env targets true binaries ta (λ _, None) []).2 = Ok (upd, []) → upd binaryLauncher = Some v →
  Forall quiet ls →
  let '(ta1, effects) := perform (Check k env) ta in
  let ta2 := performs ls ta1 in
  let v' := pendingRestartLauncherVersion ta2 in
  effects = [] ∧ pendingRestartLauncherVersion ta1 = v ∧ v' ≠ [] ∧
  (∀ now, enabled (Wake DelayOver now) ta2 ↔ initialDelayEnd ta2 <= now) ∧
  (wakeUp DelayOver ta2).1.2 = [ReloadLauncher v'] ∧ (wakeUp DelayOver ta2).2 = Some (Some v') ∧
  let ta3 := (wakeUp DelayOver ta2).1.1 in
  pendingRestartLauncherVersion ta3 = [] ∧
  ∀ ls' now, ¬ enabled (Wake DelayOver now) (performs ls' ta3).
Proof using LL.
  intros Ha%reachable_armed Hstandby Hdev Hup Ht Hs Hnow Hdl Hv Hls.
  destruct (check_defers k env ta targets upd v) as (He & Hp & Hne); [done..|].
  assert (Hq : quiet (Check k env)) by (split; [done|intros ? ? [=]]).
  pose proof (perform_keeps_armed _ _ Hq Ha) as Ha1.
  destruct (perform (Check k env) ta) as [ta1 effects]. cbn [fst snd] in *. rewrite <- Hp in Hne.
  pose proof (performs_pending ls ta1 Hls Hne) as Hp2. pose proof (performs_armed ls ta1 Hls Ha1) as Ha2.
  set (ta2 := performs ls ta1) in *. clearbody ta2.
  assert (Hwake : wakeUp DelayOver ta2 =
    (with_pending [] (pendingRestartOsquerydVersion ta2) (with_delay (initialDelayEnd ta2) None ta2),
      [ReloadLauncher (pendingRestartLauncherVersion ta2)], Some (Some (pendingRestartLauncherVersion ta2)))).
  { cbn [wakeUp]. unfold restartIfPending. cbn. by destruct (pendingRestartLauncherVersion ta2). }
  rewrite Hwake. cbn [fst snd]. split_and!; [done..| |done|done|done|].
  - intros now. unfold enabled. rewrite Ha2. split; [by intros (d & [= <-] & Hle)|]. by exists (initialDelayEnd ta2).
  - intros ls' now (d & Hd & _). rewrite performs_disarmed in Hd; done.
Qed.
End Reached.

(** ** The splay of downloads *)

(** A download waits at most for the splay after the promotion of its release, by a number of seconds that
    is drawn once, and once it may start it is never held back again. *)
Theorem splay_window k env env' ta b targets :
  0 <= k_DownloadSplay k → dl_now env <= dl_now env' →
  let promoted := findReleasePromoteTime h b targets (updateChannel ta) in
  ∃ ta' d, shouldDelayDownload k env ta b targets = Ok (ta', d) ∧
    (d = true → promoted ≠ 0 ∧ dl_now env <= promoted * Second + k_DownloadSplay k ∧
       dl_now env < (promoted + calculatedSplayDelay ta') * Second) ∧
    (calculatedSplayDelay ta' = calculatedSplayDelay ta ∨
       calculatedSplayDelay ta = 0 ∧ 1 <= calculatedSplayDelay ta' <= Z.quot (k_DownloadSplay k) Second) ∧
    ∃ d', shouldDelayDownload k env' ta' b targets = Ok (ta', d') ∧ (d = false → d' = false).
Proof using Type.
  intros Hk Hnow promoted. unfold shouldDelayDownload. fold promoted.
  destruct (Z.eqb_spec (k_DownloadSplay k) 0) as [H0|H0].
  { exists ta, false. split_and!; [done..|by left|]. by exists false. }
  destruct (Z.eqb_spec promoted 0) as [H1|H1].
  { exists ta, false. split_and!; [done..|by left|]. fold promoted. destruct (Z.eqb_spec promoted 0); [|done]. by exists false. }
  destruct (Z.ltb_spec (k_DownloadSplay k) (dl_now env - promoted * Second)) as [H2|H2].
  { exists ta, false. split_and!; [done..|by left|]. fold promoted. destruct (Z.eqb_spec promoted 0); [done|].
    destruct (Z.ltb_spec (k_DownloadSplay k) (dl_now env' - promoted * Second)); [|lia]. by exists false. }
  set (q := Z.quot (k_DownloadSplay k) Second).
  assert (Hq : 0 <= q) by (unfold q; apply Z.quot_pos; [lia|done]).
  assert (Hget : ∃ ta1 n, getSplayDelaySeconds k (dl_rand env) ta = Ok (ta1, n) ∧
    updateChannel ta1 = updateChannel ta ∧ n = calculatedSplayDelay ta1 ∧
    (calculatedSplayDelay ta1 = calculatedSplayDelay ta ∨
       calculatedSplayDelay ta = 0 ∧ 1 <= calculatedSplayDelay ta1 <= q) ∧
    ∀ r, getSplayDelaySeconds k r ta1 = Ok (ta1, n)).
  { unfold getSplayDelaySeconds. fold q. destruct (Z.eqb_spec (calculatedSplayDelay ta) 0) as [Hc|Hc]; cbn [negb].
    - destruct (Z.eqb_spec q 0) as [Hq0|Hq0].
      + exists ta, 0. split_and!; [done..|by left|]. intros r. by rewrite Hc.
      + unfold Int63n. destruct (Z.leb_spec q 0); [lia|]. cbn [mbind res_bind].
        pose proof (Z.mod_pos_bound (dl_rand env) q ltac:(lia)) as Hm.
        exists (with_splay (dl_rand env mod q + 1) ta), (dl_rand env mod q + 1). split_and!; [done..| |].
        * right. cbn. split; [done|lia].
        * intros r. cbn [calculatedSplayDelay with_splay]. destruct (Z.eqb_spec (dl_rand env mod q + 1) 0); [lia|done].
    - exists ta, (calculatedSplayDelay ta). split_and!; [done..|by left|]. intros r. destruct (Z.eqb_spec (calculatedSplayDelay ta) 0); done. }
  destruct Hget as (ta1 & n & -> & Hch & -> & Hc & Hagain). cbn [mbind res_bind].
  eexists ta1, _. split; [done|]. split; [|split; [done|]].
  - intros Hlt%Z.ltb_lt. split_and!; [done|lia|done].
  - rewrite Hch. fold promoted. destruct (Z.eqb_spec promoted 0); [done|].
    destruct (Z.ltb_spec (k_DownloadSplay k) (dl_now env' - promoted * Second)); [by exists false|].
    rewrite Hagain. cbn [mbind res_bind]. eexists. split; [done|]. rewrite !Z.ltb_ge. lia.
Qed.

(** ** A failure holds the other binary back *)

(** A check whose metadata has no usable release of osqueryd *)
Definition osqueryd_missing (ta : TufAutoupdater) (l : label) : Prop :=
  ∃ k env targets e, l = Check k env ∧ ce_targets env = Ok targets ∧
    findTarget h binaryOsqueryd targets (pinnedVersions ta binaryOsqueryd) (updateChannel ta) = Err e.

Lemma osqueryd_missing_check ta l : osqueryd_missing ta l →
  downloaded ta (perform l ta).1 ∧ (perform l ta).2 = [].
Proof using Type.
  intros (k & env & targets & e & -> & Ht & He). cbn [perform]. unfold checkForUpdate.
  destruct (k_InModernStandby k); [by split; [apply downloaded_refl|]|].
  destruct (negb _); [by split; [apply downloaded_refl|]|]. rewrite Ht. cbn [wrap].
  pose proof (downloadUpdates_frame k env targets true binaries ta (λ _, None) []) as Hd.
  assert (Herr : ∀ upd errs, (downloadUpdates k env targets true binaries ta (λ _, None) []).2 = Ok (upd, errs) → errs ≠ []).
  { intros upd errs. unfold binaries. cbn [downloadUpdates].
    pose proof (downloadUpdate_frame k (ce_download env binaryLauncher) ta binaryLauncher targets true) as Hl.
    assert (Ho : ∀ ta1, downloaded ta ta1 →
      ∃ e, downloadUpdate k (ce_download env binaryOsqueryd) ta1 binaryOsqueryd targets true = (ta1, Err e)).
    { intros ta1 H1. unfold downloadUpdate.
      assert (Hsame : pinnedVersions ta1 = pinnedVersions ta ∧ updateChannel ta1 = updateChannel ta) by (rewrite H1; done).
      destruct Hsame as [-> ->]. rewrite He. by eexists. }
    destruct (downloadUpdate k _ ta binaryLauncher _ _) as [ta1 [[|c t]|e1| |]]; try done;
      destruct (Ho ta1 Hl) as [e' ->]; cbn [snd]; by intros [= _ <-]. }
  destruct (downloadUpdates _ _ _ _ _ _ _ _) as [ta1 [[upd [|e' errs]]|e'| |]]; cbn [fst snd] in *; try done.
  by destruct (Herr upd [] eq_refl).
Qed.

(** While the update of osqueryd fails, launcher is not restarted into an update of its own, however often
    it is checked and although it is downloaded: the check gives up on the errors before it
    looks at what was downloaded. *)
Theorem failure_holds_back ls l ta : Forall (osqueryd_missing ta) (ls ++ [l]) →
  let ta' := foldl (λ ta l, (perform l ta).1) ta ls in
  pendingRestartLauncherVersion ta' = pendingRestartLauncherVersion ta ∧ signalRestart ta' = signalRestart ta ∧
  (perform l ta').2 = [].
Proof using Type.
  intros [Hls Hl]%Forall_app. apply Forall_cons in Hl as [Hl _]. cbv zeta.
  assert (Hd : downloaded ta (foldl (λ ta l, (perform l ta).1) ta ls)).
  { assert (Hgo : ∀ ta1, downloaded ta ta1 → downloaded ta (foldl (λ ta l, (perform l ta).1) ta1 ls)).
    { clear Hl. induction Hls as [|l' ls Hl' Hls IH]; intros ta1 H1; [done|]. cbn [foldl]. apply IH.
      eapply downloaded_trans; [exact H1|]. apply osqueryd_missing_check.
      destruct Hl' as (k & env & targets & e & -> & Ht & He). exists k, env, targets, e. split_and!; [done..|].
      by rewrite H1. }
    apply Hgo, downloaded_refl. }
  set (ta' := foldl _ ta ls) in *. split_and!; [by rewrite Hd..|]. apply osqueryd_missing_check.
  destruct Hl as (k & env & targets & e & -> & Ht & He). exists k, env, targets, e. split_and!; [done..|]. by rewrite Hd.
Qed.
End Autoupdater.

(** ** The update library satisfies what the autoupdater relies on *)
Section LibraryInstance.
Context `{SV : Semver} `{TM : TufMeta} `{AR : Archive} (self base : bytes).

Record libraryEnv := LibraryEnv {
  le_runs : bytes → nat → run; le_stage : stageEnv; le_move : moveEnv; le_removes : bytes → bool
}.

(** The libraries of the binaries *)
Definition libraries : Type := autoupdatableBinary → gmap bytes exe.

Definition set_library (ls : libraries) (b : autoupdatableBinary) (l : gmap bytes exe) : libraries :=
  λ b', if bool_decide (b' = b) then l else ls b'.

Definition placeOf (b : autoupdatableBinary) : place := Place self b base.

#[export] Instance updateLibrary : Librarian libraries libraryEnv := {|
  lib_Available e ls b t := Available (placeOf b) (le_runs e) (ls b) t;
  lib_AddToLibrary e ls b cur t m :=
    let '(l, r) := AddToLibrary (placeOf b) (le_runs e) (le_stage e) (le_move e) cur t m (ls b) in
    (set_library ls b l, r);
  lib_TidyLibrary e ls b cur := set_library ls b (TidyLibrary (placeOf b) (le_runs e) (le_removes e) cur (ls b))
|}.

(** The archives that verify leave other versions alone. *)
Definition sane_library (e : libraryEnv) : Prop :=
  ∀ b m archive v, verified (le_stage e) m archive →
    confined (placeOf b) (mv_performs (le_move e)) (tempName v (mv_micros (le_move e))) archive.

Definition proper_version (v : bytes) : Prop := name v ∧ ∀ pattern micros, v ≠ tempName pattern micros.

Lemma Available_has p runs lib t : Available p runs lib t = true → is_Some (lib !! versionFromTarget (binary p) t).
Proof using Type.
  unfold Available, pathToTargetVersionExecutable, executable.
  destruct (lib !! _); [by eexists|]. done.
Qed.

#[export] Instance updateLibrary_laws : LibrarianLaws libraries libraryEnv.
Proof using Type.
  refine {| proper := proper_version; sane := sane_library; holds ls b v := is_Some (ls b !! v) |}.
  - intros v [[[? _] _] _]. done.
  - intros e ls b t _ H. by apply Available_has in H.
  - intros e ls b cur t m Hs [Hn Ht] Hcur. cbn [lib_AddToLibrary updateLibrary].
    pose proof (AddToLibrary_spec (placeOf b) (le_runs e) (le_stage e) (le_move e) cur t m (ls b) Hn) as Ha.
    destruct (AddToLibrary _ _ _ _ _ _ _ _) as [l r]. destruct Ha as (Ho & _ & Hc). intros Hr.
    destruct (Hc (λ archive Hv, Hs b m archive _ Hv)) as (_ & Hv & _).
    unfold set_library. cbn [fst]. rewrite bool_decide_eq_true_2 by done.
    destruct (Ho Hr) as [Hb|[Ha|(_ & ? & e' & _ & _ & He)]]; [done| |by eexists].
    destruct Hv as [Hv|(_ & ? & e' & _ & _ & He)]; [|by eexists]. cbn in Hv. rewrite Hv. by apply Available_has in Ha.
  - intros e ls b cur t m b' v Hs [Hn Ht] [Hnv Htv]. cbn [lib_AddToLibrary updateLibrary].
    pose proof (AddToLibrary_spec (placeOf b) (le_runs e) (le_stage e) (le_move e) cur t m (ls b) Hn) as Ha.
    destruct (AddToLibrary _ _ _ _ _ _ _ _) as [l r]. destruct Ha as (_ & _ & Hc). intros Hh.
    destruct (Hc (λ archive Hv, Hs b m archive _ Hv)) as (Hu & Hv & _).
    unfold set_library. cbn [fst]. case_bool_decide as Hb; [subst b'|done].
    destruct (decide (v = versionFromTarget b t)) as [->|Hne].
    + destruct Hv as [Hv|(_ & ? & e' & _ & _ & He)]; [|by eexists]. cbn in Hv. by rewrite Hv.
    + rewrite Hu; [done|done|done|apply Htv..].
Defined.
End LibraryInstance.
End Autoupdate.

(** ** Concrete parameters, and the theorems on them *)
Module AutoupdateExamples.
Import Autoupdate TufExamples.

(** A library as a list of versions, to which anything can be added *)
Abbreviation shelf := (list (autoupdatableBinary * bytes)).

#[export] Instance shelf_librarian : Librarian shelf unit := {|
  lib_Available _ l b t := bool_decide ((b, versionFromTarget b t) ∈ l);
  lib_AddToLibrary _ l b _ t _ := ((b, versionFromTarget b t) :: l, Ok ());
  lib_TidyLibrary _ l _ _ := l
|}.

#[export] Instance shelf_laws : LibrarianLaws shelf unit.
Proof.
  refine {| proper v := v ≠ []; sane _ := True; holds l b v := (b, v) ∈ l |}.
  - done.
  - intros ? l b t _. cbn. by case_bool_decide.
  - intros ? l b cur t m _ _ _ _. left.
  - intros ? l b cur t m b' v _ _ _ Hv. by right.
Defined.

#[export] Instance request_json : RequestJSON := {| decodeRequest s := Some (Request [s] true) |}.

Definition releases : targetFiles (TM := meta_tuf) :=
  ({[ bs "launcher/linux/amd64/stable/release.json" := Meta [] (Some (bs "launcher/linux/amd64/launcher-1.0.3.tar.gz"));
     bs "launcher/linux/amd64/launcher-1.0.3.tar.gz" := Meta (bs "x") None;
     bs "osqueryd/linux/amd64/stable/release.json" := Meta [] (Some (bs "osqueryd/linux/amd64/osqueryd-5.0.0.tar.gz"));
     bs "osqueryd/linux/amd64/osqueryd-5.0.0.tar.gz" := Meta (bs "y") None ]} : gmap bytes meta).

Definition flags1 : flags := Flags (bs "stable") (λ _, []) (3600 * Second) 60 100 [] false.
Definition running1 : runningEnv := RunningEnv (bs "1.0.1") (Some {[ bs "version" := bs "5.0.0" ]}) (Err EOF).
Definition check1 (now : Z) (targets : targetFiles (TM := meta_tuf)) : checkEnv :=
  CheckEnv (λ _, true) (Ok targets) (λ _, DownloadEnv running1 (10 ^ 15) 7 tt) now.
Definition start1 : TufAutoupdater (L := shelf) :=
  startExecute flags1 (λ _, running1) (λ _, tt) (NewTufAutoupdater 0 flags1 true []).

Lemma findTarget_key `{TM : TufMeta} h b (targets : targetFiles) pin chan t m :
  findTarget h b targets pin chan = Ok (t, m) → ∃ k, targets !! k = Some m ∧ t = Base k.
Proof.
  assert (Hrel : findRelease h b targets chan = Ok (t, m) → ∃ k, targets !! k = Some m ∧ t = Base k).
  { unfold findRelease. destruct (match targets !! _ with Some _ => _ | None => _ end) as [r|e| |]; cbn; try done.
    destruct (is_empty r); [done|]. destruct (targets !! r) eqn:Hr; [|done]. intros [= <- <-]. by exists r. }
  unfold findTarget. destruct (is_empty pin); [done|]. unfold findTargetByVersion.
  destruct (targets !! _) eqn:Hk; [|done]. intros [= <- <-]. by eexists.
Qed.

Lemma releases_named : named (L := shelf) (E := unit) linux releases.
Proof.
  intros b pin chan t m (k & Hk & ->)%findTarget_key. cbn [proper shelf_laws].
  assert (Hall : Forall (λ k, ∀ b, versionFromTarget b (Base k) ≠ []) (map_to_list (releases : gmap bytes meta)).*1).
  { vm_compute. repeat (apply Forall_cons; split; [intros []; intros H; discriminate H|]). apply Forall_nil. exact I. }
  rewrite Forall_forall in Hall. apply Hall. apply list_elem_of_fmap. exists (k, m). split; [done|].
  by apply elem_of_map_to_list.
Qed.

Lemma sane1 now : sane_check (L := shelf) linux (check1 now releases).
Proof. split; [done|]. intros targets [= <-]. apply releases_named. Qed.

Example update_after_delay :
  (perform linux (Check flags1 (check1 200 releases)) start1).2 = [ReloadLauncher (bs "1.0.3")] ∧
  (perform linux (Check flags1 (check1 50 releases)) start1).2 = [] ∧
  pendingRestartLauncherVersion (perform linux (Check flags1 (check1 50 releases)) start1).1 = bs "1.0.3".
Proof. vm_compute. done. Qed.

Lemma no_early_restart_witness : initialDelayEnd (perform linux (Check flags1 (check1 200 releases)) start1).1 <= 200.
Proof.
  destruct (no_early_restart linux (λ _, True) 150 start1 (Check flags1 (check1 200 releases)) 200) as [H|H].
  - apply reachable_start. lia.
  - cbn. lia.
  - exact I.
  - vm_compute. intros H. discriminate H.
  - discriminate H.
  - exact H.
Defined.

Lemma restarts_into_library_witness :
  Forall (effect_held (libraryManager (perform linux (Check flags1 (check1 200 releases)) start1).1))
    (perform linux (Check flags1 (check1 200 releases)) start1).2.
Proof.
  apply (restarts_into_library linux 150 start1 (Check flags1 (check1 200 releases))).
  - apply reachable_start. lia.
  - apply sane1.
Defined.

Lemma deferred_restart_performed_witness :
  let ta2 := performs linux [Request_ flags1 60 (check1 60 releases) (bs "launcher"); Wake Ticked 70]
    (perform linux (Check flags1 (check1 50 releases)) start1).1 in
  enabled (E := unit) (Wake DelayOver 100) ta2 ∧
  (wakeUp DelayOver ta2).2 = Some (Some (pendingRestartLauncherVersion ta2)).
Proof.
  pose proof (deferred_restart_performed linux flags1 (check1 50 releases) 40 start1 releases
    (λ b, if bool_decide (b = binaryLauncher) then Some (bs "1.0.3") else None) (bs "1.0.3")
    [Request_ flags1 60 (check1 60 releases) (bs "launcher"); Wake Ticked 70]) as H.
  destruct (perform linux (Check flags1 (check1 50 releases)) start1) as [ta1 effects] eqn:Hp.
  destruct H as (_ & _ & _ & Hen & _ & Hret & _).
  - apply reachable_start. lia.
  - reflexivity.
  - reflexivity.
  - reflexivity.
  - reflexivity.
  - apply sane1.
  - vm_compute. reflexivity.
  - vm_compute. reflexivity.
  - reflexivity.
  - repeat constructor; try apply sane1; try done; by intros w now [= <- _].
  - cbn [fst]. split; [|exact Hret]. apply Hen. injection Hp as <- _. vm_compute. discriminate.
Defined.

Lemma splay_window_witness :
  let env now := DownloadEnv running1 now 7 tt in
  ∃ ta' d, shouldDelayDownload linux flags1 (env (200 * Second)) start1 binaryLauncher releases = Ok (ta', d) ∧
    ∃ d', shouldDelayDownload linux flags1 (env (300 * Second)) ta' binaryLauncher releases = Ok (ta', d') ∧ (d = false → d' = false).
Proof.
  destruct (splay_window linux flags1 (DownloadEnv running1 (200 * Second) 7 tt) (DownloadEnv running1 (300 * Second) 7 tt)
    start1 binaryLauncher releases ltac:(done) ltac:(done)) as (ta' & d & H1 & _ & _ & H2).
  exists ta', d. split; [exact H1|exact H2].
Defined.

Definition launcher_only : targetFiles (TM := meta_tuf) :=
  delete (bs "osqueryd/linux/amd64/stable/release.json") (releases : gmap bytes meta).

Lemma failure_holds_back_witness :
  let ta' := (perform linux (Check flags1 (check1 200 launcher_only)) start1).1 in
  libraryManager ta' = [(binaryLauncher, bs "1.0.3")] ∧
  (perform linux (Check flags1 (check1 300 launcher_only)) ta').2 = [].
Proof.
  split; [vm_compute; reflexivity|].
  apply (failure_holds_back linux [Check flags1 (check1 200 launcher_only)] (Check flags1 (check1 300 launcher_only)) start1).
  assert (H : ∀ now, osqueryd_missing linux start1 (Check flags1 (check1 now launcher_only))).
  { intros now. eexists _, _, _, _. split_and!; [reflexivity|reflexivity|vm_compute; reflexivity]. }
  by repeat constructor.
Defined.

(** A restart of osqueryd that was deferred stays pending when a request performs it early: osqueryd is
    restarted into the same version twice. *)
Example osqueryd_restarted_twice :
  let old := RunningEnv (bs "1.0.3") (Some {[ bs "version" := bs "4.0.0" ]}) (Err EOF) in
  let env now := CheckEnv (λ _, true) (Ok releases) (λ _, DownloadEnv old (10 ^ 15) 7 tt) now in
  let '(ta1, e1) := perform linux (Check flags1 (env 50)) start1 in
  let '(ta2, e2) := perform linux (Request_ flags1 60 (env 60) (bs "osqueryd")) ta1 in
  let '(ta3, e3) := perform linux (Wake DelayOver 100) ta2 in
  (e1, e2, e3) = ([], [RestartOsqueryd (bs "5.0.0")], [RestartOsqueryd (bs "5.0.0")]).
Proof. vm_compute. reflexivity. Qed.
End AutoupdateExamples.
